(* ===== verification/_CoqProject ===== *)
-Q . S2P
Prelude.v
Flat.v
Types.v
Ring.v
Constants.v
SendTypes.v
SendTable.v
Unicasts.v
UnicastFacts.v
Unrouted.v
BroadcastSends.v
BroadcastFacts.v
Sends.v
SendsFacts.v
SendsTheorems.v
SendLoops.v
Routing.v
RoutingFacts.v
Neighbors.v
NeighborFacts.v
NwkSecurity.v
Addresses.v
NwkBroadcasts.v
Budget.v
Fcs.v
AbstractBits.v
Codec.v
Mac.v
MacFacts.v
MacCodec.v
Crypto.v
CryptoFacts.v
NwkCommands.v
NwkFrame.v
NwkFrameFacts.v
Receive.v
NextHop.v
ApsFrame.v
ApsFrameFacts.v
ApsSecurity.v
ApsSecurityFacts.v
NwkCodec.v
NwkWitness.v
ApsWitness.v
Spinel.v
SpinelFacts.v
Effects.v
SpinelClient.v
SpinelClientFacts.v
Zdp.v
Stack.v
Tasks.v
Radio.v
SpinelPhy.v
OtLink.v
OtFirmware.v
StackSend.v
StackNwk.v
StackAps.v
StackJoin.v
StackRun.v
StackRadio.v
StackSteps.v
StackLink.v
StackSystem.v
StackWitness.v
Exchange.v
Wire.v
SendTracker.v
Bridge.v
HostSystem.v
Surface.v
Ncp.v
NcpFacts.v
Server.v
ServerFacts.v
Text.v
Rekey.v
RekeyFacts.v
HostWitness.v
