(* ===== verification/Prelude.v ===== *)
(** * Ziggurat: a verification development for the Zigbee stack under [src/crates]

    Ziggurat is a Zigbee stack. Sans-io tables (crate [ziggurat-zigbee]) hold the protocol's state,
    an async driver ([ziggurat-driver]) runs them against a radio ([ziggurat-phy] and its back ends,
    one of which speaks Spinel, [ziggurat-spinel]), and a host controls the driver over a binary
    protocol ([ziggurat-protocol]) served by a firmware ([ziggurat-ncp-api]) or a server
    ([ziggurat-server]). The development follows that structure from the tables up to the host.

    ** How Rust is modelled

    Code is translated to functions on explicit states. [res E A] below has the three outcomes of a
    Rust call: a value, an [Err], a panic; [may A] is code that has no error but may panic. Panics
    are those of a build with overflow checks and debug assertions: [unwrap], [expect], an index out
    of range, [assert!], [debug_assert!], arithmetic overflow. Integers are [Z] and their width is
    written out where it matters ([checked_add], [wrapping_add], saturation, truncation); [usize] has
    64 bits, and 32 in the firmware ([OtLink]). Bytes are lists of [Z] in [0, 255]. Time is in microseconds. Locks are held within one
    function, so a function under a lock is one step; the clock stands still within it, and the
    random draws it makes are read from its environment. Logging is left out. Wake-ups between tasks
    only say when a task runs, and the steps of [StackSystem] allow it to run at any time; that none
    is lost is the subject of [SendLoops] and [Tasks].

    ** Parameters

    Code outside the repository is a parameter with named laws, never a made-up definition:
    [AbstractBits] is the bit-layout derivation of the crate abstract-bits ([AbstractBitsLaws], with
    concrete instances in [Codec], [MacCodec], [NwkCodec], [NwkWitness], [ApsWitness] that satisfy
    them); [BlockCipher] and [Ccm] are the crates aes and ccm ([CcmLaws]: decryption inverts
    encryption); the CRC of crc_all, the COBS codec of cobs, the digits of hex, the blocks of
    pcap-file, the serial port ([RcpTransport]), the board ([Ncp.World]), the C functions of an
    OpenThread firmware ([OtFirmware.Platform], [CcmEngine]) and the timers of embassy
    ([TimerQueue]) are likewise arguments.

    ** Files

    Foundations: [Prelude] (outcomes, integers, tactics, generic lemmas), [Flat] (flat_map.rs, the
    sorted-vector maps, refined to [gmap]), [Types] and [Text] (types.rs: bytes and text), [Ring] (ring_buffer.rs), [Constants]
    (constants.rs, time.rs, the tunables), [Effects] (sequences of fallible calls on one state).

    The send tables of [sends/]: [SendTypes], [SendTable] (what the tables share), [Unicasts],
    [Unrouted], [BroadcastSends], [Sends] (the facade), with [UnicastFacts], [BroadcastFacts],
    [SendsFacts] and the theorems of [SendsTheorems]. [SendLoops] is the sender and the timer around
    them, with their wake-ups and clock (zigbee_stack/sends.rs, runtime.rs); the module [TimerPass]
    of [StackSteps] shows that the stack's own [drive_sends] is a pass of that timer.

    The tables of [nwk/]: [Routing] and [RoutingFacts], [Neighbors] and [NeighborFacts],
    [NwkSecurity], [Addresses], [NwkBroadcasts], [NextHop]; the driver's [Budget].

    Frames: [Mac], [MacFacts], [MacCodec], [Fcs] (ziggurat-ieee-802154), [NwkCommands], [NwkFrame],
    [NwkFrameFacts] (nwk/frame.rs, nwk/commands.rs), [ApsFrame], [ApsFrameFacts] (aps/frame.rs),
    [ApsSecurity], [ApsSecurityFacts] (aps/security.rs), [Crypto], [CryptoFacts] (crypto.rs), [Zdp]
    (zdp.rs, beacon.rs), [Receive] (the secured receive path).

    The driver, zigbee_stack.rs and zigbee_stack/: [Stack] is its state (the shared core, the slots
    of the send handles, the notifications, the tasklets, the scan), [StackSend], [StackNwk],
    [StackAps], [StackJoin], [StackRun], [StackRadio] its handlers. [StackSteps] shows that every
    handler only makes the table calls of the record [Closed], and [StackSystem] interleaves the
    tasks: a run is any sequence of received frames, client calls, timer passes, tasklet passes and
    the two halves of a transmission, each with its own clock, draws and tunables. A handler that
    awaits the radio is split at the await. [StackLink] ties the slots to the send tables,
    the module [LinkStatusFacts] of [StackNwk] is the link status batch. [Exchange] puts two stacks on
    the air, one speaking and one listening. The module [StackRecovery] of [StackRadio] is the
    radio over time, with what the other tasks do during each of its calls; [Tasks] is the registry
    of the tasks with its shutdown (also runtime.rs and sync.rs) and the timing of the periodic ones.

    The radio: [Radio] is the interface with its laws (class [RadioPhy], class [RadioLaws]);
    [Spinel], [SpinelFacts] (framing and the protocol state machine), [SpinelClient],
    [SpinelClientFacts] (requests with timeouts) and [SpinelPhy] implement it over a serial port;
    [OtLink] (ziggurat-phy-otlink) and [OtFirmware] (ziggurat-ot) inside an OpenThread firmware.

    The host: [Wire] (wire.rs), [SendTracker] (send_tracker.rs), [Bridge] (bridge.rs), [HostSystem]
    (the stack under its host), [Surface] (what a control surface promises), [Ncp] and [NcpFacts]
    (ziggurat-ncp-api), [Server] and [ServerFacts] (ziggurat-server). The capture tool: [Rekey] and
    [RekeyFacts] (pcap_rekey.rs).

    [NwkWitness], [ApsWitness], [StackWitness], [HostWitness] and the modules [SpinelWitness],
    [SendLoopsWitness], [ExchangeWitness] and [RekeyWitness] of their files evaluate the theorems at
    concrete inputs.

    ** What the theorems show

    - Sends: every send admitted to the tables is settled exactly once, no call panics, the timer
      contract wakes the driver in time and leaves no send stranded, dequeue takes the best frame,
      a cancellation takes every copy of a send or, when the radio has one, leaves
      all of them. The sender and the timer lose no wake-up, whatever
      the interleaving ([no_lost_wakeups]). On top of it, in every run of the whole stack, every
      handle resolves exactly once ([handles_resolve_once]), the driver never trips an unwrap of the
      tables ([send_table_never_trips]), and the host gets exactly the confirms each send owes
      ([host_learns_once]).
    - Security: in every run no secured frame is processed twice ([stack_no_replays]) and no nonce
      is used twice ([stack_nonces_increase]), across restarts from a backup too
      ([restart_keeps_nonces_fresh], which also shows that the APS counter never goes back); only
      authentic frames are handled. At the APS layer no frame is taken twice as long as the host
      restores no older counter ([aps_no_replays]), with the key exchange and the backup of the keys
      ([backup_keeps_keys]).
    - End to end: messages of up to 82 bytes cross the air from one stack to another, through every
      layer of both; over air that loses, repeats and delays packets the listener queues each for its
      host at most once and in order ([conversation_refined]).
    - Routing: next hops are found without panics unless the host or a sender gives the unknown
      address as one ([next_hop_never_panics]), discoveries end, a source route is followed relay by
      relay to its destination ([source_route_delivers]).
    - Frames: parsers are total on every input, serialization and parsing are inverse, encryption
      and decryption too, corruption is detected, the FCS is the CRC-16 of the standard and the hash
      is Matyas-Meyer-Oseas over padded blocks.
    - Radio: the Spinel stream reassembles from any chunks, responses reach their requests, commands
      settle, a scan returns to the channel the stack had when it began ([scan_returns_home], which
      also shows when that is no longer the channel of the network), and a reset brings the radio back on the channel of
      the network ([migration_survives_reset]). In the firmware a task that asks to be
      woken is woken or queued with the alarm armed no later than its deadline ([alarm_is_rearmed]), received frames are accounted for
      ([received_frames_accounted]) and the pump to the host misses no wake-up
      ([pump_never_stuck]).
    - Host: the firmware and the server keep the same life cycle ([lifecycle_refined],
      [server_lifecycle_refined]): a request is refused in the wrong phase and carried out in the
      right one. The firmware answers every request exactly once ([one_reply_per_request]); the
      server takes the requests of a byte stream or a WebSocket in order and spawns a task for each,
      which writes its events and then one reply ([server_answers_stream]); a stack that is shut down
      has stopped all its tasks ([shutdown_drains]).
    - Tools: a rekeyed capture reads under the new key as the old one did under the old
      ([rekeyed_packet_reads_the_same]), and the key it announces is learned from the packet it adds
      ([announced_key_is_learned]); printed addresses and keys parse back ([text_round_trip]).

    ** Bounds and fuel

    Loops that are not structural take fuel that is shown to be enough: the length of the buffer plus
    one for the Spinel parsers and drains, 8 for a free transaction id, 5 septets for a packed
    integer, the number of blocks for the hash and its padding, the number of entries plus one for
    the link status batch ([link_status_batch_complete]), the number of relays for a source route.
    The attempts of the radio reset are the code's own 5; those of the radio recovery are one more
    than the radio refuses, the turns of the timer driver one more than there are deadlines.

    ** Not modelled

    The executors, timers, locks and random sources of tokio and embassy ([runtime.rs], [sync.rs],
    [rng.rs] wrap them): the interleavings of [StackSystem.step], [SendLoops.step] and [Tasks.step]
    stand for what they schedule, and [Clock.RtInstantLaws] for what their clocks promise. The allocator, the executor and the panic handler of [ziggurat-ot], which bind foreign
    functions. Sockets, files, command lines and logging. *)

From stdpp Require Export base list gmap strings countable sorting.
From Stdlib Require Export ZArith Lia.

#[global] Open Scope Z_scope.
#[export] Set Default Goal Selector "!".

(** ** Outcomes of Rust code

    A Rust function of the stack returns a value, returns an [Err], or panics
    ([unwrap], [expect], [assert!], an index out of range, [checked_add(..).unwrap()]).
    [res E A] has the three outcomes; infallible code that may still panic is
    [res Empty_set A], abbreviated [may A]. *)
Inductive res (E A : Type) : Type :=
| Ok (a : A)
| Err (e : E)
| Panic.
Arguments Ok {E A} a.
Arguments Err {E A} e.
Arguments Panic {E A}.

Abbreviation may A := (res Empty_set A).

#[export] Instance res_ret E : MRet (res E) := fun A a => Ok a.
#[export] Instance res_bind E : MBind (res E) := fun A B f m =>
  match m with
  | Ok a => f a
  | Err e => Err e
  | Panic => Panic
  end.
#[export] Instance res_fmap E : FMap (res E) := fun A B f m =>
  match m with
  | Ok a => Ok (f a)
  | Err e => Err e
  | Panic => Panic
  end.

(** [Option::unwrap] and [Option::expect]. *)
Definition unwrap {E A} (o : option A) : res E A :=
  match o with
  | Some a => Ok a
  | None => Panic
  end.

(** [Option::ok_or]. *)
Definition ok_or {E A} (e : E) (o : option A) : res E A :=
  match o with
  | Some a => Ok a
  | None => Err e
  end.

(** [Result::map_err], and the [From] conversion of the [?] operator. *)
Definition map_err {E E' A} (f : E -> E') (m : res E A) : res E' A :=
  match m with
  | Ok a => Ok a
  | Err e => Err (f e)
  | Panic => Panic
  end.

(** [Result::ok]. *)
Definition res_ok {E A} (m : res E A) : res Empty_set (option A) :=
  match m with
  | Ok a => Ok (Some a)
  | Err _ => Ok None
  | Panic => Panic
  end.

(** [assert!(b)]. *)
Definition rust_assert {E} (b : bool) : res E unit :=
  if b then Ok tt else Panic.

(** A computation that does not panic, whatever else it does. *)
Definition no_panic {E A} (m : res E A) : Prop := m <> Panic.

Lemma ok_inj {E A} (x y : A) : @Ok E A x = Ok y -> x = y.
Proof. congruence. Qed.

Lemma bind_ok {E A B} (m : res E A) (f : A -> res E B) b :
  (m ≫= f) = Ok b <-> exists a, m = Ok a /\ f a = Ok b.
Proof. destruct m; cbn; naive_solver. Qed.

Lemma bind_err {E A B} (m : res E A) (f : A -> res E B) e :
  (m ≫= f) = Err e <-> m = Err e \/ exists a, m = Ok a /\ f a = Err e.
Proof. destruct m; cbn; naive_solver. Qed.

Lemma no_panic_bind {E A B} (m : res E A) (f : A -> res E B) :
  no_panic m -> (forall a, m = Ok a -> no_panic (f a)) -> no_panic (m ≫= f).
Proof. destruct m; unfold no_panic; cbn; naive_solver. Qed.

Lemma no_panic_ok {E A} (a : A) : no_panic (Ok (E:=E) a).
Proof. discriminate. Qed.

Lemma no_panic_err {E A} (e : E) : no_panic (Err (A:=A) e).
Proof. discriminate. Qed.

Lemma no_panic_map_err {E E' A} (f : E -> E') (m : res E A) :
  no_panic m -> no_panic (map_err f m).
Proof. destruct m; unfold no_panic; naive_solver. Qed.

Lemma no_panic_ok_or {E A} (e : E) (o : option A) : no_panic (ok_or e o).
Proof. by destruct o. Qed.

Lemma unwrap_ok {E A} (o : option A) a : unwrap (E:=E) o = Ok a <-> o = Some a.
Proof. destruct o; naive_solver. Qed.

(** An infallible computation ([may A]) that does not panic returns. *)
Lemma may_returns {A} (m : may A) : no_panic m -> exists a, m = Ok a.
Proof. destruct m as [a|[]|]; [eauto|done]. Qed.

Create HintDb zig discriminated.
#[export] Hint Resolve no_panic_ok no_panic_err no_panic_ok_or no_panic_map_err : zig.

(** ** Lists *)
Lemma omap_none {A B} (f : A -> option B) (l : list A) : (forall x, x ∈ l -> f x = None) -> omap f l = [].
Proof.
  induction l as [|x l IH]; intros Hf; [done|]. cbn. rewrite Hf by set_solver. apply IH. set_solver.
Qed.

Lemma filter_length_mono {A} (P Q : A -> Prop) `{forall x, Decision (P x), forall x, Decision (Q x)} (l : list A) :
  (forall x, P x -> Q x) -> (length (filter P l) <= length (filter Q l))%nat.
Proof.
  intros HPQ. induction l as [|x l IH]; [done|]. rewrite !filter_cons.
  destruct (decide (P x)) as [HP|HP], (decide (Q x)) as [HQ|HQ]; cbn; [lia|by apply HPQ in HP|lia|lia].
Qed.

Lemma filter_all {A} (P : A -> Prop) `{forall x, Decision (P x)} (l : list A) :
  (forall x, x ∈ l -> P x) -> filter P l = l.
Proof.
  induction l as [|x l IH]; intros Hall; [done|]. rewrite filter_cons_True by (apply Hall; set_solver).
  f_equal. apply IH. set_solver.
Qed.

(** [Iterator::min] of instants. *)
Fixpoint min_instant (l : list Z) : option Z :=
  match l with
  | [] => None
  | x :: l => match min_instant l with None => Some x | Some y => Some (Z.min x y) end
  end.

Lemma min_instant_spec l :
  match min_instant l with
  | None => l = []
  | Some y => y ∈ l /\ forall z, z ∈ l -> y <= z
  end.
Proof.
  induction l as [|x l IH]; [done|]. cbn. destruct (min_instant l) as [y|].
  - destruct IH as [Hin Hle]. split.
    + destruct (Z.min_spec x y) as [[_ ->]|[_ ->]]; set_solver.
    + intros z [->|Hz]%elem_of_cons; [lia|]. apply Hle in Hz. lia.
  - subst l. split; [set_solver|]. intros z ->%list_elem_of_singleton. lia.
Qed.

(** ** Machine integers

    A [w]-bit unsigned integer is a [Z] in [0 .. 2^w - 1]. *)
Definition in_width (w z : Z) : Prop := 0 <= z < 2 ^ w.
Abbreviation is_u8 := (in_width 8).
Abbreviation is_u16 := (in_width 16).
Abbreviation is_u32 := (in_width 32).
Abbreviation is_u64 := (in_width 64).

Definition u8_max : Z := 255.
Definition u16_max : Z := 65535.
Definition u32_max : Z := 4294967295.
Definition u64_max : Z := 18446744073709551615.

(** [wrapping_add], [saturating_add], [saturating_sub] and [checked_add] at the width whose
    largest value is [m]. *)
Definition wrapping_add (m a b : Z) : Z := (a + b) mod (m + 1).
Definition saturating_add (m a b : Z) : Z := Z.min (a + b) m.
Definition saturating_sub (a b : Z) : Z := Z.max (a - b) 0.
Definition checked_add (m a b : Z) : option Z :=
  if a + b <=? m then Some (a + b) else None.
Definition checked_sub (a b : Z) : option Z :=
  if b <=? a then Some (a - b) else None.

Lemma lxor_width w a b : 0 <= a < 2 ^ w -> 0 <= b < 2 ^ w -> 0 <= Z.lxor a b < 2 ^ w.
Proof.
  intros Ha Hb. destruct (Z.lt_ge_cases w 0) as [Hw|Hw]; [rewrite Z.pow_neg_r in * by done; lia|].
  split; [apply Z.lxor_nonneg; lia|]. destruct (Z.eq_dec (Z.lxor a b) 0) as [->|Hnz]; [lia|].
  apply Z.log2_lt_pow2; [assert (0 <= Z.lxor a b) by (apply Z.lxor_nonneg; lia); lia|].
  pose proof (Z.log2_lxor a b ltac:(lia) ltac:(lia)) as Hl.
  assert (forall z, 0 <= z < 2 ^ w -> z = 0 \/ Z.log2 z < w) as Hlog.
  { intros z Hz. destruct (Z.eq_dec z 0) as [->|]; [by left|right]. apply Z.log2_lt_pow2; lia. }
  destruct (Hlog a Ha) as [->|], (Hlog b Hb) as [->|]; rewrite ?Z.lxor_0_l, ?Z.lxor_0_r in *; cbn in *; lia.
Qed.

#[export] Instance in_width_dec w z : Decision (in_width w z).
Proof. unfold in_width. apply _. Defined.

Lemma saturating_add_range m a b : 0 <= a <= m -> 0 <= b -> 0 <= saturating_add m a b <= m.
Proof. unfold saturating_add. lia. Qed.

Lemma saturating_sub_range m a b : 0 <= a <= m -> 0 <= b -> 0 <= saturating_sub a b <= m.
Proof. unfold saturating_sub. lia. Qed.

Lemma wrapping_add_range m a b : 0 <= m -> 0 <= wrapping_add m a b <= m.
Proof. intros. unfold wrapping_add. pose proof (Z.mod_pos_bound (a + b) (m + 1)). lia. Qed.

#[export] Hint Resolve saturating_add_range saturating_sub_range wrapping_add_range : zig.

(** ** Bytes and little-endian integers *)
Abbreviation byte := Z (only parsing).
Abbreviation bytes := (list Z).

Definition is_bytes (bs : bytes) : Prop := Forall (in_width 8) bs.

#[export] Instance is_bytes_dec bs : Decision (is_bytes bs).
Proof. unfold is_bytes. apply _. Defined.

Lemma is_bytes_nil : is_bytes [].
Proof. apply List.Forall_nil. Qed.
Lemma is_bytes_app l k : is_bytes l -> is_bytes k -> is_bytes (l ++ k).
Proof. intros. by apply Forall_app. Qed.
Lemma is_bytes_cons b l : in_width 8 b -> is_bytes l -> is_bytes (b :: l).
Proof. intros. by apply Forall_cons. Qed.

#[export] Hint Resolve is_bytes_nil is_bytes_app is_bytes_cons : zig.

(** [to_le_bytes] of an [n]-byte integer. *)
Fixpoint to_le_bytes (n : nat) (z : Z) : bytes :=
  match n with
  | O => []
  | S n => (z mod 256) :: to_le_bytes n (z / 256)
  end.

(** [from_le_bytes]. *)
Fixpoint from_le_bytes (bs : bytes) : Z :=
  match bs with
  | [] => 0
  | b :: bs => b + 256 * from_le_bytes bs
  end.

Lemma length_to_le_bytes n z : length (to_le_bytes n z) = n.
Proof. revert z. induction n; intros; cbn; [done|]. by rewrite IHn. Qed.

Lemma is_bytes_to_le_bytes n z : is_bytes (to_le_bytes n z).
Proof.
  revert z. induction n as [|n IH]; intros z; cbn; constructor; [|apply IH].
  unfold in_width. pose proof (Z.mod_pos_bound z 256). lia.
Qed.

#[export] Hint Resolve is_bytes_to_le_bytes : zig.

Lemma from_to_le_bytes n z :
  in_width (8 * Z.of_nat n) z -> from_le_bytes (to_le_bytes n z) = z.
Proof.
  revert z. induction n as [|n IH]; intros z [Hlo Hhi]; cbn.
  { change (2 ^ (8 * Z.of_nat 0)) with 1 in Hhi. lia. }
  replace (8 * Z.of_nat (S n)) with (8 + 8 * Z.of_nat n) in Hhi by lia.
  rewrite Z.pow_add_r in Hhi by lia. change (2 ^ 8) with 256 in Hhi.
  rewrite IH; [rewrite (Z.div_mod z 256) at 3 by lia; lia|].
  split; [apply Z.div_pos; lia|apply Z.div_lt_upper_bound; lia].
Qed.

Lemma from_le_bytes_range bs :
  is_bytes bs -> in_width (8 * Z.of_nat (length bs)) (from_le_bytes bs).
Proof.
  unfold is_bytes, in_width. induction 1 as [|b bs Hb Hbs IH]; cbn [length from_le_bytes]; [done|].
  replace (8 * Z.of_nat (S (length bs))) with (8 + 8 * Z.of_nat (length bs)) by lia.
  rewrite Z.pow_add_r by lia. lia.
Qed.

Lemma to_from_le_bytes bs :
  is_bytes bs -> to_le_bytes (length bs) (from_le_bytes bs) = bs.
Proof.
  unfold is_bytes, in_width. induction 1 as [|b bs Hb Hbs IH]; cbn [length to_le_bytes from_le_bytes]; [done|].
  rewrite (Z.mul_comm 256), Z.mod_add, Z.div_add, Z.mod_small, (Z.div_small b) by lia.
  by rewrite Z.add_0_l, IH.
Qed.

(** [slice.split_at(n)] where the slice is known to be long enough. *)
Lemma take_drop_app_length {A} (l k : list A) n :
  length l = n -> take n (l ++ k) = l /\ drop n (l ++ k) = k.
Proof. intros <-. by rewrite take_app_length, drop_app_length. Qed.

(** ** Time

    [src/crates/ziggurat-zigbee/src/time.rs]: an [Instant] is a [u64] count of microseconds,
    and every [Duration] the stack handles is a whole number of microseconds (the tunables are
    [u32] microseconds, the constants whole seconds), so a [Duration] is its [as_micros]. *)
Module Instant.
Definition from_micros (micros : Z) : Z := micros.

Definition saturating_duration_since (self earlier : Z) : Z := saturating_sub self earlier.

Definition add (self rhs : Z) : Z :=
  let add := if rhs <=? u64_max then rhs else u64_max in
  saturating_add u64_max self add.

Lemma add_mono_r t d d' : 0 <= t -> d <= d' -> add t d <= add t d'.
Proof.
  unfold add, saturating_add. destruct (Z.leb_spec d u64_max), (Z.leb_spec d' u64_max); lia.
Qed.

Lemma add_exact t d : 0 <= d -> 0 <= t -> t + d <= u64_max -> add t d = t + d.
Proof. unfold add, saturating_add. intros. destruct (Z.leb_spec d u64_max); lia. Qed.

Lemma add_ge t d : 0 <= t <= u64_max -> 0 <= d -> t <= add t d <= u64_max.
Proof.
  unfold add, saturating_add. intros. unfold u64_max in *. destruct (Z.leb_spec d 18446744073709551615); lia.
Qed.
End Instant.
Abbreviation Instant := Z (only parsing).
Abbreviation Duration := Z (only parsing).
