(* ===== verification/Flat.v ===== *)
(** * Sorted-vector maps: [src/crates/ziggurat-zigbee/src/flat_map.rs]

    [FlatMap] and [FlatSet], the sorted-[Vec] replacements of [BTreeMap]/[BTreeSet] that every
    table of the stack is kept in.  The vector is private to the module and every operation
    keeps it sorted, so here the sortedness is part of the type: [FlatMap.t K V] is a list of
    entries with a proof that its keys increase strictly.  The lookup is the binary search of
    the Standard Library, [[T]::binary_search_by], as a loop over an index window.

    The abstract specification is stdpp's [gmap]: [FlatMap.to_gmap] maps every operation to the
    [gmap] operation of the same name. *)

From S2P Require Import Prelude.

(** ** Keys: the trait [Ord] *)
Class OrdKey (K : Type) := {
  cmp : K -> K -> comparison;
  cmp_eq a b : cmp a b = Eq <-> a = b;
  cmp_antisym a b : cmp b a = CompOpp (cmp a b);
  cmp_trans a b c : cmp a b = Lt -> cmp b c = Lt -> cmp a c = Lt
}.

Section OrdKeyFacts.
Context `{OrdKey K}.

Lemma cmp_refl a : cmp a a = Eq.
Proof. by apply cmp_eq. Qed.

Lemma cmp_gt_lt a b : cmp a b = Gt <-> cmp b a = Lt.
Proof. rewrite (cmp_antisym a b). destruct (cmp a b); cbn; naive_solver. Qed.

Lemma cmp_lt_ne a b : cmp a b = Lt -> a <> b.
Proof. intros Hlt ->. by rewrite cmp_refl in Hlt. Qed.

#[export] Instance cmp_eq_dec : EqDecision K.
Proof.
  intros a b. destruct (cmp a b) eqn:E.
  - left. by apply cmp_eq.
  - right. by apply cmp_lt_ne.
  - right. intros ->. by rewrite cmp_refl in E.
Defined.
End OrdKeyFacts.
#[export] Remove Hints cmp_eq_dec : typeclass_instances.

#[export] Instance Z_ord : OrdKey Z := {
  cmp := Z.compare;
  cmp_eq a b := Z.compare_eq_iff a b;
  cmp_antisym a b := Z.compare_antisym a b;
  cmp_trans a b c := fun H1 H2 => Zcompare_Lt_trans a b c H1 H2
}.

(** Tuples are ordered lexicographically ([derive(Ord)] on a pair). *)
Definition pair_cmp `{OrdKey A} `{OrdKey B} (x y : A * B) : comparison :=
  match cmp x.1 y.1 with
  | Eq => cmp x.2 y.2
  | c => c
  end.

#[export] Program Instance pair_ord `{OrdKey A} `{OrdKey B} : OrdKey (A * B) := { cmp := pair_cmp }.
Next Obligation.
  intros A HA B HB [a b] [a' b']. unfold pair_cmp; cbn. destruct (cmp a a') eqn:E.
  - apply cmp_eq in E as ->. rewrite cmp_eq. naive_solver.
  - apply cmp_lt_ne in E. naive_solver.
  - split; [done|]. intros [= -> ->]. by rewrite cmp_refl in E.
Qed.
Next Obligation.
  intros A HA B HB [a b] [a' b']. unfold pair_cmp; cbn. rewrite (cmp_antisym a a').
  destruct (cmp a a'); cbn; [apply cmp_antisym|done|done].
Qed.
Next Obligation.
  intros A HA B HB [a1 b1] [a2 b2] [a3 b3]. unfold pair_cmp; cbn.
  destruct (cmp a1 a2) eqn:E1; [apply cmp_eq in E1 as ->| |done];
    destruct (cmp a2 a3) eqn:E2; try done.
  - apply cmp_trans.
  - apply cmp_eq in E2 as ->. by rewrite E1.
  - by rewrite (cmp_trans _ _ _ E1 E2).
Qed.

(** Arrays and slices are ordered lexicographically. *)
Fixpoint list_cmp `{OrdKey A} (x y : list A) : comparison :=
  match x, y with
  | [], [] => Eq
  | [], _ :: _ => Lt
  | _ :: _, [] => Gt
  | a :: x, b :: y =>
      match cmp a b with
      | Eq => list_cmp x y
      | c => c
      end
  end.

#[export] Program Instance list_ord `{OrdKey A} : OrdKey (list A) := { cmp := list_cmp }.
Next Obligation.
  intros A HA x. induction x as [|a x IH]; intros [|b y]; cbn; [done..|].
  destruct (cmp a b) eqn:E.
  - apply cmp_eq in E as ->. rewrite IH. naive_solver.
  - apply cmp_lt_ne in E. naive_solver.
  - split; [done|]. intros [= -> ->]. by rewrite cmp_refl in E.
Qed.
Next Obligation.
  intros A HA x. induction x as [|a x IH]; intros [|b y]; cbn; [done..|].
  rewrite (cmp_antisym a b). destruct (cmp a b); cbn; [apply IH|done|done].
Qed.
Next Obligation.
  intros A HA x. induction x as [|a x IH]; intros [|b y] [|c z]; cbn; try done.
  destruct (cmp a b) eqn:E1; [apply cmp_eq in E1 as ->| |done];
    destruct (cmp b c) eqn:E2; try done.
  - apply IH.
  - apply cmp_eq in E2 as ->. by rewrite E1.
  - by rewrite (cmp_trans _ _ _ E1 E2).
Qed.

(** A newtype is ordered by its field. *)
Program Definition ord_via {A} `{OrdKey B} (f : A -> B) (Hinj : forall x y, f x = f y -> x = y) : OrdKey A :=
  {| cmp := fun x y => cmp (f x) (f y) |}.
Next Obligation. intros A B HB f Hinj a b. cbn. rewrite cmp_eq. naive_solver. Qed.
Next Obligation. intros A B HB f Hinj a b. apply cmp_antisym. Qed.
Next Obligation. intros A B HB f Hinj a b c. apply cmp_trans. Qed.

(** ** Binary search: [slice::binary_search_by]

    The loop of the Standard Library: a window of [size] elements from [base] is halved until
    one element is left; the fuel is the window's size. *)
Inductive search : Type :=
| Found (i : nat)
| Missing (i : nat).

Fixpoint search_loop {A} (f : A -> comparison) (l : list A) (fuel base size : nat) : nat :=
  match fuel with
  | O => base
  | S fuel =>
      if (size <=? 1)%nat then base
      else
        let half := (size / 2)%nat in
        let mid := (base + half)%nat in
        let base' :=
          match l !! mid with
          | Some x => match f x with Gt => base | _ => mid end
          | None => base
          end in
        search_loop f l fuel base' (size - half)
  end.

Definition binary_search_by {A} (f : A -> comparison) (l : list A) : search :=
  let base := search_loop f l (length l) 0 (length l) in
  match l !! base with
  | None => Missing 0
  | Some x =>
      match f x with
      | Eq => Found base
      | Lt => Missing (S base)
      | Gt => Missing base
      end
  end.

(** What the search promises on a list where the tested property runs [Lt .. Lt, Eq?, Gt .. Gt]. *)
Definition monotone_cmp {A} (f : A -> comparison) (l : list A) : Prop :=
  forall i j x y, (i < j)%nat -> l !! i = Some x -> l !! j = Some y ->
    (f y <> Gt -> f x = Lt) /\ (f x = Gt -> f y = Gt).

Lemma search_loop_spec {A} (f : A -> comparison) (l : list A) fuel base size :
  monotone_cmp f l ->
  (size <= fuel)%nat -> (0 < size)%nat -> (base + size <= length l)%nat ->
  (forall i x, (i < base)%nat -> l !! i = Some x -> f x = Lt) ->
  (forall i x, (base + size <= i)%nat -> l !! i = Some x -> f x = Gt) ->
  let b := search_loop f l fuel base size in
  (b < length l)%nat /\
  (forall i x, (i < b)%nat -> l !! i = Some x -> f x = Lt) /\
  (forall i x, (b < i)%nat -> l !! i = Some x -> f x = Gt).
Proof.
  intros Hmono. revert base size.
  induction fuel as [|fuel IH]; intros base size Hfuel Hpos Hlen Hlo Hhi; [lia|].
  cbn [search_loop]. destruct (Nat.leb_spec size 1).
  { replace size with 1%nat in * by lia. split_and!; [lia|done|].
    intros i x ?. apply Hhi. lia. }
  assert (size / 2 < size)%nat by (apply Nat.div_lt; lia).
  assert (0 < size / 2)%nat by (apply Nat.div_str_pos; lia).
  set (half := (size / 2)%nat) in *.
  destruct (lookup_lt_is_Some_2 l (base + half)) as [m Hm]; [lia|]. rewrite Hm.
  assert (2 * half <= size)%nat by (apply Nat.Div0.mul_div_le; lia).
  destruct (f m) eqn:Hfm; apply IH; try lia.
  - intros i x ? Hx. eapply Hmono; [|exact Hx|exact Hm|]; [lia|by rewrite Hfm].
  - intros i x ? Hx. apply (Hhi i); [lia|done].
  - intros i x ? Hx. eapply Hmono; [|exact Hx|exact Hm|]; [lia|by rewrite Hfm].
  - intros i x ? Hx. apply (Hhi i); [lia|done].
  - done.
  - intros i x ? Hx. destruct (decide (i = base + half)%nat) as [->|]; [by simplify_eq|].
    eapply Hmono; [|exact Hm|exact Hx|done]. lia.
Qed.

Lemma binary_search_by_spec {A} (f : A -> comparison) (l : list A) :
  monotone_cmp f l ->
  match binary_search_by f l with
  | Found i => exists x, l !! i = Some x /\ f x = Eq
  | Missing i =>
      (i <= length l)%nat /\
      (forall j x, (j < i)%nat -> l !! j = Some x -> f x = Lt) /\
      (forall j x, (i <= j)%nat -> l !! j = Some x -> f x = Gt)
  end.
Proof.
  intros Hmono. unfold binary_search_by. destruct l as [|a l'] eqn:El.
  { cbn. split_and!; [lia|lia|]. intros j x _ Hx. by rewrite lookup_nil in Hx. }
  rewrite <- El in *.
  assert (0 < length l)%nat by (rewrite El; cbn; lia).
  destruct (search_loop_spec f l (length l) 0 (length l)) as (Hb & Hlo & Hhi); try done; try lia.
  { intros i x Hi Hx. apply lookup_lt_Some in Hx. lia. }
  set (b := search_loop f l (length l) 0 (length l)) in *.
  destruct (lookup_lt_is_Some_2 l b Hb) as [x Hx]. rewrite Hx.
  destruct (f x) eqn:Hfx; [naive_solver|..].
  - split_and!; [lia|..]; intros j y Hj Hy.
    + destruct (decide (j = b)) as [->|]; [naive_solver|]. apply (Hlo j); [lia|done].
    + apply (Hhi j); [lia|done].
  - split_and!; [lia|naive_solver|]. intros j y Hj Hy.
    destruct (decide (j = b)) as [->|]; [naive_solver|]. apply (Hhi j); [lia|done].
Qed.

(** ** Strictly increasing keys *)
Section Sorted.
Context `{OrdKey K} {V : Type}.
Implicit Types l : list (K * V).

Fixpoint keys_sorted (l : list (K * V)) : bool :=
  match l with
  | [] => true
  | e :: l => forallb (fun e' => match cmp e.1 e'.1 with Lt => true | _ => false end) l && keys_sorted l
  end.

Lemma keys_sorted_cons e l :
  keys_sorted (e :: l) = true <->
  (forall e', e' ∈ l -> cmp e.1 e'.1 = Lt) /\ keys_sorted l = true.
Proof.
  cbn. rewrite andb_true_iff, forallb_forall.
  assert ((forall e', In e' l -> match cmp e.1 e'.1 with Lt => true | _ => false end = true) <->
          (forall e', e' ∈ l -> cmp e.1 e'.1 = Lt)) as ->; [|done].
  split; intros Hall e' Hin; specialize (Hall e').
  - rewrite list_elem_of_In in Hin. apply Hall in Hin. by destruct (cmp e.1 e'.1).
  - rewrite <- list_elem_of_In in Hin. by rewrite Hall.
Qed.

Lemma keys_sorted_app l1 l2 :
  keys_sorted (l1 ++ l2) = true <->
  keys_sorted l1 = true /\ keys_sorted l2 = true /\
  (forall e1 e2, e1 ∈ l1 -> e2 ∈ l2 -> cmp e1.1 e2.1 = Lt).
Proof.
  induction l1 as [|e l1 IH]; cbn [app].
  { cbn. set_solver. }
  rewrite !keys_sorted_cons, IH. set_solver.
Qed.

Lemma keys_sorted_sublist l1 l2 : l1 `sublist_of` l2 -> keys_sorted l2 = true -> keys_sorted l1 = true.
Proof.
  induction 1 as [|e l1 l2 Hsub IH|e l1 l2 Hsub IH]; [done|..]; rewrite ?keys_sorted_cons.
  - intros [Hlt Hs]. split; [|by apply IH]. intros e' He'. apply Hlt.
    by eapply elem_of_sublist.
  - naive_solver.
Qed.

Lemma keys_sorted_map (f : K -> V -> V) l :
  keys_sorted ((fun e => (e.1, f e.1 e.2)) <$> l) = keys_sorted l.
Proof.
  induction l as [|e l IH]; [done|]. cbn. rewrite IH. f_equal.
  clear IH. induction l as [|e' l IH]; [done|]. cbn. by rewrite IH.
Qed.

Lemma keys_sorted_lookup l i j e e' :
  keys_sorted l = true -> (i < j)%nat -> l !! i = Some e -> l !! j = Some e' -> cmp e.1 e'.1 = Lt.
Proof.
  revert i j. induction l as [|a l IH]; intros i j Hs Hij Hi Hj; [by rewrite lookup_nil in Hi|].
  apply keys_sorted_cons in Hs as [Hlt Hs].
  destruct j as [|j]; [lia|]. destruct i as [|i]; cbn in Hi, Hj.
  - simplify_eq. apply Hlt. by eapply list_elem_of_lookup_2.
  - eapply (IH i j); eauto with lia.
Qed.

Lemma keys_sorted_inj l e e' :
  keys_sorted l = true -> e ∈ l -> e' ∈ l -> e.1 = e'.1 -> e = e'.
Proof.
  intros Hs [i Hi]%list_elem_of_lookup [j Hj]%list_elem_of_lookup Heq.
  destruct (Nat.lt_trichotomy i j) as [Hij|[->|Hij]]; [|by simplify_eq|];
    [pose proof (keys_sorted_lookup _ _ _ _ _ Hs Hij Hi Hj) as Hlt
    |pose proof (keys_sorted_lookup _ _ _ _ _ Hs Hij Hj Hi) as Hlt];
    apply cmp_lt_ne in Hlt; congruence.
Qed.

Lemma monotone_key l key : keys_sorted l = true -> monotone_cmp (fun e => cmp e.1 key) l.
Proof.
  intros Hs i j x y Hij Hx Hy. pose proof (keys_sorted_lookup _ _ _ _ _ Hs Hij Hx Hy) as Hlt. split.
  - intros Hy'. destruct (cmp y.1 key) eqn:E; [|by eapply cmp_trans|done].
    apply cmp_eq in E. by rewrite <- E.
  - intros Hx'. apply cmp_gt_lt in Hx'. apply cmp_gt_lt. by eapply cmp_trans.
Qed.
End Sorted.

(** A proof of a boolean equation in its computed form, so that maps built by different
    operations are equal when their entries are. *)
Definition norm_true (b : bool) (H : b = true) : b = true :=
  match b as b0 return b0 = true -> b0 = true with
  | true => fun _ => eq_refl
  | false => fun H => H
  end H.

Module FlatMap.
Record t (K : Type) `{OrdKey K} (V : Type) := mk {
  entries : list (K * V);
  entries_sorted : keys_sorted entries = true
}.
Arguments mk {K _ V}.
Arguments entries {K _ V}.
Arguments entries_sorted {K _ V}.

Section FlatMap.
Context `{OrdKey K} {V : Type}.
Implicit Types (m : t K V) (k key : K) (v value : V).

Definition new : t K V := mk [] eq_refl.

Definition index_of m key : search := binary_search_by (fun e => cmp e.1 key) (entries m).

Definition get m key : option V :=
  match index_of m key with
  | Found i => snd <$> entries m !! i
  | Missing _ => None
  end.

Definition contains_key m key : bool :=
  match index_of m key with
  | Found _ => true
  | Missing _ => false
  end.

Lemma index_of_spec m key :
  match index_of m key with
  | Found i => exists v, entries m !! i = Some (key, v)
  | Missing i =>
      (i <= length (entries m))%nat /\
      (forall e, e ∈ take i (entries m) -> cmp e.1 key = Lt) /\
      (forall e, e ∈ drop i (entries m) -> cmp key e.1 = Lt)
  end.
Proof.
  unfold index_of.
  pose proof (binary_search_by_spec _ (entries m) (monotone_key _ key (entries_sorted m))) as Hbs.
  destruct binary_search_by as [i|i].
  - destruct Hbs as ([k v] & Hx & Heq). cbn in Heq. apply cmp_eq in Heq as ->. eauto.
  - destruct Hbs as (Hi & Hlt & Hgt). split_and!; [done|..]; intros e [j Hj]%list_elem_of_lookup.
    + rewrite lookup_take_Some in Hj. naive_solver.
    + rewrite lookup_drop in Hj. apply cmp_gt_lt. eapply Hgt, Hj. lia.
Qed.

Lemma elem_of_entries m key v : (key, v) ∈ entries m <-> get m key = Some v.
Proof.
  unfold get. pose proof (index_of_spec m key) as Hspec. destruct index_of as [i|i].
  - destruct Hspec as [v' Hv']. rewrite Hv'. cbn. split.
    + intros Hin. f_equal. apply list_elem_of_lookup_2 in Hv'.
      pose proof (keys_sorted_inj _ _ _ (entries_sorted m) Hin Hv' eq_refl) as Heq. congruence.
    + intros [= ->]. by eapply list_elem_of_lookup_2.
  - destruct Hspec as (Hi & Hlt & Hgt). split; [|done]. intros Hin. exfalso.
    rewrite <- (take_drop i (entries m)) in Hin. apply elem_of_app in Hin as [Hin|Hin].
    + apply Hlt, cmp_lt_ne in Hin. done.
    + apply Hgt, cmp_lt_ne in Hin. done.
Qed.

Lemma contains_key_get m key : contains_key m key = true <-> is_Some (get m key).
Proof.
  unfold contains_key, get. pose proof (index_of_spec m key) as Hspec. destruct index_of.
  - destruct Hspec as [v ->]. cbn. split; [eauto|done].
  - split; [done|]. by intros [? [=]].
Qed.

Definition insert_entries m key value : list (K * V) :=
  match index_of m key with
  | Found i => alter (fun e => (e.1, value)) i (entries m)
  | Missing i => take i (entries m) ++ (key, value) :: drop i (entries m)
  end.

Lemma insert_entries_split m key value :
  exists l1 l2 o, entries m = l1 ++ o ++ l2 /\ insert_entries m key value = l1 ++ (key, value) :: l2 /\
    (o = [] \/ exists v, o = [(key, v)]) /\
    (forall e, e ∈ l1 -> cmp e.1 key = Lt) /\ (forall e, e ∈ l2 -> cmp key e.1 = Lt).
Proof.
  unfold insert_entries. pose proof (index_of_spec m key) as Hspec.
  pose proof (entries_sorted m) as Hs. destruct index_of as [i|i].
  - destruct Hspec as [v Hv]. apply list_elem_of_split_length in Hv as (l1 & l2 & Heq & ->).
    rewrite Heq in Hs |- *. apply keys_sorted_app in Hs as (Hs1 & [Hs2 Hs3]%keys_sorted_cons & Hs4).
    exists l1, l2, [(key, v)]. split_and!; [done| |eauto| |done].
    + rewrite alter_app_r_alt, Nat.sub_diag by lia. done.
    + intros e He. apply (Hs4 e (key, v)); set_solver.
  - destruct Hspec as (Hi & Hlt & Hgt).
    exists (take i (entries m)), (drop i (entries m)), []. split_and!; auto.
    by rewrite app_nil_l, take_drop.
Qed.

Lemma insert_entries_sorted m key value : keys_sorted (insert_entries m key value) = true.
Proof.
  destruct (insert_entries_split m key value) as (l1 & l2 & o & Heq & -> & Ho & Hlt & Hgt).
  pose proof (entries_sorted m) as Hs. rewrite Heq in Hs.
  apply keys_sorted_app in Hs as (Hs1 & Hs2 & Hs3). apply keys_sorted_app in Hs2 as (_ & Hs2 & _).
  apply keys_sorted_app. split_and!; [done|by apply keys_sorted_cons|].
  intros e1 e2 He1 [->|He2]%elem_of_cons; [by apply Hlt|]. apply Hs3; set_solver.
Qed.

(** [insert] also returns the value it replaced. *)
Definition insert m key value : option V * t K V :=
  (get m key, mk (insert_entries m key value) (norm_true _ (insert_entries_sorted m key value))).

Definition remove_entries m key : list (K * V) :=
  match index_of m key with
  | Found i => delete i (entries m)
  | Missing _ => entries m
  end.

Lemma remove_entries_sorted m key : keys_sorted (remove_entries m key) = true.
Proof.
  unfold remove_entries. pose proof (entries_sorted m) as Hs. destruct index_of; [|done].
  eapply keys_sorted_sublist, Hs. apply sublist_delete.
Qed.

(** [remove] also returns the value it removed. *)
Definition remove m key : option V * t K V :=
  (get m key, mk (remove_entries m key) (norm_true _ (remove_entries_sorted m key))).

Lemma tail_sorted m : keys_sorted (tail (entries m)) = true.
Proof.
  pose proof (entries_sorted m) as Hs. destruct (entries m) as [|e l]; [done|].
  by apply keys_sorted_cons in Hs as [_ Hs].
Qed.

Definition pop_first m : option ((K * V) * t K V) :=
  match head (entries m) with
  | None => None
  | Some e => Some (e, mk (tail (entries m)) (norm_true _ (tail_sorted m)))
  end.

Definition retain_entries (f : K -> V -> bool) m : list (K * V) :=
  filter (fun e => f e.1 e.2 = true) (entries m).

Lemma retain_sorted f m : keys_sorted (retain_entries f m) = true.
Proof. eapply keys_sorted_sublist, (entries_sorted m). apply sublist_filter. Qed.

(** [retain], for the closures the stack passes: none changes a value it keeps. *)
Definition retain (f : K -> V -> bool) m : t K V :=
  mk (retain_entries f m) (norm_true _ (retain_sorted f m)).

Lemma map_values_sorted (f : K -> V -> V) m :
  keys_sorted ((fun e => (e.1, f e.1 e.2)) <$> entries m) = true.
Proof. rewrite keys_sorted_map. apply entries_sorted. Qed.

(** [iter_mut] and [values_mut]: every value is passed through [f]. *)
Definition iter_mut (f : K -> V -> V) m : t K V :=
  mk ((fun e => (e.1, f e.1 e.2)) <$> entries m) (norm_true _ (map_values_sorted f m)).

Definition modify_entries m key (f : V -> V) : list (K * V) :=
  match index_of m key with
  | Found i => alter (fun e => (e.1, f e.2)) i (entries m)
  | Missing _ => entries m
  end.

Lemma modify_entries_eq m key f :
  modify_entries m key f = (fun e => (e.1, match cmp e.1 key with Eq => f e.2 | _ => e.2 end)) <$> entries m.
Proof.
  unfold modify_entries. pose proof (index_of_spec m key) as Hspec.
  pose proof (entries_sorted m) as Hs. destruct index_of as [i|i].
  - destruct Hspec as [v Hv]. apply list_elem_of_split_length in Hv as (l1 & l2 & Heq & ->).
    rewrite Heq in Hs |- *. rewrite alter_app_r_alt, Nat.sub_diag by lia.
    apply keys_sorted_app in Hs as (Hs1 & [Hs2 Hs3]%keys_sorted_cons & Hs4).
    rewrite fmap_app. cbn. rewrite cmp_refl. f_equal; [|f_equal].
    + rewrite <- (list_fmap_id l1) at 1. apply list_fmap_ext. intros j e He.
      apply list_elem_of_lookup_2 in He. pose proof (Hs4 e (key, v) He ltac:(set_solver)) as Hlt.
      cbn in Hlt. rewrite Hlt. by destruct e.
    + rewrite <- (list_fmap_id l2) at 1. apply list_fmap_ext. intros j e He.
      apply list_elem_of_lookup_2, Hs2, cmp_gt_lt in He. cbn in He. rewrite He. by destruct e.
  - destruct Hspec as (Hi & Hlt & Hgt). rewrite <- (list_fmap_id (entries m)) at 1.
    apply list_fmap_ext. intros j e He. apply list_elem_of_lookup_2 in He.
    rewrite <- (take_drop i (entries m)) in He. apply elem_of_app in He as [He|He].
    + apply Hlt in He. rewrite He. by destruct e.
    + apply Hgt, cmp_gt_lt in He. rewrite He. by destruct e.
Qed.

Lemma modify_entries_sorted m key f : keys_sorted (modify_entries m key f) = true.
Proof.
  rewrite modify_entries_eq.
  rewrite (keys_sorted_map (fun k v => match cmp k key with Eq => f v | _ => v end)).
  apply entries_sorted.
Qed.

(** [if let Some(v) = map.get_mut(key) { *v = f(v) }]. *)
Definition modify m key (f : V -> V) : t K V :=
  mk (modify_entries m key f) (norm_true _ (modify_entries_sorted m key f)).

(** [map.entry(key).or_insert_with(default)], as the map it leaves. *)
Definition or_insert_with m key (default : V) : t K V :=
  if contains_key m key then m else snd (insert m key default).

Definition len m : nat := length (entries m).
Definition is_empty m : bool := match entries m with [] => true | _ => false end.
Definition keys m : list K := (entries m).*1.
Definition values m : list V := (entries m).*2.

(** [FromIterator]/[Extend]: the pairs are inserted in order. *)
Definition extend m (l : list (K * V)) : t K V := fold_left (fun m e => snd (insert m e.1 e.2)) l m.
Definition from_iter (l : list (K * V)) : t K V := extend new l.

Definition clear m : t K V := new.

(** [entry], and what its two kinds do to the vector at the index they found. *)
Inductive Entry : Type := Occupied (index : nat) | Vacant (index : nat) (key : K).
Definition entry m key : Entry := match index_of m key with Found i => Occupied i | Missing i => Vacant i key end.

Definition occupied_modify m (index : nat) (f : V -> V) : list (K * V) := alter (fun e => (e.1, f e.2)) index (entries m).
Definition occupied_insert m (index : nat) value : option V * list (K * V) :=
  (snd <$> entries m !! index, occupied_modify m index (fun _ => value)).
Definition vacant_insert m (index : nat) key value : list (K * V) := take index (entries m) ++ (key, value) :: drop index (entries m).

(** [Entry::or_insert_with] and [Entry::and_modify]. *)
Definition entry_or_insert m (e : Entry) (default : V) : list (K * V) :=
  match e with Occupied _ => entries m | Vacant i key => vacant_insert m i key default end.
Definition entry_and_modify m (e : Entry) (f : V -> V) : list (K * V) :=
  match e with Occupied i => occupied_modify m i f | Vacant _ _ => entries m end.

(** One search through [entry] does what the calls by key do. *)
Lemma entry_by_key m key :
  (forall d, entry_or_insert m (entry m key) d = entries (or_insert_with m key d)) /\
  (forall f, entry_and_modify m (entry m key) f = entries (modify m key f)) /\
  (forall i v, entry m key = Occupied i -> occupied_insert m i v = ((insert m key v).1, entries (insert m key v).2)) /\
  (forall i k v, entry m key = Vacant i k -> k = key /\ (insert m key v).1 = None /\ vacant_insert m i k v = entries (insert m key v).2).
Proof.
  assert (forall d, entries (or_insert_with m key d) = if contains_key m key then entries m else insert_entries m key d) as Ho
    by (intros d; unfold or_insert_with; by destruct (contains_key m key)).
  unfold entry, occupied_insert, occupied_modify. setoid_rewrite Ho. clear Ho. cbn [entries modify insert fst snd].
  unfold contains_key, get, modify_entries, insert_entries. destruct (index_of m key) as [i|i]; split_and!; try done.
  - by intros j v [= <-].
  - by intros j k v [= <- <-].
Qed.
End FlatMap.

(** ** Lookup laws *)
Section Laws.
Context `{OrdKey K} {V : Type}.
Implicit Types (m : t K V) (k key : K) (v value : V).

Lemma get_None m key : get m key = None <-> forall v, (key, v) ∉ entries m.
Proof.
  split.
  - intros Hn v Hin. apply elem_of_entries in Hin. congruence.
  - intros Hall. destruct (get m key) as [v|] eqn:E; [|done].
    apply elem_of_entries in E. by apply Hall in E.
Qed.

Lemma get_new key : get (new (K:=K) (V:=V)) key = None.
Proof. done. Qed.

(** A lookup after any operation is decided by the entries. *)
Lemma is_empty_true m : is_empty m = true <-> forall key, get m key = None.
Proof.
  unfold is_empty. split.
  - intros He key. apply get_None. intros v Hin. destruct (entries m); [by apply not_elem_of_nil in Hin|done].
  - intros Hn. destruct (entries m) as [|[k v] l] eqn:He; [done|]. exfalso.
    assert (get m k = Some v) as Hg by (apply elem_of_entries; rewrite He; left). by rewrite Hn in Hg.
Qed.

Lemma get_iff m key o :
  (forall v, (key, v) ∈ entries m <-> o = Some v) -> get m key = o.
Proof.
  intros Hiff. destruct o as [v|]; [by apply elem_of_entries, Hiff|].
  apply get_None. intros v Hin. by apply Hiff in Hin.
Qed.

Lemma get_insert_eq m key value : get (insert m key value).2 key = Some value.
Proof.
  apply elem_of_entries. cbn.
  destruct (insert_entries_split m key value) as (l1 & l2 & o & _ & -> & _). set_solver.
Qed.

Lemma get_insert_ne m key key' value : key <> key' -> get (insert m key value).2 key' = get m key'.
Proof.
  intros Hne. apply get_iff. intros v. rewrite <- elem_of_entries. cbn.
  destruct (insert_entries_split m key value) as (l1 & l2 & o & Heq & -> & Ho & _).
  rewrite Heq. destruct Ho as [->|[v' ->]]; set_solver.
Qed.

Lemma get_insert_old m key value : (insert m key value).1 = get m key.
Proof. done. Qed.

Lemma elem_of_remove_entries m key e : e ∈ remove_entries m key <-> e ∈ entries m /\ e.1 <> key.
Proof.
  unfold remove_entries. pose proof (index_of_spec m key) as Hspec.
  pose proof (entries_sorted m) as Hs. destruct index_of as [i|i].
  - destruct Hspec as [v Hv]. apply list_elem_of_split_length in Hv as (l1 & l2 & Heq & ->).
    rewrite Heq in Hs |- *. rewrite delete_middle.
    apply keys_sorted_app in Hs as (Hs1 & [Hs2 Hs3]%keys_sorted_cons & Hs4).
    assert (forall e, e ∈ l1 -> e.1 <> key).
    { intros e' He'. apply cmp_lt_ne. apply (Hs4 e' (key, v)); set_solver. }
    assert (forall e, e ∈ l2 -> e.1 <> key).
    { intros e' He'. apply Hs2, cmp_lt_ne in He'. cbn in He'. congruence. }
    rewrite !elem_of_app, elem_of_cons. split; [naive_solver|].
    intros [[?|[->|?]] ?]; naive_solver.
  - destruct Hspec as (Hi & Hlt & Hgt). split; [|naive_solver]. intros Hin. split; [done|].
    rewrite <- (take_drop i (entries m)) in Hin. apply elem_of_app in Hin as [Hin|Hin].
    + by apply Hlt, cmp_lt_ne in Hin.
    + apply Hgt, cmp_lt_ne in Hin. congruence.
Qed.

Lemma remove_pair m key : remove m key = (get m key, (remove m key).2).
Proof. done. Qed.

Lemma get_remove_eq m key : get (remove m key).2 key = None.
Proof. apply get_None. intros v. cbn. rewrite elem_of_remove_entries. naive_solver. Qed.

Lemma get_remove_ne m key key' : key <> key' -> get (remove m key).2 key' = get m key'.
Proof.
  intros Hne. apply get_iff. intros v. rewrite <- elem_of_entries. cbn.
  rewrite elem_of_remove_entries. naive_solver.
Qed.

Lemma get_retain (f : K -> V -> bool) m key :
  get (retain f m) key = get m key ≫= fun v => if f key v then Some v else None.
Proof.
  apply get_iff. intros v. cbn. unfold retain_entries. rewrite list_elem_of_filter, elem_of_entries. cbn.
  destruct (get m key) as [v'|]; cbn; [|by split; [intros [_ ?]|]].
  destruct (f key v') eqn:E; split.
  - by intros [_ ?].
  - by intros [= <-].
  - intros [? [= ->]]. congruence.
  - done.
Qed.

Lemma get_iter_mut (f : K -> V -> V) m key : get (iter_mut f m) key = f key <$> get m key.
Proof.
  apply get_iff. intros v. cbn. rewrite list_elem_of_fmap. split.
  - intros ([k' v'] & Heq & Hin%elem_of_entries). simplify_eq/=. by rewrite Hin.
  - intros (v' & Hget & ->)%fmap_Some. exists (key, v'). by rewrite elem_of_entries.
Qed.

Lemma modify_iter_mut m key f :
  entries (modify m key f) = entries (iter_mut (fun k v => match cmp k key with Eq => f v | _ => v end) m).
Proof. apply modify_entries_eq. Qed.

Lemma get_entries m m' key : entries m = entries m' -> get m key = get m' key.
Proof. intros Heq. apply get_iff. intros v. by rewrite Heq, elem_of_entries. Qed.

Lemma get_modify_eq m key f : get (modify m key f) key = f <$> get m key.
Proof. rewrite (get_entries _ _ _ (modify_iter_mut m key f)), get_iter_mut. by rewrite cmp_refl. Qed.

Lemma get_modify_ne m key key' f : key <> key' -> get (modify m key f) key' = get m key'.
Proof.
  intros Hne. rewrite (get_entries _ _ _ (modify_iter_mut m key f)), get_iter_mut.
  destruct (cmp key' key) eqn:E; [apply cmp_eq in E; congruence|..]; by destruct (get m key').
Qed.

Lemma get_or_insert_eq m key d :
  get (or_insert_with m key d) key = Some (default d (get m key)).
Proof.
  unfold or_insert_with. destruct (contains_key m key) eqn:E.
  - apply contains_key_get in E as [v Hv]. by rewrite Hv.
  - rewrite get_insert_eq. destruct (get m key) eqn:Hg; [|done].
    exfalso. assert (contains_key m key = true) by (apply contains_key_get; eauto). congruence.
Qed.

Lemma get_or_insert_ne m key key' d : key <> key' -> get (or_insert_with m key d) key' = get m key'.
Proof. intros. unfold or_insert_with. destruct contains_key; [done|]. by apply get_insert_ne. Qed.

Lemma contains_key_false m key : contains_key m key = false <-> get m key = None.
Proof.
  rewrite <- not_true_iff_false, contains_key_get, eq_None_not_Some. done.
Qed.

(** Maps with the same lookups are equal: the vector is determined by its contents. *)
Lemma keys_sorted_ext (l l' : list (K * V)) :
  keys_sorted l = true -> keys_sorted l' = true -> (forall e, e ∈ l <-> e ∈ l') -> l = l'.
Proof.
  revert l'. induction l as [|e l IH]; intros [|e' l'] Hs Hs' Hiff; [done|set_solver|set_solver|].
  apply keys_sorted_cons in Hs as [Hlt Hs]. apply keys_sorted_cons in Hs' as [Hlt' Hs'].
  assert (e = e') as <-.
  { assert (e ∈ e' :: l') as [->|He]%elem_of_cons by (apply Hiff, elem_of_cons; by left); [done|].
    assert (e' ∈ e :: l) as [->|He']%elem_of_cons by (apply Hiff, elem_of_cons; by left); [done|].
    apply Hlt' in He. apply Hlt in He'. pose proof (cmp_trans _ _ _ He He') as Hbad.
    by rewrite cmp_refl in Hbad. }
  f_equal. apply IH; [done..|]. intros x. specialize (Hiff x). rewrite !elem_of_cons in Hiff.
  split; intros Hx; [assert (x <> e) by (apply Hlt, cmp_lt_ne in Hx; congruence)
                    |assert (x <> e) by (apply Hlt', cmp_lt_ne in Hx; congruence)]; naive_solver.
Qed.

Lemma flat_map_eq m m' : (forall key, get m key = get m' key) -> m = m'.
Proof.
  intros Hall. assert (entries m = entries m') as Heq.
  { apply keys_sorted_ext; [apply entries_sorted..|]. intros [k v]. by rewrite !elem_of_entries, Hall. }
  destruct m as [l Hl], m' as [l' Hl']; cbn in *. subst l'. f_equal. apply Eqdep_dec.UIP_dec, bool_dec.
Qed.

Lemma NoDup_keys m : NoDup (keys m).
Proof.
  unfold keys. pose proof (entries_sorted m) as Hs. induction (entries m) as [|e l IH]; cbn; constructor.
  - apply keys_sorted_cons in Hs as [Hlt _]. intros (e' & Heq & Hin)%list_elem_of_fmap.
    apply Hlt, cmp_lt_ne in Hin. congruence.
  - apply IH. by apply keys_sorted_cons in Hs as [_ Hs].
Qed.

Lemma elem_of_keys m key : key ∈ keys m <-> is_Some (get m key).
Proof.
  unfold keys. rewrite list_elem_of_fmap. split.
  - intros ([k v] & -> & Hin%elem_of_entries). eauto.
  - intros [v Hv%elem_of_entries]. by exists (key, v).
Qed.

Lemma elem_of_values m v : v ∈ values m <-> exists key, get m key = Some v.
Proof.
  unfold values. rewrite list_elem_of_fmap. split.
  - intros ([k v'] & -> & Hin%elem_of_entries). eauto.
  - intros [k Hk%elem_of_entries]. by exists (k, v).
Qed.

(** [pop_first] takes the entry with the least key. *)
Lemma entries_nil m : entries m = [] -> m = new.
Proof.
  intros Hnil. apply flat_map_eq. intros key. rewrite get_new. apply get_None. intros v. rewrite Hnil. set_solver.
Qed.

Lemma pop_first_None m : pop_first m = None -> m = new.
Proof.
  intros Hpop. apply entries_nil. revert Hpop. unfold pop_first. by destruct m as [[|e l] Hs].
Qed.

Lemma pop_first_spec m e m' :
  pop_first m = Some (e, m') ->
  entries m = e :: entries m' /\ (forall e', e' ∈ entries m' -> cmp e.1 e'.1 = Lt).
Proof.
  destruct m as [[|e0 l] Hs]; [done|]. unfold pop_first. cbn. intros [= <- <-]. cbn.
  split; [done|]. by apply keys_sorted_cons in Hs as [Hlt _].
Qed.
(** ** Contents up to order, for counting arguments *)
Lemma NoDup_entries m : NoDup (entries m).
Proof. apply (NoDup_fmap_1 fst). apply NoDup_keys. Qed.

Lemma entries_remove_perm m key v :
  get m key = Some v -> entries m ≡ₚ (key, v) :: entries (remove m key).2.
Proof.
  intros Hget. apply NoDup_Permutation.
  - apply NoDup_entries.
  - constructor; [|apply NoDup_entries]. intros Hin. by apply elem_of_remove_entries in Hin as [_ ?].
  - intros [k v']. rewrite elem_of_cons. change (entries (remove m key).2) with (remove_entries m key).
    rewrite elem_of_remove_entries, !elem_of_entries. cbn.
    destruct (cmp_eq_dec k key) as [->|Hne]; [rewrite Hget|]; naive_solver.
Qed.

Lemma entries_insert_perm m key v :
  get m key = None -> entries (insert m key v).2 ≡ₚ (key, v) :: entries m.
Proof.
  intros Hget. apply NoDup_Permutation.
  - apply NoDup_entries.
  - constructor; [|apply NoDup_entries]. by apply get_None.
  - intros [k v']. rewrite elem_of_cons, !elem_of_entries.
    destruct (cmp_eq_dec k key) as [->|Hne].
    + rewrite get_insert_eq, Hget. naive_solver.
    + rewrite get_insert_ne by done. naive_solver.
Qed.

Lemma values_remove_perm m key v :
  get m key = Some v -> values m ≡ₚ v :: values (remove m key).2.
Proof. intros Hget. unfold values. by rewrite (entries_remove_perm m key v Hget). Qed.

Lemma values_insert_perm m key v : get m key = None -> values (insert m key v).2 ≡ₚ v :: values m.
Proof. intros Hget. unfold values. by rewrite entries_insert_perm. Qed.

Lemma values_iter_mut {B} (g : V -> B) (f : K -> V -> V) m :
  (forall k v, g (f k v) = g v) -> g <$> values (iter_mut f m) = g <$> values m.
Proof.
  intros Hg. unfold values. cbn. rewrite <- !list_fmap_compose. apply list_fmap_ext.
  intros i [k v] _. apply Hg.
Qed.

Lemma values_iter_mut_strong {B} (g : V -> B) (f : K -> V -> V) m :
  (forall k v, get m k = Some v -> g (f k v) = g v) -> g <$> values (iter_mut f m) = g <$> values m.
Proof.
  intros Hg. unfold values. cbn. rewrite <- !list_fmap_compose. apply list_fmap_ext.
  intros i [k v] Hin%list_elem_of_lookup_2%elem_of_entries. cbn. by apply Hg.
Qed.

Lemma values_modify {B} (g : V -> B) (f : V -> V) m key :
  (forall v, g (f v) = g v) -> g <$> values (modify m key f) = g <$> values m.
Proof.
  intros Hg. unfold values. rewrite modify_iter_mut. fold (values (iter_mut (fun k v => match cmp k key with Eq => f v | _ => v end) m)).
  apply values_iter_mut. intros k v. by destruct cmp.
Qed.

Lemma modify_modify m key f g : modify (modify m key f) key g = modify m key (fun v => g (f v)).
Proof.
  apply flat_map_eq. intros key'. destruct (cmp_eq_dec key key') as [<-|Hne].
  - rewrite !get_modify_eq. by destruct (get m key).
  - by rewrite !get_modify_ne.
Qed.

Lemma modify_ext m key f g : (forall v, get m key = Some v -> f v = g v) -> modify m key f = modify m key g.
Proof.
  intros Hfg. apply flat_map_eq. intros key'. destruct (cmp_eq_dec key key') as [<-|Hne].
  - rewrite !get_modify_eq. destruct (get m key) as [v|] eqn:Hget; cbn; [|done]. by rewrite Hfg.
  - by rewrite !get_modify_ne.
Qed.

Lemma remove_modify m key f : (remove (modify m key f) key).2 = (remove m key).2.
Proof.
  apply flat_map_eq. intros key'. destruct (cmp_eq_dec key key') as [<-|Hne].
  - by rewrite !get_remove_eq.
  - by rewrite !get_remove_ne, get_modify_ne by done.
Qed.

Lemma len_modify m key f : len (modify m key f) = len m.
Proof. unfold len. rewrite modify_iter_mut. cbn. by rewrite length_fmap. Qed.

Lemma get_from_singleton key v key' w :
  get (from_iter [(key, v)]) key' = Some w -> key = key' /\ v = w.
Proof.
  unfold from_iter, extend. cbn [fold_left fst snd]. destruct (cmp_eq_dec key key') as [<-|Hne].
  - rewrite get_insert_eq. naive_solver.
  - rewrite get_insert_ne by done. done.
Qed.

Lemma len_remove m key : (len (remove m key).2 <= len m)%nat.
Proof.
  unfold len. cbn. unfold remove_entries. destruct (index_of m key) as [i|i]; [|done].
  apply sublist_length, sublist_delete.
Qed.

Lemma len_or_insert m key d : (len (or_insert_with m key d) <= S (len m))%nat.
Proof.
  unfold or_insert_with. destruct (contains_key m key) eqn:Hk; [lia|].
  unfold len. rewrite (entries_insert_perm m key d); [done|]. by apply contains_key_false.
Qed.

Lemma is_Some_modify m key key' f : is_Some (get (modify m key f) key') <-> is_Some (get m key').
Proof.
  destruct (cmp_eq_dec key key') as [<-|Hne].
  - by rewrite get_modify_eq, fmap_is_Some.
  - by rewrite get_modify_ne.
Qed.

(** A property of every value. *)
Definition all_values (P : K -> V -> Prop) m : Prop := forall key v, get m key = Some v -> P key v.

Lemma all_values_insert (P : K -> V -> Prop) m key v :
  P key v -> all_values P m -> all_values P (insert m key v).2.
Proof.
  intros Hv Hm key' v'. destruct (cmp_eq_dec key key') as [<-|Hne].
  - rewrite get_insert_eq. naive_solver.
  - rewrite get_insert_ne by done. apply Hm.
Qed.

Lemma all_values_or_insert (P : K -> V -> Prop) m key v :
  P key v -> all_values P m -> all_values P (or_insert_with m key v).
Proof. intros Hv Hm. unfold or_insert_with. destruct (contains_key m key); [done|]. by apply all_values_insert. Qed.

Lemma all_values_remove (P : K -> V -> Prop) m key : all_values P m -> all_values P (remove m key).2.
Proof.
  intros Hm key' v'. destruct (cmp_eq_dec key key') as [<-|Hne].
  - by rewrite get_remove_eq.
  - rewrite get_remove_ne by done. apply Hm.
Qed.

Lemma all_values_retain (P : K -> V -> Prop) f m : all_values P m -> all_values P (retain f m).
Proof.
  intros Hm key v. rewrite get_retain. intros (v' & Hv' & Hif)%bind_Some.
  destruct (f key v'); [|done]. simplify_eq. by apply Hm.
Qed.

Lemma all_values_iter_mut (P : K -> V -> Prop) f m :
  (forall key v, get m key = Some v -> P key v -> P key (f key v)) ->
  all_values P m -> all_values P (iter_mut f m).
Proof.
  intros Hf Hm key v. rewrite get_iter_mut. intros (v' & Hv' & ->)%fmap_Some. apply Hf; [done|]. by apply Hm.
Qed.

Lemma all_values_modify (P : K -> V -> Prop) f m key :
  (forall v, get m key = Some v -> P key v -> P key (f v)) ->
  all_values P m -> all_values P (modify m key f).
Proof.
  intros Hf Hm key' v'. destruct (cmp_eq_dec key key') as [<-|Hne].
  - rewrite get_modify_eq. intros (v & Hv & ->)%fmap_Some. apply Hf; [done|]. by apply Hm.
  - rewrite get_modify_ne by done. apply Hm.
Qed.

(** [iter().find(p)] finds an entry that satisfies [p], the one with the least key. *)
Lemma find_entry (p : K * V -> bool) m e :
  find p (entries m) = Some e ->
  get m e.1 = Some e.2 /\ p e = true /\ forall e', e' ∈ entries m -> p e' = true -> cmp e.1 e'.1 <> Gt.
Proof.
  intros Hf. pose proof (entries_sorted m) as Hs. split_and!.
  - apply find_some in Hf as [Hin _]. apply list_elem_of_In in Hin. apply elem_of_entries. by destruct e.
  - by apply find_some in Hf as [_ Hp].
  - clear -Hf Hs. induction (entries m) as [|a l IH]; cbn in Hf; [done|].
    apply keys_sorted_cons in Hs as [Hlt Hs]. intros e' Hin Hp. destruct (p a) eqn:E.
    + simplify_eq. apply elem_of_cons in Hin as [->|Hin]; [by rewrite cmp_refl|]. by rewrite Hlt.
    + apply IH; [done..| |done]. apply elem_of_cons in Hin as [->|Hin]; [congruence|done].
Qed.

Lemma find_entry_None (p : K * V -> bool) m :
  find p (entries m) = None -> forall key v, get m key = Some v -> p (key, v) = false.
Proof.
  intros Hf key v Hget%elem_of_entries. apply (find_none _ _ Hf). by apply list_elem_of_In.
Qed.
End Laws.

(** ** Refinement: a [FlatMap] implements a finite map *)
Section Refinement.
Context `{OrdKey K, !EqDecision K, !Countable K} {V : Type}.
Implicit Types (m : t K V) (key : K).

Definition to_gmap m : gmap K V := list_to_map (entries m).

Lemma lookup_to_gmap m key : to_gmap m !! key = get m key.
Proof.
  unfold to_gmap. destruct (get m key) as [v|] eqn:E.
  - apply elem_of_list_to_map; [apply NoDup_keys|]. by apply elem_of_entries.
  - apply not_elem_of_list_to_map. intros Hin. apply elem_of_keys in Hin as [v Hv]. congruence.
Qed.

Lemma to_gmap_eq m (g : gmap K V) : (forall key, get m key = g !! key) -> to_gmap m = g.
Proof. intros Hall. apply map_eq. intros key. by rewrite lookup_to_gmap. Qed.

Lemma to_gmap_insert m key v : to_gmap (insert m key v).2 = <[key := v]> (to_gmap m).
Proof.
  apply to_gmap_eq. intros key'. destruct (decide (key = key')) as [<-|Hne].
  - by rewrite get_insert_eq, lookup_insert_eq.
  - by rewrite get_insert_ne, lookup_insert_ne, lookup_to_gmap.
Qed.

Lemma to_gmap_remove m key : to_gmap (remove m key).2 = delete key (to_gmap m).
Proof.
  apply to_gmap_eq. intros key'. destruct (decide (key = key')) as [<-|Hne].
  - by rewrite get_remove_eq, lookup_delete_eq.
  - by rewrite get_remove_ne, lookup_delete_ne, lookup_to_gmap.
Qed.

Lemma to_gmap_modify m key f : to_gmap (modify m key f) = alter f key (to_gmap m).
Proof.
  apply to_gmap_eq. intros key'. destruct (decide (key = key')) as [<-|Hne].
  - by rewrite get_modify_eq, lookup_alter_eq, lookup_to_gmap.
  - by rewrite get_modify_ne, lookup_alter_ne, lookup_to_gmap.
Qed.

Lemma to_gmap_retain (f : K -> V -> bool) m :
  to_gmap (retain f m) = filter (fun e => f e.1 e.2 = true) (to_gmap m).
Proof.
  apply to_gmap_eq. intros key. rewrite get_retain. symmetry.
  rewrite map_lookup_filter, lookup_to_gmap. destruct (get m key) as [v|]; cbn; [|done].
  by destruct (f key v).
Qed.

Lemma to_gmap_iter_mut (f : K -> V -> V) m : to_gmap (iter_mut f m) = map_imap (fun k v => Some (f k v)) (to_gmap m).
Proof.
  apply to_gmap_eq. intros key. rewrite get_iter_mut, map_lookup_imap, lookup_to_gmap.
  by destruct (get m key).
Qed.

Lemma to_gmap_size m : size (to_gmap m) = len m.
Proof. unfold to_gmap, len. by rewrite map_size_list_to_map, ?length_fmap by apply NoDup_keys. Qed.

(** C40: the sorted vector with binary search implements a finite map: looking up, inserting (with
    the replaced value), removing (with the removed value), retaining, updating one or all values
    and counting act on [to_gmap] exactly as the operations of a finite map do. *)
Theorem flat_map_refines_gmap m key v (p : K -> V -> bool) (f : V -> V) (h : K -> V -> V) :
  get m key = to_gmap m !! key /\
  contains_key m key = bool_decide (is_Some (to_gmap m !! key)) /\
  (insert m key v).1 = to_gmap m !! key /\
  to_gmap (insert m key v).2 = <[key := v]> (to_gmap m) /\
  (remove m key).1 = to_gmap m !! key /\
  to_gmap (remove m key).2 = delete key (to_gmap m) /\
  to_gmap (retain p m) = filter (fun e => p e.1 e.2 = true) (to_gmap m) /\
  to_gmap (modify m key f) = alter f key (to_gmap m) /\
  to_gmap (iter_mut h m) = map_imap (fun k v => Some (h k v)) (to_gmap m) /\
  len m = size (to_gmap m).
Proof.
  rewrite !lookup_to_gmap. split_and!; try done.
  - destruct (contains_key m key) eqn:E.
    + symmetry. by apply bool_decide_eq_true, contains_key_get.
    + symmetry. apply bool_decide_eq_false. apply contains_key_false in E. rewrite E. by intros [? [=]].
  - apply to_gmap_insert.
  - apply to_gmap_remove.
  - apply to_gmap_retain.
  - apply to_gmap_modify.
  - apply to_gmap_iter_mut.
  - by rewrite to_gmap_size.
Qed.
End Refinement.
End FlatMap.

(** ** [FlatSet]: a map to unit *)
Module FlatSet.
Definition t (T : Type) `{OrdKey T} : Type := FlatMap.t T unit.

Section FlatSet.
Context `{OrdKey T}.
Implicit Types (s : t T) (x : T).

Definition new : t T := FlatMap.new.
(** [insert] also returns whether the value is new. *)
Definition insert s x : bool * t T :=
  let (old, m) := FlatMap.insert s x tt in
  (match old with None => true | Some _ => false end, m).
Definition contains s x : bool := FlatMap.contains_key s x.
Definition remove s x : bool * t T :=
  let (old, m) := FlatMap.remove s x in
  (match old with None => false | Some _ => true end, m).
Definition len s : nat := FlatMap.len s.
Definition extend s (l : list T) : t T := fold_left (fun s x => snd (insert s x)) l s.
Definition from_iter (l : list T) : t T := extend new l.
Definition is_empty s : bool := FlatMap.is_empty s.
Definition clear s : t T := FlatMap.clear s.

Lemma contains_get s x : contains s x = true <-> is_Some (FlatMap.get s x).
Proof. apply FlatMap.contains_key_get. Qed.

Lemma contains_insert s x y : contains (insert s x).2 y = true <-> x = y \/ contains s y = true.
Proof.
  rewrite !contains_get. change (insert s x).2 with (FlatMap.insert s x tt).2.
  destruct (decide (cmp x y = Eq)) as [->%cmp_eq|Hne].
  - rewrite FlatMap.get_insert_eq. naive_solver.
  - rewrite cmp_eq in Hne. rewrite FlatMap.get_insert_ne by done. naive_solver.
Qed.
End FlatSet.
End FlatSet.
