(* ===== verification/Types.v ===== *)
(** * Addresses and keys: [src/crates/ziggurat-ieee-802154/src/types.rs]

    Network addresses and PAN identifiers are [u16] newtypes, extended addresses and keys byte
    arrays.  The derived [Ord] of an [Eui64] compares the array in over-the-air order. *)

From S2P Require Import Prelude Flat.

Abbreviation Nwk := Z (only parsing).
Abbreviation PanId := Z (only parsing).

Record Eui64 := mkEui64 { eui64_bytes : bytes }.
Record Key := mkKey { key_bytes : bytes }.

#[export] Instance Eui64_eq_dec : EqDecision Eui64.
Proof. solve_decision. Defined.
#[export] Instance Key_eq_dec : EqDecision Key.
Proof. solve_decision. Defined.

Lemma eui64_bytes_inj a b : eui64_bytes a = eui64_bytes b -> a = b.
Proof. destruct a, b. cbn. congruence. Qed.

#[export] Instance Eui64_countable : Countable Eui64.
Proof. apply (inj_countable' eui64_bytes mkEui64). by intros []. Defined.

#[export] Instance Eui64_ord : OrdKey Eui64 := ord_via eui64_bytes eui64_bytes_inj.

Definition eui64_ok (e : Eui64) : Prop := length (eui64_bytes e) = 8%nat /\ is_bytes (eui64_bytes e).
Definition key_ok (k : Key) : Prop := length (key_bytes k) = 16%nat /\ is_bytes (key_bytes k).

#[export] Instance eui64_ok_dec e : Decision (eui64_ok e).
Proof. unfold eui64_ok. apply _. Defined.

(** [ziggurat_ieee_802154::ParseError]; the payload of [Bits] belongs to the bit codec. *)
Inductive ParseError : Type :=
| UnexpectedEnd (ty : string)
| InvalidLength (ty : string)
| InvalidDiscriminant (ty : string) (got : Z)
| InvalidFcs
| Unsupported (what : string)
| Bits.

#[export] Instance ParseError_eq_dec : EqDecision ParseError.
Proof. solve_decision. Defined.

Inductive Ieee802154Address : Type :=
| AddrNwk (nwk : Nwk)
| AddrEui64 (eui64 : Eui64).

#[export] Instance Ieee802154Address_eq_dec : EqDecision Ieee802154Address.
Proof. solve_decision. Defined.

Module Nwk.
Definition deserialize (bs : bytes) : res ParseError (Nwk * bytes) :=
  if decide (length bs < 2)%nat then Err (UnexpectedEnd "Nwk")
  else Ok (from_le_bytes (take 2 bs), drop 2 bs).

Definition to_bytes (nwk : Nwk) : bytes := to_le_bytes 2 nwk.

Definition as_u16 (nwk : Nwk) : Z := nwk.
End Nwk.

Module PanId.
Definition deserialize (bs : bytes) : res ParseError (PanId * bytes) :=
  if decide (length bs < 2)%nat then Err (UnexpectedEnd "PanId")
  else Ok (from_le_bytes (take 2 bs), drop 2 bs).

Definition to_bytes (pan_id : PanId) : bytes := to_le_bytes 2 pan_id.
End PanId.

Module Eui64.
Definition deserialize (bs : bytes) : res ParseError (Eui64 * bytes) :=
  if decide (length bs < 8)%nat then Err (UnexpectedEnd "Eui64")
  else Ok (mkEui64 (take 8 bs), drop 8 bs).

Definition to_bytes (e : Eui64) : bytes := eui64_bytes e.

Definition to_be_bytes (e : Eui64) : bytes := reverse (eui64_bytes e).

Definition from_be_bytes (bs : bytes) : Eui64 := mkEui64 (reverse bs).
End Eui64.

Module Key.
Definition from_bytes (bs : bytes) : res ParseError Key :=
  if decide (length bs <> 16)%nat then Err (InvalidLength "Key")
  else Ok (mkKey bs).

Definition to_bytes (k : Key) : bytes := key_bytes k.
End Key.

(** ** Round trips *)
Lemma nwk_to_bytes_length nwk : length (Nwk.to_bytes nwk) = 2%nat.
Proof. apply length_to_le_bytes. Qed.

Lemma nwk_deserialize_to_bytes nwk rest :
  is_u16 nwk -> Nwk.deserialize (Nwk.to_bytes nwk ++ rest) = Ok (nwk, rest).
Proof.
  intros Hnwk. unfold Nwk.deserialize, Nwk.to_bytes.
  rewrite decide_False by (rewrite length_app, length_to_le_bytes; lia).
  destruct (take_drop_app_length (to_le_bytes 2 nwk) rest 2) as [-> ->]; [apply length_to_le_bytes|].
  by rewrite from_to_le_bytes.
Qed.

Lemma panid_deserialize_to_bytes pan rest :
  is_u16 pan -> PanId.deserialize (PanId.to_bytes pan ++ rest) = Ok (pan, rest).
Proof.
  intros Hpan. unfold PanId.deserialize, PanId.to_bytes.
  rewrite decide_False by (rewrite length_app, length_to_le_bytes; lia).
  destruct (take_drop_app_length (to_le_bytes 2 pan) rest 2) as [-> ->]; [apply length_to_le_bytes|].
  by rewrite from_to_le_bytes.
Qed.

Lemma eui64_deserialize_to_bytes e rest :
  eui64_ok e -> Eui64.deserialize (Eui64.to_bytes e ++ rest) = Ok (e, rest).
Proof.
  intros [Hlen _]. unfold Eui64.deserialize, Eui64.to_bytes.
  rewrite decide_False by (rewrite length_app; lia).
  destruct (take_drop_app_length (eui64_bytes e) rest 8) as [-> ->]; [done|]. by destruct e.
Qed.

(** A parsed field is the prefix of the input that its serialization is. *)
Lemma le_prefix n bs :
  is_bytes bs -> (n <= length bs)%nat ->
  bs = to_le_bytes n (from_le_bytes (take n bs)) ++ drop n bs /\
  in_width (8 * Z.of_nat n) (from_le_bytes (take n bs)).
Proof.
  intros Hbs Hlen. assert (length (take n bs) = n) as Hl by (rewrite length_take; lia).
  assert (is_bytes (take n bs)) as Hb by by apply Forall_take. split.
  - pose proof (to_from_le_bytes _ Hb) as Hrt. rewrite Hl in Hrt. by rewrite Hrt, take_drop.
  - pose proof (from_le_bytes_range _ Hb) as Hr. by rewrite Hl in Hr.
Qed.

Lemma nwk_deserialize_inv bs nwk rest :
  is_bytes bs -> Nwk.deserialize bs = Ok (nwk, rest) -> bs = Nwk.to_bytes nwk ++ rest /\ is_u16 nwk.
Proof.
  intros Hbs. unfold Nwk.deserialize. case_decide; [done|]. intros [= <- <-]. apply (le_prefix 2); [done|lia].
Qed.

Lemma panid_deserialize_inv bs pan rest :
  is_bytes bs -> PanId.deserialize bs = Ok (pan, rest) -> bs = PanId.to_bytes pan ++ rest /\ is_u16 pan.
Proof.
  intros Hbs. unfold PanId.deserialize. case_decide; [done|]. intros [= <- <-]. apply (le_prefix 2); [done|lia].
Qed.

Lemma eui64_deserialize_inv bs e rest :
  is_bytes bs -> Eui64.deserialize bs = Ok (e, rest) -> bs = Eui64.to_bytes e ++ rest /\ eui64_ok e.
Proof.
  intros Hbs. unfold Eui64.deserialize, Eui64.to_bytes, eui64_ok. case_decide as Hlen; [done|].
  intros [= <- <-]. cbn. rewrite take_drop, length_take. split_and!; [done|lia|]. by apply Forall_take.
Qed.

Lemma no_panic_nwk_deserialize bs : no_panic (Nwk.deserialize bs).
Proof. unfold Nwk.deserialize. by case_decide. Qed.
Lemma no_panic_panid_deserialize bs : no_panic (PanId.deserialize bs).
Proof. unfold PanId.deserialize. by case_decide. Qed.
Lemma no_panic_eui64_deserialize bs : no_panic (Eui64.deserialize bs).
Proof. unfold Eui64.deserialize. by case_decide. Qed.

#[export] Hint Resolve no_panic_nwk_deserialize no_panic_panid_deserialize no_panic_eui64_deserialize : zig.
