(* ===== verification/Ring.v ===== *)
(** * A fixed-capacity ring of the last values pushed: [src/crates/ziggurat-zigbee/src/ring_buffer.rs]

    [RingBuffer<T, N>] keeps [N] slots, a count and the slot the next push overwrites, both [u8].
    The model keeps the slots and the two bytes; the abstraction [recent] is the list of the values
    pushed last, oldest first. *)

From S2P Require Import Prelude.

Module Ring.

Record t (T : Type) := mk {
  slots : list T;
  count : Z;
  next : Z
}.
Arguments mk {T}.
Arguments slots {T}.
Arguments count {T}.
Arguments next {T}.

Section Model.
Context {T : Type} (dflt : T) (N : nat).
Implicit Types (r : t T) (v : T).

(** [const { assert!(N > 0 && N <= u8::MAX) }]. *)
Definition capacity_ok : Prop := (0 < N)%nat /\ Z.of_nat N <= u8_max.

Definition new : t T := mk (replicate N dflt) 0 0.

(** [self.next + 1] and [self.len + 1] are checked [u8] additions; the slot index is checked. *)
Definition push r v : may (t T) :=
  _ ← rust_assert (next r <? Z.of_nat (length (slots r)));
  next_plus ← unwrap (checked_add u8_max (next r) 1);
  count_plus ← unwrap (checked_add u8_max (count r) 1);
  Ok (mk (<[Z.to_nat (next r) := v]> (slots r)) (Z.min count_plus (Z.of_nat N)) (next_plus mod Z.of_nat N)).

Definition clear r : t T := mk (slots r) 0 0.
Definition len r : Z := count r.
Definition is_empty r : bool := count r =? 0.
Definition is_full r : bool := count r =? Z.of_nat N.
Definition values r : list T := take (Z.to_nat (count r)) (slots r).

(** ** The invariant and the abstraction *)
Record wf r : Prop := mkWf {
  wf_slots : length (slots r) = N;
  wf_count : 0 <= count r <= Z.of_nat N;
  wf_next : 0 <= next r < Z.of_nat N;
  wf_filling : count r < Z.of_nat N -> next r = count r
}.

(** The values pushed last, oldest first. *)
Definition recent r : list T :=
  if is_full r then drop (Z.to_nat (next r)) (slots r) ++ take (Z.to_nat (next r)) (slots r) else values r.

Lemma new_wf : capacity_ok -> wf new.
Proof. intros [? ?]. split; cbn; [apply length_replicate|lia..]. Qed.

Lemma clear_wf r : capacity_ok -> wf r -> wf (clear r).
Proof. intros [? ?] []. split; cbn; lia. Qed.

Lemma values_recent r : wf r -> values r ≡ₚ recent r.
Proof.
  intros [Hs Hc Hn _]. unfold recent, is_full, values. destruct (Z.eqb_spec (count r) (Z.of_nat N)) as [->|]; [|done].
  rewrite Nat2Z.id, <- Hs, firstn_all. rewrite <- (take_drop (Z.to_nat (next r)) (slots r)) at 1. apply Permutation_app_comm.
Qed.

(** A push succeeds below 255 slots, and drops the oldest value only when the ring is full. *)
Lemma push_spec r v :
  capacity_ok -> Z.of_nat N < u8_max -> wf r ->
  exists r', push r v = Ok r' /\ wf r' /\
    recent r' = (if is_full r then tail (recent r) else recent r) ++ [v].
Proof.
  intros [HN _] HN' [Hs Hc Hn Hf]. unfold push, checked_add.
  rewrite Hs, (proj2 (Z.ltb_lt _ _) (proj2 Hn)). cbn [rust_assert mbind res_bind].
  rewrite (proj2 (Z.leb_le (next r + 1) u8_max)) by lia. cbn [unwrap mbind res_bind].
  rewrite (proj2 (Z.leb_le (count r + 1) u8_max)) by lia. cbn [unwrap mbind res_bind].
  eexists. split; [done|]. set (k := Z.to_nat (next r)). assert (k < N)%nat as Hk by lia.
  assert (0 <= (next r + 1) mod Z.of_nat N < Z.of_nat N) as Hm by (apply Z.mod_pos_bound; lia).
  split; [split; cbn [slots count next]; [by rewrite length_insert|lia|done|]|].
  { intros Hlt. rewrite Z.min_l in * by lia. rewrite Z.mod_small by (rewrite Hf in *; lia). by rewrite Hf by lia. }
  assert (exists v0, slots r !! k = Some v0) as [v0 Hv0] by (apply lookup_lt_is_Some; lia).
  assert (<[k:=v]> (slots r) = take k (slots r) ++ v :: drop (S k) (slots r)) as Hins by (apply insert_take_drop; lia).
  unfold recent, is_full, values. cbn [slots count next]. fold k. rewrite Hins.
  assert (length (take k (slots r)) = k) as Hlt by (rewrite length_take; lia).
  destruct (Z.eqb_spec (count r) (Z.of_nat N)) as [Hfull|Hnot].
  - (* full: the oldest value is overwritten *)
    rewrite Z.min_r by lia. rewrite Z.eqb_refl. rewrite (drop_S _ v0 k Hv0). cbn [tail app].
    destruct (decide (S k = N)) as [HSk|HSk].
    + replace ((next r + 1) mod Z.of_nat N) with 0 by (replace (next r + 1) with (Z.of_nat N) by lia; by rewrite Z.mod_same by lia).
      cbn. rewrite app_nil_r. rewrite (drop_ge (slots r)) by lia. by rewrite app_nil_l.
    + rewrite Z.mod_small by lia. replace (Z.to_nat (next r + 1)) with (S k) by lia.
      rewrite drop_app_ge, take_app_ge by lia. rewrite Hlt. replace (S k - k)%nat with 1%nat by lia. cbn. rewrite take_0. by rewrite <- app_assoc.
  - (* filling: the value goes after the others *)
    assert (next r = count r) as Hnc by (apply Hf; lia). rewrite Z.min_l by lia. replace (Z.to_nat (count r)) with k by lia.
    destruct (Z.eqb_spec (count r + 1) (Z.of_nat N)) as [Hlast|Hmore].
    + replace ((next r + 1) mod Z.of_nat N) with 0 by (replace (next r + 1) with (Z.of_nat N) by lia; by rewrite Z.mod_same by lia).
      cbn. by rewrite app_nil_r, (drop_ge (slots r)) by lia.
    + replace (Z.to_nat (count r + 1)) with (S k) by lia. rewrite take_app_ge by lia. rewrite Hlt.
      replace (S k - k)%nat with 1%nat by lia. cbn. by rewrite take_0.
Qed.

(** The pushes of a whole sequence. *)
Fixpoint push_all r (l : list T) : may (t T) :=
  match l with
  | [] => Ok r
  | v :: l => r ← push r v; push_all r l
  end.

(** The last [n] values of a list. *)
Definition last_n (n : nat) (l : list T) : list T := drop (length l - n) l.

Lemma last_n_snoc (l : list T) v : (0 < N)%nat ->
  last_n N (l ++ [v]) = (if (N <=? length l)%nat then tail (last_n N l) else last_n N l) ++ [v].
Proof.
  intros HN. unfold last_n. rewrite length_app. cbn. destruct (Nat.leb_spec N (length l)).
  - replace (length l + 1 - N)%nat with (S (length l - N)) by lia. rewrite drop_app_le by lia. f_equal.
    generalize (length l - N)%nat. intros k. clear. revert k. induction l as [|x l IH]; intros [|k]; cbn; done.
  - replace (length l + 1 - N)%nat with 0%nat by lia. replace (length l - N)%nat with 0%nat by lia. done.
Qed.

Lemma ring_keeps_last_run (l : list T) :
  capacity_ok -> Z.of_nat N < u8_max ->
  exists r, push_all new l = Ok r /\ wf r /\ recent r = last_n N l /\ values r ≡ₚ last_n N l.
Proof.
  intros Hcap HN.
  assert (forall l pre r, wf r -> recent r = last_n N pre -> (is_full r = true <-> (N <= length pre)%nat) ->
            exists r', push_all r l = Ok r' /\ wf r' /\ recent r' = last_n N (pre ++ l)) as Hgen.
  { clear l. intros l. induction l as [|v l IH]; intros pre r Hwf Hrec Hfull; cbn [push_all].
    { exists r. by rewrite app_nil_r. }
    destruct (push_spec r v Hcap HN Hwf) as (r' & Hp & Hwf' & Hrec'). rewrite Hp. cbn [mbind res_bind].
    destruct (IH (pre ++ [v]) r') as (r2 & -> & ? & Hr2); [done| | |rewrite <- app_assoc in Hr2; eauto].
    - rewrite Hrec', Hrec, last_n_snoc by apply Hcap. destruct (Nat.leb_spec N (length pre)).
      + by rewrite (proj2 Hfull).
      + destruct (is_full r); [|done]. exfalso. specialize (proj1 Hfull eq_refl). lia.
    - assert (length (recent r') = length (last_n N (pre ++ [v]))) as Hlen.
      { rewrite Hrec', Hrec, last_n_snoc by apply Hcap. destruct (Nat.leb_spec N (length pre)); [by rewrite (proj2 Hfull)|].
        destruct (is_full r); [|done]. specialize (proj1 Hfull eq_refl). lia. }
      rewrite <- (values_recent r' Hwf') in Hlen. unfold values, last_n in Hlen. rewrite length_take, length_drop, length_app in Hlen. cbn in Hlen.
      rewrite length_app. cbn. unfold is_full. rewrite Z.eqb_eq. destruct Hwf'. lia. }
  destruct (Hgen l [] new) as (r & Hr & Hwf & Hrec).
  { by apply new_wf. }
  { unfold recent, is_full, new, values, last_n. cbn [count next slots length]. destruct (Z.eqb_spec 0 (Z.of_nat N)); [destruct Hcap; lia|]. by rewrite drop_nil. }
  { unfold is_full. cbn [count new]. rewrite Z.eqb_eq. cbn [length]. destruct Hcap; lia. }
  exists r. split_and!; [done..|]. by rewrite values_recent, Hrec.
Qed.

(** The ring buffer remembers exactly the last [N] values: pushing any sequence into a new ring
    never panics (below 255 slots) and leaves the last [N] pushed, which [values] lists in some
    rotation. *)
Lemma ring_keeps_last (l : list T) :
  capacity_ok -> Z.of_nat N < u8_max ->
  exists r, push_all new l = Ok r /\ wf r /\ recent r = last_n N l /\ values r ≡ₚ last_n N l.
Proof. apply ring_keeps_last_run. Qed.
End Model.

(** The largest capacity the constructor admits is one too many: with [N = 255] the push after the
    ring is full overflows [self.len + 1], which panics (overflow checks) instead of overwriting
    the oldest value. *)
Lemma ring_255_overflows :
  capacity_ok 255 /\ push_all 255 (new 0 255) (replicate 256 0) = Panic /\
  push_all 255 (new 0 255) (replicate 255 0) <> Panic.
Proof. split; [split; [lia|done]|]. split; [vm_compute; reflexivity|vm_compute; discriminate]. Qed.

Lemma ring_keeps_last_witness :
  exists r, push_all 3 (new 0 3) [1; 2; 3; 4] = Ok r /\ wf 3 r /\ recent 3 r = [2; 3; 4] /\ values r ≡ₚ [2; 3; 4].
Proof. apply (ring_keeps_last 0 3 [1; 2; 3; 4]); [split; [lia|vm_compute; discriminate]|vm_compute; reflexivity]. Defined.
End Ring.
