(* ===== verification/Constants.v ===== *)
(** * Protocol constants and tunables: [src/crates/ziggurat-zigbee/src/constants.rs]

    The [tunables!] macro defines one struct of atomics from one field list: its defaults, a
    typed getter per field and the by-name [set] of the [SetTunable] command.  Here the field list is the
    enumeration [Field], [kind] its declared type, and a [Tunables] the raw value each atomic
    holds.  Readers and writers are single atomic loads and stores, so a sequence of calls is a
    sequence of these functions. *)

From S2P Require Import Prelude Flat Types.

(** [EndDeviceTimeout] of [nwk/commands.rs]. *)
Inductive EndDeviceTimeout : Type :=
| Seconds10 | Minutes2 | Minutes4 | Minutes8 | Minutes16 | Minutes32 | Minutes64 | Minutes128
| Minutes256 | Minutes512 | Minutes1024 | Minutes2048 | Minutes4096 | Minutes8192 | Minutes16384.

#[export] Instance EndDeviceTimeout_eq_dec : EqDecision EndDeviceTimeout.
Proof. solve_decision. Defined.

Module EndDeviceTimeout.
(** [as u8]: the discriminant. *)
Definition to_u8 (t : EndDeviceTimeout) : Z :=
  match t with
  | Seconds10 => 0 | Minutes2 => 1 | Minutes4 => 2 | Minutes8 => 3 | Minutes16 => 4
  | Minutes32 => 5 | Minutes64 => 6 | Minutes128 => 7 | Minutes256 => 8 | Minutes512 => 9
  | Minutes1024 => 10 | Minutes2048 => 11 | Minutes4096 => 12 | Minutes8192 => 13
  | Minutes16384 => 14
  end.

Definition all : list EndDeviceTimeout :=
  [Seconds10; Minutes2; Minutes4; Minutes8; Minutes16; Minutes32; Minutes64; Minutes128;
   Minutes256; Minutes512; Minutes1024; Minutes2048; Minutes4096; Minutes8192; Minutes16384].

(** [TryFromPrimitive]. *)
Definition try_from (z : Z) : option EndDeviceTimeout := find (fun t => to_u8 t =? z) all.

(** [duration]: 10 seconds, or [60 * (1 << n)] seconds. *)
Definition duration (t : EndDeviceTimeout) : Duration :=
  match t with
  | Seconds10 => 10 * 1000000
  | _ => 60 * Z.shiftl 1 (to_u8 t) * 1000000
  end.

Lemma try_from_to_u8 t : try_from (to_u8 t) = Some t.
Proof. by destruct t. Qed.

Lemma to_u8_try_from z t : try_from z = Some t -> to_u8 t = z.
Proof. intros [_ Heq]%find_some. by apply Z.eqb_eq. Qed.
End EndDeviceTimeout.

Definition PROTOCOL_VERSION : Z := 2.
Definition GP_PROTOCOL_VERSION : Z := 3.
Definition STACK_PROFILE : Z := 2.
Definition MAX_DEPTH : Z := 15.

Inductive TunableError : Type :=
| UnknownName
| InvalidValue.

(** ** [TunableValue]: the field types *)
Inductive Kind : Type :=
| KU8
| KUsize
| KBool
| KDuration
| KEndDeviceTimeout.

(** [AtomicDuration::new] and [store]: [duration.as_micros() as u32]. *)
Definition duration_as_u32 (d : Duration) : Z := d mod 2 ^ 32.

(** [TunableValue::decode] of a wire [u64], as the raw value the atomic then holds. *)
Definition decode (k : Kind) (raw : Z) : option Z :=
  match k with
  | KU8 => if raw <=? u8_max then Some raw else None
  | KUsize => if raw <=? u64_max then Some raw else None
  | KBool => if raw =? 0 then Some 0 else if raw =? 1 then Some 1 else None
  | KDuration => if raw <=? u32_max then Some (duration_as_u32 raw) else None
  | KEndDeviceTimeout =>
      if raw <=? u8_max then EndDeviceTimeout.to_u8 <$> EndDeviceTimeout.try_from raw else None
  end.

(** The values an atomic of each kind can hold. *)
Definition kind_ok (k : Kind) (v : Z) : Prop :=
  match k with
  | KU8 => is_u8 v
  | KUsize => is_u64 v
  | KBool => v = 0 \/ v = 1
  | KDuration => is_u32 v
  | KEndDeviceTimeout => is_Some (EndDeviceTimeout.try_from v)
  end.

Inductive Field : Type :=
| concentrator_radius
| transaction_persistence_time
| max_source_route
| max_children
| allow_unsecured_rejoins
| allow_unencrypted_router_device_update
| passive_ack_timeout
| max_broadcast_retries
| broadcast_passive_ack_quorum
| mtorr_min_interval
| mtorr_max_interval
| mtorr_route_error_threshold
| mtorr_delivery_failure_threshold
| link_status_period
| router_age_limit
| route_discovery_time
| max_broadcast_jitter
| initial_rreq_retries
| rreq_retries
| rreq_retry_interval
| min_rreq_jitter
| max_rreq_jitter
| unicast_retries
| unicast_retry_delay
| broadcast_delivery_time
| pending_route_discovery_attempts
| end_device_timeout_default
| parent_annce_base_timer
| parent_annce_jitter_max
| aps_duplicate_rejection_timeout
| aps_ack_timeout
| handoff_timeout
| mac_max_csma_backoffs
| mac_max_frame_retries
| broadcast_budget_tokens
| broadcast_token_refill
| broadcast_critical_reserve
| broadcast_forwarding_reserve.

#[export] Instance Field_eq_dec : EqDecision Field.
Proof. solve_decision. Defined.

Definition all_fields : list Field :=
  [concentrator_radius; transaction_persistence_time; max_source_route; max_children; allow_unsecured_rejoins; allow_unencrypted_router_device_update; passive_ack_timeout; max_broadcast_retries; broadcast_passive_ack_quorum; mtorr_min_interval; mtorr_max_interval; mtorr_route_error_threshold; mtorr_delivery_failure_threshold; link_status_period; router_age_limit; route_discovery_time; max_broadcast_jitter; initial_rreq_retries; rreq_retries; rreq_retry_interval; min_rreq_jitter; max_rreq_jitter; unicast_retries; unicast_retry_delay; broadcast_delivery_time; pending_route_discovery_attempts; end_device_timeout_default; parent_annce_base_timer; parent_annce_jitter_max; aps_duplicate_rejection_timeout; aps_ack_timeout; handoff_timeout; mac_max_csma_backoffs; mac_max_frame_retries; broadcast_budget_tokens; broadcast_token_refill; broadcast_critical_reserve; broadcast_forwarding_reserve].

(** The declared type of each field. *)
Definition kind (f : Field) : Kind :=
  match f with
  | concentrator_radius => KU8
  | transaction_persistence_time => KDuration
  | max_source_route => KU8
  | max_children => KU8
  | allow_unsecured_rejoins => KBool
  | allow_unencrypted_router_device_update => KBool
  | passive_ack_timeout => KDuration
  | max_broadcast_retries => KU8
  | broadcast_passive_ack_quorum => KUsize
  | mtorr_min_interval => KDuration
  | mtorr_max_interval => KDuration
  | mtorr_route_error_threshold => KU8
  | mtorr_delivery_failure_threshold => KU8
  | link_status_period => KDuration
  | router_age_limit => KU8
  | route_discovery_time => KDuration
  | max_broadcast_jitter => KDuration
  | initial_rreq_retries => KU8
  | rreq_retries => KU8
  | rreq_retry_interval => KDuration
  | min_rreq_jitter => KDuration
  | max_rreq_jitter => KDuration
  | unicast_retries => KU8
  | unicast_retry_delay => KDuration
  | broadcast_delivery_time => KDuration
  | pending_route_discovery_attempts => KU8
  | end_device_timeout_default => KEndDeviceTimeout
  | parent_annce_base_timer => KDuration
  | parent_annce_jitter_max => KDuration
  | aps_duplicate_rejection_timeout => KDuration
  | aps_ack_timeout => KDuration
  | handoff_timeout => KDuration
  | mac_max_csma_backoffs => KU8
  | mac_max_frame_retries => KU8
  | broadcast_budget_tokens => KU8
  | broadcast_token_refill => KDuration
  | broadcast_critical_reserve => KU8
  | broadcast_forwarding_reserve => KU8
  end.

(** [stringify!($name)]. *)
Definition name (f : Field) : string :=
  match f with
  | concentrator_radius => "concentrator_radius"
  | transaction_persistence_time => "transaction_persistence_time"
  | max_source_route => "max_source_route"
  | max_children => "max_children"
  | allow_unsecured_rejoins => "allow_unsecured_rejoins"
  | allow_unencrypted_router_device_update => "allow_unencrypted_router_device_update"
  | passive_ack_timeout => "passive_ack_timeout"
  | max_broadcast_retries => "max_broadcast_retries"
  | broadcast_passive_ack_quorum => "broadcast_passive_ack_quorum"
  | mtorr_min_interval => "mtorr_min_interval"
  | mtorr_max_interval => "mtorr_max_interval"
  | mtorr_route_error_threshold => "mtorr_route_error_threshold"
  | mtorr_delivery_failure_threshold => "mtorr_delivery_failure_threshold"
  | link_status_period => "link_status_period"
  | router_age_limit => "router_age_limit"
  | route_discovery_time => "route_discovery_time"
  | max_broadcast_jitter => "max_broadcast_jitter"
  | initial_rreq_retries => "initial_rreq_retries"
  | rreq_retries => "rreq_retries"
  | rreq_retry_interval => "rreq_retry_interval"
  | min_rreq_jitter => "min_rreq_jitter"
  | max_rreq_jitter => "max_rreq_jitter"
  | unicast_retries => "unicast_retries"
  | unicast_retry_delay => "unicast_retry_delay"
  | broadcast_delivery_time => "broadcast_delivery_time"
  | pending_route_discovery_attempts => "pending_route_discovery_attempts"
  | end_device_timeout_default => "end_device_timeout_default"
  | parent_annce_base_timer => "parent_annce_base_timer"
  | parent_annce_jitter_max => "parent_annce_jitter_max"
  | aps_duplicate_rejection_timeout => "aps_duplicate_rejection_timeout"
  | aps_ack_timeout => "aps_ack_timeout"
  | handoff_timeout => "handoff_timeout"
  | mac_max_csma_backoffs => "mac_max_csma_backoffs"
  | mac_max_frame_retries => "mac_max_frame_retries"
  | broadcast_budget_tokens => "broadcast_budget_tokens"
  | broadcast_token_refill => "broadcast_token_refill"
  | broadcast_critical_reserve => "broadcast_critical_reserve"
  | broadcast_forwarding_reserve => "broadcast_forwarding_reserve"
  end.

Definition Tunables : Type := Field -> Z.

Module Tunables.
(** [Default]. *)
Definition default : Tunables := fun f =>
  match f with
  | concentrator_radius => 10
  | transaction_persistence_time => (duration_as_u32 7680000)
  | max_source_route => 12
  | max_children => 32
  | allow_unsecured_rejoins => 0
  | allow_unencrypted_router_device_update => 0
  | passive_ack_timeout => (duration_as_u32 500000)
  | max_broadcast_retries => 2
  | broadcast_passive_ack_quorum => 8
  | mtorr_min_interval => (duration_as_u32 10000000)
  | mtorr_max_interval => (duration_as_u32 60000000)
  | mtorr_route_error_threshold => 3
  | mtorr_delivery_failure_threshold => 1
  | link_status_period => (duration_as_u32 15000000)
  | router_age_limit => 3
  | route_discovery_time => (duration_as_u32 10000000)
  | max_broadcast_jitter => (duration_as_u32 64000)
  | initial_rreq_retries => 3
  | rreq_retries => 2
  | rreq_retry_interval => (duration_as_u32 254000)
  | min_rreq_jitter => (duration_as_u32 2000)
  | max_rreq_jitter => (duration_as_u32 128000)
  | unicast_retries => 3
  | unicast_retry_delay => (duration_as_u32 50000)
  | broadcast_delivery_time => (duration_as_u32 9000000)
  | pending_route_discovery_attempts => 1
  | end_device_timeout_default => (EndDeviceTimeout.to_u8 Minutes256)
  | parent_annce_base_timer => (duration_as_u32 10000000)
  | parent_annce_jitter_max => (duration_as_u32 10000000)
  | aps_duplicate_rejection_timeout => (duration_as_u32 9000000)
  | aps_ack_timeout => (duration_as_u32 5000000)
  | handoff_timeout => (duration_as_u32 30000000)
  | mac_max_csma_backoffs => 2
  | mac_max_frame_retries => 5
  | broadcast_budget_tokens => 40
  | broadcast_token_refill => (duration_as_u32 675000)
  | broadcast_critical_reserve => 3
  | broadcast_forwarding_reserve => 2
  end.

(** The getters: [TunableValue::load]. *)
Definition load (t : Tunables) (f : Field) : Z := t f.

Definition store (t : Tunables) (f : Field) (v : Z) : Tunables :=
  fun g => if decide (f = g) then v else t g.

Definition set (t : Tunables) (nm : string) (raw : Z) : res TunableError Tunables :=
  match find (fun f => String.eqb (name f) nm) all_fields with
  | Some f =>
      v ← ok_or InvalidValue (decode (kind f) raw);
      Ok (store t f v)
  | None => Err UnknownName
  end.

Definition wf (t : Tunables) : Prop := forall f, kind_ok (kind f) (t f).
End Tunables.

Lemma elem_of_all_fields f : f ∈ all_fields.
Proof. destruct f; vm_compute; set_solver. Qed.

Lemma name_inj f g : name f = name g -> f = g.
Proof.
  assert (forallb (fun f => forallb (fun g => implb (String.eqb (name f) (name g)) (bool_decide (f = g)))
            all_fields) all_fields = true) as Hall by by vm_compute.
  intros Heq. rewrite forallb_forall in Hall.
  specialize (Hall f (proj1 (list_elem_of_In _ _) (elem_of_all_fields f))).
  rewrite forallb_forall in Hall.
  specialize (Hall g (proj1 (list_elem_of_In _ _) (elem_of_all_fields g))).
  rewrite Heq, String.eqb_refl in Hall. cbn in Hall. by apply bool_decide_eq_true in Hall.
Qed.

Lemma find_field_name f : find (fun g => String.eqb (name g) (name f)) all_fields = Some f.
Proof.
  destruct (find _ all_fields) as [g|] eqn:E.
  - apply find_some in E as [_ Heq%String.eqb_eq]. by apply name_inj in Heq as ->.
  - eapply find_none in E; [|apply list_elem_of_In, (elem_of_all_fields f)]. by rewrite String.eqb_refl in E.
Qed.

Lemma decode_ok k raw v : 0 <= raw -> decode k raw = Some v -> kind_ok k v.
Proof.
  intros Hraw. destruct k; cbn [decode kind_ok].
  - destruct (Z.leb_spec raw u8_max); [|done]. intros [= <-]. unfold in_width, u8_max in *. lia.
  - destruct (Z.leb_spec raw u64_max); [|done]. intros [= <-]. unfold in_width, u64_max in *. lia.
  - destruct (raw =? 0); [intros [= <-]; by left|]. destruct (raw =? 1); [|done]. intros [= <-]; by right.
  - destruct (Z.leb_spec raw u32_max); [|done]. intros [= <-]. apply Z.mod_pos_bound. lia.
  - destruct (Z.leb_spec raw u8_max); [|done]. intros (t & Ht & ->)%fmap_Some.
    rewrite EndDeviceTimeout.try_from_to_u8. eauto.
Qed.

Lemma default_wf : Tunables.wf Tunables.default.
Proof. intros f. destruct f; vm_compute; split_and?; try done; eauto. Qed.

(** [Tunables::set] on any name and any wire value either rejects it and changes nothing
    (an unknown name, or a value out of the range of the field's type), or stores the value in
    exactly the named field; every field always holds a value of its type. *)
Lemma tunables_set_spec (t : Tunables) (nm : string) (raw : Z) :
  Tunables.wf t -> 0 <= raw ->
  match Tunables.set t nm raw with
  | Ok t' => exists f v, nm = name f /\ decode (kind f) raw = Some v /\ Tunables.load t' f = v /\
      (forall g, g <> f -> Tunables.load t' g = Tunables.load t g) /\ Tunables.wf t'
  | Err UnknownName => forall f, name f <> nm
  | Err InvalidValue => exists f, nm = name f /\ decode (kind f) raw = None
  | Panic => False
  end.
Proof.
  intros Hwf Hraw. unfold Tunables.set. destruct (find _ all_fields) as [f|] eqn:E.
  - apply find_some in E as [_ <-%String.eqb_eq]. destruct (decode (kind f) raw) as [v|] eqn:Ed; cbn; [|eauto].
    exists f, v. unfold Tunables.load, Tunables.store. split_and!; [done|done|by rewrite decide_True| |].
    + intros g Hg. by rewrite decide_False.
    + intros g. case_decide as Hfg; [subst g; by eapply decode_ok|apply Hwf].
  - intros f <-. by rewrite find_field_name in E.
Qed.

Lemma tunables_set_spec_witness :
  match Tunables.set Tunables.default "unicast_retries" 300 with Err InvalidValue => True | _ => False end /\
  match Tunables.set Tunables.default "unicast_retries" 7 with
  | Ok t' => exists f v, "unicast_retries" = name f /\ decode (kind f) 7 = Some v /\ Tunables.load t' f = v /\
      (forall g, g <> f -> Tunables.load t' g = Tunables.load Tunables.default g) /\ Tunables.wf t'
  | _ => False
  end.
Proof. split; [done|]. apply (tunables_set_spec Tunables.default "unicast_retries" 7); [apply default_wf|lia]. Defined.
