(* ===== verification/SendTypes.v ===== *)
(** * The shared vocabulary of the send tables: [src/crates/ziggurat-zigbee/src/sends/mod.rs]

    Send identifiers, priorities, the failures the tables decide on their own, the frame on loan
    to the radio and the actions every mutation returns.  The tables are generic over the frame
    type [F], the waiter type [W] and the driver's error type [E], which they only build from a
    [SendFailure] (the bound [E: From<SendFailure>]). *)

From S2P Require Import Prelude Flat Types Constants.

Abbreviation SendId := Z (only parsing).

Inductive TxPriority : Type :=
| Background
| UserLow
| UserNormal
| UserHigh
| UserCritical
| StackCritical.

#[export] Instance TxPriority_eq_dec : EqDecision TxPriority.
Proof. solve_decision. Defined.

Module TxPriority.
(** [derive(Ord)]: by the order of the variants. *)
Definition rank (p : TxPriority) : Z :=
  match p with
  | Background => 0
  | UserLow => 1
  | UserNormal => 2
  | UserHigh => 3
  | UserCritical => 4
  | StackCritical => 5
  end.

(** [value] is an [i8]. *)
Definition from_host (value : Z) : TxPriority :=
  if value <=? -2 then Background
  else if value =? -1 then UserLow
  else if value =? 0 then UserNormal
  else if value =? 1 then UserHigh
  else UserCritical.

Lemma rank_inj p q : rank p = rank q -> p = q.
Proof. by destruct p, q. Qed.
End TxPriority.

Record ApsAckData := mkApsAckData {
  ack_src : Nwk;
  ack_destination_endpoint : option Z;
  ack_cluster_id : option Z;
  ack_profile_id : option Z;
  ack_source_endpoint : option Z;
  ack_counter : Z
}.

#[export] Instance ApsAckData_eq_dec : EqDecision ApsAckData.
Proof. solve_decision. Defined.

Inductive SendFailure : Type :=
| HandoffTimeout
| ApsAckTimeout
| IndirectExpired (destination : Ieee802154Address)
| RouteDiscoveryTimeout
| BroadcastQuorumNotReached
| Cancelled.

#[export] Instance SendFailure_eq_dec : EqDecision SendFailure.
Proof. solve_decision. Defined.

Inductive Confirm : Type :=
| OnHandoff
| ApsAck (ack : ApsAckData) (wait : Duration).

Inductive Transmit : Type :=
| TxUnicast (next_hop : Nwk) (frame_pending : bool)
| TxBroadcast.

Record InFlight (F : Type) := mkInFlight {
  in_flight_id : SendId;
  in_flight_frame : F;
  in_flight_transmit : Transmit
}.
Arguments mkInFlight {F}.
Arguments in_flight_id {F}.
Arguments in_flight_frame {F}.
Arguments in_flight_transmit {F}.

(** [Result<(), E>] as a value. *)
Abbreviation verdict E := (sum unit E).

Inductive Action (F W E : Type) : Type :=
| HandedOff (waiter : W)
| Settled (waiter : W) (result : verdict E) (frame : F) (failed_hop : option Nwk).
Arguments HandedOff {F W E}.
Arguments Settled {F W E}.

(** [Actions]: in order. *)
Abbreviation Actions F W E := (list (Action F W E)).

(** The bound [E: From<SendFailure>]. *)
Class FromSendFailure (E : Type) := from_send_failure : SendFailure -> E.

(** ** What the actions report *)
Section Reports.
Context {F W E : Type}.

(** The waiters whose send is over, in the order the driver learns it. *)
Definition settled_waiters (acts : Actions F W E) : list W :=
  omap (fun a => match a with Settled w _ _ _ => Some w | HandedOff _ => None end) acts.

Lemma settled_waiters_app (a b : Actions F W E) :
  settled_waiters (a ++ b) = settled_waiters a ++ settled_waiters b.
Proof. apply omap_app. Qed.
End Reports.

(** ** [Iterator::max_by_key] *)
Section Extremes.
Context {A : Type}.

(** The last element among the greatest, as the Standard Library returns it. *)
Definition max_by (le : A -> A -> bool) (l : list A) : option A :=
  fold_left (fun acc y => match acc with None => Some y | Some x => if le x y then Some y else Some x end) l None.

Lemma max_by_spec_acc (le : A -> A -> bool) (l : list A) x :
  (forall a b c, le a b = true -> le b c = true -> le a c = true) ->
  (forall a, le a a = true) -> (forall a b, le a b = false -> le b a = true) ->
  exists y, fold_left (fun acc y => match acc with None => Some y | Some x => if le x y then Some y else Some x end)
              l (Some x) = Some y /\ y ∈ x :: l /\ forall z, z ∈ x :: l -> le z y = true.
Proof.
  intros Htrans Hrefl Htotal. revert x. induction l as [|a l IH]; intros x; cbn [fold_left].
  { exists x. split_and!; [done|set_solver|]. intros z ->%list_elem_of_singleton. apply Hrefl. }
  destruct (le x a) eqn:E.
  - destruct (IH a) as (y & -> & Hin & Hmax). exists y. split_and!; [done|set_solver|].
    intros z [->|Hz]%elem_of_cons; [|by apply Hmax]. apply (Htrans _ a); [done|]. apply Hmax. set_solver.
  - destruct (IH x) as (y & -> & Hin & Hmax). exists y. split_and!; [done|set_solver|].
    intros z [->|[->|Hz]%elem_of_cons]%elem_of_cons; [apply Hmax; set_solver| |apply Hmax; set_solver].
    apply (Htrans _ x); [by apply Htotal|]. apply Hmax. set_solver.
Qed.

Lemma max_by_spec (le : A -> A -> bool) (l : list A) :
  (forall a b c, le a b = true -> le b c = true -> le a c = true) ->
  (forall a, le a a = true) -> (forall a b, le a b = false -> le b a = true) ->
  match max_by le l with
  | None => l = []
  | Some y => y ∈ l /\ forall z, z ∈ l -> le z y = true
  end.
Proof.
  intros Htrans Hrefl Htotal. unfold max_by. destruct l as [|x l]; [done|]. cbn [fold_left].
  destruct (max_by_spec_acc le l x Htrans Hrefl Htotal) as (y & -> & ?). done.
Qed.
End Extremes.

(** The scheduling order: higher priority first, then the older send (lower id); this is the key
    [(priority, Reverse(id))] of [max_by_key]. *)
Definition sched_le (x y : SendId * TxPriority) : bool :=
  match TxPriority.rank x.2 ?= TxPriority.rank y.2 with
  | Lt => true
  | Eq => y.1 <=? x.1
  | Gt => false
  end.

Lemma sched_le_iff x y :
  sched_le x y = true <->
  TxPriority.rank x.2 < TxPriority.rank y.2 \/ (TxPriority.rank x.2 = TxPriority.rank y.2 /\ y.1 <= x.1).
Proof.
  unfold sched_le. destruct (Z.compare_spec (TxPriority.rank x.2) (TxPriority.rank y.2)).
  - rewrite Z.leb_le. lia.
  - intuition lia.
  - split; [done|lia].
Qed.

Lemma sched_le_trans a b c : sched_le a b = true -> sched_le b c = true -> sched_le a c = true.
Proof. rewrite !sched_le_iff. lia. Qed.
Lemma sched_le_refl a : sched_le a a = true.
Proof. rewrite sched_le_iff. lia. Qed.
Lemma sched_le_total a b : sched_le a b = false -> sched_le b a = true.
Proof. rewrite <- not_true_iff_false, !sched_le_iff. lia. Qed.

Lemma max_by_sched l :
  match max_by sched_le l with
  | None => l = []
  | Some y => y ∈ l /\ forall z, z ∈ l -> sched_le z y = true
  end.
Proof. apply max_by_spec; [apply sched_le_trans|apply sched_le_refl|apply sched_le_total]. Qed.
