(* ===== verification/SendTable.v ===== *)
(** * What the three send tables have in common

    Each table of [src/crates/ziggurat-zigbee/src/sends] is a [FlatMap] from send ids to records;
    a record has a waiter, a frame that is absent exactly while it is on loan to the radio, and
    the instant its timer next has work to do.  [SendRecord] is that interface; this file holds
    the theory every table instantiates: the invariant, and the [effect] of a mutation on the live
    sends and on the loans (no send is lost, none is settled twice, and only the radio's report
    ends a loan). *)

From S2P Require Import Prelude Flat Types Constants SendTypes.

(** The record interface. [rec_inv] is what a table promises of its records besides the frame. *)
Class SendRecord (F W R : Type) := {
  rec_waiter : R -> W;
  rec_frame : R -> option F;
  rec_radio : R -> bool;
  rec_deadline : R -> Instant;
  rec_wake : R -> option Instant;
  rec_inv : R -> Prop
}.

Section Table.
Context {F W R E : Type} `{!SendRecord F W R}.
Implicit Types (m : FlatMap.t Z R) (r : R) (id : SendId) (now : Instant) (a b : Actions F W E) (L : gset Z).

Definition frame_ok r : Prop := rec_frame r = None <-> rec_radio r = true.
Definition rec_ok (_ : Z) r : Prop := frame_ok r /\ rec_inv r.
Definition table_waiters m : list W := rec_waiter <$> FlatMap.values m.
Definition in_radio m id : Prop := exists r, FlatMap.get m id = Some r /\ rec_radio r = true.

(** Every record is well formed and the loans are exactly [L]. *)
Definition table_inv m L : Prop := FlatMap.all_values rec_ok m /\ forall id, id ∈ L <-> in_radio m id.

Record effect m L m' L' (a : Actions F W E) : Prop := mkEffect {
  ef_inv : table_inv m' L';
  ef_waiters : table_waiters m ≡ₚ settled_waiters a ++ table_waiters m';
  ef_keys : forall id, is_Some (FlatMap.get m' id) -> is_Some (FlatMap.get m id)
}.

Lemma effect_refl m L : table_inv m L -> effect m L m L [].
Proof. by split. Qed.

Lemma effect_trans m1 L1 m2 L2 m3 L3 a b :
  effect m1 L1 m2 L2 a -> effect m2 L2 m3 L3 b -> effect m1 L1 m3 L3 (a ++ b).
Proof.
  intros [Hw1 Hp1 Hk1] [Hw2 Hp2 Hk2]. split; [done| |auto].
  rewrite settled_waiters_app, <- app_assoc, <- Hp2. done.
Qed.

(** Two reports of the same settlements: only [settled_waiters] matters. *)
Lemma effect_actions m L m' L' a b :
  settled_waiters a = settled_waiters b -> effect m L m' L' a -> effect m L m' L' b.
Proof. intros Heq [? ? ?]. split; [done| |done]. by rewrite <- Heq. Qed.

(** An update of one record: its waiter stays, and the loan status it ends with is the new [L']. *)
Lemma effect_modify m L L' id (f : R -> R) r :
  table_inv m L -> FlatMap.get m id = Some r -> (forall r, rec_waiter (f r) = rec_waiter r) ->
  rec_ok id (f r) -> (id ∈ L' <-> rec_radio (f r) = true) -> (forall id', id' <> id -> id' ∈ L' <-> id' ∈ L) ->
  effect m L (FlatMap.modify m id f) L' [].
Proof.
  intros [Hwf HL] Hget Hw Hok Hin Hout. split.
  - split.
    + apply FlatMap.all_values_modify; [|done]. intros r' Hr'. by simplify_eq.
    + intros id'. destruct (decide (id = id')) as [<-|Hne].
      * rewrite Hin. unfold in_radio. rewrite FlatMap.get_modify_eq, Hget. cbn. naive_solver.
      * rewrite Hout, HL by done. unfold in_radio. by rewrite FlatMap.get_modify_ne.
  - change (settled_waiters []) with (@nil W). unfold table_waiters.
    by rewrite (FlatMap.values_modify rec_waiter).
  - intros id'. by rewrite FlatMap.is_Some_modify.
Qed.

(** The same, for an update that does not touch the loan. *)
Lemma effect_modify_same m L id (f : R -> R) r :
  table_inv m L -> FlatMap.get m id = Some r -> (forall r, rec_waiter (f r) = rec_waiter r) ->
  rec_ok id (f r) -> rec_radio (f r) = rec_radio r ->
  effect m L (FlatMap.modify m id f) L [].
Proof.
  intros Hinv Hget Hw Hok Hr. eapply effect_modify; [done..| |done].
  rewrite (proj2 Hinv id). unfold in_radio. rewrite Hget, Hr. naive_solver.
Qed.

(** An update of every record that touches no loan. *)
Lemma effect_iter_mut m L (f : Z -> R -> R) :
  table_inv m L -> (forall id r, rec_waiter (f id r) = rec_waiter r) ->
  (forall id r, FlatMap.get m id = Some r -> rec_ok id r -> rec_ok id (f id r) /\ rec_radio (f id r) = rec_radio r) ->
  effect m L (FlatMap.iter_mut f m) L [].
Proof.
  intros [Hwf HL] Hw Hf. split.
  - split.
    + apply FlatMap.all_values_iter_mut; [|done]. intros id r Hget Hok. by apply Hf.
    + intros id. rewrite HL. unfold in_radio. rewrite FlatMap.get_iter_mut.
      destruct (FlatMap.get m id) as [r|] eqn:Hget; cbn; [|naive_solver].
      destruct (Hf id r Hget (Hwf id r Hget)) as [_ Hr]. split.
      * intros (? & [= <-] & ?). exists (f id r). by rewrite Hr.
      * intros (? & [= <-] & ?). exists r. by rewrite <- Hr.
  - change (settled_waiters []) with (@nil W). unfold table_waiters.
    by rewrite (FlatMap.values_iter_mut rec_waiter).
  - intros id. by rewrite FlatMap.get_iter_mut, fmap_is_Some.
Qed.

(** Settling a record: a loan of it ends. *)
Lemma effect_remove m L id r b :
  table_inv m L -> FlatMap.get m id = Some r -> settled_waiters b = [rec_waiter r] ->
  effect m L (FlatMap.remove m id).2 (L ∖ {[id]}) b.
Proof.
  intros [Hwf HL] Hget Hb. split.
  - split; [by apply FlatMap.all_values_remove|].
    intros id'. rewrite elem_of_difference, HL, elem_of_singleton. unfold in_radio.
    destruct (decide (id = id')) as [<-|Hne].
    + rewrite FlatMap.get_remove_eq. naive_solver.
    + rewrite FlatMap.get_remove_ne by done. naive_solver.
  - rewrite Hb. unfold table_waiters. by rewrite (FlatMap.values_remove_perm m id r Hget).
  - intros id' Hs. destruct (decide (id = id')) as [<-|Hne]; [by rewrite Hget|].
    by rewrite FlatMap.get_remove_ne in Hs.
Qed.

Lemma not_lent m L id r : table_inv m L -> FlatMap.get m id = Some r -> rec_radio r = false -> id ∉ L.
Proof.
  intros [_ HL] Hget Hr Hin%HL. destruct Hin as (? & Hget' & ?). rewrite Hget in Hget'. congruence.
Qed.

(** Settling a record that is not in the radio. *)
Lemma effect_remove_idle m L id r b :
  table_inv m L -> FlatMap.get m id = Some r -> rec_radio r = false -> settled_waiters b = [rec_waiter r] ->
  effect m L (FlatMap.remove m id).2 L b.
Proof.
  intros Hinv Hget Hr Hb. pose proof (not_lent m L id r Hinv Hget Hr) as Hnin.
  replace L with (L ∖ {[id]}) at 2 by set_solver. by eapply effect_remove.
Qed.

(** Admitting a send under a fresh id. *)
Lemma table_inv_insert m L id r :
  table_inv m L -> FlatMap.get m id = None -> rec_ok id r -> rec_radio r = false ->
  table_inv (FlatMap.insert m id r).2 L /\
  table_waiters (FlatMap.insert m id r).2 ≡ₚ rec_waiter r :: table_waiters m /\
  (forall id', is_Some (FlatMap.get (FlatMap.insert m id r).2 id') <-> id' = id \/ is_Some (FlatMap.get m id')).
Proof.
  intros [Hwf HL] Hget Hok Hr. split_and!.
  - split; [by apply FlatMap.all_values_insert|].
    intros id'. rewrite HL. unfold in_radio. destruct (decide (id = id')) as [<-|Hne].
    + rewrite FlatMap.get_insert_eq, Hget. split; [naive_solver|]. intros (? & [= <-] & ?). congruence.
    + by rewrite FlatMap.get_insert_ne.
  - unfold table_waiters. by rewrite (FlatMap.values_insert_perm m id r Hget).
  - intros id'. destruct (decide (id = id')) as [<-|Hne].
    + rewrite FlatMap.get_insert_eq. naive_solver.
    + rewrite FlatMap.get_insert_ne by done. naive_solver.
Qed.

(** ** Settling a batch

    The loops [for (id, result) in .. { self.settle(id, result, &mut actions) }]. *)
Section Batch.
Context {X : Type} (settle1 : FlatMap.t Z R -> SendId -> X -> Actions F W E -> may (FlatMap.t Z R * Actions F W E)).

Fixpoint settle_each m (l : list (SendId * X)) a : may (FlatMap.t Z R * Actions F W E) :=
  match l with
  | [] => Ok (m, a)
  | (id, x) :: l =>
      '(m, a) ← settle1 m id x a;
      settle_each m l a
  end.

(** What one settlement must do. *)
Definition settles : Prop := forall m id r x a,
  FlatMap.get m id = Some r -> frame_ok r -> rec_radio r = false ->
  exists b, settle1 m id x a = Ok ((FlatMap.remove m id).2, a ++ b) /\ settled_waiters b = [rec_waiter r].

(** A batch of settlements of distinct records, none of them in the radio. *)
Lemma settle_each_removes (Hs : settles) (l : list (SendId * X)) m a :
  (forall id r, FlatMap.get m id = Some r -> frame_ok r) -> NoDup l.*1 ->
  (forall id, id ∈ l.*1 -> exists r, FlatMap.get m id = Some r /\ rec_radio r = false) ->
  exists m' b, settle_each m l a = Ok (m', a ++ b) /\
    table_waiters m ≡ₚ settled_waiters b ++ table_waiters m' /\
    forall id, FlatMap.get m' id = if decide (id ∈ l.*1) then None else FlatMap.get m id.
Proof.
  revert m a. induction l as [|[id x] l IH]; intros m a Hok Hnd Hall; cbn [settle_each].
  { exists m, []. by rewrite app_nil_r. }
  cbn in Hnd. apply NoDup_cons in Hnd as [Hnin Hnd].
  destruct (Hall id) as (r & Hget & Hr); [set_solver|].
  destruct (Hs m id r x a Hget (Hok id r Hget) Hr) as (b & -> & Hb). cbn [mbind res_bind].
  destruct (IH (FlatMap.remove m id).2 (a ++ b)) as (m' & b' & -> & Hperm & Hget').
  { intros id' r'. destruct (decide (id = id')) as [<-|Hne]; [by rewrite FlatMap.get_remove_eq|].
    rewrite FlatMap.get_remove_ne by done. apply Hok. }
  { done. }
  { intros id' Hin. rewrite FlatMap.get_remove_ne by (intros <-; done). apply Hall. cbn. set_solver. }
  exists m', (b ++ b'). split_and!; [by rewrite app_assoc| |].
  { rewrite settled_waiters_app, Hb. unfold table_waiters in *.
    rewrite (FlatMap.values_remove_perm m id r Hget). cbn. by rewrite Hperm. }
  intros id'. rewrite Hget'. change (((id, x) :: l).*1) with (id :: l.*1).
  destruct (decide (id = id')) as [<-|Hne].
  - rewrite decide_False by done. rewrite decide_True by set_solver. apply FlatMap.get_remove_eq.
  - rewrite FlatMap.get_remove_ne by done. destruct (decide (id' ∈ l.*1)).
    + by rewrite decide_True by set_solver.
    + by rewrite decide_False by set_solver.
Qed.

(** Only the records that stay need [rec_inv]. *)
Lemma settle_each_effect (Hs : settles) (l : list (SendId * X)) m L a :
  (forall id r, FlatMap.get m id = Some r -> frame_ok r /\ ((id ∉ l.*1) -> rec_inv r)) ->
  (forall id, id ∈ L <-> in_radio m id) -> NoDup l.*1 ->
  (forall id, id ∈ l.*1 -> exists r, FlatMap.get m id = Some r /\ rec_radio r = false) ->
  exists m' b, settle_each m l a = Ok (m', a ++ b) /\ effect m L m' L b /\
    forall id, FlatMap.get m' id = if decide (id ∈ l.*1) then None else FlatMap.get m id.
Proof.
  intros Hok HL Hnd Hall.
  destruct (settle_each_removes Hs l m a) as (m' & b & -> & Hperm & Hget'); [|done|done|].
  { intros id r Hget. by apply (Hok id r Hget). }
  exists m', b. split_and!; [done| |done]. split; [split|done|].
  - intros id r. rewrite Hget'. destruct (decide (id ∈ l.*1)); [done|]. intros Hget.
    destruct (Hok id r Hget) as [? ?]. by split; auto.
  - intros id. rewrite HL. unfold in_radio. rewrite Hget'. destruct (decide (id ∈ l.*1)) as [Hin|]; [|done].
    destruct (Hall id Hin) as (r & Hget & Hr). rewrite Hget. split; [|naive_solver].
    intros (? & [= <-] & ?). congruence.
  - intros id. rewrite Hget'. destruct (decide _); [by intros []|done].
Qed.
End Batch.

(** ** The ids an [omap] over the entries selects *)
Lemma selected_ids {X} (p : Z * R -> option (SendId * X)) m :
  (forall e y, p e = Some y -> y.1 = e.1) ->
  NoDup (omap p (FlatMap.entries m)).*1 /\
  forall id, id ∈ (omap p (FlatMap.entries m)).*1 <-> exists r, FlatMap.get m id = Some r /\ is_Some (p (id, r)).
Proof.
  intros Hp. split.
  - pose proof (FlatMap.NoDup_keys m) as Hnd. unfold FlatMap.keys in Hnd. induction (FlatMap.entries m) as [|e l IH]; cbn; [constructor|].
    cbn in Hnd. apply NoDup_cons in Hnd as [Hnin Hnd]. specialize (IH Hnd).
    destruct (p e) as [y|] eqn:Hy; [|done]. cbn. constructor; [|done].
    rewrite (Hp e y Hy). intros ([z x] & Heq & (e' & Hin & Hpe)%list_elem_of_omap)%list_elem_of_fmap.
    apply Hnin. rewrite Heq, (Hp e' _ Hpe). by apply list_elem_of_fmap_2.
  - intros id. rewrite list_elem_of_fmap. split.
    + intros (y & -> & ([k r] & Hin & Hpe)%list_elem_of_omap). rewrite (Hp _ _ Hpe). cbn.
      exists r. split; [by apply FlatMap.elem_of_entries|]. by rewrite Hpe.
    + intros (r & Hget & [y Hy]). exists y. split; [by rewrite (Hp _ _ Hy)|].
      apply list_elem_of_omap. exists (id, r). split; [by apply FlatMap.elem_of_entries|done].
Qed.

(** ** Shutting down

    The loop [while let Some((_, record)) = self.records.pop_first() { waiters.push(record.waiter) }]. *)
Fixpoint pop_all (waiter_of : R -> W) (fuel : nat) m (waiters : list W) : list W * FlatMap.t Z R :=
  match fuel with
  | O => (waiters, m)
  | S fuel =>
      match FlatMap.pop_first m with
      | None => (waiters, m)
      | Some ((_, r), m) => pop_all waiter_of fuel m (waiters ++ [waiter_of r])
      end
  end.

Lemma pop_all_spec fuel m ws :
  (FlatMap.len m < fuel)%nat -> pop_all rec_waiter fuel m ws = (ws ++ table_waiters m, FlatMap.new).
Proof.
  revert m ws. induction fuel as [|fuel IH]; intros m ws Hlen; [lia|]. cbn [pop_all].
  destruct (FlatMap.pop_first m) as [[[id r] m']|] eqn:Hpop.
  - apply FlatMap.pop_first_spec in Hpop as [Hent _]. unfold FlatMap.len in Hlen. rewrite Hent in Hlen. cbn in Hlen.
    rewrite IH by (unfold FlatMap.len; lia). unfold table_waiters, FlatMap.values. rewrite Hent. cbn. by rewrite <- app_assoc.
  - apply FlatMap.pop_first_None in Hpop as ->. by rewrite app_nil_r.
Qed.

(** ** The timer *)
Definition table_next_wake m : option Instant := min_instant (omap rec_wake (FlatMap.values m)).

Lemma table_next_wake_spec m :
  match table_next_wake m with
  | None => forall id r, FlatMap.get m id = Some r -> rec_wake r = None
  | Some t => (exists id r, FlatMap.get m id = Some r /\ rec_wake r = Some t) /\
              forall id r t', FlatMap.get m id = Some r -> rec_wake r = Some t' -> t <= t'
  end.
Proof.
  unfold table_next_wake. pose proof (min_instant_spec (omap rec_wake (FlatMap.values m))) as Hspec.
  destruct (min_instant _) as [t|].
  - destruct Hspec as [(r & (id & Hget)%FlatMap.elem_of_values & Hw)%list_elem_of_omap Hmin].
    split; [eauto|]. intros id' r' t' Hget' Hw'. apply Hmin, list_elem_of_omap.
    exists r'. split; [|done]. apply FlatMap.elem_of_values. eauto.
  - intros id r Hget. destruct (rec_wake r) as [t|] eqn:Hw; [|done]. exfalso.
    assert (t ∈ omap rec_wake (FlatMap.values m)) as Hin; [|rewrite Hspec in Hin; set_solver].
    apply list_elem_of_omap. exists r. split; [|done]. apply FlatMap.elem_of_values. eauto.
Qed.

(** Nothing is due yet at [now]. *)
Definition quiet now m : Prop := forall id r t, FlatMap.get m id = Some r -> rec_wake r = Some t -> now < t.

Lemma quiet_next_wake now m :
  quiet now m <-> match table_next_wake m with None => True | Some t => now < t end.
Proof.
  pose proof (table_next_wake_spec m) as Hspec. destruct (table_next_wake m) as [t|].
  - destruct Hspec as [(id & r & Hget & Hw) Hmin]. split.
    + intros Hq. by eapply Hq.
    + intros Hlt id' r' t' Hget' Hw'. specialize (Hmin _ _ _ Hget' Hw'). lia.
  - split; [done|]. intros _ id r t Hget Hw. rewrite (Hspec id r Hget) in Hw. done.
Qed.
End Table.
Arguments SendRecord : clear implicits.
Arguments frame_ok {F W R _} r /.
