(* ===== verification/Unicasts.v ===== *)
(** * Unicasts with a known next hop: [src/crates/ziggurat-zigbee/src/sends/unicasts.rs]

    One record per send, in id order.  The record's [stage] is the send's state machine; its
    frame is in the record, or on loan to the radio while the stage is [Transmitting].

    A panic ([unwrap], [expect], [unreachable!], and the debug assertions) is the outcome
    [Panic]; the table's invariant and the driver's contract rule it out. *)

From S2P Require Import Prelude Flat Types Constants SendTypes SendTable.

Module Unicasts.

(** [Unicast]: what a unicast is enqueued with. *)
Record Unicast (F W : Type) := mkUnicast {
  u_frame : F;
  u_priority : TxPriority;
  u_waiter : W;
  u_confirm : Confirm;
  u_next_hop : Nwk;
  u_poll_address : option Ieee802154Address
}.
Arguments mkUnicast {F W}.
Arguments u_frame {F W}.
Arguments u_priority {F W}.
Arguments u_waiter {F W}.
Arguments u_confirm {F W}.
Arguments u_next_hop {F W}.
Arguments u_poll_address {F W}.

Inductive Stage : Type :=
| Queued
| Transmitting (acked : bool)
| Retrying (at_ : Instant)
| AwaitingPoll
| AwaitingApsAck.

(** [Record]. *)
Record Rec (F W : Type) := mkRec {
  frame : option F;
  priority : TxPriority;
  waiter : W;
  confirm : Confirm;
  next_hop : Nwk;
  poll_address : option Ieee802154Address;
  attempts_remaining : Z;
  stage : Stage;
  deadline : Instant;
  copy_of : option SendId
}.
Arguments mkRec {F W}.
Arguments frame {F W}.
Arguments priority {F W}.
Arguments waiter {F W}.
Arguments confirm {F W}.
Arguments next_hop {F W}.
Arguments poll_address {F W}.
Arguments attempts_remaining {F W}.
Arguments stage {F W}.
Arguments deadline {F W}.
Arguments copy_of {F W}.

Section Model.
Context {F W E : Type} `{FromSendFailure E}.
Implicit Types (m : FlatMap.t Z (Rec F W)) (r : Rec F W) (id : SendId) (now : Instant).

(** Field updates of a record ([record.stage = ..] and the like). *)
Definition set_stage r (s : Stage) : Rec F W :=
  mkRec (frame r) (priority r) (waiter r) (confirm r) (next_hop r) (poll_address r)
        (attempts_remaining r) s (deadline r) (copy_of r).
Definition set_frame r (f : option F) : Rec F W :=
  mkRec f (priority r) (waiter r) (confirm r) (next_hop r) (poll_address r)
        (attempts_remaining r) (stage r) (deadline r) (copy_of r).
Definition set_priority r (p : TxPriority) : Rec F W :=
  mkRec (frame r) p (waiter r) (confirm r) (next_hop r) (poll_address r)
        (attempts_remaining r) (stage r) (deadline r) (copy_of r).
Definition set_deadline r (d : Instant) : Rec F W :=
  mkRec (frame r) (priority r) (waiter r) (confirm r) (next_hop r) (poll_address r)
        (attempts_remaining r) (stage r) d (copy_of r).
Definition set_attempts r (n : Z) : Rec F W :=
  mkRec (frame r) (priority r) (waiter r) (confirm r) (next_hop r) (poll_address r)
        n (stage r) (deadline r) (copy_of r).

Definition is_transmitting_stage (s : Stage) : bool :=
  match s with Transmitting _ => true | _ => false end.

Definition pending_for r : option Ieee802154Address :=
  match poll_address r, stage r with
  | Some address, (AwaitingPoll | Queued | Transmitting _) => Some address
  | _, _ => None
  end.

Definition deadline_failure r : option SendFailure :=
  match stage r with
  | Transmitting _ => None
  | AwaitingApsAck => Some ApsAckTimeout
  | Queued | Retrying _ | AwaitingPoll =>
      match poll_address r with
      | None => Some HandoffTimeout
      | Some destination => Some (IndirectExpired destination)
      end
  end.

Definition record_next_wake r : option Instant :=
  match stage r with
  | Transmitting _ => None
  | Retrying at_ => Some (Z.min at_ (deadline r))
  | Queued | AwaitingPoll | AwaitingApsAck => Some (deadline r)
  end.

Definition contains m id : bool := FlatMap.contains_key m id.

Definition enqueue m id (unicast : Unicast F W) now (admitted_deadline : option Instant)
    (copy_of : option SendId) (tunables : Tunables) : FlatMap.t Z (Rec F W) :=
  let persistence_deadline := Instant.add now (tunables transaction_persistence_time) in
  let '(stage, deadline) :=
    match u_poll_address unicast, admitted_deadline with
    | None, None => (Queued, Instant.add now (tunables handoff_timeout))
    | None, Some deadline => (Queued, deadline)
    | Some _, None => (AwaitingPoll, persistence_deadline)
    | Some _, Some deadline => (AwaitingPoll, Z.min persistence_deadline deadline)
    end in
  (FlatMap.insert m id
    {| frame := Some (u_frame unicast);
       priority := u_priority unicast;
       waiter := u_waiter unicast;
       confirm := u_confirm unicast;
       next_hop := u_next_hop unicast;
       poll_address := u_poll_address unicast;
       attempts_remaining := tunables unicast_retries;
       stage := stage;
       deadline := deadline;
       copy_of := copy_of |}).2.

Definition is_queued (s : Stage) : bool := match s with Queued => true | _ => false end.

Definition queued_at now (e : Z * Rec F W) : option (SendId * TxPriority) :=
  if is_queued (stage e.2) && (now <? deadline e.2) then Some (e.1, priority e.2) else None.

Definition best_queued m now : option (SendId * TxPriority) :=
  max_by sched_le (omap (queued_at now) (FlatMap.entries m)).

Definition dequeue m id : may (InFlight F * FlatMap.t Z (Rec F W)) :=
  r0 ← unwrap (FlatMap.get m id);
  let frame_pending :=
    match poll_address r0 with
    | Some address =>
        existsb (fun e => negb (e.1 =? id) && bool_decide (pending_for e.2 = Some address)) (FlatMap.entries m)
    | None => false
    end in
  _ ← rust_assert (is_queued (stage r0));
  f ← unwrap (frame r0);
  Ok (mkInFlight id f (TxUnicast (next_hop r0) frame_pending),
      FlatMap.modify m id (fun r => set_frame (set_stage r (Transmitting false)) None)).

(** [settle]: remove a record and report its verdict. *)
Definition settle m id (result : verdict E) (failed_hop : option Nwk) (actions : Actions F W E)
    : may (FlatMap.t Z (Rec F W) * Actions F W E) :=
  let '(removed, m') := FlatMap.remove m id in
  r ← unwrap removed;
  let actions := match stage r with AwaitingApsAck => actions ++ [HandedOff (waiter r)] | _ => actions end in
  f ← unwrap (frame r);
  Ok (m', actions ++ [Settled (waiter r) result f failed_hop]).

Definition handed_off m id now (acked : bool) (actions : Actions F W E)
    : may (FlatMap.t Z (Rec F W) * Actions F W E) :=
  r ← unwrap (FlatMap.get m id);
  let wait :=
    match confirm r with
    | OnHandoff => None
    | ApsAck _ wait => if acked then None else Some wait
    end in
  match wait with
  | None => settle m id (inl tt) None actions
  | Some wait =>
      Ok (FlatMap.modify m id (fun r => set_deadline (set_stage r AwaitingApsAck) (Instant.add now wait)),
          actions ++ [HandedOff (waiter r)])
  end.

Definition transmitted m id (f : F) (result : verdict E) now (retry_delay : Duration)
    : may (FlatMap.t Z (Rec F W) * Actions F W E) :=
  r0 ← unwrap (FlatMap.get m id);
  match stage r0 with
  | Transmitting acked =>
      let m := FlatMap.modify m id (fun r => set_frame r (Some f)) in
      match result with
      | inl _ => handed_off m id now acked []
      | inr err =>
          if acked then handed_off m id now acked []
          else
            match poll_address r0 with
            | Some _ =>
                if now <? deadline r0
                then Ok (FlatMap.modify m id (fun r => set_stage r AwaitingPoll), [])
                else settle m id (inr err) None []
            | None =>
                if attempts_remaining r0 =? 0
                then settle m id (inr err) (Some (next_hop r0)) []
                else Ok (FlatMap.modify m id (fun r =>
                           set_stage (set_attempts r (attempts_remaining r - 1))
                                     (Retrying (Instant.add now retry_delay))), [])
            end
      end
  | _ => Panic
  end.

(** The closure [matches] of [poll]. *)
Definition poll_matches (eui64 : option Eui64) (nwk : option Nwk) (address : Ieee802154Address) : bool :=
  match address with
  | AddrEui64 e => bool_decide (eui64 = Some e)
  | AddrNwk n => bool_decide (nwk = Some n)
  end.

Definition awaiting_poll_of (eui64 : option Eui64) (nwk : option Nwk) now (e : Z * Rec F W) : bool :=
  match poll_address e.2, stage e.2 with
  | Some address, AwaitingPoll => poll_matches eui64 nwk address && (now <? deadline e.2)
  | _, _ => false
  end.

Definition poll m (eui64 : option Eui64) (nwk : option Nwk) now : bool * FlatMap.t Z (Rec F W) :=
  match find (awaiting_poll_of eui64 nwk now) (FlatMap.entries m) with
  | None => (false, m)
  | Some e => (true, FlatMap.modify m e.1 (fun r => set_stage (set_priority r StackCritical) Queued))
  end.

Definition confirms (ack : ApsAckData) (e : Z * Rec F W) : bool :=
  match confirm e.2 with
  | ApsAck expected _ => bool_decide (expected = ack)
  | OnHandoff => false
  end.

Definition ack_received m (ack : ApsAckData) : may (FlatMap.t Z (Rec F W) * Actions F W E) :=
  match find (confirms ack) (FlatMap.entries m) with
  | None => Ok (m, [])
  | Some e =>
      if is_transmitting_stage (stage e.2)
      then Ok (FlatMap.modify m e.1 (fun r => set_stage r (Transmitting true)), [])
      else settle m e.1 (inl tt) None []
  end.

(** The loop [for (id, failure) in .. { self.settle(id, Err(failure.into()), ..) }]. *)
Definition settle_all m (l : list (SendId * SendFailure)) (actions : Actions F W E)
    : may (FlatMap.t Z (Rec F W) * Actions F W E) :=
  settle_each (fun m id failure => settle m id (inr (from_send_failure failure)) None) m l actions.

Definition dropped_with (eui64 : option Eui64) (nwk : Nwk) (e : Z * Rec F W) : option (SendId * SendFailure) :=
  match poll_address e.2, stage e.2 with
  | Some address, AwaitingPoll =>
      if bool_decide (address = AddrNwk nwk) ||
         match eui64 with Some x => bool_decide (address = AddrEui64 x) | None => false end
      then Some (e.1, IndirectExpired address) else None
  | _, _ => None
  end.

Definition drop_indirect m (eui64 : option Eui64) (nwk : Nwk) : may (FlatMap.t Z (Rec F W) * Actions F W E) :=
  settle_all m (omap (dropped_with eui64 nwk) (FlatMap.entries m)) [].

(** [abandon]: the [while let Some(..) = pop_first()] loop empties the table in id order. *)
Definition abandon m : list W * FlatMap.t Z (Rec F W) := pop_all waiter (S (FlatMap.len m)) m [].

Definition cancel m id : may (option (Actions F W E) * FlatMap.t Z (Rec F W)) :=
  match FlatMap.get m id with
  | None => Ok (None, m)
  | Some r =>
      if is_transmitting_stage (stage r) then Ok (None, m)
      else
        '(m, actions) ← settle m id (inr (from_send_failure Cancelled)) None [];
        Ok (Some actions, m)
  end.

Definition is_transmitting m id : may bool :=
  r ← unwrap (FlatMap.get m id);
  Ok (is_transmitting_stage (stage r)).

Definition copies_of m (broadcast : SendId) : list SendId :=
  omap (fun e => if bool_decide (copy_of e.2 = Some broadcast) then Some e.1 else None) (FlatMap.entries m).

(** The first half of [tick]'s loop body: a due retry is queued again. *)
Definition requeue_due now (_ : Z) r : Rec F W :=
  match stage r with
  | Retrying at_ => if at_ <=? now then set_stage r Queued else r
  | _ => r
  end.

(** The second half: the records past their deadline, with the failure their stage means. *)
Definition lapsed now (e : Z * Rec F W) : option (SendId * SendFailure) :=
  if deadline e.2 <=? now then
    match deadline_failure e.2 with
    | Some failure => Some (e.1, failure)
    | None => None
    end
  else None.

Definition tick m now : may (FlatMap.t Z (Rec F W) * Actions F W E) :=
  let m := FlatMap.iter_mut (requeue_due now) m in
  settle_all m (omap (lapsed now) (FlatMap.entries m)) [].

Definition next_wake m : option Instant :=
  min_instant (omap record_next_wake (FlatMap.values m)).

Definition has_awaiting_poll m (address : Ieee802154Address) : bool :=
  existsb (fun r => bool_decide (pending_for r = Some address)) (FlatMap.values m).
End Model.

(** [SrcMatchTable]. *)
Record SrcMatchTable := mkSrcMatchTable {
  short_addresses : FlatSet.t Z;
  extended_addresses : FlatSet.t Eui64
}.

Definition src_match_contains (t : SrcMatchTable) (address : Ieee802154Address) : bool :=
  match address with
  | AddrNwk nwk => FlatSet.contains (short_addresses t) nwk
  | AddrEui64 eui64 => FlatSet.contains (extended_addresses t) eui64
  end.

(** The loop body of [poll_addresses]. *)
Definition add_poll_address (address_map : FlatMap.t Eui64 Z) (t : SrcMatchTable) (address : Ieee802154Address)
    : SrcMatchTable :=
  match address with
  | AddrEui64 eui64 =>
      let extended := (FlatSet.insert (extended_addresses t) eui64).2 in
      match FlatMap.get address_map eui64 with
      | Some nwk => mkSrcMatchTable (FlatSet.insert (short_addresses t) nwk).2 extended
      | None => mkSrcMatchTable (short_addresses t) extended
      end
  | AddrNwk nwk => mkSrcMatchTable (FlatSet.insert (short_addresses t) nwk).2 (extended_addresses t)
  end.

Definition poll_addresses {F W} (m : FlatMap.t Z (Rec F W)) (address_map : FlatMap.t Eui64 Z) : SrcMatchTable :=
  fold_left (add_poll_address address_map) (omap pending_for (FlatMap.values m))
    (mkSrcMatchTable FlatSet.new FlatSet.new).

End Unicasts.
