(* ===== verification/UnicastFacts.v ===== *)
(** * Facts about the unicast table

    The table as an instance of [SendRecord]: the effect of every operation on the live sends and
    the loans, the choice [best_queued] makes, and the timer (a tick leaves nothing overdue, and a
    tick before [next_wake] does nothing). *)

From S2P Require Import Prelude Flat Types Constants SendTypes SendTable Unicasts.

Module UnicastFacts.
Import Unicasts.

#[global] Instance unicast_record F W : SendRecord F W (Rec F W) := {
  rec_waiter := waiter;
  rec_frame := frame;
  rec_radio r := is_transmitting_stage (stage r);
  rec_deadline := deadline;
  rec_wake := record_next_wake;
  rec_inv _ := True
}.

Section Facts.
Context {F W E : Type} `{FromSendFailure E}.
Implicit Types (m : FlatMap.t Z (Rec F W)) (r : Rec F W) (id : SendId) (now : Instant).
Implicit Types (a : Actions F W E) (L : gset Z).

Lemma unicast_enqueue_inv m L id (u : Unicast F W) now admitted copy tunables :
  table_inv m L -> FlatMap.get m id = None ->
  let m' := enqueue m id u now admitted copy tunables in
  table_inv m' L /\ table_waiters m' ≡ₚ u_waiter u :: table_waiters m /\
  (forall id', is_Some (FlatMap.get m' id') <-> id' = id \/ is_Some (FlatMap.get m id')).
Proof.
  intros Hinv Hget. unfold enqueue.
  destruct (u_poll_address u) as [addr|], admitted as [d|];
    match goal with |- context [FlatMap.insert m id ?x] => by apply (table_inv_insert m L id x Hinv Hget) end.
Qed.

Lemma unicast_frame_present m L id r :
  table_inv m L -> FlatMap.get m id = Some r -> is_transmitting_stage (stage r) = false ->
  exists f, frame r = Some f.
Proof.
  intros [Hwf _] Hget Hst. destruct (frame r) as [f|] eqn:Ef; [eauto|].
  apply (Hwf id r Hget) in Ef. cbn in Ef. congruence.
Qed.

(** [settle] on a record that is not in the radio. *)
Lemma unicast_settle_spec m id r (result : verdict E) hop a f :
  FlatMap.get m id = Some r -> frame r = Some f ->
  settle m id result hop a =
  Ok ((FlatMap.remove m id).2,
      a ++ (match stage r with AwaitingApsAck => [HandedOff (waiter r)] | _ => [] end ++ [Settled (waiter r) result f hop])).
Proof.
  intros Hget Hf. unfold settle. rewrite (FlatMap.remove_pair m id), Hget. cbn [unwrap mbind res_bind].
  rewrite Hf. cbn [unwrap mbind res_bind]. by destruct (stage r); rewrite <- ?app_assoc.
Qed.

Lemma unicast_settle_reports r (result : verdict E) (f : F) hop :
  settled_waiters (match stage r with AwaitingApsAck => [HandedOff (waiter r)] | _ => [] end ++
                   [Settled (waiter r) result f hop]) = [waiter r].
Proof. by destruct (stage r). Qed.

Lemma unicast_settle_settles hop :
  settles (X:=SendFailure) (fun m id fl => settle (E:=E) m id (inr (from_send_failure fl)) hop).
Proof.
  intros m id r fl a Hget Hok Hst. cbn in Hok, Hst. destruct (frame r) as [f|] eqn:Ef.
  - eexists. split; [by apply unicast_settle_spec|]. apply unicast_settle_reports.
  - rewrite (proj1 Hok eq_refl) in Hst. done.
Qed.

Lemma unicast_settle_effect m L id r (result : verdict E) hop a :
  table_inv m L -> FlatMap.get m id = Some r -> is_transmitting_stage (stage r) = false ->
  exists b, settle m id result hop a = Ok ((FlatMap.remove m id).2, a ++ b) /\
    effect m L (FlatMap.remove m id).2 L b.
Proof.
  intros Hinv Hget Hst. destruct (unicast_frame_present m L id r Hinv Hget Hst) as [f Hf].
  eexists. split; [by apply unicast_settle_spec|]. eapply effect_remove_idle; [done..|]. apply unicast_settle_reports.
Qed.

(** [best_queued] picks a queued record in time, and no such record goes before it. *)
Lemma unicast_best_queued_spec m now :
  match best_queued m now with
  | None => forall id r, FlatMap.get m id = Some r -> stage r = Queued -> deadline r <= now
  | Some (id, p) =>
      (exists r, FlatMap.get m id = Some r /\ stage r = Queued /\ now < deadline r /\ p = priority r) /\
      forall id' r', FlatMap.get m id' = Some r' -> stage r' = Queued -> now < deadline r' ->
        sched_le (id', priority r') (id, p) = true
  end.
Proof.
  assert (forall y, y ∈ omap (queued_at now) (FlatMap.entries m) <->
            exists r, FlatMap.get m y.1 = Some r /\ stage r = Queued /\ now < deadline r /\ y.2 = priority r) as Helem.
  { intros [id p]. rewrite list_elem_of_omap. unfold queued_at. split.
    - intros ([k r] & Hin%FlatMap.elem_of_entries & Hq). cbn in *. exists r.
      destruct (stage r); cbn in Hq; try done. destruct (Z.ltb_spec now (deadline r)); by simplify_eq/=.
    - intros (r & Hget & Hst & Hlt & Hp). exists (id, r). cbn in *. rewrite Hst, Hp. cbn.
      split; [by apply FlatMap.elem_of_entries|]. by rewrite (proj2 (Z.ltb_lt _ _) Hlt). }
  unfold best_queued. pose proof (max_by_sched (omap (queued_at now) (FlatMap.entries m))) as Hmax.
  destruct (max_by _ _) as [[id p]|].
  - destruct Hmax as [Hin Hmax]. split; [by apply (Helem (id, p))|].
    intros id' r' Hget Hst Hlt. apply Hmax, Helem. eauto 10.
  - intros id r Hget Hst. destruct (Z.le_gt_cases (deadline r) now); [done|]. exfalso.
    assert ((id, priority r) ∈ omap (queued_at now) (FlatMap.entries m)) as Hin by (apply Helem; eauto).
    rewrite Hmax in Hin. set_solver.
Qed.

Lemma unicast_dequeue_effect m L id r :
  table_inv m L -> FlatMap.get m id = Some r -> stage r = Queued ->
  exists f pending m', dequeue m id = Ok (mkInFlight id f (TxUnicast (next_hop r) pending), m') /\
    frame r = Some f /\ (id ∉ L) /\ effect (E:=E) m L m' ({[id]} ∪ L) [].
Proof.
  intros Hinv Hget Hst. destruct (unicast_frame_present m L id r Hinv Hget) as [f Hf]; [by rewrite Hst|].
  unfold dequeue. rewrite Hget. cbn. rewrite Hst, Hf. cbn. do 3 eexists. split_and!; [done..| |].
  - rewrite (proj2 Hinv id). unfold in_radio. rewrite Hget. intros (? & [= <-] & Hr). cbn in Hr. by rewrite Hst in Hr.
  - eapply effect_modify; [done..| | |]; [by split|cbn; set_solver..].
Qed.

(** The report ends the loan, whatever becomes of the send. *)
Lemma unicast_transmitted_effect m L id (f : F) (result : verdict E) now retry_delay :
  table_inv m L -> id ∈ L ->
  exists m' a, transmitted m id f result now retry_delay = Ok (m', a) /\ effect m L m' (L ∖ {[id]}) a.
Proof.
  intros Hinv (r & Hget & Hr)%(proj2 Hinv). cbn in Hr.
  set (m1 := FlatMap.modify m id (fun r => set_frame r (Some f))).
  assert (FlatMap.get m1 id = Some (set_frame r (Some f))) as Hget1.
  { unfold m1. by rewrite FlatMap.get_modify_eq, Hget. }
  assert (forall res hop, exists m' a, settle m1 id res hop [] = Ok (m', a) /\ effect m L m' (L ∖ {[id]}) a) as Hsettle.
  { intros res hop. do 2 eexists. split; [by eapply unicast_settle_spec|]. cbn [app]. unfold m1.
    rewrite FlatMap.remove_modify. eapply effect_remove; [done..|]. apply unicast_settle_reports. }
  assert (forall g a, (forall r, waiter (g r) = waiter r /\ frame (g r) = frame r) ->
            is_transmitting_stage (stage (g (set_frame r (Some f)))) = false -> settled_waiters a = [] ->
            effect (E:=E) m L (FlatMap.modify m1 id g) (L ∖ {[id]}) a) as Hback.
  { intros g a Hg Hst Ha. apply (effect_actions _ _ _ _ []); [done|]. unfold m1. rewrite FlatMap.modify_modify.
    eapply effect_modify; [done..| | | |]; cbn.
    - intros r'. by destruct (Hg (set_frame r' (Some f))) as [-> _].
    - split; [|done]. cbn. rewrite Hst. by destruct (Hg (set_frame r (Some f))) as [_ ->].
    - rewrite Hst. set_solver.
    - set_solver. }
  assert (forall acked, exists m' a, handed_off m1 id now acked [] = Ok (m', a) /\ effect m L m' (L ∖ {[id]}) a) as Hoff.
  { intros acked. unfold handed_off. rewrite Hget1. cbn [unwrap mbind res_bind set_frame confirm].
    destruct (confirm r) as [|ack wait]; [done|]. destruct acked; [done|].
    do 2 eexists. split; [done|]. by apply Hback. }
  unfold transmitted. rewrite Hget. cbn [unwrap mbind res_bind]. destruct (stage r) as [|acked| | |]; try done.
  fold m1. destruct result as [|err]; [done|]. destruct acked; [done|].
  destruct (poll_address r); [destruct (now <? deadline r)|destruct (attempts_remaining r =? 0)]; try done.
  all: do 2 eexists; split; [done|by apply Hback].
Qed.

Lemma poll_effect m L eui64 nwk now :
  table_inv m L -> effect (E:=E) m L (poll m eui64 nwk now).2 L [].
Proof.
  intros Hinv. unfold poll. destruct (find _ _) as [[id r]|] eqn:Hfind; [|by apply effect_refl].
  apply FlatMap.find_entry in Hfind as (Hget & Hp & _). cbn in *. unfold awaiting_poll_of in Hp. cbn in Hp.
  destruct (poll_address r), (stage r) eqn:Hst; try done.
  destruct (proj1 Hinv id r Hget) as [Hok _]. cbn in Hok. rewrite Hst in Hok.
  eapply effect_modify_same; [done..| |]; cbn; [split; cbn; [|done]; done|by rewrite Hst].
Qed.

Lemma ack_received_effect m L ack :
  table_inv m L -> exists m' a, ack_received m ack = Ok (m', a) /\ effect (E:=E) m L m' L a.
Proof.
  intros Hinv. unfold ack_received. destruct (find _ _) as [[id r]|] eqn:Hfind; cycle 1.
  { do 2 eexists. split; [done|]. by apply effect_refl. }
  apply FlatMap.find_entry in Hfind as (Hget & _). cbn [fst snd] in *.
  destruct (is_transmitting_stage (stage r)) eqn:Hst.
  - do 2 eexists. split; [done|]. destruct (proj1 Hinv id r Hget) as [Hok _]. cbn in Hok.
    eapply effect_modify_same; [done..| |]; cbn; [split; cbn; [|done]|done]. by rewrite Hok.
  - destruct (unicast_settle_effect m L id r (inl tt) None [] Hinv Hget Hst) as (b & -> & ?). eauto.
Qed.

Lemma drop_indirect_effect m L eui64 nwk :
  table_inv m L -> exists m' a, drop_indirect m eui64 nwk = Ok (m', a) /\ effect (E:=E) m L m' L a.
Proof.
  intros Hinv. unfold drop_indirect, settle_all.
  destruct (selected_ids (dropped_with eui64 nwk) m) as [Hnd Hsel].
  { intros [k r] y. unfold dropped_with. cbn. destruct (poll_address r), (stage r); try done. destruct (_ || _); naive_solver. }
  edestruct (settle_each_effect _ (unicast_settle_settles None)) as (m' & b & -> & Heff & _); [|apply Hinv|done| |eauto].
  { intros id r Hget. by split; [apply (proj1 Hinv id r Hget)|]. }
  intros id (r & Hget & [y Hy])%Hsel. exists r. split; [done|]. unfold dropped_with in Hy. cbn in *.
  by destruct (poll_address r), (stage r).
Qed.

Lemma unicast_cancel_effect m L id :
  table_inv m L -> exists o m', cancel m id = Ok (o, m') /\ effect (E:=E) m L m' L (default [] o) /\
    (is_Some o <-> exists r, FlatMap.get m id = Some r /\ is_transmitting_stage (stage r) = false).
Proof.
  intros Hinv. unfold cancel. destruct (FlatMap.get m id) as [r|] eqn:Hget; cycle 1.
  { do 2 eexists. split_and!; [done|by apply effect_refl|]. split; [by intros []|]. by intros (? & [=] & ?). }
  destruct (is_transmitting_stage (stage r)) eqn:Hst.
  { do 2 eexists. split_and!; [done|by apply effect_refl|]. split; [by intros []|]. intros (? & [= <-] & ?). congruence. }
  destruct (unicast_settle_effect m L id r (inr (from_send_failure Cancelled)) None [] Hinv Hget Hst) as (b & -> & ?).
  do 2 eexists. split_and!; [done|done|]. split; eauto.
Qed.

Lemma requeue_due_ok now id r :
  rec_ok id r -> rec_ok id (requeue_due now id r) /\ rec_radio (requeue_due now id r) = rec_radio r.
Proof.
  unfold requeue_due. destruct (stage r) eqn:Hst; try done. destruct (at_ <=? now); [|done].
  intros [Hok _]. cbn in *. rewrite Hst in *. by split; [split|].
Qed.

Lemma unicast_lapsed_id now (e : Z * Rec F W) y : lapsed now e = Some y -> y.1 = e.1.
Proof. unfold lapsed. destruct (_ <=? _); [|done]. destruct (deadline_failure e.2); naive_solver. Qed.

Lemma lapsed_iff now id r :
  is_Some (lapsed now (id, r)) <-> deadline r <= now /\ is_transmitting_stage (stage r) = false.
Proof.
  unfold lapsed, deadline_failure. cbn. destruct (Z.leb_spec (deadline r) now).
  - destruct (stage r), (poll_address r); cbn; rewrite ?is_Some_alt; cbn; intuition done.
  - rewrite is_Some_alt. split; [done|lia].
Qed.

(** A tick settles exactly the lapsed records, and queues again exactly the due retries. *)
Lemma unicast_tick_effect m L now :
  table_inv m L ->
  exists m' a, tick m now = Ok (m', a) /\ effect (E:=E) m L m' L a /\
    forall id, FlatMap.get m' id =
      match FlatMap.get m id with
      | Some r => if bool_decide (deadline r <= now) && negb (is_transmitting_stage (stage r)) then None
                  else Some (requeue_due now id r)
      | None => None
      end.
Proof.
  intros Hinv. unfold tick, settle_all. set (m1 := FlatMap.iter_mut (requeue_due now) m).
  assert (effect (E:=E) m L m1 L []) as Heff1.
  { apply effect_iter_mut; [done| |].
    - intros id r. unfold requeue_due. by destruct (stage r); try destruct (at_ <=? now).
    - intros id r _ Hok. by apply requeue_due_ok. }
  destruct (selected_ids (lapsed now) m1 (unicast_lapsed_id now)) as [Hnd Hsel].
  assert (forall id, id ∈ (omap (lapsed now) (FlatMap.entries m1)).*1 <->
            exists r, FlatMap.get m id = Some r /\ deadline r <= now /\ is_transmitting_stage (stage r) = false) as Hlapsed.
  { intros id. rewrite Hsel. unfold m1. rewrite FlatMap.get_iter_mut. setoid_rewrite lapsed_iff.
    destruct (FlatMap.get m id) as [r|]; cbn; [|naive_solver].
    assert (deadline (requeue_due now id r) = deadline r /\
            is_transmitting_stage (stage (requeue_due now id r)) = is_transmitting_stage (stage r)) as [Hd Ht].
    { unfold requeue_due. destruct (stage r) eqn:Hst; rewrite ?Hst; try done. destruct (at_ <=? now); cbn; by rewrite ?Hst. }
    split; intros (r' & [= <-] & ?); eexists; (split; [done|]); by rewrite ?Hd, ?Ht in *. }
  edestruct (settle_each_effect _ (unicast_settle_settles None)) as (m' & b & -> & Heff & Hget'); [|apply Heff1|done| |].
  { intros id r Hget. split; [|done]. by apply (proj1 (ef_inv _ _ _ _ _ Heff1) id r Hget). }
  { intros id Hin. apply Hsel in Hin as (r & Hget & [_ Hl]%lapsed_iff). eauto. }
  exists m', b. split_and!; [done|by apply (effect_trans _ _ _ _ _ _ [] b Heff1)|].
  intros id. rewrite Hget'. change (FlatMap.get m1 id) with (FlatMap.get (FlatMap.iter_mut (requeue_due now) m) id).
  rewrite FlatMap.get_iter_mut.
  destruct (decide (id ∈ _)) as [Hin|Hin]; rewrite Hlapsed in Hin.
  - destruct Hin as (r & -> & Hd & Ht). by rewrite bool_decide_true, Ht by done.
  - destruct (FlatMap.get m id) as [r|] eqn:Hget; [|done].
    case_bool_decide as Hd; [|done]. destruct (is_transmitting_stage (stage r)) eqn:Ht; [done|]. exfalso. eauto.
Qed.

(** After a tick nothing is due. *)
Lemma unicast_tick_quiet m L now m' a :
  table_inv m L -> tick (E:=E) m now = Ok (m', a) -> quiet now m'.
Proof.
  intros Hinv Htick id r t Hget Hw. destruct (unicast_tick_effect m L now Hinv) as (m2 & a2 & Htick2 & _ & Hget2).
  rewrite Htick in Htick2. injection Htick2 as <- <-. rewrite Hget2 in Hget.
  destruct (FlatMap.get m id) as [r0|]; [|done]. case_bool_decide as Hd.
  - destruct (stage r0) eqn:Hst; cbn in Hget; try done. injection Hget as <-.
    unfold requeue_due in Hw. rewrite Hst in Hw. cbn in Hw. unfold record_next_wake in Hw. by rewrite Hst in Hw.
  - cbn in Hget. injection Hget as <-. cbn in Hw. unfold requeue_due, record_next_wake in Hw.
    destruct (stage r0) eqn:Hst; rewrite ?Hst in Hw; try (injection Hw as <-; lia); [done|].
    destruct (Z.leb_spec at_ now); cbn in Hw; rewrite ?Hst in Hw; injection Hw as <-; lia.
Qed.

(** A tick before anything is due changes nothing and reports nothing. *)
Lemma unicast_tick_idle m L now : table_inv m L -> quiet now m -> tick (E:=E) m now = Ok (m, []).
Proof.
  intros Hinv Hq. unfold tick, settle_all.
  assert (forall id r, FlatMap.get m id = Some r -> requeue_due now id r = r /\ lapsed now (id, r) = None) as Hno.
  { intros id r Hget. specialize (Hq id r). cbn in Hq. unfold record_next_wake in Hq.
    unfold requeue_due, lapsed, deadline_failure. cbn. destruct (stage r) eqn:Hst.
    all: try (specialize (Hq _ Hget eq_refl)).
    all: destruct (Z.leb_spec (deadline r) now); try lia; try done.
    all: destruct (Z.leb_spec at_ now); [lia|done]. }
  assert (FlatMap.iter_mut (requeue_due now) m = m) as ->.
  { apply FlatMap.flat_map_eq. intros id. rewrite FlatMap.get_iter_mut.
    destruct (FlatMap.get m id) as [r|] eqn:Hget; [|done]. cbn. by rewrite (proj1 (Hno id r Hget)). }
  replace (omap (lapsed now) (FlatMap.entries m)) with (@nil (SendId * SendFailure)); [done|].
  symmetry. apply omap_none. intros [id r] Hin%FlatMap.elem_of_entries. by apply Hno.
Qed.

Lemma unicast_abandon_spec m : abandon m = (table_waiters m, FlatMap.new).
Proof. exact (pop_all_spec (S (FlatMap.len m)) m [] ltac:(lia)). Qed.
End Facts.
End UnicastFacts.
