(* ===== verification/Unrouted.v ===== *)
(** * Unicasts with no route yet: [src/crates/ziggurat-zigbee/src/sends/unrouted.rs]

    A send is held until its destination's route discovery ends; the table counts the restarts
    each discovery has left.  The first half is the model, the second half its facts: every held
    send's destination is awaited ([bucketed]), and the effect of each operation. *)

From S2P Require Import Prelude Flat Types Constants SendTypes SendTable.

Module Unrouted.

Record UnroutedUnicast (F W : Type) := mkUnroutedUnicast {
  uu_frame : F;
  uu_priority : TxPriority;
  uu_waiter : W;
  uu_confirm : Confirm;
  uu_destination : Nwk
}.
Arguments mkUnroutedUnicast {F W}.
Arguments uu_frame {F W}.
Arguments uu_priority {F W}.
Arguments uu_waiter {F W}.
Arguments uu_confirm {F W}.
Arguments uu_destination {F W}.

(** [Record]. *)
Record Rec (F W : Type) := mkRec {
  frame : F;
  priority : TxPriority;
  waiter : W;
  confirm : Confirm;
  destination : Nwk;
  deadline : Instant
}.
Arguments mkRec {F W}.
Arguments frame {F W}.
Arguments priority {F W}.
Arguments waiter {F W}.
Arguments confirm {F W}.
Arguments destination {F W}.
Arguments deadline {F W}.

(** [UnroutedUnicasts]. *)
Record t (F W : Type) := mk {
  records : FlatMap.t Z (Rec F W);
  retries : FlatMap.t Z Z
}.
Arguments mk {F W}.
Arguments records {F W}.
Arguments retries {F W}.

Section Model.
Context {F W E : Type} `{FromSendFailure E}.
Implicit Types (s : t F W) (m : FlatMap.t Z (Rec F W)) (r : Rec F W) (id : SendId) (now : Instant) (dest : Nwk).

Definition new : t F W := mk FlatMap.new FlatMap.new.

Definition contains s id : bool := FlatMap.contains_key (records s) id.
Definition has_unrouted s dest : bool := FlatMap.contains_key (retries s) dest.

Definition enqueue s id (send : UnroutedUnicast F W) now (tunables : Tunables) : t F W :=
  let dest := uu_destination send in
  let records' := (FlatMap.insert (records s) id
    {| frame := uu_frame send;
       priority := uu_priority send;
       waiter := uu_waiter send;
       confirm := uu_confirm send;
       destination := dest;
       deadline := Instant.add now (tunables handoff_timeout) |}).2 in
  let retries' :=
    if negb (FlatMap.contains_key (retries s) dest)
    then (FlatMap.insert (retries s) dest (saturating_sub (tunables pending_route_discovery_attempts) 1)).2
    else retries s in
  mk records' retries'.

Definition destinations s : list Nwk := FlatMap.keys (retries s).

(** [ids.into_iter().map(|id| (id, self.records.remove(&id).unwrap())).collect()]. *)
Fixpoint remove_each m (ids : list SendId) : may (list (SendId * Rec F W) * FlatMap.t Z (Rec F W)) :=
  match ids with
  | [] => Ok ([], m)
  | id :: ids =>
      let '(removed, m) := FlatMap.remove m id in
      r ← unwrap removed;
      '(taken, m) ← remove_each m ids;
      Ok ((id, r) :: taken, m)
  end.

Definition bound_for dest (e : Z * Rec F W) : option SendId :=
  if destination e.2 =? dest then Some e.1 else None.

Definition take s dest : may (list (SendId * Rec F W) * t F W) :=
  '(taken, m) ← remove_each (records s) (omap (bound_for dest) (FlatMap.entries (records s)));
  Ok (taken, mk m (retries s)).

Definition route s dest : may (list (SendId * Rec F W) * t F W) :=
  take (mk (records s) (FlatMap.remove (retries s) dest).2) dest.

Definition settled r (failure : SendFailure) : Action F W E :=
  Settled (waiter r) (inr (from_send_failure failure)) (frame r) None.

Definition retry_discovery s dest : may (bool * t F W) :=
  let waiting := existsb (fun r => destination r =? dest) (FlatMap.values (records s)) in
  n ← unwrap (FlatMap.get (retries s) dest);
  if (n =? 0) || negb waiting then Ok (false, s)
  else Ok (true, mk (records s) (FlatMap.modify (retries s) dest (fun n => n - 1))).

Definition fail s dest : may (t F W * Actions F W E) :=
  '(taken, s) ← take (mk (records s) (FlatMap.remove (retries s) dest).2) dest;
  Ok (s, map (fun e => settled e.2 RouteDiscoveryTimeout) taken).

Definition abandon s : list W * t F W :=
  let '(ws, m) := pop_all waiter (S (FlatMap.len (records s))) (records s) [] in
  (ws, mk m FlatMap.new).

Definition cancel s id : may (Actions F W E * t F W) :=
  let '(removed, m) := FlatMap.remove (records s) id in
  r ← unwrap removed;
  Ok ([settled r Cancelled], mk m (retries s)).

Definition lapsed now (e : Z * Rec F W) : option SendId :=
  if deadline e.2 <=? now then Some e.1 else None.

Definition tick s now : may (t F W * Actions F W E) :=
  '(taken, m) ← remove_each (records s) (omap (lapsed now) (FlatMap.entries (records s)));
  Ok (mk m (retries s), map (fun e => settled e.2 HandoffTimeout) taken).

Definition next_wake s : option Instant := min_instant (deadline <$> FlatMap.values (records s)).
End Model.

#[global] Instance unrouted_record F W : SendRecord F W (Rec F W) := {
  rec_waiter := waiter;
  rec_frame r := Some (frame r);
  rec_radio _ := false;
  rec_deadline := deadline;
  rec_wake r := Some (deadline r);
  rec_inv _ := True
}.

Section Facts.
Context {F W E : Type} `{FromSendFailure E}.
Implicit Types (s : t F W) (m : FlatMap.t Z (Rec F W)) (r : Rec F W) (id : SendId) (now : Instant) (dest : Nwk).

(** Every held send waits on a destination the table counts restarts for. *)
Definition bucketed s : Prop :=
  FlatMap.all_values (fun _ r => is_Some (FlatMap.get (retries s) (destination r))) (records s).

Definition inv s : Prop := table_inv (records s) ∅ /\ bucketed s.

Lemma unrouted_inv_new : inv new.
Proof.
  split; [split|]; try done. intros id. split; [set_solver|]. by intros (? & ? & ?).
Qed.

(** The waiters of the sends handed over, and the table without them. *)
Lemma remove_each_spec m (ids : list SendId) :
  NoDup ids -> (forall id, id ∈ ids -> is_Some (FlatMap.get m id)) ->
  exists taken m', remove_each m ids = Ok (taken, m') /\ taken.*1 = ids /\
    (forall id r, (id, r) ∈ taken -> FlatMap.get m id = Some r) /\
    table_waiters m ≡ₚ (waiter ∘ snd <$> taken) ++ table_waiters m' /\
    (forall id, FlatMap.get m' id = if decide (id ∈ ids) then None else FlatMap.get m id).
Proof.
  revert m. induction ids as [|id ids IH]; intros m Hnd Hall; cbn [remove_each].
  { exists [], m. split_and!; try done. set_solver. }
  apply NoDup_cons in Hnd as [Hnin Hnd]. destruct (Hall id) as [r Hget]; [set_solver|].
  rewrite (FlatMap.remove_pair m id), Hget. cbn [unwrap mbind res_bind].
  destruct (IH (FlatMap.remove m id).2 Hnd) as (taken & m' & -> & Hids & Htaken & Hperm & Hget').
  { intros id' Hin. rewrite FlatMap.get_remove_ne by (intros <-; done). apply Hall. set_solver. }
  exists ((id, r) :: taken), m'. cbn [mbind res_bind]. split_and!.
  - done.
  - rewrite fmap_cons. by rewrite Hids.
  - intros id' r' [[= -> ->]|Hin]%elem_of_cons; [done|]. specialize (Htaken _ _ Hin).
    destruct (decide (id = id')) as [<-|Hne]; [by rewrite FlatMap.get_remove_eq in Htaken|].
    by rewrite FlatMap.get_remove_ne in Htaken.
  - rewrite fmap_cons. unfold table_waiters in *. rewrite (FlatMap.values_remove_perm m id r Hget). cbn. by rewrite Hperm.
  - intros id'. rewrite Hget'. destruct (decide (id = id')) as [<-|Hne].
    + rewrite FlatMap.get_remove_eq. rewrite decide_False by done. by rewrite decide_True by set_solver.
    + rewrite FlatMap.get_remove_ne by done. destruct (decide (id' ∈ ids)).
      * by rewrite decide_True by set_solver.
      * by rewrite decide_False by set_solver.
Qed.

(** The ids an [omap] selects are distinct and live. *)
Lemma omap_ids (p : Z * Rec F W -> option SendId) m :
  (forall e id, p e = Some id -> id = e.1) ->
  NoDup (omap p (FlatMap.entries m)) /\
  forall id, id ∈ omap p (FlatMap.entries m) <-> exists r, FlatMap.get m id = Some r /\ is_Some (p (id, r)).
Proof.
  intros Hp. destruct (selected_ids (fun e => (fun id => (id, tt)) <$> p e) m) as [Hnd Hsel].
  { intros e y (id & Hid & ->)%fmap_Some. by apply Hp. }
  assert ((omap (fun e => (fun id => (id, tt)) <$> p e) (FlatMap.entries m)).*1 = omap p (FlatMap.entries m)) as Heq.
  { clear. induction (FlatMap.entries m) as [|e l IHl]; [done|].
    cbn [omap list_omap]. destruct (p e) as [id|]; cbn [fmap option_fmap option_map]; [by rewrite fmap_cons, IHl|exact IHl]. }
  rewrite Heq in *. split; [done|]. intros id. rewrite Hsel. by setoid_rewrite fmap_is_Some.
Qed.

Lemma bound_for_id dest (e : Z * Rec F W) id : bound_for dest e = Some id -> id = e.1.
Proof. unfold bound_for. destruct (_ =? _); naive_solver. Qed.

Lemma unrouted_lapsed_id now (e : Z * Rec F W) id : lapsed now e = Some id -> id = e.1.
Proof. unfold lapsed. destruct (_ <=? _); naive_solver. Qed.

(** No loan exists here, so the invariant only needs the records to be a part of the old ones. *)
Lemma table_inv_part m m' :
  table_inv m ∅ -> (forall id r, FlatMap.get m' id = Some r -> FlatMap.get m id = Some r) -> table_inv m' ∅.
Proof.
  intros [Hwf _] Hsub. split; [intros id r Hget; by apply (Hwf id), Hsub|].
  intros id. split; [set_solver|]. by intros (? & ? & ?).
Qed.

Lemma unrouted_enqueue_inv s id (send : UnroutedUnicast F W) now tunables :
  inv s -> FlatMap.get (records s) id = None ->
  let s' := enqueue s id send now tunables in
  inv s' /\ table_waiters (records s') ≡ₚ uu_waiter send :: table_waiters (records s) /\
  (forall id', is_Some (FlatMap.get (records s') id') <-> id' = id \/ is_Some (FlatMap.get (records s) id')).
Proof.
  intros [Hinv Hb] Hget. unfold enqueue. cbn [records].
  match goal with |- context [FlatMap.insert (records s) id ?x] =>
    destruct (table_inv_insert (records s) ∅ id x Hinv Hget) as (Hinv' & Hperm & Hkeys); [done..|] end.
  split_and!; [|exact Hperm|exact Hkeys]. split; [exact Hinv'|]. unfold bucketed. cbn [records retries].
  assert (forall dest, is_Some (FlatMap.get (retries s) dest) \/ dest = uu_destination send ->
    is_Some (FlatMap.get (if negb (FlatMap.contains_key (retries s) (uu_destination send))
       then (FlatMap.insert (retries s) (uu_destination send)
               (saturating_sub (tunables pending_route_discovery_attempts) 1)).2 else retries s) dest)) as Hr.
  { intros dest Hd. destruct (FlatMap.contains_key (retries s) (uu_destination send)) eqn:Hc; cbn [negb].
    - apply FlatMap.contains_key_get in Hc. by destruct Hd as [?| ->].
    - destruct (decide (uu_destination send = dest)) as [<-|Hne]; [by rewrite FlatMap.get_insert_eq|].
      rewrite FlatMap.get_insert_ne by done. by destruct Hd as [?| ->]. }
  apply FlatMap.all_values_insert; [apply Hr; by right|]. intros id' r' Hget'. apply Hr. left. by apply (Hb id').
Qed.

Lemma take_spec (s : t F W) dest rt :
  inv s -> (forall d, d <> dest -> FlatMap.get rt d = FlatMap.get (retries s) d) ->
  exists taken m', take (mk (records s) rt) dest = Ok (taken, mk m' rt) /\ inv (mk m' rt) /\
    NoDup taken.*1 /\
    (forall id r, (id, r) ∈ taken -> FlatMap.get (records s) id = Some r /\ destination r = dest) /\
    table_waiters (records s) ≡ₚ (waiter ∘ snd <$> taken) ++ table_waiters m' /\
    (forall id, FlatMap.get m' id = if decide (id ∈ taken.*1) then None else FlatMap.get (records s) id) /\
    (forall id r, FlatMap.get m' id = Some r -> destination r <> dest).
Proof.
  intros [Hinv Hb] Hrt. unfold take. cbn [records retries].
  destruct (omap_ids (bound_for dest) (records s) (bound_for_id dest)) as [Hnd Hsel].
  destruct (remove_each_spec (records s) _ Hnd) as (taken & m' & -> & Hids & Htaken & Hperm & Hget').
  { intros id (r & Hget & _)%Hsel. by rewrite Hget. }
  assert (forall id r, FlatMap.get m' id = Some r -> FlatMap.get (records s) id = Some r /\ destination r <> dest) as Hleft.
  { intros id r. rewrite Hget'. destruct (decide _) as [|Hnin]; [done|]. intros Hget. split; [done|].
    intros Hd. apply Hnin, Hsel. exists r. unfold bound_for. cbn. by rewrite Hd, Z.eqb_refl. }
  exists taken, m'. cbn [mbind res_bind]. rewrite Hids. split_and!; try done.
  - split; [eapply table_inv_part; [done|naive_solver]|]. intros id r Hget. cbn in *.
    destruct (Hleft id r Hget) as [Hget0 Hne]. rewrite Hrt by done. by apply (Hb id).
  - intros id r Hin. split; [by apply Htaken|].
    assert (id ∈ taken.*1) as Hid by (apply list_elem_of_fmap; by exists (id, r)).
    rewrite Hids in Hid. apply Hsel in Hid as (r' & Hget & Hb'). rewrite (Htaken _ _ Hin) in Hget. simplify_eq.
    revert Hb'. unfold bound_for. cbn. destruct (Z.eqb_spec (destination r') dest); [done|]. by intros [].
  - intros id r Hget. by apply (Hleft id).
Qed.

Lemma settled_all (taken : list (SendId * Rec F W)) failure :
  settled_waiters (map (fun e => settled (E:=E) e.2 failure) taken) = waiter ∘ snd <$> taken.
Proof. induction taken as [|e l IH]; [done|]. cbn. by f_equal. Qed.

(** [fail] settles exactly the sends to [dest], which is then no longer awaited. *)
Lemma fail_effect s dest :
  inv s -> exists s' a, fail s dest = Ok (s', a) /\ inv s' /\ effect (E:=E) (records s) ∅ (records s') ∅ a.
Proof.
  intros Hinv. unfold fail.
  destruct (take_spec s dest (FlatMap.remove (retries s) dest).2 Hinv) as (taken & m' & -> & Hinv' & _ & _ & Hperm & Hget' & _).
  { intros d Hd. by rewrite FlatMap.get_remove_ne. }
  cbn [mbind res_bind]. do 2 eexists. split_and!; [done|done|]. split; [apply Hinv'| |].
  - by rewrite settled_all.
  - intros id. cbn. rewrite Hget'. destruct (decide _); [by intros []|done].
Qed.

Lemma unrouted_tick_effect s now :
  inv s -> exists s' a, tick s now = Ok (s', a) /\ inv s' /\ effect (E:=E) (records s) ∅ (records s') ∅ a /\
    retries s' = retries s /\
    forall id, FlatMap.get (records s') id =
      match FlatMap.get (records s) id with
      | Some r => if bool_decide (deadline r <= now) then None else Some r
      | None => None
      end.
Proof.
  intros [Hinv Hb]. unfold tick. destruct (omap_ids (lapsed now) (records s) (unrouted_lapsed_id now)) as [Hnd Hsel].
  destruct (remove_each_spec (records s) _ Hnd) as (taken & m' & -> & Hids & Htaken & Hperm & Hget').
  { intros id (r & Hget & _)%Hsel. by rewrite Hget. }
  cbn [mbind res_bind]. do 2 eexists. split; [done|]. cbn [records retries].
  assert (forall id r, FlatMap.get m' id = Some r -> FlatMap.get (records s) id = Some r) as Hsub.
  { intros id r. rewrite Hget'. by destruct (decide _). }
  assert (table_inv m' ∅) as Hinv' by by eapply table_inv_part.
  split_and!; [split; [done|]| |done|].
  - intros id r Hget. apply (Hb id), Hsub, Hget.
  - split; [done|by rewrite settled_all|]. intros id [r Hr]. rewrite (Hsub _ _ Hr). done.
  - intros id. rewrite Hget'. destruct (decide _) as [Hin|Hin]; rewrite Hsel in Hin.
    + destruct Hin as (r & -> & Hl). revert Hl. unfold lapsed. cbn. destruct (Z.leb_spec (deadline r) now).
      * by rewrite bool_decide_true.
      * by intros [].
    + destruct (FlatMap.get (records s) id) as [r|] eqn:Hget; [|done]. case_bool_decide as Hd; [|done].
      exfalso. apply Hin. exists r. unfold lapsed. cbn. by rewrite (proj2 (Z.leb_le _ _) Hd).
Qed.

Lemma unrouted_cancel_effect s id :
  inv s -> is_Some (FlatMap.get (records s) id) ->
  exists a s', cancel s id = Ok (a, s') /\ inv s' /\ effect (E:=E) (records s) ∅ (records s') ∅ a.
Proof.
  intros [Hinv Hb] [r Hget]. unfold cancel. rewrite (FlatMap.remove_pair _ id), Hget. cbn [unwrap mbind res_bind].
  assert (effect (E:=E) (records s) ∅ (FlatMap.remove (records s) id).2 ∅ [settled r Cancelled]) as Heff.
  { by eapply effect_remove_idle. }
  do 2 eexists. split_and!; [done| |exact Heff]. split; [apply Heff|]. by apply FlatMap.all_values_remove.
Qed.

Lemma retry_discovery_spec s dest :
  inv s -> has_unrouted s dest = true ->
  exists b s', retry_discovery s dest = Ok (b, s') /\ inv s' /\ records s' = records s /\
    (b = true <-> (exists id r, FlatMap.get (records s) id = Some r /\ destination r = dest) /\
                  FlatMap.get (retries s) dest <> Some 0) /\
    FlatMap.get (retries s') dest = (if b then Z.pred else id) <$> FlatMap.get (retries s) dest.
Proof.
  intros [Hinv Hb] [n Hn]%FlatMap.contains_key_get. unfold retry_discovery. rewrite Hn. cbn [unwrap mbind res_bind].
  assert (existsb (fun r => destination r =? dest) (FlatMap.values (records s)) = true <->
          exists id r, FlatMap.get (records s) id = Some r /\ destination r = dest) as Hw.
  { rewrite existsb_exists. split.
    - intros (r & Hin%list_elem_of_In & Hd%Z.eqb_eq). apply FlatMap.elem_of_values in Hin as [id Hget]. eauto.
    - intros (id & r & Hget & Hd). exists r. rewrite Z.eqb_eq. split; [|done].
      apply list_elem_of_In, FlatMap.elem_of_values. eauto. }
  destruct (existsb _ _); cbn [negb]; [|rewrite orb_true_r]; [rewrite orb_false_r; destruct (Z.eqb_spec n 0) as [->|Hn0]|].
  - exists false, s. split_and!; try done. naive_solver.
  - do 2 eexists. split; [done|]. cbn [records retries]. split_and!; [| done | |].
    + split; [done|]. intros id r Hget. cbn in *. rewrite FlatMap.is_Some_modify. by apply (Hb id).
    + split; [|done]. intros _. split; [by apply Hw|]. congruence.
    + by rewrite FlatMap.get_modify_eq, Hn.
  - exists false, s. split_and!; rewrite ?Hn; try done. split; [done|]. intros [Hex _]. by apply Hw in Hex.
Qed.

Lemma next_wake_table s : next_wake s = table_next_wake (records s).
Proof. reflexivity. Qed.

Lemma unrouted_tick_quiet s now s' a : inv s -> tick (E:=E) s now = Ok (s', a) -> quiet now (records s').
Proof.
  intros Hinv Ht id r t Hget [= <-]. destruct (unrouted_tick_effect s now Hinv) as (s2 & a2 & Ht2 & _ & _ & _ & Hget2).
  rewrite Ht in Ht2. injection Ht2 as <- <-. rewrite Hget2 in Hget. destruct (FlatMap.get (records s) id) as [r0|]; [|done].
  case_bool_decide; [done|]. injection Hget as <-. lia.
Qed.

Lemma unrouted_tick_idle s now : quiet now (records s) -> tick (E:=E) s now = Ok (s, []).
Proof.
  intros Hq. unfold tick. rewrite omap_none; [by destruct s|].
  intros [id r] Hin%FlatMap.elem_of_entries. specialize (Hq id r _ Hin eq_refl). unfold lapsed. cbn.
  destruct (Z.leb_spec (deadline r) now); [lia|done].
Qed.


Lemma unrouted_abandon_spec s : abandon s = (table_waiters (records s), new).
Proof.
  pose proof (pop_all_spec (S (FlatMap.len (records s))) (records s) [] ltac:(lia)) as Hpop.
  unfold abandon. cbn [rec_waiter unrouted_record] in Hpop. by rewrite Hpop.
Qed.
End Facts.
End Unrouted.
