(* ===== verification/BroadcastSends.v ===== *)
(** * Broadcasts: [src/crates/ziggurat-zigbee/src/sends/broadcasts.rs]

    A frame sent once, or rebroadcast on a schedule.  The first half is the model, the second
    half its facts.  The invariant of a record ([rec_inv]) is what makes the two unwraps of the
    timer pass safe: a single-copy broadcast never idles, and an idle record that was never handed
    off has a copy left or remembers its last error. *)

From S2P Require Import Prelude Flat Types Constants SendTypes SendTable.

Module BroadcastSends.

Inductive Schedule : Type :=
| Once
| PassiveAck (key : Nwk * Z) (copies_remaining : Z) (next_attempt : Instant)
| FixedInterval (interval : Duration) (copies_remaining : Z) (next_attempt : Instant).

(** [Broadcast]: what a broadcast is enqueued with. *)
Record Broadcast (F W : Type) := mkBroadcast {
  b_frame : F;
  b_priority : TxPriority;
  b_waiter : W;
  b_schedule : Schedule
}.
Arguments mkBroadcast {F W}.
Arguments b_frame {F W}.
Arguments b_priority {F W}.
Arguments b_waiter {F W}.
Arguments b_schedule {F W}.

Inductive Due : Type := Copy | Over.

Inductive CopyState : Type := Idle | Queued | Transmitting.

#[export] Instance CopyState_eq_dec : EqDecision CopyState.
Proof. solve_decision. Defined.

(** [Record]. *)
Record Rec (F W E : Type) := mkRec {
  frame : option F;
  priority : TxPriority;
  waiter : W;
  schedule : Schedule;
  copy : CopyState;
  handed_off : bool;
  quorum_heard : bool;
  last_error : option E;
  deadline : Instant
}.
Arguments mkRec {F W E}.
Arguments frame {F W E}.
Arguments priority {F W E}.
Arguments waiter {F W E}.
Arguments schedule {F W E}.
Arguments copy {F W E}.
Arguments handed_off {F W E}.
Arguments quorum_heard {F W E}.
Arguments last_error {F W E}.
Arguments deadline {F W E}.

Section Model.
Context {F W E : Type} `{FromSendFailure E}.
Implicit Types (m : FlatMap.t Z (Rec F W E)) (r : Rec F W E) (id : SendId) (now : Instant).

(** Field updates of a record. *)
Definition set_copy r (c : CopyState) : Rec F W E :=
  mkRec (frame r) (priority r) (waiter r) (schedule r) c (handed_off r) (quorum_heard r) (last_error r) (deadline r).
Definition set_frame r (f : option F) : Rec F W E :=
  mkRec f (priority r) (waiter r) (schedule r) (copy r) (handed_off r) (quorum_heard r) (last_error r) (deadline r).
Definition set_schedule r (s : Schedule) : Rec F W E :=
  mkRec (frame r) (priority r) (waiter r) s (copy r) (handed_off r) (quorum_heard r) (last_error r) (deadline r).
Definition set_handed_off r (b : bool) : Rec F W E :=
  mkRec (frame r) (priority r) (waiter r) (schedule r) (copy r) b (quorum_heard r) (last_error r) (deadline r).
Definition set_quorum_heard r (b : bool) : Rec F W E :=
  mkRec (frame r) (priority r) (waiter r) (schedule r) (copy r) (handed_off r) b (last_error r) (deadline r).
Definition set_last_error r (e : option E) : Rec F W E :=
  mkRec (frame r) (priority r) (waiter r) (schedule r) (copy r) (handed_off r) (quorum_heard r) e (deadline r).

Definition next_attempt r : option Instant :=
  match schedule r with
  | Once => None
  | PassiveAck _ _ next | FixedInterval _ _ next => Some next
  end.

Definition record_next_wake r : option Instant :=
  match copy r with
  | Transmitting => None
  | Queued => Some (deadline r)
  | Idle => Some (Z.min (default (deadline r) (next_attempt r)) (deadline r))
  end.

Definition enqueue m id (broadcast : Broadcast F W) now (tunables : Tunables) : FlatMap.t Z (Rec F W E) :=
  (FlatMap.insert m id
    {| frame := Some (b_frame broadcast);
       priority := b_priority broadcast;
       waiter := b_waiter broadcast;
       schedule := b_schedule broadcast;
       copy := match b_schedule broadcast with
               | Once => Queued
               | PassiveAck _ _ _ | FixedInterval _ _ _ => Idle
               end;
       handed_off := false;
       quorum_heard := false;
       last_error := None;
       deadline := Instant.add now (tunables handoff_timeout) |}).2.

Definition queued_at now (e : Z * Rec F W E) : option (SendId * TxPriority) :=
  if bool_decide (copy e.2 = Queued) && (now <? deadline e.2) then Some (e.1, priority e.2) else None.

Definition best_queued m now : option (SendId * TxPriority) :=
  max_by sched_le (omap (queued_at now) (FlatMap.entries m)).

Definition dequeue m id : may (InFlight F * FlatMap.t Z (Rec F W E)) :=
  r ← unwrap (FlatMap.get m id);
  _ ← rust_assert (bool_decide (copy r = Queued));
  f ← unwrap (frame r);
  Ok (mkInFlight id f TxBroadcast, FlatMap.modify m id (fun r => set_frame (set_copy r Transmitting) None)).

(** [settle]: remove a record and report its verdict. *)
Definition settle m id (result : verdict E) (actions : Actions F W E)
    : may (FlatMap.t Z (Rec F W E) * Actions F W E) :=
  let '(removed, m') := FlatMap.remove m id in
  r ← unwrap removed;
  let actions := if handed_off r then actions ++ [HandedOff (waiter r)] else actions in
  f ← unwrap (frame r);
  Ok (m', actions ++ [Settled (waiter r) result f None]).

(** The schedule after a report: the next copy is measured from now. *)
Definition rearm (s : Schedule) now (passive_ack_interval : Duration) : Schedule :=
  match s with
  | Once => Once
  | PassiveAck key copies _ => PassiveAck key copies (Instant.add now passive_ack_interval)
  | FixedInterval interval copies _ => FixedInterval interval copies (Instant.add now interval)
  end.

Definition transmitted m id (f : F) (result : verdict E) now (passive_ack_interval : Duration)
    : may (FlatMap.t Z (Rec F W E) * Actions F W E) :=
  r0 ← unwrap (FlatMap.get m id);
  _ ← rust_assert (bool_decide (copy r0 = Transmitting));
  let r1 := set_frame (set_copy r0 Idle) (Some f) in
  match schedule r1 with
  | Once => settle (FlatMap.modify m id (fun _ => r1)) id result []
  | PassiveAck _ _ _ | FixedInterval _ _ _ =>
      let r2 := set_schedule r1 (rearm (schedule r1) now passive_ack_interval) in
      let first_handoff := match result with inl _ => negb (handed_off r2) | inr _ => false end in
      let r3 := match result with
                | inl _ => set_handed_off r2 true
                | inr err => set_last_error r2 (Some err)
                end in
      let m3 := FlatMap.modify m id (fun _ => r3) in
      if quorum_heard r3 && handed_off r3 then settle m3 id (inl tt) []
      else if first_handoff then Ok (m3, [HandedOff (waiter r3)])
      else Ok (m3, [])
  end.

Definition awaiting_quorum m : list (Nwk * Z) :=
  omap (fun r => match schedule r with
                 | PassiveAck key _ _ => if negb (quorum_heard r) then Some key else None
                 | _ => None
                 end) (FlatMap.values m).

(** The closure of [delivered]'s [find_map]. *)
Definition has_key (key : Nwk * Z) (e : Z * Rec F W E) : bool :=
  match schedule e.2 with
  | PassiveAck k _ _ => bool_decide (k = key)
  | _ => false
  end.

Definition delivered m (key : Nwk * Z) : may (FlatMap.t Z (Rec F W E) * Actions F W E) :=
  match find (has_key key) (FlatMap.entries m) with
  | None => Ok (m, [])
  | Some e =>
      r ← unwrap (FlatMap.get m e.1);
      if bool_decide (copy r = Transmitting) || negb (handed_off r)
      then Ok (FlatMap.modify m e.1 (fun r => set_quorum_heard r true), [])
      else settle m e.1 (inl tt) []
  end.

Definition abandon m : list W * FlatMap.t Z (Rec F W E) := pop_all waiter (S (FlatMap.len m)) m [].

Definition cancel m id : may (option (Actions F W E) * FlatMap.t Z (Rec F W E)) :=
  match FlatMap.get m id with
  | None => Ok (None, m)
  | Some r =>
      if bool_decide (copy r = Transmitting) then Ok (None, m)
      else
        '(m, actions) ← settle m id (inr (from_send_failure Cancelled)) [];
        Ok (Some actions, m)
  end.

(** The verdict of a handed-off broadcast whose schedule ended before a quorum. *)
Definition handed_off_verdict (s : Schedule) : may (verdict E) :=
  match s with
  | PassiveAck _ _ _ => Ok (inr (from_send_failure BroadcastQuorumNotReached))
  | FixedInterval _ _ _ => Ok (inl tt)
  | Once => Panic
  end.

(** What is due, and the schedule with the copy it consumed. *)
Definition schedule_due (s : Schedule) now : option Due * Schedule :=
  match s with
  | Once => (None, s)
  | PassiveAck key copies next =>
      if now <? next then (None, s)
      else if copies =? 0 then (Some Over, s)
      else (Some Copy, PassiveAck key (copies - 1) next)
  | FixedInterval interval copies next =>
      if now <? next then (None, s)
      else if copies =? 0 then (Some Over, s)
      else (Some Copy, FixedInterval interval (copies - 1) next)
  end.

(** The body of [tick]'s first loop: the record it leaves and the verdict it pushes. *)
Definition tick_record now r : Rec F W E * may (option (verdict E)) :=
  if bool_decide (copy r = Transmitting) then (r, Ok None)
  else
    let '(due, r) :=
      if bool_decide (copy r = Idle)
      then let '(due, s) := schedule_due (schedule r) now in (due, set_schedule r s)
      else (None, r) in
    match due with
    | Some Over =>
        if handed_off r then (r, v ← handed_off_verdict (schedule r); Ok (Some v))
        else (set_last_error r None, e ← unwrap (last_error r); Ok (Some (inr e)))
    | Some Copy | None =>
        let r := match due with Some _ => set_copy r Queued | None => r end in
        if deadline r <=? now then
          (r, v ← (if handed_off r then handed_off_verdict (schedule r)
                   else Ok (inr (from_send_failure HandoffTimeout)));
              Ok (Some v))
        else (r, Ok None)
    end.

Fixpoint tick_verdicts now (l : list (Z * Rec F W E)) : may (list (SendId * verdict E)) :=
  match l with
  | [] => Ok []
  | e :: l =>
      o ← (tick_record now e.2).2;
      vs ← tick_verdicts now l;
      Ok (match o with Some v => (e.1, v) :: vs | None => vs end)
  end.

Definition tick m now : may (FlatMap.t Z (Rec F W E) * Actions F W E) :=
  vs ← tick_verdicts now (FlatMap.entries m);
  settle_each (fun m id v => settle m id v) (FlatMap.iter_mut (fun _ r => (tick_record now r).1) m) vs [].

Definition next_wake m : option Instant := min_instant (omap record_next_wake (FlatMap.values m)).
End Model.

(** ** The invariant *)

(** Copies the schedule may still send ([Once] has its one copy queued at admission). *)
Definition copies_left (s : Schedule) : Prop :=
  match s with
  | Once => False
  | PassiveAck _ copies _ | FixedInterval _ copies _ => copies <> 0
  end.

(** What the driver must enqueue: a schedule with at least one copy. *)
Definition schedulable (s : Schedule) : Prop := s = Once \/ copies_left s.

Definition record_inv {F W E} (r : Rec F W E) : Prop :=
  (schedule r = Once -> copy r <> Idle /\ handed_off r = false) /\
  (copy r = Idle -> handed_off r = true \/ is_Some (last_error r) \/ copies_left (schedule r)).

#[global] Instance broadcast_record F W E : SendRecord F W (Rec F W E) := {
  rec_waiter := waiter;
  rec_frame := frame;
  rec_radio r := bool_decide (copy r = Transmitting);
  rec_deadline := deadline;
  rec_wake := record_next_wake;
  rec_inv := record_inv
}.
End BroadcastSends.
