(* ===== verification/BroadcastFacts.v ===== *)
(** * Facts about the broadcast table

    The table as an instance of [SendRecord]: no operation panics under the record invariant, and
    the effect of each on the live sends and the loans. *)

From S2P Require Import Prelude Flat Types Constants SendTypes SendTable BroadcastSends.

Module BroadcastFacts.
Import BroadcastSends.

Section Facts.
Context {F W E : Type} `{FromSendFailure E}.
Implicit Types (m : FlatMap.t Z (Rec F W E)) (r : Rec F W E) (id : SendId) (now : Instant).
Implicit Types (a : Actions F W E) (L : gset Z).

Lemma broadcast_enqueue_inv m L id (b : Broadcast F W) now tunables :
  table_inv m L -> FlatMap.get m id = None -> schedulable (b_schedule b) ->
  let m' := enqueue m id b now tunables in
  table_inv m' L /\ table_waiters m' ≡ₚ b_waiter b :: table_waiters m /\
  (forall id', is_Some (FlatMap.get m' id') <-> id' = id \/ is_Some (FlatMap.get m id')).
Proof.
  intros Hinv Hget Hs. unfold enqueue.
  match goal with |- context [FlatMap.insert m id ?x] => apply (table_inv_insert m L id x Hinv Hget) end;
    destruct Hs as [Hs|Hs], (b_schedule b) eqn:Hb; try done.
  all: split; [done|]; split; cbn; try done; intros; auto.
Qed.

Lemma broadcast_frame_present m L id r :
  table_inv m L -> FlatMap.get m id = Some r -> copy r <> Transmitting -> exists f, frame r = Some f.
Proof.
  intros [Hwf _] Hget Hc. destruct (frame r) as [f|] eqn:Ef; [eauto|].
  apply (Hwf id r Hget) in Ef. cbn in Ef. by apply bool_decide_eq_true in Ef.
Qed.

Lemma broadcast_settle_spec m id r (result : verdict E) a f :
  FlatMap.get m id = Some r -> frame r = Some f ->
  settle m id result a =
  Ok ((FlatMap.remove m id).2,
      a ++ ((if handed_off r then [HandedOff (waiter r)] else []) ++ [Settled (waiter r) result f None])).
Proof.
  intros Hget Hf. unfold settle. rewrite (FlatMap.remove_pair m id), Hget. cbn [unwrap mbind res_bind].
  rewrite Hf. cbn [unwrap mbind res_bind]. by destruct (handed_off r); rewrite <- ?app_assoc.
Qed.

Lemma broadcast_settle_reports r (result : verdict E) (f : F) :
  settled_waiters ((if handed_off r then [HandedOff (waiter r)] else []) ++ [Settled (waiter r) result f None]) = [waiter r].
Proof. by destruct (handed_off r). Qed.

Lemma broadcast_settle_settles : settles (X:=verdict E) (fun m id v => settle (F:=F) (W:=W) m id v).
Proof.
  intros m id r v a Hget Hok Hst. cbn in Hok, Hst. destruct (frame r) as [f|] eqn:Ef.
  - eexists. split; [by apply broadcast_settle_spec|]. apply broadcast_settle_reports.
  - rewrite (proj1 Hok eq_refl) in Hst. done.
Qed.

Lemma broadcast_settle_effect m L id r (result : verdict E) a :
  table_inv m L -> FlatMap.get m id = Some r -> copy r <> Transmitting ->
  exists b, settle m id result a = Ok ((FlatMap.remove m id).2, a ++ b) /\
    effect m L (FlatMap.remove m id).2 L b.
Proof.
  intros Hinv Hget Hc. destruct (broadcast_frame_present m L id r Hinv Hget Hc) as [f Hf].
  eexists. split; [by apply broadcast_settle_spec|]. eapply effect_remove_idle; [done..| |apply broadcast_settle_reports].
  by apply bool_decide_eq_false.
Qed.

(** [best_queued] picks a queued record in time, and no such record goes before it. *)
Lemma broadcast_best_queued_spec m now :
  match best_queued m now with
  | None => forall id r, FlatMap.get m id = Some r -> copy r = Queued -> deadline r <= now
  | Some (id, p) =>
      (exists r, FlatMap.get m id = Some r /\ copy r = Queued /\ now < deadline r /\ p = priority r) /\
      forall id' r', FlatMap.get m id' = Some r' -> copy r' = Queued -> now < deadline r' ->
        sched_le (id', priority r') (id, p) = true
  end.
Proof.
  assert (forall y, y ∈ omap (queued_at now) (FlatMap.entries m) <->
            exists r, FlatMap.get m y.1 = Some r /\ copy r = Queued /\ now < deadline r /\ y.2 = priority r) as Helem.
  { intros [id p]. rewrite list_elem_of_omap. unfold queued_at. split.
    - intros ([k r] & Hin%FlatMap.elem_of_entries & Hq). cbn in *. exists r.
      case_bool_decide; cbn in Hq; [|done]. destruct (Z.ltb_spec now (deadline r)); by simplify_eq/=.
    - intros (r & Hget & Hst & Hlt & Hp). exists (id, r). cbn in *. rewrite Hst, Hp. cbn.
      split; [by apply FlatMap.elem_of_entries|]. by rewrite (proj2 (Z.ltb_lt _ _) Hlt). }
  unfold best_queued. pose proof (max_by_sched (omap (queued_at now) (FlatMap.entries m))) as Hmax.
  destruct (max_by _ _) as [[id p]|].
  - destruct Hmax as [Hin Hmax]. split; [by apply (Helem (id, p))|].
    intros id' r' Hget Hst Hlt. apply Hmax, Helem. eauto 10.
  - intros id r Hget Hst. destruct (Z.le_gt_cases (deadline r) now); [done|]. exfalso.
    assert ((id, priority r) ∈ omap (queued_at now) (FlatMap.entries m)) as Hin by (apply Helem; eauto).
    rewrite Hmax in Hin. set_solver.
Qed.

Lemma broadcast_dequeue_effect m L id r :
  table_inv m L -> FlatMap.get m id = Some r -> copy r = Queued ->
  exists f m', dequeue m id = Ok (mkInFlight id f TxBroadcast, m') /\
    frame r = Some f /\ (id ∉ L) /\ effect (E:=E) m L m' ({[id]} ∪ L) [].
Proof.
  intros Hinv Hget Hst. destruct (broadcast_frame_present m L id r Hinv Hget) as [f Hf]; [by rewrite Hst|].
  destruct (proj1 Hinv id r Hget) as [_ [Honce _]].
  unfold dequeue. rewrite Hget. cbn. rewrite Hst, Hf. cbn. do 2 eexists. split_and!; [done..| |].
  - apply (not_lent m L id r Hinv Hget). cbn. by rewrite Hst.
  - eapply effect_modify; [done..| | |]; [|cbn; set_solver..]. split; [done|]. cbn. split; cbn; [|done]. naive_solver.
Qed.

(** The report ends the loan, whatever becomes of the send. *)
Lemma broadcast_transmitted_effect m L id (f : F) (result : verdict E) now interval :
  table_inv m L -> id ∈ L ->
  exists m' a, transmitted m id f result now interval = Ok (m', a) /\ effect m L m' (L ∖ {[id]}) a.
Proof.
  intros Hinv (r & Hget & Hr)%(proj2 Hinv). cbn in Hr. apply bool_decide_eq_true in Hr.
  assert (forall r' res, waiter r' = waiter r -> frame r' = Some f ->
    exists m' a, settle (FlatMap.modify m id (fun _ => r')) id res [] = Ok (m', a) /\ effect (E:=E) m L m' (L ∖ {[id]}) a) as Hsettle.
  { intros r' res Hw Hf. do 2 eexists. split.
    - eapply broadcast_settle_spec; [|exact Hf]. by rewrite FlatMap.get_modify_eq, Hget.
    - rewrite FlatMap.remove_modify. eapply effect_remove; [done..|]. cbn [app]. rewrite broadcast_settle_reports. by rewrite Hw. }
  assert (forall r' a, waiter r' = waiter r -> frame r' = Some f -> copy r' = Idle -> schedule r' <> Once ->
    handed_off r' = true \/ is_Some (last_error r') -> settled_waiters a = [] ->
    effect (E:=E) m L (FlatMap.modify m id (fun _ => r')) (L ∖ {[id]}) a) as Hback.
  { intros r' a Hw Hf Hc Hs He Ha. apply (effect_actions _ _ _ _ []); [done|].
    rewrite (FlatMap.modify_ext m id (fun _ => r') (fun r => mkRec (frame r') (priority r') (waiter r) (schedule r')
               (copy r') (handed_off r') (quorum_heard r') (last_error r') (deadline r'))); cycle 1.
    { intros r0 Hr0. simplify_eq. rewrite <- Hw. by destruct r'. }
    eapply effect_modify; [done..| | | |]; cbn; rewrite ?Hc; [done| |set_solver..].
    split; cbn; rewrite ?Hf, ?Hc; [done|]. split; cbn; [naive_solver|]. destruct He; auto. }
  unfold transmitted. rewrite Hget. cbn [unwrap mbind res_bind]. rewrite bool_decide_true by done.
  cbn [rust_assert mbind res_bind set_frame set_copy schedule].
  destruct (schedule r) as [|key copies next|iv copies next] eqn:Hs; [by apply Hsettle|..].
  all: destruct result as [u|err]; cbn; destruct (quorum_heard r); cbn; try destruct (handed_off r) eqn:Hh; cbn.
  all: first [by apply Hsettle|do 2 eexists; split; [done|]; apply Hback; cbn; eauto].
Qed.

Lemma delivered_effect m L key :
  table_inv m L -> exists m' a, delivered m key = Ok (m', a) /\ effect (E:=E) m L m' L a.
Proof.
  intros Hinv. unfold delivered. destruct (find _ _) as [[id r]|] eqn:Hfind; cycle 1.
  { do 2 eexists. split; [done|]. by apply effect_refl. }
  apply FlatMap.find_entry in Hfind as (Hget & _). cbn [fst snd] in *. rewrite Hget. cbn [unwrap mbind res_bind].
  case_bool_decide as Hc; cbn [orb]; [|destruct (handed_off r); cbn [negb]].
  - do 2 eexists. split; [done|]. by eapply effect_modify_same; [..|apply (proj1 Hinv id r Hget)|].
  - destruct (broadcast_settle_effect m L id r (inl tt) [] Hinv Hget Hc) as (b & -> & ?). eauto.
  - do 2 eexists. split; [done|]. by eapply effect_modify_same; [..|apply (proj1 Hinv id r Hget)|].
Qed.

Lemma broadcast_cancel_effect m L id :
  table_inv m L -> exists o m', cancel m id = Ok (o, m') /\ effect (E:=E) m L m' L (default [] o) /\
    (is_Some o <-> exists r, FlatMap.get m id = Some r /\ copy r <> Transmitting).
Proof.
  intros Hinv. unfold cancel. destruct (FlatMap.get m id) as [r|] eqn:Hget; cycle 1.
  { do 2 eexists. split_and!; [done|by apply effect_refl|]. split; [by intros []|]. by intros (? & [=] & ?). }
  case_bool_decide as Hc.
  { do 2 eexists. split_and!; [done|by apply effect_refl|]. split; [by intros []|]. intros (? & [= <-] & ?). congruence. }
  destruct (broadcast_settle_effect m L id r (inr (from_send_failure Cancelled)) [] Hinv Hget Hc) as (b & -> & ?).
  do 2 eexists. split_and!; [done|done|]. split; eauto.
Qed.


(** When the next copy of a schedule is due. *)
Definition due_at (sch : Schedule) : option Instant :=
  match sch with Once => None | PassiveAck _ _ next | FixedInterval _ _ next => Some next end.

(** The three outcomes of [schedule_due]. *)
Lemma schedule_due_spec (sch : Schedule) now :
  match schedule_due sch now with
  | (None, sch') => sch' = sch /\ forall next, due_at sch = Some next -> now < next
  | (Some Over, sch') => sch' = sch /\ sch <> Once /\ ~ copies_left sch
  | (Some Copy, sch') => sch' <> Once
  end.
Proof.
  destruct sch as [|key n next|iv n next]; cbn; [done|..].
  all: destruct (Z.ltb_spec now next); [split; [done|]; congruence|]; destruct (Z.eqb_spec n 0); naive_solver.
Qed.

(** The verdict of a schedule that is not [Once] exists. *)
Lemma handed_off_verdict_ok (sch : Schedule) : sch <> Once -> exists v, handed_off_verdict (E:=E) sch = Ok v.
Proof. destruct sch; [done|by eexists..]. Qed.

(** The deadline check that ends the loop body. *)
Lemma deadline_verdict_ok now r :
  (schedule r = Once -> handed_off r = false) ->
  exists v, (if handed_off r then handed_off_verdict (schedule r)
             else Ok (inr (from_send_failure (E:=E) HandoffTimeout))) = Ok v.
Proof.
  intros Honce. destruct (handed_off r); [|by eexists]. apply handed_off_verdict_ok. intros Hs. by apply Honce in Hs.
Qed.

(** One record of the timer pass: it cannot panic, it settles a record only for a reason, and a
    record it leaves is well formed and has nothing due. *)
Definition tick_post now r (r' : Rec F W E) (o : option (verdict E)) : Prop :=
  waiter r' = waiter r /\ frame r' = frame r /\ (copy r' = Transmitting <-> copy r = Transmitting) /\
  (is_Some o -> copy r <> Transmitting) /\
  (copy r <> Transmitting -> deadline r <= now -> is_Some o) /\
  (o = None -> record_inv r' /\ forall t, record_next_wake r' = Some t -> now < t).

(** The part of the body shared by the records with no schedule that ran out. *)
Lemma tick_deadline_post now r (r' : Rec F W E) :
  waiter r' = waiter r -> frame r' = frame r -> deadline r' = deadline r ->
  copy r <> Transmitting -> copy r' <> Transmitting -> record_inv r' ->
  (copy r' = Idle -> forall next, due_at (schedule r') = Some next -> now < next) ->
  exists o, tick_post now r r' o /\
    (if deadline r' <=? now then
       (r', v ← (if handed_off r' then handed_off_verdict (schedule r') else Ok (inr (from_send_failure HandoffTimeout)));
            Ok (Some v))
     else (r', Ok None)) = (r', Ok o).
Proof.
  intros Hw Hf Hd Hc Hc' [Honce Hidle] Hnext. destruct (Z.leb_spec (deadline r') now).
  - destruct (deadline_verdict_ok now r') as [v ->]; [intros Hs; by apply Honce|].
    exists (Some v). split; [|done]. by split_and!.
  - exists None. split; [|done]. split_and!; try done; try (intros; lia). intros _. split; [by split|].
    unfold record_next_wake. destruct (copy r') eqn:Hcp; [| |done]; intros t [= <-]; [|lia].
    unfold next_attempt. destruct (schedule r') eqn:Hs; cbn; [lia|..]; specialize (Hnext eq_refl _ eq_refl); lia.
Qed.

Lemma tick_record_spec now id r :
  rec_ok id r -> exists o, (tick_record now r).2 = Ok o /\ tick_post now r (tick_record now r).1 o.
Proof.
  intros [_ Hinv]. pose proof Hinv as [Honce Hidle]. unfold tick_record.
  case_bool_decide as Hc.
  { exists None. split; [done|]. split_and!; try done; try (by intros []). intros _. split; [done|].
    intros t. unfold record_next_wake. cbn. by rewrite Hc. }
  case_bool_decide as Hi; cycle 1.
  { destruct (tick_deadline_post now r r) as (o & Hpost & ->); eauto. done. }
  pose proof (schedule_due_spec (schedule r) now) as Hdue. destruct (schedule_due (schedule r) now) as [[[]|] sch'].
  - destruct (tick_deadline_post now r (set_copy (set_schedule r sch') Queued)) as (o & Hpost & ->); eauto; try done.
  - destruct Hdue as (-> & Hns & Hno). cbn [set_schedule handed_off schedule last_error].
    destruct (handed_off r) eqn:Hh; cbn [fst snd].
    + destruct (handed_off_verdict_ok (schedule r) Hns) as [v ->]. exists (Some v). split; [done|]. by split_and!.
    + destruct (Hidle Hi) as [?|[[e He]|?]]; [congruence| |done]. rewrite He. exists (Some (inr e)).
      split; [done|]. by split_and!.
  - destruct Hdue as (-> & Hnext).
    destruct (tick_deadline_post now r (set_schedule r (schedule r))) as (o & Hpost & ->); eauto.
Qed.

Lemma tick_verdicts_spec now (l : list (Z * Rec F W E)) :
  (forall id r, (id, r) ∈ l -> rec_ok id r) ->
  exists vs, tick_verdicts now l = Ok vs /\
    vs.*1 = omap (fun e => match (tick_record now e.2).2 with Ok (Some _) => Some e.1 | _ => None end) l.
Proof.
  induction l as [|[id r] l IH]; intros Hok; cbn [tick_verdicts]; [by exists []|].
  destruct (tick_record_spec now id r) as (o & Ho & _); [apply Hok; set_solver|].
  destruct IH as (vs & -> & Hvs); [set_solver|]. cbn [snd fst omap list_omap]. rewrite Ho. cbn [mbind res_bind].
  destruct o as [v|]; [|eauto]. eexists. split; [done|]. rewrite fmap_cons. by rewrite Hvs.
Qed.

(** Whether the timer pass at [now] ends the record. *)
Definition ends now r : bool := match (tick_record now r).2 with Ok (Some _) => true | _ => false end.

Lemma broadcast_tick_effect m L now :
  table_inv m L ->
  exists m' a, tick m now = Ok (m', a) /\ effect (E:=E) m L m' L a /\
    forall id, FlatMap.get m' id =
      match FlatMap.get m id with
      | Some r => if ends now r then None else Some (tick_record now r).1
      | None => None
      end.
Proof.
  intros Hinv. unfold tick.
  destruct (tick_verdicts_spec now (FlatMap.entries m)) as (vs & -> & Hvs).
  { intros id r Hin%FlatMap.elem_of_entries. by apply Hinv. }
  cbn [mbind res_bind]. set (m1 := FlatMap.iter_mut _ m).
  assert (forall id, FlatMap.get m1 id = (fun r => (tick_record now r).1) <$> FlatMap.get m id) as Hm1.
  { intros id. apply FlatMap.get_iter_mut. }
  destruct (selected_ids (fun e => if ends now e.2 then Some (e.1, tt) else None) m) as [Hnd Hsel].
  { intros e y. destruct (ends now e.2); naive_solver. }
  assert (vs.*1 = (omap (fun e : Z * Rec F W E => if ends now e.2 then Some (e.1, tt) else None) (FlatMap.entries m)).*1) as Hids.
  { rewrite Hvs. unfold ends. clear. induction (FlatMap.entries m) as [|e l IHl]; [done|]. cbn [omap list_omap].
    destruct (tick_record now e.2).2 as [[v|]|[]|]; rewrite ?fmap_cons; by rewrite IHl. }
  rewrite <- Hids in *.
  assert (forall id r, FlatMap.get m id = Some r -> exists o, (tick_record now r).2 = Ok o /\
            tick_post now r (tick_record now r).1 o /\ (id ∈ vs.*1 <-> is_Some o)) as Hrec.
  { intros id r Hget. destruct (tick_record_spec now id r) as (o & Ho & Hpost); [by apply Hinv|].
    exists o. split_and!; [done..|]. rewrite Hsel, Hget. unfold ends. split.
    - intros (? & [= <-] & Hs). cbn [snd] in Hs. rewrite Ho in Hs. destruct o; [done|by destruct Hs].
    - intros [v ->]. exists r. cbn [snd]. by rewrite Ho. }
  edestruct (settle_each_effect _ broadcast_settle_settles vs m1 L []) as (m' & b & -> & Heff & Hget').
  { intros id r'. rewrite Hm1. intros (r & Hget & ->)%fmap_Some.
    destruct (Hrec id r Hget) as (o & _ & (_ & Hf & Hc & _ & _ & Hok) & Hin). split.
    - cbn. rewrite Hf. destruct (proj1 Hinv id r Hget) as [Hfr _]. cbn in Hfr. rewrite Hfr.
      by rewrite !bool_decide_eq_true, Hc.
    - intros Hnin. destruct o as [v|]; [exfalso; by apply Hnin, Hin|]. by apply Hok. }
  { intros id. rewrite (proj2 Hinv id). unfold in_radio. rewrite Hm1. destruct (FlatMap.get m id) as [r|] eqn:Hget; [|naive_solver].
    destruct (Hrec id r Hget) as (o & _ & (_ & _ & Hc & _) & _). cbn. setoid_rewrite bool_decide_eq_true. naive_solver. }
  { done. }
  { intros id Hin. pose proof Hin as (r & Hget & _)%Hsel. destruct (Hrec id r Hget) as (o & _ & (_ & _ & Hc & Ho & _) & Hio).
    rewrite Hm1, Hget. eexists. split; [done|]. cbn. apply bool_decide_eq_false. rewrite Hc. by apply Ho, Hio. }
  exists m', b. split_and!; [done| |].
  - assert (table_waiters m1 = table_waiters m) as Hw.
    { unfold table_waiters, m1. apply FlatMap.values_iter_mut_strong. intros id r Hget.
      by destruct (Hrec id r Hget) as (o & _ & (Hw & _) & _). }
    destruct Heff as [? Hp Hk]. split; [done|by rewrite <- Hw|].
    intros id Hid%Hk. by rewrite Hm1, fmap_is_Some in Hid.
  - intros id. rewrite Hget', Hm1. destruct (FlatMap.get m id) as [r|] eqn:Hget; [|by destruct (decide _)].
    destruct (Hrec id r Hget) as (o & Ho & _ & Hin). unfold ends. rewrite Ho. destruct o as [v|].
    + by rewrite decide_True by (apply Hin; eauto).
    + rewrite decide_False; [done|]. rewrite Hin. by intros [].
Qed.

(** After a tick nothing is due. *)
Lemma broadcast_tick_quiet m L now m' a :
  table_inv m L -> tick m now = Ok (m', a) -> quiet now m'.
Proof.
  intros Hinv Htick id r t Hget Hw. destruct (broadcast_tick_effect m L now Hinv) as (m2 & a2 & Htick2 & _ & Hget2).
  rewrite Htick in Htick2. injection Htick2 as <- <-. rewrite Hget2 in Hget.
  destruct (FlatMap.get m id) as [r0|] eqn:Hget0; [|done].
  destruct (tick_record_spec now id r0) as (o & Ho & Hpost); [by apply Hinv|].
  unfold ends in Hget. rewrite Ho in Hget. destruct o; [done|]. injection Hget as <-. by apply Hpost.
Qed.

(** A record with nothing due is not touched. *)
Lemma tick_record_idle now r :
  (forall t, record_next_wake r = Some t -> now < t) -> tick_record now r = (r, Ok None).
Proof.
  destruct r as [? ? ? sch c ? ? ? dl]. unfold tick_record, record_next_wake, next_attempt. cbn. intros Hq.
  case_bool_decide; [done|]. case_bool_decide; subst.
  - specialize (Hq _ eq_refl). destruct sch as [|? ? next|? ? next]; cbn in *; [|destruct (Z.ltb_spec now next); [|lia]..]; cbn.
    all: destruct (Z.leb_spec dl now); [lia|done].
  - destruct c; [done| |done]. specialize (Hq _ eq_refl). cbn. destruct (Z.leb_spec dl now); [lia|done].
Qed.

(** A tick before anything is due changes nothing and reports nothing. *)
Lemma broadcast_tick_idle m now : quiet now m -> tick (E:=E) m now = Ok (m, []).
Proof.
  intros Hq. assert (forall id r, (id, r) ∈ FlatMap.entries m -> tick_record now r = (r, Ok None)) as Hno.
  { intros id r Hin%FlatMap.elem_of_entries. apply tick_record_idle. intros t. by apply (Hq id r t Hin). }
  unfold tick. assert (tick_verdicts now (FlatMap.entries m) = Ok []) as ->.
  { clear Hq. induction (FlatMap.entries m) as [|[id r] l IHl]; [done|]. cbn [tick_verdicts].
    cbn [snd]. rewrite (Hno id r) by set_solver. cbn [snd mbind res_bind]. rewrite IHl; [done|]. intros id' r' Hin. apply (Hno id'). set_solver. }
  cbn [mbind res_bind settle_each]. do 2 f_equal. apply FlatMap.flat_map_eq. intros id. rewrite FlatMap.get_iter_mut.
  destruct (FlatMap.get m id) as [r|] eqn:Hget; [|done]. cbn. rewrite (Hno id); [done|]. by apply FlatMap.elem_of_entries.
Qed.

Lemma broadcast_abandon_spec m : abandon m = (table_waiters m, FlatMap.new).
Proof. exact (pop_all_spec (S (FlatMap.len m)) m [] ltac:(lia)). Qed.
End Facts.
End BroadcastFacts.
