(* ===== verification/Sends.v ===== *)
(** * The three send tables behind one id space: [src/crates/ziggurat-zigbee/src/sends/mod.rs] *)

From S2P Require Import Prelude Flat Types Constants SendTypes SendTable Unicasts Unrouted BroadcastSends.

Module Sends.

Record t (F W E : Type) := mk {
  next_id : Z;
  unicasts : FlatMap.t Z (Unicasts.Rec F W);
  unrouted_unicasts : Unrouted.t F W;
  broadcasts : FlatMap.t Z (BroadcastSends.Rec F W E)
}.
Arguments mk {F W E}.
Arguments next_id {F W E}.
Arguments unicasts {F W E}.
Arguments unrouted_unicasts {F W E}.
Arguments broadcasts {F W E}.

Section Model.
Context {F W E : Type} `{FromSendFailure E}.
Implicit Types (s : t F W E) (id : SendId) (now : Instant).

Definition new : t F W E := mk 0 FlatMap.new Unrouted.new FlatMap.new.

Definition set_unicasts s m : t F W E := mk (next_id s) m (unrouted_unicasts s) (broadcasts s).
Definition set_unrouted s u : t F W E := mk (next_id s) (unicasts s) u (broadcasts s).
Definition set_broadcasts s m : t F W E := mk (next_id s) (unicasts s) (unrouted_unicasts s) m.

(** [next_id]: [self.next_id += 1] is checked 32-bit arithmetic. *)
Definition take_id s : may (SendId * t F W E) :=
  n ← unwrap (checked_add u32_max (next_id s) 1);
  Ok (next_id s, mk n (unicasts s) (unrouted_unicasts s) (broadcasts s)).

Definition enqueue_unicast s (unicast : Unicasts.Unicast F W) now (tunables : Tunables)
    : may (SendId * t F W E) :=
  '(id, s) ← take_id s;
  Ok (id, set_unicasts s (Unicasts.enqueue (unicasts s) id unicast now None None tunables)).

Definition enqueue_broadcast_copy s (broadcast : SendId) (unicast : Unicasts.Unicast F W) now (tunables : Tunables)
    : may (SendId * t F W E) :=
  '(id, s) ← take_id s;
  Ok (id, set_unicasts s (Unicasts.enqueue (unicasts s) id unicast now None (Some broadcast) tunables)).

Definition enqueue_unrouted_unicast s (send : Unrouted.UnroutedUnicast F W) now (tunables : Tunables)
    : may (SendId * t F W E) :=
  '(id, s) ← take_id s;
  Ok (id, set_unrouted s (Unrouted.enqueue (unrouted_unicasts s) id send now tunables)).

Definition enqueue_broadcast s (broadcast : BroadcastSends.Broadcast F W) now (tunables : Tunables)
    : may (SendId * t F W E) :=
  '(id, s) ← take_id s;
  Ok (id, set_broadcasts s (BroadcastSends.enqueue (broadcasts s) id broadcast now tunables)).

(** The candidates of [dequeue]: the best of each table, tagged with where it comes from. *)
Definition candidates s now : list ((SendId * TxPriority) * bool) :=
  omap (fun o => o)
    [ (fun b => (b, true)) <$> Unicasts.best_queued (unicasts s) now;
      (fun b => (b, false)) <$> BroadcastSends.best_queued (broadcasts s) now ].

Definition dequeue s now : may (option (InFlight F) * t F W E) :=
  match max_by (fun x y => sched_le x.1 y.1) (candidates s now) with
  | None => Ok (None, s)
  | Some ((id, _), from_unicasts) =>
      if from_unicasts then
        '(f, m) ← Unicasts.dequeue (unicasts s) id;
        Ok (Some f, set_unicasts s m)
      else
        '(f, m) ← BroadcastSends.dequeue (broadcasts s) id;
        Ok (Some f, set_broadcasts s m)
  end.

Definition transmitted s (in_flight : InFlight F) (result : verdict E) now
    (retry_delay passive_ack_interval : Duration) : may (t F W E * Actions F W E) :=
  let '(mkInFlight id frame transmit) := in_flight in
  match transmit with
  | TxUnicast _ _ =>
      '(m, a) ← Unicasts.transmitted (unicasts s) id frame result now retry_delay;
      Ok (set_unicasts s m, a)
  | TxBroadcast =>
      '(m, a) ← BroadcastSends.transmitted (broadcasts s) id frame result now passive_ack_interval;
      Ok (set_broadcasts s m, a)
  end.

Definition poll s (eui64 : option Eui64) (nwk : option Nwk) now : bool * t F W E :=
  let '(b, m) := Unicasts.poll (unicasts s) eui64 nwk now in (b, set_unicasts s m).

Definition aps_ack_received s (ack : ApsAckData) : may (t F W E * Actions F W E) :=
  '(m, a) ← Unicasts.ack_received (unicasts s) ack;
  Ok (set_unicasts s m, a).

Definition unrouted_destinations s : list Nwk := Unrouted.destinations (unrouted_unicasts s).
Definition has_unrouted s (destination : Nwk) : bool := Unrouted.has_unrouted (unrouted_unicasts s) destination.

Definition retry_discovery s (destination : Nwk) : may (bool * t F W E) :=
  '(b, u) ← Unrouted.retry_discovery (unrouted_unicasts s) destination;
  Ok (b, set_unrouted s u).

Definition fail_unrouted s (destination : Nwk) : may (t F W E * Actions F W E) :=
  '(u, a) ← Unrouted.fail (unrouted_unicasts s) destination;
  Ok (set_unrouted s u, a).

(** [route_unicasts]'s [resolve] is a closure that may rewrite the frame and keep state of its
    own ([FnMut]); its result is a next hop with a poll address, or an error. *)
Section Route.
Context {C : Type} (resolve : C -> F -> C * F * (Nwk * option Ieee802154Address + E)).

Fixpoint route_each (c : C) (m : FlatMap.t Z (Unicasts.Rec F W)) (l : list (SendId * Unrouted.Rec F W)) now
    (tunables : Tunables) (actions : Actions F W E) : C * FlatMap.t Z (Unicasts.Rec F W) * Actions F W E :=
  match l with
  | [] => (c, m, actions)
  | (id, unrouted) :: l =>
      let '(c, frame, resolved) := resolve c (Unrouted.frame unrouted) in
      match resolved with
      | inl (next_hop, poll_address) =>
          let m := Unicasts.enqueue m id
            (Unicasts.mkUnicast frame (Unrouted.priority unrouted) (Unrouted.waiter unrouted)
               (Unrouted.confirm unrouted) next_hop poll_address)
            now (Some (Unrouted.deadline unrouted)) None tunables in
          route_each c m l now tunables actions
      | inr err =>
          route_each c m l now tunables (actions ++ [Settled (Unrouted.waiter unrouted) (inr err) frame None])
      end
  end.

Definition route_unicasts s (destination : Nwk) now (tunables : Tunables) (c : C)
    : may (C * t F W E * Actions F W E) :=
  '(u, actions) ← Unrouted.tick (unrouted_unicasts s) now;
  '(taken, u) ← Unrouted.route u destination;
  let '(c, m, actions) := route_each c (unicasts s) taken now tunables actions in
  Ok (c, mk (next_id s) m u (broadcasts s), actions).
End Route.

Definition broadcasts_awaiting_quorum s : list (Nwk * Z) := BroadcastSends.awaiting_quorum (broadcasts s).

Definition broadcast_delivered s (key : Nwk * Z) : may (t F W E * Actions F W E) :=
  '(m, a) ← BroadcastSends.delivered (broadcasts s) key;
  Ok (set_broadcasts s m, a).

Definition drop_indirect_unicasts s (eui64 : option Eui64) (nwk : Nwk) : may (t F W E * Actions F W E) :=
  '(m, a) ← Unicasts.drop_indirect (unicasts s) eui64 nwk;
  Ok (set_unicasts s m, a).

Definition abandon s : list W * t F W E :=
  let '(w1, m) := Unicasts.abandon (unicasts s) in
  let '(w2, u) := Unrouted.abandon (unrouted_unicasts s) in
  let '(w3, b) := BroadcastSends.abandon (broadcasts s) in
  (w1 ++ w2 ++ w3, mk (next_id s) m u b).

(** The [any] over the copies: [Unicasts::is_transmitting] of each. *)
Fixpoint any_transmitting (m : FlatMap.t Z (Unicasts.Rec F W)) (copies : list SendId) : may bool :=
  match copies with
  | [] => Ok false
  | copy :: copies =>
      b ← Unicasts.is_transmitting m copy;
      if b : bool then Ok true else any_transmitting m copies
  end.

(** [for copy in copies { actions.extend(self.unicasts.cancel(copy).unwrap()) }]. *)
Fixpoint cancel_copies (m : FlatMap.t Z (Unicasts.Rec F W)) (copies : list SendId) (actions : Actions F W E)
    : may (FlatMap.t Z (Unicasts.Rec F W) * Actions F W E) :=
  match copies with
  | [] => Ok (m, actions)
  | copy :: copies =>
      cancelled ← Unicasts.cancel m copy;
      a ← unwrap cancelled.1;
      cancel_copies cancelled.2 copies (actions ++ a)
  end.

Definition cancel_broadcast s id : may (option (Actions F W E) * t F W E) :=
  let copies := Unicasts.copies_of (unicasts s) id in
  busy ← any_transmitting (unicasts s) copies;
  if busy : bool then Ok (None, s)
  else
    '(o, b) ← BroadcastSends.cancel (broadcasts s) id;
    match o with
    | None => Ok (None, set_broadcasts s b)
    | Some actions =>
        '(m, actions) ← cancel_copies (unicasts s) copies actions;
        Ok (Some actions, mk (next_id s) m (unrouted_unicasts s) b)
    end.

Definition cancel s id : may (option (Actions F W E) * t F W E) :=
  if Unicasts.contains (unicasts s) id then
    '(o, m) ← Unicasts.cancel (E:=E) (unicasts s) id;
    Ok (o, set_unicasts s m)
  else if Unrouted.contains (unrouted_unicasts s) id then
    '(a, u) ← Unrouted.cancel (E:=E) (unrouted_unicasts s) id;
    Ok (Some a, set_unrouted s u)
  else cancel_broadcast s id.

Definition tick s now : may (t F W E * Actions F W E) :=
  '(m, a1) ← Unicasts.tick (unicasts s) now;
  '(u, a2) ← Unrouted.tick (unrouted_unicasts s) now;
  '(b, a3) ← BroadcastSends.tick (broadcasts s) now;
  Ok (mk (next_id s) m u b, a1 ++ a2 ++ a3).

Definition next_wake s : option Instant :=
  min_instant (omap (fun o => o)
    [Unicasts.next_wake (unicasts s); Unrouted.next_wake (unrouted_unicasts s);
     BroadcastSends.next_wake (broadcasts s)]).

Definition poll_addresses s (address_map : FlatMap.t Eui64 Z) : Unicasts.SrcMatchTable :=
  Unicasts.poll_addresses (unicasts s) address_map.

Definition has_unicast_awaiting_poll s (address : Ieee802154Address) : bool :=
  Unicasts.has_awaiting_poll (unicasts s) address.
End Model.

(** ** The driver's view

    The calls a driver makes, as one type, and the frames it holds on loan. [exec] is one call;
    its outcome is what the call hands back. *)
Section Driver.
Context {F W E C : Type} `{FromSendFailure E}.

Inductive Op : Type :=
| EnqueueUnicast (u : Unicasts.Unicast F W) (now : Instant) (tunables : Tunables)
| EnqueueBroadcastCopy (broadcast : SendId) (u : Unicasts.Unicast F W) (now : Instant) (tunables : Tunables)
| EnqueueUnrouted (u : Unrouted.UnroutedUnicast F W) (now : Instant) (tunables : Tunables)
| EnqueueBroadcast (b : BroadcastSends.Broadcast F W) (now : Instant) (tunables : Tunables)
| Dequeue (now : Instant)
| Transmitted (in_flight : InFlight F) (result : verdict E) (now : Instant) (retry_delay interval : Duration)
| Poll (eui64 : option Eui64) (nwk : option Nwk) (now : Instant)
| ApsAckReceived (ack : ApsAckData)
| RetryDiscovery (destination : Nwk)
| FailUnrouted (destination : Nwk)
| RouteUnicasts (resolve : C -> F -> C * F * (Nwk * option Ieee802154Address + E)) (c : C)
    (destination : Nwk) (now : Instant) (tunables : Tunables)
| BroadcastDelivered (key : Nwk * Z)
| DropIndirect (eui64 : option Eui64) (nwk : Nwk)
| Cancel (id : SendId)
| Tick (now : Instant)
| Abandon.

Record outcome := mkOutcome {
  out_admitted : list W;
  out_lent : option (InFlight F);
  out_actions : Actions F W E;
  out_abandoned : list W
}.

Definition exec (s : t F W E) (op : Op) : may (t F W E * outcome) :=
  match op with
  | EnqueueUnicast u now tun =>
      '(_, s) ← enqueue_unicast s u now tun; Ok (s, mkOutcome [Unicasts.u_waiter u] None [] [])
  | EnqueueBroadcastCopy b u now tun =>
      '(_, s) ← enqueue_broadcast_copy s b u now tun; Ok (s, mkOutcome [Unicasts.u_waiter u] None [] [])
  | EnqueueUnrouted u now tun =>
      '(_, s) ← enqueue_unrouted_unicast s u now tun; Ok (s, mkOutcome [Unrouted.uu_waiter u] None [] [])
  | EnqueueBroadcast b now tun =>
      '(_, s) ← enqueue_broadcast s b now tun; Ok (s, mkOutcome [BroadcastSends.b_waiter b] None [] [])
  | Dequeue now => '(f, s) ← dequeue s now; Ok (s, mkOutcome [] f [] [])
  | Transmitted f result now delay interval =>
      '(s, a) ← transmitted s f result now delay interval; Ok (s, mkOutcome [] None a [])
  | Poll eui64 nwk now => Ok ((poll s eui64 nwk now).2, mkOutcome [] None [] [])
  | ApsAckReceived ack => '(s, a) ← aps_ack_received s ack; Ok (s, mkOutcome [] None a [])
  | RetryDiscovery dest => '(_, s) ← retry_discovery s dest; Ok (s, mkOutcome [] None [] [])
  | FailUnrouted dest => '(s, a) ← fail_unrouted s dest; Ok (s, mkOutcome [] None a [])
  | RouteUnicasts resolve c dest now tun =>
      '(_, s, a) ← route_unicasts resolve s dest now tun c; Ok (s, mkOutcome [] None a [])
  | BroadcastDelivered key => '(s, a) ← broadcast_delivered s key; Ok (s, mkOutcome [] None a [])
  | DropIndirect eui64 nwk => '(s, a) ← drop_indirect_unicasts s eui64 nwk; Ok (s, mkOutcome [] None a [])
  | Cancel id => '(o, s) ← cancel s id; Ok (s, mkOutcome [] None (default [] o) [])
  | Tick now => '(s, a) ← tick s now; Ok (s, mkOutcome [] None a [])
  | Abandon => let '(ws, s) := abandon s in Ok (s, mkOutcome [] None [] ws)
  end.

(** The tables together with what the driver knows: the loans it holds, the waiters it admitted
    and those it was told the end of. *)
Record world := mkWorld {
  w_sends : t F W E;
  w_loans : list (InFlight F);
  w_admitted : list W;
  w_reported : list W
}.

Definition same_loan (f g : InFlight F) : Prop :=
  in_flight_id f = in_flight_id g /\ in_flight_transmit f = in_flight_transmit g.

(** The driver's contract: it reports only frames it holds (their contents may have been
    rewritten, [frame_mut]), it retries a discovery only for a destination that is awaited, its
    broadcast schedules have a copy to send, and the 32-bit ids have not run out. *)
Definition allowed (w : world) (op : Op) : Prop :=
  match op with
  | EnqueueUnicast _ _ _ | EnqueueBroadcastCopy _ _ _ _ | EnqueueUnrouted _ _ _ => next_id (w_sends w) < u32_max
  | EnqueueBroadcast b _ _ =>
      next_id (w_sends w) < u32_max /\ BroadcastSends.schedulable (BroadcastSends.b_schedule b)
  | Transmitted f _ _ _ _ => exists g, g ∈ w_loans w /\ same_loan f g
  | RetryDiscovery dest => has_unrouted (w_sends w) dest = true
  | _ => True
  end.

(** The loans after a call: a dequeue adds one, a report returns one, a shutdown forgets all. *)
Definition loans_after (loans : list (InFlight F)) (op : Op) (out : outcome) : list (InFlight F) :=
  match op with
  | Transmitted f _ _ _ _ => filter (fun g => in_flight_id g <> in_flight_id f) loans
  | Abandon => []
  | _ => match out_lent out with Some g => g :: loans | None => loans end
  end.

Definition world_after (w : world) (op : Op) (s : t F W E) (out : outcome) : world :=
  mkWorld s (loans_after (w_loans w) op out)
    (w_admitted w ++ out_admitted out)
    (w_reported w ++ settled_waiters (out_actions out) ++ out_abandoned out).

Definition init : world := mkWorld new [] [] [].

Inductive reachable : world -> Prop :=
| reachable_init : reachable init
| reachable_step w op s out :
    reachable w -> allowed w op -> exec (w_sends w) op = Ok (s, out) -> reachable (world_after w op s out).
End Driver.
Arguments Op : clear implicits.
Arguments world : clear implicits.
Arguments outcome : clear implicits.
End Sends.
