(* ===== verification/SendsFacts.v ===== *)
(** * Facts about the send tables as a whole

    [inv] is the invariant of [Sends]: each table's own invariant, ids below [next_id], and no id
    in two tables.  [seffect] lifts a table's [effect] to the whole; the theorems about reachable
    worlds are in [SendsTheorems]. *)

From S2P Require Import Prelude Flat Types Constants SendTypes SendTable.
From S2P Require Import Unicasts UnicastFacts Unrouted BroadcastSends BroadcastFacts Sends.

Module SendsFacts.
Import Sends.

Section Facts.
Context {F W E : Type} `{FromSendFailure E}.
Implicit Types (s : t F W E) (id : SendId) (now : Instant) (a : Actions F W E) (U B : gset Z).

Definition in_unicasts s id : Prop := is_Some (FlatMap.get (unicasts s) id).
Definition in_unrouted s id : Prop := is_Some (FlatMap.get (Unrouted.records (unrouted_unicasts s)) id).
Definition in_broadcasts s id : Prop := is_Some (FlatMap.get (broadcasts s) id).

Record inv s U B : Prop := mkInv {
  inv_unicasts : table_inv (unicasts s) U;
  inv_unrouted : Unrouted.inv (unrouted_unicasts s);
  inv_broadcasts : table_inv (broadcasts s) B;
  inv_fresh : forall id, in_unicasts s id \/ in_unrouted s id \/ in_broadcasts s id -> id < next_id s;
  inv_one_table : forall id,
    ~ (in_unicasts s id /\ in_unrouted s id) /\ ~ (in_unicasts s id /\ in_broadcasts s id) /\
    ~ (in_unrouted s id /\ in_broadcasts s id)
}.

(** The waiter of every live send. *)
Definition waiters s : list W :=
  table_waiters (unicasts s) ++ table_waiters (Unrouted.records (unrouted_unicasts s)) ++ table_waiters (broadcasts s).

Record seffect s U B s' U' B' a : Prop := mkSeffect {
  se_inv : inv s' U' B';
  se_waiters : waiters s ≡ₚ settled_waiters a ++ waiters s';
  se_next_id : next_id s' = next_id s
}.

Lemma sends_inv_new : inv new ∅ ∅.
Proof.
  split.
  - split; [done|]. intros id. split; [set_solver|]. by intros (? & ? & ?).
  - apply Unrouted.unrouted_inv_new.
  - split; [done|]. intros id. split; [set_solver|]. by intros (? & ? & ?).
  - by intros id [[]|[[]|[]]].
  - intros id. split_and!; intros [[] []]; done.
Qed.

Lemma seffect_refl s U B : inv s U B -> seffect s U B s U B [].
Proof. by split. Qed.

Lemma seffect_trans s1 U1 B1 s2 U2 B2 s3 U3 B3 a b :
  seffect s1 U1 B1 s2 U2 B2 a -> seffect s2 U2 B2 s3 U3 B3 b -> seffect s1 U1 B1 s3 U3 B3 (a ++ b).
Proof.
  intros [? Hp1 Hn1] [? Hp2 Hn2]. split; [done| |congruence].
  rewrite settled_waiters_app, <- app_assoc, <- Hp2. done.
Qed.

Lemma seffect_unicasts s U B m U' a :
  inv s U B -> effect (unicasts s) U m U' a -> seffect s U B (set_unicasts s m) U' B a.
Proof.
  intros [? ? ? Hf Ho] [? Hp Hk]. split; [split; try done| |done].
  - intros id [Hu|Hrest]; apply Hf; [left; by apply Hk|by right].
  - intros id. destruct (Ho id) as (H1 & H2 & H3). split_and!; [| |done]; intros [Hu ?]; [apply H1|apply H2];
      (split; [by apply Hk|done]).
  - unfold waiters, set_unicasts. cbn. rewrite Hp. by rewrite <- app_assoc.
Qed.

Lemma seffect_broadcasts s U B m B' a :
  inv s U B -> effect (broadcasts s) B m B' a -> seffect s U B (set_broadcasts s m) U B' a.
Proof.
  intros [? ? ? Hf Ho] [? Hp Hk]. split; [split; try done| |done].
  - intros id [?|[?|Hb]]; apply Hf; [by left|by right; left|right; right; by apply Hk].
  - intros id. destruct (Ho id) as (H1 & H2 & H3). split_and!; [done| |]; intros [? Hb]; [apply H2|apply H3];
      (split; [done|by apply Hk]).
  - unfold waiters, set_broadcasts. cbn. rewrite Hp. solve_Permutation.
Qed.

Lemma seffect_unrouted s U B u a :
  inv s U B -> Unrouted.inv u ->
  effect (Unrouted.records (unrouted_unicasts s)) ∅ (Unrouted.records u) ∅ a ->
  seffect s U B (set_unrouted s u) U B a.
Proof.
  intros [? ? ? Hf Ho] ? [? Hp Hk]. split; [split; try done| |done].
  - intros id [?|[Hu|?]]; apply Hf; [by left|right; left; by apply Hk|by right; right].
  - intros id. destruct (Ho id) as (H1 & H2 & H3). split_and!; [|done|]; intros [? ?]; [apply H1|apply H3];
      (split; by try apply Hk).
  - unfold waiters, set_unrouted. cbn. rewrite Hp. solve_Permutation.
Qed.

(** ** Admission *)

(** A call that admits [ws] under the next id. *)
Definition admits s U B s' (ws : list W) : Prop :=
  inv s' U B /\ waiters s' ≡ₚ ws ++ waiters s /\ next_id s' = next_id s + 1.

Lemma take_id_spec s : next_id s < u32_max ->
  take_id s = Ok (next_id s, mk (next_id s + 1) (unicasts s) (unrouted_unicasts s) (broadcasts s)).
Proof.
  intros Hn. unfold take_id, checked_add. destruct (Z.leb_spec (next_id s + 1) u32_max); [done|lia].
Qed.

Lemma fresh_id s U B : inv s U B ->
  FlatMap.get (unicasts s) (next_id s) = None /\
  FlatMap.get (Unrouted.records (unrouted_unicasts s)) (next_id s) = None /\
  FlatMap.get (broadcasts s) (next_id s) = None.
Proof.
  intros [_ _ _ Hf _]. specialize (Hf (next_id s)). unfold in_unicasts, in_unrouted, in_broadcasts in Hf.
  split_and!; apply eq_None_not_Some; intros Hs; apply (Z.lt_irrefl (next_id s)); auto.
Qed.

(** A table that grew by one fresh id keeps ids below [next_id + 1] and in one table. *)
Lemma grown_ids (P Q R P' : Z -> Prop) n :
  (forall id, P' id <-> id = n \/ P id) ->
  (forall id, P id \/ Q id \/ R id -> id < n) ->
  (forall id, ~ (P id /\ Q id) /\ ~ (P id /\ R id) /\ ~ (Q id /\ R id)) ->
  (forall id, P' id \/ Q id \/ R id -> id < n + 1) /\
  (forall id, ~ (P' id /\ Q id) /\ ~ (P' id /\ R id) /\ ~ (Q id /\ R id)).
Proof.
  intros Hk Hf Ho. split.
  - intros id. rewrite Hk. intros [[->|?]|?]; [lia|..]; (cut (id < n); [lia|]); apply Hf; auto.
  - intros id. rewrite Hk. destruct (Ho id) as (H1 & H2 & H3). split_and!; [| |done].
    all: intros [[->|?] ?]; [apply (Z.lt_irrefl n), Hf; auto|auto].
Qed.

Lemma admit_unicast s U B (u : Unicasts.Unicast F W) now copy tun :
  inv s U B ->
  admits s U B (mk (next_id s + 1) (Unicasts.enqueue (unicasts s) (next_id s) u now None copy tun)
                   (unrouted_unicasts s) (broadcasts s)) [Unicasts.u_waiter u].
Proof.
  intros Hinv. destruct (fresh_id s U B Hinv) as (Hg & _ & _). destruct Hinv as [? ? ? Hf Ho].
  destruct (UnicastFacts.unicast_enqueue_inv (unicasts s) U (next_id s) u now None copy tun) as (? & Hp & Hk); [done..|].
  destruct (grown_ids (in_unicasts s) (in_unrouted s) (in_broadcasts s) _ (next_id s) Hk Hf Ho).
  split_and!; [by split| |done]. unfold waiters. cbn. by rewrite Hp.
Qed.

Lemma admit_unrouted s U B (u : Unrouted.UnroutedUnicast F W) now tun :
  inv s U B ->
  admits s U B (mk (next_id s + 1) (unicasts s) (Unrouted.enqueue (unrouted_unicasts s) (next_id s) u now tun)
                   (broadcasts s)) [Unrouted.uu_waiter u].
Proof.
  intros Hinv. destruct (fresh_id s U B Hinv) as (_ & Hg & _). destruct Hinv as [? ? ? Hf Ho].
  destruct (Unrouted.unrouted_enqueue_inv (unrouted_unicasts s) (next_id s) u now tun) as (? & Hp & Hk); [done..|].
  destruct (grown_ids (in_unrouted s) (in_unicasts s) (in_broadcasts s) _ (next_id s) Hk) as [Hf' Ho'].
  { intros id Hid. apply Hf. naive_solver. }
  { intros id. specialize (Ho id). naive_solver. }
  split_and!; [split; try done| |done].
  - intros id Hid. apply Hf'. unfold in_unicasts, in_unrouted, in_broadcasts in *. cbn in *. tauto.
  - intros id. specialize (Ho' id). unfold in_unicasts, in_unrouted, in_broadcasts in *. cbn in *. tauto.
  - unfold waiters. cbn [unicasts unrouted_unicasts broadcasts]. rewrite Hp. solve_Permutation.
Qed.

Lemma admit_broadcast s U B (b : BroadcastSends.Broadcast F W) now tun :
  inv s U B -> BroadcastSends.schedulable (BroadcastSends.b_schedule b) ->
  admits s U B (mk (next_id s + 1) (unicasts s) (unrouted_unicasts s)
                   (BroadcastSends.enqueue (broadcasts s) (next_id s) b now tun)) [BroadcastSends.b_waiter b].
Proof.
  intros Hinv Hs. destruct (fresh_id s U B Hinv) as (_ & _ & Hg). destruct Hinv as [? ? ? Hf Ho].
  destruct (BroadcastFacts.broadcast_enqueue_inv (broadcasts s) B (next_id s) b now tun) as (? & Hp & Hk); [done..|].
  destruct (grown_ids (in_broadcasts s) (in_unicasts s) (in_unrouted s) _ (next_id s) Hk) as [Hf' Ho'].
  { intros id Hid. apply Hf. naive_solver. }
  { intros id. specialize (Ho id). naive_solver. }
  split_and!; [split; try done| |done].
  - intros id Hid. apply Hf'. unfold in_unicasts, in_unrouted, in_broadcasts in *. cbn in *. tauto.
  - intros id. specialize (Ho' id). unfold in_unicasts, in_unrouted, in_broadcasts in *. cbn in *. tauto.
  - unfold waiters. cbn [unicasts unrouted_unicasts broadcasts]. rewrite Hp. solve_Permutation.
Qed.

(** ** The sender *)

(** A send the sender may take at [now]. *)
Definition ready s now id (p : TxPriority) : Prop :=
  (exists r, FlatMap.get (unicasts s) id = Some r /\ Unicasts.stage r = Unicasts.Queued /\
             now < Unicasts.deadline r /\ p = Unicasts.priority r) \/
  (exists r, FlatMap.get (broadcasts s) id = Some r /\ BroadcastSends.copy r = BroadcastSends.Queued /\
             now < BroadcastSends.deadline r /\ p = BroadcastSends.priority r).

(** The loans after lending [f]. *)
Definition is_unicast_loan (f : InFlight F) : bool :=
  match in_flight_transmit f with TxUnicast _ _ => true | TxBroadcast => false end.

Lemma candidates_spec s now c (b : bool) :
  (c, b) ∈ candidates s now <->
  if b then Unicasts.best_queued (unicasts s) now = Some c else BroadcastSends.best_queued (broadcasts s) now = Some c.
Proof.
  unfold candidates. destruct (Unicasts.best_queued _ _) as [cu|], (BroadcastSends.best_queued _ _) as [cb|]; cbn;
    rewrite ?elem_of_cons; destruct b; set_solver.
Qed.

Lemma ready_candidate s now id p :
  ready s now id p -> exists c b, (c, b) ∈ candidates s now /\ sched_le (id, p) c = true.
Proof.
  intros [(r & Hget & Hq & Hd & ->)|(r & Hget & Hq & Hd & ->)].
  - pose proof (UnicastFacts.unicast_best_queued_spec (unicasts s) now) as Hb.
    destruct (Unicasts.best_queued _ _) as [[id' p']|] eqn:Hbest; [|specialize (Hb _ _ Hget Hq); lia].
    exists (id', p'), true. split; [by apply candidates_spec|]. by eapply Hb.
  - pose proof (BroadcastFacts.broadcast_best_queued_spec (broadcasts s) now) as Hb.
    destruct (BroadcastSends.best_queued _ _) as [[id' p']|] eqn:Hbest; [|specialize (Hb _ _ Hget Hq); lia].
    exists (id', p'), false. split; [by apply candidates_spec|]. by eapply Hb.
Qed.

Lemma dequeue_spec s U B now :
  inv s U B ->
  exists o s', dequeue s now = Ok (o, s') /\
    match o with
    | None => s' = s /\ forall id p, ~ ready s now id p
    | Some f =>
        let id := in_flight_id f in
        (exists p, ready s now id p /\ forall id' p', ready s now id' p' -> sched_le (id', p') (id, p) = true) /\
        (id ∉ U) /\ (id ∉ B) /\
        if is_unicast_loan f then seffect s U B s' ({[id]} ∪ U) B [] else seffect s U B s' U ({[id]} ∪ B) []
    end.
Proof.
  intros Hinv. unfold dequeue.
  pose proof (max_by_spec (fun x y : (SendId * TxPriority) * bool => sched_le x.1 y.1) (candidates s now)
    (fun x y z => sched_le_trans _ _ _) (fun x => sched_le_refl _) (fun x y => sched_le_total _ _)) as Hmax.
  destruct (max_by _ _) as [[[id p] b]|]; cycle 1.
  { do 2 eexists. split; [done|]. split; [done|]. intros id p (c & b & Hin & _)%ready_candidate. rewrite Hmax in Hin. set_solver. }
  destruct Hmax as [Hin Hmax]. apply candidates_spec in Hin.
  assert (forall id' p', ready s now id' p' -> sched_le (id', p') (id, p) = true) as Hbest.
  { intros id' p' (c & b' & Hc & Hle)%ready_candidate. eapply sched_le_trans; [exact Hle|]. apply (Hmax (c, b') Hc). }
  destruct b.
  - pose proof (UnicastFacts.unicast_best_queued_spec (unicasts s) now) as Hspec. rewrite Hin in Hspec.
    destruct Hspec as [(r & Hget & Hq & Hd & ->) _].
    destruct (UnicastFacts.unicast_dequeue_effect (E:=E) (unicasts s) U id r) as (f & pend & m' & -> & _ & Hnin & Heff);
      [apply Hinv|done..|]. cbn [mbind res_bind]. do 2 eexists. split; [done|]. cbn.
    split_and!; [exists (Unicasts.priority r); split; [left; eauto 10|done]|done| |by apply seffect_unicasts].
    rewrite (proj2 (inv_broadcasts _ _ _ Hinv) id). intros (r' & Hget' & _).
    apply (proj1 (proj2 (inv_one_table _ _ _ Hinv id))). unfold in_unicasts, in_broadcasts. rewrite Hget, Hget'. eauto.
  - pose proof (BroadcastFacts.broadcast_best_queued_spec (broadcasts s) now) as Hspec. rewrite Hin in Hspec.
    destruct Hspec as [(r & Hget & Hq & Hd & ->) _].
    destruct (BroadcastFacts.broadcast_dequeue_effect (E:=E) (broadcasts s) B id r) as (f & m' & -> & _ & Hnin & Heff);
      [apply Hinv|done..|]. cbn [mbind res_bind]. do 2 eexists. split; [done|]. cbn.
    split_and!; [exists (BroadcastSends.priority r); split; [right; eauto 10|done]| |done|by apply seffect_broadcasts].
    rewrite (proj2 (inv_unicasts _ _ _ Hinv) id). intros (r' & Hget' & _).
    apply (proj1 (proj2 (inv_one_table _ _ _ Hinv id))). unfold in_unicasts, in_broadcasts. rewrite Hget, Hget'. eauto.
Qed.

Lemma transmitted_seffect s U B (f : InFlight F) (result : verdict E) now delay interval :
  inv s U B -> in_flight_id f ∈ (if is_unicast_loan f then U else B) ->
  exists s' a, transmitted s f result now delay interval = Ok (s', a) /\
    if is_unicast_loan f then seffect s U B s' (U ∖ {[in_flight_id f]}) B a
    else seffect s U B s' U (B ∖ {[in_flight_id f]}) a.
Proof.
  intros Hinv. destruct f as [id fr tx]. unfold transmitted, is_unicast_loan. cbn. destruct tx as [hop pend|]; intros Hin.
  - destruct (UnicastFacts.unicast_transmitted_effect (unicasts s) U id fr result now delay) as (m' & a & -> & ?); [apply Hinv|done|].
    do 2 eexists. split; [done|]. by apply seffect_unicasts.
  - destruct (BroadcastFacts.broadcast_transmitted_effect (broadcasts s) B id fr result now interval) as (m' & a & -> & ?); [apply Hinv|done|].
    do 2 eexists. split; [done|]. by apply seffect_broadcasts.
Qed.

(** ** Routing: the held sends move to the unicasts, or fail *)
Section Route.
Context {C : Type} (resolve : C -> F -> C * F * (Nwk * option Ieee802154Address + E)).

Lemma route_each_spec (l : list (SendId * Unrouted.Rec F W)) c m U now tun a :
  table_inv m U -> NoDup l.*1 -> (forall id, id ∈ l.*1 -> FlatMap.get m id = None) ->
  exists c' m' b, route_each resolve c m l now tun a = (c', m', a ++ b) /\ table_inv m' U /\
    table_waiters m ++ (Unrouted.waiter ∘ snd <$> l) ≡ₚ settled_waiters b ++ table_waiters m' /\
    forall id, is_Some (FlatMap.get m' id) -> is_Some (FlatMap.get m id) \/ id ∈ l.*1.
Proof.
  revert c m a. induction l as [|[id r] l IH]; intros c m a Hinv Hnd Hfresh; cbn [route_each].
  { exists c, m, []. rewrite !app_nil_r. split_and!; [done|done|done|auto]. }
  rewrite fmap_cons in Hnd, Hfresh. apply NoDup_cons in Hnd as [Hnin Hnd]. cbn in Hnin.
  destruct (resolve c (Unrouted.frame r)) as [[c1 f1] [[hop poll]|err]].
  - destruct (UnicastFacts.unicast_enqueue_inv m U id (Unicasts.mkUnicast f1 (Unrouted.priority r) (Unrouted.waiter r)
      (Unrouted.confirm r) hop poll) now (Some (Unrouted.deadline r)) None tun) as (Hinv1 & Hp1 & Hk1);
      [done|apply Hfresh; set_solver|].
    destruct (IH c1 (Unicasts.enqueue m id (Unicasts.mkUnicast f1 (Unrouted.priority r) (Unrouted.waiter r)
      (Unrouted.confirm r) hop poll) now (Some (Unrouted.deadline r)) None tun) a) as (c' & m' & b & -> & Hinv' & Hp & Hk); [done|done| |].
    { intros id' Hin. apply eq_None_not_Some. rewrite Hk1. intros [->|Hs]; [done|]. rewrite Hfresh in Hs by set_solver. by destruct Hs. }
    exists c', m', b. split_and!; [done..| |].
    + rewrite <- Hp, Hp1, fmap_cons. cbn. solve_Permutation.
    + intros id' [[->|?]%Hk1|?]%Hk; rewrite fmap_cons; set_solver.
  - destruct (IH c1 m (a ++ [Settled (Unrouted.waiter r) (inr err) f1 None])) as (c' & m' & b & -> & Hinv' & Hp & Hk); [done|done|set_solver|].
    exists c', m', (Settled (Unrouted.waiter r) (inr err) f1 None :: b). split_and!; [by rewrite <- app_assoc|done| |].
    + rewrite fmap_cons. cbn. rewrite <- Hp. solve_Permutation.
    + intros id' [?|?]%Hk; rewrite fmap_cons; set_solver.
Qed.

Lemma route_seffect s U B dest now tun c :
  inv s U B ->
  exists c' s' a, route_unicasts resolve s dest now tun c = Ok (c', s', a) /\ seffect s U B s' U B a.
Proof.
  intros Hinv. unfold route_unicasts.
  destruct (Unrouted.unrouted_tick_effect (E:=E) (unrouted_unicasts s) now) as (u & a & -> & Hu & Heff & _ & _); [apply Hinv|].
  cbn [mbind res_bind]. pose proof (seffect_unrouted s U B u a Hinv Hu Heff) as Hs1.
  unfold Unrouted.route.
  destruct (Unrouted.take_spec u dest (FlatMap.remove (Unrouted.retries u) dest).2 Hu) as
    (taken & m' & -> & Hinv' & Hnd & Htaken & Hperm & Hget' & _).
  { intros d Hd. by rewrite FlatMap.get_remove_ne. }
  cbn [mbind res_bind]. destruct Hs1 as [Hinv1 Hw1 Hn1].
  assert (forall id, id ∈ taken.*1 -> in_unrouted (set_unrouted s u) id) as Htk.
  { intros id ([k r] & -> & Hin)%list_elem_of_fmap. unfold in_unrouted. cbn. by rewrite (proj1 (Htaken k r Hin)). }
  destruct (route_each_spec taken c (unicasts s) U now tun a) as (c' & m & b & -> & Hm & Hp & Hk); [apply Hinv|done| |].
  { intros id Hin. apply eq_None_not_Some. intros Hs. apply (proj1 (inv_one_table _ _ _ Hinv1 id)).
    split; [exact Hs|by apply Htk]. }
  assert (forall id, is_Some (FlatMap.get m' id) -> in_unrouted (set_unrouted s u) id /\ id ∉ taken.*1) as Hleft.
  { intros id. rewrite Hget'. destruct (decide _); [by intros []|done]. }
  do 3 eexists. split; [done|]. destruct Hinv1 as [? ? ? Hf Ho].
  assert (forall id, is_Some (FlatMap.get m id) -> in_unicasts (set_unrouted s u) id \/ in_unrouted (set_unrouted s u) id) as Hk'.
  { intros id [?|?]%Hk; [by left|right; by apply Htk]. }
  split; [split; try done| |exact Hn1].
  - intros id [Hi|[Hi|Hi]]; apply Hf; [apply Hk' in Hi|apply Hleft in Hi|]; naive_solver.
  - intros id. destruct (Ho id) as (H1 & H2 & H3). split_and!.
    + intros [[Hi|Hi]%Hk [Hj ?]%Hleft]; [by apply H1|done].
    + intros [[Hi|Hi]%Hk' Hj]; [by apply H2|by apply H3].
    + intros [[Hi ?]%Hleft Hj]. by apply H3.
  - rewrite Hw1, settled_waiters_app. unfold waiters. cbn [unicasts unrouted_unicasts broadcasts set_unrouted Unrouted.records].
    rewrite Hperm. rewrite <- (app_assoc (settled_waiters a)). apply Permutation_app_head.
    rewrite (app_assoc (settled_waiters b)), <- Hp. solve_Permutation.
Qed.
End Route.

(** ** Cancellation *)
Lemma any_transmitting_spec (m : FlatMap.t Z (Unicasts.Rec F W)) (l : list SendId) :
  (forall id, id ∈ l -> is_Some (FlatMap.get m id)) ->
  exists b, any_transmitting m l = Ok b /\
    (b = false -> forall id r, id ∈ l -> FlatMap.get m id = Some r ->
       Unicasts.is_transmitting_stage (Unicasts.stage r) = false).
Proof.
  induction l as [|id l IH]; intros Hl; cbn [any_transmitting]; [exists false; split; [done|set_solver]|].
  destruct (Hl id) as [r Hget]; [set_solver|]. unfold Unicasts.is_transmitting. rewrite Hget. cbn [unwrap mbind res_bind].
  destruct (Unicasts.is_transmitting_stage (Unicasts.stage r)) eqn:Ht; [by exists true|].
  destruct IH as (b & -> & Hb); [set_solver|]. exists b. split; [done|]. intros -> id' r' [->|Hin]%elem_of_cons Hget'; [by simplify_eq|].
  by apply (Hb eq_refl id').
Qed.

Lemma cancel_copies_effect (l : list SendId) (m : FlatMap.t Z (Unicasts.Rec F W)) U a :
  table_inv m U -> NoDup l ->
  (forall id, id ∈ l -> exists r, FlatMap.get m id = Some r /\ Unicasts.is_transmitting_stage (Unicasts.stage r) = false) ->
  exists m' b, cancel_copies m l a = Ok (m', a ++ b) /\ effect (E:=E) m U m' U b.
Proof.
  revert m a. induction l as [|id l IH]; intros m a Hinv Hnd Hl; cbn [cancel_copies].
  { exists m, []. rewrite app_nil_r. split; [done|]. by apply effect_refl. }
  apply NoDup_cons in Hnd as [Hnin Hnd]. destruct (Hl id) as (r & Hget & Ht); [set_solver|].
  destruct (UnicastFacts.unicast_settle_effect m U id r (inr (from_send_failure Cancelled)) None [] Hinv Hget Ht) as (b & Hs & Heff).
  unfold Unicasts.cancel. rewrite Hget, Ht, Hs. cbn [mbind res_bind unwrap fst snd app].
  destruct (IH (FlatMap.remove m id).2 (a ++ b)) as (m' & b' & -> & Heff').
  { apply Heff. }
  { done. }
  { intros id' Hin. rewrite FlatMap.get_remove_ne by (intros <-; done). apply Hl. set_solver. }
  exists m', (b ++ b'). split; [by rewrite app_assoc|]. by eapply effect_trans.
Qed.

Lemma copies_of_spec (m : FlatMap.t Z (Unicasts.Rec F W)) broadcast :
  NoDup (Unicasts.copies_of m broadcast) /\
  forall id, id ∈ Unicasts.copies_of m broadcast <->
    exists r, FlatMap.get m id = Some r /\ Unicasts.copy_of r = Some broadcast.
Proof.
  unfold Unicasts.copies_of.
  destruct (selected_ids (fun e => if bool_decide (Unicasts.copy_of e.2 = Some broadcast) then Some (e.1, tt) else None) m) as [Hnd Hsel].
  { intros e y. destruct (bool_decide _); naive_solver. }
  assert ((omap (fun e => if bool_decide (Unicasts.copy_of e.2 = Some broadcast) then Some (e.1, tt) else None) (FlatMap.entries m)).*1 =
          omap (fun e => if bool_decide (Unicasts.copy_of e.2 = Some broadcast) then Some e.1 else None) (FlatMap.entries m)) as Heq.
  { clear. induction (FlatMap.entries m) as [|e l IHl]; [done|]. cbn [omap list_omap].
    destruct (bool_decide _); rewrite ?fmap_cons; by rewrite IHl. }
  rewrite Heq in *. split; [done|]. intros id. rewrite Hsel. cbn [fst snd].
  split; intros (r & Hget & Hc); exists r; (split; [done|]); revert Hc; case_bool_decide; try done.
Qed.

Lemma cancel_seffect s U B id :
  inv s U B -> exists o s', cancel s id = Ok (o, s') /\ seffect s U B s' U B (default [] o) /\ (o = None -> s' = s).
Proof.
  intros Hinv. unfold cancel. destruct (Unicasts.contains _ _) eqn:Hu; [|destruct (Unrouted.contains _ _) eqn:Hr].
  - destruct (UnicastFacts.unicast_cancel_effect (E:=E) (unicasts s) U id) as (o & m' & Hc & ? & Ho); [apply Hinv|]. rewrite Hc. cbn [mbind res_bind].
    do 2 eexists. split_and!; [done|by apply seffect_unicasts|]. intros ->. revert Hc. unfold Unicasts.cancel.
    destruct (FlatMap.get _ _); [destruct (Unicasts.is_transmitting_stage _)|]; [intros [= <-]; by destruct s| |intros [= <-]; by destruct s].
    by destruct (Unicasts.settle _ _ _ _ _) as [[? ?]| |].
  - destruct (Unrouted.unrouted_cancel_effect (E:=E) (unrouted_unicasts s) id) as (a & u & -> & ? & ?); [apply Hinv|by apply FlatMap.contains_key_get|].
    do 2 eexists. split_and!; [done|by apply seffect_unrouted|done].
  - unfold cancel_broadcast. destruct (copies_of_spec (unicasts s) id) as [Hnd Hcopies].
    destruct (any_transmitting_spec (unicasts s) (Unicasts.copies_of (unicasts s) id)) as (busy & -> & Hbusy).
    { intros id' (r & -> & _)%Hcopies. done. }
    cbn [mbind res_bind]. destruct busy; [do 2 eexists; split_and!; [done|by apply seffect_refl|done]|].
    destruct (BroadcastFacts.broadcast_cancel_effect (E:=E) (broadcasts s) B id) as (o & b & Hc & Heff & Ho); [apply Hinv|].
    rewrite Hc. cbn [mbind res_bind]. destruct o as [a|].
    + destruct (cancel_copies_effect (Unicasts.copies_of (unicasts s) id) (unicasts s) U a) as (m' & a' & -> & Heff'); [apply Hinv|done| |].
      { intros id' Hin. pose proof Hin as (r & Hget & _)%Hcopies. eauto. }
      cbn [mbind res_bind]. do 2 eexists. split_and!; [done| |done]. cbn [default].
      pose proof (seffect_broadcasts s U B b B a Hinv Heff) as S1.
      exact (seffect_trans _ _ _ _ _ _ _ _ _ _ _ S1 (seffect_unicasts _ U B m' U a' (se_inv _ _ _ _ _ _ _ S1) Heff')).
    + do 2 eexists. split_and!; [done|by apply seffect_broadcasts|]. intros _. revert Hc. unfold BroadcastSends.cancel.
      destruct (FlatMap.get _ _); [destruct (bool_decide _)|]; [intros [= <-]; by destruct s| |intros [= <-]; by destruct s].
      by destruct (BroadcastSends.settle _ _ _ _) as [[? ?]| |].
Qed.

(** ** What a cancel decides *)

(** The send that [id] names is live. *)
Definition live s id : Prop := in_unicasts s id \/ in_unrouted s id \/ in_broadcasts s id.

(** The records of the send [id]: its own and, of a broadcast, its copies for sleepy children. *)
Definition part_of s id (x : SendId) : Prop :=
  x = id \/ in_broadcasts s id /\ exists r, FlatMap.get (unicasts s) x = Some r /\ Unicasts.copy_of r = Some id.

(** The radio has the frame of the record [x]. *)
Definition radio_has s (x : SendId) : Prop :=
  (exists r, FlatMap.get (unicasts s) x = Some r /\ Unicasts.is_transmitting_stage (Unicasts.stage r) = true) \/
  (exists r, FlatMap.get (broadcasts s) x = Some r /\ BroadcastSends.copy r = BroadcastSends.Transmitting).

(** Every send that is settled is reported as cancelled. *)
Definition all_cancelled a : Prop :=
  Forall (fun act => match act with HandedOff _ => True | Settled _ result _ _ => result = inr (from_send_failure Cancelled) end) a.

Lemma unicast_cancel_inv (m m' : FlatMap.t Z (Unicasts.Rec F W)) id (o : option (Actions F W E)) :
  Unicasts.cancel m id = Ok (o, m') ->
  match o with
  | None => m' = m /\ forall r, FlatMap.get m id = Some r -> Unicasts.is_transmitting_stage (Unicasts.stage r) = true
  | Some a => m' = (FlatMap.remove m id).2 /\ all_cancelled a /\
      exists r, FlatMap.get m id = Some r /\ Unicasts.is_transmitting_stage (Unicasts.stage r) = false
  end.
Proof.
  unfold Unicasts.cancel. destruct (FlatMap.get m id) as [r|] eqn:Hget; [|by intros [= <- <-]].
  destruct (Unicasts.is_transmitting_stage _) eqn:Ht; [intros [= <- <-]; split; [done|]; by intros r' [= <-]|].
  unfold Unicasts.settle. rewrite (FlatMap.remove_pair m id), Hget. cbn [unwrap mbind res_bind]. destruct (Unicasts.frame r); [|done].
  cbn [unwrap mbind res_bind]. intros [= <- <-]. split; [done|]. split; [|by exists r]. unfold all_cancelled. by destruct (Unicasts.stage r); repeat constructor.
Qed.

Lemma broadcast_cancel_inv (m m' : FlatMap.t Z (BroadcastSends.Rec F W E)) id (o : option (Actions F W E)) :
  BroadcastSends.cancel m id = Ok (o, m') ->
  match o with
  | None => m' = m /\ forall r, FlatMap.get m id = Some r -> BroadcastSends.copy r = BroadcastSends.Transmitting
  | Some a => m' = (FlatMap.remove m id).2 /\ all_cancelled a /\
      exists r, FlatMap.get m id = Some r /\ BroadcastSends.copy r <> BroadcastSends.Transmitting
  end.
Proof.
  unfold BroadcastSends.cancel. destruct (FlatMap.get m id) as [r|] eqn:Hget; [|by intros [= <- <-]].
  case_bool_decide as Ht; [intros [= <- <-]; split; [done|]; by intros r' [= <-]|].
  unfold BroadcastSends.settle. rewrite (FlatMap.remove_pair m id), Hget. cbn [unwrap mbind res_bind]. destruct (BroadcastSends.frame r); [|done].
  cbn [unwrap mbind res_bind]. intros [= <- <-]. split; [done|]. split; [|by exists r]. unfold all_cancelled. by destruct (BroadcastSends.handed_off r); repeat constructor.
Qed.

Lemma any_transmitting_iff (m : FlatMap.t Z (Unicasts.Rec F W)) (l : list SendId) b :
  any_transmitting m l = Ok b ->
  if b then exists x r, x ∈ l /\ FlatMap.get m x = Some r /\ Unicasts.is_transmitting_stage (Unicasts.stage r) = true
  else forall x r, x ∈ l -> FlatMap.get m x = Some r -> Unicasts.is_transmitting_stage (Unicasts.stage r) = false.
Proof.
  revert b. induction l as [|x l IH]; intros b; cbn [any_transmitting]; [intros [= <-]; set_solver|].
  unfold Unicasts.is_transmitting. destruct (FlatMap.get m x) as [r|] eqn:Hget; [|done]. cbn [unwrap mbind res_bind].
  destruct (Unicasts.is_transmitting_stage _) eqn:Ht; [intros [= <-]; exists x, r; set_solver|]. intros Hb%IH. destruct b; [set_solver|].
  intros x' r' [->|Hin]%elem_of_cons Hget'; [by simplify_eq|by apply (Hb x')].
Qed.

Lemma cancel_copies_inv (l : list SendId) (m m' : FlatMap.t Z (Unicasts.Rec F W)) a a' :
  cancel_copies m l a = Ok (m', a') -> all_cancelled a ->
  all_cancelled a' /\ forall x, FlatMap.get m' x = if bool_decide (x ∈ l) then None else FlatMap.get m x.
Proof.
  revert m a. induction l as [|id l IH]; intros m a; cbn [cancel_copies]; [by intros [= <- <-]|].
  intros ([o m1] & Hc & Hk)%bind_ok Ha. destruct o as [b|]; [|done]. cbn [unwrap mbind res_bind fst snd] in Hk.
  apply unicast_cancel_inv in Hc as (-> & Hb & _). destruct (IH _ _ Hk) as [Ha' Hg]; [by apply Forall_app|]. split; [done|]. intros x.
  rewrite Hg. destruct (decide (x ∈ l)) as [Hx|Hx]; [by rewrite !bool_decide_true by set_solver|]. rewrite (bool_decide_false _ Hx).
  destruct (decide (x = id)) as [->|Hne]; [rewrite bool_decide_true by set_solver; by rewrite FlatMap.get_remove_eq|].
  rewrite bool_decide_false by set_solver. by apply FlatMap.get_remove_ne.
Qed.

(** The tables of [s'] are those of [s] without the records of the send [id]. *)
Definition taken_out s id s' : Prop := forall x,
  (part_of s id x -> ~ live s' x) /\
  (~ part_of s id x -> FlatMap.get (unicasts s') x = FlatMap.get (unicasts s) x /\
     FlatMap.get (Unrouted.records (unrouted_unicasts s')) x = FlatMap.get (Unrouted.records (unrouted_unicasts s)) x /\
     FlatMap.get (broadcasts s') x = FlatMap.get (broadcasts s) x).

(** A record is gone from a table, or was never in it. *)
Lemma get_removed {V} (m : FlatMap.t Z V) (id x : Z) : FlatMap.get (FlatMap.remove m id).2 x = if bool_decide (x = id) then None else FlatMap.get m x.
Proof. case_bool_decide as Hx; [subst; apply FlatMap.get_remove_eq|]. by apply FlatMap.get_remove_ne. Qed.

Lemma taken_out_alone s id s' :
  ~ in_broadcasts s id -> ~ live s' id ->
  (forall x, x <> id -> FlatMap.get (unicasts s') x = FlatMap.get (unicasts s) x /\
     FlatMap.get (Unrouted.records (unrouted_unicasts s')) x = FlatMap.get (Unrouted.records (unrouted_unicasts s)) x /\
     FlatMap.get (broadcasts s') x = FlatMap.get (broadcasts s) x) -> taken_out s id s'.
Proof.
  intros Hb Hl Hrest x. split; [by intros [->|[? _]]|]. intros Hp. apply Hrest. intros ->. apply Hp. by left.
Qed.

(** What a cancel of [id] that answers [o] and leaves [s'] must have decided. *)
Definition decided s id (o : option (Actions F W E)) s' : Prop :=
  match o with
  | None => (~ live s id \/ exists x, part_of s id x /\ radio_has s x) /\ s' = s
  | Some a => live s id /\ (forall x, part_of s id x -> ~ radio_has s x) /\ taken_out s id s' /\ all_cancelled a
  end.

(** The tables of a state that was put together from its parts. *)
Tactic Notation "tables" := cbn [unicasts unrouted_unicasts broadcasts set_unicasts set_unrouted Unrouted.records].
Tactic Notation "tables" "in" hyp(H) := unfold in_unicasts, in_unrouted, in_broadcasts in H; cbn [unicasts unrouted_unicasts broadcasts set_unicasts set_unrouted Unrouted.records] in H.
Tactic Notation "tables" "in" "*" := unfold in_unicasts, in_unrouted, in_broadcasts in *; cbn [unicasts unrouted_unicasts broadcasts set_unicasts set_unrouted Unrouted.records] in *.

Lemma cancel_unicast_decides s id o m :
  in_unicasts s id -> ~ in_unrouted s id -> ~ in_broadcasts s id -> Unicasts.cancel (unicasts s) id = Ok (o, m) ->
  decided s id o (set_unicasts s m).
Proof.
  intros [r Hget] Hr Hb Hc%unicast_cancel_inv. destruct o as [a|].
  - destruct Hc as (-> & Ha & r' & Hget' & Ht). simplify_eq. split_and!; [left; by exists r| | |done].
    + intros x [->|[? _]]; [|done]. intros [(r' & Hg & Ht')|(r' & Hg & _)]; [congruence|apply Hb; by exists r'].
    + apply taken_out_alone; [done| |].
      * intros [[? Hx]|[?|?]]; [|done..]. tables in Hx. by rewrite FlatMap.get_remove_eq in Hx.
      * intros x Hx. tables. by rewrite FlatMap.get_remove_ne by done.
  - destruct Hc as [-> Ht]. split; [|by destruct s]. right. exists id. split; [by left|]. left. exists r. auto.
Qed.

Lemma cancel_unrouted_decides s id a u :
  in_unrouted s id -> ~ in_unicasts s id -> ~ in_broadcasts s id -> Unrouted.cancel (unrouted_unicasts s) id = Ok (a, u) ->
  decided s id (Some a) (set_unrouted s u).
Proof.
  intros [r Hget] Hu Hb. unfold Unrouted.cancel. rewrite (FlatMap.remove_pair _ id), Hget. cbn [unwrap mbind res_bind]. intros Heq.
  assert (Unrouted.records u = (FlatMap.remove (Unrouted.records (unrouted_unicasts s)) id).2) as Hrec by by injection Heq as _ <-.
  injection Heq as <- _. split_and!; [right; left; by exists r| | |by repeat constructor].
  - intros x [->|[? _]]; [|done]. intros [(r' & Hg & _)|(r' & Hg & _)]; [apply Hu|apply Hb]; by exists r'.
  - apply taken_out_alone; [done| |].
    + intros [?|[[? Hx]|?]]; [done| |done]. tables in Hx. rewrite Hrec in Hx. by rewrite FlatMap.get_remove_eq in Hx.
    + intros x Hx. tables. by rewrite Hrec, FlatMap.get_remove_ne by done.
Qed.

Lemma cancel_broadcast_decides s id o s' :
  ~ in_unicasts s id -> ~ in_unrouted s id ->
  (forall x, ~ (in_unicasts s x /\ in_unrouted s x) /\ ~ (in_unicasts s x /\ in_broadcasts s x)) ->
  cancel_broadcast s id = Ok (o, s') -> decided s id o s'.
Proof.
  intros Hu Hr Hone. unfold cancel_broadcast. destruct (copies_of_spec (unicasts s) id) as [_ Hcopies].
  intros (busy & Hbusy%any_transmitting_iff & Hk)%bind_ok. destruct busy.
  { injection Hk as <- <-. split; [|done]. destruct Hbusy as (x & r & (r' & Hget' & Hcopy)%Hcopies & Hget & Ht). simplify_eq.
    destruct (FlatMap.get (broadcasts s) id) as [rb|] eqn:Hgb; [right; exists x; split; [right|left]; eauto|].
    - split; [by exists rb|eauto].
    - left. intros [?|[?|[? Hx]]]; [done..|]. congruence. }
  apply bind_ok in Hk as ([ob b] & Hc%broadcast_cancel_inv & Hk). destruct ob as [a|].
  - destruct Hc as (Hbr & Ha & rb & Hgb & Hcopy). apply bind_ok in Hk as ([m a'] & Hcc & [= <- <-]).
    destruct (cancel_copies_inv _ _ _ _ _ Hcc Ha) as [Ha' Hg]. assert (in_broadcasts s id) as Hin by by exists rb.
    split_and!; [by right; right| | |done].
    + intros x Hx [(r & Hget & Ht)|(r & Hget & Ht)].
      * destruct Hx as [->|(_ & r' & Hget' & Hc)]; [apply Hu; by exists r|].
        assert (x ∈ Unicasts.copies_of (unicasts s) id) as Hxc by (apply Hcopies; eauto). by rewrite (Hbusy x r Hxc Hget) in Ht.
      * destruct Hx as [->|(_ & r' & Hget' & Hc)]; [congruence|]. destruct (Hone x) as [_ Hub]. apply Hub. split; [by exists r'|by exists r].
    + intros x. split.
      * intros Hx Hl. destruct Hx as [->|(_ & r & Hget & Hcp)].
        -- destruct Hl as [[y Hy]|[?|[y Hy]]]; tables in *; [rewrite Hg in Hy; case_bool_decide; [done|apply Hu; by exists y]|done|by rewrite Hbr, FlatMap.get_remove_eq in Hy].
        -- assert (x ∈ Unicasts.copies_of (unicasts s) id) as Hxc by (apply Hcopies; eauto).
           destruct Hl as [[y Hy]|[Hy|[y Hy]]]; tables in *; [rewrite Hg, bool_decide_true in Hy by done; done| |].
           ++ destruct (Hone x) as [Hur _]. apply Hur. split; [by exists r|done].
           ++ rewrite Hbr, get_removed in Hy. case_bool_decide; [done|]. destruct (Hone x) as [_ Hub]. apply Hub. split; [by exists r|by exists y].
      * intros Hx. tables. assert (x <> id) as Hne by (intros ->; apply Hx; by left). rewrite Hg, Hbr, FlatMap.get_remove_ne, bool_decide_false; [done| |done].
        intros (r & Hget & Hcp)%Hcopies. apply Hx. right. eauto.
  - destruct Hc as [-> Ht]. injection Hk as <- <-. split; [|by destruct s]. destruct (FlatMap.get (broadcasts s) id) as [rb|] eqn:Hgb.
    + right. exists id. split; [by left|]. right. exists rb. auto.
    + left. intros [?|[?|[y Hy]]]; [done..|]. congruence.
Qed.

Lemma cancel_decides s U B id o s' : inv s U B -> cancel s id = Ok (o, s') -> decided s id o s'.
Proof.
  intros [_ _ _ _ Hone]. destruct (Hone id) as (H1 & H2 & H3). unfold cancel.
  destruct (Unicasts.contains _ _) eqn:Hu; [|destruct (Unrouted.contains _ _) eqn:Hr].
  - apply FlatMap.contains_key_get in Hu. intros ([o1 m] & Hc & [= <- <-])%bind_ok. apply cancel_unicast_decides; naive_solver.
  - apply FlatMap.contains_key_get in Hr. apply FlatMap.contains_key_false in Hu. intros ([a u] & Hc & [= <- <-])%bind_ok.
    apply cancel_unrouted_decides; [done|intros [? Hx]; congruence|naive_solver|done].
  - apply FlatMap.contains_key_false in Hu. apply FlatMap.contains_key_false in Hr.
    apply cancel_broadcast_decides; [intros [? Hx]; congruence|intros [? Hx]; congruence|]. intros x. destruct (Hone x) as (? & ? & _). done.
Qed.

(** ** The timer *)
Lemma tick_seffect s U B now :
  inv s U B -> exists s' a, tick s now = Ok (s', a) /\ seffect s U B s' U B a.
Proof.
  intros Hinv. unfold tick.
  destruct (UnicastFacts.unicast_tick_effect (E:=E) (unicasts s) U now) as (m & a1 & -> & H1 & _); [apply Hinv|].
  destruct (Unrouted.unrouted_tick_effect (E:=E) (unrouted_unicasts s) now) as (u & a2 & -> & Hu & H2 & _); [apply Hinv|].
  destruct (BroadcastFacts.broadcast_tick_effect (E:=E) (broadcasts s) B now) as (b & a3 & -> & H3 & _); [apply Hinv|].
  cbn [mbind res_bind]. do 2 eexists. split; [done|].
  pose proof (seffect_unicasts s U B m U a1 Hinv H1) as S1.
  pose proof (seffect_unrouted _ U B u a2 (se_inv _ _ _ _ _ _ _ S1) Hu H2) as S2.
  pose proof (seffect_broadcasts _ U B b B a3 (se_inv _ _ _ _ _ _ _ S2) H3) as S3.
  exact (seffect_trans _ _ _ _ _ _ _ _ _ _ _ S1 (seffect_trans _ _ _ _ _ _ _ _ _ _ _ S2 S3)).
Qed.

Definition all_quiet now s : Prop :=
  quiet now (unicasts s) /\ quiet now (Unrouted.records (unrouted_unicasts s)) /\ quiet now (broadcasts s).

Lemma next_wake_quiet now s :
  all_quiet now s <-> match next_wake s with None => True | Some t => now < t end.
Proof.
  unfold all_quiet, next_wake. rewrite !quiet_next_wake, Unrouted.next_wake_table.
  change (Unicasts.next_wake (unicasts s)) with (table_next_wake (unicasts s)).
  change (BroadcastSends.next_wake (broadcasts s)) with (table_next_wake (broadcasts s)).
  destruct (table_next_wake (unicasts s)), (table_next_wake (Unrouted.records _)), (table_next_wake (broadcasts s)); cbn; lia.
Qed.

Lemma tick_all_quiet s U B now s' a : inv s U B -> tick s now = Ok (s', a) -> all_quiet now s'.
Proof.
  intros Hinv Ht. unfold tick in Ht. apply bind_ok in Ht as ([m a1] & H1 & Ht).
  apply bind_ok in Ht as ([u a2] & H2 & Ht). apply bind_ok in Ht as ([b a3] & H3 & Ht). injection Ht as <- _.
  split_and!; cbn.
  - eapply UnicastFacts.unicast_tick_quiet; [apply Hinv|exact H1].
  - eapply Unrouted.unrouted_tick_quiet; [apply Hinv|exact H2].
  - eapply BroadcastFacts.broadcast_tick_quiet; [apply Hinv|exact H3].
Qed.

Lemma tick_when_quiet s U B now : inv s U B -> all_quiet now s -> tick s now = Ok (s, []).
Proof.
  intros Hinv (H1 & H2 & H3). unfold tick.
  rewrite (UnicastFacts.unicast_tick_idle (unicasts s) U now (inv_unicasts _ _ _ Hinv) H1), (Unrouted.unrouted_tick_idle _ now H2),
    (BroadcastFacts.broadcast_tick_idle _ now H3). by destruct s.
Qed.

Lemma sends_abandon_spec s : abandon s = (waiters s, mk (next_id s) FlatMap.new Unrouted.new FlatMap.new).
Proof.
  unfold abandon. rewrite UnicastFacts.unicast_abandon_spec, Unrouted.unrouted_abandon_spec, BroadcastFacts.broadcast_abandon_spec. done.
Qed.
End Facts.
End SendsFacts.
