(* ===== verification/SendsTheorems.v ===== *)
(** * What the send tables guarantee their driver

    Theorems about every reachable world ([Sends.reachable]): any sequence of calls a driver may
    make, in any order and with any results, from the empty tables. *)

From S2P Require Import Prelude Flat Types Constants SendTypes SendTable.
From S2P Require Import Unicasts UnicastFacts Unrouted BroadcastSends BroadcastFacts Sends SendsFacts.

Module SendsTheorems.
Import Sends SendsFacts.

Section Worlds.
Context {F W E C : Type} `{FromSendFailure E}.
Implicit Types (w : world F W E) (op : Op F W E C) (loans : list (InFlight F)).

(** The ids on loan from the unicasts ([true]) or from the broadcasts ([false]). *)
Definition loan_set (b : bool) loans : gset Z :=
  list_to_set (in_flight_id <$> filter (fun f => is_unicast_loan f = b) loans).

Lemma elem_of_loan_set b loans id :
  id ∈ loan_set b loans <-> exists f, f ∈ loans /\ is_unicast_loan f = b /\ in_flight_id f = id.
Proof.
  unfold loan_set. rewrite elem_of_list_to_set, list_elem_of_fmap. setoid_rewrite list_elem_of_filter. naive_solver.
Qed.

Record world_inv w : Prop := mkWorldInv {
  wi_inv : inv (w_sends w) (loan_set true (w_loans w)) (loan_set false (w_loans w));
  wi_loans : NoDup (in_flight_id <$> w_loans w);
  wi_waiters : w_admitted w ≡ₚ w_reported w ++ waiters (w_sends w)
}.

Lemma world_inv_init : world_inv init.
Proof. split; [apply sends_inv_new|constructor|done]. Qed.

(** A call that neither lends nor admits. *)
Lemma world_inv_quiet w s' a :
  world_inv w ->
  seffect (w_sends w) (loan_set true (w_loans w)) (loan_set false (w_loans w)) s'
          (loan_set true (w_loans w)) (loan_set false (w_loans w)) a ->
  world_inv (mkWorld s' (w_loans w) (w_admitted w ++ []) (w_reported w ++ settled_waiters a ++ [])).
Proof.
  intros [Hi Hl Hw] [Hi' Hw' _]. split; cbn; [done..|].
  rewrite !app_nil_r, Hw, Hw'. by rewrite <- app_assoc.
Qed.

Lemma world_inv_admits w s' ws :
  world_inv w -> admits (w_sends w) (loan_set true (w_loans w)) (loan_set false (w_loans w)) s' ws ->
  world_inv (mkWorld s' (w_loans w) (w_admitted w ++ ws) (w_reported w ++ [] ++ [])).
Proof.
  intros [Hi Hl Hw] (Hi' & Hw' & _). split; cbn; [done..|]. rewrite !app_nil_r, Hw, Hw'. solve_Permutation.
Qed.

(** Lending a frame that was not on loan. *)
Lemma world_inv_lend w s' (f : InFlight F) :
  world_inv w ->
  (in_flight_id f ∉ loan_set true (w_loans w)) -> (in_flight_id f ∉ loan_set false (w_loans w)) ->
  (if is_unicast_loan f
   then seffect (w_sends w) (loan_set true (w_loans w)) (loan_set false (w_loans w)) s'
          ({[in_flight_id f]} ∪ loan_set true (w_loans w)) (loan_set false (w_loans w)) []
   else seffect (w_sends w) (loan_set true (w_loans w)) (loan_set false (w_loans w)) s'
          (loan_set true (w_loans w)) ({[in_flight_id f]} ∪ loan_set false (w_loans w)) []) ->
  world_inv (mkWorld s' (f :: w_loans w) (w_admitted w ++ []) (w_reported w ++ [] ++ [])).
Proof.
  intros [Hi Hl Hw] Hn1 Hn2 Hs.
  assert (loan_set (is_unicast_loan f) (f :: w_loans w) = {[in_flight_id f]} ∪ loan_set (is_unicast_loan f) (w_loans w)) as Hin.
  { apply set_eq. intros id. rewrite elem_of_union, !elem_of_loan_set, elem_of_singleton. setoid_rewrite elem_of_cons. naive_solver. }
  assert (loan_set (negb (is_unicast_loan f)) (f :: w_loans w) = loan_set (negb (is_unicast_loan f)) (w_loans w)) as Hout.
  { apply set_eq. intros id. rewrite !elem_of_loan_set. setoid_rewrite elem_of_cons.
    split; [|naive_solver]. intros (g & [->|?] & Hg & ?); [by destruct (is_unicast_loan f)|eauto]. }
  split; cbn [w_sends w_loans w_admitted w_reported].
  - destruct (is_unicast_loan f); cbn [negb] in Hin, Hout; rewrite Hin, Hout; apply Hs.
  - constructor; [|done]. intros (g & Heq & Hg)%list_elem_of_fmap.
    destruct (is_unicast_loan g) eqn:Hk; [apply Hn1|apply Hn2]; apply elem_of_loan_set; eauto.
  - rewrite !app_nil_r, Hw. destruct (is_unicast_loan f); by rewrite (se_waiters _ _ _ _ _ _ _ Hs).
Qed.

Lemma loans_same_id loans (f g : InFlight F) :
  NoDup (in_flight_id <$> loans) -> f ∈ loans -> g ∈ loans -> in_flight_id f = in_flight_id g -> f = g.
Proof.
  intros Hnd (i & Hi)%list_elem_of_lookup (j & Hj)%list_elem_of_lookup Heq.
  assert (i = j) as <-; [|congruence].
  eapply (NoDup_lookup _ _ _ (in_flight_id f) Hnd); rewrite list_lookup_fmap; [by rewrite Hi|by rewrite Hj, Heq].
Qed.

(** A report returns the loan. *)
Lemma world_inv_return w s' (f : InFlight F) a :
  world_inv w -> (exists g, g ∈ w_loans w /\ same_loan f g) ->
  (if is_unicast_loan f
   then seffect (w_sends w) (loan_set true (w_loans w)) (loan_set false (w_loans w)) s'
          (loan_set true (w_loans w) ∖ {[in_flight_id f]}) (loan_set false (w_loans w)) a
   else seffect (w_sends w) (loan_set true (w_loans w)) (loan_set false (w_loans w)) s'
          (loan_set true (w_loans w)) (loan_set false (w_loans w) ∖ {[in_flight_id f]}) a) ->
  world_inv (mkWorld s' (filter (fun g => in_flight_id g <> in_flight_id f) (w_loans w))
               (w_admitted w ++ []) (w_reported w ++ settled_waiters a ++ [])).
Proof.
  intros [Hi Hl Hw] (g & Hg & Hid & Htx) Hs.
  set (rest := filter (fun g => in_flight_id g <> in_flight_id f) (w_loans w)).
  assert (is_unicast_loan g = is_unicast_loan f) as Hk by (unfold is_unicast_loan; by rewrite Htx).
  assert (loan_set (is_unicast_loan f) rest = loan_set (is_unicast_loan f) (w_loans w) ∖ {[in_flight_id f]}) as Hin.
  { apply set_eq. intros id. unfold rest. rewrite elem_of_difference, !elem_of_loan_set, elem_of_singleton.
    setoid_rewrite list_elem_of_filter. naive_solver. }
  assert (loan_set (negb (is_unicast_loan f)) rest = loan_set (negb (is_unicast_loan f)) (w_loans w)) as Hout.
  { apply set_eq. intros id. unfold rest. rewrite !elem_of_loan_set. setoid_rewrite list_elem_of_filter. split; [naive_solver|].
    intros (h & Hh & Hkh & <-). exists h. split_and!; try done. intros Heq.
    assert (h = g) as -> by (eapply loans_same_id; [done..|congruence]). rewrite Hk in Hkh. by destruct (is_unicast_loan f). }
  split; cbn [w_sends w_loans w_admitted w_reported]; fold rest.
  - destruct (is_unicast_loan f); cbn [negb] in Hin, Hout; rewrite Hin, Hout; apply Hs.
  - eapply sublist_NoDup; [exact Hl|]. apply fmap_sublist, sublist_filter.
  - rewrite !app_nil_r, Hw. destruct (is_unicast_loan f); rewrite (se_waiters _ _ _ _ _ _ _ Hs); by rewrite <- app_assoc.
Qed.

(** Every call the contract allows returns, and keeps the invariant. *)
Lemma exec_spec w op :
  world_inv w -> allowed w op ->
  exists s out, exec (w_sends w) op = Ok (s, out) /\ world_inv (world_after w op s out).
Proof.
  intros Hwi. pose proof (wi_inv w Hwi) as Hinv. destruct op; cbn [allowed exec]; intros Hallow.
  - unfold enqueue_unicast. rewrite take_id_spec by done. do 2 eexists. split; [done|].
    apply world_inv_admits; [done|]. exact (admit_unicast (w_sends w) _ _ u now None tunables Hinv).
  - unfold enqueue_broadcast_copy. rewrite take_id_spec by done. do 2 eexists. split; [done|].
    apply world_inv_admits; [done|]. exact (admit_unicast (w_sends w) _ _ u now (Some broadcast) tunables Hinv).
  - unfold enqueue_unrouted_unicast. rewrite take_id_spec by done. do 2 eexists. split; [done|].
    apply world_inv_admits; [done|]. exact (admit_unrouted (w_sends w) _ _ u now tunables Hinv).
  - destruct Hallow as [Hn Hs]. unfold enqueue_broadcast. rewrite take_id_spec by done. do 2 eexists. split; [done|].
    apply world_inv_admits; [done|]. exact (admit_broadcast (w_sends w) _ _ b now tunables Hinv Hs).
  - destruct (dequeue_spec (w_sends w) _ _ now Hinv) as (o & s' & -> & Ho). do 2 eexists. split; [done|].
    destruct o as [f|]; [destruct Ho as (_ & ? & ? & ?); by apply world_inv_lend|].
    destruct Ho as [-> _]. by apply (world_inv_quiet w _ []), seffect_refl.
  - destruct (transmitted_seffect (w_sends w) _ _ in_flight result now retry_delay interval Hinv) as (s' & a & -> & Hs).
    { destruct Hallow as (g & Hg & Hid & Htx).
      assert (in_flight_id in_flight ∈ loan_set (is_unicast_loan in_flight) (w_loans w)) as Hin.
      { apply elem_of_loan_set. exists g. unfold is_unicast_loan. by rewrite Htx, Hid. }
      by destruct (is_unicast_loan in_flight). }
    do 2 eexists. split; [done|]. by apply world_inv_return.
  - do 2 eexists. split; [done|]. apply (world_inv_quiet w _ []); [done|].
    unfold poll. pose proof (UnicastFacts.poll_effect (E:=E) (unicasts (w_sends w)) _ eui64 nwk now (inv_unicasts _ _ _ Hinv)) as Hp.
    destruct (Unicasts.poll _ _ _ _). by apply seffect_unicasts.
  - unfold aps_ack_received.
    destruct (UnicastFacts.ack_received_effect (E:=E) (unicasts (w_sends w)) _ ack (inv_unicasts _ _ _ Hinv)) as (m & a & -> & Ha).
    do 2 eexists. split; [done|]. apply world_inv_quiet; [done|]. by apply seffect_unicasts.
  - unfold retry_discovery.
    destruct (Unrouted.retry_discovery_spec (unrouted_unicasts (w_sends w)) destination) as (b & u & -> & Hu & Hr & _); [apply Hinv|done|].
    do 2 eexists. split; [done|]. apply (world_inv_quiet w _ []); [done|]. apply seffect_unrouted; [done..|].
    rewrite Hr. apply effect_refl, Hinv.
  - unfold fail_unrouted.
    destruct (Unrouted.fail_effect (E:=E) (unrouted_unicasts (w_sends w)) destination) as (u & a & -> & Hu & Ha); [apply Hinv|].
    do 2 eexists. split; [done|]. apply world_inv_quiet; [done|]. by apply seffect_unrouted.
  - destruct (route_seffect resolve (w_sends w) _ _ destination now tunables c Hinv) as (c' & s' & a & -> & Hs).
    do 2 eexists. split; [done|]. by apply world_inv_quiet.
  - unfold broadcast_delivered.
    destruct (BroadcastFacts.delivered_effect (E:=E) (broadcasts (w_sends w)) _ key (inv_broadcasts _ _ _ Hinv)) as (m & a & -> & Ha).
    do 2 eexists. split; [done|]. apply world_inv_quiet; [done|]. by apply seffect_broadcasts.
  - unfold drop_indirect_unicasts.
    destruct (UnicastFacts.drop_indirect_effect (E:=E) (unicasts (w_sends w)) _ eui64 nwk (inv_unicasts _ _ _ Hinv)) as (m & a & -> & Ha).
    do 2 eexists. split; [done|]. apply world_inv_quiet; [done|]. by apply seffect_unicasts.
  - destruct (cancel_seffect (w_sends w) _ _ id Hinv) as (o & s' & -> & Hs & _).
    do 2 eexists. split; [done|]. by apply world_inv_quiet.
  - destruct (tick_seffect (w_sends w) _ _ now Hinv) as (s' & a & -> & Hs).
    do 2 eexists. split; [done|]. by apply world_inv_quiet.
  - rewrite sends_abandon_spec. do 2 eexists. split; [done|]. split; cbn.
    + destruct (sends_inv_new (F:=F) (W:=W) (E:=E)) as [? ? ? Hf Ho]. split; [done..| |exact Ho]. intros id [[]|[[]|[]]]; done.
    + constructor.
    + rewrite !app_nil_r. by rewrite (wi_waiters w Hwi).
Qed.

Lemma world_reachable_inv w : reachable (C:=C) w -> world_inv w.
Proof.
  induction 1 as [|w op s out Hreach IH Hallow Hexec]; [apply world_inv_init|].
  destruct (exec_spec w op IH Hallow) as (s' & out' & Hexec' & Hinv). rewrite Hexec in Hexec'. by simplify_eq.
Qed.

(** One call made by a driver that keeps to the contract. *)
Definition after w op : world F W E :=
  match exec (w_sends w) op with Ok (s, out) => world_after w op s out | _ => w end.

Lemma reachable_after w op : reachable (C:=C) w -> allowed w op -> reachable (C:=C) (after w op).
Proof.
  intros Hr Ha. unfold after. destruct (exec (w_sends w) op) as [[s out]|[]|] eqn:He; [|done]. by eapply reachable_step.
Qed.

(** ** The theorems *)

(** No call of a driver that keeps to the contract panics: in every reachable world, every
    allowed call (report, tick, cancel, route, ...) returns. In particular the [unwrap]s and
    [expect]s of the three tables never fire and no send in the radio is settled behind the
    sender's back. *)
Lemma sends_never_panic w op :
  reachable (C:=C) w -> allowed w op -> exists s out, exec (w_sends w) op = Ok (s, out).
Proof.
  intros Hr Ha. destruct (exec_spec w op (world_reachable_inv w Hr) Ha) as (s & out & He & _). eauto.
Qed.

(** C9: every admitted send is reported exactly once: the admitted waiters are, up to order, the
    ones already settled (or returned by [abandon]) together with the ones still live in a table,
    so no send is lost and none is settled twice. *)
Theorem every_send_settled_once w :
  reachable (C:=C) w -> w_admitted w ≡ₚ w_reported w ++ waiters (w_sends w).
Proof. intros Hr. apply (wi_waiters w (world_reachable_inv w Hr)). Qed.

(** The frames the driver holds are exactly the records in the radio: each loan's record is
    [Transmitting] in the table its transmit kind names, every transmitting record is on loan, and
    no record is lent twice. *)
Lemma loans_are_transmitting w :
  reachable (C:=C) w ->
  NoDup (in_flight_id <$> w_loans w) /\
  (forall id, (exists r, FlatMap.get (unicasts (w_sends w)) id = Some r /\
                 Unicasts.is_transmitting_stage (Unicasts.stage r) = true) <->
              exists f, f ∈ w_loans w /\ is_unicast_loan f = true /\ in_flight_id f = id) /\
  (forall id, (exists r, FlatMap.get (broadcasts (w_sends w)) id = Some r /\
                 BroadcastSends.copy r = BroadcastSends.Transmitting) <->
              exists f, f ∈ w_loans w /\ is_unicast_loan f = false /\ in_flight_id f = id).
Proof.
  intros Hr. destruct (world_reachable_inv w Hr) as [Hi Hl _]. split_and!; [done|..]; intros id.
  - rewrite <- elem_of_loan_set. symmetry. apply (proj2 (inv_unicasts _ _ _ Hi) id).
  - rewrite <- elem_of_loan_set, (proj2 (inv_broadcasts _ _ _ Hi) id). unfold in_radio. cbn.
    by setoid_rewrite bool_decide_eq_true.
Qed.

(** C14: the sender is handed the right frame: [dequeue] lends a ready send no other ready send
    precedes (higher priority first, then the lower id), across both tables; it lends nothing only
    when nothing is ready. *)
Theorem dequeue_best_ready w now :
  reachable (C:=C) w ->
  match dequeue (w_sends w) now with
  | Ok (None, s') => s' = w_sends w /\ forall id p, ~ ready (w_sends w) now id p
  | Ok (Some f, _) =>
      exists p, ready (w_sends w) now (in_flight_id f) p /\
        forall id' p', ready (w_sends w) now id' p' ->
          TxPriority.rank p' < TxPriority.rank p \/
          (TxPriority.rank p' = TxPriority.rank p /\ in_flight_id f <= id')
  | Err _ | Panic => False
  end.
Proof.
  intros Hr. destruct (dequeue_spec (w_sends w) _ _ now (wi_inv w (world_reachable_inv w Hr))) as (o & s' & -> & Ho).
  destruct o as [f|]; [|done]. destruct Ho as ((p & Hready & Hbest) & _). exists p. split; [done|].
  intros id' p' Hr'. by apply Hbest, sched_le_iff in Hr'.
Qed.

(** C10: the timer contract. After [tick now] the next wake is strictly later than [now], so a
    driver that sleeps until [next_wake] makes progress; and a tick before [next_wake] changes
    nothing and reports nothing, so sleeping that long misses nothing. *)
Theorem timer_contract w now :
  reachable (C:=C) w ->
  (forall s a t, tick (w_sends w) now = Ok (s, a) -> next_wake s = Some t -> now < t) /\
  (match next_wake (w_sends w) with None => True | Some t => now < t end -> tick (w_sends w) now = Ok (w_sends w, [])).
Proof.
  intros Hr. pose proof (wi_inv w (world_reachable_inv w Hr)) as Hinv. split.
  - intros s a t Ht Hn. eapply tick_all_quiet, next_wake_quiet in Ht; [|exact Hinv]. by rewrite Hn in Ht.
  - intros Hq%next_wake_quiet. by eapply tick_when_quiet.
Qed.

(** The latest deadline of a table. *)
Lemma deadline_bound {R} `{!SendRecord F W R} (m : FlatMap.t Z R) :
  exists T, forall id r, FlatMap.get m id = Some r -> rec_deadline r <= T.
Proof.
  assert (exists T, forall r, r ∈ FlatMap.values m -> rec_deadline r <= T) as [T HT].
  { induction (FlatMap.values m) as [|r l [T IH]]; [exists 0; set_solver|].
    exists (Z.max (rec_deadline r) T). intros r' [->|Hin]%elem_of_cons; [lia|]. specialize (IH r' Hin). lia. }
  exists T. intros id r Hget. apply HT, FlatMap.elem_of_values. eauto.
Qed.

Lemma empty_table {R} `{!SendRecord F W R} (m : FlatMap.t Z R) :
  (forall id, FlatMap.get m id = None) -> table_waiters m = [].
Proof. intros Hn. by rewrite (FlatMap.flat_map_eq m FlatMap.new) by done. Qed.

(** C13: no send can be stranded: once the radio holds nothing, there is an instant from which a
    single tick settles every live send. *)
Theorem no_send_stranded w :
  reachable (C:=C) w -> w_loans w = [] ->
  exists T, forall now, T <= now -> exists s a,
    tick (w_sends w) now = Ok (s, a) /\ waiters s = [] /\ settled_waiters a ≡ₚ waiters (w_sends w).
Proof.
  intros Hr Hl. pose proof (wi_inv w (world_reachable_inv w Hr)) as Hinv. rewrite Hl in Hinv.
  destruct (deadline_bound (unicasts (w_sends w))) as [T1 H1].
  destruct (deadline_bound (Unrouted.records (unrouted_unicasts (w_sends w)))) as [T2 H2].
  destruct (deadline_bound (broadcasts (w_sends w))) as [T3 H3].
  exists (Z.max T1 (Z.max T2 T3)). intros now Hnow.
  destruct (tick_seffect (w_sends w) _ _ now Hinv) as (s & a & Ht & Hs). exists s, a. split; [done|].
  assert (waiters s = []) as Hw.
  { unfold tick in Ht. apply bind_ok in Ht as ([m a1] & Hm & Ht).
    apply bind_ok in Ht as ([u a2] & Hu & Ht). apply bind_ok in Ht as ([b a3] & Hb & Ht). injection Ht as <- _.
    unfold waiters. cbn [unicasts unrouted_unicasts broadcasts]. rewrite !empty_table; [done|..].
    - intros id. destruct (BroadcastFacts.broadcast_tick_effect (E:=E) (broadcasts (w_sends w)) _ now (inv_broadcasts _ _ _ Hinv)) as (? & ? & Hb' & _ & Hget).
      rewrite Hb in Hb'. simplify_eq. rewrite Hget. destruct (FlatMap.get _ id) as [r|] eqn:Hr'; [|done].
      destruct (BroadcastFacts.tick_record_spec now id r) as (o & Ho & (_ & _ & _ & _ & Hd & _)); [by apply (proj1 (inv_broadcasts _ _ _ Hinv))|].
      unfold BroadcastFacts.ends. rewrite Ho. specialize (H3 _ _ Hr'). cbn in H3.
      destruct Hd as [v ->]; [|lia|done]. intros Hc.
      assert (id ∈ (loan_set false [] : gset Z)) as Hin; [|set_solver].
      apply (proj2 (inv_broadcasts _ _ _ Hinv) id). exists r. cbn. by rewrite bool_decide_true.
    - intros id. destruct (Unrouted.unrouted_tick_effect (E:=E) (unrouted_unicasts (w_sends w)) now (inv_unrouted _ _ _ Hinv)) as (? & ? & Hu' & _ & _ & _ & Hget).
      rewrite Hu in Hu'. simplify_eq. rewrite Hget. destruct (FlatMap.get _ id) as [r|] eqn:Hr'; [|done].
      specialize (H2 _ _ Hr'). cbn in H2. by rewrite bool_decide_true by lia.
    - intros id. destruct (UnicastFacts.unicast_tick_effect (E:=E) (unicasts (w_sends w)) _ now (inv_unicasts _ _ _ Hinv)) as (? & ? & Hm' & _ & Hget).
      rewrite Hm in Hm'. simplify_eq. rewrite Hget. destruct (FlatMap.get _ id) as [r|] eqn:Hr'; [|done].
      specialize (H1 _ _ Hr'). cbn in H1. rewrite bool_decide_true by lia.
      destruct (Unicasts.is_transmitting_stage _) eqn:Hst; [|done]. exfalso.
      assert (id ∈ (loan_set true [] : gset Z)) as Hin; [|set_solver].
      apply (proj2 (inv_unicasts _ _ _ Hinv) id). by exists r. }
  split; [done|]. by rewrite (se_waiters _ _ _ _ _ _ _ Hs), Hw, app_nil_r.
Qed.

(** One id space: a live id is in exactly one table, and every live id is older than the next
    one to be allocated, so ids are never reused and order sends by admission. *)
Lemma ids_unique w id :
  reachable (C:=C) w ->
  (in_unicasts (w_sends w) id \/ in_unrouted (w_sends w) id \/ in_broadcasts (w_sends w) id -> id < next_id (w_sends w)) /\
  ~ (in_unicasts (w_sends w) id /\ in_unrouted (w_sends w) id) /\
  ~ (in_unicasts (w_sends w) id /\ in_broadcasts (w_sends w) id) /\
  ~ (in_unrouted (w_sends w) id /\ in_broadcasts (w_sends w) id).
Proof.
  intros Hr. pose proof (wi_inv w (world_reachable_inv w Hr)) as [_ _ _ Hf Ho]. split; [apply Hf|apply Ho].
Qed.

(** C15: cancelling takes exactly one send, or nothing. In every reachable world a cancel returns. It
    answers nothing, and leaves the tables as they were, exactly when the id is not that of a live
    send, or the radio has the frame of the send or of one of its copies (a broadcast has copies for
    sleepy children). Otherwise the records of that send, its copies included, leave the tables and
    every other record stays as it was; the waiters it settles are exactly those that leave, and each
    is told that its send was cancelled. *)
Theorem cancel_all_or_nothing w id :
  reachable (C:=C) w ->
  exists o s, cancel (w_sends w) id = Ok (o, s) /\
    (o = None <-> ~ live (w_sends w) id \/ exists x, part_of (w_sends w) id x /\ radio_has (w_sends w) x) /\
    match o with
    | None => s = w_sends w
    | Some a => taken_out (w_sends w) id s /\ all_cancelled a /\ waiters (w_sends w) ≡ₚ settled_waiters a ++ waiters s
    end.
Proof.
  intros Hr. pose proof (wi_inv w (world_reachable_inv w Hr)) as Hinv. destruct (cancel_seffect (w_sends w) _ _ id Hinv) as (o & s & Hc & Hs & _).
  exists o, s. split; [done|]. pose proof (cancel_decides _ _ _ _ _ _ Hinv Hc) as Hd. destruct o as [a|].
  - destruct Hd as (Hl & Hradio & Ht & Ha). split; [|split_and!; [done..|apply Hs]]. split; [done|]. intros [?|(x & Hx & Hin)]; [done|]. by destruct (Hradio x Hx).
  - by destruct Hd as [Hwhy ->].
Qed.
End Worlds.

(** ** A concrete driver

    Frames and waiters are numbers and the driver's error is the failure itself. The world has one
    unicast in the radio (an unacknowledged data frame to 0x1234), one broadcast queued behind it,
    and one unrouted send. *)
Section Example.
#[local] Instance failure_is_error : FromSendFailure SendFailure := fun f => f.

Definition ex_op := Op Z Z SendFailure unit.
Definition ex_unicast : Unicasts.Unicast Z Z := Unicasts.mkUnicast 10 UserNormal 100 OnHandoff 0x1234 None.
Definition ex_unrouted : Unrouted.UnroutedUnicast Z Z := Unrouted.mkUnroutedUnicast 11 UserNormal 101 OnHandoff 0x5678.
Definition ex_broadcast : BroadcastSends.Broadcast Z Z :=
  BroadcastSends.mkBroadcast 12 Background 102 BroadcastSends.Once.
Definition ex_ops : list ex_op :=
  [EnqueueUnicast ex_unicast 1000 Tunables.default; EnqueueUnrouted ex_unrouted 1000 Tunables.default;
   EnqueueBroadcast ex_broadcast 2000 Tunables.default; Dequeue 3000].
Definition ex_world : world Z Z SendFailure := fold_left after ex_ops init.
Definition ex_loan : InFlight Z := mkInFlight 0 10 (TxUnicast 0x1234 false).
(** The same world without the loan. *)
Definition ex_idle : world Z Z SendFailure := fold_left after (take 3 ex_ops) init.

Lemma ex_idle_reachable : reachable (C:=unit) ex_idle.
Proof.
  unfold ex_idle. cbn [fold_left take ex_ops].
  apply reachable_after; [apply reachable_after; [apply reachable_after; [apply reachable_init|]|]|].
  - reflexivity.
  - vm_compute. reflexivity.
  - split; [vm_compute; reflexivity|by left].
Qed.

Lemma ex_world_reachable : reachable (C:=unit) ex_world.
Proof. change ex_world with (after ex_idle (Dequeue (C:=unit) 3000)). apply reachable_after; [apply ex_idle_reachable|done]. Qed.

Lemma sends_never_panic_witness :
  exists s out, exec (w_sends ex_world) (Transmitted ex_loan (inr HandoffTimeout) 4000 100 100 : ex_op) = Ok (s, out).
Proof.
  apply sends_never_panic; [exact ex_world_reachable|]. exists ex_loan. split; [|done].
  vm_compute. left.
Defined.

Lemma every_send_settled_once_witness : [100; 101; 102] ≡ₚ [] ++ waiters (w_sends ex_world).
Proof. exact (every_send_settled_once (C:=unit) ex_world ex_world_reachable). Defined.

Lemma loans_are_transmitting_witness : exists r, FlatMap.get (unicasts (w_sends ex_world)) 0 = Some r /\
  Unicasts.is_transmitting_stage (Unicasts.stage r) = true.
Proof.
  apply (proj1 (proj2 (loans_are_transmitting (C:=unit) ex_world ex_world_reachable)) 0).
  exists ex_loan. split; [vm_compute; left|done].
Defined.

Lemma dequeue_best_ready_witness :
  exists f s p, dequeue (w_sends ex_idle) 3000 = Ok (Some f, s) /\ ready (w_sends ex_idle) 3000 (in_flight_id f) p.
Proof.
  pose proof (dequeue_best_ready (C:=unit) ex_idle 3000 ex_idle_reachable) as Hd.
  destruct (dequeue (w_sends ex_idle) 3000) as [[[f|] s]|e|] eqn:He.
  - destruct Hd as (p & Hp & _). exists f, s, p. done.
  - vm_compute in He. discriminate.
  - destruct e.
  - destruct Hd.
Defined.

Lemma timer_contract_witness :
  next_wake (w_sends ex_world) <> None /\ tick (w_sends ex_world) 5000 = Ok (w_sends ex_world, []).
Proof.
  split; [vm_compute; discriminate|].
  apply (timer_contract (C:=unit) ex_world 5000 ex_world_reachable). vm_compute. reflexivity.
Defined.

Lemma no_send_stranded_witness :
  exists T, forall now, T <= now -> exists s a,
    tick (w_sends ex_idle) now = Ok (s, a) /\ waiters s = [] /\ settled_waiters a ≡ₚ [100; 101; 102].
Proof. exact (no_send_stranded (C:=unit) ex_idle ex_idle_reachable eq_refl). Defined.

Lemma ids_unique_witness : 2 < next_id (w_sends ex_world).
Proof.
  apply (ids_unique (C:=unit) ex_world 2 ex_world_reachable). right. right. vm_compute. eexists. reflexivity.
Defined.

(** The first send is in the radio, the last one waits: it is taken out of the tables. *)
Lemma cancel_all_or_nothing_witness :
  (exists s, cancel (w_sends ex_world) 0 = Ok (None, s) /\ s = w_sends ex_world) /\
  (exists a s, cancel (w_sends ex_world) 2 = Ok (Some a, s) /\ taken_out (w_sends ex_world) 2 s /\ all_cancelled a).
Proof.
  destruct (cancel_all_or_nothing (C:=unit) ex_world 0 ex_world_reachable) as (o & s & Hc & _ & Ho).
  destruct (cancel_all_or_nothing (C:=unit) ex_world 2 ex_world_reachable) as (o' & s' & Hc' & _ & Ho'). split.
  - assert (o = None) as -> by (vm_compute in Hc; congruence). by exists s.
  - destruct o' as [a|]; [|vm_compute in Hc'; congruence]. exists a, s'. by destruct Ho' as (? & ? & _).
Defined.
End Example.
End SendsTheorems.
