(* ===== verification/SendLoops.v ===== *)
(** * The two loops around the send tables: [sender_task] and [send_timer_task] of
    [src/crates/ziggurat-driver/src/zigbee_stack/sends.rs], and the clock they read

    Any task may change the tables, under the core's lock; only afterwards, with the lock released,
    does it wake the sender and the timer. Here the tasks interleave at those points and time passes in
    between: no wake is lost, so a frame that is ready does not wait for a sleeping sender and nothing
    that is due waits for a sleeping timer. *)

From S2P Require Import Prelude Flat Types Constants SendTypes SendTable.
From S2P Require Import Unicasts UnicastFacts Unrouted BroadcastSends BroadcastFacts Sends SendsFacts SendsTheorems.

(** ** The clock: [runtime.rs] and the instants of [zigbee_stack.rs] *)
Module Clock.

(** [core::time::Duration], in nanoseconds; [as_micros] and [from_micros]. *)
Definition as_micros (nanos : Z) : Z := nanos / 1000.
Definition from_micros (micros : Z) : Z := micros * 1000.

(** The trait [RtInstant]: what a runtime's instants can do, and the order they come in. *)
Class RtInstant (I : Type) := {
  saturating_duration_since : I -> I -> Z;
  add : I -> Z -> I;
  before : relation I
}.

(** What the driver relies on: instants are ordered, later ones are further from an earlier one, and
    an instant a whole number of microseconds after another is that far from it. *)
Class RtInstantLaws (I : Type) `{RtInstant I} := {
  before_refl i : before i i;
  before_trans i j k : before i j -> before j k -> before i k;
  since_self i : saturating_duration_since i i = 0;
  since_nonneg i j : 0 <= saturating_duration_since i j;
  since_mono i j start : before i j -> saturating_duration_since i start <= saturating_duration_since j start;
  since_add i j start micros : before start i -> before start j -> 0 <= micros <= u64_max ->
    (before (add i (from_micros micros)) j <-> saturating_duration_since i start + from_micros micros <= saturating_duration_since j start)
}.

(** [tokio::time::Instant], in nanoseconds. *)
#[export] Instance tokio_instant : RtInstant Z | 2 := {
  saturating_duration_since self earlier := Z.max 0 (self - earlier);
  add self rhs := self + rhs;
  before := Z.le
}.

#[export] Instance tokio_instant_laws : @RtInstantLaws Z tokio_instant.
Proof. split; cbn; unfold from_micros; intros; lia. Qed.

(** [EmbassyInstant], in microseconds. *)
Record EmbassyInstant := mkEmbassyInstant { ticks : Z }.

Definition to_embassy (duration : Z) : Z := as_micros duration mod 2 ^ 64.
Definition from_embassy (duration : Z) : Z := from_micros duration.

#[export] Instance embassy_instant : RtInstant EmbassyInstant := {
  saturating_duration_since self earlier := from_embassy (Z.max 0 (ticks self - ticks earlier));
  add self rhs := mkEmbassyInstant (ticks self + to_embassy rhs);
  before i j := ticks i <= ticks j
}.

#[export] Instance embassy_instant_laws : RtInstantLaws EmbassyInstant.
Proof.
  split; cbn; unfold from_embassy, from_micros; intros; try lia.
  unfold to_embassy, as_micros, u64_max in *. rewrite Z.div_mul, Z.mod_small by lia. lia.
Qed.

Section Clock.
Context {I : Type} `{!RtInstant I} (start : I).

(** [to_core_instant] and [core_now]: whole microseconds since the start; the cast keeps 64 bits. *)
Definition to_core_instant (t : I) : Instant := Instant.from_micros (as_micros (saturating_duration_since t start) mod 2 ^ 64).

(** The end of the sleep of [sleep_until_core] and [timeout_at_core], which start at [t]. *)
Definition sleep_until_core (t : I) (deadline : Instant) : I :=
  add t (from_micros (Instant.saturating_duration_since deadline (to_core_instant t))).

(** [Runtime::timeout] around [Notify::notified]: the future is polled before the sleep. The permit
    that is left, when one of them is ready. *)
Definition timeout_notified (permit elapsed : bool) : option bool :=
  if permit then Some false else if elapsed then Some permit else None.

Context `{!RtInstantLaws I}.

(** The 64 bits last for half a million years. *)
Definition in_range (t : I) : Prop := before start t /\ as_micros (saturating_duration_since t start) <= u64_max.

Lemma core_instant_exact t : in_range t -> to_core_instant t = as_micros (saturating_duration_since t start).
Proof.
  intros [_ Hr]. unfold to_core_instant, Instant.from_micros. pose proof (since_nonneg t start) as Hn.
  apply Z.mod_small. unfold u64_max, as_micros in *. split; [by apply Z.div_pos|lia].
Qed.

Lemma core_instant_mono t t' : in_range t -> in_range t' -> before t t' -> to_core_instant t <= to_core_instant t'.
Proof. intros Ht Ht' Hb. rewrite !core_instant_exact by done. apply Z.div_le_mono; [lia|]. by apply since_mono. Qed.

(** A sleep that is over was long enough; one that is not is at most a microsecond late. *)
Lemma sleep_bounds t t' deadline :
  in_range t -> in_range t' -> before t t' -> deadline <= u64_max ->
  (before (sleep_until_core t deadline) t' -> deadline <= to_core_instant t') /\
  (~ before (sleep_until_core t deadline) t' -> to_core_instant t' <= deadline).
Proof.
  intros Ht Ht' Hb Hd. unfold sleep_until_core, Instant.saturating_duration_since, saturating_sub. rewrite (core_instant_exact t'), (core_instant_exact t) by done.
  pose proof (since_nonneg t start) as Hn. assert (0 <= as_micros (saturating_duration_since t start)) by (by apply Z.div_pos).
  rewrite (since_add t t' start) by first [apply Ht|apply Ht'|unfold u64_max in *; lia]. pose proof (since_mono _ _ start Hb). unfold from_micros, as_micros in *.
  set (a := saturating_duration_since t start) in *. set (b := saturating_duration_since t' start) in *.
  pose proof (Z.mod_pos_bound a 1000 ltac:(lia)). pose proof (Z.div_mod a 1000 ltac:(lia)).
  split; intros Hs.
  - apply Z.div_le_lower_bound; [lia|]. destruct (Z.max_spec (deadline - a / 1000) 0) as [[? Hmax]|[? Hmax]]; rewrite Hmax in Hs; lia.
  - enough (b / 1000 < deadline + 1) by lia. apply Z.div_lt_upper_bound; [lia|].
    destruct (Z.max_spec (deadline - a / 1000) 0) as [[? Hmax]|[? Hmax]]; rewrite Hmax in Hs; lia.
Qed.
End Clock.
End Clock.

(** ** The loops *)
Module SendLoops.
Import Sends SendsFacts SendsTheorems Clock.

Section Loops.
Context {F W E C : Type} `{FromSendFailure E} {I : Type} `{!RtInstant I, !RtInstantLaws I} (start : I).
Abbreviation world := (world F W E).
Abbreviation Op := (Op F W E C).
Abbreviation core_instant := (to_core_instant start).

(** Where [send_timer_task] is: about to read the clock, inside [drive_sends], past it with the deadline
    it returned, or awaiting its wake, with a deadline and the end of the sleep or with neither. *)
Inductive Timer : Type :=
| Reading
| Driving (now : Instant)
| Driven (deadline : option Instant)
| Asleep (deadline : option (Instant * I)).

(** Where [sender_task] is: about to read the clock, about to dequeue, in the radio, or awaiting its
    wake. *)
Inductive Sender : Type :=
| Looking
| Taking (now : Instant)
| Transmitting (in_flight : InFlight F)
| Idle.

(** [owed_sender] and [owed_timer] count the tasks that changed the tables, released the lock, and have
    yet to call [notify_one]. *)
Record t := mk {
  tables : world;
  clock : I;
  send_wake : bool;
  send_timer_wake : bool;
  owed_sender : nat;
  owed_timer : nat;
  timer : Timer;
  sender : Sender
}.

Definition init : t := mk Sends.init start false false 0 0 Reading Looking.

Definition set_clock (x : t) (i : I) : t := mk (tables x) i (send_wake x) (send_timer_wake x) (owed_sender x) (owed_timer x) (timer x) (sender x).
Definition set_timer (x : t) (p : Timer) : t := mk (tables x) (clock x) (send_wake x) (send_timer_wake x) (owed_sender x) (owed_timer x) p (sender x).
Definition set_sender (x : t) (p : Sender) : t := mk (tables x) (clock x) (send_wake x) (send_timer_wake x) (owed_sender x) (owed_timer x) (timer x) p.

(** The lock is released on changed tables. What is left of [commit_sends] wakes both loops; what is
    left of the timer's own pass, [run_send_actions], wakes the sender only. *)
Definition commit (x : t) (w : world) : t :=
  mk w (clock x) (send_wake x) (send_timer_wake x) (S (owed_sender x)) (S (owed_timer x)) (timer x) (sender x).
Definition commit_pass (x : t) (w : world) : t :=
  mk w (clock x) (send_wake x) (send_timer_wake x) (S (owed_sender x)) (owed_timer x) (timer x) (sender x).
Definition lend (x : t) (w : world) : t :=
  mk w (clock x) (send_wake x) (send_timer_wake x) (owed_sender x) (owed_timer x) (timer x) (sender x).

(** [notify_one] on each wake. *)
Definition notify_sender (x : t) : t := mk (tables x) (clock x) true (send_timer_wake x) (pred (owed_sender x)) (owed_timer x) (timer x) (sender x).
Definition notify_timer (x : t) : t := mk (tables x) (clock x) (send_wake x) true (owed_sender x) (pred (owed_timer x)) (timer x) (sender x).

(** The timer is also woken when routes or passive acknowledgments came in: [filter_broadcast],
    [handle_route_reply] and [handle_route_request]. *)
Definition hint_timer (x : t) : t := mk (tables x) (clock x) (send_wake x) true (owed_sender x) (owed_timer x) (timer x) (sender x).

(** The loops past their await, with what is left of the permit. *)
Definition wake_sender (x : t) : t := mk (tables x) (clock x) false (send_timer_wake x) (owed_sender x) (owed_timer x) (timer x) Looking.
Definition wake_timer (x : t) (permit : bool) : t := mk (tables x) (clock x) (send_wake x) permit (owed_sender x) (owed_timer x) Reading (sender x).

(** The calls of the other tasks, and those of [drive_sends] before its [tick]. *)
Definition of_a_task (op : Op) : bool :=
  match op with
  | EnqueueUnicast _ _ _ | EnqueueBroadcastCopy _ _ _ _ | EnqueueUnrouted _ _ _ | EnqueueBroadcast _ _ _ => true
  | Poll _ _ _ | ApsAckReceived _ | DropIndirect _ _ | Cancel _ => true
  | _ => false
  end.
Definition of_the_pass (now : Instant) (op : Op) : bool :=
  match op with
  | BroadcastDelivered _ | RetryDiscovery _ | FailUnrouted _ | EnqueueBroadcast _ _ _ => true
  | RouteUnicasts _ _ _ at_ _ => at_ =? now
  | _ => false
  end.

Inductive calls : world -> list Op -> world -> Prop :=
| calls_nil w : calls w [] w
| calls_cons w op s out ops w' : allowed w op -> exec (w_sends w) op = Ok (s, out) -> calls (world_after w op s out) ops w' -> calls w (op :: ops) w'.

(** The end of [drive_sends]: the tables' next wake or that of a route discovery. *)
Definition pass_deadline (w : world) (discoveries : list Instant) : option Instant := min_instant (option_list (next_wake (w_sends w)) ++ discoveries).

(** What the timer awaits next: [timeout_at_core] or the wake alone. *)
Definition await (i : I) (deadline : option Instant) : Timer := Asleep ((fun d => (d, sleep_until_core start i d)) <$> deadline).

Inductive step (x : t) : t -> Prop :=
| step_time i : before (clock x) i -> in_range start i -> step x (set_clock x i)
| step_task ops w : forallb of_a_task ops = true -> calls (tables x) ops w -> step x (commit x w)
| step_notify_sender : (0 < owed_sender x)%nat -> step x (notify_sender x)
| step_notify_timer : (0 < owed_timer x)%nat -> step x (notify_timer x)
| step_hint : step x (hint_timer x)
| step_read_timer : timer x = Reading -> step x (set_timer x (Driving (core_instant (clock x))))
| step_drive now ops w discoveries :
    timer x = Driving now -> forallb (of_the_pass now) ops = true -> calls (tables x) (ops ++ [Tick now]) w ->
    step x (set_timer (commit_pass x w) (Driven (pass_deadline w discoveries)))
| step_await deadline :
    timer x = Driven deadline -> from_option (fun d => d <= u64_max) True deadline -> step x (set_timer x (await (clock x) deadline))
| step_wake_timer deadline permit elapsed :
    timer x = Asleep deadline -> (elapsed = true -> exists d i, deadline = Some (d, i) /\ before i (clock x)) ->
    timeout_notified (send_timer_wake x) elapsed = Some permit -> step x (wake_timer x permit)
| step_read_sender : sender x = Looking -> step x (set_sender x (Taking (core_instant (clock x))))
| step_dequeue now o s :
    sender x = Taking now -> exec (w_sends (tables x)) (Dequeue now : Op) = Ok (s, o) ->
    step x (set_sender (lend x (world_after (tables x) (Dequeue now : Op) s o)) (match out_lent o with Some f => Transmitting f | None => Idle end))
| step_report f g result now retry_delay interval s o :
    sender x = Transmitting f -> same_loan g f ->
    exec (w_sends (tables x)) (Transmitted g result now retry_delay interval : Op) = Ok (s, o) ->
    step x (set_sender (commit x (world_after (tables x) (Transmitted g result now retry_delay interval : Op) s o)) Looking)
| step_wake_sender : sender x = Idle -> send_wake x = true -> step x (wake_sender x).

Inductive reachable : t -> Prop :=
| reachable_init : reachable init
| reachable_step x y : reachable x -> step x y -> reachable y.

(** ** No wake is lost *)

(** Earlier than the deadline, when there is one. *)
Definition earlier (now : Instant) (deadline : option Instant) : Prop := from_option (fun d => now < d) True deadline.

Definition timer_deadline (p : Timer) : option (option Instant) :=
  match p with
  | Driven d => Some d
  | Asleep d => Some (fst <$> d)
  | Reading | Driving _ => None
  end.

Record inv (x : t) : Prop := mkInv {
  i_tables : Sends.reachable (C:=C) (tables x);
  i_clock : in_range start (clock x);
  i_timer d : owed_timer x = 0%nat -> send_timer_wake x = false -> timer_deadline (timer x) = Some d -> forall now, earlier now d -> all_quiet now (w_sends (tables x));
  i_sleep d i : timer x = Asleep (Some (d, i)) -> d <= u64_max /\ exists c, in_range start c /\ before c (clock x) /\ i = sleep_until_core start c d;
  i_idle : owed_sender x = 0%nat -> send_wake x = false -> sender x = Idle -> exists now, now <= core_instant (clock x) /\ forall id p, ~ ready (w_sends (tables x)) now id p;
  i_taking now : sender x = Taking now -> now <= core_instant (clock x);
  i_loan f : sender x = Transmitting f -> f ∈ w_loans (tables x)
}.

(** Only the sender's own calls change what is on loan. *)
Definition keeps_loans (op : Op) : bool := match op with Dequeue _ | Transmitted _ _ _ _ _ | Abandon => false | _ => true end.

Lemma exec_keeps_loans w op s out : keeps_loans op = true -> exec (w_sends w) op = Ok (s, out) -> w_loans (world_after w op s out) = w_loans w.
Proof.
  destruct op; cbn; try done; intros _; try (by intros [= _ <-]); intros Hx; repeat (apply bind_ok in Hx as (? & _ & Hx); repeat (case_match; try done)); by injection Hx as _ <-.
Qed.

Lemma calls_keep_loans w ops w' : forallb keeps_loans ops = true -> calls w ops w' -> w_loans w' = w_loans w.
Proof.
  intros Hk Hc. induction Hc as [|w op s out ops w' _ He _ IH]; [done|]. cbn in Hk. apply andb_true_iff in Hk as [Hop Hk].
  rewrite (IH Hk). by apply exec_keeps_loans.
Qed.

Lemma forallb_weaken {A} (p q : A -> bool) l : (forall a, p a = true -> q a = true) -> forallb p l = true -> forallb q l = true.
Proof. rewrite !forallb_forall. auto. Qed.

Lemma task_keeps_loans op : of_a_task op = true -> keeps_loans op = true.
Proof. by destruct op. Qed.

Lemma pass_keeps_loans now ops : forallb (of_the_pass now) ops = true -> forallb keeps_loans (ops ++ [Tick now]) = true.
Proof. intros Hops. rewrite forallb_app, (forallb_weaken (of_the_pass now) keeps_loans ops); [done| |done]. by intros []. Qed.

Lemma calls_reachable w ops w' : Sends.reachable (C:=C) w -> calls w ops w' -> Sends.reachable (C:=C) w'.
Proof. intros Hr Hc. induction Hc as [|w op s out ops w' Ha He _ IH]; [done|]. apply IH. by econstructor. Qed.

(** The deadline of a pass comes no later than anything in the tables. *)
Lemma pass_deadline_quiet w discoveries now : earlier now (pass_deadline w discoveries) -> all_quiet now (w_sends w).
Proof.
  intros He. apply next_wake_quiet. unfold pass_deadline in He. destruct (next_wake (w_sends w)) as [t|]; [|done]. change (earlier now (min_instant (t :: discoveries))) in He.
  pose proof (min_instant_spec (t :: discoveries)) as Hm. destruct (min_instant (t :: discoveries)) as [d|]; [|done].
  destruct Hm as [_ Hle]. specialize (Hle t ltac:(set_solver)). cbn in He. lia.
Qed.

(** A frame on loan is due at no time: lending one keeps the tables quiet. *)
Lemma dequeue_quiet (s : Sends.t F W E) now s' o at_ : dequeue s now = Ok (o, s') -> all_quiet at_ s -> all_quiet at_ s'.
Proof.
  unfold dequeue. destruct (max_by _ _) as [[[id p] u]|]; [|by intros [= _ <-]]. intros Hd (Hu & Hn & Hb). destruct u; apply bind_ok in Hd as ([f m] & Hm & [= _ <-]); split_and!; try done; cbn.
  - unfold Unicasts.dequeue in Hm. apply bind_ok in Hm as (r & _ & Hm). apply bind_ok in Hm as ([] & _ & Hm). apply bind_ok in Hm as (g & _ & [= _ <-]).
    intros k r' t. destruct (decide (id = k)) as [->|Hne]; [|rewrite FlatMap.get_modify_ne by done; apply Hu].
    rewrite FlatMap.get_modify_eq. intros (r0 & _ & ->)%fmap_Some. done.
  - unfold BroadcastSends.dequeue in Hm. apply bind_ok in Hm as (r & _ & Hm). apply bind_ok in Hm as ([] & _ & Hm). apply bind_ok in Hm as (g & _ & [= _ <-]).
    intros k r' t. destruct (decide (id = k)) as [->|Hne]; [|rewrite FlatMap.get_modify_ne by done; apply Hb].
    rewrite FlatMap.get_modify_eq. intros (r0 & _ & ->)%fmap_Some. done.
Qed.

Lemma ready_mono (s : Sends.t F W E) now now' id p : now <= now' -> ready s now' id p -> ready s now id p.
Proof. intros Hle [(r & ? & ? & ? & ?)|(r & ? & ? & ? & ?)]; [left|right]; exists r; split_and!; try done; lia. Qed.

Lemma inv_init : inv init.
Proof.
  split; cbn; try done; [constructor|]. split; [apply before_refl|]. rewrite since_self. done.
Qed.

(** Changed tables with wakes owed to both loops promise nothing yet. *)
Lemma inv_commit x w : inv x -> Sends.reachable (C:=C) w -> (forall f, sender x = Transmitting f -> f ∈ w_loans w) -> inv (commit x w).
Proof. intros [Ht Hc Htm Hsl Hid Htk _] Hw Hl. by split. Qed.

Lemma inv_step x y : inv x -> step x y -> inv y.
Proof.
  intros Hx Hs. pose proof Hx as [Ht Hc Htm Hsl Hid Htk Hln]. destruct Hs as [i Hb Hr|ops w Hops Hcalls|Ho|Ho| |Hp|now ops w ds Hp Hops Hcalls|d Hp Hd|d permit elapsed Hp Hel Hto|Hp|now o s Hp He|f g result now delay interval s o Hp Hg He|Hp Hw].
  - assert (core_instant (clock x) <= core_instant i) as Hle by by apply core_instant_mono. split; cbn; try done.
    + intros d j Hp. destruct (Hsl d j Hp) as (Hd & c & Hrc & Hbc & Hj). split; [done|]. exists c. split_and!; [done|by eapply before_trans|done].
    + intros Ho Hw Hp. destruct (Hid Ho Hw Hp) as (now & Hn & Hnr). exists now. split; [lia|done].
    + intros now Hp. specialize (Htk now Hp). lia.
  - apply inv_commit; [done|by eapply calls_reachable|]. rewrite (calls_keep_loans _ _ _ (forallb_weaken _ _ _ task_keeps_loans Hops) Hcalls). exact Hln.
  - split; cbn; try done.
  - split; cbn; try done.
  - split; cbn; try done.
  - split; cbn; try done.
  - split; cbn; try done; [by eapply calls_reachable| |].
    + intros d _ _ [= <-] at_ He. by eapply pass_deadline_quiet.
    + rewrite (calls_keep_loans _ _ _ (pass_keeps_loans _ _ Hops) Hcalls). exact Hln.
  - split; cbn; try done.
    + intros d' Ho Hw [= <-] at_ He. apply (Htm d Ho Hw); [by rewrite Hp|]. revert He. by destruct d.
    + unfold await. intros d' j [= Heq]. destruct d as [d|]; [|done]. injection Heq as <- <-. split; [done|]. exists (clock x). split_and!; [done|apply before_refl|done].
  - split; cbn; try done.
  - split; cbn; try done. by intros now [= <-].
  - cbn in He. apply bind_ok in He as ([lent s'] & Hd & [= <- <-]). cbn. split; cbn; try done.
    + eapply (Sends.reachable_step (C:=C) (tables x) (Dequeue now) s' (mkOutcome [] lent [] [])); [done|done|]. cbn. by rewrite Hd.
    + intros d Ho Hw Hp' at_ He. eapply dequeue_quiet; [exact Hd|]. by eapply (Htm d).
    + intros _ _ Hp'. destruct lent as [f|]; [done|]. exists now. split; [by apply Htk|].
      destruct (dequeue_spec _ _ _ now (wi_inv _ (world_reachable_inv _ Ht))) as (o & s1 & Hd1 & Hspec). rewrite Hd in Hd1. injection Hd1 as <- <-. destruct Hspec as [-> Hn]. done.
    + intros now' Hp'. by destruct lent.
    + intros f Hp'. destruct lent as [g|]; [|done]. injection Hp' as ->. apply list_elem_of_here.
  - assert (Sends.reachable (C:=C) (world_after (tables x) (Transmitted g result now delay interval) s o)) as Hw by (eapply Sends.reachable_step; [done|exists f; split; [by apply Hln|done]|done]).
    split; done.
  - split; cbn; try done.
Qed.

Lemma reachable_inv x : reachable x -> inv x.
Proof. induction 1; [apply inv_init|by eapply inv_step]. Qed.

(** C8: no wake is lost between the tasks of the stack, however their steps and the passing of time
    interleave. While the sender sleeps with no wake on its way there is no frame it could transmit;
    while the timer sleeps with no wake on its way and its sleep is not over, nothing in the tables was
    due a microsecond ago, the resolution of the clock; and a sleep that is over has lasted until its
    deadline, so the pass that follows has something to do. *)
Theorem no_lost_wakeups x :
  reachable x ->
  (owed_sender x = 0%nat -> send_wake x = false -> sender x = Idle ->
   dequeue (w_sends (tables x)) (core_instant (clock x)) = Ok (None, w_sends (tables x))) /\
  (forall deadline, owed_timer x = 0%nat -> send_timer_wake x = false -> timer x = Asleep deadline ->
   from_option (fun di => ~ before di.2 (clock x)) True deadline ->
   tick (w_sends (tables x)) (core_instant (clock x) - 1) = Ok (w_sends (tables x), [])) /\
  (forall d i, timer x = Asleep (Some (d, i)) -> before i (clock x) -> d <= core_instant (clock x)).
Proof.
  intros [Ht Hc Htm Hsl Hid Htk _]%reachable_inv. pose proof (wi_inv _ (world_reachable_inv _ Ht)) as Hinv. split_and!.
  - intros Ho Hw Hp. destruct (Hid Ho Hw Hp) as (now & Hle & Hn).
    destruct (dequeue_spec _ _ _ (core_instant (clock x)) Hinv) as (o & s' & -> & Hspec). destruct o as [f|]; [|by destruct Hspec as [-> _]].
    destruct Hspec as ((p & Hr & _) & _). exfalso. eapply Hn, ready_mono; [exact Hle|exact Hr].
  - intros deadline Ho Hw Hp Hlate. eapply tick_when_quiet; [exact Hinv|]. apply (Htm (fst <$> deadline) Ho Hw); [by rewrite Hp|].
    destruct deadline as [[d i]|]; [|done]. cbn in *. destruct (Hsl d i Hp) as (Hd & c & Hrc & Hb & ->).
    pose proof (proj2 (sleep_bounds start c (clock x) d Hrc Hc Hb Hd) Hlate). lia.
  - intros d i Hp Hover. destruct (Hsl d i Hp) as (Hd & c & Hrc & Hb & ->). by apply (sleep_bounds start c).
Qed.
End Loops.
End SendLoops.

(** ** A run of the loops

    Both find nothing to do and sleep; a task enqueues a frame a sleepy child has to poll for and wakes
    them; they look again and sleep, the timer until the frame expires. Half a second later they still
    do. *)
Module SendLoopsWitness.
Import Sends SendsFacts SendsTheorems Clock SendLoops.
#[local] Existing Instance failure_is_error.

Definition ex_held : Unicasts.Unicast Z Z := Unicasts.mkUnicast 10 UserNormal 100 OnHandoff 0x1234 (Some (AddrNwk 0x1234)).
Definition ex_enqueue : Op Z Z SendFailure unit := EnqueueUnicast ex_held 0 Tunables.default.
Abbreviation state := (SendLoops.t (F:=Z) (W:=Z) (E:=SendFailure) (I:=Z)).
Abbreviation reached := (SendLoops.reachable (F:=Z) (W:=Z) (E:=SendFailure) (C:=unit) (I:=Z) 0).

(** A pass of the timer, from its wake to its sleep, and one of the sender, when it finds nothing. *)
Definition timer_pass (x : state) : state :=
  let now := to_core_instant 0 (clock x) in
  let w := after (tables x) (Tick now : Op Z Z SendFailure unit) in
  let x := set_timer x (Driving now) in
  let x := set_timer (commit_pass x w) (Driven (pass_deadline w [])) in
  set_timer x (await 0 (clock x) (pass_deadline w [])).
Definition sender_pass (x : state) : state :=
  let now := to_core_instant 0 (clock x) in
  set_sender (lend (set_sender x (Taking now)) (after (tables x) (Dequeue now : Op Z Z SendFailure unit))) Idle.

Definition ex_x1 : state := wake_sender (notify_sender (sender_pass (timer_pass (SendLoops.init 0)))).
Definition ex_x2 : state := sender_pass ex_x1.
Definition ex_x3 : state := notify_timer (notify_sender (commit ex_x2 (after (tables ex_x2) ex_enqueue))).
Definition ex_x4 : state := notify_sender (timer_pass (wake_timer (sender_pass (wake_sender ex_x3)) false)).
Definition ex_x5 : state := set_clock (sender_pass (wake_sender ex_x4)) 500000000.

Lemma calls_one (w : world Z Z SendFailure) (op : Op Z Z SendFailure unit) s out : allowed w op -> exec (w_sends w) op = Ok (s, out) -> calls w [op] (after w op).
Proof. intros Ha He. unfold after. rewrite He. eapply calls_cons; [done|exact He|constructor]. Qed.

Lemma timer_passes x s out :
  reached x -> timer x = Reading -> exec (w_sends (tables x)) (Tick (to_core_instant 0 (clock x)) : Op Z Z SendFailure unit) = Ok (s, out) ->
  from_option (fun d => d <= u64_max) True (pass_deadline (after (tables x) (Tick (to_core_instant 0 (clock x)) : Op Z Z SendFailure unit)) []) -> reached (timer_pass x).
Proof.
  intros Hr Hp He Hd. unfold timer_pass. eapply reachable_step; [eapply reachable_step; [eapply reachable_step; [exact Hr|by apply step_read_timer]|]|].
  - apply (step_drive 0 _ (to_core_instant 0 (clock x)) []); [done..|]. cbn [app]. eapply calls_one; [done|exact He].
  - by apply step_await.
Qed.

Lemma sender_passes x s out :
  reached x -> sender x = Looking -> exec (w_sends (tables x)) (Dequeue (to_core_instant 0 (clock x)) : Op Z Z SendFailure unit) = Ok (s, out) -> out_lent out = None ->
  reached (sender_pass x).
Proof.
  intros Hr Hp He Ho. unfold sender_pass. eapply reachable_step; [eapply reachable_step; [exact Hr|by apply step_read_sender]|].
  pose proof (step_dequeue (C:=unit) 0 (set_sender x (Taking (to_core_instant 0 (clock x)))) (to_core_instant 0 (clock x)) out s eq_refl He) as Hs.
  rewrite Ho in Hs. unfold after. by rewrite He.
Qed.

Lemma ex_x2_reached : reached ex_x2.
Proof.
  unfold ex_x2. eapply sender_passes; [|vm_compute; reflexivity..]. unfold ex_x1.
  eapply reachable_step; [|apply step_wake_sender; reflexivity]. eapply reachable_step; [|apply step_notify_sender; vm_compute; lia].
  eapply sender_passes; [|vm_compute; reflexivity..]. eapply timer_passes; [apply reachable_init|vm_compute; reflexivity..|exact Logic.I].
Qed.

Lemma ex_x3_reached : reached ex_x3.
Proof.
  unfold ex_x3. eapply reachable_step; [eapply reachable_step; [eapply reachable_step; [exact ex_x2_reached|]|]|].
  - apply (step_task 0 _ [ex_enqueue]); [reflexivity|]. eapply calls_one; [vm_compute; reflexivity|vm_compute; reflexivity].
  - apply step_notify_sender. vm_compute. lia.
  - apply step_notify_timer. vm_compute. lia.
Qed.

Lemma ex_x5_reached : reached ex_x5.
Proof.
  unfold ex_x5. eapply reachable_step; [|apply step_time; [vm_compute; discriminate|split; vm_compute; discriminate]].
  eapply sender_passes; [|vm_compute; reflexivity..]. eapply reachable_step; [|apply step_wake_sender; reflexivity]. unfold ex_x4.
  eapply reachable_step; [|apply step_notify_sender; vm_compute; lia].
  eapply timer_passes; [|vm_compute; reflexivity..|vm_compute; discriminate].
  eapply reachable_step; [|eapply (step_wake_timer 0 _ None false false); [vm_compute; reflexivity|done|vm_compute; reflexivity]].
  eapply sender_passes; [|vm_compute; reflexivity..]. eapply reachable_step; [exact ex_x3_reached|apply step_wake_sender; reflexivity].
Qed.

Lemma no_lost_wakeups_witness :
  waiters (w_sends (tables ex_x5)) = [100] /\ to_core_instant 0 (clock ex_x5) = 500000 /\
  dequeue (w_sends (tables ex_x5)) 500000 = Ok (None, w_sends (tables ex_x5)) /\
  tick (w_sends (tables ex_x5)) 499999 = Ok (w_sends (tables ex_x5), []) /\
  (forall d i, timer ex_x5 = Asleep (Some (d, i)) -> i <= 500000000 -> d <= 500000).
Proof.
  split; [vm_compute; reflexivity|]. split; [vm_compute; reflexivity|].
  destruct (no_lost_wakeups (C:=unit) 0 ex_x5 ex_x5_reached) as (Hs & Ht & Hd). split_and!.
  - apply Hs; vm_compute; reflexivity.
  - eapply Ht; [vm_compute; reflexivity..|]. vm_compute. intros Hle. by apply Hle.
  - exact Hd.
Defined.
End SendLoopsWitness.
