(* ===== verification/Routing.v ===== *)
(** * The NWK routing layer: [src/crates/ziggurat-zigbee/src/nwk/routing.rs]

    The route table, the route discovery table and the route record table, and the decisions on
    route requests and replies.  Log statements are left out; an 8-bit cost is a [Z]. *)

From S2P Require Import Prelude Flat Types Constants.

Module Routing.

Definition UNKNOWN_NEXT_HOP : Nwk := 0xFFFF.
Definition BROADCAST_ALL_ROUTERS_AND_COORDINATOR : Nwk := 0xFFFC.

Inductive Status : Type := Active | DiscoveryUnderway | DiscoveryFailed | Inactive.

#[export] Instance Status_eq_dec : EqDecision Status.
Proof. solve_decision. Defined.

Inductive NwkRouteRequestManyToOne : Type :=
| NotManyToOne
| ManyToOneSenderSupportsRouteRecordTable
| ManyToOneSenderDoesntSupportRouteRecordTable
| Reserved.

#[export] Instance ManyToOne_eq_dec : EqDecision NwkRouteRequestManyToOne.
Proof. solve_decision. Defined.

Record TableEntry := mkTableEntry {
  destination : Nwk;
  status : Status;
  no_route_cache : bool;
  many_to_one : bool;
  route_record_required : bool;
  expired : bool;
  next_hop_address : Nwk;
  path_cost : Z;
  total_usage_count : Z;
  recent_activity : Z
}.

Definition entry_new (dest : Nwk) (st : Status) (next_hop : Nwk) : TableEntry :=
  mkTableEntry dest st false false false false next_hop u8_max 0 0.

(** Field updates of an entry. *)
Definition set_status (e : TableEntry) (st : Status) : TableEntry :=
  mkTableEntry (destination e) st (no_route_cache e) (many_to_one e) (route_record_required e) (expired e)
    (next_hop_address e) (path_cost e) (total_usage_count e) (recent_activity e).
Definition set_route (e : TableEntry) (next_hop : Nwk) (cost : Z) : TableEntry :=
  mkTableEntry (destination e) Active (no_route_cache e) (many_to_one e) (route_record_required e) (expired e)
    next_hop cost (total_usage_count e) (recent_activity e).
Definition set_path_cost (e : TableEntry) (cost : Z) : TableEntry :=
  mkTableEntry (destination e) (status e) (no_route_cache e) (many_to_one e) (route_record_required e) (expired e)
    (next_hop_address e) cost (total_usage_count e) (recent_activity e).
Definition set_usage (e : TableEntry) (total recent : Z) : TableEntry :=
  mkTableEntry (destination e) (status e) (no_route_cache e) (many_to_one e) (route_record_required e) (expired e)
    (next_hop_address e) (path_cost e) total recent.
Definition set_record_required (e : TableEntry) (b : bool) : TableEntry :=
  mkTableEntry (destination e) (status e) (no_route_cache e) (many_to_one e) b (expired e)
    (next_hop_address e) (path_cost e) (total_usage_count e) (recent_activity e).
Definition set_concentrator (e : TableEntry) (no_cache : bool) : TableEntry :=
  mkTableEntry (destination e) (status e) no_cache true true (expired e)
    (next_hop_address e) (path_cost e) (total_usage_count e) (recent_activity e).

Definition is_active (e : TableEntry) : bool := bool_decide (status e = Active).

(** [(self.status == Status::Active).then_some(self.next_hop_address)]. *)
Definition active_next_hop (e : TableEntry) : option Nwk :=
  if is_active e then Some (next_hop_address e) else None.

Definition consider_route (e : TableEntry) (next_hop : Nwk) (cost : Z) : bool * TableEntry :=
  if is_active e && (path_cost e <=? cost) then (false, e)
  else (negb (bool_decide (active_next_hop e = Some next_hop)), set_route e next_hop cost).

Record DiscoveryEntry := mkDiscoveryEntry {
  route_request_id : Z;
  source_address : Nwk;
  sender_address : Nwk;
  forward_cost : Z;
  residual_cost : Z;
  expiration_time : Instant;
  destination_address : Nwk
}.

Definition set_forward (d : DiscoveryEntry) (cost : Z) (sender : Nwk) : DiscoveryEntry :=
  mkDiscoveryEntry (route_request_id d) (source_address d) sender cost (residual_cost d)
    (expiration_time d) (destination_address d).
Definition set_residual (d : DiscoveryEntry) (cost : Z) : DiscoveryEntry :=
  mkDiscoveryEntry (route_request_id d) (source_address d) (sender_address d) (forward_cost d) cost
    (expiration_time d) (destination_address d).

Inductive Route : Type :=
| NextHop (n : Nwk)
| SourceRouted (relays : list Nwk).

Inductive RouteReplyDisposition : Type :=
| Drop
| Established
| Relay (next_hop : Nwk) (cost : Z).

Record RouteUpdate := mkRouteUpdate {
  ru_destination : Nwk;
  ru_next_hop : Nwk;
  ru_path_cost : Z
}.

Record RouteRequestOutcome := mkRouteRequestOutcome {
  rq_accepted : bool;
  rq_update : option RouteUpdate
}.

Record RouteReplyOutcome := mkRouteReplyOutcome {
  rp_disposition : RouteReplyDisposition;
  rp_update : option RouteUpdate
}.

(** [Routing]. *)
Record t := mk {
  mtorr_route_errors : Z;
  mtorr_delivery_failures : Z;
  route_table : FlatMap.t Z TableEntry;
  discovery_table : FlatMap.t (Z * Z) DiscoveryEntry;
  route_record_table : FlatMap.t Z (list Z);
  request_sequence_number : Z
}.

Definition new : t := mk 0 0 FlatMap.new FlatMap.new FlatMap.new 0.

Definition with_routes (s : t) (m : FlatMap.t Z TableEntry) : t :=
  mk (mtorr_route_errors s) (mtorr_delivery_failures s) m (discovery_table s) (route_record_table s) (request_sequence_number s).
Definition with_discoveries (s : t) (m : FlatMap.t (Z * Z) DiscoveryEntry) : t :=
  mk (mtorr_route_errors s) (mtorr_delivery_failures s) (route_table s) m (route_record_table s) (request_sequence_number s).
Definition with_records (s : t) (m : FlatMap.t Z (list Z)) : t :=
  mk (mtorr_route_errors s) (mtorr_delivery_failures s) (route_table s) (discovery_table s) m (request_sequence_number s).
Definition with_sequence (s : t) (n : Z) : t :=
  mk (mtorr_route_errors s) (mtorr_delivery_failures s) (route_table s) (discovery_table s) (route_record_table s) n.

Definition note_route_error (s : t) (threshold : Z) : bool * t :=
  let n := saturating_add u8_max (mtorr_route_errors s) 1 in
  (threshold <=? n, mk n (mtorr_delivery_failures s) (route_table s) (discovery_table s) (route_record_table s) (request_sequence_number s)).

Definition note_delivery_failure (s : t) (threshold : Z) : bool * t :=
  let n := saturating_add u8_max (mtorr_delivery_failures s) 1 in
  (threshold <=? n, mk (mtorr_route_errors s) n (route_table s) (discovery_table s) (route_record_table s) (request_sequence_number s)).

Definition reset_mtorr_triggers (s : t) : t :=
  mk 0 0 (route_table s) (discovery_table s) (route_record_table s) (request_sequence_number s).

Definition route_status (s : t) (dest : Nwk) : option Status := status <$> FlatMap.get (route_table s) dest.

(** [next_hop] asserts that an active entry has a next hop. *)
Definition next_hop (s : t) (dest : Nwk) : may (option Nwk) :=
  match FlatMap.get (route_table s) dest with
  | Some e =>
      if is_active e then
        _ ← rust_assert (negb (next_hop_address e =? UNKNOWN_NEXT_HOP));
        Ok (Some (next_hop_address e))
      else Ok None
  | None => Ok None
  end.

Definition mark_discovery_failed (s : t) (dest : Nwk) : t :=
  with_routes s (FlatMap.modify (route_table s) dest (fun e => set_status e DiscoveryFailed)).

Definition record_usage (s : t) (dest : Nwk) : t :=
  with_routes s (FlatMap.modify (route_table s) dest (fun e =>
    set_usage e (saturating_add u32_max (total_usage_count e) 1) (saturating_add u8_max (recent_activity e) 1))).

Definition decay_activity (s : t) : t :=
  with_routes s (FlatMap.iter_mut (fun _ e =>
    if is_active e then set_usage e (total_usage_count e) (saturating_sub (recent_activity e) 1) else e) (route_table s)).

Definition invalidate_via (s : t) (hop : Nwk) : t :=
  with_routes s (FlatMap.iter_mut (fun _ e =>
    if is_active e && (next_hop_address e =? hop) then set_status e Inactive else e) (route_table s)).

Definition remove_route (s : t) (dest : Nwk) : bool * t :=
  let '(removed, m) := FlatMap.remove (route_table s) dest in
  (bool_decide (is_Some removed), with_routes s m).

Definition restore_route (s : t) (dest hop : Nwk) (cost : Z) : t :=
  with_routes s (FlatMap.insert (route_table s) dest (set_path_cost (entry_new dest Active hop) cost)).2.

(** The loop [for i in 1..relays.len()]: relay [i - 1] is reached over the relays after it; the
    last relay, reached directly, is inserted after the loop. *)
Fixpoint insert_relays (m : FlatMap.t Z (list Z)) (relays : list Nwk) : FlatMap.t Z (list Z) :=
  match relays with
  | [] => m
  | r :: rest => insert_relays (FlatMap.insert m r rest).2 rest
  end.

Definition store_route_record (s : t) (source : Nwk) (relays : list Nwk) : bool * t :=
  let m := insert_relays (route_record_table s) relays in
  let changed := negb (bool_decide (FlatMap.get m source = Some relays)) in
  (changed, with_records s (FlatMap.insert m source relays).2).

Definition remove_route_record (s : t) (dest : Nwk) : bool * t :=
  let '(removed, m) := FlatMap.remove (route_record_table s) dest in
  (bool_decide (is_Some removed), with_records s m).

Definition note_source_routed_frame (s : t) (concentrator : Nwk) : t :=
  with_routes s (FlatMap.modify (route_table s) concentrator (fun e =>
    if negb (no_route_cache e) then set_record_required e false else e)).

Definition route_to (s : t) (dest : Nwk) (max_source_route : Z) : may (option Route) :=
  match FlatMap.get (route_record_table s) dest with
  | Some [] => Ok (Some (NextHop dest))
  | Some relays =>
      if Z.of_nat (length relays) <? max_source_route then Ok (Some (SourceRouted relays))
      else hop ← next_hop s dest; Ok (option_map NextHop hop)
  | None => hop ← next_hop s dest; Ok (option_map NextHop hop)
  end.

Definition is_underway (e : TableEntry) : bool := bool_decide (status e = DiscoveryUnderway).

(** [expire_discoveries], after [retain]: a destination no live discovery is for loses the route
    entry the discovery left underway. *)
Definition drop_underway (live : FlatMap.t (Z * Z) DiscoveryEntry) (routes : FlatMap.t Z TableEntry) (dest : Nwk)
    : FlatMap.t Z TableEntry :=
  if existsb (fun d => destination_address d =? dest) (FlatMap.values live) then routes
  else match FlatMap.get routes dest with
       | Some e => if is_underway e then (FlatMap.remove routes dest).2 else routes
       | None => routes
       end.

Definition expired_at (now : Instant) (d : DiscoveryEntry) : bool := expiration_time d <=? now.

Definition expire_discoveries (s : t) (now : Instant) : t :=
  let expired_destinations :=
    destination_address <$> filter (fun d => expired_at now d = true) (FlatMap.values (discovery_table s)) in
  let live := FlatMap.retain (fun _ d => negb (expired_at now d)) (discovery_table s) in
  with_discoveries (with_routes s (fold_left (drop_underway live) expired_destinations (route_table s))) live.

Definition begin_discovery (s : t) (own dest : Nwk) (now : Instant) (route_discovery_time : Duration) : Z * t :=
  let s := expire_discoveries s now in
  let routes := FlatMap.or_insert_with (route_table s) dest (entry_new dest Inactive UNKNOWN_NEXT_HOP) in
  let s := with_routes s (FlatMap.modify routes dest (fun e => set_status e DiscoveryUnderway)) in
  let request_id := wrapping_add u8_max (request_sequence_number s) 1 in
  let s := with_sequence s request_id in
  let s := with_discoveries s (FlatMap.or_insert_with (discovery_table s) (own, request_id)
    {| route_request_id := request_id; source_address := own; sender_address := UNKNOWN_NEXT_HOP;
       forward_cost := 0; residual_cost := u8_max; expiration_time := Instant.add now route_discovery_time;
       destination_address := dest |}) in
  (request_id, s).

Definition begin_many_to_one_advertisement (s : t) (own : Nwk) (now : Instant) (route_discovery_time : Duration) : Z * t :=
  let request_id := wrapping_add u8_max (request_sequence_number s) 1 in
  let s := with_sequence s request_id in
  let s := expire_discoveries s now in
  (request_id, with_discoveries s (FlatMap.insert (discovery_table s) (own, request_id)
    {| route_request_id := request_id; source_address := own; sender_address := UNKNOWN_NEXT_HOP;
       forward_cost := 0; residual_cost := u8_max; expiration_time := Instant.add now route_discovery_time;
       destination_address := BROADCAST_ALL_ROUTERS_AND_COORDINATOR |}).2).

Definition discovery_deadline (s : t) (dest : Nwk) (now : Instant) : option Instant :=
  head (omap (fun d => if (now <? expiration_time d) && (destination_address d =? dest)
                       then Some (expiration_time d) else None) (FlatMap.values (discovery_table s))).

Definition accept_route_request (s : t) (originator : Nwk) (request_id : Z) (dest sender : Nwk) (cost : Z)
    (mto : NwkRouteRequestManyToOne) (now : Instant) (route_discovery_time : Duration) : RouteRequestOutcome * t :=
  let s := expire_discoveries s now in
  let key := (originator, request_id) in
  let known := FlatMap.get (discovery_table s) key in
  if match known with Some d => forward_cost d <? cost | None => false end
  then (mkRouteRequestOutcome false None, s)
  else
    let s := with_discoveries s
      match known with
      | Some _ => FlatMap.modify (discovery_table s) key (fun d => set_forward d cost sender)
      | None => (FlatMap.insert (discovery_table s) key
          {| route_request_id := request_id; source_address := originator; sender_address := sender;
             forward_cost := cost; residual_cost := u8_max;
             expiration_time := Instant.add now route_discovery_time; destination_address := dest |}).2
      end in
    let entry := default (entry_new originator Inactive UNKNOWN_NEXT_HOP) (FlatMap.get (route_table s) originator) in
    let '(route_changed, entry) := consider_route entry sender cost in
    let entry :=
      if bool_decide (mto <> NotManyToOne)
      then set_concentrator entry (bool_decide (mto = ManyToOneSenderDoesntSupportRouteRecordTable))
      else entry in
    (mkRouteRequestOutcome true (if route_changed then Some (mkRouteUpdate originator sender cost) else None),
     with_routes s (FlatMap.insert (route_table s) originator entry).2).

Definition note_relayed_discovery (s : t) (dest : Nwk) : t :=
  with_routes s
    match FlatMap.get (route_table s) dest with
    | Some _ => FlatMap.modify (route_table s) dest (fun e => if is_active e then e else set_status e DiscoveryUnderway)
    | None => (FlatMap.insert (route_table s) dest (entry_new dest DiscoveryUnderway UNKNOWN_NEXT_HOP)).2
    end.

Definition reply_drop (s : t) : RouteReplyOutcome * t := (mkRouteReplyOutcome Drop None, s).

Definition accept_route_reply (s : t) (own originator : Nwk) (request_id : Z) (responder sender : Nwk) (cost : Z)
    : RouteReplyOutcome * t :=
  let key := (originator, request_id) in
  match FlatMap.get (discovery_table s) key, FlatMap.get (route_table s) responder with
  | None, _ | Some _, None => reply_drop s
  | Some d, Some e =>
      if originator =? own then
        if is_active e && (residual_cost d <=? cost) then reply_drop s
        else
          let previous_next_hop := active_next_hop e in
          let s := with_routes s (FlatMap.modify (route_table s) responder (fun e => set_route e sender cost)) in
          let s := with_discoveries s (FlatMap.modify (discovery_table s) key (fun d => set_residual d cost)) in
          (mkRouteReplyOutcome Established
             (if negb (bool_decide (previous_next_hop = Some sender))
              then Some (mkRouteUpdate responder sender cost) else None), s)
      else if residual_cost d <=? cost then reply_drop s
      else
        let s := with_routes s (FlatMap.modify (route_table s) responder (fun e => set_route e sender cost)) in
        let s := with_discoveries s (FlatMap.modify (discovery_table s) key (fun d => set_residual d cost)) in
        let reverse := default (entry_new originator Inactive UNKNOWN_NEXT_HOP) (FlatMap.get (route_table s) originator) in
        let '(changed, reverse) := consider_route reverse (sender_address d) (forward_cost d) in
        let s := with_routes s (FlatMap.insert (route_table s) originator reverse).2 in
        (mkRouteReplyOutcome (Relay (sender_address d) cost)
           (if changed then Some (mkRouteUpdate originator (sender_address d) (forward_cost d)) else None), s)
  end.
End Routing.
