(* ===== verification/RoutingFacts.v ===== *)
(** * Theorems about the routing layer

    A [Call] is one call of the driver that changes the routing layer, [hops] the next hops it is
    given from outside.  [known] holds after any calls that are not given the unknown address
    0xFFFF as a next hop.  The routes underway stay backed by a discovery when the calls are also
    [timely]: a relayed discovery is noted only after its request was accepted, and a request id is
    not reused while its discovery lives; [reachable] is over calls with both. *)

From S2P Require Import Prelude Flat Types Constants Routing.

Module RoutingFacts.
Import Routing.

(** A live discovery toward [dest]. *)
Definition discovering (m : FlatMap.t (Z * Z) DiscoveryEntry) (dest : Nwk) : Prop :=
  exists key d, FlatMap.get m key = Some d /\ destination_address d = dest.

Definition routes_known (m : FlatMap.t Z TableEntry) : Prop :=
  FlatMap.all_values (fun _ e => status e = Active -> next_hop_address e <> UNKNOWN_NEXT_HOP) m.
Definition senders_known (own : Nwk) (m : FlatMap.t (Z * Z) DiscoveryEntry) : Prop :=
  FlatMap.all_values (fun key d => key.1 <> own -> sender_address d <> UNKNOWN_NEXT_HOP) m.
Definition underway_backed (s : t) : Prop :=
  FlatMap.all_values (fun dest e => status e = DiscoveryUnderway -> discovering (discovery_table s) dest) (route_table s).

(** Every route and every neighbor a reply would be relayed to is a real address. *)
Record known (own : Nwk) (s : t) : Prop := mkKnown {
  inv_routes : routes_known (route_table s);
  inv_senders : senders_known own (discovery_table s)
}.

(** The calls of the driver on the routing layer that change it. *)
Inductive Call : Type :=
| NoteRouteError (threshold : Z)
| NoteDeliveryFailure (threshold : Z)
| ResetMtorr
| DiscoveryFails (dest : Nwk)
| Usage (dest : Nwk)
| Decay
| InvalidateVia (hop : Nwk)
| RemoveRoute (dest : Nwk)
| RestoreRoute (dest hop : Nwk) (cost : Z)
| StoreRecord (source : Nwk) (relays : list Nwk)
| RemoveRecord (dest : Nwk)
| SourceRoutedFrame (concentrator : Nwk)
| BeginDiscovery (dest : Nwk) (now : Instant) (time : Duration)
| Advertise (now : Instant) (time : Duration)
| AcceptRequest (originator : Nwk) (id : Z) (dest sender : Nwk) (cost : Z) (mto : NwkRouteRequestManyToOne) (now : Instant) (time : Duration)
| RelayedDiscovery (dest : Nwk)
| AcceptReply (originator : Nwk) (id : Z) (responder sender : Nwk) (cost : Z).

Definition run_call (own : Nwk) (s : t) (c : Call) : t :=
  match c with
  | NoteRouteError threshold => (note_route_error s threshold).2
  | NoteDeliveryFailure threshold => (note_delivery_failure s threshold).2
  | ResetMtorr => reset_mtorr_triggers s
  | DiscoveryFails dest => mark_discovery_failed s dest
  | Usage dest => record_usage s dest
  | Decay => decay_activity s
  | InvalidateVia hop => invalidate_via s hop
  | RemoveRoute dest => (remove_route s dest).2
  | RestoreRoute dest hop cost => restore_route s dest hop cost
  | StoreRecord source relays => (store_route_record s source relays).2
  | RemoveRecord dest => (remove_route_record s dest).2
  | SourceRoutedFrame concentrator => note_source_routed_frame s concentrator
  | BeginDiscovery dest now time => (begin_discovery s own dest now time).2
  | Advertise now time => (begin_many_to_one_advertisement s own now time).2
  | AcceptRequest originator id dest sender cost mto now time => (accept_route_request s originator id dest sender cost mto now time).2
  | RelayedDiscovery dest => note_relayed_discovery s dest
  | AcceptReply originator id responder sender cost => (accept_route_reply s own originator id responder sender cost).2
  end.

(** The next hops a call is given: the one of a route the host loads, and the sender of a route
    request or reply. *)
Definition hops (c : Call) : list Nwk :=
  match c with
  | RestoreRoute _ hop _ => [hop]
  | AcceptRequest _ _ _ sender _ _ _ _ => [sender]
  | AcceptReply _ _ _ sender _ => [sender]
  | _ => []
  end.

(** A node's routing layer after its driver's calls. *)
Definition run_calls (own : Nwk) (calls : list Call) : t := fold_left (run_call own) calls new.

(** The key of the next request is free once the expired discoveries are gone. *)
Definition fresh_request (own : Nwk) (now : Instant) (s : t) : Prop :=
  FlatMap.get (discovery_table (expire_discoveries s now)) (own, wrapping_add u8_max (request_sequence_number s) 1) = None.

(** What keeps the routes underway backed by a discovery: a request id is not reused while its
    discovery lives, and a relayed discovery is noted only after its request was accepted. *)
Definition timely (own : Nwk) (s : t) (c : Call) : Prop :=
  match c with
  | BeginDiscovery _ now _ | Advertise now _ => fresh_request own now s
  | RelayedDiscovery dest => discovering (discovery_table s) dest
  | _ => True
  end.

Definition step (own : Nwk) (s s' : t) : Prop :=
  exists c, s' = run_call own s c /\ (UNKNOWN_NEXT_HOP ∉ hops c) /\ timely own s c.
Definition reachable (own : Nwk) (s : t) : Prop := rtc (step own) new s.

(** ** Expiry *)
Lemma discovering_exists m dest :
  existsb (fun d => destination_address d =? dest) (FlatMap.values m) = true <-> discovering m dest.
Proof.
  rewrite existsb_exists. unfold discovering. split.
  - intros (d & (key & Hget)%list_elem_of_In%FlatMap.elem_of_values & Hd%Z.eqb_eq). eauto.
  - intros (key & d & Hget & <-). exists d. split; [|by apply Z.eqb_eq].
    apply list_elem_of_In, FlatMap.elem_of_values. eauto.
Qed.

Lemma get_drop_underway live routes dest dest' :
  FlatMap.get (drop_underway live routes dest) dest' =
  match FlatMap.get routes dest' with
  | Some e => if is_underway e && bool_decide (dest' = dest) &&
                 negb (existsb (fun d => destination_address d =? dest) (FlatMap.values live)) then None else Some e
  | None => None
  end.
Proof.
  unfold drop_underway. destruct (existsb _ _); cbn [negb].
  { destruct (FlatMap.get routes dest'); [|done]. by rewrite andb_false_r. }
  case_bool_decide as Heq; [subst dest'|].
  - destruct (FlatMap.get routes dest) as [e|] eqn:He; [|by rewrite He]. destruct (is_underway e); cbn.
    + apply FlatMap.get_remove_eq.
    + done.
  - assert (forall m', (m' = routes \/ m' = (FlatMap.remove routes dest).2) -> FlatMap.get m' dest' = FlatMap.get routes dest') as Hm.
    { intros m' [->| ->]; [done|]. by rewrite FlatMap.get_remove_ne. }
    rewrite Hm; [|destruct (FlatMap.get routes dest) as [e|]; [destruct (is_underway e)|]; auto].
    destruct (FlatMap.get routes dest'); [|done]. by rewrite andb_false_r.
Qed.

Lemma get_drop_all live l routes dest' :
  FlatMap.get (fold_left (drop_underway live) l routes) dest' =
  match FlatMap.get routes dest' with
  | Some e => if is_underway e && bool_decide (dest' ∈ l) &&
                 negb (existsb (fun d => destination_address d =? dest') (FlatMap.values live)) then None else Some e
  | None => None
  end.
Proof.
  revert routes. induction l as [|dest l IH]; intros routes; cbn [fold_left].
  { destruct (FlatMap.get routes dest'); [|done]. rewrite bool_decide_false by set_solver. by rewrite andb_false_r. }
  rewrite IH, get_drop_underway. destruct (FlatMap.get routes dest') as [e|]; [|done].
  destruct (is_underway e) eqn:Hu; cbn [andb]; [|by rewrite Hu]. destruct (decide (dest' = dest)) as [->|Hne].
  - rewrite bool_decide_true by done. rewrite (bool_decide_true (dest ∈ dest :: l)) by set_solver. cbn [andb].
    destruct (existsb _ _); cbn [negb]; [|done]. rewrite Hu. by rewrite andb_false_r.
  - rewrite (bool_decide_false (dest' = dest)) by done. cbn [andb]. rewrite Hu. cbn [andb].
    rewrite (bool_decide_ext (dest' ∈ dest :: l) (dest' ∈ l)); [done|set_solver].
Qed.

(** The discoveries that outlive [now] stay, and nothing else does. *)
Lemma get_expire_discovery s now key :
  FlatMap.get (discovery_table (expire_discoveries s now)) key =
  match FlatMap.get (discovery_table s) key with
  | Some d => if expired_at now d then None else Some d
  | None => None
  end.
Proof.
  unfold expire_discoveries. cbn [discovery_table with_discoveries]. rewrite FlatMap.get_retain.
  destruct (FlatMap.get (discovery_table s) key) as [d|]; [|done]. cbn. by destruct (expired_at now d).
Qed.

Lemma expire_routes_sub s now dest e :
  FlatMap.get (route_table (expire_discoveries s now)) dest = Some e -> FlatMap.get (route_table s) dest = Some e.
Proof.
  unfold expire_discoveries. cbn [route_table with_discoveries with_routes]. rewrite get_drop_all.
  destruct (FlatMap.get (route_table s) dest); [|done]. by destruct (_ && _).
Qed.

(** An entry that is not underway survives. *)
Lemma expire_keeps s now dest e :
  FlatMap.get (route_table s) dest = Some e -> status e <> DiscoveryUnderway ->
  FlatMap.get (route_table (expire_discoveries s now)) dest = Some e.
Proof.
  intros Hget Hst. unfold expire_discoveries. cbn [route_table with_discoveries with_routes]. rewrite get_drop_all, Hget.
  unfold is_underway. by rewrite bool_decide_false.
Qed.

Lemma expire_known own s now : known own s -> known own (expire_discoveries s now).
Proof.
  intros [Hr Hs]. split.
  - intros dest e Hget. apply (Hr dest). by eapply expire_routes_sub.
  - intros key d. rewrite get_expire_discovery. destruct (FlatMap.get (discovery_table s) key) as [d'|] eqn:Hget; [|done].
    destruct (expired_at now d'); [done|]. intros [= <-]. by apply Hs.
Qed.

Lemma expire_underway s now : underway_backed s -> underway_backed (expire_discoveries s now).
Proof.
  intros Hu dest e Hget Hst. pose proof (expire_routes_sub s now dest e Hget) as Hget0.
  destruct (Hu dest e Hget0 Hst) as (key & d & Hd & Hdest).
  revert Hget. unfold expire_discoveries at 1. cbn [route_table with_discoveries with_routes]. rewrite get_drop_all, Hget0.
  unfold is_underway. rewrite (bool_decide_true (status e = _)) by done. cbn [andb].
  case_bool_decide as Hin; cbn [andb]; [destruct (existsb _ _) eqn:He; cbn [negb]; [|done]|]; intros _.
  + apply discovering_exists in He. exact He.
  + exists key, d. split; [|done]. rewrite get_expire_discovery, Hd.
    destruct (expired_at now d) eqn:Hx; [|done]. exfalso. apply Hin. rewrite <- Hdest. apply list_elem_of_fmap_2.
    apply list_elem_of_filter. split; [done|]. apply FlatMap.elem_of_values. eauto.
Qed.

(** ** Every call keeps the addresses known *)
Lemma known_with_routes own s m : known own s -> routes_known m -> known own (with_routes s m).
Proof. by intros [Hr Hs] Hm. Qed.

Lemma known_with_discoveries own s m : known own s -> senders_known own m -> known own (with_discoveries s m).
Proof. by intros [Hr Hs] Hm. Qed.

Lemma consider_route_known e hop cost :
  hop <> UNKNOWN_NEXT_HOP -> (status e = Active -> next_hop_address e <> UNKNOWN_NEXT_HOP) ->
  next_hop_address (consider_route e hop cost).2 <> UNKNOWN_NEXT_HOP.
Proof.
  intros Hhop He. unfold consider_route, is_active. case_bool_decide as Ha; cbn [andb]; [|done].
  destruct (path_cost e <=? cost); [|done]. by apply He.
Qed.

Lemma consider_route_active e hop cost : status (consider_route e hop cost).2 = Active.
Proof. unfold consider_route, is_active. case_bool_decide as Ha; cbn [andb]; [|done]. by destruct (path_cost e <=? cost). Qed.

Lemma default_known own s dest : known own s ->
  let e := default (entry_new dest Inactive UNKNOWN_NEXT_HOP) (FlatMap.get (route_table s) dest) in
  status e = Active -> next_hop_address e <> UNKNOWN_NEXT_HOP.
Proof.
  intros Hk. cbn. destruct (FlatMap.get (route_table s) dest) as [e|] eqn:He; cbn; [|done]. by apply (inv_routes _ _ Hk dest).
Qed.

Lemma begin_discovery_known own s dest now time : known own s -> known own (begin_discovery s own dest now time).2.
Proof.
  intros Hk%(expire_known _ _ now). unfold begin_discovery. cbn [snd]. set (s1 := expire_discoveries s now) in *. clearbody s1.
  apply known_with_discoveries; [|apply FlatMap.all_values_or_insert; [by intros []|apply Hk]].
  destruct (known_with_routes own s1 (FlatMap.modify (FlatMap.or_insert_with (route_table s1) dest (entry_new dest Inactive UNKNOWN_NEXT_HOP)) dest
    (fun e => set_status e DiscoveryUnderway)) Hk) as [Hr Hs]; [|by split].
  apply FlatMap.all_values_modify; [done|]. apply FlatMap.all_values_or_insert; [done|apply Hk].
Qed.

Lemma advertisement_known own s now time : known own s -> known own (begin_many_to_one_advertisement s own now time).2.
Proof.
  intros Hk. unfold begin_many_to_one_advertisement. cbn [snd].
  assert (known own (expire_discoveries (with_sequence s (wrapping_add u8_max (request_sequence_number s) 1)) now)) as Hk'.
  { apply expire_known. by destruct Hk. }
  apply known_with_discoveries; [done|]. apply FlatMap.all_values_insert; [by intros []|]. apply Hk'.
Qed.

Lemma request_known own s originator id dest sender cost mto now time :
  known own s -> sender <> UNKNOWN_NEXT_HOP -> known own (accept_route_request s originator id dest sender cost mto now time).2.
Proof.
  intros Hk%(expire_known _ _ now) Hsender. unfold accept_route_request.
  set (s1 := expire_discoveries s now) in *. destruct (match FlatMap.get _ _ with Some _ => _ | None => _ end); [done|].
  set (s2 := with_discoveries s1 _). assert (known own s2) as Hk2.
  { apply known_with_discoveries; [done|]. destruct (FlatMap.get (discovery_table s1) (originator, id)) eqn:Hg.
    - apply FlatMap.all_values_modify; [|apply Hk]. by intros.
    - apply FlatMap.all_values_insert; [done|apply Hk]. }
  clearbody s2. pose proof (consider_route_known _ sender cost Hsender (default_known own s2 originator Hk2)) as Hn.
  destruct (consider_route _ sender cost) as [changed e]. cbn [snd] in *.
  apply known_with_routes; [done|]. apply FlatMap.all_values_insert; [|apply Hk2]. by case_bool_decide.
Qed.

Lemma reply_known own s originator id responder sender cost :
  known own s -> sender <> UNKNOWN_NEXT_HOP -> known own (accept_route_reply s own originator id responder sender cost).2.
Proof.
  intros Hk Hsender. unfold accept_route_reply.
  destruct (FlatMap.get (discovery_table s) (originator, id)) as [d|] eqn:Hd; [|done].
  destruct (FlatMap.get (route_table s) responder) as [e|]; [|done].
  assert (known own (with_discoveries (with_routes s (FlatMap.modify (route_table s) responder (fun e => set_route e sender cost)))
            (FlatMap.modify (discovery_table s) (originator, id) (fun d => set_residual d cost)))) as Hk2.
  { apply known_with_discoveries; [apply known_with_routes; [done|]|].
    - apply FlatMap.all_values_modify; [by intros|apply Hk].
    - apply FlatMap.all_values_modify; [|apply Hk]. intros d' _ Hp. exact Hp. }
  destruct (Z.eqb_spec originator own) as [->|Hne]; [by destruct (_ && _)|].
  destruct (residual_cost d <=? cost); [done|]. cbn [discovery_table with_routes] in *.
  set (s2 := with_discoveries _ _) in *. clearbody s2.
  pose proof (consider_route_known _ (sender_address d) (forward_cost d) (inv_senders _ _ Hk _ _ Hd Hne) (default_known own s2 originator Hk2)) as Hn.
  destruct (consider_route _ _ _) as [changed r]. cbn [snd] in *.
  apply known_with_routes; [done|]. apply FlatMap.all_values_insert; [done|apply Hk2].
Qed.

Lemma routing_call_known own s c : UNKNOWN_NEXT_HOP ∉ hops c -> known own s -> known own (run_call own s c).
Proof.
  intros Hu Hk. pose proof (inv_routes _ _ Hk) as Hr. destruct c; cbn [run_call hops] in *; try (by destruct Hk).
  - apply known_with_routes; [done|]. apply FlatMap.all_values_modify; [|done]. by intros.
  - apply known_with_routes; [done|]. apply FlatMap.all_values_modify; [|done]. intros e _ He. exact He.
  - apply known_with_routes; [done|]. apply FlatMap.all_values_iter_mut; [|done]. intros d e _ He. by destruct (is_active e).
  - apply known_with_routes; [done|]. apply FlatMap.all_values_iter_mut; [|done]. intros d e _ He. by destruct (_ && _).
  - apply known_with_routes; [done|]. by apply FlatMap.all_values_remove.
  - apply known_with_routes; [done|]. apply FlatMap.all_values_insert; [|done]. set_solver.
  - apply known_with_routes; [done|]. apply FlatMap.all_values_modify; [|done]. intros e _ He. by destruct (no_route_cache e).
  - by apply begin_discovery_known.
  - by apply advertisement_known.
  - apply request_known; set_solver.
  - apply known_with_routes; [done|]. destruct (FlatMap.get (route_table s) dest) as [e|].
    + apply FlatMap.all_values_modify; [|done]. intros e' _ He. by destruct (is_active e').
    + by apply FlatMap.all_values_insert.
  - apply reply_known; set_solver.
Qed.

(** ** Timely calls keep the routes underway backed by a discovery *)
Lemma underway_with_routes s m :
  FlatMap.all_values (fun dest e => status e = DiscoveryUnderway -> discovering (discovery_table s) dest) m -> underway_backed (with_routes s m).
Proof. done. Qed.

(** Discoveries that are added or re-pointed keep backing the same destinations. *)
Lemma underway_with_discoveries s m :
  underway_backed s -> (forall dest, discovering (discovery_table s) dest -> discovering m dest) -> underway_backed (with_discoveries s m).
Proof. intros Hu Hd dest e Hget Hst. apply Hd. by apply (Hu dest e). Qed.

Lemma discovering_insert m key d dest :
  FlatMap.get m key = None -> discovering m dest -> discovering (FlatMap.insert m key d).2 dest.
Proof.
  intros Hn (k & d' & Hget & Hd). exists k, d'. split; [|done]. rewrite FlatMap.get_insert_ne; [done|congruence].
Qed.

Lemma discovering_modify m key f dest :
  (forall d, destination_address (f d) = destination_address d) -> discovering m dest -> discovering (FlatMap.modify m key f) dest.
Proof.
  intros Hf (k & d & Hget & <-). destruct (decide (key = k)) as [->|Hne].
  - exists k, (f d). by rewrite FlatMap.get_modify_eq, Hget.
  - exists k, d. by rewrite FlatMap.get_modify_ne.
Qed.

Lemma begin_discovery_underway own s dest now time :
  underway_backed s -> fresh_request own now s -> underway_backed (begin_discovery s own dest now time).2.
Proof.
  intros Hu%(expire_underway _ now) Hfresh. unfold begin_discovery, fresh_request in *. cbn [snd].
  change (request_sequence_number (expire_discoveries s now)) with (request_sequence_number s).
  set (s1 := expire_discoveries s now) in *. set (key := (own, wrapping_add u8_max (request_sequence_number s) 1)) in *.
  cbn [with_sequence with_routes discovery_table request_sequence_number route_table].
  change (request_sequence_number s1) with (request_sequence_number s). fold key.
  unfold FlatMap.or_insert_with at 2. rewrite (proj2 (FlatMap.contains_key_false _ key)) by exact Hfresh.
  unfold underway_backed. cbn [with_discoveries with_sequence with_routes route_table discovery_table].
  intros dest' e. destruct (decide (dest = dest')) as [<-|Hne].
  - intros _ _. eexists key, _. rewrite FlatMap.get_insert_eq. done.
  - rewrite FlatMap.get_modify_ne, FlatMap.get_or_insert_ne by done. intros Hget Hst.
    apply discovering_insert; [done|]. by apply (Hu dest' e).
Qed.

Lemma request_underway s originator id dest sender cost mto now time :
  underway_backed s -> underway_backed (accept_route_request s originator id dest sender cost mto now time).2.
Proof.
  intros Hu%(expire_underway _ now). unfold accept_route_request.
  set (s1 := expire_discoveries s now) in *. destruct (match FlatMap.get _ _ with Some _ => _ | None => _ end); [done|].
  set (s2 := with_discoveries s1 _). assert (underway_backed s2) as Hu2.
  { apply underway_with_discoveries; [done|]. intros dest'. destruct (FlatMap.get (discovery_table s1) (originator, id)) eqn:Hg.
    - by apply discovering_modify.
    - by apply discovering_insert. }
  clearbody s2. set (e0 := default _ _). pose proof (consider_route_active e0 sender cost) as Ha.
  destruct (consider_route e0 sender cost) as [changed e]. cbn [snd] in *.
  apply underway_with_routes. apply FlatMap.all_values_insert; [|done]. case_bool_decide; cbn; by rewrite Ha.
Qed.

Lemma reply_underway own s originator id responder sender cost :
  underway_backed s -> underway_backed (accept_route_reply s own originator id responder sender cost).2.
Proof.
  intros Hu. unfold accept_route_reply.
  destruct (FlatMap.get (discovery_table s) (originator, id)) as [d|] eqn:Hd; [|done].
  destruct (FlatMap.get (route_table s) responder) as [e|]; [|done].
  assert (underway_backed (with_discoveries (with_routes s (FlatMap.modify (route_table s) responder (fun e => set_route e sender cost)))
            (FlatMap.modify (discovery_table s) (originator, id) (fun d => set_residual d cost)))) as Hu2.
  { apply underway_with_discoveries; [|by intros dest; apply discovering_modify].
    apply underway_with_routes. apply FlatMap.all_values_modify; [by intros|done]. }
  destruct (originator =? own); [by destruct (_ && _)|].
  destruct (residual_cost d <=? cost); [done|]. cbn [discovery_table with_routes] in *.
  set (s2 := with_discoveries _ _) in *. clearbody s2. set (e0 := default _ _).
  pose proof (consider_route_active e0 (sender_address d) (forward_cost d)) as Ha.
  destruct (consider_route e0 _ _) as [changed r]. cbn [snd] in *.
  apply underway_with_routes. apply FlatMap.all_values_insert; [by rewrite Ha|done].
Qed.

Lemma routing_call_underway own s c : timely own s c -> underway_backed s -> underway_backed (run_call own s c).
Proof.
  intros Ht Hu. destruct c; cbn [run_call timely] in *; try done.
  - apply underway_with_routes. apply FlatMap.all_values_modify; [|done]. by intros.
  - apply underway_with_routes. apply FlatMap.all_values_modify; [|done]. intros e _ He. exact He.
  - apply underway_with_routes. apply FlatMap.all_values_iter_mut; [|done]. intros d e _ He. by destruct (is_active e).
  - apply underway_with_routes. apply FlatMap.all_values_iter_mut; [|done]. intros d e _ He. by destruct (_ && _).
  - apply underway_with_routes. by apply FlatMap.all_values_remove.
  - apply underway_with_routes. by apply FlatMap.all_values_insert.
  - apply underway_with_routes. apply FlatMap.all_values_modify; [|done]. intros e _ He. by destruct (no_route_cache e).
  - by apply begin_discovery_underway.
  - unfold begin_many_to_one_advertisement, fresh_request in *. cbn [snd].
    apply underway_with_discoveries; [by apply expire_underway|]. intros dest. by apply discovering_insert.
  - by apply request_underway.
  - apply underway_with_routes. destruct (FlatMap.get (route_table s) dest) as [e|].
    + apply FlatMap.all_values_modify; [|done]. intros e' _ He. by destruct (is_active e').
    + by apply FlatMap.all_values_insert.
  - by apply reply_underway.
Qed.

Lemma new_known own : known own new.
Proof. by split. Qed.

Lemma routing_calls_known own calls s :
  UNKNOWN_NEXT_HOP ∉ (calls ≫= hops) -> known own s -> known own (fold_left (run_call own) calls s).
Proof.
  revert s. induction calls as [|c calls IH]; intros s; cbn [fold_left mbind list_bind]; [done|]. rewrite elem_of_app.
  intros Hu Hk. apply IH; [tauto|]. apply routing_call_known; [tauto|done].
Qed.

Lemma routing_reachable_known own s : reachable own s -> known own s.
Proof.
  intros Hr. pose proof (new_known own) as Hk. unfold reachable in Hr. induction Hr as [|x y z (c & -> & Hu & _) _ IH]; [done|].
  apply IH. by apply routing_call_known.
Qed.

Lemma routing_reachable_underway own s : reachable own s -> underway_backed s.
Proof.
  intros Hr. assert (underway_backed new) as Hn by done. unfold reachable in Hr. induction Hr as [|x y z (c & -> & _ & Ht) _ IH]; [done|].
  apply IH. by eapply routing_call_underway.
Qed.

Lemma next_hop_known own s dest : known own s -> exists o, next_hop s dest = Ok o /\ o <> Some UNKNOWN_NEXT_HOP.
Proof.
  intros Hk. unfold next_hop. destruct (FlatMap.get (route_table s) dest) as [e|] eqn:He; [|by exists None].
  unfold is_active. case_bool_decide as Ha; [|by exists None]. pose proof (inv_routes _ _ Hk dest e He Ha).
  destruct (Z.eqb_spec (next_hop_address e) UNKNOWN_NEXT_HOP); [done|]. eexists. split; [done|]. congruence.
Qed.

(** ** The theorems *)

(** C11: when the assertion in [next_hop] fires: after any sequence of calls on a new routing layer, in
    any order, in which no route the host loads has the unknown address 0xFFFF as its next hop and
    no route request or reply has it as its sender, the lookup returns and a next hop it returns is
    a real address. The condition is needed, and the code does not check it: after [restore_route]
    with that next hop, the lookup of that destination panics in every state. *)
Theorem next_hop_never_panics own calls dest :
  (UNKNOWN_NEXT_HOP ∉ (calls ≫= hops) -> exists o, next_hop (run_calls own calls) dest = Ok o /\ o <> Some UNKNOWN_NEXT_HOP) /\
  (forall s cost, next_hop (run_call own s (RestoreRoute dest UNKNOWN_NEXT_HOP cost)) dest = Panic).
Proof.
  split.
  - intros Hu. apply (next_hop_known own). apply routing_calls_known; [done|apply new_known].
  - intros s cost. unfold next_hop. cbn [run_call]. unfold restore_route. cbn [route_table with_routes]. by rewrite FlatMap.get_insert_eq.
Qed.

(** A discovery cannot get stuck: once the expired discoveries are cleaned up, every route
    still marked underway is the destination of a discovery that has not expired
    ([discovery_deadline] finds it), so a later frame either waits on a live discovery or starts a
    new one. *)
Lemma underway_never_stuck own s now dest e :
  reachable own s ->
  FlatMap.get (route_table (expire_discoveries s now)) dest = Some e -> status e = DiscoveryUnderway ->
  exists deadline, discovery_deadline (expire_discoveries s now) dest now = Some deadline /\ now < deadline.
Proof.
  intros Hr Hget Hst. pose proof (expire_underway s now (routing_reachable_underway own s Hr) dest e Hget Hst) as Hd.
  destruct Hd as (key & d & Hd & Hdest).
  assert (now < expiration_time d) as Hlt.
  { rewrite get_expire_discovery in Hd. destruct (FlatMap.get (discovery_table s) key) as [d'|]; [|done].
    unfold expired_at in Hd. destruct (Z.leb_spec (expiration_time d') now); [done|]. by simplify_eq. }
  unfold discovery_deadline. set (p := fun d : DiscoveryEntry => if (now <? expiration_time d) && (destination_address d =? dest)
                                    then Some (expiration_time d) else None).
  assert (forall t, t ∈ omap p (FlatMap.values (discovery_table (expire_discoveries s now))) -> now < t) as Hall.
  { intros t (d' & _ & Hp)%list_elem_of_omap. unfold p in Hp. destruct (Z.ltb_spec now (expiration_time d')); cbn in Hp; [|done].
    destruct (_ =? _); [|done]. by simplify_eq. }
  assert (expiration_time d ∈ omap p (FlatMap.values (discovery_table (expire_discoveries s now)))) as Hin.
  { apply list_elem_of_omap. exists d. split; [apply FlatMap.elem_of_values; eauto|].
    unfold p. rewrite Hdest, Z.eqb_refl. by rewrite (proj2 (Z.ltb_lt _ _) Hlt). }
  destruct (omap p _) as [|t l]; [set_solver|]. exists t. split; [done|]. apply Hall. set_solver.
Qed.

(** The suitability rule: accepting a route request never makes an active route worse. The
    entry for the originator keeps its next hop and cost, or gets a strictly cheaper route through
    the sender. *)
Lemma request_never_worsens_route s originator id dest sender cost mto now time e :
  FlatMap.get (route_table s) originator = Some e -> status e = Active ->
  exists e', FlatMap.get (route_table (accept_route_request s originator id dest sender cost mto now time).2) originator = Some e' /\
    status e' = Active /\
    ((next_hop_address e' = next_hop_address e /\ path_cost e' = path_cost e) \/
     (next_hop_address e' = sender /\ path_cost e' = cost /\ cost < path_cost e)).
Proof.
  intros Hget Ha. apply (expire_keeps s now) in Hget; [|by rewrite Ha]. unfold accept_route_request.
  set (s1 := expire_discoveries s now) in *. destruct (match FlatMap.get _ _ with Some _ => _ | None => _ end).
  { exists e. cbn [snd]. split_and!; auto. }
  cbn [route_table with_discoveries]. rewrite Hget. cbn [default from_option Datatypes.id]. unfold consider_route, is_active.
  rewrite (bool_decide_true (status e = Active)) by done. cbn [andb].
  destruct (Z.leb_spec (path_cost e) cost); cbn [snd route_table with_routes]; rewrite FlatMap.get_insert_eq;
    eexists; (split; [done|]); case_bool_decide; cbn; rewrite ?Ha; auto.
Qed.

(** Our own route requests never echo back: while the discovery lives, a relayed copy of the
    request at any nonzero cost is rejected and leaves the tables as expiry left them. *)
Lemma own_request_rejected s own dest now time sender cost mto now' time' :
  fresh_request own now s -> 0 < cost -> now' < Instant.add now time ->
  let '(id, s') := begin_discovery s own dest now time in
  accept_route_request s' own id dest sender cost mto now' time' =
    (mkRouteRequestOutcome false None, expire_discoveries s' now').
Proof.
  intros Hfresh Hcost Hnow. unfold begin_discovery, fresh_request in *.
  change (request_sequence_number (with_routes _ _)) with (request_sequence_number s).
  set (key := (own, wrapping_add u8_max (request_sequence_number s) 1)) in *. set (s' := with_discoveries _ _).
  assert (exists d, FlatMap.get (discovery_table s') key = Some d /\ forward_cost d = 0 /\ expiration_time d = Instant.add now time) as (d & Hd & Hf & Hx).
  { eexists. split_and!; [subst s'; cbn [discovery_table with_discoveries]; by rewrite FlatMap.get_or_insert_eq|..];
      cbn [discovery_table with_sequence with_routes]; by rewrite Hfresh. }
  unfold accept_route_request. fold key. rewrite get_expire_discovery, Hd. unfold expired_at.
  destruct (Z.leb_spec (expiration_time d) now'); [lia|]. rewrite Hf. by rewrite (proj2 (Z.ltb_lt 0 cost)).
Qed.

(** Storing the relays leaves the other destinations alone and gives each relay its suffix. *)
Lemma insert_relays_other relays m dest :
  (dest ∉ relays) -> FlatMap.get (insert_relays m relays) dest = FlatMap.get m dest.
Proof.
  revert m. induction relays as [|r rest IH]; intros m Hnin; cbn [insert_relays]; [done|].
  rewrite IH by set_solver. apply FlatMap.get_insert_ne. set_solver.
Qed.

Lemma insert_relays_suffix l1 r l2 m :
  (r ∉ l2) -> FlatMap.get (insert_relays m (l1 ++ r :: l2)) r = Some l2.
Proof.
  intros Hnin. revert m. induction l1 as [|r' l1 IH]; intros m; cbn [insert_relays app].
  - rewrite insert_relays_other by done. apply FlatMap.get_insert_eq.
  - apply IH.
Qed.

(** A stored route record gives the source its relay list, every relay the relays between it
    and us (the last one is reached directly), and changes no other destination. *)
Lemma store_route_record_suffixes s source relays :
  NoDup (source :: relays) ->
  let s' := (store_route_record s source relays).2 in
  FlatMap.get (route_record_table s') source = Some relays /\
  (forall l1 r l2, relays = l1 ++ r :: l2 -> FlatMap.get (route_record_table s') r = Some l2) /\
  (forall dest, (dest ∉ source :: relays) ->
     FlatMap.get (route_record_table s') dest = FlatMap.get (route_record_table s) dest).
Proof.
  intros [Hnin Hnd]%NoDup_cons s'. subst s'. unfold store_route_record. cbn [snd route_record_table with_records].
  split_and!.
  - apply FlatMap.get_insert_eq.
  - intros l1 r l2 ->. rewrite FlatMap.get_insert_ne by set_solver. apply insert_relays_suffix.
    apply NoDup_app in Hnd as (_ & _ & [Hr _]%NoDup_cons). done.
  - intros dest Hd. rewrite FlatMap.get_insert_ne by set_solver. apply insert_relays_other. set_solver.
Qed.

(** The outbound route decision: [route_to] returns in every reachable state; a source route it
    returns is a nonempty stored record shorter than the limit (so its last relay exists), and any
    other route is the destination itself (a record with no relays) or the active table entry. *)
Lemma route_to_decision own s dest max :
  reachable own s ->
  match route_to s dest max with
  | Ok (Some (SourceRouted relays)) =>
      FlatMap.get (route_record_table s) dest = Some relays /\ relays <> [] /\ Z.of_nat (length relays) < max
  | Ok (Some (NextHop n)) =>
      (FlatMap.get (route_record_table s) dest = Some [] /\ n = dest) \/
      (exists e, FlatMap.get (route_table s) dest = Some e /\ status e = Active /\ n = next_hop_address e /\ n <> UNKNOWN_NEXT_HOP)
  | Ok None => forall e, FlatMap.get (route_table s) dest = Some e -> status e <> Active
  | Err _ | Panic => False
  end.
Proof.
  intros Hr. pose proof (inv_routes _ _ (routing_reachable_known own s Hr)) as Hk.
  assert (match hop ← next_hop s dest; Ok (E:=Empty_set) (option_map NextHop hop) with
          | Ok (Some (NextHop n)) => exists e, FlatMap.get (route_table s) dest = Some e /\ status e = Active /\
                                       n = next_hop_address e /\ n <> UNKNOWN_NEXT_HOP
          | Ok (Some (SourceRouted _)) => False
          | Ok None => forall e, FlatMap.get (route_table s) dest = Some e -> status e <> Active
          | Err _ | Panic => False
          end) as Htable.
  { unfold next_hop. destruct (FlatMap.get (route_table s) dest) as [e|] eqn:He; [|done].
    unfold is_active. case_bool_decide as Ha; cbn; [|by intros ? [= <-]]. specialize (Hk dest e He Ha).
    destruct (Z.eqb_spec (next_hop_address e) UNKNOWN_NEXT_HOP); [done|]. cbn. eauto. }
  unfold route_to. destruct (FlatMap.get (route_record_table s) dest) as [[|r l]|] eqn:Hrec.
  - by left.
  - destruct (Z.ltb_spec (Z.of_nat (length (r :: l))) max); [by split_and!|].
    destruct (_ ≫= _) as [[[]|]| |]; try done. by right.
  - destruct (_ ≫= _) as [[[]|]| |]; try done. by right.
Qed.

(** ** A concrete network

    We are the coordinator (address 0). A route discovery toward 0x1234 is underway; a neighbor
    0x2222 relayed a request of router 0x3333. *)
Definition ex_state : t :=
  (accept_route_request (begin_discovery new 0 0x1234 1000 10000000).2 0x3333 7 0x4444 0x2222 3
     NotManyToOne 2000 10000000).2.

Definition ex_calls : list Call :=
  [BeginDiscovery 0x1234 1000 10000000; AcceptRequest 0x3333 7 0x4444 0x2222 3 NotManyToOne 2000 10000000].

Lemma routing_ex_state_reachable : reachable 0 ex_state.
Proof.
  eapply rtc_l; [exists (BeginDiscovery 0x1234 1000 10000000); split_and!; [reflexivity|set_solver|reflexivity]|].
  apply rtc_once. exists (AcceptRequest 0x3333 7 0x4444 0x2222 3 NotManyToOne 2000 10000000). split_and!; [done| |done].
  cbn. by intros ?%list_elem_of_singleton.
Qed.

Lemma next_hop_never_panics_witness :
  (exists o, next_hop (run_calls 0 ex_calls) 0x3333 = Ok o /\ o <> Some UNKNOWN_NEXT_HOP) /\
  next_hop (run_calls 0 ex_calls) 0x3333 = Ok (Some 0x2222).
Proof.
  split; [|vm_compute; reflexivity]. apply (next_hop_never_panics 0 ex_calls 0x3333). cbn. by intros ?%list_elem_of_singleton.
Defined.

Lemma underway_never_stuck_witness :
  exists deadline, discovery_deadline (expire_discoveries ex_state 3000) 0x1234 3000 = Some deadline /\ 3000 < deadline.
Proof.
  eapply (underway_never_stuck 0 ex_state 3000 0x1234); [exact routing_ex_state_reachable|vm_compute; reflexivity|reflexivity].
Defined.

Lemma request_never_worsens_route_witness :
  exists e', FlatMap.get (route_table (accept_route_request ex_state 0x3333 8 0x4444 0x5555 200 NotManyToOne 4000 10).2) 0x3333 = Some e' /\
    status e' = Active /\
    ((next_hop_address e' = 0x2222 /\ path_cost e' = 3) \/ (next_hop_address e' = 0x5555 /\ path_cost e' = 200 /\ 200 < 3)).
Proof.
  apply (request_never_worsens_route ex_state 0x3333 8 0x4444 0x5555 200 NotManyToOne 4000 10
    (mkTableEntry 0x3333 Active false false false false 0x2222 3 0 0)); vm_compute; reflexivity.
Defined.

Lemma own_request_rejected_witness :
  let '(id, s') := begin_discovery new 0 0x1234 1000 10000000 in
  accept_route_request s' 0 id 0x1234 0x2222 1 NotManyToOne 2000 10 =
    (mkRouteRequestOutcome false None, expire_discoveries s' 2000).
Proof.
  apply (own_request_rejected new 0 0x1234 1000 10000000 0x2222 1 NotManyToOne 2000 10); [reflexivity|lia|vm_compute; reflexivity].
Defined.

Lemma store_route_record_suffixes_witness :
  FlatMap.get (route_record_table (store_route_record ex_state 0x1111 [0x2222; 0x3333]).2) 0x2222 = Some [0x3333].
Proof.
  apply (store_route_record_suffixes ex_state 0x1111 [0x2222; 0x3333]) with (l1 := []); [|reflexivity].
  apply (bool_decide_unpack _). vm_compute. exact I.
Defined.

Lemma route_to_decision_witness :
  route_to ex_state 0x3333 12 = Ok (Some (NextHop 0x2222)) /\
  match route_to ex_state 0x3333 12 with Ok _ => True | _ => False end.
Proof.
  split; [vm_compute; reflexivity|].
  pose proof (route_to_decision 0 ex_state 0x3333 12 routing_ex_state_reachable) as Hd.
  destruct (route_to ex_state 0x3333 12) as [o| |]; [exact I|exact Hd|exact Hd].
Defined.
End RoutingFacts.
