(* ===== verification/Neighbors.v ===== *)
(** * The neighbor table: [src/crates/ziggurat-zigbee/src/nwk/neighbors.rs]

    Link quality accounting, link status digestion and aging.  [LqaSamples] is a ring of the last
    three LQI samples. *)

From S2P Require Import Prelude Flat Types Ring Constants.

Module Neighbors.

Definition LINK_QUALITY_SAMPLES : nat := 3.
Definition PENDING_LQA_CAP : nat := 64.

Definition lqi_to_link_cost (lqi : Z) : Z :=
  if lqi <=? 16 then 7
  else if lqi <=? 32 then 6
  else if lqi <=? 64 then 5
  else if lqi <=? 96 then 4
  else if lqi <=? 128 then 3
  else if lqi <=? 192 then 2
  else 1.

(** [NwkDeviceType] of [src/crates/ziggurat-zigbee/src/nwk.rs]. *)
Inductive NwkDeviceType : Type := Coordinator | Router | EndDevice.

#[export] Instance NwkDeviceType_eq_dec : EqDecision NwkDeviceType.
Proof. solve_decision. Defined.

Inductive Relationship : Type :=
| Parent | Child | Sibling | NoneOfTheAbove | PreviousChild | UnauthenticatedChild
| UnauthorizedChildWithRelayAllowed | LostChild | AddressConflictChild | BackboneMeshSibling.

(** [NwkLinkStatus] and [NwkLinkStatusCommand] of [nwk/commands.rs]; the costs are 3-bit fields. *)
Record NwkLinkStatus := mkLinkStatus {
  ls_address : Nwk;
  ls_incoming_cost : Z;
  ls_outgoing_cost : Z
}.

Record NwkLinkStatusCommand := mkLinkStatusCommand {
  is_first_frame : bool;
  is_last_frame : bool;
  link_statuses : list NwkLinkStatus
}.

Record TableEntry := mkTableEntry {
  extended_address : Eui64;
  network_address : Nwk;
  device_type : NwkDeviceType;
  rx_on_when_idle : bool;
  end_device_configuration : Z;
  timeout_at : Instant;
  device_timeout : Duration;
  relationship : Relationship;
  transmit_failure : Z;
  lqas : Ring.t Z;
  outgoing_cost : Z;
  last_link_status_timestamp : Instant;
  incoming_beacon_timestamp : Z;
  beacon_transmission_time_offset : Z;
  keepalive_received : bool;
  mac_unicast_bytes_transmitted : Z;
  mac_unicast_bytes_received : Z;
  router_added_timestamp : Instant;
  router_connectivity : Z;
  router_neighbor_set_diversity : Z;
  router_outbound_activity : Z;
  router_inbound_activity : Z;
  security_timer : Z
}.

(** One update per field the code assigns. *)
Definition set_network_address (e : TableEntry) (x_network_address : Nwk) : TableEntry :=
  mkTableEntry
    (extended_address e) x_network_address (device_type e) (rx_on_when_idle e)
    (end_device_configuration e) (timeout_at e) (device_timeout e) (relationship e)
    (transmit_failure e) (lqas e) (outgoing_cost e) (last_link_status_timestamp e)
    (incoming_beacon_timestamp e) (beacon_transmission_time_offset e) (keepalive_received e)
    (mac_unicast_bytes_transmitted e) (mac_unicast_bytes_received e) (router_added_timestamp e)
    (router_connectivity e) (router_neighbor_set_diversity e) (router_outbound_activity e)
    (router_inbound_activity e) (security_timer e).
Definition set_device_type (e : TableEntry) (x_device_type : NwkDeviceType) : TableEntry :=
  mkTableEntry
    (extended_address e) (network_address e) x_device_type (rx_on_when_idle e)
    (end_device_configuration e) (timeout_at e) (device_timeout e) (relationship e)
    (transmit_failure e) (lqas e) (outgoing_cost e) (last_link_status_timestamp e)
    (incoming_beacon_timestamp e) (beacon_transmission_time_offset e) (keepalive_received e)
    (mac_unicast_bytes_transmitted e) (mac_unicast_bytes_received e) (router_added_timestamp e)
    (router_connectivity e) (router_neighbor_set_diversity e) (router_outbound_activity e)
    (router_inbound_activity e) (security_timer e).
Definition set_rx_on_when_idle (e : TableEntry) (x_rx_on_when_idle : bool) : TableEntry :=
  mkTableEntry
    (extended_address e) (network_address e) (device_type e) x_rx_on_when_idle
    (end_device_configuration e) (timeout_at e) (device_timeout e) (relationship e)
    (transmit_failure e) (lqas e) (outgoing_cost e) (last_link_status_timestamp e)
    (incoming_beacon_timestamp e) (beacon_transmission_time_offset e) (keepalive_received e)
    (mac_unicast_bytes_transmitted e) (mac_unicast_bytes_received e) (router_added_timestamp e)
    (router_connectivity e) (router_neighbor_set_diversity e) (router_outbound_activity e)
    (router_inbound_activity e) (security_timer e).
Definition set_end_device_configuration (e : TableEntry) (x_end_device_configuration : Z) : TableEntry :=
  mkTableEntry
    (extended_address e) (network_address e) (device_type e) (rx_on_when_idle e)
    x_end_device_configuration (timeout_at e) (device_timeout e) (relationship e) (transmit_failure
    e) (lqas e) (outgoing_cost e) (last_link_status_timestamp e) (incoming_beacon_timestamp e)
    (beacon_transmission_time_offset e) (keepalive_received e) (mac_unicast_bytes_transmitted e)
    (mac_unicast_bytes_received e) (router_added_timestamp e) (router_connectivity e)
    (router_neighbor_set_diversity e) (router_outbound_activity e) (router_inbound_activity e)
    (security_timer e).
Definition set_timeout_at (e : TableEntry) (x_timeout_at : Instant) : TableEntry :=
  mkTableEntry
    (extended_address e) (network_address e) (device_type e) (rx_on_when_idle e)
    (end_device_configuration e) x_timeout_at (device_timeout e) (relationship e) (transmit_failure
    e) (lqas e) (outgoing_cost e) (last_link_status_timestamp e) (incoming_beacon_timestamp e)
    (beacon_transmission_time_offset e) (keepalive_received e) (mac_unicast_bytes_transmitted e)
    (mac_unicast_bytes_received e) (router_added_timestamp e) (router_connectivity e)
    (router_neighbor_set_diversity e) (router_outbound_activity e) (router_inbound_activity e)
    (security_timer e).
Definition set_device_timeout (e : TableEntry) (x_device_timeout : Duration) : TableEntry :=
  mkTableEntry
    (extended_address e) (network_address e) (device_type e) (rx_on_when_idle e)
    (end_device_configuration e) (timeout_at e) x_device_timeout (relationship e) (transmit_failure
    e) (lqas e) (outgoing_cost e) (last_link_status_timestamp e) (incoming_beacon_timestamp e)
    (beacon_transmission_time_offset e) (keepalive_received e) (mac_unicast_bytes_transmitted e)
    (mac_unicast_bytes_received e) (router_added_timestamp e) (router_connectivity e)
    (router_neighbor_set_diversity e) (router_outbound_activity e) (router_inbound_activity e)
    (security_timer e).
Definition set_relationship (e : TableEntry) (x_relationship : Relationship) : TableEntry :=
  mkTableEntry
    (extended_address e) (network_address e) (device_type e) (rx_on_when_idle e)
    (end_device_configuration e) (timeout_at e) (device_timeout e) x_relationship (transmit_failure
    e) (lqas e) (outgoing_cost e) (last_link_status_timestamp e) (incoming_beacon_timestamp e)
    (beacon_transmission_time_offset e) (keepalive_received e) (mac_unicast_bytes_transmitted e)
    (mac_unicast_bytes_received e) (router_added_timestamp e) (router_connectivity e)
    (router_neighbor_set_diversity e) (router_outbound_activity e) (router_inbound_activity e)
    (security_timer e).
Definition set_transmit_failure (e : TableEntry) (x_transmit_failure : Z) : TableEntry :=
  mkTableEntry
    (extended_address e) (network_address e) (device_type e) (rx_on_when_idle e)
    (end_device_configuration e) (timeout_at e) (device_timeout e) (relationship e)
    x_transmit_failure (lqas e) (outgoing_cost e) (last_link_status_timestamp e)
    (incoming_beacon_timestamp e) (beacon_transmission_time_offset e) (keepalive_received e)
    (mac_unicast_bytes_transmitted e) (mac_unicast_bytes_received e) (router_added_timestamp e)
    (router_connectivity e) (router_neighbor_set_diversity e) (router_outbound_activity e)
    (router_inbound_activity e) (security_timer e).
Definition set_lqas (e : TableEntry) (x_lqas : Ring.t Z) : TableEntry :=
  mkTableEntry
    (extended_address e) (network_address e) (device_type e) (rx_on_when_idle e)
    (end_device_configuration e) (timeout_at e) (device_timeout e) (relationship e)
    (transmit_failure e) x_lqas (outgoing_cost e) (last_link_status_timestamp e)
    (incoming_beacon_timestamp e) (beacon_transmission_time_offset e) (keepalive_received e)
    (mac_unicast_bytes_transmitted e) (mac_unicast_bytes_received e) (router_added_timestamp e)
    (router_connectivity e) (router_neighbor_set_diversity e) (router_outbound_activity e)
    (router_inbound_activity e) (security_timer e).
Definition set_outgoing_cost (e : TableEntry) (x_outgoing_cost : Z) : TableEntry :=
  mkTableEntry
    (extended_address e) (network_address e) (device_type e) (rx_on_when_idle e)
    (end_device_configuration e) (timeout_at e) (device_timeout e) (relationship e)
    (transmit_failure e) (lqas e) x_outgoing_cost (last_link_status_timestamp e)
    (incoming_beacon_timestamp e) (beacon_transmission_time_offset e) (keepalive_received e)
    (mac_unicast_bytes_transmitted e) (mac_unicast_bytes_received e) (router_added_timestamp e)
    (router_connectivity e) (router_neighbor_set_diversity e) (router_outbound_activity e)
    (router_inbound_activity e) (security_timer e).
Definition set_last_link_status_timestamp (e : TableEntry) (x_last_link_status_timestamp : Instant) : TableEntry :=
  mkTableEntry
    (extended_address e) (network_address e) (device_type e) (rx_on_when_idle e)
    (end_device_configuration e) (timeout_at e) (device_timeout e) (relationship e)
    (transmit_failure e) (lqas e) (outgoing_cost e) x_last_link_status_timestamp
    (incoming_beacon_timestamp e) (beacon_transmission_time_offset e) (keepalive_received e)
    (mac_unicast_bytes_transmitted e) (mac_unicast_bytes_received e) (router_added_timestamp e)
    (router_connectivity e) (router_neighbor_set_diversity e) (router_outbound_activity e)
    (router_inbound_activity e) (security_timer e).
Definition set_keepalive_received (e : TableEntry) (x_keepalive_received : bool) : TableEntry :=
  mkTableEntry
    (extended_address e) (network_address e) (device_type e) (rx_on_when_idle e)
    (end_device_configuration e) (timeout_at e) (device_timeout e) (relationship e)
    (transmit_failure e) (lqas e) (outgoing_cost e) (last_link_status_timestamp e)
    (incoming_beacon_timestamp e) (beacon_transmission_time_offset e) x_keepalive_received
    (mac_unicast_bytes_transmitted e) (mac_unicast_bytes_received e) (router_added_timestamp e)
    (router_connectivity e) (router_neighbor_set_diversity e) (router_outbound_activity e)
    (router_inbound_activity e) (security_timer e).
Definition set_router_connectivity (e : TableEntry) (x_router_connectivity : Z) : TableEntry :=
  mkTableEntry
    (extended_address e) (network_address e) (device_type e) (rx_on_when_idle e)
    (end_device_configuration e) (timeout_at e) (device_timeout e) (relationship e)
    (transmit_failure e) (lqas e) (outgoing_cost e) (last_link_status_timestamp e)
    (incoming_beacon_timestamp e) (beacon_transmission_time_offset e) (keepalive_received e)
    (mac_unicast_bytes_transmitted e) (mac_unicast_bytes_received e) (router_added_timestamp e)
    x_router_connectivity (router_neighbor_set_diversity e) (router_outbound_activity e)
    (router_inbound_activity e) (security_timer e).
Definition set_router_neighbor_set_diversity (e : TableEntry) (x_router_neighbor_set_diversity : Z) : TableEntry :=
  mkTableEntry
    (extended_address e) (network_address e) (device_type e) (rx_on_when_idle e)
    (end_device_configuration e) (timeout_at e) (device_timeout e) (relationship e)
    (transmit_failure e) (lqas e) (outgoing_cost e) (last_link_status_timestamp e)
    (incoming_beacon_timestamp e) (beacon_transmission_time_offset e) (keepalive_received e)
    (mac_unicast_bytes_transmitted e) (mac_unicast_bytes_received e) (router_added_timestamp e)
    (router_connectivity e) x_router_neighbor_set_diversity (router_outbound_activity e)
    (router_inbound_activity e) (security_timer e).
Definition set_router_outbound_activity (e : TableEntry) (x_router_outbound_activity : Z) : TableEntry :=
  mkTableEntry
    (extended_address e) (network_address e) (device_type e) (rx_on_when_idle e)
    (end_device_configuration e) (timeout_at e) (device_timeout e) (relationship e)
    (transmit_failure e) (lqas e) (outgoing_cost e) (last_link_status_timestamp e)
    (incoming_beacon_timestamp e) (beacon_transmission_time_offset e) (keepalive_received e)
    (mac_unicast_bytes_transmitted e) (mac_unicast_bytes_received e) (router_added_timestamp e)
    (router_connectivity e) (router_neighbor_set_diversity e) x_router_outbound_activity
    (router_inbound_activity e) (security_timer e).
Definition set_router_inbound_activity (e : TableEntry) (x_router_inbound_activity : Z) : TableEntry :=
  mkTableEntry
    (extended_address e) (network_address e) (device_type e) (rx_on_when_idle e)
    (end_device_configuration e) (timeout_at e) (device_timeout e) (relationship e)
    (transmit_failure e) (lqas e) (outgoing_cost e) (last_link_status_timestamp e)
    (incoming_beacon_timestamp e) (beacon_transmission_time_offset e) (keepalive_received e)
    (mac_unicast_bytes_transmitted e) (mac_unicast_bytes_received e) (router_added_timestamp e)
    (router_connectivity e) (router_neighbor_set_diversity e) (router_outbound_activity e)
    x_router_inbound_activity (security_timer e).

Definition lqa_new : Ring.t Z := Ring.new 0 LINK_QUALITY_SAMPLES.
Definition lqa_push (r : Ring.t Z) (lqi : Z) : may (Ring.t Z) := Ring.push LINK_QUALITY_SAMPLES r lqi.

(** [lqa]: the median of a full sample window (the window is odd). *)
Definition lqa (e : TableEntry) : option Z :=
  if negb (Ring.is_full LINK_QUALITY_SAMPLES (lqas e)) then None
  else
    let sorted := merge_sort Z.le (Ring.values (lqas e)) in
    if Nat.odd LINK_QUALITY_SAMPLES
    then sorted !! (LINK_QUALITY_SAMPLES / 2)%nat
    else
      mid1 ← sorted !! (LINK_QUALITY_SAMPLES / 2 - 1)%nat;
      mid2 ← sorted !! (LINK_QUALITY_SAMPLES / 2)%nat;
      Some ((mid1 + mid2) / 2).

Definition incoming_link_cost (e : TableEntry) : Z :=
  match lqa e with Some l => lqi_to_link_cost l | None => 0 end.

Definition is_child (e : TableEntry) : bool :=
  match relationship e with Child | UnauthenticatedChild => true | _ => false end.

Definition is_type (ty : NwkDeviceType) (e : TableEntry) : bool := bool_decide (device_type e = ty).

Record ChildDescriptor := mkChild {
  c_eui64 : Eui64;
  c_network_address : Nwk;
  c_device_type : NwkDeviceType;
  c_rx_on_when_idle : bool;
  c_device_timeout : Duration;
  c_relationship : Relationship
}.

Record NeighborLink := mkLink {
  l_eui64 : Eui64;
  l_outgoing_cost : Z;
  l_incoming_cost : Z
}.

(** [Neighbors]. *)
Record t := mk {
  table : FlatMap.t Eui64 TableEntry;
  pending_lqas : FlatMap.t Z (Ring.t Z)
}.

Definition new : t := mk FlatMap.new FlatMap.new.
Definition with_table (s : t) (m : FlatMap.t Eui64 TableEntry) : t := mk m (pending_lqas s).

(** [values_mut().find(..)]: the first entry in key order, with its key. *)
Definition find_entry (p : TableEntry -> bool) (s : t) : option (Eui64 * TableEntry) :=
  find (fun e => p e.2) (FlatMap.entries (table s)).

Definition has_address (nwk : Nwk) (e : TableEntry) : bool := network_address e =? nwk.

(** An update of one entry that may panic ([lqas.push]). *)
Definition push_lqa (m : FlatMap.t Eui64 TableEntry) (eui64 : Eui64) (lqi : Z) : may (FlatMap.t Eui64 TableEntry) :=
  e ← unwrap (FlatMap.get m eui64);
  r ← lqa_push (lqas e) lqi;
  Ok (FlatMap.modify m eui64 (fun e => set_lqas e r)).

Definition record_lqa (s : t) (sender_nwk : Nwk) (lqi : Z) : may t :=
  match find_entry (has_address sender_nwk) s with
  | Some (eui64, _) =>
      m ← push_lqa (table s) eui64 lqi;
      Ok (with_table s m)
  | None =>
      let pending :=
        if (PENDING_LQA_CAP <=? FlatMap.len (pending_lqas s))%nat && negb (FlatMap.contains_key (pending_lqas s) sender_nwk)
        then match FlatMap.pop_first (pending_lqas s) with Some (_, m) => m | None => pending_lqas s end
        else pending_lqas s in
      let pending := FlatMap.or_insert_with pending sender_nwk lqa_new in
      r0 ← unwrap (FlatMap.get pending sender_nwk);
      r ← lqa_push r0 lqi;
      Ok (mk (table s) (FlatMap.modify pending sender_nwk (fun _ => r)))
  end.

Definition link (s : t) (nwk : Nwk) : option NeighborLink :=
  '(_, e) ← find_entry (has_address nwk) s;
  Some (mkLink (extended_address e) (outgoing_cost e) (incoming_link_cost e)).

Definition entries (s : t) : list TableEntry := FlatMap.values (table s).
Definition has_network_address (s : t) (nwk : Nwk) : bool := existsb (has_address nwk) (entries s).

Definition end_device_child_eui64 (s : t) (nwk : Nwk) : option Eui64 :=
  (fun e => extended_address e.2) <$>
    find_entry (fun e => has_address nwk e && is_type EndDevice e && is_child e) s.

Definition sleepy_child_eui64 (s : t) (nwk : Nwk) : option Eui64 :=
  (fun e => extended_address e.2) <$>
    find_entry (fun e => has_address nwk e && negb (rx_on_when_idle e) && is_child e) s.

Definition sleepy_children (s : t) : list (Eui64 * Nwk) :=
  (fun e => (extended_address e, network_address e)) <$>
    filter (fun e => negb (rx_on_when_idle e) && is_child e = true) (entries s).

Definition contains (s : t) (eui64 : Eui64) : bool := FlatMap.contains_key (table s) eui64.

Definition device_capability (s : t) (eui64 : Eui64) : option (NwkDeviceType * bool) :=
  (fun e => (device_type e, rx_on_when_idle e)) <$> FlatMap.get (table s) eui64.

Definition is_end_device_child (e : TableEntry) : bool := is_child e && is_type EndDevice e.

Definition end_device_child_count (s : t) : nat := length (filter (fun e => is_end_device_child e = true) (entries s)).

Definition keepalive (now : Instant) (e : TableEntry) : TableEntry :=
  set_keepalive_received (set_timeout_at e (Instant.add now (device_timeout e))) true.

Definition refresh_child_timeout (s : t) (eui64 : option Eui64) (nwk : option Nwk) (now : Instant) : bool * t :=
  match eui64 ≫= fun x => FlatMap.get (table s) x ≫= fun _ => Some x with
  | Some x => (true, with_table s (FlatMap.modify (table s) x (keepalive now)))
  | None =>
      match nwk ≫= fun n => find_entry (has_address n) s with
      | Some (x, _) => (true, with_table s (FlatMap.modify (table s) x (keepalive now)))
      | None => (false, s)
      end
  end.

Definition set_child_timeout (s : t) (nwk : Nwk) (timeout : Duration) (configuration : Z) (now : Instant) : bool * t :=
  match find_entry (fun e => has_address nwk e && is_child e && is_type EndDevice e) s with
  | None => (false, s)
  | Some (x, _) =>
      (true, with_table s (FlatMap.modify (table s) x (fun e =>
         set_keepalive_received (set_end_device_configuration
           (set_timeout_at (set_device_timeout e timeout) (Instant.add now timeout)) configuration) true)))
  end.

Definition update_network_address (s : t) (eui64 : Eui64) (nwk : Nwk) : t :=
  with_table s (FlatMap.modify (table s) eui64 (fun e =>
    if negb (network_address e =? nwk) then set_network_address e nwk else e)).

Definition take_child (s : t) (eui64 : Eui64) : option Nwk * t :=
  match FlatMap.get (table s) eui64 with
  | None => (None, s)
  | Some e =>
      if negb (is_child e) then (None, s)
      else let '(removed, m) := FlatMap.remove (table s) eui64 in (network_address <$> removed, with_table s m)
  end.

Definition end_device_children (s : t) : list Eui64 :=
  extended_address <$> filter (fun e => is_end_device_child e = true) (entries s).

Definition is_unconfirmed_end_device_child (s : t) (eui64 : Eui64) : bool :=
  match FlatMap.get (table s) eui64 with
  | Some e => is_end_device_child e && negb (keepalive_received e)
  | None => false
  end.

(** The loop of [remove_claimed_children]. *)
Fixpoint remove_claimed_children (s : t) (claimed : list Eui64) : list (Eui64 * Nwk) * t :=
  match claimed with
  | [] => ([], s)
  | eui64 :: claimed =>
      match FlatMap.get (table s) eui64 with
      | Some e =>
          if is_type EndDevice e then
            let '(removed, s') := remove_claimed_children (with_table s (FlatMap.remove (table s) eui64).2) claimed in
            ((eui64, network_address e) :: removed, s')
          else remove_claimed_children s claimed
      | None => remove_claimed_children s claimed
      end
  end.

(** The loop of [process_parent_annce]. *)
Fixpoint process_parent_annce (s : t) (announced : list Eui64) : (list Eui64 * list (Eui64 * Nwk)) * t :=
  match announced with
  | [] => (([], []), s)
  | eui64 :: announced =>
      match FlatMap.get (table s) eui64 with
      | Some e =>
          if is_type EndDevice e then
            if keepalive_received e then
              let '((claimed, removed), s') := process_parent_annce s announced in ((eui64 :: claimed, removed), s')
            else
              let '((claimed, removed), s') :=
                process_parent_annce (with_table s (FlatMap.remove (table s) eui64).2) announced in
              ((claimed, (eui64, network_address e) :: removed), s')
          else process_parent_annce s announced
      | None => process_parent_annce s announced
      end
  end.

Definition timed_out (now : Instant) (e : TableEntry) : bool := is_end_device_child e && (timeout_at e <=? now).

Definition evict_timed_out_children (s : t) (now : Instant) : list (Eui64 * Nwk) * t :=
  let evicted := (fun e => (extended_address e, network_address e)) <$> filter (fun e => timed_out now e = true) (entries s) in
  (evicted, with_table s (fold_left (fun m x => (FlatMap.remove m x.1).2) evicted (table s))).

Definition child_entry (child : ChildDescriptor) (now : Instant) : TableEntry :=
  {| extended_address := c_eui64 child; network_address := c_network_address child;
     device_type := c_device_type child; rx_on_when_idle := c_rx_on_when_idle child;
     end_device_configuration := 0; timeout_at := Instant.add now (c_device_timeout child);
     device_timeout := c_device_timeout child; relationship := Child; transmit_failure := 0;
     lqas := lqa_new; outgoing_cost := 0; last_link_status_timestamp := now;
     incoming_beacon_timestamp := 0; beacon_transmission_time_offset := 0; keepalive_received := false;
     mac_unicast_bytes_transmitted := 0; mac_unicast_bytes_received := 0; router_added_timestamp := now;
     router_connectivity := 0; router_neighbor_set_diversity := 0; router_outbound_activity := 0;
     router_inbound_activity := 0; security_timer := 0 |}.

Definition upsert_child (s : t) (child : ChildDescriptor) (now : Instant) : t :=
  with_table s (FlatMap.modify (FlatMap.or_insert_with (table s) (c_eui64 child) (child_entry child now)) (c_eui64 child)
    (fun e => set_relationship (set_timeout_at (set_device_timeout (set_rx_on_when_idle (set_device_type
       (set_network_address e (c_network_address child)) (c_device_type child)) (c_rx_on_when_idle child))
       (c_device_timeout child)) (Instant.add now (c_device_timeout child))) (c_relationship child))).

Definition remove (s : t) (eui64 : Eui64) : t := with_table s (FlatMap.remove (table s) eui64).2.

Definition live_router (e : TableEntry) : bool := is_type Router e && (0 <? outgoing_cost e).

Definition any_live_router_link (s : t) : bool := existsb live_router (entries s).

Definition next_child_timeout (s : t) : option Instant :=
  min_instant (timeout_at <$> filter (fun e => is_end_device_child e = true) (entries s)).

Definition expected_broadcast_relayers (s : t) : list Nwk :=
  network_address <$> filter (fun e => live_router e = true) (entries s).

(** A neighbor that has been silent for [max_age]. *)
Definition stale (now : Instant) (max_age : Duration) (e : TableEntry) : bool :=
  (0 <? outgoing_cost e) && (Instant.add (last_link_status_timestamp e) max_age <=? now).

Definition age (s : t) (now : Instant) (max_age : Duration) : list Nwk * t :=
  (network_address <$> filter (fun e => stale now max_age e = true) (entries s),
   with_table s (FlatMap.iter_mut (fun _ e =>
     if stale now max_age e then set_outgoing_cost (set_lqas e (Ring.clear (lqas e))) 0 else e) (table s))).

Definition decay_activity (s : t) : t :=
  with_table s (FlatMap.iter_mut (fun _ e =>
    set_router_inbound_activity (set_router_outbound_activity e (saturating_sub (router_outbound_activity e) 1))
      (saturating_sub (router_inbound_activity e) 1)) (table s)).

Definition record_outbound_activity (s : t) (eui64 : Eui64) : t :=
  with_table s (FlatMap.modify (table s) eui64 (fun e =>
    set_router_outbound_activity e (saturating_add u8_max (router_outbound_activity e) 1))).

Definition record_inbound_activity (s : t) (nwk : Nwk) : t :=
  match find_entry (has_address nwk) s with
  | Some (x, _) => with_table s (FlatMap.modify (table s) x (fun e =>
      set_router_inbound_activity e (saturating_add u8_max (router_inbound_activity e) 1)))
  | None => s
  end.

Definition record_transmit_failure (s : t) (eui64 : Eui64) : t :=
  with_table s (FlatMap.modify (table s) eui64 (fun e => set_transmit_failure e (saturating_add u8_max (transmit_failure e) 1))).

Definition reset_transmit_failures (s : t) : t :=
  with_table s (FlatMap.iter_mut (fun _ e => set_transmit_failure e 0) (table s)).

Definition link_status_entries (s : t) : list NwkLinkStatus :=
  omap (fun e => if is_type Router e
                 then (fun l => mkLinkStatus (network_address e) (lqi_to_link_cost l) (outgoing_cost e)) <$> lqa e
                 else None) (entries s).

(** [Duration::from_secs(0xFFFFFFFF)]. *)
Definition forever : Duration := 0xFFFFFFFF * 1000000.

Definition sibling_entry (eui64 : Eui64) (nwk : Nwk) (samples : Ring.t Z) (now : Instant) : TableEntry :=
  {| extended_address := eui64; network_address := nwk; device_type := Router; rx_on_when_idle := true;
     end_device_configuration := 0; timeout_at := Instant.add now forever; device_timeout := forever;
     relationship := Sibling; transmit_failure := 0; lqas := samples; outgoing_cost := 0;
     last_link_status_timestamp := now; incoming_beacon_timestamp := 0; beacon_transmission_time_offset := 0;
     keepalive_received := true; mac_unicast_bytes_transmitted := 0; mac_unicast_bytes_received := 0;
     router_added_timestamp := now; router_connectivity := 0; router_neighbor_set_diversity := 0;
     router_outbound_activity := 0; router_inbound_activity := 0; security_timer := 0 |}.

(** The body of [on_link_status]'s loop over the listed links; [7 - max(..)] is checked. *)
Definition digest_link (own : Nwk) (connected : FlatSet.t Z) (e : TableEntry) (l : NwkLinkStatus) : may TableEntry :=
  e ← (if 0 <? ls_outgoing_cost l then
         connectivity ← unwrap (checked_sub 7 (Z.max (ls_incoming_cost l) (ls_outgoing_cost l)));
         let e := set_router_connectivity e (saturating_add u8_max (router_connectivity e) connectivity) in
         Ok (if FlatSet.contains connected (ls_address l) then e
             else set_router_neighbor_set_diversity e (saturating_add u8_max (router_neighbor_set_diversity e) connectivity))
       else Ok e);
  Ok (if ls_address l =? own then set_outgoing_cost e (ls_incoming_cost l) else e).

Fixpoint digest_links (own : Nwk) (connected : FlatSet.t Z) (e : TableEntry) (l : list NwkLinkStatus) : may TableEntry :=
  match l with
  | [] => Ok e
  | x :: l => e ← digest_link own connected e x; digest_links own connected e l
  end.

Definition connected_neighbors (s : t) : FlatSet.t Z :=
  FlatSet.from_iter (network_address <$> filter (fun e => (0 <? outgoing_cost e) = true) (entries s)).

Definition on_link_status (s : t) (own : Nwk) (source_ieee : Eui64) (source_nwk : Nwk) (lqi : Z)
    (cmd : NwkLinkStatusCommand) (now : Instant) : may (option Nwk * t) :=
  let connected := connected_neighbors s in
  let '(buffered, pending) := FlatMap.remove (pending_lqas s) source_nwk in
  let buffered := default lqa_new buffered in
  e ← (match FlatMap.get (table s) source_ieee with
       | Some e => Ok e
       | None =>
           samples ← lqa_push buffered lqi;
           Ok (sibling_entry source_ieee source_nwk samples now)
       end);
  let e := if is_type EndDevice e then set_rx_on_when_idle (set_device_type e Router) true else e in
  let previous := outgoing_cost e in
  let e := set_last_link_status_timestamp e now in
  let e := if is_first_frame cmd
           then set_outgoing_cost (set_router_neighbor_set_diversity (set_router_connectivity e 0) 0) 0 else e in
  e ← digest_links own connected e (link_statuses cmd);
  let lost_link := (0 <? previous) && (outgoing_cost e =? 0) in
  Ok (if lost_link then Some (network_address e) else None,
      mk (FlatMap.insert (table s) source_ieee e).2 pending).
End Neighbors.
