(* ===== verification/NeighborFacts.v ===== *)
(** * Theorems about the neighbor table

    [step] is one call of the driver; [inv] holds of every reachable state: an entry is filed under
    its own extended address, the sample windows are well formed, and the buffer of samples of
    unknown senders is bounded. *)

From S2P Require Import Prelude Flat Types Ring Constants Neighbors.

Module NeighborFacts.
Import Neighbors.

Definition entry_ok (eui64 : Eui64) (e : TableEntry) : Prop :=
  extended_address e = eui64 /\ Ring.wf LINK_QUALITY_SAMPLES (lqas e).

Record inv (s : t) : Prop := mkInv {
  inv_table : FlatMap.all_values entry_ok (table s);
  inv_pending : FlatMap.all_values (fun _ r => Ring.wf LINK_QUALITY_SAMPLES r) (pending_lqas s);
  inv_cap : (FlatMap.len (pending_lqas s) <= PENDING_LQA_CAP)%nat
}.

(** A link status command as the parser delivers it: 3-bit costs. *)
Definition command_ok (cmd : NwkLinkStatusCommand) : Prop :=
  Forall (fun l => 0 <= ls_incoming_cost l <= 7 /\ 0 <= ls_outgoing_cost l <= 7) (link_statuses cmd).

Inductive step : t -> t -> Prop :=
| step_record_lqa s nwk lqi s' : record_lqa s nwk lqi = Ok s' -> step s s'
| step_refresh s eui64 nwk now : step s (refresh_child_timeout s eui64 nwk now).2
| step_set_timeout s nwk timeout conf now : step s (set_child_timeout s nwk timeout conf now).2
| step_update_address s eui64 nwk : step s (update_network_address s eui64 nwk)
| step_take_child s eui64 : step s (take_child s eui64).2
| step_claimed s l : step s (remove_claimed_children s l).2
| step_annce s l : step s (process_parent_annce s l).2
| step_evict s now : step s (evict_timed_out_children s now).2
| step_upsert s child now : step s (upsert_child s child now)
| step_remove s eui64 : step s (remove s eui64)
| step_age s now max : step s (age s now max).2
| step_decay s : step s (decay_activity s)
| step_outbound s eui64 : step s (record_outbound_activity s eui64)
| step_inbound s nwk : step s (record_inbound_activity s nwk)
| step_failure s eui64 : step s (record_transmit_failure s eui64)
| step_reset s : step s (reset_transmit_failures s)
| step_link_status s own eui64 nwk lqi cmd now o s' :
    command_ok cmd -> on_link_status s own eui64 nwk lqi cmd now = Ok (o, s') -> step s s'.

Definition reachable (s : t) : Prop := rtc step new s.

Lemma samples_capacity : Ring.capacity_ok LINK_QUALITY_SAMPLES /\ Z.of_nat LINK_QUALITY_SAMPLES < u8_max.
Proof. split; [split; [unfold LINK_QUALITY_SAMPLES; lia|done]|done]. Qed.

Lemma lqa_push_ok r lqi : Ring.wf LINK_QUALITY_SAMPLES r ->
  exists r', lqa_push r lqi = Ok r' /\ Ring.wf LINK_QUALITY_SAMPLES r'.
Proof.
  intros Hwf. destruct samples_capacity as [Hc Hn].
  destruct (Ring.push_spec LINK_QUALITY_SAMPLES r lqi Hc Hn Hwf) as (r' & ? & ? & _). eauto.
Qed.

Lemma lqa_new_wf : Ring.wf LINK_QUALITY_SAMPLES lqa_new.
Proof. apply Ring.new_wf, samples_capacity. Qed.

Lemma inv_with_table s m : inv s -> FlatMap.all_values entry_ok m -> inv (with_table s m).
Proof. intros [? ? ?] ?. by split. Qed.

Lemma find_entry_get p s eui64 e : find_entry p s = Some (eui64, e) -> FlatMap.get (table s) eui64 = Some e /\ p e = true.
Proof. intros (Hget & Hp & _)%FlatMap.find_entry. done. Qed.

(** The buffer of unknown senders: one more sender fits after the eviction. *)
Lemma record_lqa_ok s nwk lqi : inv s -> exists s', record_lqa s nwk lqi = Ok s' /\ inv s'.
Proof.
  intros Hinv. pose proof Hinv as [Ht Hp Hc]. unfold record_lqa. destruct (find_entry _ s) as [[eui64 e]|] eqn:Hf.
  - apply find_entry_get in Hf as [Hget _]. unfold push_lqa. rewrite Hget. cbn [unwrap mbind res_bind].
    destruct (Ht _ _ Hget) as [Hx Hw]. destruct (lqa_push_ok (lqas e) lqi Hw) as (r & -> & Hr). cbn [mbind res_bind].
    eexists. split; [done|]. apply inv_with_table; [done|]. apply FlatMap.all_values_modify; [|done].
    intros e' He' _. rewrite Hget in He'. by simplify_eq.
  - match goal with |- context [FlatMap.or_insert_with ?p nwk lqa_new] => set (p1 := p) end.
    assert (FlatMap.all_values (fun _ r => Ring.wf LINK_QUALITY_SAMPLES r) p1 /\
            (FlatMap.len (FlatMap.or_insert_with p1 nwk lqa_new) <= PENDING_LQA_CAP)%nat) as [Hp1 Hc1].
    { unfold p1. destruct (FlatMap.contains_key (pending_lqas s) nwk) eqn:Hk; cbn [negb].
      { rewrite andb_false_r. split; [done|]. unfold FlatMap.or_insert_with. by rewrite Hk. }
      rewrite andb_true_r. destruct (Nat.leb_spec PENDING_LQA_CAP (FlatMap.len (pending_lqas s))).
      - destruct (FlatMap.pop_first (pending_lqas s)) as [[e m]|] eqn:Hpop.
        + apply FlatMap.pop_first_spec in Hpop as [Hent _]. split.
          * intros k r Hget%FlatMap.elem_of_entries. apply (Hp k). apply FlatMap.elem_of_entries. rewrite Hent. set_solver.
          * pose proof (FlatMap.len_or_insert m nwk lqa_new). unfold FlatMap.len in *. rewrite Hent in Hc. cbn in Hc. lia.
        + apply FlatMap.pop_first_None in Hpop. rewrite Hpop in *. unfold FlatMap.len in *. cbn in *. unfold PENDING_LQA_CAP in *. lia.
      - split; [done|]. pose proof (FlatMap.len_or_insert (pending_lqas s) nwk lqa_new). lia. }
    clearbody p1. set (p2 := FlatMap.or_insert_with p1 nwk lqa_new) in *.
    assert (FlatMap.all_values (fun _ r => Ring.wf LINK_QUALITY_SAMPLES r) p2) as Hp2.
    { unfold p2, FlatMap.or_insert_with. destruct (FlatMap.contains_key _ _); [done|].
      apply FlatMap.all_values_insert; [apply lqa_new_wf|done]. }
    assert (FlatMap.get p2 nwk = Some (default lqa_new (FlatMap.get p1 nwk))) as Hget by apply FlatMap.get_or_insert_eq.
    rewrite Hget. cbn [unwrap mbind res_bind]. destruct (lqa_push_ok _ lqi (Hp2 _ _ Hget)) as (r & -> & Hr). cbn [mbind res_bind].
    eexists. split; [done|]. split; cbn [table pending_lqas]; [done| |].
    + apply FlatMap.all_values_modify; [|done]. by intros.
    + by rewrite FlatMap.len_modify.
Qed.

Lemma remove_claimed_inv l s : inv s -> inv (remove_claimed_children s l).2.
Proof.
  revert s. induction l as [|x l IH]; intros s Hinv; cbn [remove_claimed_children]; [done|].
  destruct (FlatMap.get (table s) x) as [e|]; [|by apply IH]. destruct (is_type EndDevice e); [|by apply IH].
  specialize (IH (with_table s (FlatMap.remove (table s) x).2)). destruct (remove_claimed_children _ _).
  apply IH, inv_with_table; [done|]. apply FlatMap.all_values_remove, Hinv.
Qed.

Lemma parent_annce_inv l s : inv s -> inv (process_parent_annce s l).2.
Proof.
  revert s. induction l as [|x l IH]; intros s Hinv; cbn [process_parent_annce]; [done|].
  destruct (FlatMap.get (table s) x) as [e|]; [|by apply IH]. destruct (is_type EndDevice e); [|by apply IH].
  destruct (keepalive_received e).
  - specialize (IH s Hinv). by destruct (process_parent_annce s l) as [[] ?].
  - specialize (IH (with_table s (FlatMap.remove (table s) x).2)). destruct (process_parent_annce _ _) as [[] ?].
    apply IH, inv_with_table; [done|]. apply FlatMap.all_values_remove, Hinv.
Qed.

(** Folding the listed links into an entry, when every cost fits three bits. *)
Lemma digest_links_ok own connected l e :
  Forall (fun l => 0 <= ls_incoming_cost l <= 7 /\ 0 <= ls_outgoing_cost l <= 7) l ->
  exists e', digest_links own connected e l = Ok e' /\
    extended_address e' = extended_address e /\ network_address e' = network_address e /\ lqas e' = lqas e /\
    device_type e' = device_type e /\
    outgoing_cost e' = default (outgoing_cost e) (last (ls_incoming_cost <$> filter (fun x => ls_address x = own) l)).
Proof.
  intros Hl. revert e. induction Hl as [|x l [Hin Hout] Hl IH]; intros e; cbn [digest_links].
  { exists e. done. }
  assert (exists e1, digest_link own connected e x = Ok e1 /\ extended_address e1 = extended_address e /\
            network_address e1 = network_address e /\ lqas e1 = lqas e /\ device_type e1 = device_type e /\
            outgoing_cost e1 = if decide (ls_address x = own) then ls_incoming_cost x else outgoing_cost e) as (e1 & -> & H1 & H2 & H3 & H4 & H5).
  { unfold digest_link, checked_sub. destruct (0 <? ls_outgoing_cost x).
    - rewrite (proj2 (Z.leb_le (Z.max (ls_incoming_cost x) (ls_outgoing_cost x)) 7)) by lia. cbn [unwrap mbind res_bind].
      eexists. split; [done|]. destruct (FlatSet.contains _ _), (Z.eqb_spec (ls_address x) own), (decide (ls_address x = own)); by subst.
    - cbn [mbind res_bind]. eexists. split; [done|]. destruct (Z.eqb_spec (ls_address x) own), (decide (ls_address x = own)); by subst. }
  cbn [mbind res_bind]. destruct (IH e1) as (e' & -> & ? & ? & ? & ? & Hc). exists e'. split_and!; try congruence.
  rewrite Hc, H5, filter_cons. destruct (decide (ls_address x = own)); [|done]. rewrite fmap_cons.
  generalize (ls_incoming_cost <$> filter (fun y => ls_address y = own) l). intros [|c rest]; [done|]. rewrite last_cons_cons.
  destruct (last (c :: rest)) eqn:Hlast; [done|]. by apply last_None in Hlast.
Qed.

Lemma link_status_ok s own eui64 nwk lqi cmd now :
  inv s -> command_ok cmd ->
  exists o s', on_link_status s own eui64 nwk lqi cmd now = Ok (o, s') /\ inv s' /\
    exists e', FlatMap.get (table s') eui64 = Some e' /\ device_type e' <> EndDevice /\
      outgoing_cost e' =
        default (if is_first_frame cmd then 0 else match FlatMap.get (table s) eui64 with Some e => outgoing_cost e | None => 0 end)
                (last (ls_incoming_cost <$> filter (fun x => ls_address x = own) (link_statuses cmd))) /\
      (is_Some o <-> (exists e, FlatMap.get (table s) eui64 = Some e /\ 0 < outgoing_cost e) /\ outgoing_cost e' = 0).
Proof.
  intros Hinv Hcmd. pose proof Hinv as [Ht Hp Hc]. unfold on_link_status.
  rewrite (FlatMap.remove_pair (pending_lqas s) nwk).
  assert (exists e, (match FlatMap.get (table s) eui64 with
            | Some e => Ok (E:=Empty_set) e
            | None => samples ← lqa_push (default lqa_new (FlatMap.get (pending_lqas s) nwk)) lqi;
                      Ok (sibling_entry eui64 nwk samples now)
            end) = Ok e /\ entry_ok eui64 e /\
            outgoing_cost e = match FlatMap.get (table s) eui64 with Some e => outgoing_cost e | None => 0 end) as (e & He & Hok & Hoc).
  { destruct (FlatMap.get (table s) eui64) as [e|] eqn:Hget; [exists e; split_and!; [done|by apply Ht|done]|].
    destruct (lqa_push_ok (default lqa_new (FlatMap.get (pending_lqas s) nwk)) lqi) as (r & -> & Hr).
    { destruct (FlatMap.get (pending_lqas s) nwk) eqn:Hpg; [by apply (Hp nwk)|apply lqa_new_wf]. }
    cbn. by eexists. }
  rewrite He. cbn [mbind res_bind]. set (e1 := if is_type EndDevice e then _ else e).
  assert (entry_ok eui64 e1 /\ outgoing_cost e1 = outgoing_cost e /\ device_type e1 <> EndDevice) as (Hok1 & Hoc1 & Hty1).
  { unfold e1, is_type. by case_bool_decide. }
  clearbody e1. set (e2 := if is_first_frame cmd then _ else _).
  assert (entry_ok eui64 e2 /\ outgoing_cost e2 = (if is_first_frame cmd then 0 else outgoing_cost e1) /\ device_type e2 <> EndDevice) as (Hok2 & Hoc2 & Hty2).
  { unfold e2. by destruct (is_first_frame cmd). }
  clearbody e2. destruct (digest_links_ok own (connected_neighbors s) (link_statuses cmd) e2 Hcmd) as (e' & -> & Hx & Hn & Hl & Hty & Hout).
  cbn [mbind res_bind]. do 2 eexists. split; [done|]. split.
  - split; cbn [table pending_lqas].
    + apply FlatMap.all_values_insert; [|done]. split; [rewrite Hx; apply Hok2|rewrite Hl; apply Hok2].
    + by apply FlatMap.all_values_remove.
    + pose proof (FlatMap.len_remove (pending_lqas s) nwk). lia.
  - exists e'. cbn [table]. rewrite FlatMap.get_insert_eq. split_and!; [done|congruence| |].
    + by rewrite Hout, Hoc2, Hoc1, Hoc.
    + rewrite Hoc1, Hoc. destruct (FlatMap.get (table s) eui64) as [e0|].
      * destruct (Z.ltb_spec 0 (outgoing_cost e0)), (Z.eqb_spec (outgoing_cost e') 0); cbn; split.
        all: try (intros [? ?]; done); try (intros [(? & [= <-] & ?) ?]; lia); try (intros _; split; [eauto|done]).
        all: intros [(? & [= <-] & ?) ?]; done.
      * cbn. split; [by intros []|]. by intros [(? & [=] & _) _].
Qed.

Lemma neighbors_step_inv s s' : step s s' -> inv s -> inv s'.
Proof.
  intros Hstep Hinv. pose proof (inv_table s Hinv) as Ht. destruct Hstep as [? ? ? ? Hr| | | | | | | | | | | | | | | |].
  - destruct (record_lqa_ok s nwk lqi Hinv) as (s2 & Hr2 & ?). congruence.
  - unfold refresh_child_timeout. destruct (eui64 ≫= _); [apply inv_with_table; [done|]; by apply FlatMap.all_values_modify|].
    destruct (nwk ≫= _) as [[x e]|]; [|done]. apply inv_with_table; [done|]. by apply FlatMap.all_values_modify.
  - unfold set_child_timeout. destruct (find_entry _ s) as [[x e]|]; [|done]. apply inv_with_table; [done|]. by apply FlatMap.all_values_modify.
  - apply inv_with_table; [done|]. apply FlatMap.all_values_modify; [|done]. intros e _ He. by destruct (negb _).
  - unfold take_child. destruct (FlatMap.get _ _) as [e|]; [|done]. destruct (negb _); [done|]. rewrite FlatMap.remove_pair.
    apply inv_with_table; [done|]. by apply FlatMap.all_values_remove.
  - by apply remove_claimed_inv.
  - by apply parent_annce_inv.
  - apply inv_with_table; [done|]. cbn [snd]. generalize (table s) Ht.
    induction ((fun e => (extended_address e, network_address e)) <$> filter (fun e => timed_out now e = true) (entries s)) as [|x l IH];
      intros m Hm; cbn [fold_left]; [done|]. apply IH. by apply FlatMap.all_values_remove.
  - apply inv_with_table; [done|]. apply FlatMap.all_values_modify; [by intros|]. unfold FlatMap.or_insert_with.
    destruct (FlatMap.contains_key _ _); [done|]. apply FlatMap.all_values_insert; [|done]. split; [done|apply lqa_new_wf].
  - apply inv_with_table; [done|]. by apply FlatMap.all_values_remove.
  - apply inv_with_table; [done|]. apply FlatMap.all_values_iter_mut; [|done]. intros x e _ [? Hw].
    destruct (stale _ _ e); [|done]. split; [done|]. apply Ring.clear_wf; [apply samples_capacity|exact Hw].
  - apply inv_with_table; [done|]. by apply FlatMap.all_values_iter_mut.
  - apply inv_with_table; [done|]. by apply FlatMap.all_values_modify.
  - unfold record_inbound_activity. destruct (find_entry _ s) as [[x e]|]; [|done]. apply inv_with_table; [done|]. by apply FlatMap.all_values_modify.
  - apply inv_with_table; [done|]. by apply FlatMap.all_values_modify.
  - apply inv_with_table; [done|]. by apply FlatMap.all_values_iter_mut.
  - destruct (link_status_ok s own eui64 nwk lqi cmd now Hinv) as (o2 & s2 & Hl2 & ? & _); [done|]. congruence.
Qed.

Lemma neighbors_reachable_inv s : reachable s -> inv s.
Proof.
  intros Hr. unfold reachable in Hr. assert (inv new) as Hnew by by split; [..|cbn; lia].
  revert Hnew. generalize new Hr. clear Hr. intros s0 Hr. induction Hr as [|x y z Hxy _ IH]; [done|].
  intros Hx. apply IH. by eapply neighbors_step_inv.
Qed.

(** ** The theorems *)

(** C36: the neighbor table is total and bounded: in every reachable state recording an LQI sample
    and digesting a link status (3-bit costs) return, and the buffer of samples from senders
    without an entry never exceeds its cap, whoever we overhear. *)
Theorem neighbors_total_and_bounded s :
  reachable s ->
  (forall nwk lqi, exists s', record_lqa s nwk lqi = Ok s') /\
  (forall own eui64 nwk lqi cmd now, command_ok cmd -> exists o s', on_link_status s own eui64 nwk lqi cmd now = Ok (o, s')) /\
  (FlatMap.len (pending_lqas s) <= PENDING_LQA_CAP)%nat.
Proof.
  intros Hr. pose proof (neighbors_reachable_inv s Hr) as Hinv. split_and!.
  - intros nwk lqi. destruct (record_lqa_ok s nwk lqi Hinv) as (s' & ? & _). eauto.
  - intros own eui64 nwk lqi cmd now Hcmd.
    destruct (link_status_ok s own eui64 nwk lqi cmd now Hinv Hcmd) as (o & s' & ? & _). eauto.
  - apply Hinv.
Qed.

(** Digesting a link status: the sender ends up with a non-end-device entry whose outgoing cost is
    the incoming cost it last listed for us; when it does not list us the cost is kept, or zeroed
    by the first frame of a report. The sender's address is returned (its routes must be
    invalidated) exactly when a live link collapsed to zero. *)
Lemma link_status_digest s own eui64 nwk lqi cmd now :
  reachable s -> command_ok cmd ->
  exists o s' e', on_link_status s own eui64 nwk lqi cmd now = Ok (o, s') /\
    FlatMap.get (table s') eui64 = Some e' /\ device_type e' <> EndDevice /\
    outgoing_cost e' =
      default (if is_first_frame cmd then 0 else match FlatMap.get (table s) eui64 with Some e => outgoing_cost e | None => 0 end)
              (last (ls_incoming_cost <$> filter (fun x => ls_address x = own) (link_statuses cmd))) /\
    (is_Some o <-> (exists e, FlatMap.get (table s) eui64 = Some e /\ 0 < outgoing_cost e) /\ outgoing_cost e' = 0).
Proof.
  intros Hr Hcmd. destruct (link_status_ok s own eui64 nwk lqi cmd now (neighbors_reachable_inv s Hr) Hcmd) as (o & s' & Ho & _ & e' & ? & ? & ? & ?).
  exists o, s', e'. done.
Qed.

Definition median3 (a b c : Z) : Z := Z.max (Z.min a b) (Z.min (Z.max a b) c).

Lemma sorted3 a b c : merge_sort Z.le [a; b; c] = [Z.min (Z.min a b) c; median3 a b c; Z.max (Z.max a b) c].
Proof.
  apply (StronglySorted_unique Z.le).
  - apply (StronglySorted_merge_sort Z.le).
  - unfold median3. repeat constructor; lia.
  - rewrite merge_sort_Permutation. unfold median3.
    destruct (Z.le_ge_cases a b), (Z.le_ge_cases b c), (Z.le_ge_cases a c);
      repeat first [rewrite Z.min_l by lia|rewrite Z.min_r by lia|rewrite Z.max_l by lia|rewrite Z.max_r by lia];
      first [solve_Permutation|by assert (a = b) as -> by lia; assert (b = c) as -> by lia].
Qed.

(** The link quality is the median of the last three samples, whatever came before: one outlier
    among them never decides it (if two samples lie in a range, so does the result). *)
Lemma lqa_is_median e (history : list Z) a b c :
  Ring.push_all LINK_QUALITY_SAMPLES lqa_new (history ++ [a; b; c]) = Ok (lqas e) ->
  lqa e = Some (median3 a b c) /\
  forall lo hi, (lo <= a <= hi /\ lo <= b <= hi) \/ (lo <= a <= hi /\ lo <= c <= hi) \/ (lo <= b <= hi /\ lo <= c <= hi) ->
    lo <= median3 a b c <= hi.
Proof.
  intros Hp. split; [|unfold median3; intros; lia]. destruct samples_capacity as [Hc Hn].
  destruct (Ring.ring_keeps_last_run (0 : Z) LINK_QUALITY_SAMPLES (history ++ [a; b; c]) Hc Hn) as (r & Hr & Hwf & _ & Hperm).
  fold lqa_new in Hr. rewrite Hp in Hr. injection Hr as <-.
  assert (Ring.last_n LINK_QUALITY_SAMPLES (history ++ [a; b; c]) = [a; b; c]) as Hlast.
  { unfold Ring.last_n, LINK_QUALITY_SAMPLES. rewrite length_app. cbn [length]. by rewrite drop_app_length' by lia. }
  rewrite Hlast in Hperm. unfold lqa.
  assert (Ring.is_full LINK_QUALITY_SAMPLES (lqas e) = true) as ->.
  { apply Permutation_length in Hperm. unfold Ring.values in Hperm. rewrite length_take in Hperm. cbn [length] in Hperm.
    unfold Ring.is_full. apply Z.eqb_eq. destruct Hwf as [Hs Hcount _ _]. unfold LINK_QUALITY_SAMPLES in *. lia. }
  cbn [negb]. assert (merge_sort Z.le (Ring.values (lqas e)) = merge_sort Z.le [a; b; c]) as ->.
  { apply (StronglySorted_unique Z.le); [apply (StronglySorted_merge_sort Z.le)..|]. by rewrite !merge_sort_Permutation. }
  by rewrite sorted3.
Qed.

(** Evicting children removes exactly the end device children whose keepalive deadline has
    passed, returns exactly their addresses, and leaves the next deadline in the future. *)
Lemma evict_exact s now :
  reachable s ->
  let '(evicted, s') := evict_timed_out_children s now in
  (forall eui64 nwk, (eui64, nwk) ∈ evicted <->
     exists e, FlatMap.get (table s) eui64 = Some e /\ timed_out now e = true /\ network_address e = nwk) /\
  (forall eui64, FlatMap.get (table s') eui64 =
     match FlatMap.get (table s) eui64 with
     | Some e => if timed_out now e then None else Some e
     | None => None
     end) /\
  (forall t, next_child_timeout s' = Some t -> now < t).
Proof.
  intros Hr. pose proof (inv_table s (neighbors_reachable_inv s Hr)) as Ht. unfold evict_timed_out_children.
  set (evicted := _ <$> _).
  assert (forall eui64 nwk, (eui64, nwk) ∈ evicted <->
     exists e, FlatMap.get (table s) eui64 = Some e /\ timed_out now e = true /\ network_address e = nwk) as Hev.
  { intros eui64 nwk. unfold evicted. rewrite list_elem_of_fmap. setoid_rewrite list_elem_of_filter. split.
    - intros (e & [= -> ->] & Hto & (k & Hget)%FlatMap.elem_of_values). exists e. by rewrite (proj1 (Ht _ _ Hget)).
    - intros (e & Hget & Hto & <-). exists e. rewrite (proj1 (Ht _ _ Hget)). split_and!; [done..|].
      apply FlatMap.elem_of_values. eauto. }
  assert (forall l (m : FlatMap.t Eui64 TableEntry) eui64,
     FlatMap.get (fold_left (fun m (x : Eui64 * Nwk) => (FlatMap.remove m x.1).2) l m) eui64 =
     if decide (eui64 ∈ l.*1) then None else FlatMap.get m eui64) as Hfold.
  { intros l. induction l as [|x l IH]; intros m eui64; cbn [fold_left]; [by rewrite decide_False by set_solver|].
    rewrite IH, fmap_cons. destruct (decide (x.1 = eui64)) as [<-|Hne].
    - rewrite FlatMap.get_remove_eq. destruct (decide (x.1 ∈ l.*1)); by rewrite decide_True by set_solver.
    - rewrite FlatMap.get_remove_ne by done. destruct (decide (eui64 ∈ l.*1)).
      + by rewrite decide_True by set_solver.
      + by rewrite decide_False by set_solver. }
  assert (forall eui64, FlatMap.get (fold_left (fun m (x : Eui64 * Nwk) => (FlatMap.remove m x.1).2) evicted (table s)) eui64 =
     match FlatMap.get (table s) eui64 with Some e => if timed_out now e then None else Some e | None => None end) as Hget'.
  { intros eui64. rewrite Hfold. destruct (decide _) as [([x n] & -> & (e & Hget & Hto & _)%Hev)%list_elem_of_fmap|Hnin].
    { cbn [fst]. by rewrite Hget, Hto. }
    destruct (FlatMap.get (table s) eui64) as [e|] eqn:Hget; [|done]. destruct (timed_out now e) eqn:Hto; [|done].
    exfalso. apply Hnin, list_elem_of_fmap. exists (eui64, network_address e). split; [done|]. apply Hev. eauto. }
  split_and!; [done|exact Hget'|]. intros t Hn. unfold next_child_timeout in Hn.
  pose proof (min_instant_spec (timeout_at <$> filter (fun e => is_end_device_child e = true)
     (entries (with_table s (fold_left (fun m (x : Eui64 * Nwk) => (FlatMap.remove m x.1).2) evicted (table s)))))) as Hmin.
  rewrite Hn in Hmin. destruct Hmin as [(e & -> & [Hc (k & Hget)%FlatMap.elem_of_values]%list_elem_of_filter)%list_elem_of_fmap _].
  cbn [table with_table] in Hget. rewrite Hget' in Hget. destruct (FlatMap.get (table s) k) as [e0|]; [|done].
  unfold timed_out in Hget. destruct (is_end_device_child e0) eqn:Hc0; cbn [andb] in Hget.
  - destruct (Z.leb_spec (timeout_at e0) now); [done|]. by injection Hget as <-.
  - injection Hget as <-. congruence.
Qed.

(** Aging returns exactly the addresses of the neighbors that were silent too long, zeroes
    their link costs (so they are no longer expected to relay broadcasts), touches nobody else, and
    leaves no silent neighbor with a live link. *)
Lemma age_exact s now max_age :
  let '(addresses, s') := age s now max_age in
  (forall nwk, nwk ∈ addresses <->
     exists eui64 e, FlatMap.get (table s) eui64 = Some e /\ stale now max_age e = true /\ network_address e = nwk) /\
  (forall eui64 e, FlatMap.get (table s) eui64 = Some e -> stale now max_age e = false ->
     FlatMap.get (table s') eui64 = Some e) /\
  (forall eui64 e, FlatMap.get (table s) eui64 = Some e -> stale now max_age e = true ->
     exists e', FlatMap.get (table s') eui64 = Some e' /\ outgoing_cost e' = 0 /\ incoming_link_cost e' = 0 /\ live_router e' = false) /\
  (forall eui64 e', FlatMap.get (table s') eui64 = Some e' -> stale now max_age e' = false).
Proof.
  unfold age. cbn [table with_table]. split_and!.
  - intros nwk. rewrite list_elem_of_fmap. setoid_rewrite list_elem_of_filter. setoid_rewrite FlatMap.elem_of_values. naive_solver.
  - intros eui64 e Hget Hs. rewrite FlatMap.get_iter_mut, Hget. cbn. by rewrite Hs.
  - intros eui64 e Hget Hs. rewrite FlatMap.get_iter_mut, Hget. cbn. rewrite Hs. eexists. split; [done|].
    unfold incoming_link_cost, lqa, live_router. cbn. by rewrite andb_false_r.
  - intros eui64 e'. rewrite FlatMap.get_iter_mut. intros (e & Hget & ->)%fmap_Some.
    destruct (stale now max_age e) eqn:Hs; [done|exact Hs].
Qed.

(** ** A concrete neighborhood: one child heard from an unknown router. *)
Definition ex_child : ChildDescriptor := mkChild (mkEui64 [1; 2; 3; 4; 5; 6; 7; 8]) 0x1234 EndDevice false 60000000 Child.
Definition ex_state : t := upsert_child new ex_child 1000.
Definition ex_router : Eui64 := mkEui64 [9; 9; 9; 9; 9; 9; 9; 9].
Definition ex_cmd : NwkLinkStatusCommand := mkLinkStatusCommand true true [mkLinkStatus 0 3 2].

Lemma neighbors_ex_state_reachable : reachable ex_state.
Proof. apply rtc_once, step_upsert. Qed.

Lemma ex_cmd_ok : command_ok ex_cmd.
Proof. repeat constructor; cbn; lia. Qed.

Lemma neighbors_total_and_bounded_witness :
  (exists s', record_lqa ex_state 0x7777 200 = Ok s') /\ (FlatMap.len (pending_lqas ex_state) <= PENDING_LQA_CAP)%nat.
Proof.
  destruct (neighbors_total_and_bounded ex_state neighbors_ex_state_reachable) as (H1 & _ & H3). split; [apply H1|exact H3].
Defined.

Lemma link_status_digest_witness :
  exists o s' e', on_link_status ex_state 0 ex_router 0x7777 200 ex_cmd 2000 = Ok (o, s') /\
    FlatMap.get (table s') ex_router = Some e' /\ outgoing_cost e' = 3.
Proof.
  destruct (link_status_digest ex_state 0 ex_router 0x7777 200 ex_cmd 2000 neighbors_ex_state_reachable ex_cmd_ok) as (o & s' & e' & H1 & H2 & _ & H3 & _).
  exists o, s', e'. split; [exact H1|]. split; [exact H2|exact H3].
Defined.

Lemma lqa_is_median_witness :
  exists e, Ring.push_all LINK_QUALITY_SAMPLES lqa_new ([] ++ [200; 10; 190]) = Ok (lqas e) /\ lqa e = Some 190.
Proof.
  exists (set_lqas (child_entry ex_child 0) (Ring.mk [200; 10; 190] 3 0)). split; [vm_compute; reflexivity|].
  apply (lqa_is_median _ [] 200 10 190). vm_compute. reflexivity.
Defined.

Lemma evict_exact_witness :
  (evict_timed_out_children ex_state 100000000).1 = [(c_eui64 ex_child, 0x1234)] /\
  exists e, FlatMap.get (table ex_state) (c_eui64 ex_child) = Some e /\ timed_out 100000000 e = true /\ network_address e = 0x1234.
Proof.
  split; [vm_compute; reflexivity|]. pose proof (evict_exact ex_state 100000000 neighbors_ex_state_reachable) as Hev.
  destruct (evict_timed_out_children ex_state 100000000) as [evicted s'] eqn:He.
  apply (proj1 Hev (c_eui64 ex_child) 0x1234). vm_compute in He. injection He as <- _. left.
Defined.
End NeighborFacts.
