(* ===== verification/NwkSecurity.v ===== *)
(** * NWK security material: [src/crates/ziggurat-zigbee/src/nwk/security.rs]

    The network key, its outgoing frame counter, and the incoming frame counters that protect
    against replays (spec 4.3.1.2). *)

From S2P Require Import Prelude Flat Types.

Module NwkSecurity.

Inductive NetworkKeyType : Type := Standard.

Record NwkSecurityDescriptor := mkDescriptor {
  d_key_seq_number : Z;
  d_outgoing_frame_counter : Z;
  d_incoming_frame_counter_set : FlatMap.t Eui64 Z;
  d_key : Key;
  d_network_key_type : NetworkKeyType
}.

Record CounterAdvance := mkAdvance {
  ca_value : Z;
  ca_should_persist : bool
}.

(** [NwkSecurity]. *)
Record t := mk {
  primary : NwkSecurityDescriptor;
  alternate : NwkSecurityDescriptor;
  active_key_seq_number : Z;
  all_fresh : bool;
  persist_interval : Z
}.

Definition zero_key : Key := mkKey (replicate 16 0).

Definition new (key : Key) (key_seq_number outgoing_frame_counter persist_interval : Z) : t :=
  mk (mkDescriptor key_seq_number outgoing_frame_counter FlatMap.new key Standard)
     (mkDescriptor 0 0 FlatMap.new zero_key Standard)
     key_seq_number false persist_interval.

Definition network_key (s : t) : Key := d_key (primary s).
Definition key_seq_number (s : t) : Z := d_key_seq_number (primary s).
Definition outgoing_frame_counter (s : t) : Z := d_outgoing_frame_counter (primary s).
Definition incoming (s : t) : FlatMap.t Eui64 Z := d_incoming_frame_counter_set (primary s).

Definition with_primary (s : t) (d : NwkSecurityDescriptor) : t :=
  mk d (alternate s) (active_key_seq_number s) (all_fresh s) (persist_interval s).
Definition with_outgoing (s : t) (n : Z) : t :=
  with_primary s (mkDescriptor (d_key_seq_number (primary s)) n (incoming s) (d_key (primary s)) (d_network_key_type (primary s))).
Definition with_incoming (s : t) (m : FlatMap.t Eui64 Z) : t :=
  with_primary s (mkDescriptor (d_key_seq_number (primary s)) (outgoing_frame_counter s) m (d_key (primary s)) (d_network_key_type (primary s))).

(** [u32::is_multiple_of]: nothing but zero is a multiple of zero. *)
Definition is_multiple_of (a b : Z) : bool := if b =? 0 then a =? 0 else a mod b =? 0.

Definition next_outgoing_frame_counter (s : t) : may (CounterAdvance * t) :=
  value ← unwrap (checked_add u32_max (outgoing_frame_counter s) 1);
  Ok (mkAdvance value (is_multiple_of value (persist_interval s)), with_outgoing s value).

Definition inbound_network_key (s : t) (sender : Eui64) (key_sequence_number frame_counter : Z) : option Key :=
  if negb (key_sequence_number =? active_key_seq_number s) then None
  else if frame_counter =? u32_max then None
  else
    match FlatMap.get (incoming s) sender with
    | None => Some (d_key (primary s))
    | Some last_stored => if frame_counter <=? last_stored then None else Some (d_key (primary s))
    end.

Definition note_inbound_frame_counter (s : t) (sender : Eui64) (frame_counter : Z) : option Z * t :=
  let '(old, m) := FlatMap.insert (incoming s) sender frame_counter in (old, with_incoming s m).

(** ** Replay protection

    The receive path validates the auxiliary header, decrypts, and stores the counter of a frame
    that decrypted ([authentic]); a frame is processed when both succeed. *)
Record frame := mkFrame {
  f_sender : Eui64;
  f_key_seq : Z;
  f_counter : Z;
  f_authentic : bool
}.

Definition receive (s : t) (f : frame) : bool * t :=
  match inbound_network_key s (f_sender f) (f_key_seq f) (f_counter f) with
  | Some _ => if f_authentic f then (true, (note_inbound_frame_counter s (f_sender f) (f_counter f)).2) else (false, s)
  | None => (false, s)
  end.

(** The frames of a sequence that are processed. *)
Fixpoint processed (s : t) (fs : list frame) : list frame :=
  match fs with
  | [] => []
  | f :: fs => let '(ok, s') := receive s f in if ok then f :: processed s' fs else processed s' fs
  end.

Definition newer_than (s : t) (f : frame) : Prop :=
  match FlatMap.get (incoming s) (f_sender f) with Some c => c < f_counter f | None => True end.

Lemma receive_processed s f s' :
  receive s f = (true, s') ->
  f_authentic f = true /\ f_key_seq f = active_key_seq_number s /\ f_counter f <> u32_max /\ newer_than s f /\
  s' = with_incoming s (FlatMap.insert (incoming s) (f_sender f) (f_counter f)).2.
Proof.
  unfold receive, inbound_network_key, newer_than. destruct (Z.eqb_spec (f_key_seq f) (active_key_seq_number s)); cbn [negb]; [|done].
  destruct (Z.eqb_spec (f_counter f) u32_max); [done|].
  destruct (FlatMap.get (incoming s) (f_sender f)) as [c|] eqn:Hg; [destruct (Z.leb_spec (f_counter f) c); [done|]|];
    (destruct (f_authentic f); [|done]); intros [= <-]; done.
Qed.

(** Everything processed later from a sender is newer than what is stored now. *)
Lemma processed_newer fs s f : f ∈ processed s fs -> newer_than s f.
Proof.
  revert s. induction fs as [|g fs IH]; intros s; cbn [processed]; [set_solver|].
  destruct (receive s g) as [[] s'] eqn:Hr.
  - apply receive_processed in Hr as (_ & _ & _ & Hnew & ->). intros [->|Hin]%elem_of_cons; [done|].
    apply IH in Hin. unfold newer_than in *. cbn [incoming with_incoming with_primary primary d_incoming_frame_counter_set] in Hin.
    destruct (decide (f_sender g = f_sender f)) as [Heq|Hne].
    + rewrite <- Heq, FlatMap.get_insert_eq in Hin. rewrite <- Heq. destruct (FlatMap.get (incoming s) (f_sender g)); [lia|done].
    + by rewrite FlatMap.get_insert_ne in Hin.
  - assert (s' = s) as ->; [|apply IH].
    revert Hr. unfold receive. destruct (inbound_network_key _ _ _ _); [destruct (f_authentic g)|]; by intros [= <-].
Qed.

(** Replay protection: among the frames a stack processes, the counters of one sender are
    strictly increasing in order of processing, so no secured frame is ever processed twice; each
    was authentic, carried the active key's sequence number, and none used the reserved maximum
    counter. *)
Lemma no_replays s (fs : list frame) :
  (forall l1 f l2 g l3, processed s fs = l1 ++ f :: l2 ++ g :: l3 -> f_sender f = f_sender g -> f_counter f < f_counter g) /\
  Forall (fun f => f_authentic f = true /\ f_key_seq f = active_key_seq_number s /\ f_counter f <> u32_max) (processed s fs).
Proof.
  revert s. induction fs as [|h fs IH]; intros s; cbn [processed].
  { split; [|constructor]. intros [] ? ? ? ?; done. }
  destruct (receive s h) as [[] s'] eqn:Hr; cycle 1.
  { assert (s' = s) as ->; [|apply IH].
    revert Hr. unfold receive. destruct (inbound_network_key _ _ _ _); [destruct (f_authentic h)|]; by intros [= <-]. }
  pose proof (receive_processed s h s' Hr) as (Ha & Hk & Hm & _ & Hs'). destruct (IH s') as [IH1 IH2]. split.
  - intros [|x l1] f l2 g l3 Heq Hsend; cbn in Heq; [|injection Heq as -> Heq; by eapply IH1].
    injection Heq as <- Heq. assert (g ∈ processed s' fs) as Hin%processed_newer by (rewrite Heq; set_solver).
    unfold newer_than in Hin. rewrite Hs' in Hin. cbn [incoming with_incoming with_primary primary d_incoming_frame_counter_set] in Hin.
    by rewrite <- Hsend, FlatMap.get_insert_eq in Hin.
  - constructor; [done|]. rewrite Hs' in IH2 |- *. exact IH2.
Qed.

(** ** The outgoing counter *)

(** [n] advances in a row. *)
Fixpoint advances (n : nat) (s : t) : may (list Z * t) :=
  match n with
  | O => Ok ([], s)
  | S n =>
      '(a, s) ← next_outgoing_frame_counter s;
      '(vs, s) ← advances n s;
      Ok (ca_value a :: vs, s)
  end.

(** A nonce is never reused: as long as the counter space lasts, [n] advances return the [n]
    consecutive values after the starting one (all distinct), and at the end of the space the
    stack stops rather than wrap. *)
Lemma counter_never_reused s n :
  is_u32 (outgoing_frame_counter s) ->
  advances n s =
    if Z.of_nat n <=? u32_max - outgoing_frame_counter s
    then Ok (seqZ (outgoing_frame_counter s + 1) (Z.of_nat n), with_outgoing s (outgoing_frame_counter s + Z.of_nat n))
    else Panic.
Proof.
  unfold in_width. change (2 ^ 32) with (u32_max + 1). revert s. induction n as [|n IH]; intros s Hs; cbn [advances].
  { rewrite (proj2 (Z.leb_le _ _)) by lia. cbn. rewrite Z.add_0_r. by destruct s as [[] ? ? ? ?]. }
  unfold next_outgoing_frame_counter, checked_add.
  destruct (Z.leb_spec (outgoing_frame_counter s + 1) u32_max); cbn [unwrap mbind res_bind]; cycle 1.
  { destruct (Z.leb_spec (Z.of_nat (S n)) (u32_max - outgoing_frame_counter s)); [lia|done]. }
  set (s1 := with_outgoing s (outgoing_frame_counter s + 1)).
  assert (outgoing_frame_counter s1 = outgoing_frame_counter s + 1) as Ho by done.
  rewrite IH by lia. rewrite Ho.
  destruct (Z.leb_spec (Z.of_nat n) (u32_max - (outgoing_frame_counter s + 1))),
    (Z.leb_spec (Z.of_nat (S n)) (u32_max - outgoing_frame_counter s)); [|lia|lia|done].
  cbn [mbind res_bind ca_value]. rewrite (seqZ_cons _ (Z.of_nat (S n))) by lia. do 2 f_equal; [|].
  - by replace (Z.pred (Z.of_nat (S n))) with (Z.of_nat n) by lia.
  - unfold s1, with_outgoing. cbn. by replace (outgoing_frame_counter s + Z.of_nat (S n)) with (outgoing_frame_counter s + 1 + Z.of_nat n) by lia.
Qed.

Definition ex_security : t := new zero_key 0 1000 512.

Lemma counter_never_reused_witness :
  advances 3 ex_security = Ok ([1001; 1002; 1003], with_outgoing ex_security 1003).
Proof. apply (counter_never_reused ex_security 3). vm_compute. split; [discriminate|reflexivity]. Defined.
End NwkSecurity.
