(* ===== verification/Addresses.v ===== *)
(** * The EUI64-to-network-address map: [src/crates/ziggurat-zigbee/src/nwk/addresses.rs] *)

From S2P Require Import Prelude Flat Types Constants Neighbors.

Module AddressMap.

Record t := mk {
  own_address : Nwk;
  map : FlatMap.t Eui64 Z
}.

Definition with_map (s : t) (m : FlatMap.t Eui64 Z) : t := mk (own_address s) m.

Definition new (own : Nwk) (own_eui64 : Eui64) : t := mk own (FlatMap.from_iter [(own_eui64, own)]).

Definition nwk_for (s : t) (eui64 : Eui64) : option Nwk := FlatMap.get (map s) eui64.

Definition eui64_for (s : t) (nwk : Nwk) : option Eui64 :=
  fst <$> find (fun e => e.2 =? nwk) (FlatMap.entries (map s)).

Definition entries (s : t) : list (Eui64 * Nwk) :=
  filter (fun e => e.2 <> own_address s) (FlatMap.entries (map s)).

Definition claimed_by_other (s : t) (nwk : Nwk) (eui64 : Eui64) : bool :=
  (nwk =? own_address s) ||
  existsb (fun e => (e.2 =? nwk) && negb (bool_decide (e.1 = eui64))) (FlatMap.entries (map s)).

(** [true]: an address conflict, and the mapping is untouched. *)
Definition update_mapping (s : t) (eui64 : Eui64) (nwk : Nwk) : bool * t :=
  if bool_decide (FlatMap.get (map s) eui64 = Some nwk) then (false, s)
  else if claimed_by_other s nwk eui64 then (true, s)
  else (false, with_map s (FlatMap.insert (map s) eui64 nwk).2).

(** What [generate_unused] accepts of the candidate stream. *)
Definition usable (s : t) (neighbors : Neighbors.t) (candidate : Nwk) : bool :=
  negb (candidate =? 0) && (candidate <? 0xFFF8) && negb (candidate =? own_address s) &&
  negb (existsb (fun nwk => nwk =? candidate) (FlatMap.values (map s))) &&
  negb (Neighbors.has_network_address neighbors candidate).

(** The candidate stream is the caller's randomness; it panics if it ends. *)
Definition generate_unused (s : t) (neighbors : Neighbors.t) (candidates : list Nwk) : may Nwk :=
  unwrap (find (usable s neighbors) candidates).

Definition allocate (s : t) (eui64 : Eui64) (neighbors : Neighbors.t) (candidates : list Nwk) : may Nwk :=
  match nwk_for s eui64 with
  | Some nwk => Ok nwk
  | None => generate_unused s neighbors candidates
  end.

Definition evict_other_owners (s : t) (nwk : Nwk) (owner : Eui64) : t :=
  with_map s (FlatMap.retain (fun eui64 mapped => negb ((mapped =? nwk) && negb (bool_decide (eui64 = owner)))) (map s)).

Definition claim (s : t) (eui64 : Eui64) (nwk : Nwk) : t :=
  let s := evict_other_owners s nwk eui64 in
  with_map s (FlatMap.insert (map s) eui64 nwk).2.

Definition forget_address (s : t) (nwk : Nwk) : t :=
  with_map s (FlatMap.retain (fun _ mapped => negb (mapped =? nwk)) (map s)).

(** ** The invariant: a network address has a single owner *)
Definition single_owner (s : t) : Prop :=
  forall x y nwk, nwk_for s x = Some nwk -> nwk_for s y = Some nwk -> x = y.

Inductive step : t -> t -> Prop :=
| step_update s eui64 nwk : step s (update_mapping s eui64 nwk).2
| step_claim s eui64 nwk : step s (claim s eui64 nwk)
| step_forget s nwk : step s (forget_address s nwk).

Definition reachable (own : Nwk) (own_eui64 : Eui64) (s : t) : Prop := rtc step (new own own_eui64) s.

Lemma single_owner_insert s eui64 nwk :
  single_owner s -> (forall x, nwk_for s x = Some nwk -> x = eui64) ->
  single_owner (with_map s (FlatMap.insert (map s) eui64 nwk).2).
Proof.
  intros Hs Hfree x y n. unfold nwk_for, with_map in *. cbn [map].
  destruct (decide (eui64 = x)) as [<-|Hx], (decide (eui64 = y)) as [<-|Hy];
    rewrite ?FlatMap.get_insert_eq; try rewrite (FlatMap.get_insert_ne _ _ x) by done; try rewrite (FlatMap.get_insert_ne _ _ y) by done.
  - done.
  - intros [= <-] Hy'. symmetry. by apply Hfree.
  - intros Hx' [= <-]. by apply Hfree.
  - apply Hs.
Qed.

Lemma single_owner_retain s p : single_owner s -> single_owner (with_map s (FlatMap.retain p (map s))).
Proof.
  intros Hs x y n. unfold nwk_for, with_map. cbn [map]. rewrite !FlatMap.get_retain.
  intros (nx & Hx & Hpx)%bind_Some (ny & Hy & Hpy)%bind_Some. destruct (p x nx), (p y ny); simplify_eq. by eapply Hs.
Qed.

Lemma claimed_by_other_false s nwk eui64 :
  claimed_by_other s nwk eui64 = false <->
  nwk <> own_address s /\ forall x, nwk_for s x = Some nwk -> x = eui64.
Proof.
  unfold claimed_by_other. rewrite orb_false_iff, Z.eqb_neq. apply and_iff_compat_l.
  rewrite <- not_true_iff_false, existsb_exists. split.
  - intros Hn x Hx%FlatMap.elem_of_entries. destruct (decide (x = eui64)); [done|]. exfalso. apply Hn. exists (x, nwk).
    split; [by apply list_elem_of_In|]. cbn. by rewrite Z.eqb_refl, bool_decide_false.
  - intros Hall ([x n] & Hin%list_elem_of_In%FlatMap.elem_of_entries & [Hn Hx]%andb_true_iff). cbn in *.
    apply Z.eqb_eq in Hn as ->. rewrite (Hall x Hin), bool_decide_true in Hx by done. done.
Qed.

Lemma claim_single_owner s eui64 nwk : single_owner s -> single_owner (claim s eui64 nwk).
Proof.
  intros Hs. unfold claim. apply single_owner_insert; [by apply single_owner_retain|].
  intros x. unfold nwk_for, evict_other_owners, with_map. cbn [map]. rewrite FlatMap.get_retain.
  intros (n & _ & Hp)%bind_Some. case_bool_decide; [done|]. cbn in Hp. rewrite andb_true_r in Hp.
  destruct (Z.eqb_spec n nwk); cbn in Hp; simplify_eq.
Qed.

Lemma reachable_single_owner own own_eui64 s : reachable own own_eui64 s -> single_owner s.
Proof.
  intros Hr. assert (single_owner (new own own_eui64)) as Hnew.
  { intros x y n. unfold nwk_for, new. cbn [map]. intros [<- _]%FlatMap.get_from_singleton [<- _]%FlatMap.get_from_singleton. done. }
  revert Hnew. unfold reachable in Hr. generalize dependent (new own own_eui64). intros s0 Hr.
  induction Hr as [|x y z Hxy _ IH]; [done|]. intros Hx. apply IH. destruct Hxy.
  - unfold update_mapping. case_bool_decide; [done|]. destruct (claimed_by_other s nwk eui64) eqn:Hc; [done|].
    apply single_owner_insert; [done|]. by apply claimed_by_other_false.
  - by apply claim_single_owner.
  - by apply single_owner_retain.
Qed.

(** A network address has a single owner: after any sequence of learned mappings,
    announcements and conflicts, two devices never map to the same address, and [eui64_for] inverts
    [nwk_for]. *)
Lemma addresses_have_one_owner own own_eui64 s :
  reachable own own_eui64 s ->
  single_owner s /\ forall eui64 nwk, nwk_for s eui64 = Some nwk <-> eui64_for s nwk = Some eui64.
Proof.
  intros Hr. pose proof (reachable_single_owner own own_eui64 s Hr) as Hs. split; [done|].
  intros eui64 nwk. unfold eui64_for, nwk_for. destruct (find _ _) as [[x n]|] eqn:Hf.
  - apply FlatMap.find_entry in Hf as (Hget & Hn%Z.eqb_eq & _). cbn in *. subst n. split.
    + intros Hx. by rewrite (Hs eui64 x nwk Hx Hget).
    + by intros [= ->].
  - split; [|done]. intros Hx. pose proof (FlatMap.find_entry_None _ _ Hf eui64 nwk Hx) as Hn. cbn in Hn.
    by rewrite Z.eqb_refl in Hn.
Qed.

(** Learning a mapping: a conflict is reported exactly when the address is ours or another
    device's (and the device does not already have it), and then nothing changes; otherwise the
    device ends up with the address and no other mapping changes. *)
Lemma update_mapping_conflict s eui64 nwk :
  let '(conflict, s') := update_mapping s eui64 nwk in
  (conflict = true <-> nwk_for s eui64 <> Some nwk /\
     (nwk = own_address s \/ exists x, x <> eui64 /\ nwk_for s x = Some nwk)) /\
  (conflict = true -> s' = s) /\
  (conflict = false -> nwk_for s' eui64 = Some nwk /\ forall x, x <> eui64 -> nwk_for s' x = nwk_for s x).
Proof.
  unfold update_mapping. case_bool_decide as Hsame.
  { split_and!; [|done|done]. split; [done|]. by intros []. }
  destruct (claimed_by_other s nwk eui64) eqn:Hc.
  - split_and!; [|done|done]. split; [|done]. intros _. split; [done|].
    destruct (decide (nwk = own_address s)) as [->|Hne]; [by left|]. right.
    unfold claimed_by_other in Hc. apply orb_true_iff in Hc as [Hc%Z.eqb_eq|Hc]; [done|].
    apply existsb_exists in Hc as ([x n] & Hin%list_elem_of_In%FlatMap.elem_of_entries & [Hn%Z.eqb_eq Hx]%andb_true_iff).
    cbn in *. subst n. exists x. split; [|done]. intros ->. by rewrite bool_decide_true in Hx.
  - apply claimed_by_other_false in Hc as [Hown Hfree]. split_and!; [|done|].
    + split; [done|]. intros [_ [?|(x & Hx & Hget)]]; [done|]. by apply Hfree in Hget.
    + intros _. unfold nwk_for, with_map. cbn [map]. split; [apply FlatMap.get_insert_eq|].
      intros x Hx. by rewrite FlatMap.get_insert_ne.
Qed.

(** An authoritative announcement wins: afterwards the announcer owns the address and no other
    device does, and the devices at other addresses keep theirs. *)
Lemma claim_wins s eui64 nwk :
  nwk_for (claim s eui64 nwk) eui64 = Some nwk /\
  (forall x, x <> eui64 -> nwk_for (claim s eui64 nwk) x = if decide (nwk_for s x = Some nwk) then None else nwk_for s x).
Proof.
  unfold claim, nwk_for, evict_other_owners, with_map. cbn [map]. split; [apply FlatMap.get_insert_eq|].
  intros x Hx. rewrite FlatMap.get_insert_ne by done. rewrite FlatMap.get_retain. rewrite bool_decide_false by done. cbn [negb].
  destruct (FlatMap.get (map s) x) as [n|]; cbn; [|by rewrite decide_False]. rewrite andb_true_r.
  destruct (Z.eqb_spec n nwk) as [->|Hn]; cbn; [by rewrite decide_True|]. rewrite decide_False; congruence.
Qed.

(** An allocated address: a device that joined before gets its old address back; a new device
    gets one in the assigned range that neither we, nor the map, nor a neighbor uses, and
    allocation fails only when the candidate stream holds no such address. *)
Lemma allocate_fresh s eui64 neighbors candidates :
  match allocate s eui64 neighbors candidates with
  | Ok nwk => nwk_for s eui64 = Some nwk \/
      (nwk_for s eui64 = None /\ nwk ∈ candidates /\ nwk <> 0 /\ nwk < 0xFFF8 /\ nwk <> own_address s /\
       (forall x, nwk_for s x <> Some nwk) /\ Neighbors.has_network_address neighbors nwk = false)
  | Panic => nwk_for s eui64 = None /\ forall c, c ∈ candidates -> usable s neighbors c = false
  | Err _ => False
  end.
Proof.
  unfold allocate. destruct (nwk_for s eui64) as [n|]; [by left|]. unfold generate_unused.
  destruct (find (usable s neighbors) candidates) as [n|] eqn:Hf; cbn [unwrap].
  - apply find_some in Hf as [Hin%list_elem_of_In Hu]. right. unfold usable in Hu.
    apply andb_true_iff in Hu as [Hu Hn%negb_true_iff]. apply andb_true_iff in Hu as [Hu Hm%negb_true_iff].
    apply andb_true_iff in Hu as [Hu Ho%negb_true_iff%Z.eqb_neq]. apply andb_true_iff in Hu as [Hz%negb_true_iff%Z.eqb_neq Hlt%Z.ltb_lt].
    split_and!; try done. intros x Hx. apply not_true_iff_false in Hm. apply Hm, existsb_exists. exists n.
    split; [|apply Z.eqb_refl]. apply list_elem_of_In, FlatMap.elem_of_values. by exists x.
  - split; [done|]. intros c Hc%list_elem_of_In. by apply (find_none _ _ Hf).
Qed.

Definition ex_own : Eui64 := mkEui64 [0; 0; 0; 0; 0; 0; 0; 1].
Definition ex_device : Eui64 := mkEui64 [0; 0; 0; 0; 0; 0; 0; 2].
Definition ex_map : t := (update_mapping (new 0 ex_own) ex_device 0x1234).2.

Lemma addresses_have_one_owner_witness : single_owner ex_map /\ eui64_for ex_map 0x1234 = Some ex_device.
Proof.
  destruct (addresses_have_one_owner 0 ex_own ex_map) as [H1 H2]; [apply rtc_once, step_update|].
  split; [exact H1|]. apply H2. vm_compute. reflexivity.
Defined.
End AddressMap.
