(* ===== verification/NwkBroadcasts.v ===== *)
(** * The NWK broadcast transaction table: [src/crates/ziggurat-zigbee/src/nwk/broadcasts.rs]

    Deduplication of received broadcasts and passive acknowledgment accounting (spec 3.6.6). *)

From S2P Require Import Prelude Flat Types.

Module NwkBroadcasts.

Record Transaction := mkTransaction {
  expiration_time : Instant;
  expected_relayers : list Nwk;
  heard_from : FlatSet.t Z
}.

(** [Broadcasts]: transactions by (source, sequence number). *)
Definition t : Type := FlatMap.t (Z * Z) Transaction.
Definition new : t := FlatMap.new.

Definition hear (sender : Nwk) (tr : Transaction) : Transaction :=
  mkTransaction (expiration_time tr) (expected_relayers tr) (FlatSet.insert (heard_from tr) sender).2.

Definition filter_received (s : t) (source : Nwk) (sequence_number : Z) (sender : Nwk) (audience : list Nwk)
    (now : Instant) (delivery_time : Duration) : bool * t :=
  let s := FlatMap.retain (fun _ tr => now <? expiration_time tr) s in
  let key := (source, sequence_number) in
  match FlatMap.get s key with
  | Some _ => (true, FlatMap.modify s key (hear sender))
  | None =>
      (false, (FlatMap.insert s key
         (mkTransaction (Instant.add now delivery_time) audience (FlatSet.from_iter [sender]))).2)
  end.

Definition record_transmission (s : t) (source : Nwk) (sequence_number : Z) (audience : list Nwk)
    (now : Instant) (delivery_time : Duration) : t :=
  (FlatMap.insert s (source, sequence_number)
     (mkTransaction (Instant.add now delivery_time) audience FlatSet.new)).2.

(** The audience members that are still live neighbors. *)
Definition live_audience (tr : Transaction) (live_relayers : list Nwk) : list Nwk :=
  filter (fun nwk => nwk ∈ live_relayers) (expected_relayers tr).

Definition passively_acked (s : t) (source : Nwk) (sequence_number : Z) (live_relayers : list Nwk) (quorum : nat) : bool :=
  match FlatMap.get s (source, sequence_number) with
  | None => true
  | Some tr =>
      let audience := live_audience tr live_relayers in
      let heard := length (filter (fun nwk => FlatSet.contains (heard_from tr) nwk = true) audience) in
      (Nat.min (length audience) quorum <=? heard)%nat
  end.

(** A transaction that has not expired at [now]. *)
Definition known (s : t) (now : Instant) (key : Z * Z) : Prop :=
  exists tr, FlatMap.get s key = Some tr /\ now < expiration_time tr.

Lemma get_live (s : t) now key :
  FlatMap.get (FlatMap.retain (fun _ tr => now <? expiration_time tr) s) key =
  match FlatMap.get s key with
  | Some tr => if now <? expiration_time tr then Some tr else None
  | None => None
  end.
Proof. rewrite FlatMap.get_retain. by destruct (FlatMap.get s key). Qed.

(** Broadcast deduplication: a received broadcast is filtered exactly when its transaction is
    known and has not expired; either way the transaction is known afterwards for the rest of its
    window, with the sender's passive acknowledgment recorded, and the other live transactions are
    kept. *)
Lemma filter_received_dedup s source seq sender audience now delivery_time :
  let key := (source, seq) in
  let '(duplicate, s') := filter_received s source seq sender audience now delivery_time in
  (duplicate = true <-> known s now key) /\
  (exists tr, FlatMap.get s' key = Some tr /\ FlatSet.contains (heard_from tr) sender = true /\
     (duplicate = false -> expiration_time tr = Instant.add now delivery_time /\ expected_relayers tr = audience) /\
     (duplicate = true -> exists tr0, FlatMap.get s key = Some tr0 /\ expiration_time tr = expiration_time tr0 /\
        expected_relayers tr = expected_relayers tr0 /\
        forall n, FlatSet.contains (heard_from tr) n = true <-> n = sender \/ FlatSet.contains (heard_from tr0) n = true)) /\
  (forall key', key' <> key -> known s now key' -> FlatMap.get s' key' = FlatMap.get s key').
Proof.
  cbn zeta. unfold filter_received. rewrite get_live. set (s1 := FlatMap.retain _ s).
  assert (forall key', known s now key' -> FlatMap.get s1 key' = FlatMap.get s key') as Hkeep.
  { intros key' (tr & Hget & Hlt). unfold s1. rewrite get_live, Hget. by rewrite (proj2 (Z.ltb_lt _ _) Hlt). }
  assert (match FlatMap.get s (source, seq) with Some tr => if now <? expiration_time tr then Some tr else None | None => None end
          = FlatMap.get s1 (source, seq)) as Heq by (unfold s1; by rewrite get_live).
  destruct (match FlatMap.get s (source, seq) with Some tr => _ | None => None end) as [tr|] eqn:Hk.
  - destruct (FlatMap.get s (source, seq)) as [tr0|] eqn:Hget; [|done].
    destruct (Z.ltb_spec now (expiration_time tr0)); [|done]. injection Hk as <-. split_and!.
    + split; [|done]. intros _. by exists tr0.
    + exists (hear sender tr0). rewrite FlatMap.get_modify_eq, <- Heq. split_and!; [done| |done|].
      * apply FlatSet.contains_insert. by left.
      * intros _. exists tr0. split_and!; [done..|]. intros n. cbn [hear heard_from]. rewrite FlatSet.contains_insert. naive_solver.
    + intros key' Hne Hkn. rewrite FlatMap.get_modify_ne by done. by apply Hkeep.
  - split_and!.
    + split; [done|]. intros (tr & Hget & Hlt). rewrite Hget in Hk. by rewrite (proj2 (Z.ltb_lt _ _) Hlt) in Hk.
    + eexists. rewrite FlatMap.get_insert_eq. split_and!; [done| |done|done].
      cbn [heard_from]. apply FlatSet.contains_insert. by left.
    + intros key' Hne Hkn. rewrite FlatMap.get_insert_ne by done. by apply Hkeep.
Qed.

(** The passive-ack quorum is monotone: hearing one more relayer never takes an acknowledgment
    back, and hearing every live audience member acknowledges the broadcast whatever the quorum
    is. *)
Lemma passive_ack_monotone s source seq sender audience now delivery_time live quorum :
  known s now (source, seq) ->
  let s' := (filter_received s source seq sender audience now delivery_time).2 in
  (passively_acked s source seq live quorum = true -> passively_acked s' source seq live quorum = true) /\
  (forall tr, FlatMap.get s' (source, seq) = Some tr ->
     (forall n, n ∈ live_audience tr live -> FlatSet.contains (heard_from tr) n = true) ->
     passively_acked s' source seq live quorum = true).
Proof.
  intros (tr & Hget & Hlt). unfold filter_received. rewrite get_live, Hget, (proj2 (Z.ltb_lt _ _) Hlt). cbn [snd].
  unfold passively_acked. rewrite FlatMap.get_modify_eq, get_live, Hget, (proj2 (Z.ltb_lt _ _) Hlt). cbn [fmap option_fmap option_map].
  change (live_audience (hear sender tr) live) with (live_audience tr live). split.
  - rewrite !Nat.leb_le. intros Hle. etrans; [exact Hle|].
    apply filter_length_mono. intros n Hn. cbn [hear heard_from]. apply FlatSet.contains_insert. by right.
  - intros tr' [= <-] Hall. apply Nat.leb_le. change (live_audience (hear sender tr) live) with (live_audience tr live) in Hall.
    rewrite (filter_all _ _ Hall). lia.
Qed.

Definition ex_table : t := record_transmission new 0 7 [0x1111; 0x2222] 1000 9000000.

Lemma passive_ack_monotone_witness :
  passively_acked (filter_received ex_table 0 7 0x1111 [] 2000 9000000).2 0 7 [0x1111] 3 = true.
Proof.
  eapply (passive_ack_monotone ex_table 0 7 0x1111 [] 2000 9000000 [0x1111] 3); [|vm_compute; reflexivity|].
  - eexists. split; [vm_compute; reflexivity|]. vm_compute. reflexivity.
  - intros n Hn. vm_compute in Hn. apply list_elem_of_singleton in Hn as ->. vm_compute. reflexivity.
Defined.
End NwkBroadcasts.
