(* ===== verification/Budget.v ===== *)
(** * The broadcast admission budget: [src/crates/ziggurat-driver/src/broadcast_budget.rs]

    A token bucket with per-class reserves.  Durations are microseconds. *)

From S2P Require Import Prelude Types.

Module Budget.

(** [TrafficClass] of [src/crates/ziggurat-driver/src/zigbee_stack.rs]. *)
Inductive TrafficClass : Type := Host | Forwarding | Critical.

#[export] Instance TrafficClass_eq_dec : EqDecision TrafficClass.
Proof. solve_decision. Defined.

Inductive BroadcastAdmission : Type :=
| Admit
| Defer (retry_in : Duration).

(** [BroadcastBudget]. *)
Record t := mk {
  tokens : Z;
  last_refill : Instant
}.

Definition new (initial_tokens : Z) : t := mk initial_tokens (Instant.from_micros 0).

(** [Duration::saturating_mul]: durations stop at [u64::MAX] seconds. *)
Definition duration_max : Duration := u64_max * 1000000 + 999999.
Definition saturating_mul (d : Duration) (n : Z) : Duration := Z.min (d * n) duration_max.

Definition floor (class : TrafficClass) (critical_reserve forwarding_reserve : Z) : Z :=
  match class with
  | Critical => 0
  | Forwarding => critical_reserve
  | Host => critical_reserve + forwarding_reserve
  end.

Definition refill (s : t) (now : Instant) (capacity : Z) (interval : Duration) : t :=
  if interval =? 0 then mk capacity now
  else if capacity <=? tokens s then mk capacity now
  else
    let elapsed := Instant.saturating_duration_since now (last_refill s) in
    let accrued := elapsed / interval in
    if accrued =? 0 then s
    else
      let headroom := capacity - tokens s in
      let added := Z.min accrued headroom in
      let tokens' := tokens s + added in
      if capacity <=? tokens' then mk capacity now
      else mk tokens' (Instant.add (last_refill s) (saturating_mul interval added)).

Definition take (s : t) (class : TrafficClass) (now : Instant) (capacity : Z) (interval : Duration)
    (critical_reserve forwarding_reserve : Z) : may (BroadcastAdmission * t) :=
  let s := refill s now capacity interval in
  if bool_decide (class = Critical) then Ok (Admit, s)
  else
    let fl := floor class critical_reserve forwarding_reserve in
    if fl <? tokens s then
      n ← unwrap (checked_sub (tokens s) 1);
      Ok (Admit, mk n (last_refill s))
    else
      deficit ← unwrap (checked_sub (fl + 1) (tokens s));
      Ok (Defer (saturating_mul interval deficit), s).

(** ** Sequences of requests at constant settings *)
Section Rate.
Context (capacity : Z) (interval : Duration) (critical_reserve forwarding_reserve : Z).

(** The 8-bit settings, and a refill interval and clock within 64 bits. *)
Definition settings_ok : Prop :=
  is_u8 capacity /\ is_u8 critical_reserve /\ is_u8 forwarding_reserve /\ 0 < interval <= u64_max.

Definition take1 (s : t) (class : TrafficClass) (now : Instant) : may (BroadcastAdmission * t) :=
  take s class now capacity interval critical_reserve forwarding_reserve.

Definition draws (class : TrafficClass) (a : BroadcastAdmission) : Z :=
  match class, a with
  | Critical, _ => 0
  | _, Admit => 1
  | _, Defer _ => 0
  end.

(** Requests in time order; the result counts the admitted Host and Forwarding broadcasts. *)
Fixpoint run (s : t) (requests : list (TrafficClass * Instant)) : may (Z * t) :=
  match requests with
  | [] => Ok (0, s)
  | (class, now) :: requests =>
      '(a, s) ← take1 s class now;
      '(n, s) ← run s requests;
      Ok (draws class a + n, s)
  end.

(** Requests at nondecreasing instants from [start] to at most [stop], within 64 bits. *)
Fixpoint in_order (start stop : Instant) (requests : list (TrafficClass * Instant)) : Prop :=
  match requests with
  | [] => start <= stop
  | (_, now) :: requests => start <= now /\ in_order now stop requests
  end.

Definition wf (s : t) (now : Instant) : Prop := 0 <= tokens s <= u8_max /\ 0 <= last_refill s <= now.

(** What the bucket can still pay for at [now]: its tokens and the time since the last one. *)
Definition worth (s : t) (now : Instant) : Z := tokens s * interval + (now - last_refill s).

Lemma refill_spec s now :
  settings_ok -> wf s now -> now <= u64_max ->
  let s' := refill s now capacity interval in
  wf s' now /\ tokens s' <= capacity /\ worth s' now <= worth s now.
Proof.
  unfold settings_ok, in_width. intros (Hcap & _ & _ & Hint) ([Ht1 Ht2] & Hl1 & Hl2) Hnow. cbn zeta.
  unfold refill, Instant.saturating_duration_since, saturating_sub, worth, wf, u8_max, u64_max in *.
  rewrite (proj2 (Z.eqb_neq interval 0)) by lia. rewrite Z.max_l by lia.
  destruct (Z.leb_spec capacity (tokens s)) as [Hfull|Hlow]; cbn [tokens last_refill].
  { split_and!; nia. }
  pose proof (Z.div_mod (now - last_refill s) interval ltac:(lia)) as Hdm.
  pose proof (Z.mod_pos_bound (now - last_refill s) interval ltac:(lia)) as Hmod.
  pose proof (Z.div_pos (now - last_refill s) interval ltac:(lia) ltac:(lia)) as Hq.
  set (q := (now - last_refill s) / interval) in *.
  destruct (Z.eqb_spec q 0) as [Hz|Hnz]; [split_and!; lia|].
  destruct (Z.leb_spec capacity (tokens s + Z.min q (capacity - tokens s))); cbn [tokens last_refill].
  { split_and!; nia. }
  rewrite Z.min_l in * by lia.
  assert (interval * q <= now - last_refill s) as Hiq by lia.
  assert (Instant.add (last_refill s) (saturating_mul interval q) = last_refill s + interval * q) as ->.
  { unfold saturating_mul, duration_max, u64_max. rewrite Z.min_l by lia. apply Instant.add_exact; unfold u64_max; lia. }
  split_and!; nia.
Qed.

Lemma take1_spec s class now :
  settings_ok -> wf s now -> now <= u64_max ->
  exists a s', take1 s class now = Ok (a, s') /\ wf s' now /\ tokens s' <= capacity /\
    draws class a * interval + worth s' now <= worth s now /\
    (class <> Critical -> a = Admit -> floor class critical_reserve forwarding_reserve <= tokens s').
Proof.
  intros Hset Hwf Hnow. destruct (refill_spec s now Hset Hwf Hnow) as (Hwf' & Hcap & Hw).
  unfold take1, take. set (s1 := refill s now capacity interval) in *. case_bool_decide as Hc.
  { subst. exists Admit, s1. cbn. split_and!; try done; lia. }
  assert (forall a, draws class a = match a with Admit => 1 | Defer _ => 0 end) as Hd by (by destruct class; [| |done]).
  assert (0 <= floor class critical_reserve forwarding_reserve) as Hfl.
  { destruct Hset as (_ & [? _] & [? _] & _). destruct class; cbn; lia. }
  destruct Hwf' as [Ht Hl]. unfold checked_sub.
  destruct (Z.ltb_spec (floor class critical_reserve forwarding_reserve) (tokens s1)).
  - rewrite (proj2 (Z.leb_le 1 (tokens s1))) by lia. cbn [unwrap mbind res_bind]. do 2 eexists. split; [done|]. rewrite Hd.
    unfold wf, worth in *. cbn [tokens last_refill]. split_and!; lia.
  - rewrite (proj2 (Z.leb_le (tokens s1) _)) by lia. cbn [unwrap mbind res_bind]. do 2 eexists. split; [done|]. rewrite Hd.
    split_and!; try done; lia.
Qed.

Lemma run_worth requests s start stop :
  settings_ok -> wf s start -> in_order start stop requests -> stop <= u64_max ->
  exists n s', run s requests = Ok (n, s') /\ 0 <= n /\ n * interval <= worth s start + (stop - start).
Proof.
  intros Hset. revert s start. induction requests as [|[class now] requests IH]; intros s start Hwf Hord Hstop; cbn [run].
  - exists 0, s. cbn in Hord. split; [done|]. destruct Hwf as [? ?]. unfold worth. destruct Hset as (_ & _ & _ & ?). split; nia.
  - destruct Hord as [Hle Hord].
    assert (now <= stop) as Hnow by (clear -Hord; revert now Hord; induction requests as [|[? ?] ? IH]; intros now Hord; cbn in Hord; [done|]; destruct Hord as [? ?%IH]; lia).
    destruct (take1_spec s class now Hset) as (a & s' & -> & Hwf' & _ & Hw & _); [destruct Hwf; split; lia|lia|].
    cbn [mbind res_bind]. destruct (IH s' now Hwf' Hord Hstop) as (n & s2 & -> & Hn & Hle2). cbn [mbind res_bind].
    assert (0 <= draws class a) by (by destruct class, a). do 2 eexists. split; [done|]. split; [lia|].
    assert (worth s now = worth s start + (now - start)) by (unfold worth; lia). nia.
Qed.
End Rate.

(** C37: the rate limit: over any sequence of requests in time order, at most the initial tokens plus
    one per refill interval elapsed since the last refill are admitted to the Host and Forwarding
    classes; no request panics. *)
Theorem broadcast_rate_limited capacity interval critical_reserve forwarding_reserve requests s start stop :
  settings_ok capacity interval critical_reserve forwarding_reserve ->
  wf s start -> in_order start stop requests -> stop <= u64_max ->
  exists n s', run capacity interval critical_reserve forwarding_reserve s requests = Ok (n, s') /\
    n <= tokens s + (stop - last_refill s) / interval.
Proof.
  intros Hset Hwf Hord Hstop.
  destruct (run_worth _ _ _ _ requests s start stop Hset Hwf Hord Hstop) as (n & s' & Hr & _ & Hn).
  exists n, s'. split; [done|]. destruct Hset as (_ & _ & _ & Hint). unfold worth in Hn.
  assert (n - tokens s <= (stop - last_refill s) / interval); [|lia].
  apply Z.div_le_lower_bound; [lia|]. lia.
Qed.

(** The reserves hold: an admitted Host or Forwarding broadcast never leaves fewer tokens than
    its class's floor, Critical broadcasts are always admitted and draw nothing, and the bucket
    stays within its capacity. *)
Lemma reserves_protected capacity interval critical_reserve forwarding_reserve s class now :
  settings_ok capacity interval critical_reserve forwarding_reserve -> wf s now -> now <= u64_max ->
  exists a s', take s class now capacity interval critical_reserve forwarding_reserve = Ok (a, s') /\
    0 <= tokens s' <= capacity /\
    (class = Critical -> a = Admit /\ s' = refill s now capacity interval) /\
    (class <> Critical -> a = Admit -> floor class critical_reserve forwarding_reserve <= tokens s').
Proof.
  intros Hset Hwf Hnow. destruct (take1_spec _ _ _ _ s class now Hset Hwf Hnow) as (a & s' & Ht & [[? _] _] & ? & _ & Hfl).
  exists a, s'. split; [done|]. split_and!; [lia..| |exact Hfl]. intros ->. unfold take1, take in Ht.
  rewrite bool_decide_true in Ht by done. by injection Ht as <- <-.
Qed.

(** A deferral is honest: a class refused with [retry_in] is admitted when it asks again that
    much later and nobody drew in between, provided its floor is below the capacity. *)
Lemma deferred_then_admitted capacity interval critical_reserve forwarding_reserve s class now retry_in s1 :
  settings_ok capacity interval critical_reserve forwarding_reserve -> wf s now ->
  floor class critical_reserve forwarding_reserve < capacity ->
  take s class now capacity interval critical_reserve forwarding_reserve = Ok (Defer retry_in, s1) ->
  now + retry_in <= u64_max ->
  exists s2, take s1 class (now + retry_in) capacity interval critical_reserve forwarding_reserve = Ok (Admit, s2).
Proof.
  intros Hset Hwf Hfl Ht Hnow. pose proof Hset as (Hcap & Hcr & Hfr & Hint). unfold in_width in Hcap, Hcr, Hfr.
  assert (0 <= floor class critical_reserve forwarding_reserve) as Hfl0 by (destruct class; cbn; lia).
  assert (0 <= retry_in) as Hr0.
  { unfold take in Ht. case_bool_decide; [done|]. destruct (_ <? _); [by destruct (unwrap _)|].
    unfold checked_sub in Ht. destruct (Z.leb_spec (tokens (refill s now capacity interval)) (floor class critical_reserve forwarding_reserve + 1)); [|done].
    cbn in Ht. injection Ht as <- _. unfold saturating_mul, duration_max, u64_max. nia. }
  destruct (refill_spec capacity interval critical_reserve forwarding_reserve s now Hset Hwf) as (Hwf' & Hc' & _); [lia|].
  unfold take in Ht. case_bool_decide as Hclass; [done|]. set (r := refill s now capacity interval) in *.
  destruct (Z.ltb_spec (floor class critical_reserve forwarding_reserve) (tokens r)) as [|Hle]; [by destruct (unwrap _)|].
  unfold checked_sub in Ht. rewrite (proj2 (Z.leb_le (tokens r) _)) in Ht by lia. cbn in Ht. injection Ht as Hri <-.
  destruct Hwf' as [Htk Hlr]. set (k := floor class critical_reserve forwarding_reserve + 1 - tokens r) in *.
  assert (retry_in = interval * k) as Hri'.
  { rewrite <- Hri. unfold saturating_mul, duration_max, u8_max, u64_max in *. apply Z.min_l. nia. }
  assert (k <= (now + retry_in - last_refill r) / interval) as Hacc.
  { apply Z.div_le_lower_bound; [lia|]. lia. }
  unfold take. rewrite bool_decide_false by done.
  assert (floor class critical_reserve forwarding_reserve < tokens (refill r (now + retry_in) capacity interval)) as Hok.
  { unfold refill, Instant.saturating_duration_since, saturating_sub. rewrite (proj2 (Z.eqb_neq interval 0)) by lia.
    destruct (Z.leb_spec capacity (tokens r)); [lia|]. rewrite Z.max_l by lia.
    set (q := (now + retry_in - last_refill r) / interval) in *. rewrite (proj2 (Z.eqb_neq q 0)) by lia.
    destruct (Z.leb_spec capacity (tokens r + Z.min q (capacity - tokens r))); cbn [tokens]; lia. }
  rewrite (proj2 (Z.ltb_lt _ _) Hok). unfold checked_sub. rewrite (proj2 (Z.leb_le 1 _)) by lia. cbn. eauto.
Qed.

(** [retry_in] is an upper bound on the wait, not the lower bound the documentation gives: the
    part of an interval that already elapsed counts, so a token can free sooner. *)
Lemma retry_in_not_a_lower_bound :
  exists s class now capacity interval retry_in s1 sooner s2,
    settings_ok capacity interval 0 0 /\ wf s now /\
    take s class now capacity interval 0 0 = Ok (Defer retry_in, s1) /\
    0 <= sooner < retry_in /\
    take s1 class (now + sooner) capacity interval 0 0 = Ok (Admit, s2).
Proof.
  exists (mk 0 0), Host, 900, 10, 1000, 1000, (mk 0 0), 100, (mk 0 1000).
  split; [unfold settings_ok, in_width, u64_max; lia|]. split; [unfold wf; cbn; unfold u8_max; lia|].
  split; [vm_compute; reflexivity|]. split; [lia|vm_compute; reflexivity].
Qed.

Lemma ex_settings : settings_ok 10 1000000 2 3.
Proof. unfold settings_ok, in_width, u64_max. lia. Qed.

Lemma broadcast_rate_limited_witness :
  exists n s', run 10 1000000 2 3 (mk 10 0) [(Host, 5); (Host, 6); (Forwarding, 7)] = Ok (n, s') /\ n <= 10 + (2000000 - 0) / 1000000.
Proof.
  apply (broadcast_rate_limited 10 1000000 2 3 _ (mk 10 0) 0 2000000 ex_settings); [split; cbn; unfold u8_max; lia|cbn; lia|unfold u64_max; lia].
Defined.

Lemma reserves_protected_witness :
  exists a s', take (mk 10 0) Host 5 10 1000000 2 3 = Ok (a, s') /\ 0 <= tokens s' <= 10.
Proof.
  destruct (reserves_protected 10 1000000 2 3 (mk 10 0) Host 5 ex_settings) as (a & s' & H1 & H2 & _);
    [split; cbn; unfold u8_max; lia|unfold u64_max; lia|]. exists a, s'. split; [exact H1|exact H2].
Defined.

Lemma deferred_then_admitted_witness :
  exists s2, take (mk 5 0) Host (10 + 1000000) 10 1000000 2 3 = Ok (Admit, s2).
Proof.
  apply (deferred_then_admitted 10 1000000 2 3 (mk 5 0) Host 10 1000000 (mk 5 0) ex_settings);
    [split; cbn; unfold u8_max; lia|cbn; lia|vm_compute; reflexivity|unfold u64_max; lia].
Defined.
End Budget.
