(* ===== verification/Fcs.v ===== *)
(** * The frame check sequence: [Ieee802154Frame::compute_fcs] of
      [src/crates/ziggurat-ieee-802154/src/lib.rs]

    The code processes a nibble at a time; the reference is the bit-serial ITU-T CRC-16 of
    IEEE 802.15.4 (reflected polynomial 0x8408, initial value 0).  The register is a 16-bit value,
    so the equivalence follows from the linearity of one bit step over exclusive or. *)

From S2P Require Import Prelude.

Module Fcs.

(** The loop body: the low nibble of [c], then the high one. *)
Definition nibble (crc n : Z) : Z :=
  let q := Z.land (Z.lxor (Z.land crc 0x0F) n) 0x0F in
  Z.lxor (Z.shiftr crc 4) (q * 0x1081).

Definition byte_step (crc c : Z) : Z := nibble (nibble crc (Z.shiftr c 0)) (Z.shiftr c 4).

Definition compute_fcs (data : bytes) : Z := fold_left byte_step data 0.

(** ** The reference: one bit at a time *)
Definition bit_step (crc : Z) : Z := Z.lxor (Z.shiftr crc 1) (if Z.odd crc then 0x8408 else 0).

(** A data bit enters at the low end of the register. *)
Definition bit_in (crc : Z) (b : bool) : Z := bit_step (Z.lxor crc (Z.b2z b)).

(** The bits of a byte, least significant first. *)
Definition byte_bits (c : Z) : list bool := Z.testbit c <$> seqZ 0 8.

Definition crc16 (data : bytes) : Z := fold_left bit_in (mjoin (byte_bits <$> data)) 0.

(** ** Linearity *)
Lemma bit_step_lxor a b : bit_step (Z.lxor a b) = Z.lxor (bit_step a) (bit_step b).
Proof.
  unfold bit_step. rewrite Z.shiftr_lxor, <- !Z.bit0_odd, Z.lxor_spec.
  apply Z.bits_inj'. intros n _. rewrite !Z.lxor_spec.
  destruct (Z.testbit a 0), (Z.testbit b 0); cbn [xorb]; rewrite ?Z.testbit_0_l;
    destruct (Z.testbit (Z.shiftr a 1) n), (Z.testbit (Z.shiftr b 1) n), (Z.testbit 33800 n); done.
Qed.

Fixpoint bit_steps (n : nat) (crc : Z) : Z :=
  match n with O => crc | S n => bit_steps n (bit_step crc) end.

Lemma bit_steps_lxor n a b : bit_steps n (Z.lxor a b) = Z.lxor (bit_steps n a) (bit_steps n b).
Proof. revert a b. induction n as [|n IH]; intros a b; cbn [bit_steps]; [done|]. by rewrite bit_step_lxor, IH. Qed.

Lemma bit_steps_add m n x : bit_steps (m + n) x = bit_steps n (bit_steps m x).
Proof. revert x. induction m as [|m IH]; intros x; cbn; [done|apply IH]. Qed.

Lemma bit_step_even x : bit_step (2 * x) = x.
Proof.
  unfold bit_step. rewrite Z.odd_mul. cbn [Z.odd andb]. rewrite Z.lxor_0_r, Z.shiftr_div_pow2 by lia.
  change (2 ^ 1) with 2. by rewrite Z.mul_comm, Z.div_mul.
Qed.

Lemma bit_steps_shift x n : bit_steps n (x * 2 ^ Z.of_nat n) = x.
Proof.
  revert x. induction n as [|n IH]; intros x; cbn [bit_steps]; [by rewrite Z.mul_1_r|].
  replace (x * 2 ^ Z.of_nat (S n)) with (2 * (x * 2 ^ Z.of_nat n)); [by rewrite bit_step_even|].
  rewrite Nat2Z.inj_succ, Z.pow_succ_r by lia. lia.
Qed.

(** A value is its high part above its low [n] bits. *)
Lemma split_low x n : 0 <= n -> x = Z.lxor (Z.shiftr x n * 2 ^ n) (Z.land x (Z.ones n)).
Proof.
  intros Hn. apply Z.bits_inj'. intros i Hi. rewrite Z.lxor_spec, <- Z.shiftl_mul_pow2, Z.land_spec by done.
  destruct (Z.lt_ge_cases i n).
  - rewrite Z.shiftl_spec_low, Z.ones_spec_low by lia. by rewrite andb_true_r, xorb_false_l.
  - rewrite Z.shiftl_spec, Z.shiftr_spec, Z.ones_spec_high by lia. rewrite andb_false_r, xorb_false_r. f_equal. lia.
Qed.

(** The nibble table is multiplication by 0x1081. *)
Lemma nibble_table : forall q, 0 <= q < 16 -> bit_steps 4 q = q * 0x1081.
Proof.
  assert (forallb (fun q => bit_steps 4 q =? q * 0x1081) (seqZ 0 16) = true) as Hall by (vm_compute; reflexivity).
  intros q Hq. rewrite forallb_forall in Hall. apply Z.eqb_eq, Hall, list_elem_of_In, elem_of_seqZ. lia.
Qed.

Lemma nibble_steps crc n : nibble crc n = bit_steps 4 (Z.lxor crc (Z.land n 0x0F)).
Proof.
  assert (Z.lxor crc (Z.land n 0x0F) =
          Z.lxor (Z.shiftr crc 4 * 2 ^ 4) (Z.land (Z.lxor (Z.land crc 0x0F) n) 0x0F)) as ->.
  { rewrite (split_low crc 4) at 1 by lia. rewrite Z.lxor_assoc. f_equal. apply Z.bits_inj'. intros i _.
    rewrite !Z.lxor_spec, !Z.land_spec, !Z.lxor_spec, !Z.land_spec. change (Z.ones 4) with 0x0F.
    by destruct (Z.testbit crc i), (Z.testbit n i), (Z.testbit 0x0F i). }
  rewrite bit_steps_lxor, (bit_steps_shift _ 4), nibble_table; [done|].
  change 0x0F with (Z.ones 4). rewrite Z.land_ones by lia. apply Z.mod_pos_bound. lia.
Qed.

(** A byte is eight bit steps of the register with the byte folded in. *)
Lemma byte_step_steps crc c : 0 <= c < 256 -> byte_step crc c = bit_steps 8 (Z.lxor crc c).
Proof.
  intros Hc. unfold byte_step. rewrite !nibble_steps, Z.shiftr_0_r.
  assert (bit_steps 4 (Z.lxor crc c) =
          Z.lxor (bit_steps 4 (Z.lxor crc (Z.land c 0x0F))) (Z.land (Z.shiftr c 4) 0x0F)) as Heq.
  { rewrite (split_low c 4) at 1 by lia. change (Z.ones 4) with 0x0F.
    rewrite (Z.lxor_comm (Z.shiftr c 4 * _)), <- Z.lxor_assoc, bit_steps_lxor, (bit_steps_shift _ 4). f_equal.
    change 0x0F with (Z.ones 4). rewrite Z.land_ones by lia. symmetry. apply Z.mod_small.
    rewrite Z.shiftr_div_pow2 by lia. change (2 ^ 4) with 16. split; [apply Z.div_pos; lia|apply Z.div_lt_upper_bound; lia]. }
  change 8%nat with (4 + 4)%nat. by rewrite bit_steps_add, Heq.
Qed.

(** Folding the bits in one by one is folding the byte in at once. *)
Lemma bits_in_steps (bs : list bool) crc :
  fold_left bit_in bs crc =
  bit_steps (length bs) (Z.lxor crc (foldr (fun b z => Z.lxor (Z.b2z b) (2 * z)) 0 bs)).
Proof.
  revert crc. induction bs as [|b bs IH]; intros crc; cbn [fold_left foldr length bit_steps]; [by rewrite Z.lxor_0_r|].
  rewrite IH. unfold bit_in. by rewrite <- Z.lxor_assoc, (bit_step_lxor (Z.lxor crc _)), bit_step_even.
Qed.

Lemma byte_bits_value c : 0 <= c < 256 -> foldr (fun b z => Z.lxor (Z.b2z b) (2 * z)) 0 (byte_bits c) = c.
Proof.
  assert (forallb (fun c => foldr (fun b z => Z.lxor (Z.b2z b) (2 * z)) 0 (byte_bits c) =? c) (seqZ 0 256) = true) as Hall
    by (vm_compute; reflexivity).
  intros Hc. rewrite forallb_forall in Hall. apply Z.eqb_eq, Hall, list_elem_of_In, elem_of_seqZ. lia.
Qed.

Lemma crc16_from data crc :
  is_bytes data -> fold_left bit_in (mjoin (byte_bits <$> data)) crc = fold_left byte_step data crc.
Proof.
  intros Hd. revert crc. induction Hd as [|c data Hc Hd IH]; intros crc; [done|].
  cbn [fmap list_fmap mjoin list_join fold_left]. rewrite fold_left_app, (bits_in_steps (byte_bits c)), byte_bits_value by exact Hc.
  rewrite IH, byte_step_steps by exact Hc. done.
Qed.

(** C39: the nibble-at-a-time FCS is the bit-serial CRC of the standard, on every byte string. *)
Theorem compute_fcs_is_crc16 data : is_bytes data -> compute_fcs data = crc16 data.
Proof. intros Hd. symmetry. by apply crc16_from. Qed.

(** ** Error detection *)

Lemma bit_step_width x : 0 <= x < 2 ^ 16 -> 0 <= bit_step x < 2 ^ 16.
Proof.
  intros Hx. unfold bit_step. assert (0 <= Z.shiftr x 1 < 2 ^ 15) as Hs.
  { rewrite Z.shiftr_div_pow2 by lia. change (2 ^ 1) with 2. change (2 ^ 15) with 32768. change (2 ^ 16) with 65536 in Hx.
    split; [apply Z.div_pos; lia|apply Z.div_lt_upper_bound; lia]. }
  apply lxor_width; [|destruct (Z.odd x); lia]. change (2 ^ 16) with (2 * 2 ^ 15). lia.
Qed.

(** One step loses nothing: bit 15 of the result is the bit shifted out. *)
Lemma bit_step_inj x y : 0 <= x < 2 ^ 16 -> 0 <= y < 2 ^ 16 -> bit_step x = bit_step y -> x = y.
Proof.
  intros Hx Hy Heq.
  assert (forall z, 0 <= z < 2 ^ 16 -> Z.testbit (bit_step z) 15 = Z.odd z) as Htop.
  { intros z Hz. unfold bit_step. rewrite Z.lxor_spec, Z.shiftr_spec by lia.
    assert (Z.testbit z (15 + 1) = false) as ->.
    { destruct (Z.eq_dec z 0) as [->|Hnz]; [apply Z.testbit_0_l|]. apply Z.bits_above_log2; [lia|]. apply Z.log2_lt_pow2; lia. }
    by destruct (Z.odd z). }
  assert (Z.odd x = Z.odd y) as Hodd by (rewrite <- !Htop by done; by rewrite Heq).
  unfold bit_step in Heq. rewrite Hodd in Heq.
  assert (Z.shiftr x 1 = Z.shiftr y 1) as Hs.
  { apply (f_equal (fun z => Z.lxor z (if Z.odd y then 0x8408 else 0))) in Heq. by rewrite !Z.lxor_assoc, Z.lxor_nilpotent, !Z.lxor_0_r in Heq. }
  rewrite !Z.shiftr_div_pow2 in Hs by lia. change (2 ^ 1) with 2 in Hs.
  rewrite (Z.div_mod x 2), (Z.div_mod y 2), Hs by lia. rewrite !Zmod_odd. by rewrite Hodd.
Qed.

Lemma bit_steps_inj n x y : 0 <= x < 2 ^ 16 -> 0 <= y < 2 ^ 16 -> bit_steps n x = bit_steps n y -> x = y.
Proof.
  revert x y. induction n as [|n IH]; intros x y Hx Hy; cbn [bit_steps]; [done|].
  intros Heq%IH; [by apply bit_step_inj|by apply bit_step_width..].
Qed.

Lemma bit_steps_width n x : 0 <= x < 2 ^ 16 -> 0 <= bit_steps n x < 2 ^ 16.
Proof. revert x. induction n as [|n IH]; intros x Hx; cbn [bit_steps]; [done|]. by apply IH, bit_step_width. Qed.

Lemma byte_lxor_width crc c : 0 <= crc < 2 ^ 16 -> 0 <= c < 256 -> 0 <= Z.lxor crc c < 2 ^ 16.
Proof. intros Hcrc Hc. apply lxor_width; [done|]. change (2 ^ 16) with 65536. lia. Qed.

Lemma byte_step_width crc c : 0 <= crc < 2 ^ 16 -> 0 <= c < 256 -> 0 <= byte_step crc c < 2 ^ 16.
Proof. intros Hcrc Hc. rewrite byte_step_steps by done. by apply bit_steps_width, byte_lxor_width. Qed.

Lemma fcs_width_from data crc : is_bytes data -> 0 <= crc < 2 ^ 16 -> 0 <= fold_left byte_step data crc < 2 ^ 16.
Proof.
  intros Hd. revert crc. induction Hd as [|c data Hc Hd IH]; intros crc Hcrc; cbn [fold_left]; [done|].
  apply IH. by apply byte_step_width.
Qed.

Lemma compute_fcs_width data : is_bytes data -> is_u16 (compute_fcs data).
Proof. intros Hd. by apply fcs_width_from. Qed.

(** The same tail from different registers ends in different registers. *)
Lemma fcs_inj_from data x y :
  is_bytes data -> 0 <= x < 2 ^ 16 -> 0 <= y < 2 ^ 16 ->
  fold_left byte_step data x = fold_left byte_step data y -> x = y.
Proof.
  intros Hd. revert x y. induction Hd as [|c data Hc Hd IH]; intros x y Hx Hy; cbn [fold_left]; [done|].
  intros Heq%IH; [|by apply byte_step_width..]. rewrite !byte_step_steps in Heq by exact Hc.
  apply bit_steps_inj in Heq; [|by apply byte_lxor_width..].
  apply (f_equal (fun z => Z.lxor z c)) in Heq. by rewrite !Z.lxor_assoc, Z.lxor_nilpotent, !Z.lxor_0_r in Heq.
Qed.

(** Error detection: corrupting any one byte of a frame, however many of its bits, changes the
    frame check sequence. *)
Lemma fcs_detects_byte_error l1 b b' l2 :
  is_bytes (l1 ++ b :: l2) -> is_u8 b' -> b <> b' -> compute_fcs (l1 ++ b' :: l2) <> compute_fcs (l1 ++ b :: l2).
Proof.
  intros Hd Hb' Hne Heq. apply Forall_app in Hd as [H1 [Hb H2]%Forall_cons]. unfold compute_fcs in Heq.
  rewrite !fold_left_app in Heq. cbn [fold_left] in Heq.
  assert (0 <= fold_left byte_step l1 0 < 2 ^ 16) as Hcrc by (apply fcs_width_from; [done|lia]).
  apply fcs_inj_from in Heq; [|done|by apply byte_step_width..]. rewrite !byte_step_steps in Heq by done.
  apply bit_steps_inj in Heq; [|by apply byte_lxor_width..].
  apply (f_equal (fun z => Z.lxor (fold_left byte_step l1 0) z)) in Heq.
  rewrite <- !Z.lxor_assoc, Z.lxor_nilpotent, !Z.lxor_0_l in Heq. congruence.
Qed.

(** ** Witnesses: the frame of the repository's own test. *)
Definition ex_frame : bytes :=
  [0x61; 0x88; 0xa3; 0xf5; 0x3e; 0x34; 0x52; 0x63; 0xf6; 0x48; 0x02; 0x00; 0x00; 0xa5; 0x79; 0x1d; 0xc1; 0x28; 0x41;
   0xf0; 0x48; 0x02; 0x8b; 0x86; 0x34; 0xfe; 0xff; 0x27; 0x71; 0x84; 0x00; 0x13; 0xdc; 0x42; 0x64; 0x0f; 0xca; 0x9c;
   0x6e; 0xff; 0xc9; 0xcf; 0xd3; 0x35; 0x53; 0x54; 0xca; 0x68; 0x16; 0x1c; 0xc9; 0x44; 0xc4; 0xad; 0x37].

Lemma ex_frame_bytes : is_bytes ex_frame.
Proof. apply (bool_decide_unpack _). vm_compute. exact I. Qed.

Lemma compute_fcs_is_crc16_witness : compute_fcs ex_frame = crc16 ex_frame /\ compute_fcs ex_frame = 0xEAC5.
Proof. split; [apply (compute_fcs_is_crc16 ex_frame ex_frame_bytes)|vm_compute; reflexivity]. Defined.
End Fcs.
