(* ===== verification/AbstractBits.v ===== *)
(** * The bit codec the frame formats rely on

    The stack derives the bit layout of its packed structures with the [abstract-bits] crate, which
    is not part of the repository; it is a parameter here. [AbstractBits T] is what the code calls
    on a type (reading from a [BitReader] over a byte slice, with [bytes_read]; writing to a
    [BitWriter], with [bytes_written]), and [AbstractBitsLaws] what it relies on: a reader does not
    claim more bytes than it was given, and reading what was written gives the value back. *)

From S2P Require Import Prelude Types.

Class AbstractBits (T : Type) := {
  (** the value and the number of bytes read, or a [FromBytesError] *)
  read_abstract_bits : bytes -> option (T * nat);
  (** the bytes written, or a [ToBytesError] *)
  write_abstract_bits : T -> option bytes
}.

(** [AbstractBits::from_abstract_bytes]: read one value off the front of the slice. *)
Definition from_abstract_bytes `{AbstractBits T} (bs : bytes) : option T := fst <$> read_abstract_bits bs.
Definition to_abstract_bytes `{AbstractBits T} (v : T) : option bytes := write_abstract_bits v.

(** [canonical]: the values whose fields fit their widths. *)
Class AbstractBitsLaws (T : Type) `{AbstractBits T} := {
  canonical : T -> Prop;
  read_bounded bs v n : read_abstract_bits bs = Some (v, n) -> (n <= length bs)%nat;
  read_after_write v : canonical v ->
    exists bs, write_abstract_bits v = Some bs /\ is_bytes bs /\
      forall rest, read_abstract_bits (bs ++ rest) = Some (v, length bs)
}.

(** A structure that occupies a fixed number of bytes. *)
Class FixedSize (T : Type) `{AbstractBits T} (size : nat) := {
  write_size v bs : write_abstract_bits v = Some bs -> length bs = size;
  read_size bs v n : read_abstract_bits bs = Some (v, n) -> n = size
}.

(** One none of whose bits is dropped: what is written back is what was read. *)
Class FixedLayout (T : Type) `{AbstractBits T} (size : nat) := {
  layout_size :: FixedSize T size;
  write_after_read bs v n : is_bytes bs -> read_abstract_bits bs = Some (v, n) -> write_abstract_bits v = Some (take n bs)
}.

(** The same for a structure of variable length. *)
Class Lossless (T : Type) `{AbstractBits T} :=
  lossless bs v n : is_bytes bs -> read_abstract_bits bs = Some (v, n) -> write_abstract_bits v = Some (take n bs).

(** A structure with fields named [reserved], which are not part of its value: their bits are ignored
    on reading and written as zero. [mask] has the bits that are kept. *)
Class ReservedBits (T : Type) `{AbstractBits T} (mask : bytes) :=
  reserved_cleared bs v n : is_bytes bs -> read_abstract_bits bs = Some (v, n) ->
    write_abstract_bits v = Some (zip_with Z.land mask (take n bs)).

(** [MAX_PHY_PACKET_SIZE] of [src/crates/ziggurat-ieee-802154/src/lib.rs]. *)
Definition MAX_PHY_PACKET_SIZE : nat := 127.

(** [extend_abstract_bits]: the scratch buffer holds a full frame. *)
Definition extend_abstract_bits {E} `{AbstractBits T} (bs : bytes) (v : T) : res E bytes :=
  written ← unwrap (write_abstract_bits v);
  if (length written <=? MAX_PHY_PACKET_SIZE)%nat then Ok (bs ++ written) else Panic.

Lemma extend_written {E} `{AbstractBits T} (v : T) bs w :
  write_abstract_bits v = Some w -> (length w <= MAX_PHY_PACKET_SIZE)%nat -> extend_abstract_bits (E:=E) bs v = Ok (bs ++ w).
Proof. intros Hw Hl. unfold extend_abstract_bits. rewrite Hw. cbn [unwrap mbind res_bind]. by rewrite (proj2 (Nat.leb_le _ _) Hl). Qed.

(** [BitReader::from(bytes)], a read, and [&bytes[reader.bytes_read()..]]. *)
Definition read_prefix `{AbstractBits T} (bs : bytes) : res ParseError (T * bytes) :=
  match read_abstract_bits bs with
  | None => Err Bits
  | Some (v, n) => if (n <=? length bs)%nat then Ok (v, drop n bs) else Panic
  end.

Section Laws.
Context `{AbstractBitsLaws T}.

Lemma read_prefix_no_panic bs : no_panic (read_prefix (T:=T) bs).
Proof.
  unfold read_prefix. destruct (read_abstract_bits bs) as [[v n]|] eqn:Hr; [|done].
  apply read_bounded in Hr. by rewrite (proj2 (Nat.leb_le _ _) Hr).
Qed.

Lemma read_prefix_written v : canonical v ->
  exists bs, write_abstract_bits v = Some bs /\ is_bytes bs /\ forall rest, read_prefix (bs ++ rest) = Ok (v, rest).
Proof.
  intros (bs & Hw & Hb & Hr)%read_after_write. exists bs. split_and!; [done..|]. intros rest. unfold read_prefix.
  rewrite Hr. rewrite (proj2 (Nat.leb_le _ _)) by (rewrite length_app; lia). by rewrite drop_app_length.
Qed.
End Laws.

Section LosslessFacts.
Context `{!AbstractBits T, !Lossless T}.

(** What a lossless codec read off a byte string is what it writes. *)
Lemma read_prefix_inv bs (v : T) rest :
  is_bytes bs -> read_prefix bs = Ok (v, rest) -> exists w, write_abstract_bits v = Some w /\ bs = w ++ rest.
Proof.
  intros Hb. unfold read_prefix. destruct (read_abstract_bits bs) as [[v' n]|] eqn:Hr; [|done].
  destruct (Nat.leb_spec n (length bs)); [|done]. intros [= <- <-]. exists (take n bs).
  by rewrite (lossless _ _ _ Hb Hr), take_drop.
Qed.
End LosslessFacts.

#[export] Instance fixed_lossless {T : Type} {n : nat} `{!AbstractBits T, !FixedLayout T n} : Lossless T := write_after_read.
