(* ===== verification/Codec.v ===== *)
(** * Concrete bit codecs

    The theorems about frames take the codecs of the packed fields as parameters with laws. This
    file builds codecs that have the laws: little-endian words with an encoding checked by
    enumeration, sequences of two codecs, and images of a codec under a bijection. The codecs of the
    MAC and NWK structures made of them instantiate the theorems on real frames. *)

From S2P Require Import Prelude Types AbstractBits.

Module Codec.

(** ** Words *)
Section Word.
Context {T : Type} (size : nat) (encode : T -> Z) (decode : Z -> option T) (fits : T -> Prop).

Definition word_bits : AbstractBits T := {|
  read_abstract_bits bs :=
    if (length bs <? size)%nat then None else v ← decode (from_le_bytes (take size bs)); Some (v, size);
  write_abstract_bits v := Some (to_le_bytes size (encode v))
|}.

Lemma word_read_bounded bs v n : @read_abstract_bits T word_bits bs = Some (v, n) -> n = size /\ (n <= length bs)%nat.
Proof.
  cbn [read_abstract_bits word_bits]. destruct (Nat.ltb_spec (length bs) size); [discriminate|].
  destruct (decode (from_le_bytes (take size bs))); [|discriminate]. by intros [= <- <-].
Qed.

Lemma word_size : @FixedSize T word_bits size.
Proof.
  constructor.
  - intros v bs. cbn. intros [= <-]. apply length_to_le_bytes.
  - intros bs v n H. by apply word_read_bounded in H as [-> _].
Qed.

Context (Hencode : forall v, fits v -> in_width (8 * Z.of_nat size) (encode v) /\ decode (encode v) = Some v).

Lemma word_round_trip v : fits v ->
  exists bs, @write_abstract_bits T word_bits v = Some bs /\ is_bytes bs /\
    forall rest, @read_abstract_bits T word_bits (bs ++ rest) = Some (v, length bs).
Proof.
  intros [Hw Hd]%Hencode. eexists. split; [done|]. split; [apply is_bytes_to_le_bytes|]. intros rest.
  cbn [read_abstract_bits word_bits].
  rewrite length_app, length_to_le_bytes, (proj2 (Nat.ltb_ge _ _)) by lia.
  destruct (take_drop_app_length (to_le_bytes size (encode v)) rest size) as [-> _]; [apply length_to_le_bytes|].
  by rewrite from_to_le_bytes, Hd.
Qed.

Definition word_laws : @AbstractBitsLaws T word_bits := {|
  canonical := fits : T -> Prop;
  read_bounded bs v n H := proj2 (word_read_bounded bs v n H);
  read_after_write := word_round_trip
|}.

Context (Hdecode : forall w v, in_width (8 * Z.of_nat size) w -> decode w = Some v -> encode v = w).

Lemma word_write_after_read bs v n :
  is_bytes bs -> @read_abstract_bits T word_bits bs = Some (v, n) -> @write_abstract_bits T word_bits v = Some (take n bs).
Proof.
  intros Hb. cbn [read_abstract_bits write_abstract_bits word_bits].
  destruct (Nat.ltb_spec (length bs) size) as [|Hlen]; [discriminate|].
  destruct (decode (from_le_bytes (take size bs))) as [v'|] eqn:Hd; [|discriminate]. intros [= <- <-]. f_equal.
  assert (length (take size bs) = size) as Hl by (rewrite length_take; lia).
  assert (is_bytes (take size bs)) as Hb' by by apply Forall_take.
  pose proof (from_le_bytes_range _ Hb') as Hr. rewrite Hl in Hr. rewrite (Hdecode _ _ Hr Hd).
  pose proof (to_from_le_bytes _ Hb') as Ht. by rewrite Hl in Ht.
Qed.

Lemma word_layout : @FixedLayout T word_bits size.
Proof. constructor; [apply word_size|apply word_write_after_read]. Qed.
End Word.

(** ** Two codecs in sequence *)
Section Sequence.
Context {A B : Type} (ca : AbstractBits A) (cb : AbstractBits B).

Definition seq_bits : AbstractBits (A * B) := {|
  read_abstract_bits bs :=
    '(a, n) ← read_abstract_bits bs;
    '(b, m) ← read_abstract_bits (drop n bs);
    Some ((a, b), (n + m)%nat);
  write_abstract_bits v :=
    wa ← write_abstract_bits v.1;
    wb ← write_abstract_bits v.2;
    Some (wa ++ wb)
|}.

Lemma seq_read_inv bs v n :
  @read_abstract_bits _ seq_bits bs = Some (v, n) ->
  exists na nb, read_abstract_bits bs = Some (v.1, na) /\ read_abstract_bits (drop na bs) = Some (v.2, nb) /\ n = (na + nb)%nat.
Proof.
  cbn [read_abstract_bits seq_bits]. destruct (@read_abstract_bits A ca bs) as [[a na]|] eqn:Ha; [|discriminate].
  cbn [mbind option_bind]. destruct (@read_abstract_bits B cb (drop na bs)) as [[b nb]|] eqn:Hb; [|discriminate].
  intros [= <- <-]. by exists na, nb.
Qed.

Context (la : @AbstractBitsLaws A ca) (lb : @AbstractBitsLaws B cb).

Lemma seq_bounded bs v n : @read_abstract_bits _ seq_bits bs = Some (v, n) -> (n <= length bs)%nat.
Proof.
  intros (na & nb & Ha & Hb & ->)%seq_read_inv. apply read_bounded in Ha, Hb. rewrite length_drop in Hb. lia.
Qed.

Lemma seq_round_trip v : canonical v.1 /\ canonical v.2 ->
  exists bs, @write_abstract_bits _ seq_bits v = Some bs /\ is_bytes bs /\
    forall rest, @read_abstract_bits _ seq_bits (bs ++ rest) = Some (v, length bs).
Proof.
  intros [(wa & Ha & Hba & Hra)%read_after_write (wb & Hb & Hbb & Hrb)%read_after_write]. exists (wa ++ wb).
  cbn [write_abstract_bits read_abstract_bits seq_bits]. rewrite Ha. cbn [mbind option_bind]. rewrite Hb. cbn [mbind option_bind].
  split_and!; [done|by apply is_bytes_app|]. intros rest. rewrite <- (assoc_L (++)), Hra. cbn [mbind option_bind].
  rewrite drop_app_length, Hrb. cbn [mbind option_bind]. rewrite length_app. by destruct v.
Qed.

Definition seq_laws : @AbstractBitsLaws _ seq_bits := {|
  canonical := fun v : A * B => canonical v.1 /\ canonical v.2;
  read_bounded := seq_bounded;
  read_after_write := seq_round_trip
|}.

Lemma seq_lossless (wa : @Lossless A ca) (wb : @Lossless B cb) : @Lossless _ seq_bits.
Proof.
  intros bs v n Hbs (na & nb & Ha & Hb & ->)%seq_read_inv. cbn [write_abstract_bits seq_bits].
  rewrite (wa _ _ _ Hbs Ha). cbn [mbind option_bind]. rewrite (wb _ _ _ (Forall_drop _ na _ Hbs) Hb). cbn [mbind option_bind].
  f_equal. by rewrite <- take_take_drop.
Qed.

Lemma seq_layout na nb (fa : @FixedLayout A ca na) (fb : @FixedLayout B cb nb) : @FixedLayout _ seq_bits (na + nb).
Proof.
  constructor; [constructor|].
  - intros v bs. cbn [write_abstract_bits seq_bits]. destruct (@write_abstract_bits A ca v.1) as [wa|] eqn:Ha; [|discriminate].
    cbn [mbind option_bind]. destruct (@write_abstract_bits B cb v.2) as [wb|] eqn:Hb; [|discriminate]. intros [= <-].
    apply write_size in Ha, Hb. rewrite length_app. lia.
  - intros bs v n (ka & kb & Ha & Hb & ->)%seq_read_inv. apply read_size in Ha, Hb. lia.
  - apply seq_lossless; apply _.
Qed.
End Sequence.

(** ** Images under a bijection *)
Section Image.
Context {A T : Type} (ca : AbstractBits A) (build : A -> T) (parts : T -> A).

Definition image_bits : AbstractBits T := {|
  read_abstract_bits bs := '(a, n) ← read_abstract_bits bs; Some (build a, n);
  write_abstract_bits v := write_abstract_bits (parts v)
|}.

Context (build_parts : forall v, build (parts v) = v) (parts_build : forall a, parts (build a) = a).

Lemma image_read_inv bs v n :
  @read_abstract_bits _ image_bits bs = Some (v, n) -> read_abstract_bits bs = Some (parts v, n).
Proof.
  cbn [read_abstract_bits image_bits]. destruct (@read_abstract_bits A ca bs) as [[a k]|]; [|discriminate].
  intros [= <- <-]. by rewrite parts_build.
Qed.

Context (la : @AbstractBitsLaws A ca).

Lemma image_bounded bs v n : @read_abstract_bits _ image_bits bs = Some (v, n) -> (n <= length bs)%nat.
Proof. intros H%image_read_inv. by apply read_bounded in H. Qed.

Lemma image_round_trip v : canonical (parts v) ->
  exists bs, @write_abstract_bits _ image_bits v = Some bs /\ is_bytes bs /\
    forall rest, @read_abstract_bits _ image_bits (bs ++ rest) = Some (v, length bs).
Proof.
  intros (bs & Hw & Hb & Hr)%read_after_write. exists bs. split_and!; [done..|]. intros rest.
  cbn [read_abstract_bits image_bits]. rewrite Hr. cbn [mbind option_bind]. by rewrite build_parts.
Qed.

Definition image_laws : @AbstractBitsLaws _ image_bits := {|
  canonical := fun v : T => canonical (parts v);
  read_bounded := image_bounded;
  read_after_write := image_round_trip
|}.

Lemma image_lossless (wa : @Lossless A ca) : @Lossless _ image_bits.
Proof. intros bs v n Hb H%image_read_inv. by apply wa. Qed.

Lemma image_layout n (fa : @FixedLayout A ca n) : @FixedLayout _ image_bits n.
Proof.
  constructor; [constructor|].
  - intros v bs H. exact (write_size (parts v) bs H).
  - intros bs v k H%image_read_inv. by apply read_size in H.
  - apply image_lossless, _.
Qed.
End Image.

(** ** Enumeration *)
Definition field (w lo len : Z) : Z := Z.land (Z.shiftr w lo) (Z.ones len).
Definition flag (w lo : Z) : bool := Z.testbit w lo.
Definition bools : list bool := [false; true].

Lemma forallb_all {A} (l : list A) (P : A -> bool) x : forallb P l = true -> In x l -> P x = true.
Proof. intros Hall Hin. rewrite forallb_forall in Hall. by apply Hall. Qed.

Lemma in_bools b : In b bools.
Proof. destruct b; cbn; auto. Qed.

Lemma in_range n z : in_width n z -> In z (seqZ 0 (2 ^ n)).
Proof. intros Hz. apply list_elem_of_In, elem_of_seqZ. unfold in_width in Hz. lia. Qed.

(** Every byte that decodes encodes back to itself. *)
Definition bytes_decode {T} (encode : T -> Z) (decode : Z -> option T) : bool :=
  forallb (fun w => match decode w with Some v => encode v =? w | None => true end) (seqZ 0 (2 ^ 8)).

Lemma bytes_decode_spec {T} encode decode :
  bytes_decode (T:=T) encode decode = true -> forall w v, in_width (8 * Z.of_nat 1) w -> decode w = Some v -> encode v = w.
Proof.
  intros Hall w v Hw Hd. pose proof (forallb_all _ _ w Hall (in_range 8 _ Hw)) as Hp. cbn beta in Hp. rewrite Hd in Hp. by apply Z.eqb_eq.
Qed.

Definition value_ok {T} `{EqDecision T} (encode : T -> Z) (decode : Z -> option T) (v : T) : bool :=
  bool_decide (in_width (8 * Z.of_nat 1) (encode v) /\ decode (encode v) = Some v).

(** Peel one enumerated component off a checked table. *)
Ltac peel H v :=
  apply (fun Hall Hin => forallb_all _ _ v Hall Hin) in H;
  [cbn beta in H|first [apply in_bools|destruct v; cbn; tauto]].
Ltac peel_range H v Hv := apply (fun Hall Hin => forallb_all _ _ v Hall Hin) in H; [cbn beta in H|exact (in_range _ _ Hv)].
End Codec.
