(* ===== verification/Mac.v ===== *)
(** * IEEE 802.15.4 MAC frames: [src/crates/ziggurat-ieee-802154/src/lib.rs] and [commands.rs] *)

From S2P Require Import Prelude Types AbstractBits Fcs.

Module Mac.

Inductive AddressingMode : Type := ModeNone | ModeShort | ModeLong.
Inductive FrameType : Type := TypeBeacon | TypeData | TypeCommand | TypeAck.
Inductive FrameVersion : Type := Ieee2003 | Ieee2006 | Ieee2015 | ReservedVersion.

#[export] Instance AddressingMode_eq_dec : EqDecision AddressingMode.
Proof. solve_decision. Defined.

Inductive AssociationStatus : Type :=
| AssociationSuccessful | PanAtCapacity | PanAccessDenied | HoppingSequenceOffsetDuplication | FastAssociationSuccessful.

Inductive DisassociationReason : Type :=
| ReservedReason | CoordinatorWishesToLeave | DeviceWishesToLeave.

(** [Ieee802154FrameControl]. *)
Record FrameControl := mkFrameControl {
  frame_type : FrameType;
  security_enabled : bool;
  frame_pending : bool;
  ack_request : bool;
  pan_id_compression : bool;
  reserved1 : bool;
  sequence_number_suppression : bool;
  information_elements_present : bool;
  dest_addr_mode : AddressingMode;
  frame_version : FrameVersion;
  src_addr_mode : AddressingMode
}.

(** [Ieee802154CommandId]. *)
Inductive CommandId : Type :=
| NotAMacCommand | IdAssociationRequest | IdAssociationResponse | IdDisassociationNotification | IdDataRequest
| PanIdConflictNotification | OrphanNotification | IdBeaconRequest | CoordinatorRealignment | GtsRequest.

(** [id as u8] and [Ieee802154CommandId::try_from]. *)
Definition command_id_to_u8 (id : CommandId) : Z :=
  match id with
  | NotAMacCommand => 0
  | IdAssociationRequest => 1
  | IdAssociationResponse => 2
  | IdDisassociationNotification => 3
  | IdDataRequest => 4
  | PanIdConflictNotification => 5
  | OrphanNotification => 6
  | IdBeaconRequest => 7
  | CoordinatorRealignment => 8
  | GtsRequest => 9
  end.

Definition command_id_of_u8 (b : Z) : option CommandId :=
  nth_error [NotAMacCommand; IdAssociationRequest; IdAssociationResponse; IdDisassociationNotification; IdDataRequest;
             PanIdConflictNotification; OrphanNotification; IdBeaconRequest; CoordinatorRealignment; GtsRequest]
    (Z.to_nat b).

(** [Ieee802154FrameHeader]. *)
Record FrameHeader := mkFrameHeader {
  frame_control : FrameControl;
  sequence_number : option Z;
  dest_pan_id : option PanId;
  dest_address : option Ieee802154Address;
  src_pan_id : option PanId;
  src_address : option Ieee802154Address
}.

Record SuperframeSpecification := mkSuperframe {
  beacon_interval : Z;
  superframe_interval : Z;
  final_cap_slot : Z;
  battery_extension : bool;
  sf_reserved1 : Z;
  pan_coordinator : bool;
  association_permit : bool
}.

(** The command bodies of [commands.rs]. *)
Inductive AssociationRequestDeviceType : Type := ReducedFunctionDevice | FullFunctionDevice.
Inductive AssociationRequestPowerSource : Type := BatteryPower | MainsPower.

Record AssociationRequestCommand := mkAssociationRequest {
  alternate_pan_coordinator : bool;
  device_type : AssociationRequestDeviceType;
  power_source : AssociationRequestPowerSource;
  receive_on_when_idle : bool;
  ar_reserved1 : Z;
  security_capable : bool;
  allocate_address : bool
}.

Record AssociationResponseCommand := mkAssociationResponse {
  short_address : Nwk;
  association_status : AssociationStatus
}.

Record DisassociationNotificationCommand := mkDisassociation {
  disassociation_reason : DisassociationReason
}.

(** The two commands with no body implement the codec by hand. *)
Inductive DataRequestCommand : Type := DataRequestBody.
Inductive BeaconRequestCommand : Type := BeaconRequestBody.

#[export] Instance data_request_bits : AbstractBits DataRequestCommand := {
  read_abstract_bits _ := Some (DataRequestBody, 0%nat);
  write_abstract_bits _ := Some []
}.
#[export] Instance beacon_request_bits : AbstractBits BeaconRequestCommand := {
  read_abstract_bits _ := Some (BeaconRequestBody, 0%nat);
  write_abstract_bits _ := Some []
}.

(** [Ieee802154CommandPayload]. *)
Inductive CommandPayload : Type :=
| AssociationRequest (c : AssociationRequestCommand)
| AssociationResponse (c : AssociationResponseCommand)
| DisassociationNotification (c : DisassociationNotificationCommand)
| DataRequest (c : DataRequestCommand)
| BeaconRequest (c : BeaconRequestCommand)
| Unknown (raw : bytes).

(** The frames; [P] is the payload of a data frame. *)
Record BeaconFrame := mkBeaconFrame {
  bf_header : FrameHeader;
  superframe_specification : SuperframeSpecification;
  gts_specification : Z;
  pending_address_specification : Z;
  beacon_payload : bytes;
  bf_fcs : Z
}.
Record DataFrame (P : Type) := mkDataFrame {
  df_header : FrameHeader;
  df_payload : P;
  df_fcs : Z
}.
Arguments mkDataFrame {P}.
Arguments df_header {P}.
Arguments df_payload {P}.
Arguments df_fcs {P}.
Record AckFrame := mkAckFrame {
  af_header : FrameHeader;
  af_fcs : Z
}.
Record CommandFrame := mkCommandFrame {
  cf_header : FrameHeader;
  command_payload : CommandPayload;
  cf_fcs : Z
}.

(** [Ieee802154Frame]. *)
Inductive Frame (P : Type) : Type :=
| Beacon (f : BeaconFrame)
| Data (f : DataFrame P)
| Ack (f : AckFrame)
| Command (f : CommandFrame).
Arguments Beacon {P}.
Arguments Data {P}.
Arguments Ack {P}.
Arguments Command {P}.

(** [FramePayload::extend_frame_bytes]: the serialized payload; a [FrameBytes] is its bytes. *)
Class FramePayload (P : Type) := payload_bytes : P -> bytes.
#[export] Instance frame_bytes_payload : FramePayload bytes := fun bs => bs.

Definition header {P} (f : Frame P) : FrameHeader :=
  match f with
  | Beacon f => bf_header f
  | Data f => df_header f
  | Ack f => af_header f
  | Command f => cf_header f
  end.

Definition fcs {P} (f : Frame P) : Z :=
  match f with
  | Beacon f => bf_fcs f
  | Data f => df_fcs f
  | Ack f => af_fcs f
  | Command f => cf_fcs f
  end.

Section Codec.
Context `{!AbstractBits FrameControl, !AbstractBits SuperframeSpecification,
          !AbstractBits AssociationRequestCommand, !AbstractBits AssociationResponseCommand,
          !AbstractBits DisassociationNotificationCommand}.

Definition command_id (p : CommandPayload) : option CommandId :=
  match p with
  | AssociationRequest _ => Some IdAssociationRequest
  | AssociationResponse _ => Some IdAssociationResponse
  | DisassociationNotification _ => Some IdDisassociationNotification
  | DataRequest _ => Some IdDataRequest
  | BeaconRequest _ => Some IdBeaconRequest
  | Unknown raw => head raw ≫= command_id_of_u8
  end.

(** [Ieee802154CommandPayload::try_parse]. *)
Definition try_parse (bs : bytes) : option CommandPayload :=
  match bs with
  | [] => None
  | id_byte :: body =>
      id ← command_id_of_u8 id_byte;
      match id with
      | IdAssociationRequest => AssociationRequest <$> from_abstract_bytes body
      | IdAssociationResponse => AssociationResponse <$> from_abstract_bytes body
      | IdDisassociationNotification => DisassociationNotification <$> from_abstract_bytes body
      | IdDataRequest => DataRequest <$> from_abstract_bytes body
      | IdBeaconRequest => BeaconRequest <$> from_abstract_bytes body
      | _ => None
      end
  end.

Definition command_from_bytes (bs : bytes) : CommandPayload := default (Unknown bs) (try_parse bs).

Definition command_to_bytes {E} (p : CommandPayload) : res E bytes :=
  let encoded (id : CommandId) (body : option bytes) : res E bytes :=
    body ← unwrap body; Ok (command_id_to_u8 id :: body) in
  match p with
  | AssociationRequest c => encoded IdAssociationRequest (to_abstract_bytes c)
  | AssociationResponse c => encoded IdAssociationResponse (to_abstract_bytes c)
  | DisassociationNotification c => encoded IdDisassociationNotification (to_abstract_bytes c)
  | DataRequest c => encoded IdDataRequest (to_abstract_bytes c)
  | BeaconRequest c => encoded IdBeaconRequest (to_abstract_bytes c)
  | Unknown raw => Ok raw
  end.

(** [remaining[0]] and [&remaining[1..]], after the emptiness check. *)
Definition parse_byte (ty : string) (bs : bytes) : res ParseError (Z * bytes) :=
  match bs with
  | [] => Err (UnexpectedEnd ty)
  | b :: rest => Ok (b, rest)
  end.

Definition parse_sequence_number (fc : FrameControl) (bs : bytes) : res ParseError (option Z * bytes) :=
  if sequence_number_suppression fc then Ok (None, bs)
  else '(seq, rest) ← parse_byte "Ieee802154 sequence number" bs; Ok (Some seq, rest).

Definition parse_dest (fc : FrameControl) (bs : bytes) : res ParseError (option PanId * option Ieee802154Address * bytes) :=
  match dest_addr_mode fc with
  | ModeShort =>
      '(pan_id, bs) ← PanId.deserialize bs;
      '(nwk, bs) ← Nwk.deserialize bs;
      Ok (Some pan_id, Some (AddrNwk nwk), bs)
  | ModeLong =>
      '(pan_id, bs) ← PanId.deserialize bs;
      '(eui64, bs) ← Eui64.deserialize bs;
      Ok (Some pan_id, Some (AddrEui64 eui64), bs)
  | ModeNone => Ok (None, None, bs)
  end.

Definition parse_src_pan (fc : FrameControl) (dest_pan : option PanId) (bs : bytes) : res ParseError (option PanId * bytes) :=
  if pan_id_compression fc then Ok (dest_pan, bs)
  else if bool_decide (src_addr_mode fc <> ModeNone) then
    '(pan_id, bs) ← PanId.deserialize bs;
    Ok (Some pan_id, bs)
  else Ok (None, bs).

Definition parse_src_address (fc : FrameControl) (bs : bytes) : res ParseError (option Ieee802154Address * bytes) :=
  match src_addr_mode fc with
  | ModeShort => '(nwk, bs) ← Nwk.deserialize bs; Ok (Some (AddrNwk nwk), bs)
  | ModeLong => '(eui64, bs) ← Eui64.deserialize bs; Ok (Some (AddrEui64 eui64), bs)
  | ModeNone => Ok (None, bs)
  end.

Definition parse_header (bs : bytes) : res ParseError (FrameHeader * bytes) :=
  '(fc, bs) ← read_prefix bs;
  '(seq, bs) ← parse_sequence_number fc bs;
  '(dest_pan, dest, bs) ← parse_dest fc bs;
  '(src_pan, bs) ← parse_src_pan fc dest_pan bs;
  '(src, bs) ← parse_src_address fc bs;
  Ok (mkFrameHeader fc seq dest_pan dest src_pan src, bs).

Definition parse_beacon (h : FrameHeader) (bs : bytes) (fcs : Z) : res ParseError (Frame bytes) :=
  match frame_version (frame_control h) with
  | Ieee2015 | ReservedVersion => Err (Unsupported "Enhanced Beacon frame")
  | Ieee2003 | Ieee2006 =>
      if (length bs <? 4)%nat then Err (UnexpectedEnd "Ieee802154BeaconFrame")
      else
        sf ← ok_or Bits (from_abstract_bytes (take 4 bs));
        gts ← unwrap (bs !! 2%nat);
        pending ← unwrap (bs !! 3%nat);
        Ok (Beacon (mkBeaconFrame h sf gts pending (drop 4 bs) fcs))
  end.

(** The branch on the frame type. *)
Definition parse_body (h : FrameHeader) (bs : bytes) (fcs : Z) : res ParseError (Frame bytes) :=
  match frame_type (frame_control h) with
  | TypeBeacon => parse_beacon h bs fcs
  | TypeData =>
      if (length bs <=? MAX_PHY_PACKET_SIZE)%nat then Ok (Data (mkDataFrame h bs fcs))
      else Err (InvalidLength "Ieee802154DataFrame payload")
  | TypeAck => Ok (Ack (mkAckFrame h fcs))
  | TypeCommand =>
      match bs with
      | [] => Err (UnexpectedEnd "Ieee802154 command ID")
      | _ => Ok (Command (mkCommandFrame h (command_from_bytes bs) fcs))
      end
  end.

Definition from_bytes (data : bytes) : res ParseError (Frame bytes) :=
  if (length data <? 4)%nat then Err (UnexpectedEnd "Ieee802154Frame")
  else if (MAX_PHY_PACKET_SIZE <? length data)%nat then Err (InvalidLength "Ieee802154Frame")
  else
    let body := take (length data - 2) data in
    let fcs := from_le_bytes (drop (length data - 2) data) in
    if negb (Fcs.compute_fcs body =? fcs) then Err InvalidFcs
    else
      '(h, bs) ← parse_header body;
      parse_body h bs fcs.

Definition from_bytes_without_fcs (data : bytes) : res ParseError (Frame bytes) :=
  from_bytes (data ++ to_le_bytes 2 (Fcs.compute_fcs data)).

Definition address_bytes (address : option Ieee802154Address) : bytes :=
  match address with
  | Some (AddrNwk nwk) => Nwk.to_bytes nwk
  | Some (AddrEui64 eui64) => Eui64.to_bytes eui64
  | None => []
  end.

Definition option_bytes {A} (f : A -> bytes) (o : option A) : bytes := match o with Some a => f a | None => [] end.

(** The header part of [to_bytes_without_fcs]. *)
Definition header_bytes {E} (h : FrameHeader) : res E bytes :=
  data ← extend_abstract_bits [] (frame_control h);
  Ok (data ++ option_bytes (fun seq => [seq]) (sequence_number h)
           ++ option_bytes PanId.to_bytes (dest_pan_id h)
           ++ address_bytes (dest_address h)
           ++ (if pan_id_compression (frame_control h) then [] else option_bytes PanId.to_bytes (src_pan_id h))
           ++ address_bytes (src_address h)).

Definition to_bytes_without_fcs {E} `{FramePayload P} (f : Frame P) : res E bytes :=
  data ← header_bytes (header f);
  match f with
  | Beacon f =>
      data ← extend_abstract_bits data (superframe_specification f);
      Ok (data ++ [gts_specification f; pending_address_specification f] ++ beacon_payload f)
  | Data f => Ok (data ++ payload_bytes (df_payload f))
  | Ack _ => Ok data
  | Command f => body ← command_to_bytes (command_payload f); Ok (data ++ body)
  end.

Definition to_bytes {E} `{FramePayload P} (f : Frame P) : res E bytes :=
  data ← to_bytes_without_fcs f;
  Ok (data ++ to_le_bytes 2 (Fcs.compute_fcs data)).
End Codec.
End Mac.
