(* ===== verification/MacFacts.v ===== *)
(** * Properties of the MAC frame codec: totality, the round trips, and detection of corruption *)

From S2P Require Import Prelude Types AbstractBits Fcs Mac.

Module MacFacts.
Import Mac.

(** ** Well-formed frames

    What a frame must satisfy to survive serialization: the optional header fields are there exactly
    when the frame control says so, and every value fits its field. *)
Definition address_ok (mode : AddressingMode) (address : option Ieee802154Address) : Prop :=
  match mode, address with
  | ModeNone, None => True
  | ModeShort, Some (AddrNwk nwk) => is_u16 nwk
  | ModeLong, Some (AddrEui64 eui64) => eui64_ok eui64
  | _, _ => False
  end.

Definition pan_ok (mode : AddressingMode) (pan : option PanId) : Prop :=
  match mode, pan with
  | ModeNone, None => True
  | (ModeShort | ModeLong), Some pan => is_u16 pan
  | _, _ => False
  end.

Definition sequence_ok (suppressed : bool) (seq : option Z) : Prop :=
  match suppressed, seq with
  | true, None => True
  | false, Some seq => is_u8 seq
  | _, _ => False
  end.

(** The same frame with the check sequence its bytes carry. *)
Definition with_fcs {P} (z : Z) (f : Frame P) : Frame P :=
  match f with
  | Beacon f => Beacon (mkBeaconFrame (bf_header f) (superframe_specification f) (gts_specification f)
                          (pending_address_specification f) (beacon_payload f) z)
  | Data f => Data (mkDataFrame (df_header f) (df_payload f) z)
  | Ack f => Ack (mkAckFrame (af_header f) z)
  | Command f => Command (mkCommandFrame (cf_header f) (command_payload f) z)
  end.

Lemma command_id_roundtrip id : command_id_of_u8 (command_id_to_u8 id) = Some id.
Proof. by destruct id. Qed.

Section Facts.
Context `{!AbstractBits FrameControl, !AbstractBits SuperframeSpecification,
          !AbstractBits AssociationRequestCommand, !AbstractBits AssociationResponseCommand,
          !AbstractBits DisassociationNotificationCommand}.
Context `{!AbstractBitsLaws FrameControl}.

(** ** Totality *)
Lemma parse_header_no_panic bs : no_panic (parse_header bs).
Proof.
  unfold parse_header. apply no_panic_bind; [apply read_prefix_no_panic|intros [fc bs1] _].
  apply no_panic_bind.
  { unfold parse_sequence_number, parse_byte. destruct (sequence_number_suppression fc); [done|]. by destruct bs1. }
  intros [seq bs2] _. apply no_panic_bind.
  { unfold parse_dest. destruct (dest_addr_mode fc); [done|..];
      (apply no_panic_bind; [auto with zig|intros [? ?] _]; apply no_panic_bind; [auto with zig|by intros [? ?] _]). }
  intros [[dest_pan dest] bs3] _. apply no_panic_bind.
  { unfold parse_src_pan. destruct (pan_id_compression fc); [done|]. case_bool_decide; [|done].
    apply no_panic_bind; [auto with zig|by intros [? ?] _]. }
  intros [src_pan bs4] _. apply no_panic_bind; [|by intros [? ?] _].
  unfold parse_src_address. destruct (src_addr_mode fc); [done|..]; (apply no_panic_bind; [auto with zig|by intros [? ?] _]).
Qed.

Lemma parse_beacon_no_panic h bs z : no_panic (parse_beacon h bs z).
Proof.
  unfold parse_beacon. destruct (frame_version _); try done.
  all: destruct (Nat.ltb_spec (length bs) 4) as [|Hlen]; [done|]; destruct bs as [|b0 [|b1 [|b2 [|b3 bs]]]]; cbn in Hlen; try lia.
  all: apply no_panic_bind; [auto with zig|intros; done].
Qed.

(** The receive path is total: whatever bytes the radio delivers, [Ieee802154Frame::from_bytes]
    returns a frame or an error and never panics, provided the bit reader does not claim more bytes
    than it was given. *)
Lemma mac_from_bytes_total data : from_bytes data <> Panic.
Proof.
  unfold from_bytes. destruct (length data <? 4)%nat; [done|]. destruct (_ <? length data)%nat; [done|].
  destruct (negb _); [done|]. apply no_panic_bind; [apply parse_header_no_panic|]. intros [h bs] _.
  unfold parse_body. destruct (frame_type _); [apply parse_beacon_no_panic|by destruct (_ <=? _)%nat|by destruct bs|done].
Qed.

(** ** Corruption *)
Lemma from_bytes_checks data f :
  from_bytes data = Ok f ->
  (4 <= length data <= MAX_PHY_PACKET_SIZE)%nat /\
  Fcs.compute_fcs (take (length data - 2) data) = from_le_bytes (drop (length data - 2) data).
Proof.
  unfold from_bytes. destruct (Nat.ltb_spec (length data) 4); [done|].
  destruct (Nat.ltb_spec MAX_PHY_PACKET_SIZE (length data)); [done|].
  destruct (Z.eqb_spec (Fcs.compute_fcs (take (length data - 2) data)) (from_le_bytes (drop (length data - 2) data))); done.
Qed.

Lemma from_bytes_bad_fcs data :
  (4 <= length data <= MAX_PHY_PACKET_SIZE)%nat ->
  Fcs.compute_fcs (take (length data - 2) data) <> from_le_bytes (drop (length data - 2) data) ->
  from_bytes data = Err InvalidFcs.
Proof.
  intros [H4 Hmax] Hne. unfold from_bytes. rewrite (proj2 (Nat.ltb_ge _ _) H4), (proj2 (Nat.ltb_ge _ _) Hmax).
  by rewrite (proj2 (Z.eqb_neq _ _) Hne).
Qed.

Lemma from_le_bytes_inj l k :
  is_bytes l -> is_bytes k -> length l = length k -> from_le_bytes l = from_le_bytes k -> l = k.
Proof.
  intros Hl Hk Hlen Heq. rewrite <- (to_from_le_bytes l), <- (to_from_le_bytes k) by done. by rewrite Hlen, Heq.
Qed.

(** C38: a frame the stack accepts is no longer accepted once any single byte of it, the check
    sequence included, is changed in any way: [from_bytes] answers [InvalidFcs]. *)
Theorem corrupted_frame_rejected l1 b b' l2 f :
  is_bytes (l1 ++ b :: l2) -> is_u8 b' -> b <> b' ->
  from_bytes (l1 ++ b :: l2) = Ok f -> from_bytes (l1 ++ b' :: l2) = Err InvalidFcs.
Proof.
  intros Hbs Hb' Hne [Hlen Hfcs]%from_bytes_checks.
  assert (length (l1 ++ b' :: l2) = length (l1 ++ b :: l2)) as Hsame by (rewrite !length_app; done).
  apply from_bytes_bad_fcs; rewrite Hsame; [done|]. set (n := (length (l1 ++ b :: l2) - 2)%nat) in *.
  assert (is_bytes (l1 ++ b' :: l2)) as Hbs'.
  { apply Forall_app in Hbs as [? [? ?]%Forall_cons]. by apply Forall_app_2, Forall_cons. }
  destruct (decide (n <= length l1)%nat) as [Hin|Hin].
  - rewrite !take_app_le, !drop_app_le in * by done. rewrite Hfcs. intros Heq%from_le_bytes_inj.
    + apply app_inv_head in Heq. by injection Heq.
    + rewrite <- drop_app_le by done. by apply Forall_drop.
    + rewrite <- drop_app_le by done. by apply Forall_drop.
    + by rewrite !length_app.
  - rewrite !take_app_ge, !drop_app_ge in * by lia. destruct (n - length l1)%nat as [|k] eqn:Hk; [lia|].
    cbn [take drop] in *. rewrite <- Hfcs. apply Fcs.fcs_detects_byte_error; [|done|done].
    apply Forall_app in Hbs as [? [? ?]%Forall_cons]. apply Forall_app_2, Forall_cons; [done|]. split; [done|by apply Forall_take].
Qed.

(** ** Round trip *)
Context `{!FixedLayout FrameControl 2}.

(** [Ieee802154FrameHeader] values that a frame on the air can carry. *)
Record header_ok (h : FrameHeader) : Prop := {
  header_control : canonical (frame_control h);
  header_sequence : sequence_ok (sequence_number_suppression (frame_control h)) (sequence_number h);
  header_dest_pan : pan_ok (dest_addr_mode (frame_control h)) (dest_pan_id h);
  header_dest : address_ok (dest_addr_mode (frame_control h)) (dest_address h);
  header_src_pan :
    if pan_id_compression (frame_control h) then src_pan_id h = dest_pan_id h
    else pan_ok (src_addr_mode (frame_control h)) (src_pan_id h);
  header_src : address_ok (src_addr_mode (frame_control h)) (src_address h)
}.

Lemma parse_sequence_written fc seq rest :
  sequence_ok (sequence_number_suppression fc) seq ->
  parse_sequence_number fc (option_bytes (fun seq => [seq]) seq ++ rest) = Ok (seq, rest).
Proof. unfold sequence_ok, parse_sequence_number. by destruct (sequence_number_suppression fc), seq. Qed.

Lemma parse_dest_written fc pan address rest :
  pan_ok (dest_addr_mode fc) pan -> address_ok (dest_addr_mode fc) address ->
  parse_dest fc (option_bytes PanId.to_bytes pan ++ address_bytes address ++ rest) = Ok (pan, address, rest).
Proof.
  unfold pan_ok, address_ok, parse_dest.
  destruct (dest_addr_mode fc), pan, address as [[]|]; try done; cbn [option_bytes address_bytes]; intros.
  - rewrite <- ?(assoc_L (++)), panid_deserialize_to_bytes by done. cbn [mbind res_bind]. by rewrite nwk_deserialize_to_bytes.
  - rewrite <- ?(assoc_L (++)), panid_deserialize_to_bytes by done. cbn [mbind res_bind]. by rewrite eui64_deserialize_to_bytes.
Qed.

Lemma parse_src_pan_written fc dest_pan src_pan rest :
  (if pan_id_compression fc then src_pan = dest_pan else pan_ok (src_addr_mode fc) src_pan) ->
  parse_src_pan fc dest_pan ((if pan_id_compression fc then [] else option_bytes PanId.to_bytes src_pan) ++ rest) = Ok (src_pan, rest).
Proof.
  unfold parse_src_pan, pan_ok. destruct (pan_id_compression fc); [by intros ->|].
  destruct (src_addr_mode fc), src_pan; try done; intros; (rewrite bool_decide_true || rewrite bool_decide_false by auto); try done.
  all: cbn [option_bytes]; by rewrite panid_deserialize_to_bytes.
Qed.

Lemma parse_src_address_written fc address rest :
  address_ok (src_addr_mode fc) address -> parse_src_address fc (address_bytes address ++ rest) = Ok (address, rest).
Proof.
  unfold address_ok, parse_src_address. destruct (src_addr_mode fc), address as [[]|]; try done; cbn [address_bytes]; intros.
  - by rewrite nwk_deserialize_to_bytes.
  - by rewrite eui64_deserialize_to_bytes.
Qed.

Lemma option_pan_is_bytes pan : is_bytes (option_bytes PanId.to_bytes pan).
Proof. destruct pan; [apply is_bytes_to_le_bytes|constructor]. Qed.

Lemma address_is_bytes mode address : address_ok mode address -> is_bytes (address_bytes address).
Proof.
  destruct address as [[nwk|eui64]|]; [intros _; apply is_bytes_to_le_bytes| |intros _; apply is_bytes_nil].
  destruct mode; [done|done|]. by intros [_ Hb].
Qed.

Lemma header_is_bytes fcb h :
  is_bytes fcb -> header_ok h ->
  is_bytes (fcb ++ option_bytes (fun seq => [seq]) (sequence_number h)
           ++ option_bytes PanId.to_bytes (dest_pan_id h)
           ++ address_bytes (dest_address h)
           ++ (if pan_id_compression (frame_control h) then [] else option_bytes PanId.to_bytes (src_pan_id h))
           ++ address_bytes (src_address h)).
Proof.
  intros Hfc []. repeat apply is_bytes_app; eauto using option_pan_is_bytes, address_is_bytes.
  - destruct (sequence_number h), (sequence_number_suppression (frame_control h)); try done; cbn; [by apply Forall_singleton|apply is_bytes_nil].
  - destruct (pan_id_compression _); [apply is_bytes_nil|apply option_pan_is_bytes].
Qed.

(** A well-formed header is written, and parsed back off the front of whatever follows it. *)
Lemma header_written h :
  header_ok h ->
  exists hb, (forall E, header_bytes (E:=E) h = Ok hb) /\ is_bytes hb /\ (2 <= length hb)%nat /\
    forall rest, parse_header (hb ++ rest) = Ok (h, rest).
Proof.
  intros Hok. destruct Hok as [Hfc Hseq Hdp Hd Hsp Hs] eqn:HH. clear HH.
  destruct (read_prefix_written _ Hfc) as (fcb & Hw & Hb & Hr). pose proof (write_size _ _ Hw) as Hsize.
  eexists. split.
  { intros E. unfold header_bytes, extend_abstract_bits. rewrite Hw. cbn [unwrap mbind res_bind]. rewrite Hsize. cbn. reflexivity. }
  split; [by apply header_is_bytes|]. split; [rewrite length_app; lia|].
  intros rest. unfold parse_header. rewrite <- !(assoc_L (++)), Hr. cbn [mbind res_bind].
  rewrite parse_sequence_written by done. cbn [mbind res_bind].
  rewrite parse_dest_written by done. cbn [mbind res_bind].
  rewrite parse_src_pan_written by done. cbn [mbind res_bind].
  rewrite parse_src_address_written by done. cbn [mbind res_bind]. by destruct h.
Qed.

Context `{!AbstractBitsLaws SuperframeSpecification, !FixedLayout SuperframeSpecification 2}.
Context `{!AbstractBitsLaws AssociationRequestCommand, !AbstractBitsLaws AssociationResponseCommand,
          !AbstractBitsLaws DisassociationNotificationCommand}.

Definition command_ok (p : CommandPayload) : Prop :=
  match p with
  | AssociationRequest c => canonical c
  | AssociationResponse c => canonical c
  | DisassociationNotification c => canonical c
  | DataRequest _ | BeaconRequest _ => True
  | Unknown raw => raw <> [] /\ is_bytes raw /\ try_parse raw = None
  end.

Definition frame_ok (f : Frame bytes) : Prop :=
  header_ok (header f) /\
  match f with
  | Beacon f =>
      frame_type (frame_control (bf_header f)) = TypeBeacon /\
      (frame_version (frame_control (bf_header f)) = Ieee2003 \/ frame_version (frame_control (bf_header f)) = Ieee2006) /\
      canonical (superframe_specification f) /\
      is_bytes (gts_specification f :: pending_address_specification f :: beacon_payload f)
  | Data f => frame_type (frame_control (df_header f)) = TypeData /\ is_bytes (df_payload f)
  | Ack f => frame_type (frame_control (af_header f)) = TypeAck
  | Command f => frame_type (frame_control (cf_header f)) = TypeCommand /\ command_ok (command_payload f)
  end.

Lemma from_abstract_written `{AbstractBitsLaws T} (v : T) :
  canonical v -> exists bs, to_abstract_bytes v = Some bs /\ is_bytes bs /\ from_abstract_bytes bs = Some v.
Proof.
  intros (bs & Hw & Hb & Hr)%read_after_write. exists bs. split_and!; [done..|].
  unfold from_abstract_bytes. rewrite <- (app_nil_r bs), Hr. done.
Qed.

Lemma command_written {E} p :
  command_ok p ->
  exists bs, command_to_bytes (E:=E) p = Ok bs /\ is_bytes bs /\ bs <> [] /\ command_from_bytes bs = p.
Proof.
  destruct p as [c|c|c|[]|[]|raw]; intros Hc; cbn in Hc.
  1-3: destruct (from_abstract_written c Hc) as (bs & Hw & Hb & Hr); eexists; unfold command_to_bytes; rewrite Hw;
       cbn [unwrap mbind res_bind]; split; [reflexivity|]; split; [constructor; [unfold in_width; cbn; lia|done]|];
       split; [done|]; unfold command_from_bytes, try_parse; rewrite command_id_roundtrip; cbn; by rewrite Hr.
  1-2: eexists; split; [reflexivity|]; split; [apply (bool_decide_unpack _); vm_compute; exact I|]; done.
  destruct Hc as (Hne & Hb & Hnone). exists raw. split_and!; try done. unfold command_from_bytes. by rewrite Hnone.
Qed.

Lemma parse_beacon_written (f : BeaconFrame) z :
  frame_version (frame_control (bf_header f)) = Ieee2003 \/ frame_version (frame_control (bf_header f)) = Ieee2006 ->
  canonical (superframe_specification f) ->
  exists sfb, write_abstract_bits (superframe_specification f) = Some sfb /\ is_bytes sfb /\ length sfb = 2%nat /\
    parse_beacon (bf_header f) (sfb ++ gts_specification f :: pending_address_specification f :: beacon_payload f) z
    = Ok (with_fcs z (Beacon f)).
Proof.
  intros Hv Hc. destruct (read_after_write _ Hc) as (sfb & Hw & Hb & Hr). pose proof (write_size _ _ Hw) as Hsize.
  exists sfb. split_and!; [done..|]. destruct sfb as [|b0 [|b1 [|]]]; try done. unfold parse_beacon, from_abstract_bytes.
  cbn [app length take drop]. rewrite (proj2 (Nat.ltb_ge _ _)) by lia.
  pose proof (Hr [gts_specification f; pending_address_specification f]) as Hr'. cbn [app] in Hr'. rewrite take_0, drop_0, Hr'.
  destruct f. by destruct Hv as [-> | ->].
Qed.

(** The bytes after the header parse back to the body of the frame. *)
Lemma body_written {E} hb (f : Frame bytes) z :
  frame_ok f -> header_bytes (E:=E) (header f) = Ok hb -> is_bytes hb ->
  exists body, to_bytes_without_fcs (E:=E) f = Ok (hb ++ body) /\ is_bytes body /\
    ((length body <= MAX_PHY_PACKET_SIZE)%nat -> parse_body (header f) body z = Ok (with_fcs z f)).
Proof.
  intros [_ Hf] Hhb Hb. unfold to_bytes_without_fcs, parse_body. rewrite Hhb. cbn [mbind res_bind].
  destruct f as [f|f|f|f]; cbn [header].
  - destruct Hf as (Hty & Hver & Hsf & Hrest). destruct (parse_beacon_written f z Hver Hsf) as (sfb & Hw & Hsb & Hl & Hp).
    exists (sfb ++ gts_specification f :: pending_address_specification f :: beacon_payload f).
    unfold extend_abstract_bits. rewrite Hw. cbn [unwrap mbind res_bind]. rewrite Hl, Hty.
    split_and!; [cbn; by rewrite <- (assoc_L (++))|by apply is_bytes_app|by intros _].
  - destruct Hf as [Hty Hp]. eexists. split; [reflexivity|]. split; [done|]. intros Hl. rewrite Hty.
    cbn. by rewrite (proj2 (Nat.leb_le _ _) Hl).
  - exists []. rewrite app_nil_r, Hf. split_and!; [done|apply is_bytes_nil|by destruct f].
  - destruct Hf as [Hty Hc]. destruct (command_written (E:=E) _ Hc) as (bs & Hw & Hbs & Hne & Hr). exists bs. rewrite Hw, Hty.
    split_and!; [done..|]. intros _. destruct bs; [done|]. by rewrite Hr.
Qed.

(** C12: serialize, then parse: [to_bytes] of a well-formed frame of any of the four types succeeds,
    and when the result fits a PHY packet [from_bytes] gives the same frame back, with the check
    sequence that was put on the air. *)
Theorem mac_round_trip {E} f :
  frame_ok f ->
  exists body, to_bytes (E:=E) f = Ok (body ++ to_le_bytes 2 (Fcs.compute_fcs body)) /\
    ((length body + 2 <= MAX_PHY_PACKET_SIZE)%nat ->
     from_bytes (body ++ to_le_bytes 2 (Fcs.compute_fcs body)) = Ok (with_fcs (Fcs.compute_fcs body) f)).
Proof.
  intros Hf. destruct (header_written (header f) (proj1 Hf)) as (hb & Hhb & Hb & Hlen & Hph). specialize (Hhb E).
  destruct (body_written hb f 0 Hf Hhb Hb) as (bb & Hto & Hbb & _). exists (hb ++ bb).
  unfold to_bytes. rewrite Hto. cbn [mbind res_bind]. split; [done|]. intros Hmax.
  assert (is_u16 (Fcs.compute_fcs (hb ++ bb))) as Hw by by apply Fcs.compute_fcs_width, is_bytes_app.
  destruct (body_written hb f (Fcs.compute_fcs (hb ++ bb)) Hf Hhb Hb) as (bb' & Hto' & _ & Hpb).
  rewrite Hto in Hto'. injection Hto' as ->%app_inv_head. unfold from_bytes. rewrite !length_app, length_to_le_bytes in *.
  rewrite (proj2 (Nat.ltb_ge _ _)) by lia. rewrite (proj2 (Nat.ltb_ge _ _)) by lia.
  replace (length hb + length bb' + 2 - 2)%nat with (length (hb ++ bb')) by (rewrite length_app; lia).
  rewrite take_app_length, drop_app_length, from_to_le_bytes, Z.eqb_refl by done. cbn [negb]. rewrite Hph.
  apply Hpb. lia.
Qed.

(** Data frames under one header: the bytes before the payload do not depend on it. *)
Lemma data_frame_written h :
  header_ok h -> frame_type (frame_control h) = TypeData ->
  exists hb, is_bytes hb /\ (forall E, header_bytes (E:=E) h = Ok hb) /\ forall payload, is_bytes payload ->
    (forall E z, to_bytes (E:=E) (Data (mkDataFrame h payload z)) = Ok ((hb ++ payload) ++ to_le_bytes 2 (Fcs.compute_fcs (hb ++ payload)))) /\
    ((length (hb ++ payload) + 2 <= MAX_PHY_PACKET_SIZE)%nat ->
     from_bytes ((hb ++ payload) ++ to_le_bytes 2 (Fcs.compute_fcs (hb ++ payload))) = Ok (Data (mkDataFrame h payload (Fcs.compute_fcs (hb ++ payload))))).
Proof.
  intros Hh Hty. destruct (header_written h Hh) as (hb & Hhb & Hb & Hlen & Hph). exists hb. split_and!; [done..|]. intros payload Hp. split.
  - intros E z. unfold to_bytes, to_bytes_without_fcs. cbn [header df_header]. by rewrite Hhb.
  - intros Hmax. assert (is_u16 (Fcs.compute_fcs (hb ++ payload))) as Hw by by apply Fcs.compute_fcs_width, is_bytes_app.
    unfold from_bytes. rewrite (length_app (hb ++ payload)), length_to_le_bytes. rewrite length_app in Hmax.
    rewrite (proj2 (Nat.ltb_ge _ _)) by (rewrite length_app; lia). rewrite (proj2 (Nat.ltb_ge _ _)) by (rewrite length_app; lia).
    rewrite Nat.add_sub, take_app_length, drop_app_length, from_to_le_bytes, Z.eqb_refl by done. cbn [negb]. rewrite Hph.
    cbn [mbind res_bind]. unfold parse_body. rewrite Hty. by rewrite (proj2 (Nat.leb_le _ _)) by lia.
Qed.

(** ** Re-serialization *)
Lemma parse_header_inv {E} bs h rest :
  is_bytes bs -> parse_header bs = Ok (h, rest) -> exists hb, header_bytes (E:=E) h = Ok hb /\ bs = hb ++ rest.
Proof.
  intros Hb. unfold parse_header. intros ([fc bs1] & Hfc & H)%bind_ok.
  apply read_prefix_inv in Hfc as (fcb & Hw & ->); [|done]. pose proof (write_size _ _ Hw) as Hl. apply Forall_app in Hb as [_ Hb].
  apply bind_ok in H as ([seq bs2] & Hseq & H).
  assert (bs1 = option_bytes (fun seq => [seq]) seq ++ bs2) as ->.
  { unfold parse_sequence_number, parse_byte in Hseq. destruct (sequence_number_suppression fc); [naive_solver|].
    destruct bs1; [done|]. by injection Hseq as <- <-. }
  apply Forall_app in Hb as [_ Hb]. apply bind_ok in H as ([[dp d] bs3] & Hd & H).
  assert (bs2 = option_bytes PanId.to_bytes dp ++ address_bytes d ++ bs3) as ->.
  { unfold parse_dest in Hd. destruct (dest_addr_mode fc); [naive_solver|..];
      apply bind_ok in Hd as ([p b] & Hp & Hd); apply panid_deserialize_inv in Hp as [-> _]; [|done| |done];
      apply Forall_app in Hb as [_ Hb]; apply bind_ok in Hd as ([a b'] & Ha & [= <- <- <-]); cbn [option_bytes address_bytes]; f_equal.
    - by apply nwk_deserialize_inv in Ha as [-> _].
    - by apply eui64_deserialize_inv in Ha as [-> _]. }
  apply Forall_app in Hb as [_ [_ Hb]%Forall_app]. apply bind_ok in H as ([sp bs4] & Hsp & H).
  assert (bs3 = (if pan_id_compression fc then [] else option_bytes PanId.to_bytes sp) ++ bs4) as ->.
  { unfold parse_src_pan in Hsp. destruct (pan_id_compression fc); [naive_solver|]. case_bool_decide; [|naive_solver].
    apply bind_ok in Hsp as ([p b] & Hp & [= <- <-]). by apply panid_deserialize_inv in Hp as [-> _]. }
  apply Forall_app in Hb as [_ Hb]. apply bind_ok in H as ([s bs5] & Hs & [= <- <-]).
  assert (bs4 = address_bytes s ++ bs5) as ->.
  { unfold parse_src_address in Hs. destruct (src_addr_mode fc); [naive_solver|..]; apply bind_ok in Hs as ([a b] & Ha & [= <- <-]).
    - by apply nwk_deserialize_inv in Ha as [-> _].
    - by apply eui64_deserialize_inv in Ha as [-> _]. }
  eexists. split.
  - unfold header_bytes, extend_abstract_bits. cbn [frame_control]. rewrite Hw. cbn [unwrap mbind res_bind]. by rewrite Hl.
  - by rewrite <- !(assoc_L (++)).
Qed.

(** Parse, then serialize: a data frame the stack accepts is written back to exactly the bytes
    that were received, so relaying a parsed frame does not alter it. *)
Lemma data_frame_reserializes {E} bs f :
  is_bytes bs -> from_bytes bs = Ok (Data f) -> to_bytes (E:=E) (Data f) = Ok bs.
Proof.
  intros Hb Hok. pose proof (from_bytes_checks _ _ Hok) as [[H4 Hmax] Hfcs]. revert Hok. unfold from_bytes.
  rewrite (proj2 (Nat.ltb_ge _ _) H4), (proj2 (Nat.ltb_ge _ _) Hmax), (proj2 (Z.eqb_eq _ _) Hfcs). cbn [negb].
  intros ([h rest] & Hh & Hbody)%bind_ok. apply (parse_header_inv (E:=E)) in Hh as (hb & Hhb & Hsplit); [|by apply Forall_take].
  unfold parse_body in Hbody. destruct (frame_type (frame_control h)).
  - exfalso. revert Hbody. unfold parse_beacon. destruct (frame_version _), (length rest <? 4)%nat; try done.
    all: destruct (from_abstract_bytes _); try done; cbn; destruct (rest !! 2%nat), (rest !! 3%nat); done.
  - destruct (length rest <=? _)%nat; [|done]. injection Hbody as <-. unfold to_bytes, to_bytes_without_fcs. cbn [header df_header df_payload].
    rewrite Hhb. cbn [mbind res_bind]. unfold payload_bytes, frame_bytes_payload. rewrite <- Hsplit, Hfcs.
    pose proof (to_from_le_bytes (drop (length bs - 2) bs) ltac:(by apply Forall_drop)) as Ht.
    replace (length (drop (length bs - 2) bs)) with 2%nat in Ht by (rewrite length_drop; lia). by rewrite Ht, take_drop.
  - by destruct rest.
  - done.
Qed.
End Facts.
End MacFacts.
