(* ===== verification/MacCodec.v ===== *)
(** * Concrete codecs of the MAC structures, and the MAC theorems on real frames *)

From S2P Require Import Prelude Types AbstractBits Codec Fcs Mac MacFacts.

Module MacCodec.
Import Codec Mac MacFacts.

#[export] Instance FrameType_eq_dec : EqDecision FrameType.
Proof. solve_decision. Defined.
#[export] Instance FrameVersion_eq_dec : EqDecision FrameVersion.
Proof. solve_decision. Defined.
#[export] Instance AssociationRequestDeviceType_eq_dec : EqDecision AssociationRequestDeviceType.
Proof. solve_decision. Defined.
#[export] Instance AssociationRequestPowerSource_eq_dec : EqDecision AssociationRequestPowerSource.
Proof. solve_decision. Defined.
#[export] Instance AssociationRequest_eq_dec : EqDecision AssociationRequestCommand.
Proof. solve_decision. Defined.

(** ** The frame control field: two bytes *)
Record ControlLow := mkLow { l_type : FrameType; l_security : bool; l_pending : bool; l_ack : bool; l_compression : bool; l_reserved : bool }.
Record ControlHigh := mkHigh { h_suppression : bool; h_elements : bool; h_dest : AddressingMode; h_version : FrameVersion; h_src : AddressingMode }.

#[export] Instance ControlLow_eq_dec : EqDecision ControlLow.
Proof. solve_decision. Defined.
#[export] Instance ControlHigh_eq_dec : EqDecision ControlHigh.
Proof. solve_decision. Defined.

Definition frame_types : list FrameType := [TypeBeacon; TypeData; TypeAck; TypeCommand].
Definition frame_type_code (t : FrameType) : Z :=
  match t with TypeBeacon => 0 | TypeData => 1 | TypeAck => 2 | TypeCommand => 3 end.
Definition modes : list AddressingMode := [ModeNone; ModeShort; ModeLong].
Definition mode_code (m : AddressingMode) : Z := match m with ModeNone => 0 | ModeShort => 2 | ModeLong => 3 end.
Definition mode_of (z : Z) : option AddressingMode :=
  match z with 0 => Some ModeNone | 2 => Some ModeShort | 3 => Some ModeLong | _ => None end.
Definition versions : list FrameVersion := [Ieee2003; Ieee2006; Ieee2015; ReservedVersion].
Definition version_code (v : FrameVersion) : Z :=
  match v with Ieee2003 => 0 | Ieee2006 => 1 | Ieee2015 => 2 | ReservedVersion => 3 end.

Definition encode_low (c : ControlLow) : Z :=
  frame_type_code (l_type c) + Z.b2z (l_security c) * 8 + Z.b2z (l_pending c) * 16 + Z.b2z (l_ack c) * 32
  + Z.b2z (l_compression c) * 64 + Z.b2z (l_reserved c) * 128.
Definition decode_low (w : Z) : option ControlLow :=
  ty ← nth_error frame_types (Z.to_nat (field w 0 3));
  Some (mkLow ty (flag w 3) (flag w 4) (flag w 5) (flag w 6) (flag w 7)).

Definition encode_high (c : ControlHigh) : Z :=
  Z.b2z (h_suppression c) + Z.b2z (h_elements c) * 2 + mode_code (h_dest c) * 4 + version_code (h_version c) * 16
  + mode_code (h_src c) * 64.
Definition decode_high (w : Z) : option ControlHigh :=
  dest ← mode_of (field w 2 2);
  version ← nth_error versions (Z.to_nat (field w 4 2));
  src ← mode_of (field w 6 2);
  Some (mkHigh (flag w 0) (flag w 1) dest version src).

Lemma lows_checked :
  forallb (fun ty => forallb (fun s => forallb (fun p => forallb (fun a => forallb (fun c => forallb (fun r =>
    value_ok encode_low decode_low (mkLow ty s p a c r)) bools) bools) bools) bools) bools) frame_types = true.
Proof. vm_compute. reflexivity. Qed.
Lemma highs_checked :
  forallb (fun s => forallb (fun e => forallb (fun d => forallb (fun v => forallb (fun r =>
    value_ok encode_high decode_high (mkHigh s e d v r)) modes) versions) modes) bools) bools = true.
Proof. vm_compute. reflexivity. Qed.
Lemma low_words : bytes_decode encode_low decode_low = true.
Proof. vm_compute. reflexivity. Qed.
Lemma high_words : bytes_decode encode_high decode_high = true.
Proof. vm_compute. reflexivity. Qed.

Lemma low_codec v : True -> in_width (8 * Z.of_nat 1) (encode_low v) /\ decode_low (encode_low v) = Some v.
Proof.
  intros _. pose proof lows_checked as H. destruct v as [ty s p a c r].
  peel H ty. peel H s. peel H p. peel H a. peel H c. peel H r. by apply bool_decide_eq_true in H.
Qed.
Lemma high_codec v : True -> in_width (8 * Z.of_nat 1) (encode_high v) /\ decode_high (encode_high v) = Some v.
Proof.
  intros _. pose proof highs_checked as H. destruct v as [s e d v r].
  peel H s. peel H e. peel H d. peel H v. peel H r. by apply bool_decide_eq_true in H.
Qed.

Definition control_build (p : ControlLow * ControlHigh) : FrameControl :=
  mkFrameControl (l_type p.1) (l_security p.1) (l_pending p.1) (l_ack p.1) (l_compression p.1) (l_reserved p.1)
    (h_suppression p.2) (h_elements p.2) (h_dest p.2) (h_version p.2) (h_src p.2).
Definition control_parts (c : FrameControl) : ControlLow * ControlHigh :=
  (mkLow (frame_type c) (security_enabled c) (frame_pending c) (ack_request c) (pan_id_compression c) (reserved1 c),
   mkHigh (sequence_number_suppression c) (information_elements_present c) (dest_addr_mode c) (frame_version c) (src_addr_mode c)).
Lemma control_build_parts c : control_build (control_parts c) = c.
Proof. by destruct c. Qed.
Lemma control_parts_build p : control_parts (control_build p) = p.
Proof. by destruct p as [[] []]. Qed.

Definition low_bits : AbstractBits ControlLow := word_bits 1 encode_low decode_low.
Definition high_bits : AbstractBits ControlHigh := word_bits 1 encode_high decode_high.

#[export] Instance control_bits : AbstractBits FrameControl := image_bits (seq_bits low_bits high_bits) control_build control_parts.
#[export] Instance control_laws : AbstractBitsLaws FrameControl :=
  image_laws _ _ _ control_build_parts control_parts_build
    (seq_laws _ _ (word_laws 1 encode_low decode_low (fun _ => True) low_codec)
                  (word_laws 1 encode_high decode_high (fun _ => True) high_codec)).
#[export] Instance control_layout : FixedLayout FrameControl 2 :=
  image_layout _ _ _ control_parts_build 2
    (seq_layout _ _ 1 1 (word_layout 1 _ _ (bytes_decode_spec _ _ low_words)) (word_layout 1 _ _ (bytes_decode_spec _ _ high_words))).

(** ** The superframe specification: two bytes *)
Record SuperLow := mkSuperLow { s_beacon : Z; s_superframe : Z }.
Record SuperHigh := mkSuperHigh { s_slot : Z; s_battery : bool; s_reserved : Z; s_coordinator : bool; s_permit : bool }.

#[export] Instance SuperLow_eq_dec : EqDecision SuperLow.
Proof. solve_decision. Defined.
#[export] Instance SuperHigh_eq_dec : EqDecision SuperHigh.
Proof. solve_decision. Defined.

Definition encode_super_low (s : SuperLow) : Z := s_beacon s + s_superframe s * 16.
Definition decode_super_low (w : Z) : option SuperLow := Some (mkSuperLow (field w 0 4) (field w 4 4)).
Definition encode_super_high (s : SuperHigh) : Z :=
  s_slot s + Z.b2z (s_battery s) * 16 + s_reserved s * 32 + Z.b2z (s_coordinator s) * 64 + Z.b2z (s_permit s) * 128.
Definition decode_super_high (w : Z) : option SuperHigh :=
  Some (mkSuperHigh (field w 0 4) (flag w 4) (field w 5 1) (flag w 6) (flag w 7)).

Lemma super_lows_checked :
  forallb (fun b => forallb (fun s => value_ok encode_super_low decode_super_low (mkSuperLow b s)) (seqZ 0 (2 ^ 4))) (seqZ 0 (2 ^ 4)) = true.
Proof. vm_compute. reflexivity. Qed.
Lemma super_highs_checked :
  forallb (fun c => forallb (fun b => forallb (fun r => forallb (fun p => forallb (fun a =>
    value_ok encode_super_high decode_super_high (mkSuperHigh c b r p a)) bools) bools) (seqZ 0 (2 ^ 1))) bools) (seqZ 0 (2 ^ 4)) = true.
Proof. vm_compute. reflexivity. Qed.
Lemma super_low_words : bytes_decode encode_super_low decode_super_low = true.
Proof. vm_compute. reflexivity. Qed.
Lemma super_high_words : bytes_decode encode_super_high decode_super_high = true.
Proof. vm_compute. reflexivity. Qed.

Lemma super_low_codec v : in_width 4 (s_beacon v) /\ in_width 4 (s_superframe v) ->
  in_width (8 * Z.of_nat 1) (encode_super_low v) /\ decode_super_low (encode_super_low v) = Some v.
Proof.
  pose proof super_lows_checked as H. destruct v as [b s]. cbn [s_beacon s_superframe]. intros [Hb Hs].
  peel_range H b Hb. peel_range H s Hs. by apply bool_decide_eq_true in H.
Qed.
Lemma super_high_codec v : in_width 4 (s_slot v) /\ in_width 1 (s_reserved v) ->
  in_width (8 * Z.of_nat 1) (encode_super_high v) /\ decode_super_high (encode_super_high v) = Some v.
Proof.
  pose proof super_highs_checked as H. destruct v as [c b r p a]. cbn [s_slot s_reserved]. intros [Hc Hr].
  peel_range H c Hc. peel H b. peel_range H r Hr. peel H p. peel H a. by apply bool_decide_eq_true in H.
Qed.

Definition super_build (p : SuperLow * SuperHigh) : SuperframeSpecification :=
  mkSuperframe (s_beacon p.1) (s_superframe p.1) (s_slot p.2) (s_battery p.2) (s_reserved p.2) (s_coordinator p.2) (s_permit p.2).
Definition super_parts (s : SuperframeSpecification) : SuperLow * SuperHigh :=
  (mkSuperLow (beacon_interval s) (superframe_interval s),
   mkSuperHigh (final_cap_slot s) (battery_extension s) (sf_reserved1 s) (pan_coordinator s) (association_permit s)).
Lemma super_build_parts s : super_build (super_parts s) = s.
Proof. by destruct s. Qed.
Lemma super_parts_build p : super_parts (super_build p) = p.
Proof. by destruct p as [[] []]. Qed.

Definition super_low_bits : AbstractBits SuperLow := word_bits 1 encode_super_low decode_super_low.
Definition super_high_bits : AbstractBits SuperHigh := word_bits 1 encode_super_high decode_super_high.

#[export] Instance superframe_bits : AbstractBits SuperframeSpecification :=
  image_bits (seq_bits super_low_bits super_high_bits) super_build super_parts.
#[export] Instance superframe_laws : AbstractBitsLaws SuperframeSpecification :=
  image_laws _ _ _ super_build_parts super_parts_build
    (seq_laws _ _ (word_laws 1 _ _ _ super_low_codec) (word_laws 1 _ _ _ super_high_codec)).
#[export] Instance superframe_layout : FixedLayout SuperframeSpecification 2 :=
  image_layout _ _ _ super_parts_build 2
    (seq_layout _ _ 1 1 (word_layout 1 _ _ (bytes_decode_spec _ _ super_low_words))
                        (word_layout 1 _ _ (bytes_decode_spec _ _ super_high_words))).

(** ** The command bodies *)
Definition device_types : list AssociationRequestDeviceType := [ReducedFunctionDevice; FullFunctionDevice].
Definition power_sources : list AssociationRequestPowerSource := [BatteryPower; MainsPower].

Definition encode_association (c : AssociationRequestCommand) : Z :=
  Z.b2z (alternate_pan_coordinator c)
  + (match device_type c with ReducedFunctionDevice => 0 | FullFunctionDevice => 1 end) * 2
  + (match power_source c with BatteryPower => 0 | MainsPower => 1 end) * 4
  + Z.b2z (receive_on_when_idle c) * 8 + ar_reserved1 c * 16 + Z.b2z (security_capable c) * 64 + Z.b2z (allocate_address c) * 128.

Definition decode_association (w : Z) : option AssociationRequestCommand :=
  ty ← nth_error device_types (Z.to_nat (field w 1 1));
  power ← nth_error power_sources (Z.to_nat (field w 2 1));
  Some (mkAssociationRequest (flag w 0) ty power (flag w 3) (field w 4 2) (flag w 6) (flag w 7)).

Definition status_code (s : AssociationStatus) : Z :=
  match s with
  | AssociationSuccessful => 0
  | PanAtCapacity => 1
  | PanAccessDenied => 2
  | HoppingSequenceOffsetDuplication => 3
  | FastAssociationSuccessful => 128
  end.
Definition status_of (z : Z) : option AssociationStatus :=
  match z with
  | 0 => Some AssociationSuccessful
  | 1 => Some PanAtCapacity
  | 2 => Some PanAccessDenied
  | 3 => Some HoppingSequenceOffsetDuplication
  | 128 => Some FastAssociationSuccessful
  | _ => None
  end.

Definition encode_response (c : AssociationResponseCommand) : Z := short_address c + 65536 * status_code (association_status c).
Definition decode_response (w : Z) : option AssociationResponseCommand :=
  mkAssociationResponse (w mod 65536) <$> status_of (w / 65536).

Definition encode_disassociation (c : DisassociationNotificationCommand) : Z :=
  match disassociation_reason c with ReservedReason => 0 | CoordinatorWishesToLeave => 1 | DeviceWishesToLeave => 2 end.
Definition decode_disassociation (w : Z) : option DisassociationNotificationCommand :=
  mkDisassociation <$> nth_error [ReservedReason; CoordinatorWishesToLeave; DeviceWishesToLeave] (Z.to_nat w).

Lemma associations_checked :
  forallb (fun a => forallb (fun ty => forallb (fun p => forallb (fun rx => forallb (fun r => forallb (fun s => forallb (fun al =>
    value_ok encode_association decode_association (mkAssociationRequest a ty p rx r s al))
  bools) bools) (seqZ 0 (2 ^ 2))) bools) power_sources) device_types) bools = true.
Proof. vm_compute. reflexivity. Qed.

Lemma association_codec v : in_width 2 (ar_reserved1 v) ->
  in_width (8 * Z.of_nat 1) (encode_association v) /\ decode_association (encode_association v) = Some v.
Proof.
  pose proof associations_checked as H.
  destruct v as [a ty p rx r s al]. cbn [ar_reserved1]. intros Hr.
  peel H a. peel H ty. peel H p. peel H rx. peel_range H r Hr. peel H s. peel H al. by apply bool_decide_eq_true in H.
Qed.

Lemma response_codec v : is_u16 (short_address v) ->
  in_width (8 * Z.of_nat 3) (encode_response v) /\ decode_response (encode_response v) = Some v.
Proof.
  destruct v as [a s]. unfold encode_response, decode_response, in_width. cbn [short_address association_status].
  intros Ha. change (2 ^ 16) with 65536 in Ha. change (2 ^ (8 * Z.of_nat 3)) with 16777216.
  rewrite (Z.mul_comm 65536), Z.mod_add, Z.div_add, Z.mod_small, (Z.div_small a), Z.add_0_l by lia.
  destruct s; cbn; (split; [lia|done]).
Qed.

Lemma disassociation_codec (v : DisassociationNotificationCommand) : True ->
  in_width (8 * Z.of_nat 1) (encode_disassociation v) /\ decode_disassociation (encode_disassociation v) = Some v.
Proof. intros _. destruct v as [[]]; (split; [unfold in_width; cbn; lia|done]). Qed.

#[export] Instance association_bits : AbstractBits AssociationRequestCommand := word_bits 1 encode_association decode_association.
#[export] Instance association_laws : AbstractBitsLaws AssociationRequestCommand :=
  word_laws 1 encode_association decode_association (fun v => in_width 2 (ar_reserved1 v)) association_codec.

#[export] Instance response_bits : AbstractBits AssociationResponseCommand := word_bits 3 encode_response decode_response.
#[export] Instance response_laws : AbstractBitsLaws AssociationResponseCommand :=
  word_laws 3 encode_response decode_response (fun v => is_u16 (short_address v)) response_codec.

#[export] Instance disassociation_bits : AbstractBits DisassociationNotificationCommand :=
  word_bits 1 encode_disassociation decode_disassociation.
#[export] Instance disassociation_laws : AbstractBitsLaws DisassociationNotificationCommand :=
  word_laws 1 encode_disassociation decode_disassociation (fun _ => True) disassociation_codec.

(** ** Witnesses

    The encrypted data frame of the repository's own test, with its check sequence. *)
Definition ex_bytes : bytes := Fcs.ex_frame ++ to_le_bytes 2 (Fcs.compute_fcs Fcs.ex_frame).

Definition ex_header : FrameHeader :=
  mkFrameHeader (mkFrameControl TypeData false false true true false false false ModeShort Ieee2003 ModeShort)
    (Some 0xa3) (Some 0x3ef5) (Some (AddrNwk 0x5234)) (Some 0x3ef5) (Some (AddrNwk 0xf663)).

Definition ex_data : DataFrame bytes := mkDataFrame ex_header (drop 9 Fcs.ex_frame) (Fcs.compute_fcs Fcs.ex_frame).

Lemma ex_bytes_ok : is_bytes ex_bytes.
Proof. apply (bool_decide_unpack _). vm_compute. exact I. Qed.

Lemma ex_parses : from_bytes ex_bytes = Ok (Data ex_data).
Proof. vm_compute. reflexivity. Qed.

Lemma ex_data_ok : frame_ok (Data ex_data).
Proof.
  split; [constructor; cbn; unfold in_width; try done; lia|].
  split; [done|]. apply (bool_decide_unpack _). vm_compute. exact I.
Qed.

Lemma mac_from_bytes_total_witness : from_bytes ex_bytes <> Panic.
Proof. apply mac_from_bytes_total. Defined.

Lemma corrupted_frame_rejected_witness :
  from_bytes ([] ++ 0x61 :: tail ex_bytes) = Ok (Data ex_data) /\
  from_bytes ([] ++ 0x41 :: tail ex_bytes) = Err InvalidFcs.
Proof.
  split; [apply ex_parses|].
  apply (corrupted_frame_rejected [] 0x61 0x41 (tail ex_bytes) (Data ex_data)); [apply ex_bytes_ok|unfold in_width; lia|lia|apply ex_parses].
Defined.

Lemma mac_round_trip_witness :
  exists body, to_bytes (E:=ParseError) (Data ex_data) = Ok (body ++ to_le_bytes 2 (Fcs.compute_fcs body)) /\
    ((length body + 2 <= MAX_PHY_PACKET_SIZE)%nat ->
     from_bytes (body ++ to_le_bytes 2 (Fcs.compute_fcs body)) = Ok (with_fcs (Fcs.compute_fcs body) (Data ex_data))).
Proof. apply mac_round_trip, ex_data_ok. Defined.

Lemma data_frame_reserializes_witness : to_bytes (E:=ParseError) (Data ex_data) = Ok ex_bytes.
Proof. apply data_frame_reserializes; [apply ex_bytes_ok|apply ex_parses]. Defined.
End MacCodec.
