(* ===== verification/Crypto.v ===== *)
(** * Cryptography: [src/crates/ziggurat-zigbee/src/crypto.rs]

    The AES-128 block and CCM come from the [aes] and [ccm] crates (or a platform backend) and are
    parameters: [BlockCipher] is [CryptoBackend::aes128_encrypt_block], [Ccm] the detached calls of
    the [ccm] crate with a 4-byte tag and a 13-byte nonce. [CcmLaws] states what a CCM
    implementation documents: it encrypts every frame-sized buffer without changing its length, and
    verifies and decrypts what it encrypted. Everything around them is the code's own: the padding
    and chaining of the Matyas-Meyer-Oseas hash, the keyed hash, the derived keys, and the buffers
    of the frame protection. *)

From S2P Require Import Prelude Types AbstractBits.

Class BlockCipher := aes128_encrypt_block : bytes -> bytes -> bytes.

Class BlockCipherLaws `{BlockCipher} := {
  block_length key block : length block = 16%nat -> length (aes128_encrypt_block key block) = 16%nat
}.

Class Ccm := {
  (** [encrypt_inout_detached(nonce, auth_data, buffer)]: the ciphertext and the tag *)
  encrypt_inout_detached : Key -> bytes -> bytes -> bytes -> option (bytes * bytes);
  (** [decrypt_inout_detached(nonce, auth_data, buffer, tag)]: the plaintext *)
  decrypt_inout_detached : Key -> bytes -> bytes -> bytes -> bytes -> option bytes
}.

Module Crypto.

Definition MIC_LENGTH : nat := 4.

Inductive DecryptionError : Type := InvalidMacTag | CiphertextTooShort.

#[export] Instance DecryptionError_eq_dec : EqDecision DecryptionError.
Proof. solve_decision. Defined.

Class CcmLaws `{Ccm} := {
  encrypt_ok key nonce aad plain : (length plain <= MAX_PHY_PACKET_SIZE)%nat ->
    exists cipher mic, encrypt_inout_detached key nonce aad plain = Some (cipher, mic) /\
      length cipher = length plain /\ length mic = MIC_LENGTH;
  decrypt_encrypted key nonce aad plain cipher mic :
    encrypt_inout_detached key nonce aad plain = Some (cipher, mic) ->
    decrypt_inout_detached key nonce aad cipher mic = Some plain;
  decrypt_length key nonce aad cipher mic plain :
    decrypt_inout_detached key nonce aad cipher mic = Some plain -> length plain = length cipher
}.

(** CCM turns bytes into bytes. *)
Class CcmBytes `{!Ccm} := encrypt_is_bytes key nonce aad plain cipher mic :
  is_bytes plain -> encrypt_inout_detached key nonce aad plain = Some (cipher, mic) -> is_bytes cipher /\ is_bytes mic.

(** [FrameBytes::extend_from_slice(..).expect(..)]: the buffer holds a PHY packet. *)
Definition extend_buffer {E} (buffer extra : bytes) : res E bytes :=
  if (length buffer + length extra <=? MAX_PHY_PACKET_SIZE)%nat then Ok (buffer ++ extra) else Panic.

Section Protection.
Context `{Ccm}.

Definition software_encrypt_ccm {E} (key : Key) (nonce auth_data buffer : bytes) : res E bytes :=
  encrypted ← unwrap (encrypt_inout_detached key nonce auth_data buffer);
  extend_buffer encrypted.1 encrypted.2.

Definition software_decrypt_ccm (key : Key) (nonce auth_data tagged_ciphertext : bytes) : res DecryptionError bytes :=
  if (length tagged_ciphertext <? MIC_LENGTH)%nat then Err CiphertextTooShort
  else
    let ciphertext_len := (length tagged_ciphertext - MIC_LENGTH)%nat in
    ok_or InvalidMacTag
      (decrypt_inout_detached key nonce auth_data (take ciphertext_len tagged_ciphertext)
         (drop ciphertext_len tagged_ciphertext)).
End Protection.

(** ** The hash *)

(** [while padded.len() % 16 != 14 { padded.push(0x00) }]: at most fifteen turns. *)
Fixpoint pad_zeros (fuel : nat) (padded : bytes) : bytes :=
  match fuel with
  | O => padded
  | S fuel => if (length padded mod 16 =? 14)%nat then padded else pad_zeros fuel (padded ++ [0])
  end.

(** [as_chunks::<16>().0]: the complete blocks; the fuel bounds their number. *)
Fixpoint as_chunks (fuel : nat) (l : bytes) : list bytes :=
  match fuel with
  | O => []
  | S fuel => if (length l <? 16)%nat then [] else take 16 l :: as_chunks fuel (drop 16 l)
  end.

(** [u16::to_be_bytes]. *)
Definition be16 (z : Z) : bytes := reverse (to_le_bytes 2 z).

Definition xor_bytes (a b : bytes) : bytes := zip_with Z.lxor a b.

(** The padding of [aes_mmo_hash]; [as u16] keeps the low sixteen bits. *)
Definition padded (data : bytes) : bytes :=
  pad_zeros 16 (data ++ [0x80]) ++ be16 ((Z.of_nat (length data) * 8) mod 2 ^ 16).

Section Hash.
Context `{BlockCipher}.

(** The loop body: the block is encrypted under the running digest and folded into it. *)
Definition mmo_step (digest block : bytes) : bytes := xor_bytes (aes128_encrypt_block digest block) block.

Definition aes_mmo_hash (data : bytes) : may bytes :=
  _ ← rust_assert (Z.of_nat (length data) <? 8192);
  Ok (fold_left mmo_step (as_chunks (length (padded data)) (padded data)) (replicate 16 0)).

Definition keyed_hash (key : Key) (input : bytes) : may bytes :=
  let inner := (fun b => Z.lxor b 0x36) <$> key_bytes key in
  inner_digest ← aes_mmo_hash (inner ++ input);
  let outer := (fun b => Z.lxor b 0x5C) <$> key_bytes key in
  aes_mmo_hash (outer ++ inner_digest).

Definition KEY_TRANSPORT_KEY_HASH_INPUT : Z := 0x00.
Definition KEY_LOAD_KEY_HASH_INPUT : Z := 0x02.
Definition VERIFY_KEY_HASH_INPUT : Z := 0x03.

Definition key_transport_key (link_key : Key) : may Key := mkKey <$> keyed_hash link_key [KEY_TRANSPORT_KEY_HASH_INPUT].
Definition key_load_key (link_key : Key) : may Key := mkKey <$> keyed_hash link_key [KEY_LOAD_KEY_HASH_INPUT].
Definition verify_key_hash (link_key : Key) : may bytes := keyed_hash link_key [VERIFY_KEY_HASH_INPUT].
Definition ezsp_tclk (seed : Key) (eui64 : Eui64) : may Key := mkKey <$> keyed_hash seed (Eui64.to_bytes eui64).
End Hash.

(** [core::array::from_fn(|i| ..)] over sixteen indices; an index out of range panics. *)
Definition tclk_byte (seed : Key) (eui64 : Eui64) (shift i : nat) : may Z :=
  a ← unwrap (key_bytes seed !! ((i + shift) mod 16)%nat);
  b ← unwrap (Eui64.to_bytes eui64 !! (i mod 8)%nat);
  Ok (Z.lxor a b).

Definition zstack_tclk (seed : Key) (eui64 : Eui64) (shift : nat) : may Key :=
  mkKey <$> mapM (tclk_byte seed eui64 shift) (seq 0 16).
End Crypto.
