(* ===== verification/CryptoFacts.v ===== *)
(** * Properties of the cryptographic helpers *)

From S2P Require Import Prelude Types AbstractBits Crypto.

Module CryptoFacts.
Import Crypto.

(** ** Frame protection *)
Section Protection.
Context `{!Ccm, !CcmLaws}.

Lemma ccm_round_trip {E} key nonce aad plain :
  (length plain + MIC_LENGTH <= MAX_PHY_PACKET_SIZE)%nat ->
  exists tagged, software_encrypt_ccm (E:=E) key nonce aad plain = Ok tagged /\
    length tagged = (length plain + MIC_LENGTH)%nat /\
    software_decrypt_ccm key nonce aad tagged = Ok plain.
Proof.
  intros Hlen. destruct (encrypt_ok key nonce aad plain) as (c & mic & He & Hc & Hm); [lia|].
  exists (c ++ mic). unfold software_encrypt_ccm, extend_buffer. rewrite He. cbn [unwrap mbind res_bind fst snd].
  rewrite (proj2 (Nat.leb_le _ _)) by lia. split; [done|]. rewrite length_app, Hc, Hm. split; [done|].
  unfold software_decrypt_ccm. rewrite length_app, Hc, Hm, (proj2 (Nat.ltb_ge _ _)) by lia.
  replace (length plain + MIC_LENGTH - MIC_LENGTH)%nat with (length c) by lia.
  rewrite take_app_length, drop_app_length. by rewrite (decrypt_encrypted _ _ _ _ _ _ He).
Qed.

(** Encryption succeeds alike whatever error type surrounds it. *)
Lemma encrypt_any_error {E E'} key nonce aad plain tagged :
  software_encrypt_ccm (E:=E) key nonce aad plain = Ok tagged -> software_encrypt_ccm (E:=E') key nonce aad plain = Ok tagged.
Proof.
  unfold software_encrypt_ccm, extend_buffer. destruct (encrypt_inout_detached key nonce aad plain) as [c|]; [|done].
  cbn [unwrap mbind res_bind]. destruct (_ <=? _)%nat; [by intros [= <-]|done].
Qed.

Lemma ccm_is_bytes `{!CcmBytes} {E} key nonce aad plain c : is_bytes plain -> software_encrypt_ccm (E:=E) key nonce aad plain = Ok c -> is_bytes c.
Proof.
  intros Hp. unfold software_encrypt_ccm, extend_buffer. destruct (encrypt_inout_detached key nonce aad plain) as [[x m]|] eqn:He; [|done].
  cbn [unwrap mbind res_bind fst snd]. destruct (_ <=? _)%nat; [|done]. intros [= <-].
  destruct (encrypt_is_bytes _ _ _ _ _ _ Hp He). by apply is_bytes_app.
Qed.

Lemma no_panic_decrypt_ccm key nonce aad tagged : no_panic (software_decrypt_ccm key nonce aad tagged).
Proof. unfold software_decrypt_ccm. destruct (_ <? _)%nat; [done|]. apply no_panic_ok_or. Qed.

Lemma decrypt_ccm_length key nonce aad tagged plain :
  software_decrypt_ccm key nonce aad tagged = Ok plain -> (length plain <= length tagged)%nat.
Proof.
  unfold software_decrypt_ccm. destruct (_ <? _)%nat; [done|].
  destruct (decrypt_inout_detached _ _ _ _ _) as [p|] eqn:Hd; [|done]. intros [= <-].
  apply decrypt_length in Hd. rewrite length_take in Hd. lia.
Qed.
End Protection.

(** ** Padding *)

(** The zeros the loop appends. *)
Definition zeros_after (n : nat) : nat := ((30 - n mod 16) mod 16)%nat.

Lemma pad_zeros_turns fuel l k :
  (k <= fuel)%nat -> (k < 16)%nat -> ((length l + k) mod 16 = 14)%nat -> pad_zeros fuel l = l ++ replicate k 0.
Proof.
  revert l k. induction fuel as [|fuel IH]; intros l k Hf Hk Hmod; cbn [pad_zeros].
  { replace k with 0%nat by lia. by rewrite app_nil_r. }
  destruct (Nat.eqb_spec (length l mod 16) 14) as [Hdone|Hmore].
  - assert (k = 0)%nat as ->; [|by rewrite app_nil_r].
    pose proof (Nat.div_mod_eq (length l) 16). pose proof (Nat.div_mod_eq (length l + k) 16). lia.
  - destruct k as [|k]; [by rewrite Nat.add_0_r in Hmod|].
    rewrite (IH _ k) by (rewrite ?length_app; cbn [length]; rewrite ?Nat.add_1_r, ?Nat.add_succ_l, <- ?Nat.add_succ_r; lia).
    by rewrite <- (assoc_L (++)).
Qed.

Lemma zeros_after_spec n : (zeros_after n < 16)%nat /\ ((n + zeros_after n) mod 16 = 14)%nat.
Proof.
  unfold zeros_after. pose proof (Nat.mod_upper_bound n 16). pose proof (Nat.div_mod_eq n 16).
  pose proof (Nat.div_mod_eq (30 - n mod 16) 16). pose proof (Nat.mod_upper_bound (30 - n mod 16) 16).
  pose proof (Nat.div_mod_eq (n + (30 - n mod 16) mod 16) 16). pose proof (Nat.mod_upper_bound (n + (30 - n mod 16) mod 16) 16). lia.
Qed.

(** The padding in closed form: the message, a one bit, zeros, the bit length in sixteen bits. *)
Lemma padded_closed data :
  Z.of_nat (length data) < 8192 ->
  padded data = data ++ 0x80 :: replicate (zeros_after (S (length data))) 0 ++ be16 (8 * Z.of_nat (length data)).
Proof.
  intros Hlen. unfold padded. destruct (zeros_after_spec (S (length data))) as [Hk Hmod].
  rewrite (pad_zeros_turns _ _ (zeros_after (S (length data)))); [|lia|done|].
  - rewrite <- !(assoc_L (++)). cbn [app]. rewrite Z.mod_small, Z.mul_comm by (change (2 ^ 16) with 65536; lia). done.
  - rewrite length_app. cbn [length]. by rewrite Nat.add_1_r.
Qed.

Lemma length_be16 z : length (be16 z) = 2%nat.
Proof. unfold be16. by rewrite length_reverse, length_to_le_bytes. Qed.

Lemma padded_blocks data : Z.of_nat (length data) < 8192 -> (length (padded data) mod 16 = 0)%nat.
Proof.
  intros Hlen. rewrite padded_closed by done. destruct (zeros_after_spec (S (length data))) as [_ Hmod].
  rewrite length_app. cbn [length]. rewrite length_app, length_replicate, length_be16.
  pose proof (Nat.div_mod_eq (S (length data) + zeros_after (S (length data))) 16) as Hd. rewrite Hmod in Hd.
  replace (length data + S (zeros_after (S (length data)) + 2))%nat
    with ((1 + (S (length data) + zeros_after (S (length data))) / 16) * 16)%nat by lia.
  apply Nat.Div0.mod_mul.
Qed.

(** The length the padding ends with. *)
Lemma be16_suffix l z :
  0 <= z < 2 ^ 16 -> from_le_bytes (reverse (drop (length (l ++ be16 z) - 2) (l ++ be16 z))) = z.
Proof.
  intros Hz. rewrite length_app, length_be16. replace (length l + 2 - 2)%nat with (length l) by lia.
  rewrite drop_app_length. unfold be16. rewrite reverse_involutive. by apply from_to_le_bytes.
Qed.

Lemma padded_inj d d' :
  Z.of_nat (length d) < 8192 -> Z.of_nat (length d') < 8192 -> padded d = padded d' -> d = d'.
Proof.
  intros Hd Hd' Heq. rewrite !padded_closed in Heq by done.
  assert (forall x : bytes, x ++ 0x80 :: replicate (zeros_after (S (length x))) 0 ++ be16 (8 * Z.of_nat (length x)) =
    (x ++ 0x80 :: replicate (zeros_after (S (length x))) 0) ++ be16 (8 * Z.of_nat (length x))) as Hassoc
    by (intros x; by rewrite <- (assoc_L (++))).
  assert (length d = length d') as Hlen.
  { rewrite !Hassoc in Heq. apply (f_equal (fun l => from_le_bytes (reverse (drop (length l - 2) l)))) in Heq.
    cbn beta in Heq. rewrite !be16_suffix in Heq by (change (2 ^ 16) with 65536; lia). lia. }
  by apply app_inj_1 in Heq as [-> _].
Qed.

(** ** Blocks *)
Lemma as_chunks_concat fuel l :
  (length l mod 16 = 0)%nat -> (length l <= fuel)%nat ->
  mjoin (as_chunks fuel l) = l /\ Forall (fun b => length b = 16%nat) (as_chunks fuel l).
Proof.
  revert l. induction fuel as [|fuel IH]; intros l Hmod Hf; cbn [as_chunks].
  { destruct l; cbn in *; [split; [done|apply List.Forall_nil]|lia]. }
  destruct (Nat.ltb_spec (length l) 16) as [Hs|Hb].
  - rewrite Nat.mod_small in Hmod by done. destruct l; [split; [done|apply List.Forall_nil]|done].
  - destruct (IH (drop 16 l)) as [Hc Hl].
    + rewrite length_drop. pose proof (Nat.div_mod_eq (length l) 16) as Hd. rewrite Hmod in Hd.
      replace (length l - 16)%nat with ((length l / 16 - 1) * 16)%nat by lia. apply Nat.Div0.mod_mul.
    + rewrite length_drop. lia.
    + change (mjoin (take 16 l :: as_chunks fuel (drop 16 l))) with (take 16 l ++ mjoin (as_chunks fuel (drop 16 l))).
      rewrite Hc, take_drop. split; [done|]. apply Forall_cons. split; [rewrite length_take; lia|done].
Qed.

Section Hash.
Context `{!BlockCipher, !BlockCipherLaws}.

Lemma mmo_step_length digest block : length block = 16%nat -> length (mmo_step digest block) = 16%nat.
Proof. intros Hb. unfold mmo_step, xor_bytes. rewrite length_zip_with, block_length, Hb by done. lia. Qed.

Lemma mmo_fold_length blocks digest :
  Forall (fun b => length b = 16%nat) blocks -> length digest = 16%nat -> length (fold_left mmo_step blocks digest) = 16%nat.
Proof.
  intros Hb. revert digest. induction Hb as [|b bs Hb _ IH]; intros digest Hd; cbn [fold_left]; [done|].
  by apply IH, mmo_step_length.
Qed.

(** C32: the hash is Matyas-Meyer-Oseas over the standard padding: for a message under 8192 bytes the
    padding loop ends, the padded message is the message, 0x80, zeros and the big-endian bit length,
    it splits into whole blocks with nothing dropped, the digest is the chain from the zero block in
    which each block is encrypted under the digest so far and xored with the result, and has sixteen
    bytes, and two different messages never hash the same blocks. *)
Theorem aes_mmo_hash_spec data :
  Z.of_nat (length data) < 8192 ->
  exists blocks digest,
    mjoin blocks = data ++ 0x80 :: replicate (zeros_after (S (length data))) 0 ++ be16 (8 * Z.of_nat (length data)) /\
    Forall (fun b => length b = 16%nat) blocks /\
    aes_mmo_hash data = Ok digest /\ digest = fold_left (fun digest block => zip_with Z.lxor (aes128_encrypt_block digest block) block) blocks (replicate 16 0) /\ length digest = 16%nat /\
    (forall data', Z.of_nat (length data') < 8192 -> padded data' = mjoin blocks -> data' = data).
Proof.
  intros Hlen. destruct (as_chunks_concat (length (padded data)) (padded data)) as [Hc Hb]; [by apply padded_blocks|done|].
  eexists _, _. split; [rewrite Hc; by apply padded_closed|]. split; [exact Hb|]. split.
  { unfold aes_mmo_hash. rewrite (proj2 (Z.ltb_lt _ _) Hlen). reflexivity. }
  split; [done|]. split; [by apply mmo_fold_length|]. intros data' Hlen' Heq. rewrite Hc in Heq. by apply padded_inj.
Qed.

Lemma aes_mmo_hash_returns data :
  Z.of_nat (length data) < 8192 -> exists digest, aes_mmo_hash data = Ok digest /\ length digest = 16%nat.
Proof.
  intros Hlen. destruct (as_chunks_concat (length (padded data)) (padded data)) as [_ Hb]; [by apply padded_blocks|done|].
  eexists. unfold aes_mmo_hash. rewrite (proj2 (Z.ltb_lt _ _) Hlen). split; [reflexivity|]. by apply mmo_fold_length.
Qed.

Lemma keyed_hash_returns key input :
  length (key_bytes key) = 16%nat -> Z.of_nat (length input) < 8176 ->
  exists digest, keyed_hash key input = Ok digest /\ length digest = 16%nat.
Proof.
  intros Hk Hi. unfold keyed_hash.
  destruct (aes_mmo_hash_returns (((fun b => Z.lxor b 0x36) <$> key_bytes key) ++ input)) as (d & -> & Hd).
  { rewrite length_app, length_fmap. lia. }
  cbn [mbind res_bind]. apply aes_mmo_hash_returns. rewrite length_app, length_fmap. lia.
Qed.

(** Key derivation is total: from any sixteen-byte link key or seed the transport key, the load
    key, the verify hash and a device's EmberZNet trust center key are computed without a panic and
    are sixteen bytes long. *)
Lemma derived_keys_total key eui64 :
  length (key_bytes key) = 16%nat -> eui64_ok eui64 ->
  (exists k, key_transport_key key = Ok k /\ length (key_bytes k) = 16%nat) /\
  (exists k, key_load_key key = Ok k /\ length (key_bytes k) = 16%nat) /\
  (exists h, verify_key_hash key = Ok h /\ length h = 16%nat) /\
  (exists k, ezsp_tclk key eui64 = Ok k /\ length (key_bytes k) = 16%nat).
Proof.
  intros Hk [He _].
  assert (forall input, Z.of_nat (length input) < 8176 ->
    exists k, mkKey <$> keyed_hash key input = Ok k /\ length (key_bytes k) = 16%nat) as Hkey.
  { intros input Hi. destruct (keyed_hash_returns key input Hk Hi) as (d & -> & Hd). by eexists. }
  split_and!; [by apply Hkey|by apply Hkey|by apply keyed_hash_returns|apply Hkey]. unfold Eui64.to_bytes. lia.
Qed.
End Hash.

(** ** Z-Stack trust center keys *)
Lemma mapM_ok {A B} (f : A -> may B) (l : list A) :
  (forall x, x ∈ l -> exists y, f x = Ok y) ->
  exists k, mapM f l = Ok k /\ length k = length l /\ forall i x, l !! i = Some x -> exists y, k !! i = Some y /\ f x = Ok y.
Proof.
  induction l as [|x l IH]; intros Hall; [exists []; done|].
  destruct (Hall x) as [y Hy]; [set_solver|]. destruct IH as (k & Hk & Hl & Hi); [set_solver|].
  exists (y :: k). cbn [mapM]. rewrite Hy. cbn [mbind res_bind]. rewrite Hk. cbn. split_and!; [done|by f_equal|].
  intros [|i] z Hz; cbn in *; [injection Hz as <-; eauto|by apply Hi].
Qed.

Lemma tclk_byte_ok seed eui64 shift i :
  length (key_bytes seed) = 16%nat -> eui64_ok eui64 ->
  exists a b, key_bytes seed !! ((i + shift) mod 16)%nat = Some a /\ eui64_bytes eui64 !! (i mod 8)%nat = Some b /\
    tclk_byte seed eui64 shift i = Ok (Z.lxor a b).
Proof.
  intros Hk [He _]. destruct (lookup_lt_is_Some_2 (key_bytes seed) ((i + shift) mod 16)%nat) as [a Ha].
  { rewrite Hk. by apply Nat.mod_upper_bound. }
  destruct (lookup_lt_is_Some_2 (eui64_bytes eui64) (i mod 8)%nat) as [b Hb]; [rewrite He; by apply Nat.mod_upper_bound|].
  exists a, b. unfold tclk_byte, Eui64.to_bytes. by rewrite Ha, Hb.
Qed.

Lemma zstack_tclk_bytes seed eui64 shift :
  length (key_bytes seed) = 16%nat -> eui64_ok eui64 ->
  exists k, zstack_tclk seed eui64 shift = Ok (mkKey k) /\ length k = 16%nat /\
    forall i, (i < 16)%nat -> exists y, k !! i = Some y /\ tclk_byte seed eui64 shift i = Ok y.
Proof.
  intros Hk He. destruct (mapM_ok (tclk_byte seed eui64 shift) (seq 0 16)) as (k & Hm & Hl & Hi).
  { intros i _. destruct (tclk_byte_ok seed eui64 shift i Hk He) as (a & b & _ & _ & ->). eauto. }
  exists k. unfold zstack_tclk. rewrite Hm. rewrite length_seq in Hl. split_and!; [done|done|].
  intros i Hlt. apply Hi. by rewrite lookup_seq_lt.
Qed.

(** The Z-Stack trust center key is computed for every seed, device and shift, and is unique to
    the device: under one seed and shift two devices never share a key. *)
Lemma zstack_tclk_unique seed eui64 shift :
  length (key_bytes seed) = 16%nat -> eui64_ok eui64 ->
  exists k, zstack_tclk seed eui64 shift = Ok k /\ length (key_bytes k) = 16%nat /\
    forall eui64', eui64_ok eui64' -> zstack_tclk seed eui64' shift = Ok k -> eui64' = eui64.
Proof.
  intros Hk He. destruct (zstack_tclk_bytes seed eui64 shift Hk He) as (k & Hz & Hl & Hi). exists (mkKey k).
  split_and!; [done|done|]. intros e' He' Hz'. destruct (zstack_tclk_bytes seed e' shift Hk He') as (k' & Hz'' & _ & Hi').
  rewrite Hz'' in Hz'. injection Hz' as ->. apply eui64_bytes_inj, list_eq. intros i.
  destruct (decide (i < 8)%nat) as [Hlt|Hge].
  - destruct (Hi i) as (y & Hy & Hb); [lia|]. destruct (Hi' i) as (y' & Hy' & Hb'); [lia|].
    destruct (tclk_byte_ok seed eui64 shift i Hk He) as (a & b & Ha & Hbb & Heq).
    destruct (tclk_byte_ok seed e' shift i Hk He') as (a' & b' & Ha' & Hbb' & Heq').
    rewrite Nat.mod_small in Hbb, Hbb' by done. rewrite Hbb, Hbb'. simplify_eq. rewrite Heq in Hb. rewrite Heq' in Hb'.
    injection Hb as <-. injection Hb' as Hx. apply (f_equal (Z.lxor a)) in Hx.
    rewrite <- !Z.lxor_assoc, !Z.lxor_nilpotent, !Z.lxor_0_l in Hx. by subst.
  - rewrite !lookup_ge_None_2; [done|by destruct He; lia|by destruct He'; lia].
Qed.

(** ** Witnesses *)
Section Witness.

(** A block function with the right lengths: the block, reversed and combined with the key. *)
#[local] Instance reversing_cipher : BlockCipher := fun key block =>
  zip_with Z.lxor (take 16 (key ++ replicate 16 0)) (reverse block).
#[local] Instance reversing_cipher_laws : BlockCipherLaws.
Proof.
  constructor. intros key block Hb. unfold aes128_encrypt_block, reversing_cipher.
  rewrite length_zip_with, length_take, length_app, length_replicate, length_reverse. lia.
Qed.

Definition ex_key : Key := mkKey (seqZ 0 16).
Definition ex_eui64 : Eui64 := mkEui64 [0x88; 0x5b; 0xdd; 0x1c; 0; 0x4b; 0x12; 0].

Lemma ex_eui64_ok : eui64_ok ex_eui64.
Proof. apply (bool_decide_unpack _). vm_compute. exact I. Qed.

Lemma aes_mmo_hash_spec_witness :
  exists blocks digest,
    mjoin blocks = [0xC0] ++ 0x80 :: replicate (zeros_after 2) 0 ++ be16 (8 * 1) /\
    Forall (fun b => length b = 16%nat) blocks /\
    aes_mmo_hash [0xC0] = Ok digest /\ digest = fold_left (fun digest block => zip_with Z.lxor (aes128_encrypt_block digest block) block) blocks (replicate 16 0) /\ length digest = 16%nat /\
    (forall data', Z.of_nat (length data') < 8192 -> padded data' = mjoin blocks -> data' = [0xC0]).
Proof. apply (aes_mmo_hash_spec [0xC0]). cbn. lia. Defined.

Lemma derived_keys_total_witness : exists k, key_transport_key ex_key = Ok k /\ length (key_bytes k) = 16%nat.
Proof. destruct (derived_keys_total ex_key ex_eui64 eq_refl ex_eui64_ok) as [Hk _]. exact Hk. Defined.

Lemma zstack_tclk_unique_witness :
  exists k, zstack_tclk ex_key ex_eui64 0 = Ok k /\ length (key_bytes k) = 16%nat /\
    forall eui64', eui64_ok eui64' -> zstack_tclk ex_key eui64' 0 = Ok k -> eui64' = ex_eui64.
Proof. exact (zstack_tclk_unique ex_key ex_eui64 0 eq_refl ex_eui64_ok). Defined.
End Witness.
End CryptoFacts.
