(* ===== verification/NwkCommands.v ===== *)
(** * NWK commands: [src/crates/ziggurat-zigbee/src/nwk/commands.rs]

    The command bodies are packed structures whose codec is derived ([AbstractBits] is the
    parameter for it); fields the derivation consumes itself (reserved bits, presence flags, element
    counts) are not part of the value. What the file writes itself is the dispatch on the command
    identifier, with the fallback that keeps an undecodable payload as it came. *)

From S2P Require Import Prelude Types Constants AbstractBits Routing Neighbors.

Module NwkCommands.
Import Routing(NwkRouteRequestManyToOne).
Import Neighbors(NwkLinkStatusCommand).

Inductive NwkCommandId : Type :=
| IdRouteRequest | IdRouteReply | IdNetworkStatus | IdLeave | IdRouteRecord | IdRejoinRequest | IdRejoinResponse
| IdLinkStatus | IdNetworkReport | IdNetworkUpdate | IdEndDeviceTimeoutRequest | IdEndDeviceTimeoutResponse
| IdLinkPowerDelta | IdNetworkCommissioningRequest | IdNetworkCommissioningResponse.

Definition all_ids : list NwkCommandId :=
  [IdRouteRequest; IdRouteReply; IdNetworkStatus; IdLeave; IdRouteRecord; IdRejoinRequest; IdRejoinResponse;
   IdLinkStatus; IdNetworkReport; IdNetworkUpdate; IdEndDeviceTimeoutRequest; IdEndDeviceTimeoutResponse;
   IdLinkPowerDelta; IdNetworkCommissioningRequest; IdNetworkCommissioningResponse].

(** [id as u8] and [NwkCommandId::try_from]. *)
Definition id_to_u8 (id : NwkCommandId) : Z :=
  match id with
  | IdRouteRequest => 0x01 | IdRouteReply => 0x02 | IdNetworkStatus => 0x03 | IdLeave => 0x04
  | IdRouteRecord => 0x05 | IdRejoinRequest => 0x06 | IdRejoinResponse => 0x07 | IdLinkStatus => 0x08
  | IdNetworkReport => 0x09 | IdNetworkUpdate => 0x0a | IdEndDeviceTimeoutRequest => 0x0b
  | IdEndDeviceTimeoutResponse => 0x0c | IdLinkPowerDelta => 0x0d | IdNetworkCommissioningRequest => 0x0e
  | IdNetworkCommissioningResponse => 0x0f
  end.

Definition id_of_u8 (b : Z) : option NwkCommandId := find (fun id => id_to_u8 id =? b) all_ids.

Record NwkRouteRequestCommand := mkRouteRequest {
  many_to_one : NwkRouteRequestManyToOne;
  rreq_route_request_identifier : Z;
  rreq_destination_address : Nwk;
  rreq_path_cost : Z;
  destination_eui64 : option Eui64
}.

Record NwkRouteReplyCommand := mkRouteReply {
  rrep_route_request_identifier : Z;
  originator_nwk : Nwk;
  responder_nwk : Nwk;
  rrep_path_cost : Z;
  originator_eui64 : option Eui64;
  responder_eui64 : option Eui64
}.

Inductive NwkNetworkStatus : Type :=
| LegacyNoRouteAvailable | LegacyLinkFailure | LinkFailure | LowBatteryLevel | NoRoutingCapacity | NoIndirectCapacity
| IndirectTransactionExpiry | TargetDeviceUnavailable | TargetAddressUnallocated | ParentLinkFailure | ValidateRoute
| SourceRouteFailure | ManyToOneRouteFailure | AddressConflict | VerifyAddresses | PanIdentifierUpdate
| NetworkAddressUpdate | BadFrameCounter | BadKeySequenceNumber | UnknownCommand | PanIdConflictReport.

Record NwkNetworkStatusCommand := mkNetworkStatus {
  status_code : NwkNetworkStatus;
  ns_network_address : Nwk
}.

Record NwkRouteRecordCommand := mkRouteRecord { rr_relays : list Nwk }.

Inductive RejoinDeviceType : Type := RejoinEndDevice | RejoinRouter.
Inductive RejoinPowerSource : Type := OtherPowerSource | MainsPowered.

Record NwkRejoinCapabilityInformation := mkCapability {
  alternate_pan_coordinator : bool;
  device_type : RejoinDeviceType;
  power_source : RejoinPowerSource;
  receiver_on_when_idle : bool;
  reserved1 : Z;
  reserved2 : Z;
  security_capability : bool;
  allocate_address : bool
}.

Record NwkRejoinRequestCommand := mkRejoinRequest { capability_information : NwkRejoinCapabilityInformation }.

Inductive Nwk802154AssociationStatus : Type :=
| AssociationSuccessful | PanAtCapacity | PanAccessDenied | HoppingSequenceOffsetDuplication | FastAssociationSuccessful
| ZigbeeAddressConflict.

Record NwkRejoinResponseCommand := mkRejoinResponse {
  rejoin_network_address : Nwk;
  rejoin_status : Nwk802154AssociationStatus
}.

Record NwkLeaveCommand := mkLeave {
  rejoin : bool;
  request : bool;
  remove_children : bool
}.

Inductive NwkReportCommandIdentifier : Type := ReportPanIdentifierConflict.
Inductive NwkUpdateCommandIdentifier : Type := UpdatePanIdentifier.

Record NwkNetworkReportCommand := mkNetworkReport {
  report_command_identifier : NwkReportCommandIdentifier;
  nr_epid : Eui64;
  pan_ids : list PanId
}.

Record NwkNetworkUpdateCommand := mkNetworkUpdate {
  update_information_count : Z;
  update_command_identifier : NwkUpdateCommandIdentifier;
  nu_epid : Eui64;
  update_id : Z;
  new_pan_id : Nwk
}.

Record NwkEndDeviceTimeoutRequestCommand := mkTimeoutRequest {
  request_timeout_enum : EndDeviceTimeout;
  end_device_configuration : Z
}.

Inductive NwkEndDeviceTimeoutResponseStatus : Type := TimeoutSuccess | IncorrectValue | UnsupportedFeature.

Record NwkEndDeviceTimeoutResponseCommand := mkTimeoutResponse {
  tr_status : NwkEndDeviceTimeoutResponseStatus;
  mac_data_poll_keepalive_supported : bool;
  end_device_timeout_request_keepalive_supported : bool;
  power_negotation_support : bool
}.

Inductive NwkLinkPowerDeltaType : Type := PowerNotification | PowerRequest | PowerResponse.

Record NwkPowerListEntry := mkPowerEntry {
  device_address : Nwk;
  power_delta : Z
}.

Record NwkLinkPowerDeltaCommand := mkLinkPowerDelta {
  command_type : NwkLinkPowerDeltaType;
  power_list : list NwkPowerListEntry
}.

Inductive NwkCommissioningType : Type := InitialJoin | CommissioningRejoin.

Record NwkNetworkCommissioningRequestCommand := mkCommissioningRequest {
  commissioning_type : NwkCommissioningType;
  nc_capability_information : NwkRejoinCapabilityInformation
}.

Record NwkNetworkCommissioningResponseCommand := mkCommissioningResponse {
  nc_network_address : Nwk;
  nc_status : Nwk802154AssociationStatus
}.

Inductive NwkCommand : Type :=
| RouteRequest (c : NwkRouteRequestCommand)
| RouteReply (c : NwkRouteReplyCommand)
| NetworkStatus (c : NwkNetworkStatusCommand)
| Leave (c : NwkLeaveCommand)
| RouteRecord (c : NwkRouteRecordCommand)
| RejoinRequest (c : NwkRejoinRequestCommand)
| RejoinResponse (c : NwkRejoinResponseCommand)
| LinkStatus (c : NwkLinkStatusCommand)
| NetworkReport (c : NwkNetworkReportCommand)
| NetworkUpdate (c : NwkNetworkUpdateCommand)
| EndDeviceTimeoutRequest (c : NwkEndDeviceTimeoutRequestCommand)
| EndDeviceTimeoutResponse (c : NwkEndDeviceTimeoutResponseCommand)
| LinkPowerDelta (c : NwkLinkPowerDeltaCommand)
| NetworkCommissioningRequest (c : NwkNetworkCommissioningRequestCommand)
| NetworkCommissioningResponse (c : NwkNetworkCommissioningResponseCommand)
| Unparsed (raw : bytes).

Definition command_id (c : NwkCommand) : option NwkCommandId :=
  match c with
  | RouteRequest _ => Some IdRouteRequest
  | RouteReply _ => Some IdRouteReply
  | NetworkStatus _ => Some IdNetworkStatus
  | Leave _ => Some IdLeave
  | RouteRecord _ => Some IdRouteRecord
  | RejoinRequest _ => Some IdRejoinRequest
  | RejoinResponse _ => Some IdRejoinResponse
  | LinkStatus _ => Some IdLinkStatus
  | NetworkReport _ => Some IdNetworkReport
  | NetworkUpdate _ => Some IdNetworkUpdate
  | EndDeviceTimeoutRequest _ => Some IdEndDeviceTimeoutRequest
  | EndDeviceTimeoutResponse _ => Some IdEndDeviceTimeoutResponse
  | LinkPowerDelta _ => Some IdLinkPowerDelta
  | NetworkCommissioningRequest _ => Some IdNetworkCommissioningRequest
  | NetworkCommissioningResponse _ => Some IdNetworkCommissioningResponse
  | Unparsed raw => head raw ≫= id_of_u8
  end.

(** The codecs of the fifteen bodies. *)
Class CommandCodecs := {
  route_request_bits :: AbstractBits NwkRouteRequestCommand;
  route_reply_bits :: AbstractBits NwkRouteReplyCommand;
  network_status_bits :: AbstractBits NwkNetworkStatusCommand;
  leave_bits :: AbstractBits NwkLeaveCommand;
  route_record_bits :: AbstractBits NwkRouteRecordCommand;
  rejoin_request_bits :: AbstractBits NwkRejoinRequestCommand;
  rejoin_response_bits :: AbstractBits NwkRejoinResponseCommand;
  link_status_bits :: AbstractBits NwkLinkStatusCommand;
  network_report_bits :: AbstractBits NwkNetworkReportCommand;
  network_update_bits :: AbstractBits NwkNetworkUpdateCommand;
  timeout_request_bits :: AbstractBits NwkEndDeviceTimeoutRequestCommand;
  timeout_response_bits :: AbstractBits NwkEndDeviceTimeoutResponseCommand;
  link_power_delta_bits :: AbstractBits NwkLinkPowerDeltaCommand;
  commissioning_request_bits :: AbstractBits NwkNetworkCommissioningRequestCommand;
  commissioning_response_bits :: AbstractBits NwkNetworkCommissioningResponseCommand
}.

Section Codec.
Context `{CommandCodecs}.

Definition parse_body {T} `{AbstractBits T} (body : bytes) : option T := from_abstract_bytes body.

Definition try_parse (bs : bytes) : option NwkCommand :=
  match bs with
  | [] => None
  | id_byte :: body =>
      id ← id_of_u8 id_byte;
      match id with
      | IdRouteRequest => RouteRequest <$> parse_body body
      | IdRouteReply => RouteReply <$> parse_body body
      | IdNetworkStatus => NetworkStatus <$> parse_body body
      | IdLeave => Leave <$> parse_body body
      | IdRouteRecord => RouteRecord <$> parse_body body
      | IdRejoinRequest => RejoinRequest <$> parse_body body
      | IdRejoinResponse => RejoinResponse <$> parse_body body
      | IdLinkStatus => LinkStatus <$> parse_body body
      | IdNetworkReport => NetworkReport <$> parse_body body
      | IdNetworkUpdate => NetworkUpdate <$> parse_body body
      | IdEndDeviceTimeoutRequest => EndDeviceTimeoutRequest <$> parse_body body
      | IdEndDeviceTimeoutResponse => EndDeviceTimeoutResponse <$> parse_body body
      | IdLinkPowerDelta => LinkPowerDelta <$> parse_body body
      | IdNetworkCommissioningRequest => NetworkCommissioningRequest <$> parse_body body
      | IdNetworkCommissioningResponse => NetworkCommissioningResponse <$> parse_body body
      end
  end.

Definition command_from_bytes {E} (bs : bytes) : res E NwkCommand :=
  match try_parse bs with
  | Some c => Ok c
  | None => if (length bs <=? MAX_PHY_PACKET_SIZE)%nat then Ok (Unparsed bs) else Panic
  end.

Definition command_to_bytes {E} (c : NwkCommand) : res E bytes :=
  let encoded (id : NwkCommandId) (body : option bytes) : res E bytes :=
    body ← unwrap body; Ok (id_to_u8 id :: body) in
  match c with
  | RouteRequest c => encoded IdRouteRequest (to_abstract_bytes c)
  | RouteReply c => encoded IdRouteReply (to_abstract_bytes c)
  | NetworkStatus c => encoded IdNetworkStatus (to_abstract_bytes c)
  | Leave c => encoded IdLeave (to_abstract_bytes c)
  | RouteRecord c => encoded IdRouteRecord (to_abstract_bytes c)
  | RejoinRequest c => encoded IdRejoinRequest (to_abstract_bytes c)
  | RejoinResponse c => encoded IdRejoinResponse (to_abstract_bytes c)
  | LinkStatus c => encoded IdLinkStatus (to_abstract_bytes c)
  | NetworkReport c => encoded IdNetworkReport (to_abstract_bytes c)
  | NetworkUpdate c => encoded IdNetworkUpdate (to_abstract_bytes c)
  | EndDeviceTimeoutRequest c => encoded IdEndDeviceTimeoutRequest (to_abstract_bytes c)
  | EndDeviceTimeoutResponse c => encoded IdEndDeviceTimeoutResponse (to_abstract_bytes c)
  | LinkPowerDelta c => encoded IdLinkPowerDelta (to_abstract_bytes c)
  | NetworkCommissioningRequest c => encoded IdNetworkCommissioningRequest (to_abstract_bytes c)
  | NetworkCommissioningResponse c => encoded IdNetworkCommissioningResponse (to_abstract_bytes c)
  | Unparsed raw => Ok raw
  end.
End Codec.

(** ** Properties *)

(** The codecs with their laws. *)
Class CommandCodecsLaws `{CommandCodecs} := {
  route_request_laws :: AbstractBitsLaws NwkRouteRequestCommand;
  route_reply_laws :: AbstractBitsLaws NwkRouteReplyCommand;
  network_status_laws :: AbstractBitsLaws NwkNetworkStatusCommand;
  leave_laws :: AbstractBitsLaws NwkLeaveCommand;
  route_record_laws :: AbstractBitsLaws NwkRouteRecordCommand;
  rejoin_request_laws :: AbstractBitsLaws NwkRejoinRequestCommand;
  rejoin_response_laws :: AbstractBitsLaws NwkRejoinResponseCommand;
  link_status_laws :: AbstractBitsLaws NwkLinkStatusCommand;
  network_report_laws :: AbstractBitsLaws NwkNetworkReportCommand;
  network_update_laws :: AbstractBitsLaws NwkNetworkUpdateCommand;
  timeout_request_laws :: AbstractBitsLaws NwkEndDeviceTimeoutRequestCommand;
  timeout_response_laws :: AbstractBitsLaws NwkEndDeviceTimeoutResponseCommand;
  link_power_delta_laws :: AbstractBitsLaws NwkLinkPowerDeltaCommand;
  commissioning_request_laws :: AbstractBitsLaws NwkNetworkCommissioningRequestCommand;
  commissioning_response_laws :: AbstractBitsLaws NwkNetworkCommissioningResponseCommand
}.

Lemma nwk_id_roundtrip id : id_of_u8 (id_to_u8 id) = Some id.
Proof. by destruct id. Qed.

Lemma id_to_u8_byte id : is_u8 (id_to_u8 id).
Proof. destruct id; unfold in_width; cbn; lia. Qed.

Section Facts.
Context `{!CommandCodecs, !CommandCodecsLaws}.

(** The commands that fit their fields; a raw payload is one that does not decode. *)
Definition command_ok (c : NwkCommand) : Prop :=
  match c with
  | RouteRequest c => canonical c
  | RouteReply c => canonical c
  | NetworkStatus c => canonical c
  | Leave c => canonical c
  | RouteRecord c => canonical c
  | RejoinRequest c => canonical c
  | RejoinResponse c => canonical c
  | LinkStatus c => canonical c
  | NetworkReport c => canonical c
  | NetworkUpdate c => canonical c
  | EndDeviceTimeoutRequest c => canonical c
  | EndDeviceTimeoutResponse c => canonical c
  | LinkPowerDelta c => canonical c
  | NetworkCommissioningRequest c => canonical c
  | NetworkCommissioningResponse c => canonical c
  | Unparsed raw => is_bytes raw /\ (length raw <= MAX_PHY_PACKET_SIZE)%nat /\ try_parse raw = None
  end.

Lemma parse_written `{AbstractBitsLaws T} (v : T) :
  canonical v -> exists bs, to_abstract_bytes v = Some bs /\ is_bytes bs /\ parse_body bs = Some v.
Proof.
  intros (bs & Hw & Hb & Hr)%read_after_write. exists bs. split_and!; [done..|].
  unfold parse_body, from_abstract_bytes. rewrite <- (app_nil_r bs), Hr. done.
Qed.

Lemma command_written_back {E E'} c :
  command_ok c ->
  exists bs, command_to_bytes (E:=E) c = Ok bs /\ is_bytes bs /\ command_from_bytes (E:=E') bs = Ok c.
Proof.
  destruct c as [c|c|c|c|c|c|c|c|c|c|c|c|c|c|c|raw]; intros Hc; cbn [command_ok] in Hc.
  1-15: destruct (parse_written c Hc) as (bs & Hw & Hb & Hr); eexists; unfold command_to_bytes; rewrite Hw;
        cbn [unwrap mbind res_bind]; split; [reflexivity|];
        split; [apply Forall_cons; split; [apply id_to_u8_byte|done]|];
        unfold command_from_bytes, try_parse; rewrite nwk_id_roundtrip; cbn [mbind option_bind]; by rewrite Hr.
  destruct Hc as (Hb & Hl & Hnone). exists raw. split_and!; [done..|]. unfold command_from_bytes.
  by rewrite Hnone, (proj2 (Nat.leb_le _ _) Hl).
Qed.

Lemma no_panic_command_from_bytes {E} bs : (length bs <= MAX_PHY_PACKET_SIZE)%nat -> no_panic (command_from_bytes (E:=E) bs).
Proof. intros Hl. unfold command_from_bytes. destruct (try_parse bs); [done|]. by rewrite (proj2 (Nat.leb_le _ _) Hl). Qed.

(** NWK commands survive the wire: a command of any of the fifteen kinds whose fields fit is
    written and read back as itself, and a payload that does not decode is kept verbatim, written
    back byte for byte, and still reports the identifier its first byte names. *)
Lemma nwk_command_round_trip {E E'} c :
  command_ok c ->
  exists bs, command_to_bytes (E:=E) c = Ok bs /\ command_from_bytes (E:=E') bs = Ok c /\
    (forall raw, c = Unparsed raw -> bs = raw) /\ command_id c = head bs ≫= id_of_u8.
Proof.
  intros Hc. destruct (command_written_back (E:=E) (E':=E') c Hc) as (bs & Hw & _ & Hr). exists bs. split_and!; [done..| |].
  - intros raw ->. by injection Hw.
  - revert Hw. unfold command_to_bytes. destruct c; try (intros [= <-]; reflexivity);
      (destruct (to_abstract_bytes c) as [b|]; [intros [= <-]; reflexivity|discriminate]).
Qed.
End Facts.
End NwkCommands.
