(* ===== verification/NwkFrame.v ===== *)
(** * NWK frames: [src/crates/ziggurat-zigbee/src/nwk/frame.rs]

    The header with its optional fields, the auxiliary security header, the frame as it travels
    (encrypted) and as the stack sees it (decrypted), and the conversion between the two. The bit
    codecs of the packed fields and CCM are the parameters of [AbstractBits] and [Crypto]. *)

From S2P Require Import Prelude Types AbstractBits Crypto NwkCommands.

Module NwkFrame.

(** [ziggurat_zigbee::ParseError], of [src/crates/ziggurat-zigbee/src/lib.rs]. *)
Inductive ParseError : Type :=
| UnexpectedEnd (ty : string)
| TooLong (ty : string)
| InvalidDiscriminant (ty : string) (got : Z)
| Unsupported (what : string)
| Bits
| Address (e : Types.ParseError)
| Decrypt (e : Crypto.DecryptionError).

Definition BROADCAST_ALL_DEVICES : Nwk := 0xFFFF.
Definition BROADCAST_RX_ON_WHEN_IDLE : Nwk := 0xFFFD.
Definition BROADCAST_LOW_POWER_ROUTERS : Nwk := 0xFFFB.

Inductive NwkFrameType : Type := TypeData | TypeCommand | TypeInterpan.
Inductive NwkRouteDiscovery : Type := Suppress | Enable | WithMulticast.

#[export] Instance NwkFrameType_eq_dec : EqDecision NwkFrameType.
Proof. solve_decision. Defined.
#[export] Instance NwkRouteDiscovery_eq_dec : EqDecision NwkRouteDiscovery.
Proof. solve_decision. Defined.

Record NwkFrameControl := mkFrameControl {
  frame_type : NwkFrameType;
  protocol_version : Z;
  discover_route : NwkRouteDiscovery;
  multicast : bool;
  security : bool;
  fc_source_route : bool;
  fc_destination : bool;
  fc_extended_source : bool;
  end_device_initiator : bool;
  reserved1 : Z
}.

(** The relay count is the length of [relays]. *)
Record NwkSourceRoute := mkSourceRoute {
  relay_index : Z;
  relays : list Nwk
}.

Record NwkHeader := mkHeader {
  frame_control : NwkFrameControl;
  destination : Nwk;
  source : Nwk;
  radius : Z;
  sequence_number : Z;
  destination_ieee : option Eui64;
  source_ieee : option Eui64;
  multicast_control : option Z;
  source_route : option NwkSourceRoute
}.

Inductive NwkSecurityHeaderKeyId : Type := DataKey | NetworkKey | KeyTransportKey | KeyLoadKey.
Inductive NwkSecurityLevel : Type :=
| NoSecurity | Mic32 | Mic64 | Mic128 | Enc | EncMic32 | EncMic64 | EncMic128.

#[export] Instance NwkSecurityHeaderKeyId_eq_dec : EqDecision NwkSecurityHeaderKeyId.
Proof. solve_decision. Defined.
#[export] Instance NwkSecurityLevel_eq_dec : EqDecision NwkSecurityLevel.
Proof. solve_decision. Defined.

Record NwkSecurityHeaderControlField := mkSecurityControl {
  security_level : NwkSecurityLevel;
  key_id : NwkSecurityHeaderKeyId;
  extended_nonce : bool;
  require_verified_frame_counter : bool
}.

Record NwkAuxHeader := mkAuxHeader {
  security_control : NwkSecurityHeaderControlField;
  frame_counter : Z;
  extended_source : option Eui64;
  key_sequence_number : Z
}.

Record EncryptedNwkFrame := mkEncrypted {
  e_nwk_header : NwkHeader;
  e_aux_header : option NwkAuxHeader;
  ciphertext : bytes
}.

Inductive NwkPayload : Type :=
| Opaque (bs : bytes)
| Command (c : NwkCommands.NwkCommand).

Record t := mk {
  nwk_header : NwkHeader;
  aux_header : option NwkAuxHeader;
  payload : NwkPayload
}.

(** ** The chainable overrides of [NwkFrame] *)
Definition set_control (h : NwkHeader) (fc : NwkFrameControl) : NwkHeader :=
  mkHeader fc (destination h) (source h) (radius h) (sequence_number h) (destination_ieee h) (source_ieee h)
    (multicast_control h) (source_route h).
Definition set_header (f : t) (h : NwkHeader) : t := mk h (aux_header f) (payload f).

Definition with_radius (f : t) (r : Z) : t :=
  let h := nwk_header f in
  set_header f (mkHeader (frame_control h) (destination h) (source h) r (sequence_number h) (destination_ieee h)
    (source_ieee h) (multicast_control h) (source_route h)).
Definition with_sequence_number (f : t) (n : Z) : t :=
  let h := nwk_header f in
  set_header f (mkHeader (frame_control h) (destination h) (source h) (radius h) n (destination_ieee h)
    (source_ieee h) (multicast_control h) (source_route h)).
Definition with_source (f : t) (nwk : Nwk) : t :=
  let h := nwk_header f in
  set_header f (mkHeader (frame_control h) (destination h) nwk (radius h) (sequence_number h) (destination_ieee h)
    (source_ieee h) (multicast_control h) (source_route h)).
Definition with_destination_ieee (f : t) (ieee : option Eui64) : t :=
  let h := nwk_header f in let fc := frame_control h in
  set_header f (mkHeader
    (mkFrameControl (frame_type fc) (protocol_version fc) (discover_route fc) (multicast fc) (security fc)
       (fc_source_route fc) (bool_decide (is_Some ieee)) (fc_extended_source fc) (end_device_initiator fc) (reserved1 fc))
    (destination h) (source h) (radius h) (sequence_number h) ieee (source_ieee h) (multicast_control h) (source_route h)).
Definition with_source_ieee (f : t) (ieee : option Eui64) : t :=
  let h := nwk_header f in let fc := frame_control h in
  set_header f (mkHeader
    (mkFrameControl (frame_type fc) (protocol_version fc) (discover_route fc) (multicast fc) (security fc)
       (fc_source_route fc) (fc_destination fc) (bool_decide (is_Some ieee)) (end_device_initiator fc) (reserved1 fc))
    (destination h) (source h) (radius h) (sequence_number h) (destination_ieee h) ieee (multicast_control h) (source_route h)).
Definition with_discover_route (f : t) (d : NwkRouteDiscovery) : t :=
  let fc := frame_control (nwk_header f) in
  set_header f (set_control (nwk_header f)
    (mkFrameControl (frame_type fc) (protocol_version fc) d (multicast fc) (security fc) (fc_source_route fc)
       (fc_destination fc) (fc_extended_source fc) (end_device_initiator fc) (reserved1 fc))).
Definition unsecured (f : t) : t :=
  let fc := frame_control (nwk_header f) in
  set_header f (set_control (nwk_header f)
    (mkFrameControl (frame_type fc) (protocol_version fc) (discover_route fc) (multicast fc) false (fc_source_route fc)
       (fc_destination fc) (fc_extended_source fc) (end_device_initiator fc) (reserved1 fc))).

(** ** Parsing *)

(** [remaining[0]] and [&remaining[1..]], with no check before them. *)
Definition index_first {E} (bs : bytes) : res E (Z * bytes) :=
  match bs with [] => Panic | b :: rest => Ok (b, rest) end.

(** [NwkPayload::as_opaque]. *)
Definition as_opaque (p : NwkPayload) : option bytes := match p with Opaque bs => Some bs | Command _ => None end.

Section Codec.
Context `{!AbstractBits NwkFrameControl, !AbstractBits NwkSourceRoute, !AbstractBits NwkSecurityHeaderControlField}.
Context `{!NwkCommands.CommandCodecs, !Ccm}.

Definition read_bits {T} `{AbstractBits T} (bs : bytes) : res ParseError (T * bytes) :=
  map_err (fun _ => Bits) (read_prefix bs).

(** An optional IEEE address. *)
Definition parse_ieee (present : bool) (bs : bytes) : res ParseError (option Eui64 * bytes) :=
  if present then '(ieee, rest) ← map_err Address (Eui64.deserialize bs); Ok (Some ieee, rest) else Ok (None, bs).

Definition parse_multicast_control (present : bool) (bs : bytes) : res ParseError (option Z * bytes) :=
  if present then
    match bs with
    | [] => Err (UnexpectedEnd "NWK multicast control")
    | control :: rest => Ok (Some control, rest)
    end
  else Ok (None, bs).

Definition parse_source_route (present : bool) (bs : bytes) : res ParseError (option NwkSourceRoute * bytes) :=
  if present then '(route, rest) ← read_bits bs; Ok (Some route, rest) else Ok (None, bs).

Definition header_deserialize (bs : bytes) : res ParseError (NwkHeader * bytes) :=
  if (length bs <? 8)%nat then Err (UnexpectedEnd "NwkHeader")
  else
    '(fc, bs) ← read_bits bs;
    '(dest, bs) ← map_err Address (Nwk.deserialize bs);
    '(src, bs) ← map_err Address (Nwk.deserialize bs);
    '(rad, bs) ← index_first bs;
    '(seq, bs) ← index_first bs;
    '(dest_ieee, bs) ← parse_ieee (fc_destination fc) bs;
    '(src_ieee, bs) ← parse_ieee (fc_extended_source fc) bs;
    '(control, bs) ← parse_multicast_control (multicast fc) bs;
    '(route, bs) ← parse_source_route (fc_source_route fc) bs;
    Ok (mkHeader fc dest src rad seq dest_ieee src_ieee control route, bs).

Definition option_bytes {A} (f : A -> bytes) (o : option A) : bytes := match o with Some a => f a | None => [] end.

(** [NwkHeader::serialize_into]. *)
Definition header_serialize {E} (bs : bytes) (h : NwkHeader) : res E bytes :=
  bs ← extend_abstract_bits bs (frame_control h);
  let bs := bs ++ Nwk.to_bytes (destination h) ++ Nwk.to_bytes (source h) ++ [radius h; sequence_number h]
    ++ option_bytes Eui64.to_bytes (destination_ieee h) ++ option_bytes Eui64.to_bytes (source_ieee h)
    ++ option_bytes (fun c => [c]) (multicast_control h) in
  match source_route h with
  | Some route => extend_abstract_bits bs route
  | None => Ok bs
  end.

(** [NwkSecurityHeaderControlField::to_bytes]: the writer fills a one-byte buffer. *)
Definition control_bytes {E} (c : NwkSecurityHeaderControlField) : res E bytes :=
  written ← unwrap (write_abstract_bits c);
  if (length written <=? 1)%nat then Ok (take 1 (written ++ [0])) else Panic.

Definition aux_deserialize (bs : bytes) : res ParseError (NwkAuxHeader * bytes) :=
  if (length bs <? 6)%nat then Err (UnexpectedEnd "NwkAuxHeader")
  else
    '(control, bs) ← read_bits bs;
    if (length bs <? 4)%nat then Panic
    else
      let counter := from_le_bytes (take 4 bs) in
      '(src, bs) ← parse_ieee (extended_nonce control) (drop 4 bs);
      match bs with
      | [] => Err (UnexpectedEnd "NWK key sequence number")
      | key_seq :: rest => Ok (mkAuxHeader control counter src key_seq, rest)
      end.

(** [NwkAuxHeader::serialize_into]. *)
Definition aux_serialize {E} (bs : bytes) (a : NwkAuxHeader) : res E bytes :=
  control ← control_bytes (security_control a);
  Ok (bs ++ control ++ to_le_bytes 4 (frame_counter a) ++ option_bytes Eui64.to_bytes (extended_source a)
        ++ [key_sequence_number a]).

(** [EncryptedNwkFrame::from_bytes]. *)
Definition from_bytes (bs : bytes) : res ParseError EncryptedNwkFrame :=
  if (MAX_PHY_PACKET_SIZE <? length bs)%nat then Err (TooLong "NwkFrame")
  else
    '(h, rest) ← header_deserialize bs;
    '(aux, rest) ←
      (if security (frame_control h) then '(a, rest) ← aux_deserialize rest; Ok (Some a, rest) else Ok (None, rest));
    if (length rest <=? MAX_PHY_PACKET_SIZE)%nat then Ok (mkEncrypted h aux rest) else Err (TooLong "ciphertext").

(** [EncryptedNwkFrame::extend_frame_bytes] and [to_bytes]. *)
Definition extend_frame_bytes {E} (bs : bytes) (f : EncryptedNwkFrame) : res E bytes :=
  bs ← header_serialize bs (e_nwk_header f);
  bs ← match e_aux_header f with Some a => aux_serialize bs a | None => Ok bs end;
  Ok (bs ++ ciphertext f).

Definition to_bytes {E} (f : EncryptedNwkFrame) : res E bytes := extend_frame_bytes [] f.

(** ** Protection *)

Definition set_level (a : NwkAuxHeader) (level : NwkSecurityLevel) : NwkAuxHeader :=
  let c := security_control a in
  mkAuxHeader (mkSecurityControl level (key_id c) (extended_nonce c) (require_verified_frame_counter c))
    (frame_counter a) (extended_source a) (key_sequence_number a).

(** [get_modified_aux_header] and [get_nonce], the same on both frame types. *)
Definition get_modified_aux_header {E} (aux : option NwkAuxHeader) (level : NwkSecurityLevel) : res E NwkAuxHeader :=
  a ← unwrap aux; Ok (set_level a level).

Definition get_nonce {E} (h : NwkHeader) (a : NwkAuxHeader) : res E bytes :=
  src ← unwrap (match extended_source a with Some e => Some e | None => source_ieee h end);
  control ← control_bytes (security_control a);
  Ok (Eui64.to_bytes src ++ to_le_bytes 4 (frame_counter a) ++ control).

(** The nonce and the authenticated data of [encrypt] and [decrypt]. *)
Definition protection {E} (h : NwkHeader) (aux : option NwkAuxHeader) : res E (bytes * bytes) :=
  a ← get_modified_aux_header aux EncMic32;
  nonce ← get_nonce h a;
  auth_data ← header_serialize [] h;
  auth_data ← aux_serialize auth_data a;
  Ok (nonce, auth_data).

Definition payload_to_bytes {E} (p : NwkPayload) : res E bytes :=
  match p with
  | Opaque bs => Ok bs
  | Command c =>
      bs ← NwkCommands.command_to_bytes c;
      if (length bs <=? MAX_PHY_PACKET_SIZE)%nat then Ok bs else Panic
  end.

Definition payload_from_bytes {E} (ty : NwkFrameType) (bs : bytes) : res E NwkPayload :=
  match ty with
  | TypeCommand => c ← NwkCommands.command_from_bytes bs; Ok (Command c)
  | TypeData | TypeInterpan => Ok (Opaque bs)
  end.

Definition encrypt {E} (f : t) (key : Key) : res E EncryptedNwkFrame :=
  protected ← protection (nwk_header f) (aux_header f);
  plain ← payload_to_bytes (payload f);
  cipher ← Crypto.software_encrypt_ccm key protected.1 protected.2 plain;
  Ok (mkEncrypted (nwk_header f) (aux_header f) cipher).

Definition decrypt (f : EncryptedNwkFrame) (key : Key) : res Crypto.DecryptionError t :=
  protected ← protection (e_nwk_header f) (e_aux_header f);
  plain ← Crypto.software_decrypt_ccm key protected.1 protected.2 (ciphertext f);
  p ← payload_from_bytes (frame_type (frame_control (e_nwk_header f))) plain;
  Ok (mk (e_nwk_header f) (e_aux_header f) p).
End Codec.
End NwkFrame.
