(* ===== verification/NwkFrameFacts.v ===== *)
(** * Properties of the NWK frame codec and of the frame protection *)

From S2P Require Import Prelude Types AbstractBits Crypto CryptoFacts NwkCommands NwkFrame.

Module NwkFrameFacts.
Import NwkFrame.

(** An optional field is there exactly when its flag is set, and its value is in range. *)
Definition present_ok {A} (flag : bool) (ok : A -> Prop) (o : option A) : Prop :=
  match flag, o with
  | true, Some a => ok a
  | false, None => True
  | _, _ => False
  end.

Section Facts.
Context `{!AbstractBits NwkFrameControl, !AbstractBits NwkSourceRoute, !AbstractBits NwkSecurityHeaderControlField}.
Context `{!AbstractBitsLaws NwkFrameControl, !AbstractBitsLaws NwkSourceRoute, !AbstractBitsLaws NwkSecurityHeaderControlField}.
Context `{!FixedLayout NwkFrameControl 2, !FixedSize NwkSecurityHeaderControlField 1}.

(** A source route that fits the scratch buffer it is written through. *)
Definition route_ok (r : NwkSourceRoute) : Prop :=
  canonical r /\ forall bs, write_abstract_bits r = Some bs -> (length bs <= MAX_PHY_PACKET_SIZE)%nat.

Record header_ok (h : NwkHeader) : Prop := {
  h_control : canonical (frame_control h);
  h_destination : is_u16 (destination h);
  h_source : is_u16 (source h);
  h_radius : is_u8 (radius h);
  h_sequence : is_u8 (sequence_number h);
  h_destination_ieee : present_ok (fc_destination (frame_control h)) eui64_ok (destination_ieee h);
  h_source_ieee : present_ok (fc_extended_source (frame_control h)) eui64_ok (source_ieee h);
  h_multicast : present_ok (multicast (frame_control h)) is_u8 (multicast_control h);
  h_route : present_ok (fc_source_route (frame_control h)) route_ok (source_route h)
}.

Record aux_ok (a : NwkAuxHeader) : Prop := {
  a_control : canonical (security_control a);
  a_counter : is_u32 (frame_counter a);
  a_source : present_ok (extended_nonce (security_control a)) eui64_ok (extended_source a);
  a_key_sequence : is_u8 (key_sequence_number a)
}.

(** ** Reading back what was written *)
Lemma read_bits_written `{AbstractBitsLaws T} (v : T) :
  canonical v ->
  exists bs, write_abstract_bits v = Some bs /\ is_bytes bs /\ forall rest, read_bits (bs ++ rest) = Ok (v, rest).
Proof.
  intros (bs & Hw & Hb & Hr)%read_prefix_written. exists bs. split_and!; [done..|]. intros rest. unfold read_bits. by rewrite Hr.
Qed.

Lemma parse_ieee_written flag o rest :
  present_ok flag eui64_ok o -> parse_ieee flag (option_bytes Eui64.to_bytes o ++ rest) = Ok (o, rest).
Proof.
  unfold present_ok, parse_ieee. destruct flag, o; try done. cbn [option_bytes]. intros He.
  by rewrite eui64_deserialize_to_bytes.
Qed.

Lemma ieee_is_bytes flag o : present_ok flag eui64_ok o -> is_bytes (option_bytes Eui64.to_bytes o).
Proof. destruct o as [e|]; [|intros _; apply is_bytes_nil]. destruct flag; [|done]. by intros [_ ?]. Qed.

Lemma parse_multicast_written flag o rest :
  present_ok flag is_u8 o -> parse_multicast_control flag (option_bytes (fun c => [c]) o ++ rest) = Ok (o, rest).
Proof. unfold present_ok, parse_multicast_control. by destruct flag, o. Qed.

Lemma multicast_is_bytes flag o : present_ok flag is_u8 o -> is_bytes (option_bytes (fun c => [c]) o).
Proof. destruct o; [|intros _; apply is_bytes_nil]. destruct flag; [|done]. intros. by apply Forall_singleton. Qed.

Lemma route_written flag o :
  present_ok flag route_ok o ->
  exists rb, is_bytes rb /\ (forall E (bs : bytes),
      match o with Some r => extend_abstract_bits (E:=E) bs r | None => Ok bs end = Ok (bs ++ rb)) /\
    forall rest, parse_source_route flag (rb ++ rest) = Ok (o, rest).
Proof.
  unfold present_ok, parse_source_route. destruct flag, o as [r|]; try done.
  - intros [Hc Hl]. destruct (read_bits_written r Hc) as (rb & Hw & Hb & Hr). exists rb. split_and!; [done| |].
    + intros E bs. apply extend_written; [done|by apply Hl].
    + intros rest. by rewrite Hr.
  - intros _. exists []. split_and!; [apply is_bytes_nil|intros; by rewrite app_nil_r|done].
Qed.

Lemma nwk_header_written h :
  header_ok h ->
  exists hb, (forall E (pre : bytes), header_serialize (E:=E) pre h = Ok (pre ++ hb)) /\ is_bytes hb /\
    (8 <= length hb)%nat /\ forall rest, header_deserialize (hb ++ rest) = Ok (h, rest).
Proof.
  intros [Hfc Hd Hs Hr Hq Hdi Hsi Hm Hro]. destruct (read_bits_written _ Hfc) as (fcb & Hw & Hb & Hrd).
  destruct (route_written _ _ Hro) as (rb & Hrb & Hwr & Hpr). pose proof (write_size _ _ Hw) as Hsize.
  exists ((fcb ++ Nwk.to_bytes (destination h) ++ Nwk.to_bytes (source h) ++ [radius h; sequence_number h]
    ++ option_bytes Eui64.to_bytes (destination_ieee h) ++ option_bytes Eui64.to_bytes (source_ieee h)
    ++ option_bytes (fun c => [c]) (multicast_control h)) ++ rb). split_and!.
  - intros E pre. unfold header_serialize. rewrite (extend_written _ _ _ Hw) by (rewrite Hsize; unfold MAX_PHY_PACKET_SIZE; lia).
    cbn [mbind res_bind]. rewrite Hwr. by rewrite <- !(assoc_L (++)).
  - repeat apply is_bytes_app; eauto using ieee_is_bytes, multicast_is_bytes, is_bytes_to_le_bytes with zig.
  - rewrite !length_app, Hsize, !nwk_to_bytes_length. cbn [length]. lia.
  - intros rest. unfold header_deserialize. rewrite (proj2 (Nat.ltb_ge _ _)).
    2: { rewrite !length_app, Hsize, !nwk_to_bytes_length. cbn [length]. lia. }
    rewrite <- !(assoc_L (++)), Hrd. cbn [mbind res_bind]. rewrite nwk_deserialize_to_bytes by done. cbn [map_err mbind res_bind].
    rewrite nwk_deserialize_to_bytes by done. cbn [map_err mbind res_bind app index_first].
    rewrite parse_ieee_written by done. cbn [mbind res_bind]. rewrite parse_ieee_written by done. cbn [mbind res_bind].
    rewrite parse_multicast_written by done. cbn [mbind res_bind]. rewrite Hpr. cbn [mbind res_bind]. by destruct h.
Qed.

Lemma control_bytes_written (c : NwkSecurityHeaderControlField) :
  canonical c ->
  exists b, (forall E, control_bytes (E:=E) c = Ok [b]) /\ is_u8 b /\ forall rest, read_bits (b :: rest) = Ok (c, rest).
Proof.
  intros (bs & Hw & Hb & Hr)%read_bits_written. pose proof (write_size _ _ Hw) as Hsize.
  destruct bs as [|b [|]]; try done. exists b. split_and!.
  - intros E. unfold control_bytes. by rewrite Hw.
  - by inversion Hb.
  - intros rest. apply (Hr rest).
Qed.

Lemma aux_written a :
  aux_ok a ->
  exists ab, (forall E (pre : bytes), aux_serialize (E:=E) pre a = Ok (pre ++ ab)) /\ is_bytes ab /\
    forall rest, aux_deserialize (ab ++ rest) = Ok (a, rest).
Proof.
  intros [Hc Hn Hs Hk]. destruct (control_bytes_written _ Hc) as (b & Hw & Hb & Hr).
  exists ([b] ++ to_le_bytes 4 (frame_counter a) ++ option_bytes Eui64.to_bytes (extended_source a) ++ [key_sequence_number a]).
  split_and!.
  - intros E pre. unfold aux_serialize. by rewrite Hw.
  - repeat apply is_bytes_app; eauto using ieee_is_bytes, is_bytes_to_le_bytes with zig.
  - intros rest. unfold aux_deserialize. rewrite (proj2 (Nat.ltb_ge _ _)).
    2: { rewrite !length_app, length_to_le_bytes. cbn [length]. lia. }
    rewrite <- !(assoc_L (++)). cbn [app]. rewrite Hr. cbn [mbind res_bind].
    rewrite (proj2 (Nat.ltb_ge _ _)) by (rewrite length_app, length_to_le_bytes; lia).
    destruct (take_drop_app_length (to_le_bytes 4 (frame_counter a))
      (option_bytes Eui64.to_bytes (extended_source a) ++ key_sequence_number a :: rest) 4) as [-> ->]; [apply length_to_le_bytes|].
    rewrite from_to_le_bytes by done. rewrite parse_ieee_written by done. cbn [mbind res_bind app]. by destruct a.
Qed.

(** Frames whose header fields agree with their flags. *)
Record encrypted_ok (f : EncryptedNwkFrame) : Prop := {
  e_header : header_ok (e_nwk_header f);
  e_aux : present_ok (security (frame_control (e_nwk_header f))) aux_ok (e_aux_header f);
  e_cipher : is_bytes (ciphertext f)
}.

(** The bytes before the ciphertext do not depend on it. *)
Lemma nwk_frame_written h aux :
  header_ok h -> present_ok (security (frame_control h)) aux_ok aux ->
  exists pre, is_bytes pre /\ forall cipher, (forall E, to_bytes (E:=E) (mkEncrypted h aux cipher) = Ok (pre ++ cipher)) /\
    ((length (pre ++ cipher) <= MAX_PHY_PACKET_SIZE)%nat -> from_bytes (pre ++ cipher) = Ok (mkEncrypted h aux cipher)).
Proof.
  intros Hh Ha. destruct (nwk_header_written _ Hh) as (hb & Hwh & Hbh & _ & Hrh).
  assert (exists ab, is_bytes ab /\ (forall E (pre : bytes),
      match aux with Some a => aux_serialize (E:=E) pre a | None => Ok pre end = Ok (pre ++ ab)) /\
    forall rest, (if security (frame_control h) then '(a, rest) ← aux_deserialize (ab ++ rest); Ok (Some a, rest)
                  else Ok (None, ab ++ rest)) = Ok (aux, rest)) as (ab & Hba & Hwa & Hra).
  { unfold present_ok in Ha. destruct (security _), aux as [a|]; try done.
    - destruct (aux_written a Ha) as (ab & Hw & Hb & Hr). exists ab. split_and!; [done..|]. intros rest. by rewrite Hr.
    - exists []. split_and!; [apply is_bytes_nil|intros; by rewrite app_nil_r|done]. }
  exists (hb ++ ab). split; [auto with zig|]. intros cipher. split.
  - intros E. unfold to_bytes, extend_frame_bytes. cbn [e_nwk_header e_aux_header ciphertext]. rewrite Hwh. cbn [mbind res_bind app]. by rewrite Hwa.
  - intros Hlen. unfold from_bytes. rewrite (proj2 (Nat.ltb_ge _ _) Hlen), <- (assoc_L (++)), Hrh. cbn [mbind res_bind]. rewrite Hra.
    cbn [mbind res_bind]. by rewrite (proj2 (Nat.leb_le _ _)) by (rewrite !length_app in Hlen; lia).
Qed.

(** A NWK frame survives the air: serializing a well-formed frame succeeds, and when it fits a
    PHY packet parsing gives the same frame back, every optional header field, the source route,
    the auxiliary header and the ciphertext included. *)
Lemma nwk_frame_round_trip {E} f :
  encrypted_ok f ->
  exists bs, to_bytes (E:=E) f = Ok bs /\ is_bytes bs /\ ((length bs <= MAX_PHY_PACKET_SIZE)%nat -> from_bytes bs = Ok f).
Proof.
  destruct f as [h aux c]. intros [Hh Ha Hc]. destruct (nwk_frame_written h aux Hh Ha) as (pre & Hb & Hw). destruct (Hw c) as [Hto Hfrom].
  exists (pre ++ c). split_and!; [apply Hto|by apply is_bytes_app|exact Hfrom].
Qed.

(** ** Totality *)
Lemma no_panic_read_bits `{AbstractBitsLaws T} bs : no_panic (read_bits (T:=T) bs).
Proof. apply no_panic_map_err, read_prefix_no_panic. Qed.

Lemma no_panic_parse_ieee flag bs : no_panic (parse_ieee flag bs).
Proof. unfold parse_ieee. destruct flag; [|done]. apply no_panic_bind; [auto with zig|by intros [? ?] _]. Qed.

(** Reading a fixed-size structure leaves the rest of the bytes. *)
Lemma read_bits_length `{!AbstractBits T, !FixedSize T n} bs (v : T) rest :
  read_bits bs = Ok (v, rest) -> length bs = (n + length rest)%nat.
Proof.
  unfold read_bits, read_prefix. destruct (read_abstract_bits bs) as [[v' k]|] eqn:Hr; [|done].
  destruct (Nat.leb_spec k (length bs)); [|done]. intros [= <- <-]. apply read_size in Hr as ->. rewrite length_drop. lia.
Qed.

Lemma nwk_deserialize_length bs nwk rest : Nwk.deserialize bs = Ok (nwk, rest) -> length bs = (2 + length rest)%nat.
Proof. unfold Nwk.deserialize. case_decide; [done|]. intros [= _ <-]. rewrite length_drop. lia. Qed.

Lemma address_ok {A} (m : res Types.ParseError A) (a : A) : map_err Address m = Ok a -> m = Ok a.
Proof. by destruct m; cbn; intros [= <-]. Qed.

Lemma header_no_panic bs : no_panic (header_deserialize bs).
Proof.
  unfold header_deserialize. destruct (Nat.ltb_spec (length bs) 8) as [|Hlen]; [done|].
  apply no_panic_bind; [apply no_panic_read_bits|intros [fc b1] H1%read_bits_length].
  apply no_panic_bind; [auto with zig|intros [d b2] H2%address_ok%nwk_deserialize_length].
  apply no_panic_bind; [auto with zig|intros [s b3] H3%address_ok%nwk_deserialize_length].
  destruct b3 as [|r [|q b4]]; [cbn in *; lia..|]. cbn [index_first mbind res_bind].
  apply no_panic_bind; [apply no_panic_parse_ieee|intros [di b5] _].
  apply no_panic_bind; [apply no_panic_parse_ieee|intros [si b6] _].
  apply no_panic_bind; [unfold parse_multicast_control; destruct (multicast fc); [by destruct b6|done]|intros [m b7] _].
  apply no_panic_bind; [|by intros [? ?] _]. unfold parse_source_route. destruct (fc_source_route fc); [|done].
  apply no_panic_bind; [apply no_panic_read_bits|by intros [? ?] _].
Qed.

Lemma aux_no_panic bs : no_panic (aux_deserialize bs).
Proof.
  unfold aux_deserialize. destruct (Nat.ltb_spec (length bs) 6) as [|Hlen]; [done|].
  apply no_panic_bind; [apply no_panic_read_bits|intros [c b1] H1%read_bits_length].
  rewrite (proj2 (Nat.ltb_ge _ _)) by lia. apply no_panic_bind; [apply no_panic_parse_ieee|by intros [? [|]] _].
Qed.

(** Parsing a NWK frame is total: whatever bytes arrive, [EncryptedNwkFrame::from_bytes] returns a
    frame or an error; its unchecked indexing never runs off the end. *)
Lemma nwk_from_bytes_no_panic bs : no_panic (from_bytes bs).
Proof.
  unfold from_bytes. destruct (_ <? length bs)%nat; [done|].
  apply no_panic_bind; [apply header_no_panic|intros [h rest] _]. apply no_panic_bind.
  - destruct (security _); [|done]. apply no_panic_bind; [apply aux_no_panic|by intros [? ?] _].
  - intros [a r] _. by destruct (_ <=? _)%nat.
Qed.

(** ** Writing back what was read *)
Context `{!Lossless NwkSourceRoute}.

Lemma read_bits_inv `{!AbstractBits T, !Lossless T} bs (v : T) rest :
  is_bytes bs -> read_bits bs = Ok (v, rest) -> exists w, write_abstract_bits v = Some w /\ bs = w ++ rest.
Proof.
  intros Hb Hr. apply read_prefix_inv; [done|]. revert Hr. unfold read_bits. by destruct (read_prefix bs); cbn; intros [= <-].
Qed.

Lemma parse_ieee_inv flag bs o rest :
  is_bytes bs -> parse_ieee flag bs = Ok (o, rest) -> bs = option_bytes Eui64.to_bytes o ++ rest.
Proof.
  intros Hb. unfold parse_ieee. destruct flag; [|by intros [= <- <-]].
  intros ([e r] & H%address_ok & [= <- <-])%bind_ok. by apply eui64_deserialize_inv in H as [-> _].
Qed.

Lemma header_inv bs h rest :
  is_bytes bs -> (length bs <= MAX_PHY_PACKET_SIZE)%nat -> header_deserialize bs = Ok (h, rest) ->
  exists hb, (forall E (pre : bytes), header_serialize (E:=E) pre h = Ok (pre ++ hb)) /\ bs = hb ++ rest.
Proof.
  intros Hb Hmax. unfold header_deserialize. destruct (_ <? 8)%nat; [done|].
  intros ([fc b1] & H & Hk)%bind_ok. apply read_bits_inv in H as (fcb & Hfc & ->); [|done]. apply Forall_app in Hb as [_ Hb].
  apply bind_ok in Hk as ([d b2] & H & Hk). apply address_ok, nwk_deserialize_inv in H as [-> _]; [|done]. apply Forall_app in Hb as [_ Hb].
  apply bind_ok in Hk as ([s b3] & H & Hk). apply address_ok, nwk_deserialize_inv in H as [-> _]; [|done]. apply Forall_app in Hb as [_ Hb].
  destruct b3 as [|r [|q b4]]; [done..|]. cbn [index_first mbind res_bind] in Hk.
  apply Forall_cons in Hb as [_ [_ Hb]%Forall_cons].
  apply bind_ok in Hk as ([di b5] & ->%parse_ieee_inv & Hk); [|done]. apply Forall_app in Hb as [_ Hb].
  apply bind_ok in Hk as ([si b6] & ->%parse_ieee_inv & Hk); [|done]. apply Forall_app in Hb as [_ Hb].
  apply bind_ok in Hk as ([m b7] & H & Hk).
  assert (b6 = option_bytes (fun c => [c]) m ++ b7) as ->.
  { unfold parse_multicast_control in H. destruct (multicast fc); [|by injection H as <- <-]. destruct b6; [done|by injection H as <- <-]. }
  clear H. apply Forall_app in Hb as [_ Hb]. apply bind_ok in Hk as ([ro b8] & H & [= <- <-]).
  assert (exists rb, b7 = rb ++ b8 /\ forall E (pre : bytes),
    match ro with Some r => extend_abstract_bits (E:=E) pre r | None => Ok pre end = Ok (pre ++ rb)) as (rb & -> & Hro).
  { unfold parse_source_route in H. destruct (fc_source_route fc).
    - apply bind_ok in H as ([v w] & Hv & [= <- <-]). apply read_bits_inv in Hv as (rb & Hw & ->); [|done]. exists rb. split; [done|].
      intros E pre. apply extend_written; [done|]. rewrite !length_app in Hmax. cbn [length] in Hmax. rewrite !length_app in Hmax. lia.
    - injection H as <- <-. exists []. split; [done|]. intros. by rewrite app_nil_r. }
  exists ((fcb ++ Nwk.to_bytes d ++ Nwk.to_bytes s ++ [r; q] ++ option_bytes Eui64.to_bytes di ++ option_bytes Eui64.to_bytes si
    ++ option_bytes (fun c => [c]) m) ++ rb). split; [|by rewrite <- !(assoc_L (++))].
  intros E pre. unfold header_serialize. cbn [frame_control destination source radius sequence_number destination_ieee source_ieee multicast_control source_route].
  rewrite (extend_written _ _ _ Hfc) by (rewrite length_app in Hmax; lia). cbn [mbind res_bind]. rewrite Hro. by rewrite <- !(assoc_L (++)).
Qed.

Context `{!ReservedBits NwkSecurityHeaderControlField (cons 0x7F nil)}.

(** The control byte comes back with its reserved bit cleared. *)
Lemma read_control_inv bs (c : NwkSecurityHeaderControlField) rest :
  is_bytes bs -> read_bits bs = Ok (c, rest) -> exists b, bs = b :: rest /\ forall E, control_bytes (E:=E) c = Ok [Z.land 0x7F b].
Proof.
  intros Hb. unfold read_bits, read_prefix. destruct (read_abstract_bits bs) as [[c' n]|] eqn:Hr; [|done].
  destruct (Nat.leb_spec n (length bs)) as [Hl|]; [|done]. intros [= <- <-].
  pose proof (reserved_cleared _ _ _ Hb Hr) as Hw. apply read_size in Hr as ->. destruct bs as [|b bs]; [cbn in Hl; lia|].
  exists b. split; [done|]. intros E. unfold control_bytes. by rewrite Hw.
Qed.

Lemma aux_inv bs a rest :
  is_bytes bs -> aux_deserialize bs = Ok (a, rest) ->
  exists b ab, (forall E (pre : bytes), aux_serialize (E:=E) pre a = Ok (pre ++ Z.land 0x7F b :: ab)) /\ bs = b :: ab ++ rest.
Proof.
  intros Hb. unfold aux_deserialize. destruct (_ <? 6)%nat; [done|].
  intros ([c b1] & H & Hk)%bind_ok. apply read_control_inv in H as (b & -> & Hc); [|done]. apply Forall_cons in Hb as [_ Hb].
  destruct (Nat.ltb_spec (length b1) 4) as [|Hl]; [done|]. apply bind_ok in Hk as ([s b2] & Hs & Hk).
  destruct (le_prefix 4 b1 Hb Hl) as [Hpre _]. apply parse_ieee_inv in Hs; [|by apply Forall_drop].
  destruct b2 as [|k b3]; [done|]. injection Hk as <- <-. rewrite Hs in Hpre.
  exists b, (to_le_bytes 4 (from_le_bytes (take 4 b1)) ++ option_bytes Eui64.to_bytes s ++ [k]).
  split; [|rewrite Hpre at 1; by rewrite <- !(assoc_L (++))].
  intros E pre. unfold aux_serialize. cbn [security_control frame_counter extended_source key_sequence_number].
  by rewrite Hc.
Qed.

(** Relaying does not alter a frame: a NWK frame the stack parsed is written back to exactly the
    bytes it was parsed from, but for the reserved bit of its security control byte (the byte after
    the NWK header of a secured frame), which is cleared. *)
Lemma nwk_frame_reserializes {E} bs f :
  is_bytes bs -> from_bytes bs = Ok f ->
  exists header control rest, bs = header ++ control ++ rest /\
    header_serialize (E:=E) [] (e_nwk_header f) = Ok header /\
    length control = (if security (frame_control (e_nwk_header f)) then 1 else 0)%nat /\
    to_bytes (E:=E) f = Ok (header ++ map (Z.land 0x7F) control ++ rest).
Proof.
  intros Hb. unfold from_bytes. destruct (Nat.ltb_spec MAX_PHY_PACKET_SIZE (length bs)) as [|Hmax]; [done|].
  intros ([h r] & H & Hk)%bind_ok. apply header_inv in H as (hb & Hwh & ->); [|done|done]. apply Forall_app in Hb as [_ Hb].
  apply bind_ok in Hk as ([a r'] & H & Hk). destruct (length r' <=? _)%nat; [|done]. injection Hk as <-.
  unfold to_bytes, extend_frame_bytes. cbn [e_nwk_header e_aux_header ciphertext]. rewrite Hwh. cbn [mbind res_bind app].
  destruct (security _).
  - apply bind_ok in H as ([x y] & H & [= <- <-]). apply aux_inv in H as (b & ab & Hwa & ->); [|done].
    rewrite Hwa. cbn [mbind res_bind]. exists hb, [b], (ab ++ y). split_and!; [done..|]. by rewrite <- (assoc_L (++)).
  - injection H as <- <-. by exists hb, [], r.
Qed.

(** ** Protection *)
Context `{!NwkCommands.CommandCodecs, !NwkCommands.CommandCodecsLaws, !Ccm, !Crypto.CcmLaws}.

(** A frame ready to be sent secured: the nonce has a source address, the payload is of the kind the
    frame type names and leaves room for the MIC. *)
Record securable (f : t) (a : NwkAuxHeader) (plain : bytes) : Prop := {
  s_header : header_ok (nwk_header f);
  s_aux : aux_header f = Some a;
  s_aux_ok : aux_ok (set_level a EncMic32);
  s_source : is_Some (extended_source a) \/ is_Some (source_ieee (nwk_header f));
  s_payload : match payload f with
              | Opaque _ => frame_type (frame_control (nwk_header f)) <> TypeCommand
              | Command c => frame_type (frame_control (nwk_header f)) = TypeCommand /\ NwkCommands.command_ok c
              end;
  s_plain : payload_to_bytes (E:=Crypto.DecryptionError) (payload f) = Ok plain;
  s_room : (length plain + Crypto.MIC_LENGTH <= MAX_PHY_PACKET_SIZE)%nat
}.

Lemma protection_returns h a :
  header_ok h -> aux_ok (set_level a EncMic32) -> is_Some (extended_source a) \/ is_Some (source_ieee h) ->
  exists nonce aad, forall E, protection (E:=E) h (Some a) = Ok (nonce, aad).
Proof.
  intros Hh Ha Hs. destruct (nwk_header_written h Hh) as (hb & Hwh & _). destruct (aux_written _ Ha) as (ab & Hwa & _).
  destruct (control_bytes_written _ (a_control _ Ha)) as (b & Hc & _).
  assert (exists e, match extended_source a with Some e => Some e | None => source_ieee h end = Some e) as [e He].
  { destruct (extended_source a) as [e|]; [eauto|]. destruct Hs as [[? ?]|[e He]]; [done|eauto]. }
  eexists _, _. intros E. unfold protection, get_modified_aux_header, get_nonce. cbn [unwrap mbind res_bind].
  cbn [set_level extended_source]. rewrite He. cbn [unwrap mbind res_bind]. rewrite Hc. cbn [mbind res_bind].
  rewrite Hwh. cbn [mbind res_bind]. rewrite Hwa. reflexivity.
Qed.

(** Serializing a payload succeeds alike whatever error type surrounds it. *)
Lemma payload_to_bytes_any {E E'} p plain :
  payload_to_bytes (E:=E) p = Ok plain -> payload_to_bytes (E:=E') p = Ok plain.
Proof.
  destruct p as [bs|c]; cbn [payload_to_bytes]; [by intros [= <-]|].
  intros (bs & Hw & Hl)%bind_ok. assert (NwkCommands.command_to_bytes (E:=E') c = Ok bs) as ->.
  { revert Hw. unfold NwkCommands.command_to_bytes. destruct c; try (by intros [= <-]); (destruct (to_abstract_bytes c); [by intros [= <-]|discriminate]). }
  cbn [mbind res_bind]. destruct (length bs <=? _)%nat; [|done]. by injection Hl as <-.
Qed.

Lemma payload_read_back {E} f a plain :
  securable f a plain -> payload_from_bytes (E:=E) (frame_type (frame_control (nwk_header f))) plain = Ok (payload f).
Proof.
  intros [_ _ _ _ Hp Hw _]. unfold payload_from_bytes. destruct (payload f) as [bs|c].
  - injection Hw as <-. by destruct (frame_type _).
  - destruct Hp as [-> Hc]. cbn [payload_to_bytes] in Hw. apply bind_ok in Hw as (bs & Hw & Hl).
    destruct (length bs <=? _)%nat; [|done]. injection Hl as <-.
    destruct (NwkCommands.command_written_back (E:=Crypto.DecryptionError) (E':=E) c Hc) as (bs' & Hw' & _ & Hr).
    rewrite Hw' in Hw. injection Hw as ->. by rewrite Hr.
Qed.

Lemma nwk_sealed f a plain key :
  securable f a plain ->
  exists nonce aad c, (forall E, protection (E:=E) (nwk_header f) (aux_header f) = Ok (nonce, aad)) /\
    (forall E, Crypto.software_encrypt_ccm (E:=E) key nonce aad plain = Ok c) /\ length c = (length plain + Crypto.MIC_LENGTH)%nat /\
    (forall E, encrypt (E:=E) f key = Ok (mkEncrypted (nwk_header f) (aux_header f) c)) /\
    decrypt (mkEncrypted (nwk_header f) (aux_header f) c) key = Ok f.
Proof.
  intros Hs. destruct (protection_returns _ a (s_header _ _ _ Hs) (s_aux_ok _ _ _ Hs) (s_source _ _ _ Hs)) as (nonce & aad & Hp).
  destruct (CryptoFacts.ccm_round_trip (E:=Empty_set) key nonce aad plain (s_room _ _ _ Hs)) as (c & He & Hl & Hd).
  exists nonce, aad, c. rewrite (s_aux _ _ _ Hs). split_and!; [done|intros E; exact (CryptoFacts.encrypt_any_error _ _ _ _ _ He)|done|..].
  - intros E. unfold encrypt. rewrite (s_aux _ _ _ Hs), Hp. cbn [mbind res_bind fst snd].
    rewrite (payload_to_bytes_any _ _ (s_plain _ _ _ Hs)). cbn [mbind res_bind]. by rewrite (CryptoFacts.encrypt_any_error _ _ _ _ _ He).
  - unfold decrypt. cbn [e_nwk_header e_aux_header ciphertext]. rewrite Hp. cbn [mbind res_bind fst snd].
    rewrite Hd. cbn [mbind res_bind]. rewrite (payload_read_back _ _ _ Hs). cbn [mbind res_bind].
    rewrite <- (s_aux _ _ _ Hs). by destruct f.
Qed.

(** What the network key protects it also opens: encrypting a frame that has an auxiliary header
    and a source address and whose payload leaves room for the MIC returns a frame with the same
    headers, and decrypting that frame under the same key returns the original, header, command and
    payload alike. *)
Lemma nwk_encrypt_decrypt {E} f a plain key :
  securable f a plain ->
  exists e, encrypt (E:=E) f key = Ok e /\ e_nwk_header e = nwk_header f /\ e_aux_header e = aux_header f /\
    length (ciphertext e) = (length plain + Crypto.MIC_LENGTH)%nat /\ decrypt e key = Ok f.
Proof. intros (nonce & aad & c & _ & _ & Hl & He & Hd)%(fun s => nwk_sealed f a plain key s). eexists. split_and!; [apply He|done..]. Qed.
End Facts.
End NwkFrameFacts.
