(* ===== verification/Receive.v ===== *)
(** * The secured receive path of the driver

    [process_802154_data_frame] of [src/crates/ziggurat-driver/src/zigbee_stack/mac.rs]: the checks
    between a MAC data frame and the NWK handlers, and the counter update both handlers
    ([handle_decrypted_frame] and [relay_unicast_nwk_frame] of [zigbee_stack/nwk.rs]) start with.
    What a handler does after that is not modelled here: [Disposition] says which one gets the
    frame. *)

From S2P Require Import Prelude Flat Types Constants AbstractBits Mac Routing Crypto CryptoFacts NwkSecurity.
From S2P Require Import NwkCommands NwkFrame NwkFrameFacts.

Module Receive.
Import NwkFrame.

(** [src/crates/ziggurat-zigbee/src/gp.rs]. *)
Inductive GpFrameType : Type := GpData | GpMaintenance.

Record GpNwkFrameControl := mkGpControl {
  gp_frame_type : GpFrameType;
  gp_protocol_version : Z;
  auto_commissioning : bool;
  extended : bool
}.

(** The part of the stack's state the receive path reads and updates. *)
Record t := mk {
  pan_id : PanId;
  network_address : Nwk;
  ieee_address : Eui64;
  hack_disable_tx : bool;
  nwk_security : NwkSecurity.t
}.

Definition with_security (s : t) (n : NwkSecurity.t) : t :=
  mk (pan_id s) (network_address s) (ieee_address s) (hack_disable_tx s) n.

Inductive Disposition : Type :=
| Drop
| Gpdf
| Unsecured (f : NwkFrame.t)
| Relay (f : NwkFrame.t) (source_nwk : Nwk)
| Handle (f : NwkFrame.t) (source_nwk : Nwk).

Section Path.
Context `{!AbstractBits GpNwkFrameControl, !AbstractBits NwkFrameControl, !AbstractBits NwkSourceRoute,
          !AbstractBits NwkSecurityHeaderControlField}.
Context `{!NwkCommands.CommandCodecs, !Ccm}.

(** The payload is a GPDF: it starts with a control field of the Green Power version. *)
Definition is_gpdf (payload : bytes) : bool :=
  match read_abstract_bits (T:=GpNwkFrameControl) payload with
  | Some (control, _) => gp_protocol_version control =? GP_PROTOCOL_VERSION
  | None => false
  end.

(** Addressed to us at the MAC layer; [hack_disable_tx] makes us a passive observer. *)
Definition mac_addressed (s : t) (h : Mac.FrameHeader) : bool :=
  hack_disable_tx s ||
  match Mac.dest_address h with
  | Some (AddrNwk nwk) => (nwk =? network_address s) || (nwk =? 0xFFFF)
  | Some (AddrEui64 eui64) => bool_decide (eui64 = ieee_address s)
  | None => false
  end.

(** A unicast for another device. *)
Definition is_transit (s : t) (h : NwkHeader) : bool :=
  negb (destination h =? network_address s) && (destination h <? Routing.BROADCAST_ALL_ROUTERS_AND_COORDINATOR).

(** The checks on a parsed frame, its decryption and its dispatch. *)
Definition process_nwk_frame (s : t) (src_address : option Ieee802154Address) (f : EncryptedNwkFrame) : may Disposition :=
  let fc := frame_control (e_nwk_header f) in
  if negb (reserved1 fc =? 0) then Ok Drop
  else if negb (security fc) then
    p ← payload_from_bytes (frame_type fc) (ciphertext f);
    Ok (Unsecured (NwkFrame.mk (e_nwk_header f) None p))
  else
    match e_aux_header f with
    | None => Ok Drop
    | Some aux =>
        if negb (bool_decide (security_level (security_control aux) = NoSecurity)) then Ok Drop
        else if negb (bool_decide (key_id (security_control aux) = NetworkKey)) then Ok Drop
        else
          match extended_source aux with
          | None => Ok Drop
          | Some src_eui64 =>
              match NwkSecurity.inbound_network_key (nwk_security s) src_eui64 (key_sequence_number aux) (frame_counter aux) with
              | None => Ok Drop
              | Some key =>
                  decrypted ← res_ok (decrypt f key);
                  match decrypted with
                  | None => Ok Drop
                  | Some frame =>
                      match src_address with
                      | Some (AddrNwk source_nwk) =>
                          Ok (if is_transit s (e_nwk_header f) then Relay frame source_nwk else Handle frame source_nwk)
                      | _ => Ok Drop
                      end
                  end
              end
          end
    end.

Definition process_802154_data_frame (s : t) (d : Mac.DataFrame bytes) : may Disposition :=
  let h := Mac.df_header d in
  if Mac.security_enabled (Mac.frame_control h) then Ok Drop
  else if is_gpdf (Mac.df_payload d) then Ok Gpdf
  else
    match Mac.dest_pan_id h with
    | None => Ok Drop
    | Some dest_pan_id =>
        if negb (dest_pan_id =? pan_id s) then Ok Drop
        else if negb (mac_addressed s h) then Ok Drop
        else
          parsed ← res_ok (from_bytes (Mac.df_payload d));
          match parsed with
          | None => Ok Drop
          | Some f => process_nwk_frame s (Mac.src_address h) f
          end
    end.

(** The first step of both handlers: store the counter of the relaying device. *)
Definition note_counter (s : t) (f : NwkFrame.t) : t :=
  match aux_header f with
  | Some aux =>
      match extended_source aux with
      | Some relaying_eui64 =>
          with_security s (NwkSecurity.note_inbound_frame_counter (nwk_security s) relaying_eui64 (frame_counter aux)).2
      | None => s
      end
  | None => s
  end.

Definition receive (s : t) (d : Mac.DataFrame bytes) : may (Disposition * t) :=
  disposition ← process_802154_data_frame s d;
  Ok (disposition, match disposition with Relay f _ | Handle f _ => note_counter s f | _ => s end).
End Path.

(** ** Properties *)
Section Facts.
Context `{!AbstractBits GpNwkFrameControl, !AbstractBits NwkFrameControl, !AbstractBits NwkSourceRoute,
          !AbstractBits NwkSecurityHeaderControlField}.
Context `{!NwkCommands.CommandCodecs, !Ccm}.

(** What it takes for a frame to reach a handler. *)
Record authentic (s : t) (d : Mac.DataFrame bytes) (f : NwkFrame.t) (source_nwk : Nwk) : Prop := {
  au_mac_plain : Mac.security_enabled (Mac.frame_control (Mac.df_header d)) = false;
  au_pan : Mac.dest_pan_id (Mac.df_header d) = Some (pan_id s);
  au_addressed : mac_addressed s (Mac.df_header d) = true;
  au_source : Mac.src_address (Mac.df_header d) = Some (AddrNwk source_nwk);
  au_frame : exists e aux eui64,
    from_bytes (Mac.df_payload d) = Ok e /\ decrypt e (NwkSecurity.network_key (nwk_security s)) = Ok f /\
    reserved1 (frame_control (e_nwk_header e)) = 0 /\ security (frame_control (e_nwk_header e)) = true /\
    e_aux_header e = Some aux /\ extended_source aux = Some eui64 /\
    security_level (security_control aux) = NoSecurity /\ key_id (security_control aux) = NetworkKey /\
    key_sequence_number aux = NwkSecurity.active_key_seq_number (nwk_security s) /\
    frame_counter aux <> u32_max /\
    match FlatMap.get (NwkSecurity.incoming (nwk_security s)) eui64 with Some last => last < frame_counter aux | None => True end
}.

Lemma inbound_key_spec n eui64 key_seq counter key :
  NwkSecurity.inbound_network_key n eui64 key_seq counter = Some key ->
  key = NwkSecurity.network_key n /\ key_seq = NwkSecurity.active_key_seq_number n /\ counter <> u32_max /\
  match FlatMap.get (NwkSecurity.incoming n) eui64 with Some last => last < counter | None => True end.
Proof.
  unfold NwkSecurity.inbound_network_key. destruct (Z.eqb_spec key_seq (NwkSecurity.active_key_seq_number n)); [|done].
  cbn [negb]. destruct (Z.eqb_spec counter u32_max); [done|]. destruct (FlatMap.get _ eui64) as [last|].
  - destruct (Z.leb_spec counter last); [done|]. by intros [= <-].
  - by intros [= <-].
Qed.

Lemma res_ok_some {E A} (m : res E A) a : res_ok m = Ok (Some a) -> m = Ok a.
Proof. by destruct m; cbn; intros [= <-]. Qed.

Lemma decrypt_headers e key f :
  decrypt e key = Ok f -> nwk_header f = e_nwk_header e /\ aux_header f = e_aux_header e.
Proof.
  unfold decrypt. intros (p & _ & Hk)%bind_ok. apply bind_ok in Hk as (plain & _ & Hk').
  by apply bind_ok in Hk' as (? & _ & [= <-]).
Qed.

(** The dispositions that hand a frame to a handler. *)
Definition accepts (o : Disposition) (f : NwkFrame.t) (source_nwk : Nwk) : Prop :=
  o = Relay f source_nwk \/ o = Handle f source_nwk.

Lemma process_authentic s d o f source_nwk :
  process_802154_data_frame s d = Ok o -> accepts o f source_nwk ->
  authentic s d f source_nwk /\ o = if is_transit s (nwk_header f) then Relay f source_nwk else Handle f source_nwk.
Proof.
  intros Hp Ha. assert (o <> Drop /\ o <> Gpdf /\ forall g, o <> Unsecured g) as (HD & HG & HU).
  { by destruct Ha as [-> | ->]. }
  revert Hp. unfold process_802154_data_frame.
  destruct (Mac.security_enabled _) eqn:Hsec; [by intros [= <-]|]. destruct (is_gpdf _); [by intros [= <-]|].
  destruct (Mac.dest_pan_id _) as [pan|] eqn:Hpan; [|by intros [= <-]].
  destruct (Z.eqb_spec pan (pan_id s)) as [->|]; [cbn [negb]|by intros [= <-]].
  destruct (mac_addressed _ _) eqn:Haddr; [cbn [negb]|by intros [= <-]].
  intros ([e|] & He & Hk)%bind_ok; [apply res_ok_some in He|by injection Hk as <-]. revert Hk. unfold process_nwk_frame.
  destruct (Z.eqb_spec (reserved1 (frame_control (e_nwk_header e))) 0) as [Hres|]; [cbn [negb]|by intros [= <-]].
  destruct (security (frame_control (e_nwk_header e))) eqn:Hs; cbn [negb].
  2: { intros (p & _ & Heq)%bind_ok. exfalso. injection Heq as <-. by eapply HU. }
  destruct (e_aux_header e) as [aux|] eqn:Haux; [|by intros [= <-]]. case_bool_decide as Hlevel; [cbn [negb]|by intros [= <-]].
  case_bool_decide as Hkey; [cbn [negb]|by intros [= <-]]. destruct (extended_source aux) as [eui64|] eqn:Hext; [|by intros [= <-]].
  destruct (NwkSecurity.inbound_network_key _ _ _ _) as [key|] eqn:Hin; [|by intros [= <-]].
  apply inbound_key_spec in Hin as (-> & Hseq & Hmax & Hnew).
  intros ([g|] & Hd & Hk)%bind_ok; [apply res_ok_some in Hd|by injection Hk as <-].
  destruct (Mac.src_address _) as [[n|]|] eqn:Hsrc; [|by injection Hk as <-..]. injection Hk as <-.
  pose proof (decrypt_headers _ _ _ Hd) as [<- _].
  assert (g = f /\ n = source_nwk) as [-> ->] by (destruct Ha as [Ha|Ha]; destruct (is_transit _ _); by simplify_eq).
  split; [|done]. constructor; [done..|]. by exists e, aux, eui64.
Qed.

(** C16: only authentic frames reach a handler: a frame that is handled or relayed came in an
    unencrypted MAC frame addressed to us in our PAN, parsed, carried an auxiliary header with the
    network key identifier, the active key sequence number and a counter newer than any stored for
    its sender, and decrypted under the network key; it is relayed exactly when it is a unicast for
    another device. *)
Theorem only_authentic_frames_handled s d o s' f source_nwk :
  receive s d = Ok (o, s') -> accepts o f source_nwk ->
  authentic s d f source_nwk /\ o = (if is_transit s (nwk_header f) then Relay f source_nwk else Handle f source_nwk).
Proof. unfold receive. intros (o' & Hp & [= -> _])%bind_ok Ha. by eapply process_authentic. Qed.

Lemma noted_counter n eui64 counter key_seq :
  NwkSecurity.inbound_network_key (NwkSecurity.note_inbound_frame_counter n eui64 counter).2 eui64 key_seq counter = None.
Proof.
  unfold NwkSecurity.note_inbound_frame_counter, NwkSecurity.inbound_network_key.
  destruct (FlatMap.insert (NwkSecurity.incoming n) eui64 counter) as [old m] eqn:Hi. cbn [snd].
  destruct (negb _); [done|]. destruct (counter =? u32_max); [done|].
  assert (FlatMap.get (NwkSecurity.incoming (NwkSecurity.with_incoming n m)) eui64 = Some counter) as ->.
  { unfold NwkSecurity.incoming, NwkSecurity.with_incoming. cbn. replace m with (FlatMap.insert (NwkSecurity.incoming n) eui64 counter).2 by by rewrite Hi.
    apply FlatMap.get_insert_eq. }
  by rewrite Z.leb_refl.
Qed.

(** No frame is handled twice: once a received frame was handled or relayed, receiving the same
    bytes again, in the state the first reception left, drops them. *)
Lemma received_frame_not_replayed s d o s' f source_nwk :
  receive s d = Ok (o, s') -> accepts o f source_nwk -> receive s' d = Ok (Drop, s').
Proof.
  intros Hr Ha. unfold receive in Hr. apply bind_ok in Hr as (o' & Hp & [= -> <-]).
  destruct (process_authentic _ _ _ _ _ Hp Ha) as [[Hsec Hpan Haddr Hsrc (e & aux & eui64 & Hf & Hd & Hres & Hs & Haux & Hext & Hl & Hk & _)] _].
  assert (match o with Relay f _ | Handle f _ => note_counter s f | _ => s end =
          with_security s (NwkSecurity.note_inbound_frame_counter (nwk_security s) eui64 (frame_counter aux)).2) as ->.
  { destruct (decrypt_headers _ _ _ Hd) as [_ Hhdr]. unfold note_counter.
    destruct Ha as [-> | ->]; rewrite Hhdr, Haux, Hext; done. }
  assert (is_gpdf (Mac.df_payload d) = false) as Hgp.
  { revert Hp. unfold process_802154_data_frame. rewrite Hsec. destruct (is_gpdf _); [|done].
    by destruct Ha as [-> | ->]. }
  unfold receive, process_802154_data_frame. rewrite Hsec, Hgp, Hpan. cbn [pan_id with_security]. rewrite Z.eqb_refl. cbn [negb].
  unfold mac_addressed in *. cbn [hack_disable_tx network_address ieee_address with_security]. rewrite Haddr. cbn [negb].
  rewrite Hf. cbn [res_ok mbind res_bind]. unfold process_nwk_frame. rewrite Hres, Z.eqb_refl, Hs, Haux. cbn [negb].
  rewrite !bool_decide_true by done. cbn [negb]. rewrite Hext. cbn [nwk_security with_security]. by rewrite noted_counter.
Qed.

(** ** Totality *)
Context `{!AbstractBitsLaws NwkFrameControl, !AbstractBitsLaws NwkSourceRoute, !AbstractBitsLaws NwkSecurityHeaderControlField}.
Context `{!FixedLayout NwkFrameControl 2, !FixedSize NwkSecurityHeaderControlField 1, !ReservedBits NwkSecurityHeaderControlField (cons 0x7F nil), !Lossless NwkSourceRoute, !Crypto.CcmLaws}.

(** The fields of the security control byte are enumerations and flags, which always fit. *)
Hypothesis controls_fit : forall c : NwkSecurityHeaderControlField, canonical c.

Lemma decrypt_no_panic bs e key :
  is_bytes bs -> from_bytes bs = Ok e ->
  (exists aux eui64, e_aux_header e = Some aux /\ extended_source aux = Some eui64) ->
  security (frame_control (e_nwk_header e)) = true -> no_panic (decrypt e key).
Proof.
  intros Hb Hf (aux & eui64 & Haux & Hext) Hs. revert Hf. unfold from_bytes.
  destruct (Nat.ltb_spec MAX_PHY_PACKET_SIZE (length bs)) as [|Hmax]; [done|].
  intros ([h r] & Hh & Hk)%bind_ok. apply NwkFrameFacts.header_inv in Hh as (hb & Hwh & ->); [|done|done].
  apply bind_ok in Hk as ([a r'] & Ha & Hk). destruct (Nat.leb_spec (length r') MAX_PHY_PACKET_SIZE) as [Hl|]; [|done].
  injection Hk as <-. cbn [e_nwk_header e_aux_header] in *. subst a. rewrite Hs in Ha.
  apply bind_ok in Ha as ([x y] & Ha & Heq). injection Heq as -> ->.
  destruct (NwkFrameFacts.control_bytes_written _ (controls_fit (security_control (set_level aux EncMic32)))) as (b & Hc & _).
  unfold decrypt. cbn [e_nwk_header e_aux_header ciphertext]. apply no_panic_bind.
  - unfold protection, get_modified_aux_header, get_nonce. cbn [unwrap mbind res_bind].
    cbn [set_level extended_source]. rewrite Hext. cbn [unwrap mbind res_bind]. rewrite Hc. cbn [mbind res_bind].
    rewrite Hwh. cbn [mbind res_bind]. unfold aux_serialize. by rewrite Hc.
  - intros p _. apply no_panic_bind; [apply CryptoFacts.no_panic_decrypt_ccm|].
    intros plain Hd%CryptoFacts.decrypt_ccm_length. apply no_panic_bind; [|done]. unfold payload_from_bytes.
    destruct (frame_type _); [done| |done]. apply no_panic_bind; [|done]. apply NwkCommands.no_panic_command_from_bytes. lia.
Qed.

Lemma ciphertext_bounded bs e : from_bytes bs = Ok e -> (length (ciphertext e) <= MAX_PHY_PACKET_SIZE)%nat.
Proof.
  unfold from_bytes. destruct (_ <? length bs)%nat; [done|]. intros ([h r] & _ & Hk)%bind_ok.
  apply bind_ok in Hk as ([a r'] & _ & Hk). destruct (Nat.leb_spec (length r') MAX_PHY_PACKET_SIZE); [|done]. by injection Hk as <-.
Qed.

Lemma no_panic_res_ok {E A} (m : res E A) : no_panic m -> no_panic (res_ok m).
Proof. by destruct m. Qed.

(** C30: the checks of the receive path never panic: whatever bytes a MAC data frame carries, and in
    whatever state the stack is, [process_802154_data_frame] comes to the end of its checks, with the
    frame dropped, recognized as a Green Power or an unsecured frame, or decrypted and ready to be
    handled or relayed; in particular parsing returns on every payload, and decryption is never tried
    on a frame without an auxiliary header or a source address. What the function does with an
    accepted frame after that, handling or relaying it, is not part of this statement beyond storing
    the counter of its sender. *)
Theorem receive_total s d : is_bytes (Mac.df_payload d) -> exists o s', receive s d = Ok (o, s').
Proof.
  intros Hb. assert (no_panic (process_802154_data_frame s d)) as [o Ho]%may_returns.
  2: { unfold receive. rewrite Ho. eexists _, _. reflexivity. }
  unfold process_802154_data_frame. destruct (Mac.security_enabled _); [done|]. destruct (is_gpdf _); [done|].
  destruct (Mac.dest_pan_id _); [|done]. destruct (negb _); [done|]. destruct (negb _); [done|].
  apply no_panic_bind.
  { apply no_panic_res_ok. intros Hp. by eapply NwkFrameFacts.nwk_from_bytes_no_panic. }
  intros [e|] He; [|done]. apply res_ok_some in He. unfold process_nwk_frame.
  destruct (negb _); [done|]. destruct (security _) eqn:Hs; cbn [negb].
  2: { apply no_panic_bind; [|done]. unfold payload_from_bytes. destruct (frame_type _); [done| |done].
       apply no_panic_bind; [|done]. apply NwkCommands.no_panic_command_from_bytes. by eapply ciphertext_bounded. }
  destruct (e_aux_header e) as [aux|] eqn:Haux; [|done]. destruct (negb _); [done|]. destruct (negb _); [done|].
  destruct (extended_source aux) as [eui64|] eqn:Hext; [|done]. destruct (NwkSecurity.inbound_network_key _ _ _ _); [|done].
  apply no_panic_bind; [apply no_panic_res_ok; eapply decrypt_no_panic; eauto|].
  intros [g|] _; [|done]. by destruct (Mac.src_address _) as [[|]|].
Qed.
End Facts.
End Receive.
