(* ===== verification/NextHop.v ===== *)
(** * Next hops: [src/crates/ziggurat-zigbee/src/nwk/next_hop.rs], and the relay step of the driver

    [resolve] picks the MAC next hop of a unicast the stack originates and may write a source route
    into it; [relay_unicast_nwk_frame] (of [src/crates/ziggurat-driver/src/zigbee_stack/nwk.rs]) is
    what every relay does with the frame after that. *)

From S2P Require Import Prelude Flat Types Routing RoutingFacts Neighbors NeighborFacts NwkSecurity NwkCommands NwkFrame Receive.

Module NextHop.
Import NwkFrame.

Inductive HostRoute : Type :=
| HostNextHop (next_hop : Nwk)
| HostSourceRoute (relays : list Nwk).

Inductive RouteDirective : Type :=
| StackDecides
| Hint (route : HostRoute)
| Force (route : HostRoute).

Inductive SendMode : Type :=
| Direct
| RouteMode (directive : RouteDirective).

Inductive NextHop : Type :=
| Resolved (next_hop : Nwk)
| NeedDiscovery
| Discard.

Record Policy := mkPolicy {
  is_concentrator : bool;
  force_route_discovery : bool;
  max_source_route : Z
}.

(** The header of a frame that carries a source route. *)
Definition set_source_route (f : NwkFrame.t) (route : NwkSourceRoute) : NwkFrame.t :=
  let h := nwk_header f in let fc := frame_control h in
  set_header f (mkHeader
    (mkFrameControl (frame_type fc) (protocol_version fc) Suppress (multicast fc) (security fc) true (fc_destination fc)
       (fc_extended_source fc) (end_device_initiator fc) (reserved1 fc))
    (destination h) (source h) (radius h) (sequence_number h) (destination_ieee h) (source_ieee h) (multicast_control h)
    (Some route)).

(** [relays.last().unwrap()], and [relays.len() as u8 - 1] with the overflow check on. *)
Definition apply_source_route (f : NwkFrame.t) (relays : list Nwk) : may (NextHop * NwkFrame.t) :=
  next_hop ← unwrap (last relays);
  index ← unwrap (checked_sub (Z.of_nat (length relays) mod 256) 1);
  Ok (Resolved next_hop, set_source_route f (mkSourceRoute index relays)).

Definition apply_host_route (f : NwkFrame.t) (route : HostRoute) : may (NextHop * NwkFrame.t) :=
  match route with
  | HostNextHop next_hop => Ok (Resolved next_hop, f)
  | HostSourceRoute relays => apply_source_route f relays
  end.

(** The last two steps of [resolve]: a hint stands in for discovery, otherwise the frame's flag
    decides. *)
Definition without_route (f : NwkFrame.t) (directive : RouteDirective) : may (NextHop * NwkFrame.t) :=
  match directive with
  | Hint route => apply_host_route f route
  | _ =>
      if bool_decide (discover_route (frame_control (nwk_header f)) = Suppress) then Ok (Discard, f)
      else Ok (NeedDiscovery, f)
  end.

(** The route table step. *)
Definition by_route_table (routing : Routing.t) (f : NwkFrame.t) (directive : RouteDirective) (policy : Policy)
    : may (NextHop * NwkFrame.t) :=
  if negb (force_route_discovery policy) then
    hop ← Routing.next_hop routing (destination (nwk_header f));
    match hop with
    | Some next_hop => Ok (Resolved next_hop, f)
    | None => without_route f directive
    end
  else without_route f directive.

Definition resolve (routing : Routing.t) (neighbors : Neighbors.t) (f : NwkFrame.t) (mode : SendMode) (policy : Policy)
    : may (NextHop * NwkFrame.t) :=
  let dest := destination (nwk_header f) in
  match mode with
  | Direct => Ok (Resolved dest, f)
  | RouteMode (Force route) => apply_host_route f route
  | RouteMode directive =>
      if bool_decide (is_Some (Neighbors.end_device_child_eui64 neighbors dest)) then Ok (Resolved dest, f)
      else if is_concentrator policy && negb (force_route_discovery policy) then
        route ← Routing.route_to routing dest (max_source_route policy);
        match route with
        | Some (Routing.NextHop next_hop) => Ok (Resolved next_hop, f)
        | Some (Routing.SourceRouted relays) => apply_source_route f relays
        | None => by_route_table routing f directive policy
        end
      else by_route_table routing f directive policy
  end.

(** ** The relay step *)

(** [Neighbors::clear_end_device_initiator_for_relay]. *)
Definition clear_end_device_initiator_for_relay (n : Neighbors.t) (h : NwkHeader) : bool * NwkHeader :=
  let fc := frame_control h in
  if negb (end_device_initiator fc) || negb (bool_decide (is_Some (Neighbors.end_device_child_eui64 n (source h))))
  then (false, h)
  else (true, set_control h
    (mkFrameControl (frame_type fc) (protocol_version fc) (discover_route fc) (multicast fc) (security fc)
       (fc_source_route fc) (fc_destination fc) (fc_extended_source fc) false (reserved1 fc))).

(** The tables of the relaying node. *)
Record node := mkNode {
  own_address : Nwk;
  n_neighbors : Neighbors.t;
  n_routing : Routing.t;
  n_security : NwkSecurity.t
}.

(** A transiting route record gains our address; a full or malformed one is discarded. *)
Definition append_to_route_record (own : Nwk) (max_source_route : Z) (p : NwkPayload) : option NwkPayload :=
  match p with
  | Command (NwkCommands.RouteRecord r) =>
      if max_source_route <=? Z.of_nat (length (NwkCommands.rr_relays r)) then None
      else Some (Command (NwkCommands.RouteRecord (NwkCommands.mkRouteRecord (NwkCommands.rr_relays r ++ [own]))))
  | Command (NwkCommands.Unparsed raw) =>
      if bool_decide (head raw = Some (NwkCommands.id_to_u8 NwkCommands.IdRouteRecord)) then None else Some p
  | _ => Some p
  end.

(** Follow the source route of a frame: the next hop, and the route with its index advanced. *)
Definition follow_source_route (own dest : Nwk) (r : NwkSourceRoute) : may (option (Nwk * NwkSourceRoute)) :=
  if relay_index r =? 0 then Ok (Some (dest, r))
  else if negb (bool_decide (relays r !! Z.to_nat (relay_index r) = Some own)) then Ok None
  else
    next ← unwrap (relays r !! Z.to_nat (relay_index r - 1));
    Ok (Some (next, mkSourceRoute (relay_index r - 1) (relays r))).

Definition set_route_field (h : NwkHeader) (r : NwkSourceRoute) : NwkHeader :=
  mkHeader (frame_control h) (destination h) (source h) (radius h) (sequence_number h) (destination_ieee h) (source_ieee h)
    (multicast_control h) (Some r).

(** The next hop of a frame in transit, the header to forward it with, and the routing table after
    [note_source_routed_frame]. *)
Definition transit_next_hop (own : Nwk) (neighbors : Neighbors.t) (routing : Routing.t) (h : NwkHeader)
    : may (option (Nwk * NwkHeader) * Routing.t) :=
  let dest := destination h in
  match source_route h with
  | Some r =>
      followed ← follow_source_route own dest r;
      match followed with
      | None => Ok (None, routing)
      | Some (next, r) =>
          let next := if bool_decide (is_Some (Neighbors.end_device_child_eui64 neighbors dest)) then dest else next in
          Ok (Some (next, set_route_field h r), Routing.note_source_routed_frame routing (source h))
      end
  | None =>
      if Neighbors.has_network_address neighbors dest then Ok (Some (dest, h), routing)
      else hop ← Routing.next_hop routing dest; Ok (option_map (fun next => (next, h)) hop, routing)
  end.

(** [relay_unicast_nwk_frame]: the frame to enqueue and its next hop, or nothing when it is dropped. *)
Definition relay_unicast_nwk_frame (s : node) (f : NwkFrame.t) (sender_nwk : Nwk) (lqi max_source_route : Z)
    : may (option (NwkFrame.t * Nwk) * node) :=
  let sec :=
    match aux_header f with
    | Some aux =>
        match extended_source aux with
        | Some relaying_eui64 => (NwkSecurity.note_inbound_frame_counter (n_security s) relaying_eui64 (frame_counter aux)).2
        | None => n_security s
        end
    | None => n_security s
    end in
  nb ← Neighbors.record_lqa (n_neighbors s) sender_nwk lqi;
  let nb := Neighbors.record_inbound_activity nb sender_nwk in
  let s := mkNode (own_address s) nb (n_routing s) sec in
  let f := with_radius f (saturating_sub (radius (nwk_header f)) 1) in
  if radius (nwk_header f) =? 0 then Ok (None, s)
  else
    let h := (clear_end_device_initiator_for_relay nb (nwk_header f)).2 in
    match append_to_route_record (own_address s) max_source_route (payload f) with
    | None => Ok (None, s)
    | Some p =>
        '(hop, routing) ← transit_next_hop (own_address s) nb (n_routing s) h;
        Ok (match hop with
            | Some (next, h) => Some (NwkFrame.mk h (aux_header f) p, next)
            | None => None
            end, mkNode (own_address s) nb routing sec)
    end.

(** ** Properties of [resolve] *)

(** The host routes [resolve] can apply: relay lists are not empty, and short enough for the index
    byte. *)
Definition host_route_ok (route : HostRoute) : Prop :=
  match route with
  | HostNextHop _ => True
  | HostSourceRoute relays => (0 < length relays <= 255)%nat
  end.

Definition mode_ok (mode : SendMode) : Prop :=
  match mode with
  | RouteMode (Hint route | Force route) => host_route_ok route
  | _ => True
  end.

(** A frame sent on a source route: its header carries the relays with the index of the last one,
    which is the next hop, and discovery is off. *)
Definition sent_along (f f' : NwkFrame.t) (next : Nwk) (relays : list Nwk) : Prop :=
  f' = set_source_route f (mkSourceRoute (Z.of_nat (length relays) - 1) relays) /\ last relays = Some next.

Lemma apply_source_route_spec f relays :
  (0 < length relays <= 255)%nat ->
  exists next f', apply_source_route f relays = Ok (Resolved next, f') /\ sent_along f f' next relays.
Proof.
  intros Hl. destruct (last relays) as [next|] eqn:Hlast.
  - exists next. eexists. unfold apply_source_route, sent_along. rewrite Hlast. cbn [unwrap mbind res_bind].
    rewrite Z.mod_small by lia. unfold checked_sub. rewrite (proj2 (Z.leb_le _ _)) by lia. done.
  - apply last_None in Hlast as ->. cbn in Hl. lia.
Qed.

(** What justifies an outcome of [resolve]. *)
Definition justified (routing : Routing.t) (neighbors : Neighbors.t) (f : NwkFrame.t) (mode : SendMode) (policy : Policy)
    (out : NextHop) (f' : NwkFrame.t) : Prop :=
  let dest := destination (nwk_header f) in
  match out with
  | Resolved next =>
      (f' = f /\ next = dest /\ (mode = Direct \/ is_Some (Neighbors.end_device_child_eui64 neighbors dest))) \/
      (f' = f /\ (mode = RouteMode (Force (HostNextHop next)) \/ mode = RouteMode (Hint (HostNextHop next)))) \/
      (exists relays, sent_along f f' next relays /\
         (mode = RouteMode (Force (HostSourceRoute relays)) \/ mode = RouteMode (Hint (HostSourceRoute relays)) \/
          (force_route_discovery policy = false /\ is_concentrator policy = true /\
           FlatMap.get (Routing.route_record_table routing) dest = Some relays /\
           Z.of_nat (length relays) < max_source_route policy))) \/
      (f' = f /\ force_route_discovery policy = false /\
         (FlatMap.get (Routing.route_record_table routing) dest = Some [] /\ next = dest \/
          Routing.next_hop routing dest = Ok (Some next)))
  | NeedDiscovery | Discard =>
      f' = f /\ mode = RouteMode StackDecides /\ Neighbors.end_device_child_eui64 neighbors dest = None /\
      (force_route_discovery policy = false -> Routing.next_hop routing dest = Ok None) /\
      (out = Discard <-> discover_route (frame_control (nwk_header f)) = Suppress)
  end.

Lemma next_hop_returns own s dest : RoutingFacts.known own s -> exists o, Routing.next_hop s dest = Ok o.
Proof.
  intros Hi. unfold Routing.next_hop. destruct (FlatMap.get _ dest) as [e|] eqn:He; [|eauto].
  unfold Routing.is_active. case_bool_decide as Ha; [|eauto].
  pose proof (RoutingFacts.inv_routes _ _ Hi dest e He Ha). by destruct (Z.eqb_spec (Routing.next_hop_address e) Routing.UNKNOWN_NEXT_HOP); [|eauto].
Qed.

Lemma host_route_spec f route :
  host_route_ok route ->
  exists next f', apply_host_route f route = Ok (Resolved next, f') /\
    (route = HostNextHop next /\ f' = f \/ exists relays, route = HostSourceRoute relays /\ sent_along f f' next relays).
Proof.
  destruct route as [n|rs]; intros Hok; [eauto 10|].
  destruct (apply_source_route_spec f rs Hok) as (next & f' & Ha & Hs). eauto 10.
Qed.

Lemma without_route_justified routing neighbors f directive policy :
  mode_ok (RouteMode directive) -> (forall route, directive <> Force route) ->
  Neighbors.end_device_child_eui64 neighbors (destination (nwk_header f)) = None ->
  (force_route_discovery policy = false -> Routing.next_hop routing (destination (nwk_header f)) = Ok None) ->
  exists out f', without_route f directive = Ok (out, f') /\ justified routing neighbors f (RouteMode directive) policy out f'.
Proof.
  intros Hok Hnf Hchild Hnone. destruct directive as [|route|route]; cbn [without_route]; [..|by destruct (Hnf route)].
  - case_bool_decide as Hs; (eexists _, _; split; [reflexivity|]); cbn; by split_and!.
  - destruct (host_route_spec f route Hok) as (next & f' & -> & [[-> ->]|(rs & -> & Hs)]); (eexists _, _; split; [reflexivity|]); cbn.
    + right. left. by split; [|right].
    + right. right. left. exists rs. by split; [|right; left].
Qed.

Lemma by_route_table_justified own routing neighbors f directive policy :
  RoutingFacts.known own routing -> mode_ok (RouteMode directive) -> (forall route, directive <> Force route) ->
  Neighbors.end_device_child_eui64 neighbors (destination (nwk_header f)) = None ->
  exists out f', by_route_table routing f directive policy = Ok (out, f') /\
    justified routing neighbors f (RouteMode directive) policy out f'.
Proof.
  intros Hi Hok Hnf Hchild. unfold by_route_table. destruct (force_route_discovery policy) eqn:Hforce; cbn [negb].
  - apply without_route_justified; [done..|congruence].
  - destruct (next_hop_returns own routing (destination (nwk_header f)) Hi) as [[next|] Hn]; rewrite Hn; cbn [mbind res_bind].
    + eexists _, _. split; [reflexivity|]. cbn. right. right. right. by split_and!; [..|right].
    + by apply without_route_justified.
Qed.

(** The next hop of every unicast is justified: in every reachable state [resolve] returns, and
    a next hop it gives is the destination itself (sent direct, or our end device child), the host's
    route, a stored source route within the limit, or an active route; a source-routed frame
    carries the relays with the index of the last one, which is its next hop, and has discovery
    suppressed; it asks for discovery or discards only when the host gave no route, none is known,
    and the frame's own flag says which. *)
Lemma resolve_justified own routing neighbors f mode policy :
  RoutingFacts.reachable own routing -> mode_ok mode -> 0 <= max_source_route policy <= u8_max ->
  exists out f', resolve routing neighbors f mode policy = Ok (out, f') /\ justified routing neighbors f mode policy out f'.
Proof.
  intros Hr Hok Hmax. pose proof (RoutingFacts.routing_reachable_known _ _ Hr) as Hi. unfold resolve. set (dest := destination (nwk_header f)).
  destruct mode as [|directive]; [eexists _, _; split; [reflexivity|]; cbn; auto|].
  assert ((exists route, directive = Force route) \/ (forall route, directive <> Force route)) as [[route ->]|Hnf].
  { destruct directive; [right; congruence..|left; eauto]. }
  { destruct (host_route_spec f route Hok) as (next & f' & -> & [[-> ->]|(rs & -> & Hs)]); (eexists _, _; split; [reflexivity|]); cbn.
    - right. left. by split; [|left].
    - right. right. left. exists rs. by split; [|left]. }
  assert (exists out f',
    (if bool_decide (is_Some (Neighbors.end_device_child_eui64 neighbors dest)) then Ok (Resolved dest, f)
     else if is_concentrator policy && negb (force_route_discovery policy) then
       route ← Routing.route_to routing dest (max_source_route policy);
       match route with
       | Some (Routing.NextHop next_hop) => Ok (Resolved next_hop, f)
       | Some (Routing.SourceRouted relays) => apply_source_route f relays
       | None => by_route_table routing f directive policy
       end
     else by_route_table routing f directive policy) = Ok (out, f') /\
    justified routing neighbors f (RouteMode directive) policy out f') as Hmain.
  2: { destruct directive as [|r|r]; [exact Hmain..|by destruct (Hnf r)]. }
  case_bool_decide as Hchild; [eexists _, _; split; [reflexivity|]; cbn; auto|].
  apply eq_None_not_Some in Hchild. pose proof (by_route_table_justified own routing neighbors f directive policy Hi Hok Hnf Hchild) as Htable.
  destruct (is_concentrator policy) eqn:Hconc; [|exact Htable]. destruct (force_route_discovery policy) eqn:Hforce; [exact Htable|]. cbn [andb negb].
  unfold Routing.route_to. destruct (next_hop_returns own routing dest Hi) as [hop Hn].
  assert (forall n, hop = Some n -> justified routing neighbors f (RouteMode directive) policy (Resolved n) f) as Hactive.
  { intros n ->. cbn. right. right. right. by split_and!; [..|right]. }
  destruct (FlatMap.get (Routing.route_record_table routing) dest) as [[|r l]|] eqn:Hrec.
  - eexists _, _. split; [reflexivity|]. cbn. right. right. right. by split_and!; [..|left].
  - destruct (Z.ltb_spec (Z.of_nat (length (r :: l))) (max_source_route policy)) as [Hlt|].
    + destruct (apply_source_route_spec f (r :: l)) as (next & f' & Ha & Hs); [unfold u8_max in Hmax; cbn in *; lia|].
      exists (Resolved next), f'. split; [exact Ha|]. cbn. right. right. left. exists (r :: l). split; [done|]. right. right. by split_and!.
    + rewrite Hn. destruct hop as [n|]; cbn; [|exact Htable]. eexists _, _. split; [reflexivity|by apply Hactive].
  - rewrite Hn. destruct hop as [n|]; cbn; [|exact Htable]. eexists _, _. split; [reflexivity|by apply Hactive].
Qed.

(** The documented meaning of an empty host relay list is direct delivery; the code panics. *)
Lemma empty_host_route_panics routing neighbors f policy :
  resolve routing neighbors f (RouteMode (Force (HostSourceRoute []))) policy = Panic.
Proof. done. Qed.

(** Counting what a neighbor sends does not change whose end device child a node is. *)
Lemma child_modified nb x f d :
  (forall e, Neighbors.extended_address (f e) = Neighbors.extended_address e /\ Neighbors.network_address (f e) = Neighbors.network_address e /\
     Neighbors.device_type (f e) = Neighbors.device_type e /\ Neighbors.relationship (f e) = Neighbors.relationship e) ->
  Neighbors.end_device_child_eui64 (Neighbors.with_table nb (FlatMap.modify (Neighbors.table nb) x f)) d = Neighbors.end_device_child_eui64 nb d.
Proof.
  intros Hf. unfold Neighbors.end_device_child_eui64, Neighbors.find_entry. cbn [Neighbors.table Neighbors.with_table FlatMap.entries FlatMap.modify].
  rewrite FlatMap.modify_entries_eq. induction (FlatMap.entries (Neighbors.table nb)) as [|[k e] l IH]; [done|]. cbn [fmap list_fmap find fst snd].
  unfold Neighbors.has_address, Neighbors.is_type, Neighbors.is_child in *. destruct (cmp k x); [|by destruct (_ && _)..].
  destruct (Hf e) as (He & Hn & Hd & Hr). rewrite Hn, Hd, Hr. destruct (_ && _); [cbn; by rewrite He|exact IH].
Qed.

Lemma child_recorded nb nb' sender lqi d :
  Neighbors.record_lqa nb sender lqi = Ok nb' ->
  Neighbors.end_device_child_eui64 (Neighbors.record_inbound_activity nb' sender) d = Neighbors.end_device_child_eui64 nb d.
Proof.
  intros Hr. trans (Neighbors.end_device_child_eui64 nb' d).
  - unfold Neighbors.record_inbound_activity. destruct (Neighbors.find_entry _ nb') as [[x e]|]; [by apply child_modified|done].
  - revert Hr. unfold Neighbors.record_lqa. destruct (Neighbors.find_entry _ nb) as [[x e]|].
    + intros (m & Hm & [= <-])%bind_ok. unfold Neighbors.push_lqa in Hm. apply bind_ok in Hm as (e0 & _ & Hm). apply bind_ok in Hm as (r & _ & [= <-]).
      by apply child_modified.
    + intros (r0 & _ & Hm)%bind_ok. by apply bind_ok in Hm as (r & _ & [= <-]).
Qed.

(** ** A source route followed to its end

    [net] gives the tables of each relay; [carry] forwards a frame from relay to relay, each running
    [relay_unicast_nwk_frame], until it is at its destination. The fuel is the number of relays. *)
Section Carry.
Context (net : Nwk -> node) (lqi max : Z).

Fixpoint carry (fuel : nat) (f : NwkFrame.t) (at_ sender : Nwk) : option (list Nwk * NwkFrame.t) :=
  if at_ =? destination (nwk_header f) then Some ([], f)
  else
    match fuel with
    | O => None
    | S fuel =>
        match relay_unicast_nwk_frame (net at_) f sender lqi max with
        | Ok (Some (f', next), _) =>
            '(path, arrived) ← carry fuel f' next at_;
            Some (at_ :: path, arrived)
        | _ => None
        end
    end.

(** The frame is at relay [i] of its route. *)
Record in_transit (f : NwkFrame.t) (relays : list Nwk) (i : nat) : Prop := {
  it_route : source_route (nwk_header f) = Some (mkSourceRoute (Z.of_nat i) relays);
  it_radius : Z.of_nat (S i) < radius (nwk_header f);
  it_payload : exists bs, payload f = Opaque bs
}.

(** The relay [a] has the destination as its end device child. *)
Definition parent_of (a dest : Nwk) : bool := bool_decide (is_Some (Neighbors.end_device_child_eui64 (n_neighbors (net a)) dest)).

(** The relays that a frame for [dest] visits of those ahead of it: all of them, but none after the
    parent of the destination, and none from the destination on should the list name it. *)
Fixpoint visited (dest : Nwk) (ahead : list Nwk) : list Nwk :=
  match ahead with
  | [] => []
  | a :: ahead => if a =? dest then [] else a :: (if parent_of a dest then [] else visited dest ahead)
  end.

(** The same message: who it is from and to, and what it carries. *)
Definition same_message (f g : NwkFrame.t) : Prop :=
  destination (nwk_header g) = destination (nwk_header f) /\ source (nwk_header g) = source (nwk_header f) /\ payload g = payload f.

Lemma clear_initiator_header n h : exists c, (clear_end_device_initiator_for_relay n h).2 = set_control h c.
Proof.
  unfold clear_end_device_initiator_for_relay. destruct (_ || _); [|by eexists].
  exists (frame_control h). by destruct h.
Qed.

Lemma relay_step f relays i at_ sender :
  in_transit f relays i -> relays !! i = Some at_ -> own_address (net at_) = at_ ->
  NeighborFacts.inv (n_neighbors (net at_)) ->
  exists f' next s', relay_unicast_nwk_frame (net at_) f sender lqi max = Ok (Some (f', next), s') /\
    same_message f f' /\ radius (nwk_header f') = radius (nwk_header f) - 1 /\
    (if parent_of at_ (destination (nwk_header f)) then next = destination (nwk_header f)
     else match i with
          | O => next = destination (nwk_header f)
          | S j => relays !! j = Some next /\ in_transit f' relays j
          end).
Proof.
  intros [Hr Hrad [bs Hp]] Hat Hown Hinv. destruct (NeighborFacts.record_lqa_ok (n_neighbors (net at_)) sender lqi Hinv) as (nb & Hl & _).
  unfold parent_of. rewrite <- (child_recorded _ _ _ _ (destination (nwk_header f)) Hl).
  unfold relay_unicast_nwk_frame. rewrite Hl. cbn [mbind res_bind]. set (nb' := Neighbors.record_inbound_activity nb sender).
  cbn [nwk_header with_radius set_header radius own_address payload aux_header]. rewrite Hown, Hp.
  assert (saturating_sub (radius (nwk_header f)) 1 = radius (nwk_header f) - 1) as -> by (unfold saturating_sub; lia).
  rewrite (proj2 (Z.eqb_neq _ _)) by lia. cbn [append_to_route_record].
  match goal with |- context [clear_end_device_initiator_for_relay nb' ?h0] => set (h := h0) end.
  destruct (clear_initiator_header nb' h) as [c ->].
  assert (source_route (set_control h c) = Some (mkSourceRoute (Z.of_nat i) relays)) as Hr' by (subst h; exact Hr).
  unfold transit_next_hop. rewrite Hr'. unfold follow_source_route. cbn [relay_index NwkFrame.relays].
  destruct i as [|j].
  - cbn [Z.of_nat]. rewrite Z.eqb_refl. cbn [mbind res_bind]. eexists _, _, _. split; [reflexivity|].
    subst h. split; [unfold same_message; by rewrite Hp|]. split; [reflexivity|]. by destruct (bool_decide _).
  - rewrite (proj2 (Z.eqb_neq _ _)) by lia. rewrite Nat2Z.id, Hat. cbn [own_address]. rewrite (bool_decide_true (Some at_ = Some at_)) by done. cbn [negb].
    destruct (lookup_lt_is_Some_2 relays j) as [next Hnext]; [apply lookup_lt_Some in Hat; lia|].
    replace (Z.to_nat (Z.of_nat (S j) - 1)) with j by lia. rewrite Hnext. cbn [unwrap mbind res_bind].
    eexists _, _, _. split; [reflexivity|]. subst h. split; [unfold same_message; by rewrite Hp|]. split; [reflexivity|].
    change (destination (set_control (nwk_header (with_radius f _)) c)) with (destination (nwk_header f)).
    destruct (bool_decide _); [reflexivity|]. split; [done|]. constructor.
    + cbn. do 2 f_equal. lia.
    + cbn. lia.
    + by exists bs.
Qed.

Lemma reverse_take_S (l : list Nwk) i x : l !! i = Some x -> reverse (take (S i) l) = x :: reverse (take i l).
Proof. intros Hx. rewrite (take_S_r l i x Hx), reverse_snoc. done. Qed.

Lemma carry_arrived fuel f sender : carry fuel f (destination (nwk_header f)) sender = Some ([], f).
Proof. destruct fuel; cbn [carry]; by rewrite Z.eqb_refl. Qed.

Lemma carry_relayed fuel f at_ sender f' next s' :
  at_ <> destination (nwk_header f) ->
  relay_unicast_nwk_frame (net at_) f sender lqi max = Ok (Some (f', next), s') ->
  carry (S fuel) f at_ sender = '(path, arrived) ← carry fuel f' next at_; Some (at_ :: path, arrived).
Proof. intros Hne Hr. cbn [carry]. by rewrite (proj2 (Z.eqb_neq _ _) Hne), Hr. Qed.

Lemma same_message_trans f g h : same_message f g -> same_message g h -> same_message f h.
Proof. unfold same_message. intuition congruence. Qed.

Lemma carry_from relays i :
  (forall a, a ∈ relays -> own_address (net a) = a /\ NeighborFacts.inv (n_neighbors (net a))) ->
  forall f at_ sender, in_transit f relays i -> relays !! i = Some at_ ->
  exists arrived, let path := visited (destination (nwk_header f)) (reverse (take (S i) relays)) in
    carry (S i) f at_ sender = Some (path, arrived) /\
    same_message f arrived /\ radius (nwk_header arrived) = radius (nwk_header f) - Z.of_nat (length path).
Proof.
  intros Hnet. induction i as [|i IH]; intros f at_ sender Ht Hat; rewrite (reverse_take_S _ _ _ Hat); cbn [visited].
  all: destruct (Z.eqb_spec at_ (destination (nwk_header f))) as [->|Hne];
    [exists f; rewrite carry_arrived; cbn; rewrite Z.sub_0_r; by split_and!|].
  all: destruct (Hnet at_) as [Ho Hn]; [by eapply list_elem_of_lookup_2|].
  all: destruct (relay_step f relays _ at_ sender Ht Hat Ho Hn) as (f' & next & s' & Hstep & Hm & Hrad & Hnext).
  all: rewrite (carry_relayed _ _ _ _ _ _ _ Hne Hstep).
  all: assert (forall fuel, next = destination (nwk_header f) -> carry fuel f' next at_ = Some ([], f')) as Hlast
    by (intros fuel ->; pose proof Hm as (<- & _ & _); apply carry_arrived).
  - rewrite Hlast by (by destruct (parent_of _ _)). exists f'. cbv zeta. destruct (parent_of _ _); cbn [visited reverse take rev_append length]; (split_and!; [done|done|by rewrite Hrad]).
  - destruct (parent_of _ _) eqn:Hpar.
    + rewrite Hlast by done. exists f'. split_and!; [done|done|by rewrite Hrad].
    + destruct Hnext as [Hj Ht']. pose proof Hm as (Hdest & _ & _). destruct (IH f' next at_ Ht' Hj) as (g & Hg & Hm' & Hr').
      rewrite Hdest in Hg, Hr'. exists g. cbv zeta in *. rewrite Hg. split_and!; [done|by eapply same_message_trans|]. rewrite Hr', Hrad. cbn [length]. lia.
Qed.
End Carry.

(** C31: a source route delivers: a data frame sent along a relay list by [resolve], with a radius
    greater than the number of relays, reaches its destination when each relay runs
    [relay_unicast_nwk_frame]. It visits exactly the relays of the list, from the last to the first,
    one after the other; only a relay that has the destination as its end device child hands it over
    at once and skips those after it (and a list that names the destination itself ends there). None
    of them drops it, and it arrives with its addresses and payload intact and its radius reduced by
    one per relay visited. *)
Theorem source_route_delivers net lqi max f f' next relays me :
  sent_along f f' next relays -> (exists bs, payload f = Opaque bs) ->
  Z.of_nat (length relays) < radius (nwk_header f) ->
  (forall a, a ∈ relays -> own_address (net a) = a /\ NeighborFacts.inv (n_neighbors (net a))) ->
  exists arrived, let path := visited net (destination (nwk_header f)) (reverse relays) in
    carry net lqi max (length relays) f' next me = Some (path, arrived) /\
    same_message f arrived /\ radius (nwk_header arrived) = radius (nwk_header f) - Z.of_nat (length path).
Proof.
  intros [-> Hlast] Hp Hrad Hnet. rewrite last_lookup in Hlast. destruct relays as [|r rs]; [done|].
  cbn [length Nat.pred] in Hlast. set (l := r :: rs) in *.
  destruct (carry_from net lqi max l (length rs) Hnet
    (set_source_route f (mkSourceRoute (Z.of_nat (length l) - 1) l)) next me) as (g & Hc & Hm & Hr).
  - constructor; cbn; [do 2 f_equal; subst l; cbn; lia|subst l; cbn in Hrad; lia|done].
  - exact Hlast.
  - exists g. change (S (length rs)) with (length l) in *. rewrite firstn_all in Hc, Hr. split_and!; [exact Hc|done|exact Hr].
Qed.
End NextHop.
