(* ===== verification/ApsFrame.v ===== *)
(** * APS frames: [src/crates/ziggurat-zigbee/src/aps/frame.rs]

    Data, acknowledgment and command frames with their plain and secured forms, the auxiliary
    header, the protection of payloads, and the dispatch of [parse_aps_frame]. The bit codecs of the
    packed fields and CCM are the parameters of [AbstractBits] and [Crypto]; the error type and the
    security control field are those of the NWK layer. *)

From S2P Require Import Prelude Types AbstractBits Crypto NwkFrame.

Module ApsFrame.
Import NwkFrame(ParseError, UnexpectedEnd, TooLong, InvalidDiscriminant, Unsupported, Bits, Address, Decrypt).
Import NwkFrame(NwkSecurityHeaderControlField, mkSecurityControl, NwkSecurityLevel, NoSecurity, EncMic32, NetworkKey).
Import NwkFrame(security_level, key_id, extended_nonce, require_verified_frame_counter, NwkSecurityHeaderKeyId).
Import NwkFrame(control_bytes, option_bytes, parse_ieee).
#[export] Existing Instances NwkFrame.NwkSecurityHeaderKeyId_eq_dec NwkFrame.NwkSecurityLevel_eq_dec.

(** ** Data *)
Inductive ApsFrameType : Type := TypeData | TypeCommand | TypeAck | TypeInterpan.
Inductive ApsDeliveryMode : Type := Unicast | Broadcast | Multicast.

#[export] Instance ApsFrameType_eq_dec : EqDecision ApsFrameType.
Proof. solve_decision. Defined.
#[export] Instance ApsDeliveryMode_eq_dec : EqDecision ApsDeliveryMode.
Proof. solve_decision. Defined.

Record ApsFrameControl := mkControl {
  frame_type : ApsFrameType;
  delivery_mode : ApsDeliveryMode;
  reserved1 : Z;
  security : bool;
  ack_request : bool;
  extended_header : bool
}.

Record ApsAckFrameControl := mkAckControl {
  ack_frame_type : ApsFrameType;
  ack_delivery_mode : ApsDeliveryMode;
  ack_format : bool;
  ack_security : bool;
  ack_ack_request : bool;
  ack_extended_header : bool
}.

Inductive ApsFragmentation : Type := NotFragmented | FirstBlock | Block.

Record ApsExtendedFrameControl := mkExtendedControl { fragmentation : ApsFragmentation }.

Record ApsAckFrame := mkAck {
  ack_control : ApsAckFrameControl;
  ack_destination_endpoint : option Z;
  ack_cluster_id : option Z;
  ack_profile_id : option Z;
  ack_source_endpoint : option Z;
  ack_counter : Z
}.

Record ApsDataHeader := mkDataHeader {
  frame_control : ApsFrameControl;
  group_id : option Z;
  destination_endpoint : option Z;
  cluster_id : Z;
  profile_id : Z;
  source_endpoint : Z;
  counter : Z
}.

(** [ApsDataFrame] repeats the fields of [ApsDataHeader]; [header] and [into_frame] are the two
    directions. *)
Record ApsDataFrame := into_frame {
  header : ApsDataHeader;
  asdu : bytes
}.

Definition APS_STATUS_SUCCESS : Z := 0x00.
Definition APS_STATUS_SECURITY_FAIL : Z := 0xAD.

Inductive ApsCommandId : Type :=
| IdTransportKey | IdUpdateDevice | IdRemoveDevice | IdRequestKey | IdSwitchKey | IdTunnel | IdVerifyKey | IdConfirmKey
| IdRelayMessageDownstream | IdRelayMessageUpstream.

Definition all_command_ids : list ApsCommandId :=
  [IdTransportKey; IdUpdateDevice; IdRemoveDevice; IdRequestKey; IdSwitchKey; IdTunnel; IdVerifyKey; IdConfirmKey;
   IdRelayMessageDownstream; IdRelayMessageUpstream].

(** [id as u8] and [ApsCommandId::try_from]. *)
Definition command_id_to_u8 (id : ApsCommandId) : Z :=
  match id with
  | IdTransportKey => 0x05 | IdUpdateDevice => 0x06 | IdRemoveDevice => 0x07 | IdRequestKey => 0x08 | IdSwitchKey => 0x09
  | IdTunnel => 0x0E | IdVerifyKey => 0x0F | IdConfirmKey => 0x10 | IdRelayMessageDownstream => 0x11
  | IdRelayMessageUpstream => 0x12
  end.
Definition command_id_of_u8 (b : Z) : option ApsCommandId := find (fun id => command_id_to_u8 id =? b) all_command_ids.

Inductive ApsStandardKeyType : Type := StandardNetworkKey | ApplicationLinkKey | TrustCenterLinkKey.

Definition key_type_to_u8 (ty : ApsStandardKeyType) : Z :=
  match ty with StandardNetworkKey => 0x01 | ApplicationLinkKey => 0x03 | TrustCenterLinkKey => 0x04 end.
Definition key_type_of_u8 (b : Z) : option ApsStandardKeyType :=
  find (fun ty => key_type_to_u8 ty =? b) [StandardNetworkKey; ApplicationLinkKey; TrustCenterLinkKey].

Record ApsTrustCenterLinkKeyDescriptor := mkTclkDescriptor {
  tc_key : Key;
  tc_destination_address : Eui64;
  tc_source_address : Eui64
}.

Record ApsNetworkKeyDescriptor := mkNetworkKeyDescriptor {
  nk_key : Key;
  nk_sequence_number : Z;
  nk_destination_address : Eui64;
  nk_source_address : Eui64
}.

Record ApsApplicationLinkKeyDescriptor := mkApplicationKeyDescriptor {
  al_key : Key;
  al_partner_address : Eui64;
  al_initiator_flag : Z
}.

Inductive ApsTransportKeyDescriptor : Type :=
| DescribeTrustCenterLinkKey (d : ApsTrustCenterLinkKeyDescriptor)
| DescribeNetworkKey (d : ApsNetworkKeyDescriptor)
| DescribeApplicationLinkKey (d : ApsApplicationLinkKeyDescriptor).

Record ApsTransportKeyCommandFrame := mkTransportKey {
  standard_key_type : ApsStandardKeyType;
  key_descriptor : ApsTransportKeyDescriptor
}.

Inductive ApsUpdateDeviceStatus : Type :=
| StandardDeviceSecuredRejoin | StandardDeviceUnsecuredJoin | DeviceLeft | StandardDeviceTrustCenterRejoin.

Record ApsUpdateDeviceCommandFrame := mkUpdateDevice {
  ud_device_address : Eui64;
  ud_device_short_address : Nwk;
  ud_status : ApsUpdateDeviceStatus
}.

Record ApsRemoveDeviceCommandFrame := mkRemoveDevice { target_address : Eui64 }.

Inductive ApsRequestKeyType : Type := RequestApplicationLinkKey | RequestTrustCenterLinkKey.

Definition request_type_to_u8 (ty : ApsRequestKeyType) : Z :=
  match ty with RequestApplicationLinkKey => 0x02 | RequestTrustCenterLinkKey => 0x04 end.
Definition request_type_of_u8 (b : Z) : option ApsRequestKeyType :=
  find (fun ty => request_type_to_u8 ty =? b) [RequestApplicationLinkKey; RequestTrustCenterLinkKey].

Record ApsRequestKeyCommandFrame := mkRequestKey {
  rk_key_type : ApsRequestKeyType;
  rk_partner_address : option Eui64
}.

Record ApsSwitchKeyCommandFrame := mkSwitchKey { sk_sequence_number : Z }.

Record ApsTunnelCommandFrame := mkTunnel {
  tu_destination_address : Eui64;
  tunneled_frame : bytes
}.

Record ApsVerifyKeyCommandFrame := mkVerifyKey {
  vk_standard_key_type : ApsStandardKeyType;
  vk_source_address : Eui64;
  initiator_verify_key_hash : Key
}.

Record ApsConfirmKeyCommandFrame := mkConfirmKey {
  ck_status : Z;
  ck_standard_key_type : ApsStandardKeyType;
  ck_destination_address : Eui64
}.

Inductive ApsCommandFrameCommand : Type :=
| TransportKey (c : ApsTransportKeyCommandFrame)
| UpdateDevice (c : ApsUpdateDeviceCommandFrame)
| RemoveDevice (c : ApsRemoveDeviceCommandFrame)
| RequestKey (c : ApsRequestKeyCommandFrame)
| SwitchKey (c : ApsSwitchKeyCommandFrame)
| Tunnel (c : ApsTunnelCommandFrame)
| VerifyKey (c : ApsVerifyKeyCommandFrame)
| ConfirmKey (c : ApsConfirmKeyCommandFrame).

Definition command_id (c : ApsCommandFrameCommand) : ApsCommandId :=
  match c with
  | TransportKey _ => IdTransportKey
  | UpdateDevice _ => IdUpdateDevice
  | RemoveDevice _ => IdRemoveDevice
  | RequestKey _ => IdRequestKey
  | SwitchKey _ => IdSwitchKey
  | Tunnel _ => IdTunnel
  | VerifyKey _ => IdVerifyKey
  | ConfirmKey _ => IdConfirmKey
  end.

Record ApsCommandFrame := mkCommand {
  cmd_control : ApsFrameControl;
  cmd_counter : Z;
  command : ApsCommandFrameCommand
}.

Record ApsAuxHeader := mkAux {
  security_control : NwkSecurityHeaderControlField;
  frame_counter : Z;
  extended_source : option Eui64;
  key_sequence_number : option Z
}.

Record EncryptedApsCommandFrame := mkEncryptedCommand {
  ec_control : ApsFrameControl;
  ec_counter : Z;
  ec_aux_header : ApsAuxHeader;
  ec_ciphertext : bytes
}.

Record EncryptedApsDataFrame := mkEncryptedData {
  ed_header : ApsDataHeader;
  ed_aux_header : ApsAuxHeader;
  ed_ciphertext : bytes
}.

Record EncryptedApsAckFrame := mkEncryptedAck {
  ea_header : ApsAckFrame;
  ea_aux_header : ApsAuxHeader;
  ea_ciphertext : bytes
}.

Inductive ApsFrame : Type :=
| Data (f : ApsDataFrame)
| EncryptedData (f : EncryptedApsDataFrame)
| Ack (f : ApsAckFrame)
| EncryptedAck (f : EncryptedApsAckFrame)
| Command (f : ApsCommandFrame)
| EncryptedCommand (f : EncryptedApsCommandFrame).

(** The codecs of the packed structures. *)
Class ApsCodecs := {
  control_bits :: AbstractBits ApsFrameControl;
  ack_control_bits :: AbstractBits ApsAckFrameControl;
  extended_control_bits :: AbstractBits ApsExtendedFrameControl;
  tclk_descriptor_bits :: AbstractBits ApsTrustCenterLinkKeyDescriptor;
  network_key_descriptor_bits :: AbstractBits ApsNetworkKeyDescriptor;
  application_key_descriptor_bits :: AbstractBits ApsApplicationLinkKeyDescriptor;
  update_device_bits :: AbstractBits ApsUpdateDeviceCommandFrame;
  remove_device_bits :: AbstractBits ApsRemoveDeviceCommandFrame;
  switch_key_bits :: AbstractBits ApsSwitchKeyCommandFrame;
  verify_key_bits :: AbstractBits ApsVerifyKeyCommandFrame;
  confirm_key_bits :: AbstractBits ApsConfirmKeyCommandFrame
}.

(** [FrameBytes::from_slice(..).map_err(|_| ParseError::TooLong)]. *)
Definition frame_bytes (what : string) (bs : bytes) : res ParseError bytes :=
  if (length bs <=? MAX_PHY_PACKET_SIZE)%nat then Ok bs else Err (TooLong what).

(** [from_abstract_bytes(..)?]. *)
Definition parse_bits `{AbstractBits T} (bs : bytes) : res ParseError T := ok_or Bits (from_abstract_bytes bs).

Section Codec.
Context `{!ApsCodecs, !AbstractBits NwkSecurityHeaderControlField, !Ccm}.

(** ** Acknowledgments *)
Definition ack_from_bytes (bs : bytes) : res ParseError ApsAckFrame :=
  match bs with
  | [] => Err (UnexpectedEnd "ApsAckFrame")
  | _ :: remaining =>
      control ← parse_bits bs;
      if negb (bool_decide (ack_frame_type control = TypeAck)) then Err (Unsupported "non-Ack frame type for ApsAckFrame")
      else if ack_format control then
        match remaining with
        | [] => Err (UnexpectedEnd "ApsAckFrame")
        | counter :: _ => Ok (mkAck control None None None None counter)
        end
      else
        match remaining with
        | dest :: c0 :: c1 :: p0 :: p1 :: src :: counter :: _ =>
            Ok (mkAck control (Some dest) (Some (from_le_bytes [c0; c1])) (Some (from_le_bytes [p0; p1])) (Some src) counter)
        | _ => Err (UnexpectedEnd "ApsAckFrame")
        end
  end.

Definition ack_to_bytes {E} (f : ApsAckFrame) : res E bytes :=
  bs ← extend_abstract_bits [] (ack_control f);
  Ok (bs ++ option_bytes (to_le_bytes 1) (ack_destination_endpoint f) ++ option_bytes (to_le_bytes 2) (ack_cluster_id f)
    ++ option_bytes (to_le_bytes 2) (ack_profile_id f) ++ option_bytes (to_le_bytes 1) (ack_source_endpoint f)
    ++ to_le_bytes 1 (ack_counter f)).

(** ** Data frames *)

(** The extended header is only used for fragmentation, which is refused. *)
Definition refuse_extended (bs : bytes) : ParseError :=
  match from_abstract_bytes (T:=ApsExtendedFrameControl) bs with
  | None => Bits
  | Some c =>
      let extended_header_len := match fragmentation c with NotFragmented => 1%nat | FirstBlock | Block => 2%nat end in
      if (length bs <? extended_header_len)%nat then UnexpectedEnd "APS extended header" else Unsupported "APS fragmentation"
  end.

(** The fields after the destination. *)
Definition data_fields (control : ApsFrameControl) (group dest : option Z) (bs : bytes) : res ParseError (ApsDataHeader * bytes) :=
  match bs with
  | c0 :: c1 :: p0 :: p1 :: src :: counter :: rest =>
      if extended_header control then Err (refuse_extended rest)
      else Ok (mkDataHeader control group dest (from_le_bytes [c0; c1]) (from_le_bytes [p0; p1]) src counter, rest)
  | _ => Panic
  end.

Definition data_header_deserialize (bs : bytes) : res ParseError (ApsDataHeader * bytes) :=
  if (length bs <? 8)%nat then Err (UnexpectedEnd "ApsDataFrame")
  else
    control ← parse_bits bs;
    let remaining := drop 1 bs in
    if negb (reserved1 control =? 0) then Err (Unsupported "APS frame control reserved bits")
    else if bool_decide (delivery_mode control = Multicast) then
      if (length remaining <? 8)%nat then Err (UnexpectedEnd "multicast ApsDataFrame")
      else data_fields control (Some (from_le_bytes (take 2 remaining))) None (drop 2 remaining)
    else
      match remaining with
      | [] => Panic
      | dest :: rest => data_fields control None (Some dest) rest
      end.

(** [ApsDataHeader::serialize_into]. *)
Definition data_header_serialize {E} (bs : bytes) (h : ApsDataHeader) : res E bytes :=
  bs ← extend_abstract_bits bs (frame_control h);
  Ok (bs ++ option_bytes (to_le_bytes 2) (group_id h) ++ option_bytes (to_le_bytes 1) (destination_endpoint h)
    ++ to_le_bytes 2 (cluster_id h) ++ to_le_bytes 2 (profile_id h) ++ to_le_bytes 1 (source_endpoint h) ++ to_le_bytes 1 (counter h)).

Definition data_from_bytes (bs : bytes) : res ParseError ApsDataFrame :=
  '(h, remaining) ← data_header_deserialize bs;
  asdu ← frame_bytes "ASDU" remaining;
  Ok (into_frame h asdu).

Definition data_to_bytes {E} (f : ApsDataFrame) : res E bytes :=
  bs ← data_header_serialize [] (header f);
  Ok (bs ++ asdu f).

(** ** Commands *)
Definition transport_key_from_bytes (bs : bytes) : res ParseError ApsTransportKeyCommandFrame :=
  match bs with
  | ty :: ((_ :: _) as rest) =>
      key_type ← ok_or (InvalidDiscriminant "ApsStandardKeyType" ty) (key_type_of_u8 ty);
      descriptor ←
        match key_type with
        | StandardNetworkKey => d ← parse_bits rest; Ok (DescribeNetworkKey d)
        | ApplicationLinkKey => d ← parse_bits rest; Ok (DescribeApplicationLinkKey d)
        | TrustCenterLinkKey => d ← parse_bits rest; Ok (DescribeTrustCenterLinkKey d)
        end;
      Ok (mkTransportKey key_type descriptor)
  | _ => Err (UnexpectedEnd "ApsTransportKeyCommandFrame")
  end.

Definition transport_key_to_bytes {E} (c : ApsTransportKeyCommandFrame) : res E bytes :=
  descriptor ← unwrap
    match key_descriptor c with
    | DescribeTrustCenterLinkKey d => to_abstract_bytes d
    | DescribeNetworkKey d => to_abstract_bytes d
    | DescribeApplicationLinkKey d => to_abstract_bytes d
    end;
  Ok (key_type_to_u8 (standard_key_type c) :: descriptor).

Definition request_key_from_bytes (bs : bytes) : res ParseError ApsRequestKeyCommandFrame :=
  match bs with
  | [] => Err (UnexpectedEnd "ApsRequestKeyCommandFrame")
  | ty :: rest =>
      key_type ← ok_or (InvalidDiscriminant "ApsRequestKeyType" ty) (request_type_of_u8 ty);
      match key_type with
      | RequestApplicationLinkKey =>
          '(partner, _) ← map_err Address (Eui64.deserialize rest); Ok (mkRequestKey key_type (Some partner))
      | RequestTrustCenterLinkKey => Ok (mkRequestKey key_type None)
      end
  end.

Definition request_key_to_bytes (c : ApsRequestKeyCommandFrame) : bytes :=
  request_type_to_u8 (rk_key_type c) :: option_bytes Eui64.to_bytes (rk_partner_address c).

Definition tunnel_from_bytes (bs : bytes) : res ParseError ApsTunnelCommandFrame :=
  '(dest, remaining) ← map_err Address (Eui64.deserialize bs);
  tunneled ← frame_bytes "tunneled frame" remaining;
  Ok (mkTunnel dest tunneled).

Definition tunnel_to_bytes (c : ApsTunnelCommandFrame) : bytes := Eui64.to_bytes (tu_destination_address c) ++ tunneled_frame c.

Definition command_body (id : ApsCommandId) (payload : bytes) : res ParseError ApsCommandFrameCommand :=
  match id with
  | IdTransportKey => c ← transport_key_from_bytes payload; Ok (TransportKey c)
  | IdUpdateDevice => c ← parse_bits payload; Ok (UpdateDevice c)
  | IdRemoveDevice => c ← parse_bits payload; Ok (RemoveDevice c)
  | IdRequestKey => c ← request_key_from_bytes payload; Ok (RequestKey c)
  | IdSwitchKey => c ← parse_bits payload; Ok (SwitchKey c)
  | IdTunnel => c ← tunnel_from_bytes payload; Ok (Tunnel c)
  | IdVerifyKey => c ← parse_bits payload; Ok (VerifyKey c)
  | IdConfirmKey => c ← parse_bits payload; Ok (ConfirmKey c)
  | IdRelayMessageDownstream | IdRelayMessageUpstream => Err (Unsupported "command ID for ApsCommandFrame")
  end.

Definition command_from_bytes (bs : bytes) : res ParseError ApsCommandFrame :=
  match bs with
  | _ :: counter :: id :: payload =>
      control ← parse_bits bs;
      command_id ← ok_or (InvalidDiscriminant "ApsCommandId" id) (command_id_of_u8 id);
      command ← command_body command_id payload;
      Ok (mkCommand control counter command)
  | _ => Err (UnexpectedEnd "ApsCommandFrame")
  end.

Definition payload_to_bytes {E} (f : ApsCommandFrame) : res E bytes :=
  body ←
    match command f with
    | TransportKey c => transport_key_to_bytes c
    | UpdateDevice c => unwrap (to_abstract_bytes c)
    | RemoveDevice c => unwrap (to_abstract_bytes c)
    | RequestKey c => Ok (request_key_to_bytes c)
    | SwitchKey c => unwrap (to_abstract_bytes c)
    | Tunnel c => Ok (tunnel_to_bytes c)
    | VerifyKey c => unwrap (to_abstract_bytes c)
    | ConfirmKey c => unwrap (to_abstract_bytes c)
    end;
  Ok (command_id_to_u8 (command_id (command f)) :: body).

(** [header_to_bytes] of a command frame and of its encrypted form. *)
Definition command_header {E} (control : ApsFrameControl) (counter : Z) : res E bytes :=
  bs ← extend_abstract_bits [] control; Ok (bs ++ [counter]).

Definition command_to_bytes {E} (f : ApsCommandFrame) : res E bytes :=
  bs ← command_header (cmd_control f) (cmd_counter f);
  payload ← payload_to_bytes f;
  Ok (bs ++ payload).

(** ** The auxiliary header *)
Definition aux_key_sequence (present : bool) (bs : bytes) : res ParseError (option Z * bytes) :=
  if present then
    match bs with
    | [] => Err (UnexpectedEnd "ApsAuxHeader key sequence number")
    | n :: rest => Ok (Some n, rest)
    end
  else Ok (None, bs).

Definition aux_deserialize (bs : bytes) : res ParseError (ApsAuxHeader * bytes) :=
  if (length bs <? 5)%nat then Err (UnexpectedEnd "ApsAuxHeader")
  else
    control ← parse_bits bs;
    let remaining := drop 1 bs in
    '(source, remaining') ← parse_ieee (extended_nonce control) (drop 4 remaining);
    '(sequence, rest) ← aux_key_sequence (bool_decide (key_id control = NetworkKey)) remaining';
    Ok (mkAux control (from_le_bytes (take 4 remaining)) source sequence, rest).

(** [ApsAuxHeader::serialize_into]. *)
Definition aux_serialize {E} (bs : bytes) (a : ApsAuxHeader) : res E bytes :=
  control ← control_bytes (security_control a);
  Ok (bs ++ control ++ to_le_bytes 4 (frame_counter a) ++ option_bytes Eui64.to_bytes (extended_source a)
        ++ option_bytes (fun n => [n]) (key_sequence_number a)).

Definition get_modified (a : ApsAuxHeader) (level : NwkSecurityLevel) : ApsAuxHeader :=
  let c := security_control a in
  mkAux (mkSecurityControl level (key_id c) (extended_nonce c) (require_verified_frame_counter c))
    (frame_counter a) (extended_source a) (key_sequence_number a).

Definition get_nonce {E} (a : ApsAuxHeader) (source : Eui64) : res E bytes :=
  control ← control_bytes (security_control a);
  Ok (Eui64.to_bytes source ++ to_le_bytes 4 (frame_counter a) ++ control).

(** ** Protection *)

(** The nonce and the authenticated data, with the level patched in. *)
Definition aps_protection {E} (a : ApsAuxHeader) (source : Eui64) (header : bytes) : res E (bytes * bytes) :=
  let modified := get_modified a EncMic32 in
  nonce ← get_nonce modified source;
  auth_data ← aux_serialize header modified;
  Ok (nonce, auth_data).

(** [FrameBytes::from_slice(..).expect(..)]. *)
Definition expect_frame_bytes {E} (bs : bytes) : res E bytes :=
  if (length bs <=? MAX_PHY_PACKET_SIZE)%nat then Ok bs else Panic.

Definition encrypt_aps_payload {E} (key : Key) (a : ApsAuxHeader) (header plaintext : bytes) : res E bytes :=
  source ← unwrap (extended_source a);
  protected ← aps_protection a source header;
  buffer ← expect_frame_bytes plaintext;
  Crypto.software_encrypt_ccm key protected.1 protected.2 buffer.

Definition decrypt_aps_payload (key : Key) (a : ApsAuxHeader) (source : Eui64) (header tagged_ciphertext : bytes)
    : res ParseError bytes :=
  protected ← aps_protection a (default source (extended_source a)) header;
  buffer ← expect_frame_bytes tagged_ciphertext;
  map_err Decrypt (Crypto.software_decrypt_ccm key protected.1 protected.2 buffer).

(** ** Secured frames *)
Definition encrypt_command {E} (f : ApsCommandFrame) (key : Key) (a : ApsAuxHeader) : res E EncryptedApsCommandFrame :=
  header ← command_header (cmd_control f) (cmd_counter f);
  payload ← payload_to_bytes f;
  ciphertext ← encrypt_aps_payload key a header payload;
  Ok (mkEncryptedCommand (cmd_control f) (cmd_counter f) a ciphertext).

Definition encrypted_command_from_bytes (bs : bytes) : res ParseError EncryptedApsCommandFrame :=
  if (length bs <? 7)%nat then Err (UnexpectedEnd "EncryptedApsCommandFrame")
  else
    control ← parse_bits bs;
    match bs with
    | _ :: counter :: rest =>
        '(aux, remaining) ← aux_deserialize rest;
        ciphertext ← frame_bytes "ciphertext" remaining;
        Ok (mkEncryptedCommand control counter aux ciphertext)
    | _ => Panic
    end.

Definition encrypted_command_to_bytes {E} (f : EncryptedApsCommandFrame) : res E bytes :=
  bs ← command_header (ec_control f) (ec_counter f);
  bs ← aux_serialize bs (ec_aux_header f);
  Ok (bs ++ ec_ciphertext f).

Definition decrypt_command (f : EncryptedApsCommandFrame) (key : Key) : res ParseError ApsCommandFrame :=
  source ← ok_or (Unsupported "APS command frames without an extended nonce") (extended_source (ec_aux_header f));
  header ← command_header (ec_control f) (ec_counter f);
  plaintext ← decrypt_aps_payload key (ec_aux_header f) source header (ec_ciphertext f);
  command_from_bytes (header ++ plaintext).

Definition encrypt_data {E} (f : ApsDataFrame) (key : Key) (a : ApsAuxHeader) : res E EncryptedApsDataFrame :=
  h ← data_header_serialize [] (header f);
  ciphertext ← encrypt_aps_payload key a h (asdu f);
  Ok (mkEncryptedData (header f) a ciphertext).

Definition encrypted_data_from_bytes (bs : bytes) : res ParseError EncryptedApsDataFrame :=
  '(h, remaining) ← data_header_deserialize bs;
  '(aux, remaining) ← aux_deserialize remaining;
  ciphertext ← frame_bytes "ciphertext" remaining;
  Ok (mkEncryptedData h aux ciphertext).

Definition encrypted_data_to_bytes {E} (f : EncryptedApsDataFrame) : res E bytes :=
  bs ← data_header_serialize [] (ed_header f);
  bs ← aux_serialize bs (ed_aux_header f);
  Ok (bs ++ ed_ciphertext f).

Definition decrypt_data (f : EncryptedApsDataFrame) (key : Key) (source : Eui64) : res ParseError ApsDataFrame :=
  h ← data_header_serialize [] (ed_header f);
  asdu ← decrypt_aps_payload key (ed_aux_header f) source h (ed_ciphertext f);
  Ok (into_frame (ed_header f) asdu).

Definition encrypt_ack {E} (f : ApsAckFrame) (key : Key) (a : ApsAuxHeader) : res E EncryptedApsAckFrame :=
  h ← ack_to_bytes f;
  ciphertext ← encrypt_aps_payload key a h [];
  Ok (mkEncryptedAck f a ciphertext).

Definition encrypted_ack_from_bytes (bs : bytes) : res ParseError EncryptedApsAckFrame :=
  h ← ack_from_bytes bs;
  let header_len := if ack_format (ack_control h) then 2%nat else 8%nat in
  if (length bs <? header_len)%nat then Panic
  else
    '(aux, remaining) ← aux_deserialize (drop header_len bs);
    ciphertext ← frame_bytes "ciphertext" remaining;
    Ok (mkEncryptedAck h aux ciphertext).

Definition encrypted_ack_to_bytes {E} (f : EncryptedApsAckFrame) : res E bytes :=
  bs ← ack_to_bytes (ea_header f);
  bs ← aux_serialize bs (ea_aux_header f);
  Ok (bs ++ ea_ciphertext f).

Definition decrypt_ack (f : EncryptedApsAckFrame) (key : Key) (source : Eui64) : res ParseError ApsAckFrame :=
  h ← ack_to_bytes (ea_header f);
  _ ← decrypt_aps_payload key (ea_aux_header f) source h (ea_ciphertext f);
  Ok (ea_header f).

(** ** Dispatch *)

(** [ApsFrameType::try_from]: every two-bit value is a frame type. *)
Definition frame_type_of_bits (b : Z) : option ApsFrameType :=
  match b with 0 => Some TypeData | 1 => Some TypeCommand | 2 => Some TypeAck | 3 => Some TypeInterpan | _ => None end.

Definition parse_aps_frame (bs : bytes) : res ParseError ApsFrame :=
  match bs with
  | [] => Err (UnexpectedEnd "ApsFrame")
  | first :: _ =>
      ty ← ok_or (InvalidDiscriminant "ApsFrameType" (Z.land first 3)) (frame_type_of_bits (Z.land first 3));
      let security := negb (Z.land first 32 =? 0) in
      match ty, security with
      | TypeCommand, true => f ← encrypted_command_from_bytes bs; Ok (EncryptedCommand f)
      | TypeCommand, false => f ← command_from_bytes bs; Ok (Command f)
      | TypeData, true => f ← encrypted_data_from_bytes bs; Ok (EncryptedData f)
      | TypeAck, true => f ← encrypted_ack_from_bytes bs; Ok (EncryptedAck f)
      | TypeData, false => f ← data_from_bytes bs; Ok (Data f)
      | TypeAck, false => f ← ack_from_bytes bs; Ok (Ack f)
      | TypeInterpan, _ => Err (Unsupported "Interpan")
      end
  end.
End Codec.
End ApsFrame.
