(* ===== verification/ApsFrameFacts.v ===== *)
(** * Properties of the APS frame codec and of the APS payload protection *)

From S2P Require Import Prelude Types AbstractBits Crypto CryptoFacts NwkFrame NwkFrameFacts ApsFrame.

Module ApsFrameFacts.
Import ApsFrame.
Import NwkFrame(NwkSecurityHeaderControlField, ParseError, EncMic32, NetworkKey, key_id, extended_nonce, control_bytes, option_bytes, parse_ieee).
Import NwkFrameFacts(present_ok).

(** The two-bit code of a frame type. *)
Definition type_code (ty : ApsFrameType) : Z :=
  match ty with TypeData => 0 | TypeCommand => 1 | TypeAck => 2 | TypeInterpan => 3 end.

(** What the codec of the packed structures is relied on for: the laws of each, the sizes of the
    control bytes and of the key descriptors, and the bits of the control byte [parse_aps_frame]
    looks at itself (fields are packed from the least significant bit in the order declared). *)
Class ApsCodecsLaws `{ApsCodecs} := {
  control_laws :: AbstractBitsLaws ApsFrameControl;
  control_size :: FixedSize ApsFrameControl 1;
  control_type_bits c b : canonical c -> write_abstract_bits c = Some [b] -> Z.land b 3 = type_code (frame_type c);
  control_security_bit c b : canonical c -> write_abstract_bits c = Some [b] -> Z.land b 32 = if security c then 32 else 0;
  ack_control_laws :: AbstractBitsLaws ApsAckFrameControl;
  ack_control_size :: FixedSize ApsAckFrameControl 1;
  ack_control_type_bits c b : canonical c -> write_abstract_bits c = Some [b] -> Z.land b 3 = type_code (ack_frame_type c);
  ack_control_security_bit c b : canonical c -> write_abstract_bits c = Some [b] -> Z.land b 32 = if ack_security c then 32 else 0;
  tclk_descriptor_laws :: AbstractBitsLaws ApsTrustCenterLinkKeyDescriptor;
  tclk_descriptor_size :: FixedSize ApsTrustCenterLinkKeyDescriptor 32;
  network_key_descriptor_laws :: AbstractBitsLaws ApsNetworkKeyDescriptor;
  network_key_descriptor_size :: FixedSize ApsNetworkKeyDescriptor 33;
  application_key_descriptor_laws :: AbstractBitsLaws ApsApplicationLinkKeyDescriptor;
  application_key_descriptor_size :: FixedSize ApsApplicationLinkKeyDescriptor 25;
  update_device_laws :: AbstractBitsLaws ApsUpdateDeviceCommandFrame;
  remove_device_laws :: AbstractBitsLaws ApsRemoveDeviceCommandFrame;
  switch_key_laws :: AbstractBitsLaws ApsSwitchKeyCommandFrame;
  verify_key_laws :: AbstractBitsLaws ApsVerifyKeyCommandFrame;
  confirm_key_laws :: AbstractBitsLaws ApsConfirmKeyCommandFrame
}.

(** The fields of the security control byte are enumerations and flags, which always fit. *)
Class SecurityControlLaws `{!AbstractBits NwkSecurityHeaderControlField} := {
  security_control_laws :: AbstractBitsLaws NwkSecurityHeaderControlField;
  security_control_size :: FixedSize NwkSecurityHeaderControlField 1;
  security_control_fits (c : NwkSecurityHeaderControlField) : canonical c
}.

Section Facts.
Context `{!ApsCodecs, !ApsCodecsLaws, !AbstractBits NwkSecurityHeaderControlField, !SecurityControlLaws}.

(** ** Control bytes *)
Lemma parse_bits_written `{AbstractBitsLaws T} (v : T) :
  canonical v -> exists bs, write_abstract_bits v = Some bs /\ forall rest, parse_bits (bs ++ rest) = Ok v.
Proof.
  intros (bs & Hw & _ & Hr)%read_after_write. exists bs. split; [done|]. intros rest.
  unfold parse_bits, from_abstract_bytes. by rewrite Hr.
Qed.

Lemma control_byte_written `{!AbstractBits T, !AbstractBitsLaws T, !FixedSize T 1} (v : T) :
  canonical v ->
  exists b, write_abstract_bits v = Some [b] /\ (forall E (pre : bytes), extend_abstract_bits (E:=E) pre v = Ok (pre ++ [b])) /\
    forall rest, parse_bits (b :: rest) = Ok v.
Proof.
  intros (bs & Hw & Hr)%parse_bits_written. pose proof (write_size _ _ Hw) as Hl. destruct bs as [|b [|]]; try done.
  exists b. split_and!; [done| |done]. intros E pre. apply extend_written; [done|]. unfold MAX_PHY_PACKET_SIZE. cbn. lia.
Qed.

Lemma security_control_written (c : NwkSecurityHeaderControlField) :
  exists b, (forall E, control_bytes (E:=E) c = Ok [b]) /\ forall rest, parse_bits (b :: rest) = Ok c.
Proof.
  destruct (control_byte_written c (security_control_fits c)) as (b & Hw & _ & Hr). exists b. split; [|done].
  intros E. unfold control_bytes. by rewrite Hw.
Qed.

(** ** Words *)
Lemma le_word z : is_u16 z -> exists lo hi, to_le_bytes 2 z = [lo; hi] /\ from_le_bytes [lo; hi] = z.
Proof.
  intros Hz. exists (z mod 256), (z / 256 mod 256). split; [done|]. exact (from_to_le_bytes 2 z Hz).
Qed.

Lemma le_byte z : is_u8 z -> to_le_bytes 1 z = [z].
Proof. intros Hz. cbn. by rewrite Z.mod_small. Qed.

(** ** Acknowledgments *)
Record ack_ok (f : ApsAckFrame) : Prop := {
  k_control : canonical (ack_control f);
  k_type : ack_frame_type (ack_control f) = TypeAck;
  k_destination : present_ok (negb (ack_format (ack_control f))) is_u8 (ack_destination_endpoint f);
  k_cluster : present_ok (negb (ack_format (ack_control f))) is_u16 (ack_cluster_id f);
  k_profile : present_ok (negb (ack_format (ack_control f))) is_u16 (ack_profile_id f);
  k_source : present_ok (negb (ack_format (ack_control f))) is_u8 (ack_source_endpoint f);
  k_counter : is_u8 (ack_counter f)
}.

Definition ack_header_len (f : ApsAckFrame) : nat := if ack_format (ack_control f) then 2 else 8.

Lemma ack_written f :
  ack_ok f ->
  exists b body, write_abstract_bits (ack_control f) = Some [b] /\ (forall E, ack_to_bytes (E:=E) f = Ok (b :: body)) /\
    length (b :: body) = ack_header_len f /\ forall rest, ack_from_bytes (b :: body ++ rest) = Ok f.
Proof.
  intros [Hc Ht Hd Hcl Hp Hs Hn]. destruct (control_byte_written _ Hc) as (b & Hw & Hx & Hr). exists b.
  destruct f as [c d cl p s n]. cbn [ack_control ack_destination_endpoint ack_cluster_id ack_profile_id ack_source_endpoint ack_counter] in *.
  unfold ack_to_bytes, ack_header_len, ack_from_bytes.
  cbn [ack_control ack_destination_endpoint ack_cluster_id ack_profile_id ack_source_endpoint ack_counter].
  unfold present_ok in *. destruct (ack_format c) eqn:Hf; cbn [negb] in *.
  - destruct d, cl, p, s; try done. exists [n]. split_and!; [done| |done|].
    + intros E. rewrite Hx. cbn [mbind res_bind option_bytes app]. by rewrite (le_byte n Hn).
    + intros rest. rewrite Hr. cbn [mbind res_bind]. rewrite bool_decide_true by done. cbn [negb]. by rewrite Hf.
  - destruct d as [d|], cl as [cl|], p as [p|], s as [s|]; try done.
    destruct (le_word cl Hcl) as (c0 & c1 & Hcw & Hcr). destruct (le_word p Hp) as (p0 & p1 & Hpw & Hpr).
    exists [d; c0; c1; p0; p1; s; n]. split_and!; [done| |done|].
    + intros E. rewrite Hx. cbn [mbind res_bind option_bytes app]. by rewrite (le_byte n Hn), (le_byte d Hd), (le_byte s Hs), Hcw, Hpw.
    + intros rest. cbn [app]. rewrite Hr. cbn [mbind res_bind]. rewrite bool_decide_true by done. cbn [negb]. rewrite Hf. by rewrite Hcr, Hpr.
Qed.

(** ** Data headers *)
Record header_ok (h : ApsDataHeader) : Prop := {
  d_control : canonical (frame_control h);
  d_reserved : reserved1 (frame_control h) = 0;
  d_plain : extended_header (frame_control h) = false;
  d_group : present_ok (bool_decide (delivery_mode (frame_control h) = Multicast)) is_u16 (group_id h);
  d_endpoint : present_ok (negb (bool_decide (delivery_mode (frame_control h) = Multicast))) is_u8 (destination_endpoint h);
  d_cluster : is_u16 (cluster_id h);
  d_profile : is_u16 (profile_id h);
  d_source : is_u8 (source_endpoint h);
  d_counter : is_u8 (counter h)
}.

Lemma data_header_written h :
  header_ok h ->
  exists b body, write_abstract_bits (frame_control h) = Some [b] /\
    (forall E (pre : bytes), data_header_serialize (E:=E) pre h = Ok (pre ++ b :: body)) /\
    forall rest, data_header_deserialize (b :: body ++ rest) = Ok (h, rest).
Proof.
  intros [Hc Hz Hx Hg He Hcl Hp Hs Hn]. destruct (control_byte_written _ Hc) as (b & Hw & Hxw & Hr). exists b.
  destruct h as [c g d cl p s n]. cbn [frame_control group_id destination_endpoint cluster_id profile_id source_endpoint counter] in *.
  destruct (le_word cl Hcl) as (c0 & c1 & Hcw & Hcr). destruct (le_word p Hp) as (p0 & p1 & Hpw & Hpr).
  unfold data_header_serialize, data_header_deserialize.
  cbn [frame_control group_id destination_endpoint cluster_id profile_id source_endpoint counter].
  unfold present_ok in *. case_bool_decide as Hm; cbn [negb] in *.
  - destruct g as [g|], d; try done. destruct (le_word g Hg) as (g0 & g1 & Hgw & Hgr).
    exists [g0; g1; c0; c1; p0; p1; s; n]. split_and!; [done| |].
    + intros E pre. rewrite Hxw. cbn [mbind res_bind option_bytes app].
      rewrite (le_byte n Hn), (le_byte s Hs), Hcw, Hpw, Hgw. by rewrite <- (assoc_L (++)).
    + intros rest. cbn [app length Nat.ltb Nat.leb]. rewrite Hr. cbn [mbind res_bind]. rewrite Hz, Z.eqb_refl. cbn [negb].
      rewrite bool_decide_true by done. cbn [drop take length Nat.ltb Nat.leb]. unfold data_fields. by rewrite Hx, Hcr, Hpr, Hgr.
  - destruct g, d as [d|]; try done. exists [d; c0; c1; p0; p1; s; n]. split_and!; [done| |].
    + intros E pre. rewrite Hxw. cbn [mbind res_bind option_bytes app].
      rewrite (le_byte n Hn), (le_byte s Hs), (le_byte d He), Hcw, Hpw. by rewrite <- (assoc_L (++)).
    + intros rest. cbn [app length Nat.ltb Nat.leb]. rewrite Hr. cbn [mbind res_bind]. rewrite Hz, Z.eqb_refl. cbn [negb].
      rewrite bool_decide_false by done. cbn [drop]. unfold data_fields. by rewrite Hx, Hcr, Hpr.
Qed.

(** ** Auxiliary headers *)
Record aux_ok (a : ApsAuxHeader) : Prop := {
  x_counter : is_u32 (frame_counter a);
  x_source : present_ok (extended_nonce (security_control a)) eui64_ok (extended_source a);
  x_sequence : present_ok (bool_decide (key_id (security_control a) = NetworkKey)) is_u8 (key_sequence_number a)
}.

Lemma aps_aux_written a :
  aux_ok a ->
  exists ab, (forall E (pre : bytes), aux_serialize (E:=E) pre a = Ok (pre ++ ab)) /\ (5 <= length ab)%nat /\
    forall rest, aux_deserialize (ab ++ rest) = Ok (a, rest).
Proof.
  intros [Hn Hs Hq]. destruct (security_control_written (security_control a)) as (b & Hw & Hr).
  exists (b :: to_le_bytes 4 (frame_counter a) ++ option_bytes Eui64.to_bytes (extended_source a)
    ++ option_bytes (fun n => [n]) (key_sequence_number a)). split_and!.
  - intros E pre. unfold aux_serialize. by rewrite Hw.
  - cbn [length]. rewrite length_app, length_to_le_bytes. lia.
  - intros rest. unfold aux_deserialize. rewrite (proj2 (Nat.ltb_ge _ _)).
    2: { cbn [length app]. rewrite !length_app, length_to_le_bytes. lia. }
    cbn [app]. rewrite Hr. cbn [mbind res_bind]. rewrite skipn_cons, drop_0, <- !(assoc_L (++)).
    destruct (take_drop_app_length (to_le_bytes 4 (frame_counter a)) (option_bytes Eui64.to_bytes (extended_source a)
      ++ option_bytes (fun n => [n]) (key_sequence_number a) ++ rest) 4) as [-> ->]; [apply length_to_le_bytes|].
    rewrite NwkFrameFacts.parse_ieee_written by done. cbn [mbind res_bind]. rewrite from_to_le_bytes by done.
    unfold aux_key_sequence, present_ok in *. destruct a as [c n s [q|]]; cbn [security_control key_sequence_number] in *;
      destruct (bool_decide _); done.
Qed.

(** ** Commands *)
Definition transport_ok (c : ApsTransportKeyCommandFrame) : Prop :=
  match standard_key_type c, key_descriptor c with
  | StandardNetworkKey, DescribeNetworkKey d => canonical d
  | ApplicationLinkKey, DescribeApplicationLinkKey d => canonical d
  | TrustCenterLinkKey, DescribeTrustCenterLinkKey d => canonical d
  | _, _ => False
  end.

Definition request_ok (c : ApsRequestKeyCommandFrame) : Prop :=
  present_ok (match rk_key_type c with RequestApplicationLinkKey => true | RequestTrustCenterLinkKey => false end)
    eui64_ok (rk_partner_address c).

Definition tunnel_ok (c : ApsTunnelCommandFrame) : Prop :=
  eui64_ok (tu_destination_address c) /\ (length (tunneled_frame c) <= MAX_PHY_PACKET_SIZE)%nat.

Definition body_ok (c : ApsCommandFrameCommand) : Prop :=
  match c with
  | TransportKey c => transport_ok c
  | UpdateDevice c => canonical c
  | RemoveDevice c => canonical c
  | RequestKey c => request_ok c
  | SwitchKey c => canonical c
  | Tunnel c => tunnel_ok c
  | VerifyKey c => canonical c
  | ConfirmKey c => canonical c
  end.

Lemma parse_bits_whole `{AbstractBitsLaws T} (v : T) :
  canonical v -> exists bs, to_abstract_bytes v = Some bs /\ parse_bits bs = Ok v.
Proof. intros (bs & Hw & Hr)%parse_bits_written. exists bs. split; [done|]. by rewrite <- (app_nil_r bs). Qed.

Lemma transport_written c :
  transport_ok c ->
  exists bs, (forall E, transport_key_to_bytes (E:=E) c = Ok bs) /\ transport_key_from_bytes bs = Ok c.
Proof.
  unfold transport_ok, transport_key_to_bytes, transport_key_from_bytes.
  destruct c as [ty [d|d|d]]; cbn [standard_key_type key_descriptor]; destruct ty; try done; intros Hc;
    destruct (parse_bits_whole d Hc) as (bs & Hw & Hr); pose proof (write_size _ _ Hw) as Hl; (destruct bs as [|x bs]; [done|]);
    rewrite Hw; eexists; (split; [reflexivity|]); cbn [key_type_to_u8 key_type_of_u8 find Z.eqb Pos.eqb ok_or mbind res_bind];
    by rewrite Hr.
Qed.

Lemma request_written c : request_ok c -> request_key_from_bytes (request_key_to_bytes c) = Ok c.
Proof.
  unfold request_ok, request_key_from_bytes, request_key_to_bytes, present_ok.
  destruct c as [[] [e|]]; cbn [rk_key_type rk_partner_address option_bytes]; try done. intros He.
  cbn [request_type_to_u8 request_type_of_u8 find Z.eqb Pos.eqb ok_or mbind res_bind].
  rewrite <- (app_nil_r (Eui64.to_bytes e)), eui64_deserialize_to_bytes by done. done.
Qed.

Lemma tunnel_written c : tunnel_ok c -> tunnel_from_bytes (tunnel_to_bytes c) = Ok c.
Proof.
  intros [He Hl]. unfold tunnel_from_bytes, tunnel_to_bytes. rewrite eui64_deserialize_to_bytes by done. cbn [map_err mbind res_bind].
  unfold frame_bytes. rewrite (proj2 (Nat.leb_le _ _) Hl). by destruct c.
Qed.

Lemma aps_id_roundtrip id : command_id_of_u8 (command_id_to_u8 id) = Some id.
Proof. by destruct id. Qed.

Lemma payload_written f :
  body_ok (command f) ->
  exists body, (forall E, payload_to_bytes (E:=E) f = Ok (command_id_to_u8 (command_id (command f)) :: body)) /\
    command_body (command_id (command f)) body = Ok (command f).
Proof.
  unfold payload_to_bytes, command_body. destruct (command f) as [c|c|c|c|c|c|c|c]; cbn [body_ok command_id]; intros Hc.
  1: destruct (transport_written c Hc) as (bs & Hw & Hr); exists bs; split; [intros E; by rewrite Hw|by rewrite Hr].
  1,2,4,6,7: destruct (parse_bits_whole c Hc) as (bs & Hw & Hr); exists bs; split; [intros E; by rewrite Hw|by rewrite Hr].
  - exists (request_key_to_bytes c). split; [done|]. by rewrite request_written.
  - exists (tunnel_to_bytes c). split; [done|]. by rewrite tunnel_written.
Qed.

Lemma command_header_written control n :
  canonical control ->
  exists b, write_abstract_bits control = Some [b] /\ (forall E, command_header (E:=E) control n = Ok [b; n]) /\
    forall rest, parse_bits (b :: rest) = Ok control.
Proof.
  intros (b & Hw & Hx & Hr)%control_byte_written. exists b. split_and!; [done| |done]. intros E. unfold command_header.
  by rewrite Hx.
Qed.

Lemma aps_command_written f :
  canonical (cmd_control f) -> body_ok (command f) ->
  exists b body, write_abstract_bits (cmd_control f) = Some [b] /\
    (forall E, command_header (E:=E) (cmd_control f) (cmd_counter f) = Ok [b; cmd_counter f]) /\
    (forall E, payload_to_bytes (E:=E) f = Ok body) /\ command_from_bytes ([b; cmd_counter f] ++ body) = Ok f.
Proof.
  intros (b & Hw & Hh & Hr)%(fun c => command_header_written _ (cmd_counter f) c) (body & Hp & Hb)%payload_written.
  eexists b, _. split_and!; [done|done|exact Hp|]. unfold command_from_bytes. cbn [app]. rewrite Hr. cbn [mbind res_bind].
  rewrite aps_id_roundtrip. cbn [ok_or mbind res_bind]. rewrite Hb. by destruct f.
Qed.

(** ** The round trip *)
Definition fits (bs : bytes) : Prop := (length bs <= MAX_PHY_PACKET_SIZE)%nat.

Definition control_ok (c : ApsFrameControl) (ty : ApsFrameType) (secured : bool) : Prop :=
  canonical c /\ frame_type c = ty /\ security c = secured.

(** A frame whose header says what it is, whose optional fields agree with the flags and whose
    payload fits a frame buffer. *)
Definition frame_ok (f : ApsFrame) : Prop :=
  match f with
  | Data f => control_ok (frame_control (header f)) TypeData false /\ header_ok (header f) /\ fits (asdu f)
  | EncryptedData f =>
      control_ok (frame_control (ed_header f)) TypeData true /\ header_ok (ed_header f) /\ aux_ok (ed_aux_header f) /\ fits (ed_ciphertext f)
  | Ack f => ack_ok f /\ ack_security (ack_control f) = false
  | EncryptedAck f =>
      ack_ok (ea_header f) /\ ack_security (ack_control (ea_header f)) = true /\ aux_ok (ea_aux_header f) /\ fits (ea_ciphertext f)
  | Command f => control_ok (cmd_control f) TypeCommand false /\ body_ok (command f)
  | EncryptedCommand f => control_ok (ec_control f) TypeCommand true /\ aux_ok (ec_aux_header f) /\ fits (ec_ciphertext f)
  end.

(** [to_bytes] of the frame inside. *)
Definition frame_to_bytes {E} (f : ApsFrame) : res E bytes :=
  match f with
  | Data f => data_to_bytes f
  | EncryptedData f => encrypted_data_to_bytes f
  | Ack f => ack_to_bytes f
  | EncryptedAck f => encrypted_ack_to_bytes f
  | Command f => command_to_bytes f
  | EncryptedCommand f => encrypted_command_to_bytes f
  end.

Lemma parse_dispatch b rest ty secured :
  Z.land b 3 = type_code ty -> Z.land b 32 = (if secured : bool then 32 else 0) ->
  parse_aps_frame (b :: rest) =
    match ty, secured with
    | TypeCommand, true => f ← encrypted_command_from_bytes (b :: rest); Ok (EncryptedCommand f)
    | TypeCommand, false => f ← command_from_bytes (b :: rest); Ok (Command f)
    | TypeData, true => f ← encrypted_data_from_bytes (b :: rest); Ok (EncryptedData f)
    | TypeAck, true => f ← encrypted_ack_from_bytes (b :: rest); Ok (EncryptedAck f)
    | TypeData, false => f ← data_from_bytes (b :: rest); Ok (Data f)
    | TypeAck, false => f ← ack_from_bytes (b :: rest); Ok (Ack f)
    | TypeInterpan, _ => Err (NwkFrame.Unsupported "Interpan")
    end.
Proof. intros Ht Hs. unfold parse_aps_frame. rewrite Ht, Hs. by destruct ty, secured. Qed.

Lemma control_dispatch c b ty secured :
  control_ok c ty secured -> write_abstract_bits c = Some [b] ->
  Z.land b 3 = type_code ty /\ Z.land b 32 = (if secured then 32 else 0).
Proof. intros (Hc & <- & <-) Hw. split; [by apply control_type_bits|by apply control_security_bit]. Qed.

Lemma frame_bytes_fits what bs : fits bs -> frame_bytes what bs = Ok bs.
Proof. intros Hl. unfold frame_bytes. by rewrite (proj2 (Nat.leb_le _ _) Hl). Qed.

Lemma data_round_trip {E} f :
  frame_ok (Data f) -> exists bs, frame_to_bytes (E:=E) (Data f) = Ok bs /\ parse_aps_frame bs = Ok (Data f).
Proof.
  cbn [frame_ok frame_to_bytes]. intros (Hc & Hh & Hl). destruct (data_header_written _ Hh) as (b & body & Hw & Hs & Hr).
  exists (b :: body ++ asdu f). unfold data_to_bytes. rewrite Hs. split; [done|].
  destruct (control_dispatch _ _ _ _ Hc Hw) as [Ht Hb]. rewrite (parse_dispatch _ _ TypeData false Ht Hb).
  unfold data_from_bytes. rewrite Hr. cbn [mbind res_bind]. rewrite frame_bytes_fits by done. by destruct f.
Qed.

Lemma encrypted_data_round_trip {E} f :
  frame_ok (EncryptedData f) -> exists bs, frame_to_bytes (E:=E) (EncryptedData f) = Ok bs /\ parse_aps_frame bs = Ok (EncryptedData f).
Proof.
  cbn [frame_ok frame_to_bytes]. intros (Hc & Hh & Ha & Hl). destruct (data_header_written _ Hh) as (b & body & Hw & Hs & Hr).
  destruct (aps_aux_written _ Ha) as (ab & Haw & _ & Har). exists (b :: body ++ ab ++ ed_ciphertext f).
  unfold encrypted_data_to_bytes. rewrite Hs. cbn [mbind res_bind app]. rewrite Haw. cbn [mbind res_bind].
  split; [cbn [app]; by rewrite <- (assoc_L (++))|]. destruct (control_dispatch _ _ _ _ Hc Hw) as [Ht Hb].
  rewrite (parse_dispatch _ _ TypeData true Ht Hb). unfold encrypted_data_from_bytes. rewrite Hr. cbn [mbind res_bind].
  rewrite Har. cbn [mbind res_bind]. rewrite frame_bytes_fits by done. by destruct f.
Qed.

Lemma ack_round_trip {E} f :
  frame_ok (Ack f) -> exists bs, frame_to_bytes (E:=E) (Ack f) = Ok bs /\ parse_aps_frame bs = Ok (Ack f).
Proof.
  cbn [frame_ok frame_to_bytes]. intros (Hk & Hs). destruct (ack_written _ Hk) as (b & body & Hw & Hs' & _ & Hr). exists (b :: body). split; [done|].
  pose proof (ack_control_type_bits _ _ (k_control _ Hk) Hw) as Ht. pose proof (ack_control_security_bit _ _ (k_control _ Hk) Hw) as Hb.
  rewrite (k_type _ Hk) in Ht. rewrite Hs in Hb. rewrite (parse_dispatch _ _ TypeAck false Ht Hb).
  rewrite <- (app_nil_r body), Hr. done.
Qed.

Lemma encrypted_ack_round_trip {E} f :
  frame_ok (EncryptedAck f) -> exists bs, frame_to_bytes (E:=E) (EncryptedAck f) = Ok bs /\ parse_aps_frame bs = Ok (EncryptedAck f).
Proof.
  cbn [frame_ok frame_to_bytes]. intros (Hk & Hs & Ha & Hl). destruct (ack_written _ Hk) as (b & body & Hw & Hs' & Hlen & Hr).
  destruct (aps_aux_written _ Ha) as (ab & Haw & _ & Har). exists (b :: body ++ ab ++ ea_ciphertext f).
  unfold encrypted_ack_to_bytes. rewrite Hs'. cbn [mbind res_bind]. rewrite Haw. cbn [mbind res_bind].
  split; [cbn [app]; by rewrite <- (assoc_L (++))|].
  pose proof (ack_control_type_bits _ _ (k_control _ Hk) Hw) as Ht. pose proof (ack_control_security_bit _ _ (k_control _ Hk) Hw) as Hb.
  rewrite (k_type _ Hk) in Ht. rewrite Hs in Hb. rewrite (parse_dispatch _ _ TypeAck true Ht Hb).
  unfold encrypted_ack_from_bytes. rewrite Hr. cbn [mbind res_bind].
  fold (ack_header_len (ea_header f)). rewrite <- Hlen. rewrite (proj2 (Nat.ltb_ge _ _)) by (cbn [length]; rewrite length_app; lia).
  change (b :: body ++ ab ++ ea_ciphertext f) with ((b :: body) ++ ab ++ ea_ciphertext f). rewrite drop_app_length, Har.
  cbn [mbind res_bind]. rewrite frame_bytes_fits by done. by destruct f.
Qed.

Lemma command_round_trip {E} f :
  frame_ok (Command f) -> exists bs, frame_to_bytes (E:=E) (Command f) = Ok bs /\ parse_aps_frame bs = Ok (Command f).
Proof.
  cbn [frame_ok frame_to_bytes]. intros (Hc & Hb). destruct (aps_command_written f) as (b & body & Hw & Hh & Hp & Hr); [by destruct Hc|done|].
  exists ([b; cmd_counter f] ++ body). unfold command_to_bytes. rewrite Hh. cbn [mbind res_bind]. rewrite Hp. split; [done|].
  destruct (control_dispatch _ _ _ _ Hc Hw) as [Ht Hs]. cbn [app] in *. rewrite (parse_dispatch _ _ TypeCommand false Ht Hs).
  by rewrite Hr.
Qed.

Lemma encrypted_command_round_trip {E} f :
  frame_ok (EncryptedCommand f) -> exists bs, frame_to_bytes (E:=E) (EncryptedCommand f) = Ok bs /\ parse_aps_frame bs = Ok (EncryptedCommand f).
Proof.
  cbn [frame_ok frame_to_bytes]. intros (Hc & Ha & Hl). destruct (command_header_written _ (ec_counter f) (proj1 Hc)) as (b & Hw & Hh & Hr).
  destruct (aps_aux_written _ Ha) as (ab & Haw & Hlen & Har). exists ([b; ec_counter f] ++ ab ++ ec_ciphertext f).
  unfold encrypted_command_to_bytes. rewrite Hh. cbn [mbind res_bind]. rewrite Haw. cbn [mbind res_bind]. split; [done|].
  destruct (control_dispatch _ _ _ _ Hc Hw) as [Ht Hs]. cbn [app]. rewrite (parse_dispatch _ _ TypeCommand true Ht Hs).
  unfold encrypted_command_from_bytes. rewrite (proj2 (Nat.ltb_ge _ _)) by (cbn [length]; rewrite length_app; lia).
  rewrite Hr. cbn [mbind res_bind]. rewrite Har. cbn [mbind res_bind]. rewrite frame_bytes_fits by done. by destruct f.
Qed.

(** Every APS frame survives the wire: a data, acknowledgment or command frame, plain or
    secured, whose header says what it is and whose payload fits a frame is serialized, and
    [parse_aps_frame] recognizes its kind from the first byte and gives the same frame back, every
    addressing field, auxiliary header field, command and payload byte included. *)
Lemma aps_frame_round_trip {E} f :
  frame_ok f -> exists bs, frame_to_bytes (E:=E) f = Ok bs /\ parse_aps_frame bs = Ok f.
Proof.
  destruct f; [apply data_round_trip|apply encrypted_data_round_trip|apply ack_round_trip|apply encrypted_ack_round_trip
    |apply command_round_trip|apply encrypted_command_round_trip].
Qed.

(** ** Totality *)
Context `{!Ccm, !Crypto.CcmLaws}.

Lemma no_panic_parse_bits `{AbstractBits T} bs : no_panic (parse_bits (T:=T) bs).
Proof. apply no_panic_ok_or. Qed.

Lemma no_panic_frame_bytes what bs : no_panic (frame_bytes what bs).
Proof. unfold frame_bytes. by destruct (_ <=? _)%nat. Qed.

Hint Resolve no_panic_parse_bits no_panic_frame_bytes no_panic_ok_or : zig.

Lemma no_panic_ack bs : no_panic (ack_from_bytes bs).
Proof.
  unfold ack_from_bytes. destruct bs as [|x bs]; [done|]. apply no_panic_bind; [auto with zig|intros c _].
  destruct (negb _); [done|]. destruct (ack_format c); [by destruct bs|]. by do 7 (destruct bs as [|? bs]; [done|]).
Qed.

(** What is left of the bytes when the fields after the destination are read. *)
Lemma no_panic_data_fields control group dest bs : (6 <= length bs)%nat -> no_panic (data_fields control group dest bs).
Proof.
  intros Hl. do 6 (destruct bs as [|? bs]; [cbn in Hl; lia|]). unfold data_fields. by destruct (extended_header control).
Qed.

Lemma no_panic_data_header bs : no_panic (data_header_deserialize bs).
Proof.
  unfold data_header_deserialize. destruct (Nat.ltb_spec (length bs) 8) as [|Hl]; [done|].
  apply no_panic_bind; [auto with zig|intros c _]. destruct (negb _); [done|]. case_bool_decide.
  - destruct (Nat.ltb_spec (length (drop 1 bs)) 8); [done|]. apply no_panic_data_fields. rewrite length_drop. lia.
  - destruct bs as [|x [|y bs]]; [cbn in Hl; lia..|]. rewrite skipn_cons, drop_0. apply no_panic_data_fields. cbn in Hl. lia.
Qed.

Lemma aps_aux_no_panic bs : no_panic (aux_deserialize bs).
Proof.
  unfold aux_deserialize. destruct (_ <? 5)%nat; [done|]. apply no_panic_bind; [auto with zig|intros c _].
  apply no_panic_bind; [apply NwkFrameFacts.no_panic_parse_ieee|intros [src r] _].
  apply no_panic_bind; [|by intros [? ?] _]. unfold aux_key_sequence. destruct (bool_decide _); [by destruct r|done].
Qed.

Lemma no_panic_command_body id payload : no_panic (command_body id payload).
Proof.
  destruct id; cbn [command_body]; try done; (apply no_panic_bind; [|done]); auto with zig.
  - unfold transport_key_from_bytes. destruct payload as [|ty [|y rest]]; [done..|].
    apply no_panic_bind; [auto with zig|intros key_type _]. apply no_panic_bind; [|done].
    destruct key_type; (apply no_panic_bind; [auto with zig|done]).
  - unfold request_key_from_bytes. destruct payload as [|ty rest]; [done|].
    apply no_panic_bind; [auto with zig|intros [] _]; [|done]. apply no_panic_bind; [auto with zig|by intros [? ?] _].
  - unfold tunnel_from_bytes. apply no_panic_bind; [auto with zig|intros [d r] _]. apply no_panic_bind; [auto with zig|done].
Qed.

Lemma no_panic_command bs : no_panic (command_from_bytes bs).
Proof.
  unfold command_from_bytes. destruct bs as [|x [|n [|id payload]]]; [done..|].
  apply no_panic_bind; [auto with zig|intros c _]. apply no_panic_bind; [auto with zig|intros i _].
  apply no_panic_bind; [apply no_panic_command_body|done].
Qed.

Lemma no_panic_secured_tail {A B} (m : res ParseError (A * bytes)) (k : A -> bytes -> res ParseError B) :
  no_panic m -> (forall a bs, no_panic (k a bs)) -> no_panic ('(a, remaining) ← m; k a remaining).
Proof. intros Hm Hk. apply no_panic_bind; [done|]. intros [a r] _. apply Hk. Qed.

Lemma ack_read_length bs f : ack_from_bytes bs = Ok f -> (ack_header_len f <= length bs)%nat.
Proof.
  unfold ack_from_bytes, ack_header_len. destruct bs as [|x bs]; [done|]. intros (c & _ & Hk)%bind_ok. revert Hk.
  destruct (negb _); [done|]. destruct (ack_format c) eqn:Hf.
  - destruct bs as [|n bs]; [done|]. intros [= <-]. cbn [ack_control length]. rewrite Hf. lia.
  - do 7 (destruct bs as [|? bs]; [done|]). intros [= <-]. cbn [ack_control length]. rewrite Hf. lia.
Qed.

(** Parsing an APS frame is total: whatever bytes a decrypted NWK payload holds,
    [parse_aps_frame] returns a frame or an error; none of its unchecked indexing and slicing runs
    off the end. *)
Lemma parse_aps_frame_total bs : parse_aps_frame bs <> Panic.
Proof.
  change (no_panic (parse_aps_frame bs)). unfold parse_aps_frame. destruct bs as [|x bs]; [done|].
  apply no_panic_bind; [auto with zig|intros ty _]. destruct ty, (negb (Z.land x 32 =? 0)); try done; (apply no_panic_bind; [|done]).
  - unfold encrypted_data_from_bytes. apply no_panic_secured_tail; [apply no_panic_data_header|intros h r].
    apply no_panic_secured_tail; [apply aps_aux_no_panic|intros a r']. apply no_panic_bind; [auto with zig|done].
  - unfold data_from_bytes. apply no_panic_secured_tail; [apply no_panic_data_header|intros h r].
    apply no_panic_bind; [auto with zig|done].
  - unfold encrypted_command_from_bytes. destruct (Nat.ltb_spec (length (x :: bs)) 7) as [|Hl]; [done|].
    apply no_panic_bind; [auto with zig|intros c _]. destruct bs as [|n bs]; [cbn in Hl; lia|].
    apply no_panic_secured_tail; [apply aps_aux_no_panic|intros a r]. apply no_panic_bind; [auto with zig|done].
  - apply no_panic_command.
  - unfold encrypted_ack_from_bytes. apply no_panic_bind; [apply no_panic_ack|intros f Hf%ack_read_length].
    unfold ack_header_len in Hf. rewrite (proj2 (Nat.ltb_ge _ _) Hf).
    apply no_panic_secured_tail; [apply aps_aux_no_panic|intros a r]. apply no_panic_bind; [auto with zig|done].
  - apply no_panic_ack.
Qed.

(** ** Protection *)
Lemma aps_protection_returns a source header : exists nonce aad, forall E, aps_protection (E:=E) a source header = Ok (nonce, aad).
Proof.
  destruct (security_control_written (security_control (get_modified a EncMic32))) as (b & Hb & _).
  eexists _, _. intros E. unfold aps_protection, get_nonce, aux_serialize. rewrite Hb. reflexivity.
Qed.

Lemma aps_payload_round_trip key a e header plain :
  extended_source a = Some e -> (length plain + Crypto.MIC_LENGTH <= MAX_PHY_PACKET_SIZE)%nat ->
  exists c, (forall E, encrypt_aps_payload (E:=E) key a header plain = Ok c) /\
    length c = (length plain + Crypto.MIC_LENGTH)%nat /\ forall source, decrypt_aps_payload key a source header c = Ok plain.
Proof.
  intros He Hl. destruct (aps_protection_returns a e header) as (nonce & aad & Hp).
  destruct (CryptoFacts.ccm_round_trip (E:=Empty_set) key nonce aad plain Hl) as (c & Henc & Hc & Hd). exists c. split_and!.
  - intros E. unfold encrypt_aps_payload. rewrite He. cbn [unwrap mbind res_bind]. rewrite Hp. cbn [mbind res_bind fst snd].
    unfold expect_frame_bytes. rewrite (proj2 (Nat.leb_le _ _)) by lia. cbn [mbind res_bind].
    exact (CryptoFacts.encrypt_any_error _ _ _ _ _ Henc).
  - done.
  - intros source. unfold decrypt_aps_payload. rewrite He. cbn [default]. rewrite Hp. cbn [mbind res_bind fst snd].
    unfold expect_frame_bytes. rewrite (proj2 (Nat.leb_le _ _)) by lia. cbn [mbind res_bind]. by rewrite Hd.
Qed.

(** The frames the stack may secure: their headers serialize, and the payload leaves room for the
    MIC. *)
Definition securable (f : ApsFrame) : Prop :=
  match f with
  | Data f => header_ok (header f) /\ (length (asdu f) + Crypto.MIC_LENGTH <= MAX_PHY_PACKET_SIZE)%nat
  | Ack f => ack_ok f
  | Command f => canonical (cmd_control f) /\ body_ok (command f) /\
      forall payload, payload_to_bytes (E:=Empty_set) f = Ok payload -> (length payload + Crypto.MIC_LENGTH <= MAX_PHY_PACKET_SIZE)%nat
  | _ => False
  end.

(** [encrypt] of the frame inside, and [decrypt]. *)
Definition secure {E} (f : ApsFrame) (key : Key) (a : ApsAuxHeader) : res E ApsFrame :=
  match f with
  | Data f => EncryptedData <$> encrypt_data f key a
  | Ack f => EncryptedAck <$> encrypt_ack f key a
  | Command f => EncryptedCommand <$> encrypt_command f key a
  | _ => Panic
  end.

Definition open (f : ApsFrame) (key : Key) (source : Eui64) : res ParseError ApsFrame :=
  match f with
  | EncryptedData f => Data <$> decrypt_data f key source
  | EncryptedAck f => Ack <$> decrypt_ack f key source
  | EncryptedCommand f => Command <$> decrypt_command f key
  | _ => Ok f
  end.

Lemma data_encrypt_decrypt f key a e :
  header_ok (header f) -> (length (asdu f) + Crypto.MIC_LENGTH <= MAX_PHY_PACKET_SIZE)%nat -> extended_source a = Some e ->
  exists c, (forall E, encrypt_data (E:=E) f key a = Ok (mkEncryptedData (header f) a c)) /\
    forall source, decrypt_data (mkEncryptedData (header f) a c) key source = Ok f.
Proof.
  intros Hh Hl He. destruct (data_header_written _ Hh) as (b & body & _ & Hs & _).
  destruct (aps_payload_round_trip key a e (b :: body) (asdu f) He Hl) as (c & Henc & _ & Hd). exists c. split.
  - intros E. unfold encrypt_data. rewrite Hs. cbn [mbind res_bind app]. by rewrite Henc.
  - intros source. unfold decrypt_data. cbn [ed_header ed_aux_header ed_ciphertext]. rewrite Hs.
    cbn [mbind res_bind app]. rewrite Hd. by destruct f.
Qed.

Lemma ack_encrypt_decrypt f key a e :
  ack_ok f -> extended_source a = Some e ->
  exists c, (forall E, encrypt_ack (E:=E) f key a = Ok (mkEncryptedAck f a c)) /\
    forall source, decrypt_ack (mkEncryptedAck f a c) key source = Ok f.
Proof.
  intros Hf He. destruct (ack_written _ Hf) as (b & body & _ & Hs & _).
  destruct (aps_payload_round_trip key a e (b :: body) [] He) as (c & Henc & _ & Hd); [unfold Crypto.MIC_LENGTH, MAX_PHY_PACKET_SIZE; cbn; lia|].
  exists c. split.
  - intros E. unfold encrypt_ack. rewrite Hs. cbn [mbind res_bind]. by rewrite Henc.
  - intros source. unfold decrypt_ack. cbn [ea_header ea_aux_header ea_ciphertext]. rewrite Hs. cbn [mbind res_bind]. by rewrite Hd.
Qed.

Lemma command_encrypt_decrypt f key a e :
  canonical (cmd_control f) -> body_ok (command f) ->
  (forall payload, payload_to_bytes (E:=Empty_set) f = Ok payload -> (length payload + Crypto.MIC_LENGTH <= MAX_PHY_PACKET_SIZE)%nat) ->
  extended_source a = Some e ->
  exists c, (forall E, encrypt_command (E:=E) f key a = Ok (mkEncryptedCommand (cmd_control f) (cmd_counter f) a c)) /\
    decrypt_command (mkEncryptedCommand (cmd_control f) (cmd_counter f) a c) key = Ok f.
Proof.
  intros Hc Hb Hl He. destruct (aps_command_written f Hc Hb) as (b & body & _ & Hh & Hp & Hr).
  destruct (aps_payload_round_trip key a e [b; cmd_counter f] body He (Hl _ (Hp _))) as (c & Henc & _ & Hd). exists c. split.
  - intros E. unfold encrypt_command. rewrite Hh. cbn [mbind res_bind]. rewrite Hp. cbn [mbind res_bind]. by rewrite Henc.
  - unfold decrypt_command. cbn [ec_control ec_counter ec_aux_header ec_ciphertext]. rewrite He.
    cbn [ok_or mbind res_bind]. rewrite Hh. cbn [mbind res_bind]. rewrite Hd. cbn [mbind res_bind]. by rewrite Hr.
Qed.

(** What a link key protects it also opens: securing a data, acknowledgment or command frame
    under an auxiliary header with an extended source succeeds, and opening the result under the
    same key returns the original frame, whichever address the receiver believes it came from. *)
Lemma aps_encrypt_decrypt f key a e :
  securable f -> extended_source a = Some e ->
  exists g, (forall E, secure (E:=E) f key a = Ok g) /\ forall source, open g key source = Ok f.
Proof.
  intros Hf He. destruct f as [f|f|f|f|f|f]; cbn [securable] in Hf; try done.
  - destruct Hf as [Hh Hl]. destruct (data_encrypt_decrypt f key a e Hh Hl He) as (c & Henc & Hd). eexists. split.
    + intros E. cbn [secure]. rewrite Henc. reflexivity.
    + intros source. cbn [open]. by rewrite Hd.
  - destruct (ack_encrypt_decrypt f key a e Hf He) as (c & Henc & Hd). eexists. split.
    + intros E. cbn [secure]. rewrite Henc. reflexivity.
    + intros source. cbn [open]. by rewrite Hd.
  - destruct Hf as (Hc & Hb & Hl). destruct (command_encrypt_decrypt f key a e Hc Hb Hl He) as (c & Henc & Hd). eexists. split.
    + intros E. cbn [secure]. rewrite Henc. reflexivity.
    + intros source. cbn [open]. by rewrite Hd.
Qed.
End Facts.
End ApsFrameFacts.
