(* ===== verification/ApsSecurity.v ===== *)
(** * APS security: [src/crates/ziggurat-zigbee/src/aps/security.rs]

    The device key-pair set with its replay counters, the derivation of link keys from a seed, and
    the protection of APS frames with link keys. Key derivation returns in [may]: the hash below it
    asserts the length of its input. *)

From S2P Require Import Prelude Flat Types AbstractBits Crypto NwkFrame ApsFrame.

Module ApsSecurity.
Import ApsFrame.
Import NwkFrame(NwkSecurityHeaderControlField, mkSecurityControl, NwkSecurityHeaderKeyId, DataKey, NetworkKey, KeyTransportKey, KeyLoadKey).
Import NwkFrame(NoSecurity, key_id).

Inductive TclkFlavor : Type := ZStack | Ezsp.

Record TclkSeed := mkSeed { seed : Key; flavor : TclkFlavor }.

Inductive KeyAttributes : Type := Provisional | Unverified | Verified.

#[export] Instance KeyAttributes_eq_dec : EqDecision KeyAttributes.
Proof. solve_decision. Defined.

Record DeviceLinkKey := mkLinkKey { key : Key; attributes : KeyAttributes }.

Inductive AppliedKey : Type := AppliedNetwork | AppliedDevice | AppliedGlobal.

#[export] Instance AppliedKey_eq_dec : EqDecision AppliedKey.
Proof. solve_decision. Defined.

Record DeviceState := mkDevice {
  dev_key : option DeviceLinkKey;
  pending_key : option Key;
  dev_incoming_frame_counter : option Z
}.

Definition device_default : DeviceState := mkDevice None None None.
Definition set_key (d : DeviceState) (k : option DeviceLinkKey) : DeviceState := mkDevice k (pending_key d) (dev_incoming_frame_counter d).
Definition set_pending (d : DeviceState) (k : option Key) : DeviceState := mkDevice (dev_key d) k (dev_incoming_frame_counter d).
Definition set_incoming (d : DeviceState) (n : option Z) : DeviceState := mkDevice (dev_key d) (pending_key d) n.

(** [ApsSecurity]. *)
Record t := mk {
  global_link_key : Key;
  local_eui64 : Eui64;
  devices : FlatMap.t Eui64 DeviceState;
  tclk_seed : option TclkSeed;
  outgoing_frame_counter : Z
}.

Definition new (global : Key) (local : Eui64) (seed : option TclkSeed) : t := mk global local FlatMap.new seed 0.

Definition with_devices (s : t) (m : FlatMap.t Eui64 DeviceState) : t :=
  mk (global_link_key s) (local_eui64 s) m (tclk_seed s) (outgoing_frame_counter s).
Definition with_outgoing (s : t) (n : Z) : t := mk (global_link_key s) (local_eui64 s) (devices s) (tclk_seed s) n.

(** [self.devices.entry(eui64).or_default()], updated in place. *)
Definition update_device (s : t) (eui64 : Eui64) (f : DeviceState -> DeviceState) : t :=
  with_devices s (FlatMap.modify (FlatMap.or_insert_with (devices s) eui64 device_default) eui64 f).

Definition device_key (s : t) (eui64 : Eui64) : option DeviceLinkKey := FlatMap.get (devices s) eui64 ≫= dev_key.

(** Drop an entry that holds nothing. *)
Definition prune_if_empty (s : t) (eui64 : Eui64) : t :=
  match FlatMap.get (devices s) eui64 with
  | Some (mkDevice None None None) => with_devices s (FlatMap.remove (devices s) eui64).2
  | _ => s
  end.

Definition restore_device_key (s : t) (eui64 : Eui64) (k : Key) : t :=
  update_device s eui64 (fun d => set_key d (Some (mkLinkKey k Verified))).

Definition restore_incoming_frame_counter (s : t) (eui64 : Eui64) (n : Z) : t :=
  update_device s eui64 (fun d => set_incoming d (Some n)).

Definition incoming_frame_counter (s : t) (eui64 : Eui64) : option Z :=
  FlatMap.get (devices s) eui64 ≫= dev_incoming_frame_counter.

Definition restore_outgoing_frame_counter (s : t) (n : Z) : t := with_outgoing s (Z.max (outgoing_frame_counter s) n).

Definition set_provisional_key (s : t) (eui64 : Eui64) (k : Key) : t :=
  update_device s eui64 (fun d => set_key d (Some (mkLinkKey k Provisional))).

Definition begin_join (s : t) (eui64 : Eui64) : option Key * t :=
  match FlatMap.get (devices s) eui64 with
  | None => (None, s)
  | Some d =>
      let s := with_devices s (FlatMap.modify (devices s) eui64 (fun d => set_pending d None)) in
      match dev_key d with
      | Some link_key =>
          if bool_decide (attributes link_key = Provisional) then (Some (key link_key), s)
          else
            let s := with_devices s (FlatMap.modify (devices s) eui64 (fun d => set_key d None)) in
            (None, prune_if_empty s eui64)
      | None => (None, s)
      end
  end.

Definition has_unique_link_key (s : t) (eui64 : Eui64) : bool :=
  bool_decide (is_Some (device_key s eui64)) || bool_decide (is_Some (tclk_seed s)).

Definition device_key_count (s : t) : nat :=
  length (filter (fun d => is_Some (dev_key d)) (FlatMap.values (devices s))).

Definition device_keys (s : t) : list (Eui64 * DeviceLinkKey) :=
  omap (fun e => (fun k => (e.1, k)) <$> dev_key e.2) (FlatMap.entries (devices s)).

(** Security frame counters never wrap. *)
Definition next_outgoing_frame_counter (s : t) : may (Z * t) :=
  n ← unwrap (checked_add u32_max (outgoing_frame_counter s) 1);
  Ok (n, with_outgoing s n).

Definition next_aux_header (s : t) (id : NwkSecurityHeaderKeyId) : may (ApsAuxHeader * t) :=
  '(n, s) ← next_outgoing_frame_counter s;
  Ok (mkAux (mkSecurityControl NoSecurity id true false) n (Some (local_eui64 s)) None, s).

Section Keys.
Context `{!BlockCipher}.

Definition derive (s : TclkSeed) (eui64 : Eui64) : may Key :=
  match flavor s with
  | ZStack => Crypto.zstack_tclk (seed s) eui64 0
  | Ezsp => Crypto.ezsp_tclk (seed s) eui64
  end.

Definition unkeyed_link_key (s : t) (eui64 : Eui64) : may Key :=
  match tclk_seed s with
  | None => Ok (global_link_key s)
  | Some seed => derive seed eui64
  end.

Definition issue_device_key (s : t) (eui64 : Eui64) (fresh_key : Key) : may (Key * t) :=
  k ← match tclk_seed s with None => Ok fresh_key | Some seed => derive seed eui64 end;
  Ok (k, update_device s eui64 (fun d => set_pending d (Some k))).

Definition device_link_key (s : t) (eui64 : Eui64) : may Key :=
  match device_key s eui64 with
  | Some link_key => Ok (key link_key)
  | None => unkeyed_link_key s eui64
  end.

Definition join_link_key (s : t) (eui64 : Eui64) : Key :=
  match device_key s eui64 with Some link_key => key link_key | None => global_link_key s end.

Definition verify_device_key (s : t) (eui64 : Eui64) (hash : bytes) : may (option bool * t) :=
  match FlatMap.get (devices s) eui64 with
  | None => Ok (None, s)
  | Some d =>
      match pending_key d with
      | Some pending =>
          expected ← Crypto.verify_key_hash pending;
          if bool_decide (expected = hash) then
            Ok (Some true, with_devices s
              (FlatMap.modify (devices s) eui64 (fun d => set_pending (set_key d (Some (mkLinkKey pending Verified))) None)))
          else Ok (Some false, s)
      | None =>
          match dev_key d with
          | None => Ok (None, s)
          | Some link_key =>
              expected ← Crypto.verify_key_hash (key link_key);
              if bool_decide (expected = hash) then
                Ok (Some true, with_devices s
                  (FlatMap.modify (devices s) eui64 (fun d => set_key d (Some (mkLinkKey (key link_key) Verified)))))
              else Ok (Some false, s)
          end
      end
  end.

Definition select_key (link_key : Key) (id : NwkSecurityHeaderKeyId) : may (option Key) :=
  match id with
  | KeyTransportKey => Some <$> Crypto.key_transport_key link_key
  | KeyLoadKey => Some <$> Crypto.key_load_key link_key
  | DataKey => Ok (Some link_key)
  | NetworkKey => Ok None
  end.

(** The key that may encrypt outgoing data frames and acks: not one that was issued but never
    verified. *)
Definition data_link_key (s : t) (eui64 : Eui64) : may (option Key) :=
  match device_key s eui64 with
  | Some entry => Ok (if bool_decide (attributes entry = Unverified) then None else Some (key entry))
  | None => Some <$> unkeyed_link_key s eui64
  end.

(** ** Decryption *)

(** [candidate_keys.iter().find_map(..)]. *)
Fixpoint try_keys {T} (id : NwkSecurityHeaderKeyId) (decrypt : Key -> may (option T)) (keys : list Key) : may (option (Key * T)) :=
  match keys with
  | [] => Ok None
  | link_key :: keys =>
      selected ← select_key link_key id;
      k ← unwrap selected;
      frame ← decrypt k;
      match frame with
      | Some frame => Ok (Some (link_key, frame))
      | None => try_keys id decrypt keys
      end
  end.

(** The key is classified, and a frame under a unique link key is checked against the incoming
    counter, which then moves past it. *)
Definition accept_frame {T} (s : t) (source : Eui64) (counter : Z) (link_key : Key) (frame : T) : may (option (T * AppliedKey) * t) :=
  if bool_decide (link_key = global_link_key s) then Ok (Some (frame, AppliedGlobal), s)
  else if match incoming_frame_counter s source with Some minimum => counter <? minimum | None => false end then Ok (None, s)
  else
    n ← unwrap (checked_add u32_max counter 1);
    Ok (Some (frame, AppliedDevice), update_device s source (fun d => set_incoming d (Some n))).

Definition candidate_keys (s : t) (link : Key) : list Key :=
  if bool_decide (link = global_link_key s) then [link] else [link; global_link_key s].

Definition decrypt_frame {T} (s : t) (source : Eui64) (aux : ApsAuxHeader) (network_key : Key) (decrypt : Key -> may (option T))
    : may (option (T * AppliedKey) * t) :=
  let id := key_id (security_control aux) in
  if frame_counter aux =? u32_max then Ok (None, s)
  else if bool_decide (id = NetworkKey) then
    frame ← decrypt network_key;
    Ok (option_map (fun f => (f, AppliedNetwork)) frame, s)
  else
    link ← device_link_key s source;
    found ← try_keys id decrypt (candidate_keys s link);
    match found with
    | None => Ok (None, s)
    | Some (link_key, frame) => accept_frame s source (frame_counter aux) link_key frame
    end.
End Keys.

(** ** Frames *)
Section Frames.
Context `{!BlockCipher, !Ccm, !ApsCodecs, !AbstractBits NwkSecurityHeaderControlField}.

Definition encrypt_command_with_link_key (s : t) (link_key : Key) (id : NwkSecurityHeaderKeyId) (command : ApsCommandFrame)
    : may (EncryptedApsCommandFrame * t) :=
  selected ← select_key link_key id;
  k ← unwrap selected;
  '(aux, s) ← next_aux_header s id;
  e ← ApsFrame.encrypt_command command k aux;
  Ok (e, s).

Definition encrypt_command (s : t) (destination : Eui64) (id : NwkSecurityHeaderKeyId) (command : ApsCommandFrame)
    : may (EncryptedApsCommandFrame * t) :=
  link_key ← device_link_key s destination;
  encrypt_command_with_link_key s link_key id command.

Definition encrypt_command_with_applied_key (s : t) (source : Eui64) (applied : AppliedKey) (id : NwkSecurityHeaderKeyId)
    (command : ApsCommandFrame) : may (option EncryptedApsCommandFrame * t) :=
  match applied with
  | AppliedNetwork => Ok (None, s)
  | AppliedDevice | AppliedGlobal =>
      link_key ← match applied with AppliedDevice => device_link_key s source | _ => Ok (global_link_key s) end;
      '(e, s) ← encrypt_command_with_link_key s link_key id command;
      Ok (Some e, s)
  end.

Definition encrypt_data (s : t) (destination : Eui64) (frame : ApsDataFrame) : may (option EncryptedApsDataFrame * t) :=
  k ← data_link_key s destination;
  match k with
  | None => Ok (None, s)
  | Some k =>
      '(aux, s) ← next_aux_header s DataKey;
      e ← ApsFrame.encrypt_data frame k aux;
      Ok (Some e, s)
  end.

Definition encrypt_ack (s : t) (destination : Eui64) (ack : ApsAckFrame) : may (option EncryptedApsAckFrame * t) :=
  k ← data_link_key s destination;
  match k with
  | None => Ok (None, s)
  | Some k =>
      '(aux, s) ← next_aux_header s DataKey;
      e ← ApsFrame.encrypt_ack ack k aux;
      Ok (Some e, s)
  end.

Definition decrypt_command (s : t) (source : Eui64) (frame : EncryptedApsCommandFrame) (network_key : Key)
    : may (option (ApsCommandFrame * AppliedKey) * t) :=
  decrypt_frame s source (ec_aux_header frame) network_key (fun k => res_ok (ApsFrame.decrypt_command frame k)).

Definition decrypt_data (s : t) (source : Eui64) (frame : EncryptedApsDataFrame) (network_key : Key)
    : may (option ApsDataFrame * t) :=
  '(found, s) ← decrypt_frame s source (ed_aux_header frame) network_key (fun k => res_ok (ApsFrame.decrypt_data frame k source));
  Ok (option_map fst found, s).

Definition decrypt_ack (s : t) (source : Eui64) (frame : EncryptedApsAckFrame) (network_key : Key)
    : may (option ApsAckFrame * t) :=
  '(found, s) ← decrypt_frame s source (ea_aux_header frame) network_key (fun k => res_ok (ApsFrame.decrypt_ack frame k source));
  Ok (option_map fst found, s).
End Frames.
End ApsSecurity.
