(* ===== verification/ApsSecurityFacts.v ===== *)
(** * Properties of the APS security layer

    [step] is the transition relation of the component: every operation that changes the state, with
    the counter it accepted or emitted as its label. *)

From S2P Require Import Prelude Flat Types AbstractBits Crypto CryptoFacts NwkFrame ApsFrame ApsFrameFacts ApsSecurity.

Module ApsSecurityFacts.
Import ApsFrame ApsSecurity.
Import NwkFrame(NwkSecurityHeaderControlField, NwkSecurityHeaderKeyId, DataKey, NetworkKey, key_id).

(** ** One device *)
Lemma get_update s e f e' :
  FlatMap.get (devices (update_device s e f)) e' =
  if bool_decide (e = e') then Some (f (default device_default (FlatMap.get (devices s) e))) else FlatMap.get (devices s) e'.
Proof.
  cbn [devices update_device with_devices]. case_bool_decide as He.
  - subst e'. by rewrite FlatMap.get_modify_eq, FlatMap.get_or_insert_eq.
  - by rewrite FlatMap.get_modify_ne, FlatMap.get_or_insert_ne.
Qed.

(** The key and the counter of every device, as they read after an update of one of them. *)
Lemma device_key_update s e f e' :
  device_key (update_device s e f) e' =
  if bool_decide (e = e') then dev_key (f (default device_default (FlatMap.get (devices s) e))) else device_key s e'.
Proof. unfold device_key. rewrite get_update. by case_bool_decide. Qed.

Lemma incoming_update s e f e' :
  incoming_frame_counter (update_device s e f) e' =
  if bool_decide (e = e') then dev_incoming_frame_counter (f (default device_default (FlatMap.get (devices s) e)))
  else incoming_frame_counter s e'.
Proof. unfold incoming_frame_counter. rewrite get_update. by case_bool_decide. Qed.

(** An update that does not touch the counters. *)
Definition same_incoming (s s' : t) : Prop := forall e, incoming_frame_counter s' e = incoming_frame_counter s e.

Lemma same_incoming_update s e f :
  (forall d, dev_incoming_frame_counter (f d) = dev_incoming_frame_counter d) -> same_incoming s (update_device s e f).
Proof.
  intros Hf e'. rewrite incoming_update. case_bool_decide as He; [|done]. subst e'. rewrite Hf.
  unfold incoming_frame_counter. by destruct (FlatMap.get (devices s) e).
Qed.

Lemma same_incoming_modify s e f :
  (forall d, dev_incoming_frame_counter (f d) = dev_incoming_frame_counter d) ->
  same_incoming s (with_devices s (FlatMap.modify (devices s) e f)).
Proof.
  intros Hf e'. unfold incoming_frame_counter. cbn [devices with_devices]. destruct (decide (e = e')) as [->|He].
  - rewrite FlatMap.get_modify_eq. destruct (FlatMap.get (devices s) e') as [d|]; [|done]. cbn. by rewrite Hf.
  - by rewrite FlatMap.get_modify_ne.
Qed.

Lemma same_incoming_prune s e : same_incoming s (prune_if_empty s e).
Proof.
  intros e'. unfold prune_if_empty. destruct (FlatMap.get (devices s) e) as [[[?|] [?|] [?|]]|] eqn:Hg; try done.
  unfold incoming_frame_counter. cbn [devices with_devices]. destruct (decide (e = e')) as [<-|He].
  - by rewrite FlatMap.get_remove_eq, Hg.
  - by rewrite FlatMap.get_remove_ne.
Qed.

Lemma same_incoming_trans s s' s'' : same_incoming s s' -> same_incoming s' s'' -> same_incoming s s''.
Proof. intros H1 H2 e. by rewrite H2, H1. Qed.

Lemma begin_join_incoming s e : same_incoming s (begin_join s e).2.
Proof.
  unfold begin_join. destruct (FlatMap.get (devices s) e) as [d|]; [|done].
  pose proof (same_incoming_modify s e (fun d => set_pending d None) (fun d => eq_refl)) as H1. destruct (dev_key d); [|exact H1].
  case_bool_decide; [exact H1|]. eapply same_incoming_trans; [exact H1|]. eapply same_incoming_trans; [|apply same_incoming_prune].
  by apply (same_incoming_modify _ e (fun d => set_key d None)).
Qed.

(** ** Transitions *)
Inductive event : Type :=
| Accepted (source : Eui64) (counter : Z)
| Emitted (counter : Z)
(** the host restores an incoming counter: what it was, if there was one, and what it becomes *)
| Restored (source : Eui64) (from : option Z) (to : Z)
| Quiet.

(** A restore that puts a counter of [source] below what the stack had stored. *)
Definition rolls_back (source : Eui64) (ev : event) : Prop := exists m n, ev = Restored source (Some m) n /\ n < m.

Section Facts.
Context `{!BlockCipher, !Ccm, !ApsCodecs, !AbstractBits NwkSecurityHeaderControlField}.

Inductive step : t -> event -> t -> Prop :=
| step_restore_key s e k : step s Quiet (restore_device_key s e k)
| step_restore_incoming s e n : step s (Restored e (incoming_frame_counter s e) n) (restore_incoming_frame_counter s e n)
| step_restore_outgoing s n : step s Quiet (restore_outgoing_frame_counter s n)
| step_provisional s e k : step s Quiet (set_provisional_key s e k)
| step_begin_join s e : step s Quiet (begin_join s e).2
| step_issue s e fresh k s' : issue_device_key s e fresh = Ok (k, s') -> step s Quiet s'
| step_verify s e hash o s' : verify_device_key s e hash = Ok (o, s') -> step s Quiet s'
| step_encrypt_command s e id c f s' :
    encrypt_command s e id c = Ok (f, s') -> step s (Emitted (frame_counter (ec_aux_header f))) s'
| step_encrypt_transport s k id c f s' :
    encrypt_command_with_link_key s k id c = Ok (f, s') -> step s (Emitted (frame_counter (ec_aux_header f))) s'
| step_encrypt_reply s e applied id c f s' :
    encrypt_command_with_applied_key s e applied id c = Ok (Some f, s') -> step s (Emitted (frame_counter (ec_aux_header f))) s'
| step_encrypt_data s e d f s' :
    encrypt_data s e d = Ok (Some f, s') -> step s (Emitted (frame_counter (ed_aux_header f))) s'
| step_encrypt_ack s e k f s' :
    encrypt_ack s e k = Ok (Some f, s') -> step s (Emitted (frame_counter (ea_aux_header f))) s'
| step_decrypt_command s source f nk o s' :
    decrypt_command s source f nk = Ok (o, s') ->
    step s (match o with Some (_, AppliedDevice) => Accepted source (frame_counter (ec_aux_header f)) | _ => Quiet end) s'
| step_decrypt_frame s source aux nk T (decrypt : Key -> may (option T)) o s' :
    decrypt_frame s source aux nk decrypt = Ok (o, s') ->
    step s (match o with Some (_, AppliedDevice) => Accepted source (frame_counter aux) | _ => Quiet end) s'.

Inductive trace : t -> list event -> t -> Prop :=
| trace_nil s : trace s [] s
| trace_cons s ev s1 evs s2 : step s ev s1 -> trace s1 evs s2 -> trace s (ev :: evs) s2.

(** What one step does to the counters. *)
Definition counters_move (s : t) (ev : event) (s' : t) : Prop :=
  match ev with
  | Accepted source n =>
      (forall m, incoming_frame_counter s source = Some m -> m <= n) /\ incoming_frame_counter s' source = Some (n + 1)
  | _ => True
  end /\
  (forall e m, incoming_frame_counter s e = Some m -> ~ rolls_back e ev -> exists m', incoming_frame_counter s' e = Some m' /\ m <= m') /\
  match ev with
  | Emitted n => outgoing_frame_counter s < n /\ outgoing_frame_counter s' = n
  | _ => outgoing_frame_counter s <= outgoing_frame_counter s'
  end.

Lemma quiet_move s s' :
  same_incoming s s' -> outgoing_frame_counter s <= outgoing_frame_counter s' -> counters_move s Quiet s'.
Proof. intros Hs Ho. split_and!; [done| |done]. intros e m Hm _. exists m. rewrite Hs. by split. Qed.

Lemma emitted_move s n s' :
  same_incoming s s' -> outgoing_frame_counter s' = n -> outgoing_frame_counter s < n -> counters_move s (Emitted n) s'.
Proof. intros Hs Ho Hn. split_and!; [done| |done|done]. intros e m Hm _. exists m. rewrite Hs. by split. Qed.

Lemma next_aux_spec s id a s' :
  next_aux_header s id = Ok (a, s') ->
  frame_counter a = outgoing_frame_counter s + 1 /\ s' = with_outgoing s (frame_counter a) /\ extended_source a = Some (local_eui64 s) /\
  key_id (security_control a) = id.
Proof.
  unfold next_aux_header, next_outgoing_frame_counter. intros ([n s1] & Hk & [= <- <-])%bind_ok.
  apply bind_ok in Hk as (k & Hc & [= <- <-]). unfold checked_add in Hc. destruct (_ <=? _); [|done]. injection Hc as <-. done.
Qed.

Lemma encrypt_with_link_key_move s k id c f s' :
  encrypt_command_with_link_key s k id c = Ok (f, s') -> counters_move s (Emitted (frame_counter (ec_aux_header f))) s'.
Proof.
  unfold encrypt_command_with_link_key. intros (sel & _ & Hk)%bind_ok. apply bind_ok in Hk as (key & _ & Hk).
  apply bind_ok in Hk as ([a s1] & Ha & Hk). apply next_aux_spec in Ha as (Hn & -> & _). apply bind_ok in Hk as (e & He & [= <- <-]).
  assert (ec_aux_header e = a) as ->.
  { unfold ApsFrame.encrypt_command in He. apply bind_ok in He as (? & _ & He). apply bind_ok in He as (? & _ & He).
    by apply bind_ok in He as (? & _ & [= <-]). }
  apply emitted_move; [done|done|lia].
Qed.

Lemma encrypt_data_move s e d f s' :
  encrypt_data s e d = Ok (Some f, s') -> counters_move s (Emitted (frame_counter (ed_aux_header f))) s'.
Proof.
  unfold encrypt_data. intros ([k|] & _ & Hk)%bind_ok; [|done]. apply bind_ok in Hk as ([a s1] & Ha & Hk).
  apply next_aux_spec in Ha as (Hn & -> & _). apply bind_ok in Hk as (e' & He & [= <- <-]).
  assert (ed_aux_header e' = a) as ->.
  { unfold ApsFrame.encrypt_data in He. apply bind_ok in He as (? & _ & He). by apply bind_ok in He as (? & _ & [= <-]). }
  apply emitted_move; [done|done|lia].
Qed.

Lemma encrypt_ack_move s e k f s' :
  encrypt_ack s e k = Ok (Some f, s') -> counters_move s (Emitted (frame_counter (ea_aux_header f))) s'.
Proof.
  unfold encrypt_ack. intros ([key|] & _ & Hk)%bind_ok; [|done]. apply bind_ok in Hk as ([a s1] & Ha & Hk).
  apply next_aux_spec in Ha as (Hn & -> & _). apply bind_ok in Hk as (e' & He & [= <- <-]).
  assert (ea_aux_header e' = a) as ->.
  { unfold ApsFrame.encrypt_ack in He. apply bind_ok in He as (? & _ & He). by apply bind_ok in He as (? & _ & [= <-]). }
  apply emitted_move; [done|done|lia].
Qed.

Lemma accept_frame_move {T} s source n k (f : T) o s' :
  accept_frame s source n k f = Ok (o, s') ->
  counters_move s (match o with Some (_, AppliedDevice) => Accepted source n | _ => Quiet end) s'.
Proof.
  unfold accept_frame. case_bool_decide; [intros [= <- <-]; by apply quiet_move|].
  destruct (match incoming_frame_counter s source with Some m => n <? m | None => false end) eqn:Hm;
    [intros [= <- <-]; by apply quiet_move|].
  intros (k' & Hk & [= <- <-])%bind_ok. unfold checked_add in Hk. destruct (_ <=? _); [|done]. injection Hk as <-.
  assert (forall m, incoming_frame_counter s source = Some m -> m <= n) as Hle.
  { intros m Hs. rewrite Hs in Hm. by apply Z.ltb_ge in Hm. }
  split_and!; [done| | |done].
  - rewrite incoming_update, bool_decide_true by done. done.
  - intros e m He _. rewrite incoming_update. case_bool_decide as Heq; [|by exists m]. subst e. eexists. split; [reflexivity|].
    specialize (Hle m He). lia.
Qed.

Lemma decrypt_frame_move {T} s source aux nk (decrypt : Key -> may (option T)) o s' :
  decrypt_frame s source aux nk decrypt = Ok (o, s') ->
  counters_move s (match o with Some (_, AppliedDevice) => Accepted source (frame_counter aux) | _ => Quiet end) s'.
Proof.
  unfold decrypt_frame. destruct (_ =? _); [intros [= <- <-]; by apply quiet_move|]. case_bool_decide.
  - intros (fr & _ & [= <- <-])%bind_ok. destruct fr; by apply quiet_move.
  - intros (link & _ & Hk)%bind_ok. apply bind_ok in Hk as ([[k f]|] & _ & Hk); [by eapply accept_frame_move|].
    injection Hk as <- <-. by apply quiet_move.
Qed.

Lemma step_moves s ev s' : step s ev s' -> counters_move s ev s'.
Proof.
  destruct 1 as [s e k|s e n|s n|s e k|s e|s e fresh k s' Hk|s e hash o s' Hk|s e id c f s' Hk|s k id c f s' Hk|s e applied id c f s' Hk
    |s e d f s' Hk|s e k f s' Hk|s source f nk o s' Hk|s source aux nk T decrypt o s' Hk].
  - by apply quiet_move; [apply same_incoming_update|].
  - split_and!; [done| |done]. intros e' m Hm Hback. unfold restore_incoming_frame_counter. rewrite incoming_update.
    case_bool_decide as Heq; [|by exists m]. subst e'. exists n. split; [done|]. apply Z.nlt_ge. intros Hlt. apply Hback. exists m, n. by rewrite Hm.
  - apply quiet_move; [done|]. cbn. lia.
  - by apply quiet_move; [apply same_incoming_update|].
  - apply quiet_move; [apply begin_join_incoming|]. unfold begin_join, prune_if_empty.
    destruct (FlatMap.get (devices s) e) as [d|]; [|done]. destruct (dev_key d); [|done]. case_bool_decide; [done|]. cbn [snd].
    by destruct (FlatMap.get _ e) as [[[?|] [?|] [?|]]|].
  - unfold issue_device_key in Hk. apply bind_ok in Hk as (k' & _ & [= <- <-]). by apply quiet_move; [apply same_incoming_update|].
  - assert (s' = s \/ exists f, s' = with_devices s (FlatMap.modify (devices s) e f) /\
      forall d, dev_incoming_frame_counter (f d) = dev_incoming_frame_counter d) as [->|(f & -> & Hf)].
    { unfold verify_device_key in Hk. destruct (FlatMap.get (devices s) e) as [d|]; [|injection Hk; auto].
      destruct (pending_key d) as [p|].
      - apply bind_ok in Hk as (x & _ & Hk). case_bool_decide; injection Hk as <- <-; eauto.
      - destruct (dev_key d) as [l|]; [|injection Hk; auto]. apply bind_ok in Hk as (x & _ & Hk). case_bool_decide; injection Hk as <- <-; eauto. }
    + by apply quiet_move.
    + apply quiet_move; [by apply same_incoming_modify|done].
  - unfold encrypt_command in Hk. apply bind_ok in Hk as (k & _ & Hk). by eapply encrypt_with_link_key_move.
  - by eapply encrypt_with_link_key_move.
  - unfold encrypt_command_with_applied_key in Hk. destruct applied; [done|..];
      (apply bind_ok in Hk as (k & _ & Hk); apply bind_ok in Hk as ([g s1] & Hk & [= <- <-]); by eapply encrypt_with_link_key_move).
  - by eapply encrypt_data_move.
  - by eapply encrypt_ack_move.
  - by apply decrypt_frame_move in Hk.
  - by eapply decrypt_frame_move.
Qed.

(** ** Counters over time *)
Definition accepted (source : Eui64) (evs : list event) : list Z :=
  omap (fun ev => match ev with Accepted e n => if bool_decide (e = source) then Some n else None | _ => None end) evs.
Definition emitted (evs : list event) : list Z := omap (fun ev => match ev with Emitted n => Some n | _ => None end) evs.

Lemma trace_accepted s evs s' source :
  trace s evs s' -> Forall (fun ev => ~ rolls_back source ev) evs ->
  StronglySorted Z.lt (accepted source evs) /\
  forall m, incoming_frame_counter s source = Some m -> Forall (fun n => m <= n) (accepted source evs).
Proof.
  induction 1 as [s|s ev s1 evs s2 (Hev & Hmono & _)%step_moves _ IH]; [split; [constructor|by constructor]|].
  intros [Hback Hbacks]%Forall_cons. destruct (IH Hbacks) as [Hsort Hge].
  assert (forall m, incoming_frame_counter s source = Some m -> Forall (fun n => m <= n) (accepted source evs)) as Hrest.
  { intros m Hm. destruct (Hmono _ _ Hm Hback) as (m' & Hm' & Hle). eapply Forall_impl; [by apply Hge|]. cbn. lia. }
  destruct ev as [e n|n|e from n|]; [|done..]. cbn [accepted omap list_omap]. change (list_omap _ _ _ evs) with (accepted source evs).
  case_bool_decide as He; [|done]. subst e. destruct Hev as [Hle Hnew]. split.
  - constructor; [done|]. eapply Forall_impl; [by apply Hge|]. cbn. lia.
  - intros m Hm. constructor; [by apply Hle|by apply Hrest].
Qed.

(** C33: no replay under a unique link key: over any sequence of operations (joins, key exchanges,
    restores and decryptions of commands, data and acknowledgments interleaved, from any state) in
    which no restore puts the device's incoming counter below the one that is stored, the frame
    counters accepted from that device strictly increase, so no frame secured with its link key is
    accepted twice, whatever happened to its key in between. The condition is the host's to keep: the
    code stores the counter it is given without looking at the old one. *)
Theorem aps_no_replays s evs s' source :
  trace s evs s' -> Forall (fun ev => ~ rolls_back source ev) evs -> StronglySorted Z.lt (accepted source evs).
Proof. intros Ht Hb. by apply (trace_accepted _ _ _ source) in Ht as [? _]. Qed.

Lemma trace_emitted s evs s' :
  trace s evs s' ->
  StronglySorted Z.lt (emitted evs) /\ Forall (fun n => outgoing_frame_counter s < n <= outgoing_frame_counter s') (emitted evs) /\
  outgoing_frame_counter s <= outgoing_frame_counter s'.
Proof.
  induction 1 as [s|s ev s1 evs s2 (_ & _ & Hev)%step_moves _ (Hsort & Hgt & Hle)]; [split_and!; [constructor|constructor|lia]|].
  assert (outgoing_frame_counter s <= outgoing_frame_counter s1) as Hle1 by (destruct ev; lia).
  assert (Forall (fun n => outgoing_frame_counter s < n <= outgoing_frame_counter s2) (emitted evs)) as Hrest
    by (eapply Forall_impl; [exact Hgt|]; cbn; lia).
  destruct ev as [e n|n|e from n|]; [split_and!; [done..|lia]| |split_and!; [done..|lia]..]. cbn [emitted omap list_omap].
  change (list_omap _ _ _ evs) with (emitted evs). destruct Hev as [Hn Heq].
  split_and!; [constructor; [done|]|constructor; [lia|done]|lia]. eapply Forall_impl; [exact Hgt|]. cbn. lia.
Qed.

(** No nonce is reused: over any sequence of operations the frame counters of the secured frames
    the stack emits under link keys strictly increase, restored counters included. *)
Lemma aps_counters_never_reused s evs s' : trace s evs s' -> StronglySorted Z.lt (emitted evs).
Proof. intros Ht. by apply trace_emitted in Ht as [? _]. Qed.

(** ** The key exchange *)
Lemma link_key_same s s' x :
  device_key s' x = device_key s x -> tclk_seed s' = tclk_seed s -> global_link_key s' = global_link_key s ->
  device_link_key s' x = device_link_key s x.
Proof. intros Hk Hs Hg. unfold device_link_key, unkeyed_link_key. by rewrite Hk, Hs, Hg. Qed.

Lemma device_key_modify s e f x :
  device_key (with_devices s (FlatMap.modify (devices s) e f)) x =
  if bool_decide (e = x) then FlatMap.get (devices s) e ≫= (fun d => dev_key (f d)) else device_key s x.
Proof.
  unfold device_key. cbn [devices with_devices]. case_bool_decide as He.
  - subst x. rewrite FlatMap.get_modify_eq. by destruct (FlatMap.get (devices s) e).
  - by rewrite FlatMap.get_modify_ne.
Qed.

(** C34: a key exchange strands no device: issuing a key changes the link key of no device; a wrong
    hash in the Verify-Key exchange changes nothing; the hash of the issued key makes it the
    device's link key, usable for data, and leaves every other device's key as it was. *)
Theorem key_exchange s e fresh k s1 h :
  issue_device_key s e fresh = Ok (k, s1) -> Crypto.verify_key_hash k = Ok h ->
  (forall x, device_link_key s1 x = device_link_key s x) /\
  (forall h', h' <> h -> verify_device_key s1 e h' = Ok (Some false, s1)) /\
  exists s2, verify_device_key s1 e h = Ok (Some true, s2) /\
    device_link_key s2 e = Ok k /\ data_link_key s2 e = Ok (Some k) /\
    forall x, x <> e -> device_link_key s2 x = device_link_key s x.
Proof.
  unfold issue_device_key. intros (k' & _ & [= -> <-])%bind_ok Hh.
  set (s1 := update_device s e (fun d => set_pending d (Some k))).
  set (d0 := default device_default (FlatMap.get (devices s) e)).
  assert (FlatMap.get (devices s1) e = Some (set_pending d0 (Some k))) as Hget by (subst s1; rewrite get_update, bool_decide_true; done).
  assert (forall x, device_key s1 x = device_key s x) as Hkeys.
  { intros x. subst s1. rewrite device_key_update. case_bool_decide as He; [|done]. subst x. unfold device_key.
    by destruct (FlatMap.get (devices s) e). }
  split; [intros x; by apply link_key_same|]. unfold verify_device_key. rewrite Hget. cbn [pending_key set_pending]. rewrite Hh.
  cbn [mbind res_bind]. split; [intros h' Hne; by rewrite bool_decide_false|]. rewrite bool_decide_true by done.
  eexists. split; [reflexivity|].
  match goal with |- device_link_key ?s2 e = _ /\ _ => assert (forall x, device_key s2 x =
    if bool_decide (e = x) then Some (mkLinkKey k Verified) else device_key s x) as Hkey end.
  { intros x. rewrite device_key_modify, Hget. case_bool_decide; [done|apply Hkeys]. }
  split_and!.
  - unfold device_link_key. by rewrite Hkey, bool_decide_true.
  - unfold data_link_key. by rewrite Hkey, bool_decide_true.
  - intros x Hx. apply link_key_same; [|done..]. by rewrite Hkey, bool_decide_false.
Qed.

(** ** Joining *)
Lemma device_key_prune s e x : device_key (prune_if_empty s e) x = device_key s x.
Proof.
  unfold prune_if_empty. destruct (FlatMap.get (devices s) e) as [[[?|] [?|] [?|]]|] eqn:Hg; try done.
  unfold device_key. cbn [devices with_devices]. destruct (decide (e = x)) as [<-|He].
  - by rewrite FlatMap.get_remove_eq, Hg.
  - by rewrite FlatMap.get_remove_ne.
Qed.

(** The provisional key of a device, if it has one. *)
Definition provisional (s : t) (e : Eui64) : option Key :=
  k ← device_key s e; if bool_decide (attributes k = Provisional) then Some (key k) else None.

Lemma prune_config s e : global_link_key (prune_if_empty s e) = global_link_key s /\ tclk_seed (prune_if_empty s e) = tclk_seed s.
Proof. unfold prune_if_empty. by destruct (FlatMap.get (devices s) e) as [[[?|] [?|] [?|]]|]. Qed.

(** A fresh join starts from the right key: an install-code key survives it and is returned, any
    other key on record is forgotten, so that the joiner and the stack share the well-known key; the
    replay counters and the keys of every other device are untouched. *)
Lemma begin_join_spec s e :
  (begin_join s e).1 = provisional s e /\
  join_link_key (begin_join s e).2 e = default (global_link_key s) (provisional s e) /\
  same_incoming s (begin_join s e).2 /\
  forall x, x <> e -> device_key (begin_join s e).2 x = device_key s x.
Proof.
  split_and!; [| |apply begin_join_incoming|].
  - unfold begin_join, provisional, device_key. destruct (FlatMap.get (devices s) e) as [d|]; [|done]. cbn [mbind option_bind].
    destruct (dev_key d) as [k|]; [|done]. cbn [mbind option_bind]. by case_bool_decide.
  - unfold begin_join, provisional. destruct (FlatMap.get (devices s) e) as [d|] eqn:Hg.
    2: { cbn [snd]. unfold join_link_key, device_key. by rewrite Hg. }
    assert (device_key s e = dev_key d) as Hd by (unfold device_key; by rewrite Hg). rewrite Hd.
    destruct (dev_key d) as [k|] eqn:Hk; cbn [mbind option_bind snd].
    + case_bool_decide as Hp; cbn [snd].
      * unfold join_link_key. rewrite device_key_modify, bool_decide_true, Hg by done. cbn [mbind option_bind set_pending dev_key]. by rewrite Hk.
      * unfold join_link_key. rewrite device_key_prune. destruct (prune_config (with_devices
          (with_devices s (FlatMap.modify (devices s) e (fun d0 => set_pending d0 None)))
          (FlatMap.modify (devices (with_devices s (FlatMap.modify (devices s) e (fun d0 => set_pending d0 None)))) e (fun d0 => set_key d0 None))) e) as [-> _].
        rewrite device_key_modify, bool_decide_true by done. cbn [devices with_devices]. rewrite FlatMap.get_modify_eq, Hg. done.
    + unfold join_link_key. rewrite device_key_modify, bool_decide_true, Hg by done. cbn [mbind option_bind set_pending dev_key]. by rewrite Hk.
  - intros x Hx. assert (e <> x) as Hne by congruence. unfold begin_join. destruct (FlatMap.get (devices s) e) as [d|]; [|done].
    destruct (dev_key d); [case_bool_decide|]; cbn [snd]; rewrite ?device_key_prune, !device_key_modify, !bool_decide_false; done.
Qed.

(** ** Two stations *)
Context `{!ApsFrameFacts.ApsCodecsLaws, !ApsFrameFacts.SecurityControlLaws, !Crypto.CcmLaws}.

Lemma data_opens s source e f k nk :
  device_link_key s source = Ok k -> key_id (security_control (ed_aux_header e)) = DataKey ->
  frame_counter (ed_aux_header e) <> u32_max -> ApsFrame.decrypt_data e k source = Ok f ->
  decrypt_data s source e nk =
    ('(found, s') ← accept_frame s source (frame_counter (ed_aux_header e)) k f; Ok (option_map fst found, s')).
Proof.
  intros Hk Hid Hn Hd. unfold decrypt_data, decrypt_frame. rewrite (proj2 (Z.eqb_neq _ _) Hn), Hid, bool_decide_false by done.
  rewrite Hk. cbn [mbind res_bind]. unfold candidate_keys.
  assert (forall keys, try_keys DataKey (fun k0 => res_ok (ApsFrame.decrypt_data e k0 source)) (k :: keys) = Ok (Some (k, f))) as Hfind.
  { intros keys. cbn [try_keys select_key mbind res_bind unwrap]. by rewrite Hd. }
  case_bool_decide; by rewrite Hfind.
Qed.

Lemma encrypt_data_returns s dest f k :
  ApsFrameFacts.header_ok (header f) -> (length (asdu f) + Crypto.MIC_LENGTH <= MAX_PHY_PACKET_SIZE)%nat ->
  data_link_key s dest = Ok (Some k) -> outgoing_frame_counter s < u32_max ->
  exists e, encrypt_data s dest f = Ok (Some e, with_outgoing s (outgoing_frame_counter s + 1)) /\
    key_id (security_control (ed_aux_header e)) = DataKey /\ frame_counter (ed_aux_header e) = outgoing_frame_counter s + 1 /\
    forall source, ApsFrame.decrypt_data e k source = Ok f.
Proof.
  intros Hh Hl Hk Hn. set (n := outgoing_frame_counter s + 1).
  set (aux := mkAux (NwkFrame.mkSecurityControl NwkFrame.NoSecurity DataKey true false) n (Some (local_eui64 s)) None).
  destruct (ApsFrameFacts.data_encrypt_decrypt f k aux (local_eui64 s) Hh Hl eq_refl) as (c & He & Hd).
  exists (mkEncryptedData (header f) aux c). split_and!; [|done..].
  unfold encrypt_data. rewrite Hk. cbn [mbind res_bind]. unfold next_aux_header, next_outgoing_frame_counter, checked_add.
  rewrite (proj2 (Z.leb_le _ _)) by lia. cbn [unwrap mbind res_bind].
  change (local_eui64 (with_outgoing s (outgoing_frame_counter s + 1))) with (local_eui64 s). by rewrite He.
Qed.

(** Two stations that share a link key understand each other, once: what one secures for the
    other, the other opens as the same frame, whichever of its keys is the well-known one; and if
    their key is a unique one, opening the same frame again fails and changes nothing. *)
Lemma link_secured_exchange a b f k nk :
  ApsFrameFacts.header_ok (header f) -> (length (asdu f) + Crypto.MIC_LENGTH <= MAX_PHY_PACKET_SIZE)%nat ->
  data_link_key a (local_eui64 b) = Ok (Some k) -> device_link_key b (local_eui64 a) = Ok k ->
  0 <= outgoing_frame_counter a < u32_max - 1 ->
  (forall m, incoming_frame_counter b (local_eui64 a) = Some m -> m <= outgoing_frame_counter a + 1) ->
  exists e a' b', encrypt_data a (local_eui64 b) f = Ok (Some e, a') /\
    decrypt_data b (local_eui64 a) e nk = Ok (Some f, b') /\
    (k <> global_link_key b -> decrypt_data b' (local_eui64 a) e nk = Ok (None, b')).
Proof.
  intros Hh Hl Ha Hb Hn Hm.
  destruct (encrypt_data_returns a (local_eui64 b) f k Hh Hl Ha) as (e & He & Hid & Hc & Hd); [lia|].
  set (n := outgoing_frame_counter a + 1) in *. assert (frame_counter (ed_aux_header e) <> u32_max) as Hmax by lia.
  eexists e, _, (if bool_decide (k = global_link_key b) then b else update_device b (local_eui64 a) (fun d => set_incoming d (Some (n + 1)))).
  split_and!; [exact He| |].
  - rewrite (data_opens b (local_eui64 a) e f k nk Hb Hid Hmax (Hd _)). unfold accept_frame. rewrite Hc. case_bool_decide; [done|].
    assert (match incoming_frame_counter b (local_eui64 a) with Some minimum => n <? minimum | None => false end = false) as ->.
    { destruct (incoming_frame_counter b (local_eui64 a)) as [m|] eqn:Hi; [|done]. specialize (Hm m eq_refl). apply Z.ltb_ge. lia. }
    unfold checked_add. by rewrite (proj2 (Z.leb_le _ _)) by lia.
  - intros Hk. rewrite bool_decide_false by done. set (b' := update_device _ _ _).
    assert (device_link_key b' (local_eui64 a) = Ok k) as Hb'.
    { rewrite <- Hb. apply link_key_same; [|done..]. subst b'. rewrite device_key_update, bool_decide_true by done. unfold device_key.
      by destruct (FlatMap.get (devices b) (local_eui64 a)). }
    rewrite (data_opens b' (local_eui64 a) e f k nk Hb' Hid Hmax (Hd _)). unfold accept_frame. rewrite Hc.
    change (global_link_key b') with (global_link_key b). rewrite bool_decide_false by done.
    assert (incoming_frame_counter b' (local_eui64 a) = Some (n + 1)) as -> by (subst b'; rewrite incoming_update, bool_decide_true; done).
    by rewrite (proj2 (Z.ltb_lt _ _)) by lia.
Qed.
End Facts.

(** A key issued to a device that has no other entry and then joins afresh: the entry stays in the
    set although it holds nothing. *)
Lemma begin_join_leaves_empty_entry k :
  FlatMap.get (devices (begin_join (update_device (new k (mkEui64 []) None) (mkEui64 []) (fun d => set_pending d (Some k))) (mkEui64 [])).2)
    (mkEui64 []) = Some device_default.
Proof. vm_compute. reflexivity. Qed.
End ApsSecurityFacts.
