(* ===== verification/NwkCodec.v ===== *)
(** * Concrete codecs of the NWK structures

    Bit layouts for the packed fields of NWK frames, with their laws, and a CCM that has the
    documented behaviour: the parameters of [NwkFrame] and [Receive] instantiated. [NwkWitness] runs
    the theorems on them. *)

From S2P Require Import Prelude Types AbstractBits Codec Crypto NwkCommands NwkFrame Receive.

Module NwkCodec.
Import Codec NwkFrame.

(** ** The frame control field: two bytes *)
Record ControlLow := mkLow { l_type : NwkFrameType; l_version : Z; l_discover : NwkRouteDiscovery }.
Record ControlHigh := mkHigh {
  h_multicast : bool; h_security : bool; h_route : bool; h_dest : bool; h_source : bool; h_initiator : bool; h_reserved : Z }.

#[export] Instance NwkControlLow_eq_dec : EqDecision ControlLow.
Proof. solve_decision. Defined.
#[export] Instance NwkControlHigh_eq_dec : EqDecision ControlHigh.
Proof. solve_decision. Defined.

Definition nwk_types : list NwkFrameType := [TypeData; TypeCommand; TypeInterpan].
Definition type_code (t : NwkFrameType) : Z := match t with TypeData => 0 | TypeCommand => 1 | TypeInterpan => 3 end.
Definition type_of (z : Z) : option NwkFrameType :=
  match z with 0 => Some TypeData | 1 => Some TypeCommand | 3 => Some TypeInterpan | _ => None end.
Definition discoveries : list NwkRouteDiscovery := [Suppress; Enable; WithMulticast].
Definition discovery_code (d : NwkRouteDiscovery) : Z := match d with Suppress => 0 | Enable => 1 | WithMulticast => 2 end.

Definition encode_low (c : ControlLow) : Z := type_code (l_type c) + l_version c * 4 + discovery_code (l_discover c) * 64.
Definition decode_low (w : Z) : option ControlLow :=
  ty ← type_of (field w 0 2);
  discover ← nth_error discoveries (Z.to_nat (field w 6 2));
  Some (mkLow ty (field w 2 4) discover).

Definition encode_high (c : ControlHigh) : Z :=
  Z.b2z (h_multicast c) + Z.b2z (h_security c) * 2 + Z.b2z (h_route c) * 4 + Z.b2z (h_dest c) * 8 + Z.b2z (h_source c) * 16
  + Z.b2z (h_initiator c) * 32 + h_reserved c * 64.
Definition decode_high (w : Z) : option ControlHigh :=
  Some (mkHigh (flag w 0) (flag w 1) (flag w 2) (flag w 3) (flag w 4) (flag w 5) (field w 6 2)).

Lemma nwk_lows_checked :
  forallb (fun ty => forallb (fun v => forallb (fun d => value_ok encode_low decode_low (mkLow ty v d))
    discoveries) (seqZ 0 (2 ^ 4))) nwk_types = true.
Proof. vm_compute. reflexivity. Qed.
Lemma nwk_highs_checked :
  forallb (fun m => forallb (fun s => forallb (fun r => forallb (fun d => forallb (fun e => forallb (fun i => forallb (fun z =>
    value_ok encode_high decode_high (mkHigh m s r d e i z)) (seqZ 0 (2 ^ 2))) bools) bools) bools) bools) bools) bools = true.
Proof. vm_compute. reflexivity. Qed.
Lemma nwk_low_words : bytes_decode encode_low decode_low = true.
Proof. vm_compute. reflexivity. Qed.
Lemma nwk_high_words : bytes_decode encode_high decode_high = true.
Proof. vm_compute. reflexivity. Qed.

Lemma nwk_low_codec v : in_width 4 (l_version v) ->
  in_width (8 * Z.of_nat 1) (encode_low v) /\ decode_low (encode_low v) = Some v.
Proof.
  pose proof nwk_lows_checked as H. destruct v as [ty v d]. cbn [l_version]. intros Hv.
  peel H ty. peel_range H v Hv. peel H d. by apply bool_decide_eq_true in H.
Qed.
Lemma nwk_high_codec v : in_width 2 (h_reserved v) ->
  in_width (8 * Z.of_nat 1) (encode_high v) /\ decode_high (encode_high v) = Some v.
Proof.
  pose proof nwk_highs_checked as H. destruct v as [m s r d e i z]. cbn [h_reserved]. intros Hz.
  peel H m. peel H s. peel H r. peel H d. peel H e. peel H i. peel_range H z Hz. by apply bool_decide_eq_true in H.
Qed.

Definition control_build (p : ControlLow * ControlHigh) : NwkFrameControl :=
  mkFrameControl (l_type p.1) (l_version p.1) (l_discover p.1) (h_multicast p.2) (h_security p.2) (h_route p.2) (h_dest p.2)
    (h_source p.2) (h_initiator p.2) (h_reserved p.2).
Definition control_parts (c : NwkFrameControl) : ControlLow * ControlHigh :=
  (mkLow (frame_type c) (protocol_version c) (discover_route c),
   mkHigh (multicast c) (security c) (fc_source_route c) (fc_destination c) (fc_extended_source c) (end_device_initiator c) (reserved1 c)).
Lemma nwk_control_build_parts c : control_build (control_parts c) = c.
Proof. by destruct c. Qed.
Lemma nwk_control_parts_build p : control_parts (control_build p) = p.
Proof. by destruct p as [[] []]. Qed.

#[export] Instance control_bits : AbstractBits NwkFrameControl :=
  image_bits (seq_bits (word_bits 1 encode_low decode_low) (word_bits 1 encode_high decode_high)) control_build control_parts.
#[export] Instance control_laws : AbstractBitsLaws NwkFrameControl :=
  image_laws _ _ _ nwk_control_build_parts nwk_control_parts_build
    (seq_laws _ _ (word_laws 1 _ _ _ nwk_low_codec) (word_laws 1 _ _ _ nwk_high_codec)).
#[export] Instance control_layout : FixedLayout NwkFrameControl 2 :=
  image_layout _ _ _ nwk_control_parts_build 2
    (seq_layout _ _ 1 1 (word_layout 1 _ _ (bytes_decode_spec _ _ nwk_low_words))
                        (word_layout 1 _ _ (bytes_decode_spec _ _ nwk_high_words))).

(** ** The security control field: one byte *)
#[export] Instance SecurityControl_eq_dec : EqDecision NwkSecurityHeaderControlField.
Proof. solve_decision. Defined.

Definition levels : list NwkSecurityLevel := [NoSecurity; Mic32; Mic64; Mic128; Enc; EncMic32; EncMic64; EncMic128].
Definition level_code (l : NwkSecurityLevel) : Z :=
  match l with
  | NoSecurity => 0 | Mic32 => 1 | Mic64 => 2 | Mic128 => 3 | Enc => 4 | EncMic32 => 5 | EncMic64 => 6 | EncMic128 => 7
  end.
Definition key_ids : list NwkSecurityHeaderKeyId := [DataKey; NetworkKey; KeyTransportKey; KeyLoadKey].
Definition key_code (k : NwkSecurityHeaderKeyId) : Z :=
  match k with DataKey => 0 | NetworkKey => 1 | KeyTransportKey => 2 | KeyLoadKey => 3 end.

Definition encode_security (c : NwkSecurityHeaderControlField) : Z :=
  level_code (security_level c) + key_code (key_id c) * 8 + Z.b2z (extended_nonce c) * 32
  + Z.b2z (require_verified_frame_counter c) * 64.
Definition decode_security (w : Z) : option NwkSecurityHeaderControlField :=
  level ← nth_error levels (Z.to_nat (field w 0 3));
  key ← nth_error key_ids (Z.to_nat (field w 3 2));
  Some (mkSecurityControl level key (flag w 5) (flag w 6)).

Lemma securities_checked :
  forallb (fun l => forallb (fun k => forallb (fun e => forallb (fun v =>
    value_ok encode_security decode_security (mkSecurityControl l k e v)) bools) bools) key_ids) levels = true.
Proof. vm_compute. reflexivity. Qed.
Lemma security_words :
  forallb (fun w => bool_decide (encode_security <$> decode_security w = Some (Z.land 0x7F w))) (seqZ 0 (2 ^ 8)) = true.
Proof. vm_compute. reflexivity. Qed.

Lemma security_codec v : True ->
  in_width (8 * Z.of_nat 1) (encode_security v) /\ decode_security (encode_security v) = Some v.
Proof.
  intros _. pose proof securities_checked as H. destruct v as [l k e v].
  peel H l. peel H k. peel H e. peel H v. by apply bool_decide_eq_true in H.
Qed.

#[export] Instance security_bits : AbstractBits NwkSecurityHeaderControlField := word_bits 1 encode_security decode_security.
#[export] Instance security_laws : AbstractBitsLaws NwkSecurityHeaderControlField :=
  word_laws 1 encode_security decode_security (fun _ => True) security_codec.
#[export] Instance security_size : FixedSize NwkSecurityHeaderControlField 1 := word_size 1 _ _.

Lemma from_le_singleton b : from_le_bytes [b] = b.
Proof. cbn. lia. Qed.
Lemma to_le_singleton b : in_width 8 b -> to_le_bytes 1 b = [b].
Proof. intros Hb. cbn. by rewrite Z.mod_small. Qed.

#[export] Instance security_reserved : ReservedBits NwkSecurityHeaderControlField [0x7F].
Proof.
  intros bs v n Hb Hr. pose proof Hr as [-> Hl]%word_read_bounded. destruct bs as [|b bs]; [cbn in Hl; lia|].
  apply Forall_cons in Hb as [Hb _]. pose proof (forallb_all _ _ b security_words (in_range 8 _ Hb)) as Hw.
  cbn beta in Hw. apply bool_decide_eq_true in Hw. revert Hr. cbn [read_abstract_bits security_bits word_bits length Nat.ltb Nat.leb take].
  rewrite from_le_singleton. destruct (decode_security b) as [c|]; [|discriminate]. intros [= <-].
  injection Hw as Hw. cbn [write_abstract_bits security_bits word_bits]. rewrite to_le_singleton by by apply (security_codec c). by rewrite Hw.
Qed.

Lemma security_controls_fit (c : NwkSecurityHeaderControlField) : canonical c.
Proof. exact I. Qed.

(** ** The source route: relay count, relay index, relays *)
Fixpoint read_relays (count : nat) (bs : bytes) : option (list Nwk) :=
  match count with
  | O => Some []
  | S count => if (length bs <? 2)%nat then None else (from_le_bytes (take 2 bs) ::.) <$> read_relays count (drop 2 bs)
  end.

#[export] Instance route_bits : AbstractBits NwkSourceRoute := {|
  read_abstract_bits bs :=
    match bs with
    | count :: index :: rest =>
        relays ← read_relays (Z.to_nat count) rest;
        Some (mkSourceRoute index relays, (2 + 2 * Z.to_nat count)%nat)
    | _ => None
    end;
  write_abstract_bits r :=
    if (length (relays r) <=? 255)%nat
    then Some (Z.of_nat (length (relays r)) :: relay_index r :: concat (map (to_le_bytes 2) (relays r)))
    else None
|}.

Definition route_fits (r : NwkSourceRoute) : Prop :=
  is_u8 (relay_index r) /\ (length (relays r) <= 255)%nat /\ Forall is_u16 (relays r).

Lemma length_relays l : length (concat (map (to_le_bytes 2) l)) = (2 * length l)%nat.
Proof. induction l as [|a l IH]; [done|]. cbn [map concat]. rewrite length_app, length_to_le_bytes, IH. cbn [length]. lia. Qed.

Lemma read_relays_written l rest :
  Forall is_u16 l -> read_relays (length l) (concat (map (to_le_bytes 2) l) ++ rest) = Some l.
Proof.
  induction 1 as [|a l Ha Hl IH]; [done|]. cbn [length read_relays map concat].
  rewrite length_app, length_app, length_to_le_bytes. rewrite (proj2 (Nat.ltb_ge _ _)) by lia. rewrite <- (assoc_L (++)).
  destruct (take_drop_app_length (to_le_bytes 2 a) (concat (map (to_le_bytes 2) l) ++ rest) 2) as [-> ->]; [apply length_to_le_bytes|].
  rewrite IH. cbn [fmap option_fmap option_map]. by rewrite from_to_le_bytes.
Qed.

Lemma read_relays_length count bs l :
  read_relays count bs = Some l -> length l = count /\ (2 * count <= length bs)%nat.
Proof.
  revert bs l. induction count as [|count IH]; intros bs l; cbn [read_relays]; [intros [= <-]; cbn; lia|].
  destruct (Nat.ltb_spec (length bs) 2) as [|Hl]; [discriminate|].
  destruct (read_relays count (drop 2 bs)) as [l'|] eqn:Hr; [|discriminate]. intros [= <-].
  apply IH in Hr as [<- Hle]. rewrite length_drop in Hle. cbn [length]. lia.
Qed.

Lemma read_relays_inv count bs l :
  is_bytes bs -> read_relays count bs = Some l -> concat (map (to_le_bytes 2) l) = take (2 * count) bs.
Proof.
  revert bs l. induction count as [|count IH]; intros bs l Hb; cbn [read_relays]; [by intros [= <-]|].
  destruct (Nat.ltb_spec (length bs) 2) as [|Hl]; [discriminate|].
  destruct (read_relays count (drop 2 bs)) as [l'|] eqn:Hr; [|discriminate]. intros [= <-].
  apply IH in Hr; [|by apply Forall_drop]. change (map ?f (?a :: ?l)) with (f a :: map f l). cbn [concat]. rewrite Hr.
  destruct (le_prefix 2 bs Hb Hl) as [Hpre _]. rewrite Hpre at 3. rewrite take_app, length_to_le_bytes.
  rewrite (take_ge (to_le_bytes 2 _)) by (rewrite length_to_le_bytes; lia). f_equal. f_equal. lia.
Qed.

Lemma route_read_inv bs (v : NwkSourceRoute) n :
  read_abstract_bits bs = Some (v, n) ->
  exists count rest, bs = count :: relay_index v :: rest /\ read_relays (Z.to_nat count) rest = Some (relays v) /\
    n = (2 + 2 * Z.to_nat count)%nat.
Proof.
  destruct bs as [|count [|index rest]]; [done..|]. cbn [read_abstract_bits route_bits].
  destruct (read_relays _ rest) as [l|] eqn:Hr; [|discriminate]. intros [= <- <-]. by exists count, rest.
Qed.

Lemma route_bounded bs (v : NwkSourceRoute) n : read_abstract_bits bs = Some (v, n) -> (n <= length bs)%nat.
Proof. intros (count & rest & -> & [_ Hl]%read_relays_length & ->)%route_read_inv. cbn [length]. lia. Qed.

Lemma route_round_trip r : route_fits r ->
  exists bs, write_abstract_bits r = Some bs /\ is_bytes bs /\ forall rest, read_abstract_bits (bs ++ rest) = Some (r, length bs).
Proof.
  intros (Hi & Hl & Hr). cbn [write_abstract_bits route_bits]. rewrite (proj2 (Nat.leb_le _ _) Hl). eexists.
  split; [reflexivity|]. split.
  - apply is_bytes_cons; [unfold in_width; lia|]. apply is_bytes_cons; [done|]. clear. induction (relays r) as [|a l IH]; [apply is_bytes_nil|].
    cbn [map concat]. apply is_bytes_app; [apply is_bytes_to_le_bytes|done].
  - intros rest. cbn [app read_abstract_bits route_bits length]. rewrite Nat2Z.id, read_relays_written by done. cbn [mbind option_bind].
    rewrite length_relays. by destruct r.
Qed.

#[export] Instance route_laws : AbstractBitsLaws NwkSourceRoute := {|
  canonical := route_fits : NwkSourceRoute -> Prop;
  read_bounded := route_bounded;
  read_after_write := route_round_trip
|}.

#[export] Instance route_lossless : Lossless NwkSourceRoute.
Proof.
  intros bs v n Hb (count & rest & -> & Hr & ->)%route_read_inv. apply Forall_cons in Hb as [Hc [_ Hb]%Forall_cons].
  unfold in_width in Hc. pose proof (read_relays_length _ _ _ Hr) as [Hl _]. apply read_relays_inv in Hr; [|done].
  cbn [write_abstract_bits route_bits]. rewrite Hl, Hr, (proj2 (Nat.leb_le _ _)), Z2Nat.id by lia. done.
Qed.

(** ** The Green Power control field: one byte *)
#[export] Instance GpFrameType_eq_dec : EqDecision Receive.GpFrameType.
Proof. solve_decision. Defined.

Definition decode_gp (w : Z) : option Receive.GpNwkFrameControl :=
  ty ← nth_error [Receive.GpData; Receive.GpMaintenance] (Z.to_nat (field w 0 2));
  Some (Receive.mkGpControl ty (field w 2 4) (flag w 6) (flag w 7)).
Definition encode_gp (c : Receive.GpNwkFrameControl) : Z :=
  (match Receive.gp_frame_type c with Receive.GpData => 0 | Receive.GpMaintenance => 1 end) + Receive.gp_protocol_version c * 4
  + Z.b2z (Receive.auto_commissioning c) * 64 + Z.b2z (Receive.extended c) * 128.
#[export] Instance gp_bits : AbstractBits Receive.GpNwkFrameControl := word_bits 1 encode_gp decode_gp.
End NwkCodec.
