(* ===== verification/NwkWitness.v ===== *)
(** * The NWK theorems on concrete frames

    Codecs for the command bodies (the leave command has its real layout; a body whose codec is left
    empty has no canonical value and decodes to nothing), a CCM with the documented behaviour, and
    the theorems of [NwkCommands], [NwkFrameFacts], [Receive] and [NextHop] applied to frames built
    with them. *)

From S2P Require Import Prelude Flat Types AbstractBits Codec Fcs Mac Crypto Routing RoutingFacts Neighbors NeighborFacts NwkSecurity.
From S2P Require Import NwkCommands NwkFrame NwkFrameFacts Receive NextHop NwkCodec.

Module NwkWitness.
Import Codec NwkFrame NwkFrameFacts NwkCodec.

(** ** Command bodies *)
Definition no_codec T : AbstractBits T := {| read_abstract_bits _ := None; write_abstract_bits _ := None |}.
Definition no_laws T : @AbstractBitsLaws T (no_codec T).
Proof. refine {| canonical := fun _ : T => False |}; done. Defined.

Definition encode_leave (c : NwkCommands.NwkLeaveCommand) : Z :=
  Z.b2z (NwkCommands.rejoin c) * 32 + Z.b2z (NwkCommands.request c) * 64 + Z.b2z (NwkCommands.remove_children c) * 128.
Definition decode_leave (w : Z) : option NwkCommands.NwkLeaveCommand :=
  Some (NwkCommands.mkLeave (flag w 5) (flag w 6) (flag w 7)).

Lemma leave_codec v : True -> in_width (8 * Z.of_nat 1) (encode_leave v) /\ decode_leave (encode_leave v) = Some v.
Proof. intros _. destruct v as [[] [] []]; (split; [split; vm_compute; congruence|reflexivity]). Qed.

#[export] Instance command_codecs : NwkCommands.CommandCodecs := {|
  NwkCommands.route_request_bits := no_codec _; NwkCommands.route_reply_bits := no_codec _;
  NwkCommands.network_status_bits := no_codec _; NwkCommands.leave_bits := word_bits 1 encode_leave decode_leave;
  NwkCommands.route_record_bits := no_codec _; NwkCommands.rejoin_request_bits := no_codec _;
  NwkCommands.rejoin_response_bits := no_codec _; NwkCommands.link_status_bits := no_codec _;
  NwkCommands.network_report_bits := no_codec _; NwkCommands.network_update_bits := no_codec _;
  NwkCommands.timeout_request_bits := no_codec _; NwkCommands.timeout_response_bits := no_codec _;
  NwkCommands.link_power_delta_bits := no_codec _; NwkCommands.commissioning_request_bits := no_codec _;
  NwkCommands.commissioning_response_bits := no_codec _
|}.

#[export] Instance command_codecs_laws : NwkCommands.CommandCodecsLaws := {|
  NwkCommands.route_request_laws := no_laws _; NwkCommands.route_reply_laws := no_laws _;
  NwkCommands.network_status_laws := no_laws _; NwkCommands.leave_laws := word_laws 1 _ _ _ leave_codec;
  NwkCommands.route_record_laws := no_laws _; NwkCommands.rejoin_request_laws := no_laws _;
  NwkCommands.rejoin_response_laws := no_laws _; NwkCommands.link_status_laws := no_laws _;
  NwkCommands.network_report_laws := no_laws _; NwkCommands.network_update_laws := no_laws _;
  NwkCommands.timeout_request_laws := no_laws _; NwkCommands.timeout_response_laws := no_laws _;
  NwkCommands.link_power_delta_laws := no_laws _; NwkCommands.commissioning_request_laws := no_laws _;
  NwkCommands.commissioning_response_laws := no_laws _
|}.

(** ** An authenticated cipher with the interface of CCM

    The keystream is constant and the tag a checksum over the key, the nonce, the authenticated data
    and the plaintext. *)
Definition mask (bs : bytes) : bytes := map (Z.lxor 0x5a) bs.
Definition checksum (bs : bytes) : Z := foldl (fun acc b => (31 * acc + b) mod 65521) 1 bs.
Definition tag (key : Key) (nonce aad plain : bytes) : bytes := to_le_bytes 4 (checksum (key_bytes key ++ nonce ++ aad ++ plain)).

#[export] Instance checksum_ccm : Ccm := {|
  encrypt_inout_detached key nonce aad plain := Some (mask plain, tag key nonce aad plain);
  decrypt_inout_detached key nonce aad cipher mic :=
    if bool_decide (mic = tag key nonce aad (mask cipher)) then Some (mask cipher) else None
|}.

Lemma mask_mask bs : mask (mask bs) = bs.
Proof.
  unfold mask. rewrite map_map. rewrite <- (map_id bs) at 2. apply map_ext. intros b.
  by rewrite <- Z.lxor_assoc, Z.lxor_nilpotent, Z.lxor_0_l.
Qed.

#[export] Instance checksum_ccm_laws : Crypto.CcmLaws.
Proof.
  constructor.
  - intros key nonce aad plain _. eexists _, _. split; [reflexivity|]. split; [apply length_map|apply length_to_le_bytes].
  - intros key nonce aad plain cipher mic. cbn. intros [= <- <-]. rewrite mask_mask. by rewrite bool_decide_true.
  - intros key nonce aad cipher mic plain. cbn. case_bool_decide; [|done]. intros [= <-]. apply length_map.
Qed.

#[export] Instance checksum_ccm_bytes : Crypto.CcmBytes.
Proof.
  intros key nonce aad plain cipher mic Hb. cbn -[tag]. intros Henc. assert (cipher = mask plain /\ mic = tag key nonce aad plain) as [-> ->] by (split; congruence).
  split; [clear Henc|apply is_bytes_to_le_bytes].
  induction Hb as [|x l Hx _ IH]; [apply is_bytes_nil|]. apply Forall_cons. split; [|exact IH]. by apply (lxor_width 8).
Qed.

(** ** Frames *)
Definition eui (b : Z) : Eui64 := mkEui64 (replicate 8 b).
Definition ex_key : Key := mkKey (replicate 16 0x77).

(** The NWK frame inside the encrypted data frame of the repository's test. *)
Definition captured : bytes := drop 9 Fcs.ex_frame.

Definition ex_control (ty : NwkFrameType) (route : bool) : NwkFrameControl :=
  mkFrameControl ty 2 Enable false true route false false false 0.

Definition ex_header (ty : NwkFrameType) (dest : Nwk) : NwkHeader :=
  mkHeader (ex_control ty false) dest 0x1d79 30 77 None None None None.

Definition ex_aux (counter : Z) : NwkAuxHeader :=
  mkAuxHeader (mkSecurityControl NoSecurity NetworkKey true false) counter (Some (eui 0x42)) 0.

Definition leave_command : NwkCommands.NwkCommand := NwkCommands.Leave (NwkCommands.mkLeave true false true).

(** A secured leave command for the coordinator. *)
Definition ex_frame : NwkFrame.t := NwkFrame.mk (ex_header TypeCommand 0x0000) (Some (ex_aux 1000)) (Command leave_command).

(** A source-routed frame on its way. *)
Definition ex_encrypted : EncryptedNwkFrame :=
  mkEncrypted
    (mkHeader (ex_control TypeData true) 0x1234 0x0000 30 5 None None None (Some (mkSourceRoute 1 [0x1111; 0x2222])))
    (Some (ex_aux 1000)) [1; 2; 3; 4; 5; 6; 7; 8].

Lemma eui_ok b : is_u8 b -> eui64_ok (eui b).
Proof. intros Hb. split; [done|]. by apply Forall_replicate. Qed.

Lemma ex_aux_ok level : aux_ok (set_level (ex_aux 1000) level).
Proof. constructor; cbn; [unfold in_width; lia..|apply eui_ok; unfold in_width; lia|unfold in_width; lia]. Qed.

Lemma ex_encrypted_ok : encrypted_ok ex_encrypted.
Proof.
  constructor; [|exact (ex_aux_ok NoSecurity)|apply (bool_decide_unpack _); vm_compute; exact I].
  constructor; cbn; try (unfold in_width; lia); try done.
  split; [|intros bs [= <-]; vm_compute; lia]. split; [unfold in_width; cbn; lia|]. split; [cbn; lia|].
  repeat constructor; lia.
Qed.

Lemma ex_header_ok ty dest : is_u16 dest -> header_ok (ex_header ty dest).
Proof. intros Hd. constructor; cbn; try done; try (unfold in_width; lia). Qed.

Lemma ex_securable : securable ex_frame (ex_aux 1000) [0x04; 0xa0].
Proof.
  constructor; [apply ex_header_ok; unfold in_width; lia|done|apply ex_aux_ok|left; by eexists|done|reflexivity|].
  unfold Crypto.MIC_LENGTH, MAX_PHY_PACKET_SIZE. cbn. lia.
Qed.

Lemma nwk_command_round_trip_witness :
  exists bs, NwkCommands.command_to_bytes (E:=ParseError) leave_command = Ok bs /\
    NwkCommands.command_from_bytes (E:=ParseError) bs = Ok leave_command /\
    (forall raw, leave_command = NwkCommands.Unparsed raw -> bs = raw) /\
    NwkCommands.command_id leave_command = head bs ≫= NwkCommands.id_of_u8.
Proof. apply (NwkCommands.nwk_command_round_trip leave_command). exact I. Defined.

Lemma nwk_frame_round_trip_witness :
  exists bs, to_bytes (E:=ParseError) ex_encrypted = Ok bs /\ is_bytes bs /\
    ((length bs <= MAX_PHY_PACKET_SIZE)%nat -> from_bytes bs = Ok ex_encrypted).
Proof. apply (nwk_frame_round_trip ex_encrypted), ex_encrypted_ok. Defined.

Lemma nwk_frame_reserializes_witness :
  exists f header control rest, from_bytes captured = Ok f /\ captured = header ++ control ++ rest /\
    header_serialize (E:=ParseError) [] (e_nwk_header f) = Ok header /\
    length control = (if security (frame_control (e_nwk_header f)) then 1 else 0)%nat /\
    to_bytes (E:=ParseError) f = Ok (header ++ map (Z.land 0x7F) control ++ rest).
Proof.
  destruct (from_bytes captured) as [f|e|] eqn:Hf; [|discriminate Hf..].
  destruct (nwk_frame_reserializes (E:=ParseError) captured f) as (h & c & r & Hr); [apply (bool_decide_unpack _); vm_compute; exact I|exact Hf|].
  exists f, h, c, r. split; [reflexivity|exact Hr].
Defined.

Lemma nwk_encrypt_decrypt_witness :
  exists e, encrypt (E:=ParseError) ex_frame ex_key = Ok e /\ e_nwk_header e = nwk_header ex_frame /\
    e_aux_header e = aux_header ex_frame /\ length (ciphertext e) = 6%nat /\ decrypt e ex_key = Ok ex_frame.
Proof. apply (nwk_encrypt_decrypt ex_frame (ex_aux 1000) [0x04; 0xa0] ex_key), ex_securable. Defined.

(** ** Reception *)

(** [encrypt], then [to_bytes]. *)
Definition secured_bytes (f : NwkFrame.t) : bytes :=
  match (e ← encrypt (E:=Empty_set) f ex_key; to_bytes e) with Ok bs => bs | _ => [] end.

Definition ex_mac_header : Mac.FrameHeader :=
  Mac.mkFrameHeader
    (Mac.mkFrameControl Mac.TypeData false false true true false false false Mac.ModeShort Mac.Ieee2003 Mac.ModeShort)
    (Some 0xa3) (Some 0x3ef5) (Some (AddrNwk 0x0000)) (Some 0x3ef5) (Some (AddrNwk 0x1d79)).

Definition ex_received : Mac.DataFrame bytes := Mac.mkDataFrame ex_mac_header (secured_bytes ex_frame) 0.

Definition ex_stack : Receive.t := Receive.mk 0x3ef5 0x0000 (eui 0x01) false (NwkSecurity.new ex_key 0 500 1000).

(** The stack after the frame. *)
Definition ex_stack' : Receive.t := Receive.note_counter ex_stack ex_frame.

Lemma ex_receive : Receive.receive ex_stack ex_received = Ok (Receive.Handle ex_frame 0x1d79, ex_stack').
Proof. vm_compute. reflexivity. Qed.

Lemma only_authentic_frames_handled_witness :
  Receive.authentic ex_stack ex_received ex_frame 0x1d79 /\
  Receive.Handle ex_frame 0x1d79 =
    (if Receive.is_transit ex_stack (nwk_header ex_frame) then Receive.Relay ex_frame 0x1d79 else Receive.Handle ex_frame 0x1d79).
Proof. apply (Receive.only_authentic_frames_handled ex_stack ex_received _ ex_stack' _ _ ex_receive). right. reflexivity. Defined.

Lemma received_frame_not_replayed_witness : Receive.receive ex_stack' ex_received = Ok (Receive.Drop, ex_stack').
Proof.
  apply (Receive.received_frame_not_replayed ex_stack ex_received (Receive.Handle ex_frame 0x1d79) ex_stack' ex_frame 0x1d79 ex_receive).
  right. reflexivity.
Defined.

Lemma receive_total_witness : exists o s', Receive.receive ex_stack ex_received = Ok (o, s').
Proof.
  apply (Receive.receive_total security_controls_fit ex_stack ex_received).
  apply (bool_decide_unpack _). vm_compute. exact I.
Defined.

(** ** Routing *)
Definition ex_data (dest : Nwk) : NwkFrame.t := NwkFrame.mk (ex_header TypeData dest) (Some (ex_aux 1000)) (Opaque [1; 2; 3]).

Lemma resolve_justified_witness :
  exists out f', NextHop.resolve RoutingFacts.ex_state Neighbors.new (ex_data 0x3333)
      (NextHop.RouteMode NextHop.StackDecides) (NextHop.mkPolicy true false 12) = Ok (out, f') /\
    NextHop.justified RoutingFacts.ex_state Neighbors.new (ex_data 0x3333)
      (NextHop.RouteMode NextHop.StackDecides) (NextHop.mkPolicy true false 12) out f'.
Proof.
  apply (NextHop.resolve_justified 0); [exact RoutingFacts.routing_ex_state_reachable|exact I|cbn; unfold u8_max; lia].
Defined.

Definition ex_relays : list Nwk := [0x1111; 0x2222].
Definition ex_net (a : Nwk) : NextHop.node := NextHop.mkNode a Neighbors.new Routing.new (NwkSecurity.new ex_key 0 0 1000).

Lemma neighbors_new_inv : NeighborFacts.inv Neighbors.new.
Proof. by split; [..|cbn; lia]. Qed.

Lemma source_route_delivers_witness :
  exists arrived, NextHop.carry ex_net 200 12 (length ex_relays)
      (NextHop.set_source_route (ex_data 0x3333) (mkSourceRoute 1 ex_relays)) 0x2222 0x0000 = Some ([0x2222; 0x1111], arrived) /\
    NextHop.same_message (ex_data 0x3333) arrived /\ radius (nwk_header arrived) = radius (nwk_header (ex_data 0x3333)) - 2.
Proof.
  apply (NextHop.source_route_delivers ex_net 200 12 (ex_data 0x3333)); [by split|by eexists|cbn; lia|].
  intros a _. split; [reflexivity|apply neighbors_new_inv].
Defined.
End NwkWitness.
