(* ===== verification/ApsWitness.v ===== *)
(** * The APS theorems on concrete frames

    Codecs for the APS control bytes and the network key descriptor, with their laws, and the theorems
    of [ApsFrameFacts] and [ApsSecurityFacts] applied to frames built with them. *)

From S2P Require Import Prelude Flat Types AbstractBits Codec Crypto CryptoFacts NwkFrame NwkFrameFacts NwkCodec NwkWitness.
From S2P Require Import ApsFrame ApsFrameFacts ApsSecurity ApsSecurityFacts.

Module ApsWitness.
Import Codec ApsFrame ApsFrameFacts.
Import NwkWitness(no_codec, no_laws, checksum_ccm, checksum_ccm_laws, eui, eui_ok).
#[local] Existing Instances NwkWitness.checksum_ccm NwkWitness.checksum_ccm_laws.
#[local] Existing Instances NwkCodec.security_bits NwkCodec.security_laws NwkCodec.security_size.

(** ** The control bytes *)
#[export] Instance ApsFrameControl_eq_dec : EqDecision ApsFrameControl.
Proof. solve_decision. Defined.
#[export] Instance ApsAckFrameControl_eq_dec : EqDecision ApsAckFrameControl.
Proof. solve_decision. Defined.

Definition aps_types : list ApsFrameType := [TypeData; TypeCommand; TypeAck; TypeInterpan].
Definition aps_modes : list ApsDeliveryMode := [Unicast; Broadcast; Multicast].
Definition mode_code (m : ApsDeliveryMode) : Z := match m with Unicast => 0 | Broadcast => 2 | Multicast => 3 end.
Definition mode_of (z : Z) : option ApsDeliveryMode :=
  match z with 0 => Some Unicast | 2 => Some Broadcast | 3 => Some Multicast | _ => None end.

Definition encode_control (c : ApsFrameControl) : Z :=
  type_code (frame_type c) + mode_code (delivery_mode c) * 4 + reserved1 c * 16 + Z.b2z (security c) * 32
  + Z.b2z (ack_request c) * 64 + Z.b2z (extended_header c) * 128.
Definition decode_control (w : Z) : option ApsFrameControl :=
  ty ← nth_error aps_types (Z.to_nat (field w 0 2));
  mode ← mode_of (field w 2 2);
  Some (mkControl ty mode (field w 4 1) (flag w 5) (flag w 6) (flag w 7)).

Definition encode_ack_control (c : ApsAckFrameControl) : Z :=
  type_code (ack_frame_type c) + mode_code (ack_delivery_mode c) * 4 + Z.b2z (ack_format c) * 16 + Z.b2z (ack_security c) * 32
  + Z.b2z (ack_ack_request c) * 64 + Z.b2z (ack_extended_header c) * 128.
Definition decode_ack_control (w : Z) : option ApsAckFrameControl :=
  ty ← nth_error aps_types (Z.to_nat (field w 0 2));
  mode ← mode_of (field w 2 2);
  Some (mkAckControl ty mode (flag w 4) (flag w 5) (flag w 6) (flag w 7)).

(** A control byte with the bits [parse_aps_frame] looks at. *)
Definition first_bits (w : Z) (ty : ApsFrameType) (secured : bool) : bool :=
  (Z.land w 3 =? type_code ty) && (Z.land w 32 =? if secured then 32 else 0).

Lemma aps_controls_checked :
  forallb (fun ty => forallb (fun m => forallb (fun r => forallb (fun s => forallb (fun a => forallb (fun e =>
    let c := mkControl ty m r s a e in
    value_ok encode_control decode_control c && first_bits (encode_control c) ty s) bools) bools) bools) (seqZ 0 (2 ^ 1))) aps_modes) aps_types = true.
Proof. vm_compute. reflexivity. Qed.
Lemma aps_ack_controls_checked :
  forallb (fun ty => forallb (fun m => forallb (fun r => forallb (fun s => forallb (fun a => forallb (fun e =>
    let c := mkAckControl ty m r s a e in
    value_ok encode_ack_control decode_ack_control c && first_bits (encode_ack_control c) ty s) bools) bools) bools) bools) aps_modes) aps_types = true.
Proof. vm_compute. reflexivity. Qed.

Lemma aps_control_codec v : in_width 1 (reserved1 v) ->
  (in_width (8 * Z.of_nat 1) (encode_control v) /\ decode_control (encode_control v) = Some v) /\
  first_bits (encode_control v) (frame_type v) (security v) = true.
Proof.
  pose proof aps_controls_checked as H. destruct v as [ty m r s a e]. cbn [reserved1]. intros Hr.
  peel H ty. peel H m. peel_range H r Hr. peel H s. peel H a. peel H e. apply andb_true_iff in H as [H ?].
  by apply bool_decide_eq_true in H.
Qed.
Lemma aps_ack_control_codec v :
  (in_width (8 * Z.of_nat 1) (encode_ack_control v) /\ decode_ack_control (encode_ack_control v) = Some v) /\
  first_bits (encode_ack_control v) (ack_frame_type v) (ack_security v) = true.
Proof.
  pose proof aps_ack_controls_checked as H. destruct v as [ty m r s a e].
  peel H ty. peel H m. peel H r. peel H s. peel H a. peel H e. apply andb_true_iff in H as [H ?].
  by apply bool_decide_eq_true in H.
Qed.

(** ** The network key descriptor: the key, the sequence number and two addresses *)
Definition write_descriptor (d : ApsNetworkKeyDescriptor) : option bytes :=
  if (length (key_bytes (nk_key d)) =? 16)%nat && (length (eui64_bytes (nk_destination_address d)) =? 8)%nat && (length (eui64_bytes (nk_source_address d)) =? 8)%nat
  then Some (key_bytes (nk_key d) ++ to_le_bytes 1 (nk_sequence_number d) ++ eui64_bytes (nk_destination_address d) ++ eui64_bytes (nk_source_address d))
  else None.
Definition read_descriptor (bs : bytes) : option (ApsNetworkKeyDescriptor * nat) :=
  if (length bs <? 33)%nat then None
  else Some (mkNetworkKeyDescriptor (mkKey (take 16 bs)) (from_le_bytes (take 1 (drop 16 bs))) (mkEui64 (take 8 (drop 17 bs))) (mkEui64 (take 8 (drop 25 bs))), 33%nat).
Definition descriptor_bits : AbstractBits ApsNetworkKeyDescriptor := {| read_abstract_bits := read_descriptor; write_abstract_bits := write_descriptor |}.

Definition descriptor_fits (d : ApsNetworkKeyDescriptor) : Prop :=
  key_ok (nk_key d) /\ is_u8 (nk_sequence_number d) /\ eui64_ok (nk_destination_address d) /\ eui64_ok (nk_source_address d).

Lemma descriptor_round_trip d : descriptor_fits d ->
  exists bs, write_descriptor d = Some bs /\ is_bytes bs /\ forall rest, read_descriptor (bs ++ rest) = Some (d, length bs).
Proof.
  destruct d as [[k] n [e1] [e2]]. unfold descriptor_fits, write_descriptor, read_descriptor, key_ok, eui64_ok.
  cbn [nk_key nk_sequence_number nk_destination_address nk_source_address key_bytes eui64_bytes].
  intros ([Hk Hkb] & Hn & [H1 H1b] & [H2 H2b]). rewrite Hk, H1, H2. cbn [Nat.eqb andb]. eexists. split; [reflexivity|].
  assert (length (k ++ to_le_bytes 1 n ++ e1 ++ e2) = 33%nat) as Hl by (rewrite !length_app, length_to_le_bytes; lia).
  split; [repeat apply is_bytes_app; auto using is_bytes_to_le_bytes|]. intros rest. rewrite Hl, length_app, Hl.
  rewrite (proj2 (Nat.ltb_ge _ _)) by lia. rewrite <- !(assoc_L (++)).
  rewrite (take_app_length' k) by done. change (drop 25) with (drop (A:=Z) (16 + (1 + 8))). change (drop 17) with (drop (A:=Z) (16 + 1)).
  rewrite <- !drop_drop, !(drop_app_length' k) by done. rewrite (take_app_length' (to_le_bytes 1 n)), !(drop_app_length' (to_le_bytes 1 n)) by (symmetry; apply length_to_le_bytes).
  rewrite (take_app_length' e1), (drop_app_length' e1), (take_app_length' e2) by done. by rewrite from_to_le_bytes by done.
Qed.

Definition descriptor_laws : @AbstractBitsLaws ApsNetworkKeyDescriptor descriptor_bits.
Proof.
  refine (Build_AbstractBitsLaws _ descriptor_bits descriptor_fits _ descriptor_round_trip).
  intros bs v n. cbn. unfold read_descriptor. destruct (Nat.ltb_spec (length bs) 33); [done|]. intros [= _ <-]. lia.
Defined.

Lemma descriptor_size : @FixedSize ApsNetworkKeyDescriptor descriptor_bits 33.
Proof.
  constructor.
  - intros [[k] n [e1] [e2]] bs. cbn. unfold write_descriptor. cbn [nk_key nk_sequence_number nk_destination_address nk_source_address key_bytes eui64_bytes].
    destruct (Nat.eqb_spec (length k) 16), (Nat.eqb_spec (length e1) 8), (Nat.eqb_spec (length e2) 8); try done.
    cbn [andb]. intros [= <-]. rewrite length_app. cbn [length]. rewrite length_app. lia.
  - intros bs v n. cbn. unfold read_descriptor. destruct (_ <? 33)%nat; [done|]. by intros [= _ <-].
Qed.

#[export] Instance aps_codecs : ApsCodecs := {|
  control_bits := word_bits 1 encode_control decode_control;
  ack_control_bits := word_bits 1 encode_ack_control decode_ack_control;
  extended_control_bits := no_codec _; tclk_descriptor_bits := no_codec _; network_key_descriptor_bits := descriptor_bits;
  application_key_descriptor_bits := no_codec _; update_device_bits := no_codec _; remove_device_bits := no_codec _;
  switch_key_bits := no_codec _; verify_key_bits := no_codec _; confirm_key_bits := no_codec _
|}.

Lemma no_codec_size T n : @FixedSize T (no_codec T) n.
Proof. by constructor. Qed.

(** The bits of a byte that was written. *)
Lemma written_first_bits {T} (encode : T -> Z) decode (v : T) b ty s :
  in_width 8 (encode v) -> first_bits (encode v) ty s = true ->
  @write_abstract_bits T (word_bits 1 encode decode) v = Some [b] -> Z.land b 3 = type_code ty /\ Z.land b 32 = if s then 32 else 0.
Proof.
  intros Hw Hf. cbn. rewrite Z.mod_small by exact Hw. intros [= <-]. apply andb_true_iff in Hf as [H1 H2].
  split; [by apply Z.eqb_eq|by apply Z.eqb_eq].
Qed.

#[export] Instance aps_codecs_laws : ApsCodecsLaws.
Proof.
  refine {|
    control_laws := word_laws 1 encode_control decode_control (fun v => in_width 1 (reserved1 v)) (fun v H => proj1 (aps_control_codec v H));
    control_size := word_size 1 _ _;
    ack_control_laws := word_laws 1 encode_ack_control decode_ack_control (fun _ => True) (fun v _ => proj1 (aps_ack_control_codec v));
    ack_control_size := word_size 1 _ _;
    tclk_descriptor_laws := no_laws _; tclk_descriptor_size := no_codec_size _ _;
    network_key_descriptor_laws := descriptor_laws; network_key_descriptor_size := descriptor_size;
    application_key_descriptor_laws := no_laws _; application_key_descriptor_size := no_codec_size _ _;
    update_device_laws := no_laws _; remove_device_laws := no_laws _; switch_key_laws := no_laws _;
    verify_key_laws := no_laws _; confirm_key_laws := no_laws _
  |}.
  - intros c b Hc Hw. destruct (aps_control_codec c Hc) as [[Hr _] Hf]. by apply (written_first_bits _ _ _ _ _ _ Hr Hf Hw).
  - intros c b Hc Hw. destruct (aps_control_codec c Hc) as [[Hr _] Hf]. by apply (written_first_bits _ _ _ _ _ _ Hr Hf Hw).
  - intros c b Hc Hw. destruct (aps_ack_control_codec c) as [[Hr _] Hf]. by apply (written_first_bits _ _ _ _ _ _ Hr Hf Hw).
  - intros c b Hc Hw. destruct (aps_ack_control_codec c) as [[Hr _] Hf]. by apply (written_first_bits _ _ _ _ _ _ Hr Hf Hw).
Defined.

#[export] Instance aps_security_control_laws : SecurityControlLaws :=
  {| security_control_laws := NwkCodec.security_laws; security_control_size := NwkCodec.security_size;
     security_control_fits := NwkCodec.security_controls_fit |}.

(** ** Frames *)
Definition ex_data_header (secured : bool) : ApsDataHeader :=
  mkDataHeader (mkControl TypeData Unicast 0 secured true false) None (Some 1) 0x0006 0x0104 1 90.
Definition ex_aux (n : Z) : ApsAuxHeader :=
  mkAux (NwkFrame.mkSecurityControl NwkFrame.NoSecurity NwkFrame.DataKey true false) n (Some (eui 0x42)) None.
Definition ex_secured : ApsFrame := EncryptedData (mkEncryptedData (ex_data_header true) (ex_aux 77) [9; 8; 7; 6; 5; 4; 3; 2]).

Lemma ex_data_header_ok secured : header_ok (ex_data_header secured).
Proof. constructor; cbn; try done; unfold in_width; lia. Qed.

Lemma ex_secured_ok : frame_ok ex_secured.
Proof.
  split; [split; [unfold canonical; cbn; unfold in_width; lia|done]|]. split; [apply ex_data_header_ok|].
  split; [|unfold fits, MAX_PHY_PACKET_SIZE; cbn; lia].
  constructor; cbn; [unfold in_width; lia|apply eui_ok; unfold in_width; lia|done].
Qed.

Lemma aps_frame_round_trip_witness : exists bs, frame_to_bytes (E:=NwkFrame.ParseError) ex_secured = Ok bs /\ parse_aps_frame bs = Ok ex_secured.
Proof. apply aps_frame_round_trip, ex_secured_ok. Defined.

(** A request for a link key with a partner, secured. *)
Definition ex_request : ApsFrame :=
  Command (mkCommand (mkControl TypeCommand Unicast 0 true false false) 12 (RequestKey (mkRequestKey RequestApplicationLinkKey (Some (eui 0x33))))).
Definition ex_key : Key := mkKey (replicate 16 0x77).

Lemma aps_encrypt_decrypt_witness :
  exists g, (forall E, secure (E:=E) ex_request ex_key (ex_aux 77) = Ok g) /\ forall source, open g ex_key source = Ok ex_request.
Proof.
  apply (aps_encrypt_decrypt ex_request ex_key (ex_aux 77) (eui 0x42)); [|reflexivity].
  split; [unfold canonical; cbn; unfold in_width; lia|]. split; [apply eui_ok; unfold in_width; lia|].
  intros payload [= <-]. unfold Crypto.MIC_LENGTH, MAX_PHY_PACKET_SIZE. cbn. lia.
Defined.

(** ** Security *)
Section Security.
Import ApsSecurity ApsSecurityFacts.
#[local] Instance xor_cipher : BlockCipher := fun key block => zip_with Z.lxor key block.

Definition ex_global : Key := mkKey (replicate 16 0x5a).
Definition station (local peer : Z) : t := restore_device_key (new ex_global (eui local) None) (eui peer) ex_key.

(** Two frames of one device, opened. *)
Definition opens (_ : Key) : may (option unit) := Ok (Some tt).
Definition after (s : t) (n : Z) : t := update_device s (eui 0x42) (fun d => set_incoming d (Some (n + 1))).

Lemma ex_trace :
  trace (station 0x01 0x42) [Accepted (eui 0x42) 5; Quiet; Restored (eui 0x42) (Some 6) 8; Accepted (eui 0x42) 9]
    (after (restore_incoming_frame_counter (begin_join (after (station 0x01 0x42) 5) (eui 0x33)).2 (eui 0x42) 8) 9).
Proof.
  eapply trace_cons.
  { apply (step_decrypt_frame _ (eui 0x42) (ex_aux 5) ex_global unit opens (Some (tt, AppliedDevice))). vm_compute. reflexivity. }
  eapply trace_cons; [apply (step_begin_join _ (eui 0x33))|].
  eapply trace_cons.
  { match goal with |- step ?s _ _ => replace (Some 6) with (incoming_frame_counter s (eui 0x42)) by reflexivity end. apply step_restore_incoming. }
  eapply trace_cons; [|apply trace_nil].
  apply (step_decrypt_frame _ (eui 0x42) (ex_aux 9) ex_global unit opens (Some (tt, AppliedDevice))). vm_compute. reflexivity.
Qed.

Lemma aps_no_replays_witness : StronglySorted Z.lt [5; 9].
Proof.
  apply (aps_no_replays _ _ _ (eui 0x42) ex_trace). repeat (apply Forall_cons; split); [..|by apply Forall_nil]; intros (m & n & [= <- <-] & Hlt) || intros (m & n & [=] & _).
  lia.
Defined.

Definition ex_frame : ApsDataFrame := into_frame (ex_data_header true) [1; 2; 3].
Lemma ex_sends s : tclk_seed s = None -> device_key s (eui 0x42) = Some (mkLinkKey ex_key Verified) -> outgoing_frame_counter s < u32_max ->
  step s (Emitted (outgoing_frame_counter s + 1)) (with_outgoing s (outgoing_frame_counter s + 1)).
Proof.
  intros Hs Hk Hn. destruct (encrypt_data_returns s (eui 0x42) ex_frame ex_key) as (e & He & _ & Hc & _).
  - apply ex_data_header_ok.
  - unfold Crypto.MIC_LENGTH, MAX_PHY_PACKET_SIZE. cbn. lia.
  - unfold data_link_key. by rewrite Hk.
  - done.
  - pose proof (step_encrypt_data _ _ _ _ _ He) as Hstep. by rewrite Hc in Hstep.
Qed.

Lemma ex_emit_trace : trace (station 0x01 0x42) [Emitted 1; Emitted 2] (with_outgoing (with_outgoing (station 0x01 0x42) 1) 2).
Proof.
  eapply trace_cons; [apply (ex_sends (station 0x01 0x42)); [reflexivity|reflexivity|unfold u32_max; cbn; lia]|].
  eapply trace_cons; [apply (ex_sends (with_outgoing (station 0x01 0x42) 1)); [reflexivity|reflexivity|unfold u32_max; cbn; lia]|].
  apply trace_nil.
Qed.

Lemma aps_counters_never_reused_witness : StronglySorted Z.lt [1; 2].
Proof. exact (aps_counters_never_reused _ _ _ ex_emit_trace). Defined.

Lemma key_exchange_witness :
  exists s1 h s2, issue_device_key (station 0x01 0x42) (eui 0x42) ex_global = Ok (ex_global, s1) /\
    verify_device_key s1 (eui 0x42) h = Ok (Some true, s2) /\ device_link_key s2 (eui 0x42) = Ok ex_global.
Proof.
  destruct (Crypto.verify_key_hash ex_global) as [h| |] eqn:Hh; [|vm_compute in Hh; discriminate Hh..].
  destruct (key_exchange (station 0x01 0x42) (eui 0x42) ex_global ex_global
    (update_device (station 0x01 0x42) (eui 0x42) (fun d => set_pending d (Some ex_global))) h eq_refl Hh) as (_ & _ & s2 & Hv & Hk & _).
  exists (update_device (station 0x01 0x42) (eui 0x42) (fun d => set_pending d (Some ex_global))), h, s2.
  split; [reflexivity|]. split; [exact Hv|exact Hk].
Defined.

Lemma link_secured_exchange_witness :
  exists e a' b', encrypt_data (station 0x01 0x42) (eui 0x42) ex_frame = Ok (Some e, a') /\
    decrypt_data (station 0x42 0x01) (eui 0x01) e ex_global = Ok (Some ex_frame, b') /\
    (ex_key <> ex_global -> decrypt_data b' (eui 0x01) e ex_global = Ok (None, b')).
Proof.
  apply (link_secured_exchange (station 0x01 0x42) (station 0x42 0x01) ex_frame ex_key ex_global).
  - apply ex_data_header_ok.
  - unfold Crypto.MIC_LENGTH, MAX_PHY_PACKET_SIZE. cbn. lia.
  - reflexivity.
  - reflexivity.
  - unfold u32_max. cbn. lia.
  - discriminate.
Defined.
End Security.
End ApsWitness.
