(* ===== verification/Spinel.v ===== *)
(** * Spinel: [src/crates/ziggurat-spinel/src/lib.rs]

    The protocol to the radio co-processor: packed integers, HDLC-lite framing, Spinel frames, and
    [SpinelProtocol], which reassembles the byte stream, matches responses to requests and routes
    notifications. The CRC comes from the [crc_all] crate and is a parameter. Channel endpoints are
    opaque values; what is sent to one is an [Action]. The scratch buffer a frame is unescaped into
    is reused only to save allocations and is not part of the state. *)

From stdpp Require Import gmap.
From S2P Require Import Prelude Types AbstractBits.

(** [CRC_KERMIT.init_crc] and [update_crc]: a 16-bit register. *)
Class Crc := update_crc : bytes -> Z.
Class CrcLaws `{Crc} := { crc_width bs : in_width 16 (update_crc bs) }.

Module Spinel.

(** Equality of a type whose values have codes that can be read back. *)
Definition eq_dec_by_code {T} (code : T -> Z) (decode : Z -> option T) (H : forall x, decode (code x) = Some x) : EqDecision T.
Proof.
  intros x y. destruct (decide (code x = code y)) as [E|E]; [left|right; congruence].
  pose proof (H x) as Hx. rewrite E, H in Hx. congruence.
Defined.

Definition U21_MAX : Z := Z.shiftl 1 21.
Definition MAX_HDLC_BUFFER_SIZE : nat := 4096.
Definition SPINEL_FRAME_MAX_SIZE : nat := 1300.

Inductive SpinelCommandId : Type :=
| CmdNoop | CmdReset | CmdPropValueGet | CmdPropValueSet | CmdPropValueInsert | CmdPropValueRemove | CmdPropValueIs
| CmdPropValueInserted | CmdPropValueRemoved | CmdPeek | CmdPeekRet | CmdPoke | CmdPropValueMultiGet
| CmdPropValueMultiSet | CmdPropValuesAre | CmdNetSave | CmdNetClear | CmdNetRecall | CmdHboOffload | CmdHboReclaim
| CmdHboDrop | CmdHboOffloaded | CmdHboReclaimed | CmdHboDropped.

Definition command_code (x : SpinelCommandId) : Z :=
  match x with
  | CmdNoop => 0 | CmdReset => 1 | CmdPropValueGet => 2 | CmdPropValueSet => 3 | CmdPropValueInsert => 4
  | CmdPropValueRemove => 5 | CmdPropValueIs => 6 | CmdPropValueInserted => 7 | CmdPropValueRemoved => 8
  | CmdPeek => 18 | CmdPeekRet => 19 | CmdPoke => 20 | CmdPropValueMultiGet => 21 | CmdPropValueMultiSet => 22
  | CmdPropValuesAre => 23 | CmdNetSave => 9 | CmdNetClear => 10 | CmdNetRecall => 11 | CmdHboOffload => 12
  | CmdHboReclaim => 13 | CmdHboDrop => 14 | CmdHboOffloaded => 15 | CmdHboReclaimed => 16 | CmdHboDropped => 17
  end.

Definition all_command : list SpinelCommandId :=
  [CmdNoop; CmdReset; CmdPropValueGet; CmdPropValueSet; CmdPropValueInsert; CmdPropValueRemove; CmdPropValueIs;
   CmdPropValueInserted; CmdPropValueRemoved; CmdPeek; CmdPeekRet; CmdPoke; CmdPropValueMultiGet;
   CmdPropValueMultiSet; CmdPropValuesAre; CmdNetSave; CmdNetClear; CmdNetRecall; CmdHboOffload; CmdHboReclaim;
   CmdHboDrop; CmdHboOffloaded; CmdHboReclaimed; CmdHboDropped].

Definition command_of (z : Z) : option SpinelCommandId := find (fun x => command_code x =? z) all_command.

Lemma command_of_code x : command_of (command_code x) = Some x.
Proof. by destruct x. Qed.
#[export] Instance SpinelCommandId_eq_dec : EqDecision SpinelCommandId.
Proof. exact (eq_dec_by_code command_code command_of command_of_code). Defined.

Inductive SpinelPropertyId : Type :=
| PropLastStatus | PropProtocolVersion | PropNcpVersion | PropInterfaceType | PropInterfaceVendorId | PropCaps
| PropInterfaceCount | PropPowerState | PropHwaddr | PropLock | PropHboMemMax | PropHboBlockMax | PropStreamDebug
| PropStreamRaw | PropStreamNet | PropPhyEnabled | PropPhyChan | PropPhyChanSupported | PropPhyFreq
| PropPhyCcaThreshold | PropPhyTxPower | PropPhyRssi | PropPhyRxSensitivity | PropMacScanState | PropMacScanMask
| PropMacScanPeriod | PropMacScanBeacon | PropMac154Laddr | PropMac154Saddr | PropMac154Panid
| PropMacRawStreamEnabled | PropMacPromiscuousMode | PropMacEnergyScanResult | PropMacDataPollPeriod
| PropMacRxOnWhenIdleMode | PropMac154AltSaddr | PropMacWhitelist | PropMacWhitelistEnabled | PropMacSrcMatchEnabled
| PropMacSrcMatchShortAddresses | PropMacSrcMatchExtendedAddresses | PropNetSaved | PropNetIfUp | PropNetStackUp
| PropNetRole | PropNetNetworkName | PropNetXpanid | PropNetMasterKey | PropNetKeySequenceCounter
| PropNetPartitionId | PropNetRequireJoinExisting | PropNetKeySwitchGuardtime | PropNetPskc | PropIpv6LlAddr
| PropIpv6MlAddr | PropIpv6MlPrefix | PropIpv6AddressTable | PropIpv6IcmpPingOffload | PropDebugTestAssert
| PropDebugNcpLogLevel | PropThreadLeaderAddr | PropThreadParent | PropThreadChildTable | PropThreadLeaderRid
| PropThreadLeaderWeight | PropThreadLocalLeaderWeight | PropThreadNetworkData | PropThreadNetworkDataVersion
| PropThreadStableNetworkData | PropThreadStableNetworkDataVersion | PropThreadOnMeshNets | PropThreadLocalRoutes
| PropThreadAssistingPorts | PropThreadAllowLocalNetDataChange | PropThreadMode | PropThreadChildTimeout
| PropThreadRloc16 | PropThreadRouterUpgradeThreshold | PropThreadContextReuseDelay | PropThreadNetworkIdTimeout
| PropThreadActiveRouterIds | PropThreadRloc16DebugPassthru | PropThreadRouterRoleEnabled
| PropThreadRouterDowngradeThreshold | PropThreadRouterSelectionJitter | PropThreadPreferredRouterId
| PropThreadNeighborTable | PropThreadChildCountMax | PropThreadLeaderNetworkData | PropThreadStableLeaderNetworkData
| PropThreadJoiners | PropThreadCommissionerEnabled | PropThreadBaProxyEnabled | PropThreadBaProxyStream
| PropThreadDisoveryScanJoinerFlag | PropThreadDiscoveryScanEnableFiltering | PropThreadDiscoveryScanPanid
| PropThreadSteeringData | PropJamDetectEnable | PropJamDetected | PropJamDetectRssiThreshold | PropJamDetectWindow
| PropJamDetectBusy | PropJamDetectHistoryBitmap | PropGpioConfig | PropGpioState | PropGpioStateSet
| PropGpioStateClear | PropTrng32 | PropTrng128 | PropTrngRaw32 | PropNestStreamMfg.

Definition property_code (x : SpinelPropertyId) : Z :=
  match x with
  | PropLastStatus => 0 | PropProtocolVersion => 1 | PropNcpVersion => 2 | PropInterfaceType => 3
  | PropInterfaceVendorId => 4 | PropCaps => 5 | PropInterfaceCount => 6 | PropPowerState => 7 | PropHwaddr => 8
  | PropLock => 9 | PropHboMemMax => 10 | PropHboBlockMax => 11 | PropStreamDebug => 112 | PropStreamRaw => 113
  | PropStreamNet => 114 | PropPhyEnabled => 32 | PropPhyChan => 33 | PropPhyChanSupported => 34 | PropPhyFreq => 35
  | PropPhyCcaThreshold => 36 | PropPhyTxPower => 37 | PropPhyRssi => 38 | PropPhyRxSensitivity => 39
  | PropMacScanState => 48 | PropMacScanMask => 49 | PropMacScanPeriod => 50 | PropMacScanBeacon => 51
  | PropMac154Laddr => 52 | PropMac154Saddr => 53 | PropMac154Panid => 54 | PropMacRawStreamEnabled => 55
  | PropMacPromiscuousMode => 56 | PropMacEnergyScanResult => 57 | PropMacDataPollPeriod => 58
  | PropMacRxOnWhenIdleMode => 59 | PropMac154AltSaddr => 60 | PropMacWhitelist => 4864
  | PropMacWhitelistEnabled => 4865 | PropMacSrcMatchEnabled => 4867 | PropMacSrcMatchShortAddresses => 4868
  | PropMacSrcMatchExtendedAddresses => 4869 | PropNetSaved => 64 | PropNetIfUp => 65 | PropNetStackUp => 66
  | PropNetRole => 67 | PropNetNetworkName => 68 | PropNetXpanid => 69 | PropNetMasterKey => 70
  | PropNetKeySequenceCounter => 71 | PropNetPartitionId => 72 | PropNetRequireJoinExisting => 73
  | PropNetKeySwitchGuardtime => 74 | PropNetPskc => 75 | PropIpv6LlAddr => 96 | PropIpv6MlAddr => 97
  | PropIpv6MlPrefix => 98 | PropIpv6AddressTable => 99 | PropIpv6IcmpPingOffload => 101
  | PropDebugTestAssert => 16384 | PropDebugNcpLogLevel => 16385 | PropThreadLeaderAddr => 80
  | PropThreadParent => 81 | PropThreadChildTable => 82 | PropThreadLeaderRid => 83 | PropThreadLeaderWeight => 84
  | PropThreadLocalLeaderWeight => 85 | PropThreadNetworkData => 86 | PropThreadNetworkDataVersion => 87
  | PropThreadStableNetworkData => 88 | PropThreadStableNetworkDataVersion => 89 | PropThreadOnMeshNets => 90
  | PropThreadLocalRoutes => 91 | PropThreadAssistingPorts => 92 | PropThreadAllowLocalNetDataChange => 93
  | PropThreadMode => 94 | PropThreadChildTimeout => 5376 | PropThreadRloc16 => 5377
  | PropThreadRouterUpgradeThreshold => 5378 | PropThreadContextReuseDelay => 5379
  | PropThreadNetworkIdTimeout => 5380 | PropThreadActiveRouterIds => 5381 | PropThreadRloc16DebugPassthru => 5382
  | PropThreadRouterRoleEnabled => 5383 | PropThreadRouterDowngradeThreshold => 5384
  | PropThreadRouterSelectionJitter => 5385 | PropThreadPreferredRouterId => 5386 | PropThreadNeighborTable => 5387
  | PropThreadChildCountMax => 5388 | PropThreadLeaderNetworkData => 5389 | PropThreadStableLeaderNetworkData => 5390
  | PropThreadJoiners => 5391 | PropThreadCommissionerEnabled => 5392 | PropThreadBaProxyEnabled => 5393
  | PropThreadBaProxyStream => 5394 | PropThreadDisoveryScanJoinerFlag => 5395
  | PropThreadDiscoveryScanEnableFiltering => 5396 | PropThreadDiscoveryScanPanid => 5397
  | PropThreadSteeringData => 5398 | PropJamDetectEnable => 4608 | PropJamDetected => 4609
  | PropJamDetectRssiThreshold => 4610 | PropJamDetectWindow => 4611 | PropJamDetectBusy => 4612
  | PropJamDetectHistoryBitmap => 4613 | PropGpioConfig => 4096 | PropGpioState => 4098 | PropGpioStateSet => 4099
  | PropGpioStateClear => 4100 | PropTrng32 => 4101 | PropTrng128 => 4102 | PropTrngRaw32 => 4103
  | PropNestStreamMfg => 0x3BC0
  end.

Definition all_property : list SpinelPropertyId :=
  [PropLastStatus; PropProtocolVersion; PropNcpVersion; PropInterfaceType; PropInterfaceVendorId; PropCaps;
   PropInterfaceCount; PropPowerState; PropHwaddr; PropLock; PropHboMemMax; PropHboBlockMax; PropStreamDebug;
   PropStreamRaw; PropStreamNet; PropPhyEnabled; PropPhyChan; PropPhyChanSupported; PropPhyFreq; PropPhyCcaThreshold;
   PropPhyTxPower; PropPhyRssi; PropPhyRxSensitivity; PropMacScanState; PropMacScanMask; PropMacScanPeriod;
   PropMacScanBeacon; PropMac154Laddr; PropMac154Saddr; PropMac154Panid; PropMacRawStreamEnabled;
   PropMacPromiscuousMode; PropMacEnergyScanResult; PropMacDataPollPeriod; PropMacRxOnWhenIdleMode;
   PropMac154AltSaddr; PropMacWhitelist; PropMacWhitelistEnabled; PropMacSrcMatchEnabled;
   PropMacSrcMatchShortAddresses; PropMacSrcMatchExtendedAddresses; PropNetSaved; PropNetIfUp; PropNetStackUp;
   PropNetRole; PropNetNetworkName; PropNetXpanid; PropNetMasterKey; PropNetKeySequenceCounter; PropNetPartitionId;
   PropNetRequireJoinExisting; PropNetKeySwitchGuardtime; PropNetPskc; PropIpv6LlAddr; PropIpv6MlAddr;
   PropIpv6MlPrefix; PropIpv6AddressTable; PropIpv6IcmpPingOffload; PropDebugTestAssert; PropDebugNcpLogLevel;
   PropThreadLeaderAddr; PropThreadParent; PropThreadChildTable; PropThreadLeaderRid; PropThreadLeaderWeight;
   PropThreadLocalLeaderWeight; PropThreadNetworkData; PropThreadNetworkDataVersion; PropThreadStableNetworkData;
   PropThreadStableNetworkDataVersion; PropThreadOnMeshNets; PropThreadLocalRoutes; PropThreadAssistingPorts;
   PropThreadAllowLocalNetDataChange; PropThreadMode; PropThreadChildTimeout; PropThreadRloc16;
   PropThreadRouterUpgradeThreshold; PropThreadContextReuseDelay; PropThreadNetworkIdTimeout;
   PropThreadActiveRouterIds; PropThreadRloc16DebugPassthru; PropThreadRouterRoleEnabled;
   PropThreadRouterDowngradeThreshold; PropThreadRouterSelectionJitter; PropThreadPreferredRouterId;
   PropThreadNeighborTable; PropThreadChildCountMax; PropThreadLeaderNetworkData; PropThreadStableLeaderNetworkData;
   PropThreadJoiners; PropThreadCommissionerEnabled; PropThreadBaProxyEnabled; PropThreadBaProxyStream;
   PropThreadDisoveryScanJoinerFlag; PropThreadDiscoveryScanEnableFiltering; PropThreadDiscoveryScanPanid;
   PropThreadSteeringData; PropJamDetectEnable; PropJamDetected; PropJamDetectRssiThreshold; PropJamDetectWindow;
   PropJamDetectBusy; PropJamDetectHistoryBitmap; PropGpioConfig; PropGpioState; PropGpioStateSet;
   PropGpioStateClear; PropTrng32; PropTrng128; PropTrngRaw32; PropNestStreamMfg].

Definition property_of (z : Z) : option SpinelPropertyId := find (fun x => property_code x =? z) all_property.

Lemma property_of_code x : property_of (property_code x) = Some x.
Proof. by destruct x. Qed.
#[export] Instance SpinelPropertyId_eq_dec : EqDecision SpinelPropertyId.
Proof. exact (eq_dec_by_code property_code property_of property_of_code). Defined.

Inductive SpinelStatus : Type :=
| StatusOk | StatusFailure | StatusUnimplemented | StatusInvalidArgument | StatusInvalidState | StatusInvalidCommand
| StatusInvalidInterface | StatusInternalError | StatusSecurityError | StatusParseError | StatusInProgress
| StatusNomem | StatusBusy | StatusPropNotFound | StatusDropped | StatusEmpty | StatusCmdTooBig | StatusNoAck
| StatusCcaFailure | StatusAlready | StatusItemNotFound | StatusInvalidCommandForProp | StatusUnknownNeighbor
| StatusNotCapable | StatusResponseTimeout | StatusResetPowerOn | StatusResetExternal | StatusResetSoftware
| StatusResetFault | StatusResetCrash | StatusResetAssert | StatusResetOther | StatusResetUnknown
| StatusResetWatchdog.

Definition status_code (x : SpinelStatus) : Z :=
  match x with
  | StatusOk => 0 | StatusFailure => 1 | StatusUnimplemented => 2 | StatusInvalidArgument => 3
  | StatusInvalidState => 4 | StatusInvalidCommand => 5 | StatusInvalidInterface => 6 | StatusInternalError => 7
  | StatusSecurityError => 8 | StatusParseError => 9 | StatusInProgress => 10 | StatusNomem => 11 | StatusBusy => 12
  | StatusPropNotFound => 13 | StatusDropped => 14 | StatusEmpty => 15 | StatusCmdTooBig => 16 | StatusNoAck => 17
  | StatusCcaFailure => 18 | StatusAlready => 19 | StatusItemNotFound => 20 | StatusInvalidCommandForProp => 21
  | StatusUnknownNeighbor => 22 | StatusNotCapable => 23 | StatusResponseTimeout => 24 | StatusResetPowerOn => 112
  | StatusResetExternal => 113 | StatusResetSoftware => 114 | StatusResetFault => 115 | StatusResetCrash => 116
  | StatusResetAssert => 117 | StatusResetOther => 118 | StatusResetUnknown => 119 | StatusResetWatchdog => 120
  end.

Definition all_status : list SpinelStatus :=
  [StatusOk; StatusFailure; StatusUnimplemented; StatusInvalidArgument; StatusInvalidState; StatusInvalidCommand;
   StatusInvalidInterface; StatusInternalError; StatusSecurityError; StatusParseError; StatusInProgress; StatusNomem;
   StatusBusy; StatusPropNotFound; StatusDropped; StatusEmpty; StatusCmdTooBig; StatusNoAck; StatusCcaFailure;
   StatusAlready; StatusItemNotFound; StatusInvalidCommandForProp; StatusUnknownNeighbor; StatusNotCapable;
   StatusResponseTimeout; StatusResetPowerOn; StatusResetExternal; StatusResetSoftware; StatusResetFault;
   StatusResetCrash; StatusResetAssert; StatusResetOther; StatusResetUnknown; StatusResetWatchdog].

Definition status_of (z : Z) : option SpinelStatus := find (fun x => status_code x =? z) all_status.

Lemma status_of_code x : status_of (status_code x) = Some x.
Proof. by destruct x. Qed.
#[export] Instance SpinelStatus_eq_dec : EqDecision SpinelStatus.
Proof. exact (eq_dec_by_code status_code status_of status_of_code). Defined.

(** [SpinelStatus::is_reset]. *)
Definition is_reset (s : SpinelStatus) : bool := status_code StatusResetPowerOn <=? status_code s.

Inductive SpinelFrameParsingError : Type :=
| PayloadTooShort (expected got : nat)
| NotSpinelFrame (flag : Z)
| PackedU21DidNotTerminate
| InvalidPropertyId (property_id : Z)
| InvalidCommandId (command_id : Z).

(** ** Packed integers *)

(** The loop of [packed_uint21_deserialize]: the octet at [index], at most three of them. *)
Fixpoint packed_loop (index : nat) (acc : Z) (bs : bytes) : res SpinelFrameParsingError (Z * bytes) :=
  match bs with
  | [] => Err PackedU21DidNotTerminate
  | b :: rest =>
      let acc := Z.lor acc (Z.shiftl (Z.land b 127) (7 * Z.of_nat index)) in
      if Z.land b 128 =? 0 then Ok (acc, rest)
      else if (2 <=? index)%nat then Err PackedU21DidNotTerminate
      else packed_loop (S index) acc rest
  end.
Definition packed_uint21_deserialize (bs : bytes) : res SpinelFrameParsingError (Z * bytes) := packed_loop 0 0 bs.

(** The loop of [packed_uint21_to_bytes]; the fuel bounds the number of octets of a [u32]. *)
Fixpoint packed_chunks (fuel : nat) (temp : Z) : bytes :=
  match fuel with
  | O => []
  | S fuel => if temp =? 0 then [] else Z.lor (Z.land (temp mod 256) 127) 128 :: packed_chunks fuel (Z.shiftr temp 7)
  end.

(** [chunks[len - 1] &= 0b01111111]. *)
Definition clear_last (chunks : bytes) : bytes :=
  match last chunks with Some b => removelast chunks ++ [Z.land b 127] | None => [] end.

Definition packed_uint21_to_bytes (value : Z) : may bytes :=
  if value =? 0 then Ok [0]
  else if U21_MAX <? value then Panic
  else Ok (clear_last (packed_chunks 5 value)).

(** ** HDLC *)
Inductive HdlcSpecial : Type := Flag | Escape | Xon | Xoff | Vendor.
Definition special_code (s : HdlcSpecial) : Z := match s with Flag => 0x7E | Escape => 0x7D | Xon => 0x11 | Xoff => 0x13 | Vendor => 0xF8 end.
Definition is_special (b : Z) : bool := existsb (fun s => special_code s =? b) [Flag; Escape; Xon; Xoff; Vendor].

Inductive HdlcLiteFrameParsingError : Type :=
| BadEscapeByte (byte : Z)
| InvalidCrc (expected_crc got_crc : Z)
| FrameTooShort (expected got : nat)
| HdlcPayloadTooShort (expected got : nat).

(** The loop over the escaped bytes. *)
Fixpoint unescape (unescaping : bool) (bs : bytes) : res HdlcLiteFrameParsingError bytes :=
  match bs with
  | [] => Ok []
  | b :: bs =>
      if unescaping then
        let b := Z.lxor b 0x20 in
        if negb (is_special b) then Err (BadEscapeByte b) else data ← unescape false bs; Ok (b :: data)
      else if b =? special_code Escape then unescape true bs
      else if b =? special_code Flag then unescape false bs
      else data ← unescape false bs; Ok (b :: data)
  end.

Section Hdlc.
Context `{!Crc}.

Definition frame_crc (data : bytes) : Z := Z.lxor (update_crc data) 0xFFFF.

Definition hdlc_unescape_into (bs : bytes) : res HdlcLiteFrameParsingError bytes :=
  if (length bs <? 2)%nat then Err (FrameTooShort 2 (length bs))
  else
    data ← unescape false bs;
    let n := length data in
    if (n <? 2)%nat then Err (HdlcPayloadTooShort 2 n)
    else
      let crc := frame_crc (take (n - 2) data) in
      let expected := from_le_bytes (drop (n - 2) data) in
      if negb (crc =? expected) then Err (InvalidCrc expected crc) else Ok (take (n - 2) data).

Definition escape_byte (b : Z) : bytes := if is_special b then [special_code Escape; Z.lxor b 0x20] else [b].
Definition hdlc_escape_into (data : bytes) : bytes := concat (map escape_byte (data ++ to_le_bytes 2 (frame_crc data))).

Definition to_bytes_with_flags (data : bytes) : bytes := [special_code Flag] ++ hdlc_escape_into data ++ [special_code Flag].
End Hdlc.

(** ** Spinel frames *)
Record SpinelHeader := mkHeader { flag : Z; network_link_id : Z; transaction_id : Z }.

Definition header_from_bytes (bs : bytes) : res SpinelFrameParsingError SpinelHeader :=
  match bs with
  | [] => Err (PayloadTooShort 1 0)
  | b :: _ => Ok (mkHeader (Z.shiftr (Z.land b 192) 6) (Z.shiftr (Z.land b 48) 4) (Z.land b 15))
  end.

(** The shifts are on [u8]. *)
Definition header_to_bytes (h : SpinelHeader) : bytes :=
  [Z.lor (Z.lor (Z.shiftl (flag h) 6 mod 256) (Z.shiftl (network_link_id h) 4 mod 256)) (transaction_id h)].

Record SpinelFrame := mkFrame { header : SpinelHeader; command_id : SpinelCommandId; payload : bytes }.

Definition parse_spinel_parts (bs : bytes) : res SpinelFrameParsingError (SpinelHeader * SpinelCommandId * bytes) :=
  if (length bs <? 3)%nat then Err (PayloadTooShort 3 (length bs))
  else
    h ← header_from_bytes (take 1 bs);
    if negb (flag h =? 2) then Err (NotSpinelFrame (flag h))
    else
      match bs with
      | _ :: id :: payload => command ← ok_or (InvalidCommandId id) (command_of id); Ok (h, command, payload)
      | _ => Panic
      end.

Definition frame_from_bytes (bs : bytes) : res SpinelFrameParsingError SpinelFrame :=
  '(h, command, payload) ← parse_spinel_parts bs;
  Ok (mkFrame h command payload).

Definition frame_to_bytes (f : SpinelFrame) : bytes := header_to_bytes (header f) ++ [command_code (command_id f)] ++ payload f.

(** The Spinel frames among the HDLC frames received. *)
Definition spinel_frames (datas : list bytes) : list SpinelFrame :=
  omap (fun data => match frame_from_bytes data with Ok f => Some f | _ => None end) datas.

Record SpinelFramePropValueIs := mkPropValueIs { property_id : SpinelPropertyId; value : bytes }.

Definition prop_value_is_from_bytes (bs : bytes) : res SpinelFrameParsingError SpinelFramePropValueIs :=
  '(id, remaining) ← packed_uint21_deserialize bs;
  property ← ok_or (InvalidPropertyId id) (property_of id);
  Ok (mkPropValueIs property remaining).

Definition prop_value_is_to_bytes (p : SpinelFramePropValueIs) : may bytes :=
  id ← packed_uint21_to_bytes (property_code (property_id p));
  Ok (id ++ value p).

(** ** The protocol *)
Section Protocol.
Context `{!Crc} {Waiter Chan : Type}.

(** [SpinelProtocol]. The receivers are keyed by the code of their property. *)
Record t := mk {
  buffer : bytes;
  ignoring_until_next_flag : bool;
  next_tid : Z;
  pending_frames : gmap Z Waiter;
  unsolicited_frame_receiver : option Chan;
  property_update_receivers : gmap Z Chan;
  reset_notification_receiver : option Chan
}.

(** What the protocol sends to its channels. *)
Inductive Action : Type :=
| Respond (waiter : Waiter) (f : SpinelFrame)
| Cancelled (waiter : Waiter)
| PropertyUpdate (chan : Chan) (update : SpinelFramePropValueIs)
| ResetNotification (chan : Chan) (status : SpinelStatus).

Definition new : t := mk [] true 1 ∅ None ∅ None.

Definition set_buffer (s : t) (b : bytes) (ignoring : bool) : t :=
  mk b ignoring (next_tid s) (pending_frames s) (unsolicited_frame_receiver s) (property_update_receivers s) (reset_notification_receiver s).
Definition set_pending (s : t) (m : gmap Z Waiter) : t :=
  mk (buffer s) (ignoring_until_next_flag s) (next_tid s) m (unsolicited_frame_receiver s) (property_update_receivers s)
    (reset_notification_receiver s).
Definition set_next_tid (s : t) (n : Z) : t :=
  mk (buffer s) (ignoring_until_next_flag s) n (pending_frames s) (unsolicited_frame_receiver s) (property_update_receivers s)
    (reset_notification_receiver s).

Definition set_unsolicited_frame_receiver (s : t) (c : Chan) : t :=
  mk (buffer s) (ignoring_until_next_flag s) (next_tid s) (pending_frames s) (Some c) (property_update_receivers s)
    (reset_notification_receiver s).
Definition set_property_update_receiver (s : t) (p : SpinelPropertyId) (c : Chan) : t :=
  mk (buffer s) (ignoring_until_next_flag s) (next_tid s) (pending_frames s) (unsolicited_frame_receiver s)
    (<[property_code p := c]> (property_update_receivers s)) (reset_notification_receiver s).
Definition set_reset_notification_receiver (s : t) (c : Chan) : t :=
  mk (buffer s) (ignoring_until_next_flag s) (next_tid s) (pending_frames s) (unsolicited_frame_receiver s)
    (property_update_receivers s) (Some c).

(** Dropping a sender cancels the request that waits on it. *)
Definition fail_all_pending_requests (s : t) : list Action * t :=
  (map (fun e => Cancelled e.2) (map_to_list (pending_frames s)), set_pending s ∅).

Definition notify_reset (s : t) (status : SpinelStatus) : list Action * t :=
  let '(cancelled, s) := fail_all_pending_requests s in
  (cancelled ++ match reset_notification_receiver s with Some c => [ResetNotification c status] | None => [] end, s).

(** [iter().position(..)] of the first flag. *)
Fixpoint position_flag (bs : bytes) : option nat :=
  match bs with
  | [] => None
  | b :: bs => if b =? special_code Flag then Some O else S <$> position_flag bs
  end.

(** [next_frame_into]: the next frame and the state after it; every turn of the loop drains a byte,
    so the length of the buffer bounds the fuel. *)
Fixpoint next_frame_into (fuel : nat) (s : t) : option (option bytes * t) :=
  match fuel with
  | O => None
  | S fuel =>
      match position_flag (buffer s) with
      | None => Some (None, if (MAX_HDLC_BUFFER_SIZE <? length (buffer s))%nat then set_buffer s [] true else s)
      | Some index =>
          let s' := set_buffer s (drop (S index) (buffer s)) false in
          if negb (ignoring_until_next_flag s) && (0 <? index)%nat then
            match hdlc_unescape_into (take index (buffer s)) with
            | Ok data => Some (Some data, s')
            | _ => next_frame_into fuel s'
            end
          else next_frame_into fuel s'
      end
  end.

(** [while self.next_frame_into(..)], collecting what was unescaped. *)
Fixpoint drain_frames (fuel : nat) (s : t) : option (list bytes * t) :=
  match fuel with
  | O => None
  | S fuel =>
      '(frame, s) ← next_frame_into (S (length (buffer s))) s;
      match frame with
      | None => Some ([], s)
      | Some data => '(rest, s) ← drain_frames fuel s; Some (data :: rest, s)
      end
  end.

Definition extend_buffer (s : t) (bs : bytes) : t := set_buffer s (buffer s ++ bs) (ignoring_until_next_flag s).

Definition parse_frames_from_bytes (s : t) (bs : bytes) : option (list SpinelFrame * t) :=
  let s := extend_buffer s bs in
  '(datas, s) ← drain_frames (S (length (buffer s))) s;
  Some (spinel_frames datas, s).

(** [u8::try_from(..).ok().and_then(..)]. *)
Definition status_of_u32 (n : Z) : option SpinelStatus := if n <=? u8_max then status_of n else None.

Definition handle_unsolicited_last_status (s : t) (value : bytes) : list Action * t :=
  match packed_uint21_deserialize value with
  | Ok (n, _) =>
      match status_of_u32 n with
      | Some status => if is_reset status then notify_reset s status else ([], s)
      | None => ([], s)
      end
  | _ => ([], s)
  end.

Definition handle_inbound_frame (s : t) (h : SpinelHeader) (command : SpinelCommandId) (payload : bytes) : list Action * t :=
  let tid := transaction_id h in
  if tid =? 0 then
    if bool_decide (command = CmdPropValueIs) then
      match packed_uint21_deserialize payload with
      | Ok (id, value) =>
          match property_of id with
          | Some PropLastStatus => handle_unsolicited_last_status s value
          | Some property =>
              (match property_update_receivers s !! property_code property with
               | Some c => [PropertyUpdate c (mkPropValueIs property value)]
               | None => []
               end, s)
          | None => ([], s)
          end
      | _ => ([], s)
      end
    else ([], s)
  else
    match pending_frames s !! tid with
    | Some waiter => ([Respond waiter (mkFrame h command payload)], set_pending s (delete tid (pending_frames s)))
    | None => ([], s)
    end.

(** The loop of [handle_inbound_bytes]. *)
Fixpoint handle_loop (fuel : nat) (s : t) : option (list Action * t) :=
  match fuel with
  | O => None
  | S fuel =>
      '(frame, s) ← next_frame_into (S (length (buffer s))) s;
      match frame with
      | None => Some ([], s)
      | Some data =>
          let '(actions, s) :=
            match parse_spinel_parts data with
            | Ok (h, command, payload) => handle_inbound_frame s h command payload
            | _ => ([], s)
            end in
          '(rest, s) ← handle_loop fuel s;
          Some (actions ++ rest, s)
      end
  end.

Definition handle_inbound_bytes (s : t) (bs : bytes) : option (list Action * t) :=
  let s := extend_buffer s bs in
  handle_loop (S (length (buffer s))) s.

(** The search for a free transaction id; it comes back to its start within seven turns. *)
Fixpoint free_tid (fuel : nat) (s : t) (tid : Z) : may Z :=
  match fuel with
  | O => Panic
  | S fuel =>
      if bool_decide (is_Some (pending_frames s !! tid)) then
        let tid := 1 + tid mod 7 in
        if tid =? next_tid s then Panic else free_tid fuel s tid
      else Ok tid
  end.

Definition prepare_request (s : t) (command : SpinelCommandId) (payload : bytes) (waiter : Waiter) : may (SpinelFrame * t) :=
  tid ← free_tid 8 s (next_tid s);
  let s := set_next_tid s (1 + tid mod 7) in
  Ok (mkFrame (mkHeader 2 0 tid) command payload, set_pending s (<[tid := waiter]> (pending_frames s))).

Definition cancel_request (s : t) (tid : Z) : t := set_pending s (delete tid (pending_frames s)).
End Protocol.
End Spinel.
