(* ===== verification/SpinelFacts.v ===== *)
(** * SpinelFacts: what the Spinel protocol of [Spinel] guarantees

    Packed integers and HDLC framing can be read back; the byte stream is reassembled independently
    of how it is cut; transaction ids are unique among the pending requests and each response goes
    to the request that holds its id. *)

From stdpp Require Import gmap.
From S2P Require Import Prelude Types AbstractBits Spinel.

Module SpinelFacts.
Import Spinel.Spinel.

(** [lia] with quotients and remainders. *)
Ltac div_lia := Z.to_euclidean_division_equations; lia.

(** ** Packed integers *)
Lemma lor_high a b n : 0 <= n -> 0 <= a < 2 ^ n -> Z.lor a (Z.shiftl b n) = a + b * 2 ^ n.
Proof.
  intros Hn Ha. rewrite <- Z.add_lor_land, Z.shiftl_mul_pow2 by done.
  enough (Z.land a (b * 2 ^ n) = 0) by lia. apply Z.bits_inj'. intros i Hi.
  rewrite Z.land_spec, Z.bits_0, <- Z.shiftl_mul_pow2, Z.shiftl_spec by done.
  destruct (decide (i < n)).
  - rewrite (Z.testbit_neg_r b) by lia. apply andb_false_r.
  - rewrite <- (Z.mod_small a (2 ^ n)), Z.mod_pow2_bits_high; [done|lia|done].
Qed.

Lemma low_bits x : Z.land x 127 = x mod 128.
Proof. change 127 with (Z.ones 7). by rewrite Z.land_ones by lia. Qed.

Lemma more_bit x : Z.land x 128 = 128 * ((x / 128) mod 2).
Proof.
  change 128 with (Z.shiftl 1 7) at 1. apply Z.bits_inj'. intros i Hi.
  rewrite Z.land_spec, Z.mul_comm. change (x / 128 mod 2 * 128) with ((x / 2 ^ 7) mod 2 ^ 1 * 2 ^ 7).
  rewrite <- Z.shiftl_mul_pow2, !Z.shiftl_spec, <- Z.shiftr_div_pow2 by lia.
  destruct (decide (i = 7)) as [->|].
  - change (Z.testbit 1 (7 - 7)) with true. rewrite Z.mod_pow2_bits_low, Z.shiftr_spec by lia. by rewrite andb_true_r.
  - destruct (decide (i < 7)).
    + rewrite !(Z.testbit_neg_r _ (i - 7)) by lia. apply andb_false_r.
    + rewrite Z.mod_pow2_bits_high by lia. rewrite (Z.bits_above_log2 1) by (cbn; lia). apply andb_false_r.
Qed.

(** An octet that is followed by another, and the last one. *)
Definition chunk (x : Z) : Z := Z.lor (Z.land (x mod 256) 127) 128.

Lemma chunk_eq x : chunk x = x mod 128 + 128.
Proof.
  unfold chunk. rewrite low_bits. change (Z.lor (x mod 256 mod 128) 128) with (Z.lor (x mod 256 mod 128) (Z.shiftl 1 7)).
  rewrite lor_high; [|div_lia|]; change (2 ^ 7) with 128; div_lia.
Qed.

Lemma packed_more index acc x rest :
  (index < 2)%nat -> 0 <= acc < 2 ^ (7 * Z.of_nat index) ->
  packed_loop index acc (chunk x :: rest) = packed_loop (S index) (acc + x mod 128 * 2 ^ (7 * Z.of_nat index)) rest.
Proof.
  intros Hi Hacc. cbn [packed_loop]. rewrite chunk_eq, more_bit, low_bits, lor_high by lia.
  replace ((x mod 128 + 128) / 128) with 1 by div_lia.
  destruct (Z.eqb_spec (128 * (1 mod 2)) 0); [div_lia|]. destruct (Nat.leb_spec 2 index); [div_lia|].
  by replace ((x mod 128 + 128) mod 128) with (x mod 128) by div_lia.
Qed.

Lemma packed_end index acc x rest :
  0 <= acc < 2 ^ (7 * Z.of_nat index) -> 0 <= x < 128 ->
  packed_loop index acc (Z.land (chunk x) 127 :: rest) = Ok (acc + x * 2 ^ (7 * Z.of_nat index), rest).
Proof.
  intros Hacc Hx. cbn [packed_loop]. rewrite chunk_eq, more_bit, !low_bits, lor_high by lia.
  destruct (Z.eqb_spec (128 * ((x mod 128 + 128) mod 128 / 128 mod 2)) 0); [|div_lia].
  by replace ((x mod 128 + 128) mod 128 mod 128) with x by div_lia.
Qed.

Lemma packed_chunks_step fuel x : x <> 0 -> packed_chunks (S fuel) x = chunk x :: packed_chunks fuel (x / 128).
Proof. intros. cbn. destruct (Z.eqb_spec x 0); [done|]. by rewrite Z.shiftr_div_pow2 by lia. Qed.

Lemma packed_round_trip v rest :
  0 <= v < 2 ^ 21 ->
  exists bs, packed_uint21_to_bytes v = Ok bs /\ packed_uint21_deserialize (bs ++ rest) = Ok (v, rest) /\ (1 <= length bs <= 3)%nat.
Proof.
  intros Hv. unfold packed_uint21_to_bytes, packed_uint21_deserialize, U21_MAX. change (Z.shiftl 1 21) with (2 ^ 21).
  destruct (Z.eqb_spec v 0) as [->|Hne]; [exists [0]; cbn; split_and!; [done|done|lia|lia]|].
  destruct (Z.ltb_spec (2 ^ 21) v); [div_lia|]. eexists. split; [done|].
  rewrite packed_chunks_step by done. destruct (decide (v / 128 = 0)) as [E1|E1].
  { rewrite E1. cbn [packed_chunks clear_last Z.eqb last removelast app]. rewrite packed_end by (cbn; div_lia).
    split; [do 2 f_equal; div_lia|cbn; div_lia]. }
  rewrite packed_chunks_step by done. destruct (decide (v / 128 / 128 = 0)) as [E2|E2].
  { rewrite E2. cbn [packed_chunks clear_last Z.eqb last removelast app]. rewrite packed_more, packed_end by (cbn; div_lia).
    split; [do 2 f_equal; cbn; div_lia|cbn; div_lia]. }
  rewrite packed_chunks_step by done. replace (v / 128 / 128 / 128) with 0 by div_lia.
  cbn [packed_chunks clear_last Z.eqb last removelast app]. rewrite !packed_more, packed_end by (cbn; div_lia).
  split; [do 2 f_equal; cbn; div_lia|cbn; div_lia].
Qed.

(** The limit itself is accepted, and written in four octets that cannot be read back. *)
Lemma packed_limit_unreadable :
  packed_uint21_to_bytes U21_MAX = Ok [0x80; 0x80; 0x80; 0x01] /\
  packed_uint21_deserialize [0x80; 0x80; 0x80; 0x01] = Err PackedU21DidNotTerminate.
Proof. by split. Qed.

Lemma packed_too_large v : U21_MAX < v -> packed_uint21_to_bytes v = Panic.
Proof.
  intros. unfold packed_uint21_to_bytes. destruct (Z.eqb_spec v 0) as [->|]; [by cbv in H|].
  by destruct (Z.ltb_spec U21_MAX v); [|lia].
Qed.

(** ** HDLC *)
Lemma special_cases b : is_special b = true -> b = 0x7E \/ b = 0x7D \/ b = 0x11 \/ b = 0x13 \/ b = 0xF8.
Proof. unfold is_special, existsb, special_code. rewrite !orb_true_iff, !Z.eqb_eq. intuition (by auto). Qed.

Lemma plain_byte b : is_special b = false -> b <> special_code Escape /\ b <> special_code Flag.
Proof. intros Hs. split; intros ->; by cbn in Hs. Qed.

Lemma unescape_escaped b l : unescape false (escape_byte b ++ l) = (data ← unescape false l; Ok (b :: data)).
Proof.
  unfold escape_byte. destruct (is_special b) eqn:Hs.
  - by apply special_cases in Hs as [->|[->|[->|[->| ->]]]].
  - apply plain_byte in Hs as [H1 H2]. cbn [app unescape].
    by destruct (Z.eqb_spec b (special_code Escape)), (Z.eqb_spec b (special_code Flag)).
Qed.

Lemma unescape_escape d : unescape false (concat (map escape_byte d)) = Ok d.
Proof. induction d as [|b d IH]; [done|]. cbn [map concat]. by rewrite unescape_escaped, IH. Qed.

Lemma escape_no_flag d : special_code Flag ∉ concat (map escape_byte d).
Proof.
  induction d as [|b d IH]; [by apply not_elem_of_nil|]. cbn [map concat]. rewrite elem_of_app. intros [H|H]; [|done].
  unfold escape_byte in H. destruct (is_special b) eqn:Hs.
  - apply special_cases in Hs as [->|[->|[->|[->| ->]]]]; repeat (apply elem_of_cons in H as [H|H]; [by vm_compute in H|]); by apply elem_of_nil in H.
  - apply plain_byte in Hs as [_ Hf]. apply list_elem_of_singleton in H. done.
Qed.

Lemma escape_length d : (length d <= length (concat (map escape_byte d)) <= 2 * length d)%nat.
Proof.
  induction d as [|b d IH]; [done|]. cbn [map concat length]. rewrite length_app.
  assert (1 <= length (escape_byte b) <= 2)%nat; [|lia]. unfold escape_byte. destruct (is_special b); cbn; lia.
Qed.

Section Hdlc.
Context `{!Crc, !CrcLaws}.

Lemma frame_crc_width d : 0 <= frame_crc d < 2 ^ 16.
Proof. apply lxor_width; [apply crc_width|lia]. Qed.

Lemma hdlc_round_trip d : hdlc_unescape_into (hdlc_escape_into d) = Ok d.
Proof.
  unfold hdlc_unescape_into, hdlc_escape_into. pose proof (escape_length (d ++ to_le_bytes 2 (frame_crc d))) as Hl.
  rewrite length_app, length_to_le_bytes in Hl. destruct (Nat.ltb_spec (length (concat (map escape_byte (d ++ to_le_bytes 2 (frame_crc d))))) 2); [lia|].
  rewrite unescape_escape. cbn [mbind res_bind]. rewrite length_app, length_to_le_bytes.
  destruct (Nat.ltb_spec (length d + 2) 2); [lia|]. replace (length d + 2 - 2)%nat with (length d) by lia.
  rewrite take_app_length, drop_app_length, from_to_le_bytes, Z.eqb_refl; [done|apply frame_crc_width].
Qed.
End Hdlc.

(** ** The byte stream, one octet at a time *)
#[local] Arguments special_code : simpl never.
Definition set_stream {Waiter Chan} (s : t) (r : bool * bytes) : t (Waiter:=Waiter) (Chan:=Chan) := set_buffer s r.2 r.1.
Definition trim (r : bool * bytes) : bool * bytes := if (MAX_HDLC_BUFFER_SIZE <? length r.2)%nat then (true, []) else r.

Section Octets.
Context `{!Crc}.

(** A frame between two flags; nothing before the first flag is one. *)
Definition deliver (ignoring : bool) (cur : bytes) : list bytes :=
  if negb ignoring && (0 <? length cur)%nat then match hdlc_unescape_into cur with Ok d => [d] | _ => [] end else [].

(** The frames of a stream and what is left after its last flag. *)
Fixpoint octets (ignoring : bool) (cur bs : bytes) : list bytes * (bool * bytes) :=
  match bs with
  | [] => ([], (ignoring, cur))
  | b :: bs =>
      if b =? special_code Flag then let '(fs, r) := octets false [] bs in (deliver ignoring cur ++ fs, r)
      else octets ignoring (cur ++ [b]) bs
  end.

Lemma octets_app ig cur x y :
  octets ig cur (x ++ y) = let '(fs, (ig', cur')) := octets ig cur x in let '(gs, r) := octets ig' cur' y in (fs ++ gs, r).
Proof.
  revert ig cur. induction x as [|b x IH]; intros ig cur; cbn; [by destruct octets|].
  destruct (b =? special_code Flag); [|apply IH].
  rewrite IH. destruct octets as [fs [ig' cur']], octets as [gs r]. by rewrite app_assoc.
Qed.

Lemma octets_plain ig cur x : special_code Flag ∉ x -> octets ig cur x = ([], (ig, cur ++ x)).
Proof.
  revert cur. induction x as [|b x IH]; intros cur Hx; cbn; [by rewrite app_nil_r|].
  apply not_elem_of_cons in Hx as [Hb Hx]. destruct (Z.eqb_spec b (special_code Flag)); [congruence|].
  by rewrite IH, <- app_assoc.
Qed.

Lemma octets_flag ig cur x y :
  special_code Flag ∉ x ->
  octets ig cur (x ++ special_code Flag :: y) = let '(fs, r) := octets false [] y in (deliver ig (cur ++ x) ++ fs, r).
Proof. intros. rewrite octets_app, octets_plain by done. cbn. by destruct octets. Qed.

Lemma octets_leftover ig cur bs fs ig' cur' :
  special_code Flag ∉ cur -> octets ig cur bs = (fs, (ig', cur')) -> special_code Flag ∉ cur'.
Proof.
  revert ig cur fs. induction bs as [|b bs IH]; intros ig cur fs Hc Ho; cbn in Ho; [by simplify_eq|].
  destruct (Z.eqb_spec b (special_code Flag)) as [|Hb].
  - destruct octets as [gs [ig2 cur2]] eqn:E. simplify_eq. eapply IH; [by apply not_elem_of_nil|done].
  - eapply IH; [|done]. rewrite elem_of_app, list_elem_of_singleton. intros [?|?]; congruence.
Qed.

(** The longest run without a flag, [n] octets of which came before. *)
Fixpoint max_gap (n : nat) (bs : bytes) : nat :=
  match bs with
  | [] => n
  | b :: bs => if b =? special_code Flag then n `max` max_gap 0 bs else max_gap (S n) bs
  end.

Lemma max_gap_ge n bs : (n <= max_gap n bs)%nat.
Proof. revert n. induction bs as [|b bs IH]; intros n; cbn; [lia|]. destruct (_ =? _); [lia|]. specialize (IH (S n)). lia. Qed.

Lemma max_gap_app ig cur x y fs ig' cur' :
  octets ig cur x = (fs, (ig', cur')) ->
  (length cur' <= max_gap (length cur) (x ++ y) /\ max_gap (length cur') y <= max_gap (length cur) (x ++ y))%nat.
Proof.
  revert ig cur fs. induction x as [|b x IH]; intros ig cur fs Ho; cbn in Ho |- *.
  - simplify_eq. split; [apply max_gap_ge|done].
  - destruct (_ =? _).
    + destruct octets as [gs [ig2 cur2]] eqn:E. simplify_eq. apply IH in E. cbn [length] in E. lia.
    + apply IH in Ho. by rewrite length_app, Nat.add_1_r in Ho.
Qed.

Lemma max_gap_frame n x y :
  special_code Flag ∉ x -> max_gap n (x ++ special_code Flag :: y) = ((n + length x) `max` max_gap 0 y)%nat.
Proof.
  revert n. induction x as [|b x IH]; intros n Hx; cbn [app max_gap length]; [by rewrite Z.eqb_refl, Nat.add_0_r|].
  apply not_elem_of_cons in Hx as [Hb Hx]. destruct (Z.eqb_spec b (special_code Flag)); [congruence|].
  rewrite IH by done. f_equal. lia.
Qed.
End Octets.

Lemma position_flag_none bs : position_flag bs = None -> special_code Flag ∉ bs.
Proof.
  induction bs as [|b bs IH]; cbn; [intros _; by apply not_elem_of_nil|].
  destruct (Z.eqb_spec b (special_code Flag)) as [|Hb]; [done|]. intros Hp. apply not_elem_of_cons.
  destruct (position_flag bs); [done|]. split; [|by apply IH]. cbn. congruence.
Qed.

Lemma position_flag_some bs i :
  position_flag bs = Some i ->
  (special_code Flag ∉ take i bs) /\ bs = take i bs ++ (special_code Flag :: drop (S i) bs).
Proof.
  revert i. induction bs as [|b bs IH]; intros i; cbn; [done|]. destruct (Z.eqb_spec b (special_code Flag)) as [->|Hb].
  - intros [= <-]. split; [by apply not_elem_of_nil|done].
  - destruct (position_flag bs) as [j|] eqn:E; [|done]. intros [= <-]. destruct (IH j eq_refl) as [H1 H2].
    cbn [take drop app]. split; [apply not_elem_of_cons; split; [cbn; congruence|done]|]. by rewrite <- H2.
Qed.

(** ** The protocol's loops *)
Section Protocol.
Context `{!Crc, !CrcLaws} {Waiter Chan : Type}.
Abbreviation state := (t (Waiter:=Waiter) (Chan:=Chan)).

Lemma set_stream_self (s : state) : set_stream s (ignoring_until_next_flag s, buffer s) = s.
Proof. by destruct s. Qed.

(** [next_frame_into] takes the first frame of [octets] off the stream, or trims what is left. *)
Definition takes_first (s : state) (result : option (option bytes * state)) : Prop :=
  exists frame ig cur, result = Some (frame, set_stream s (ig, cur)) /\
    match frame with
    | None => exists r, octets (ignoring_until_next_flag s) [] (buffer s) = ([], r) /\ trim r = (ig, cur)
    | Some d =>
        (length cur < length (buffer s))%nat /\
        octets (ignoring_until_next_flag s) [] (buffer s) = let '(ds, r) := octets ig [] cur in (d :: ds, r)
    end.

Lemma next_frame_octets fuel (s : state) : (length (buffer s) < fuel)%nat -> takes_first s (next_frame_into fuel s).
Proof.
  revert s. induction fuel as [|fuel IH]; intros s Hf; [lia|]. cbn [next_frame_into].
  destruct (position_flag (buffer s)) as [i|] eqn:Ep.
  - apply position_flag_some in Ep as [Hn Hb]. set (s' := set_buffer s (drop (S i) (buffer s)) false).
    assert (Hl : (length (drop (S i) (buffer s)) < length (buffer s))%nat).
    { rewrite Hb at 2. rewrite length_app. cbn [length]. lia. }
    assert (Hi : length (take i (buffer s)) = i).
    { apply (f_equal length) in Hb. rewrite length_app in Hb. cbn in Hb. rewrite length_take, length_drop in *. lia. }
    assert (Ho : octets (ignoring_until_next_flag s) [] (buffer s) =
                 let '(fs, r) := octets false [] (drop (S i) (buffer s)) in
                 (deliver (ignoring_until_next_flag s) (take i (buffer s)) ++ fs, r)).
    { rewrite Hb at 1. by rewrite octets_flag. }
    assert (Hskip : deliver (ignoring_until_next_flag s) (take i (buffer s)) = [] -> takes_first s (next_frame_into fuel s')).
    { intros Hd. rewrite Hd in Ho. destruct (IH s') as (frame & ig & cur & Hs' & Hm); [cbn; lia|].
      exists frame, ig, cur. split; [done|]. change (buffer s') with (drop (S i) (buffer s)) in Hm.
      change (ignoring_until_next_flag s') with false in Hm. destruct frame as [d|].
      - destruct Hm as [Hlt Hm]. split; [lia|]. rewrite Ho, Hm. by destruct (octets ig [] cur).
      - destruct Hm as (r & Hm & Ht). exists r. by rewrite Ho, Hm. }
    unfold deliver in Hskip, Ho. rewrite Hi in Hskip, Ho.
    destruct (negb (ignoring_until_next_flag s) && (0 <? i)%nat); [|by apply Hskip].
    destruct (hdlc_unescape_into (take i (buffer s))) as [d| |] eqn:Eu; [|by apply Hskip..].
    exists (Some d), false, (drop (S i) (buffer s)). done.
  - apply position_flag_none in Ep.
    exists None. destruct (MAX_HDLC_BUFFER_SIZE <? length (buffer s))%nat eqn:El.
    + exists true, []. split; [done|]. eexists. rewrite octets_plain by done. split; [done|]. unfold trim. cbn [snd app]. by rewrite El.
    + exists (ignoring_until_next_flag s), (buffer s). rewrite set_stream_self. split; [done|].
      eexists. rewrite octets_plain by done. split; [done|]. unfold trim. cbn [snd app]. by rewrite El.
Qed.

Lemma drain_octets fuel (s : state) ds r :
  (length (buffer s) < fuel)%nat -> octets (ignoring_until_next_flag s) [] (buffer s) = (ds, r) ->
  drain_frames fuel s = Some (ds, set_stream s (trim r)).
Proof.
  revert s ds. induction fuel as [|fuel IH]; intros s ds Hf Ho; [lia|]. cbn [drain_frames].
  destruct (next_frame_octets (S (length (buffer s))) s) as (frame & ig & cur & Hs' & Hm); [lia|]. rewrite Hs'. cbn [mbind option_bind].
  destruct frame as [d|].
  - destruct Hm as [Hl Hm]. rewrite Ho in Hm. destruct (octets ig [] cur) as [es r'] eqn:E. simplify_eq.
    rewrite (IH _ es); [done|cbn; lia|done].
  - destruct Hm as (r' & Hm & Ht). rewrite Ho in Hm. simplify_eq. by rewrite Ht.
Qed.

(** What the protocol does with each HDLC frame. *)
Definition handle_data (s : state) (d : bytes) : list Action * state :=
  match parse_spinel_parts d with
  | Ok (h, command, payload) => handle_inbound_frame s h command payload
  | _ => ([], s)
  end.
Fixpoint handle_datas (s : state) (ds : list bytes) : list Action * state :=
  match ds with
  | [] => ([], s)
  | d :: ds => let '(a, s) := handle_data s d in let '(b, s) := handle_datas s ds in (a ++ b, s)
  end.

Lemma handle_data_stream s r d :
  handle_data (set_stream s r) d = let '(a, s') := handle_data s d in (a, set_stream s' r).
Proof.
  unfold handle_data, handle_inbound_frame, handle_unsolicited_last_status, notify_reset.
  repeat (case_match; simplify_eq/=; try done).
Qed.

Lemma handle_datas_stream s r ds :
  handle_datas (set_stream s r) ds = let '(a, s') := handle_datas s ds in (a, set_stream s' r).
Proof.
  revert s. induction ds as [|d ds IH]; intros s; [done|]. cbn [handle_datas]. rewrite handle_data_stream.
  destruct (handle_data s d) as [a s']. rewrite IH. by destruct (handle_datas s' ds).
Qed.

Lemma handle_loop_octets fuel (s : state) ds r :
  (length (buffer s) < fuel)%nat -> octets (ignoring_until_next_flag s) [] (buffer s) = (ds, r) ->
  handle_loop fuel s = let '(a, s') := handle_datas s ds in Some (a, set_stream s' (trim r)).
Proof.
  revert s ds. induction fuel as [|fuel IH]; intros s ds Hf Ho; [lia|]. cbn [handle_loop].
  destruct (next_frame_octets (S (length (buffer s))) s) as (frame & ig & cur & Hs' & Hm); [lia|]. rewrite Hs'. cbn [mbind option_bind].
  destruct frame as [d|].
  - destruct Hm as [Hl Hm]. rewrite Ho in Hm. destruct (octets ig [] cur) as [es r'] eqn:E. simplify_eq.
    change (match parse_spinel_parts d with
            | Ok (h, command, payload) => handle_inbound_frame (set_stream s (ig, cur)) h command payload
            | _ => ([], set_stream s (ig, cur))
            end) with (handle_data (set_stream s (ig, cur)) d).
    rewrite handle_data_stream. cbn [handle_datas]. destruct (handle_data s d) as [a s'] eqn:Ed.
    rewrite (IH _ es); [|cbn; lia|done]. rewrite handle_datas_stream. by destruct (handle_datas s' es).
  - destruct Hm as (r' & Hm & Ht). rewrite Ho in Hm. simplify_eq. by rewrite Ht.
Qed.

(** *** Chunks *)
Fixpoint handle_chunks (s : state) (chunks : list bytes) : option (list Action * state) :=
  match chunks with
  | [] => Some ([], s)
  | c :: cs => '(a, s) ← handle_inbound_bytes s c; '(b, s) ← handle_chunks s cs; Some (a ++ b, s)
  end.

Lemma handle_datas_app s ds es :
  handle_datas s (ds ++ es) = let '(a, s1) := handle_datas s ds in let '(b, s2) := handle_datas s1 es in (a ++ b, s2).
Proof.
  revert s. induction ds as [|d ds IH]; intros s; cbn; [by destruct handle_datas|].
  destruct (handle_data s d) as [a s1]. rewrite IH. destruct (handle_datas s1 ds) as [b s2].
  destruct (handle_datas s2 es) as [c s3]. by rewrite app_assoc.
Qed.

(** One call of [handle_inbound_bytes]; it always returns. *)
Lemma handle_inbound_octets s bs :
  handle_inbound_bytes s bs =
    let '(ds, r) := octets (ignoring_until_next_flag s) [] (buffer s ++ bs) in
    let '(a, s') := handle_datas s ds in Some (a, set_stream s' (trim r)).
Proof.
  unfold handle_inbound_bytes. destruct octets as [ds r] eqn:E. rewrite (handle_loop_octets _ _ ds r); [|lia|done].
  change (extend_buffer s bs) with (set_stream s (ignoring_until_next_flag s, buffer s ++ bs)).
  rewrite handle_datas_stream. by destruct (handle_datas s ds).
Qed.

Lemma octets_buffer (s : state) bs :
  special_code Flag ∉ buffer s ->
  octets (ignoring_until_next_flag s) [] (buffer s ++ bs) = octets (ignoring_until_next_flag s) (buffer s) bs.
Proof. intros. rewrite octets_app, octets_plain by done. cbn. by destruct octets. Qed.

Lemma trim_short r : (length r.2 <= MAX_HDLC_BUFFER_SIZE)%nat -> trim r = r.
Proof. intros Hl. unfold trim. by destruct (Nat.ltb_spec MAX_HDLC_BUFFER_SIZE (length r.2)); [lia|]. Qed.

Lemma handle_chunks_octets s chunks :
  special_code Flag ∉ buffer s -> (max_gap (length (buffer s)) (concat chunks) <= MAX_HDLC_BUFFER_SIZE)%nat ->
  handle_chunks s chunks =
    let '(ds, r) := octets (ignoring_until_next_flag s) (buffer s) (concat chunks) in
    let '(a, s') := handle_datas s ds in Some (a, set_stream s' r).
Proof.
  revert s. induction chunks as [|c cs IH]; intros s Hf Hg; cbn [handle_chunks concat].
  { cbn. by rewrite set_stream_self. }
  cbn [concat] in Hg. rewrite handle_inbound_octets, octets_buffer, octets_app by done.
  destruct (octets (ignoring_until_next_flag s) (buffer s) c) as [ds [ig cur]] eqn:E.
  pose proof (max_gap_app _ _ c (concat cs) _ _ _ E) as [Hc Hr]. apply octets_leftover in E; [|done].
  rewrite trim_short by (cbn [snd]; lia). destruct (handle_datas s ds) as [a s1] eqn:Ed. cbn [mbind option_bind].
  rewrite IH by (cbn; first [done|lia]). cbn [set_stream set_buffer buffer ignoring_until_next_flag fst snd].
  destruct (octets ig cur (concat cs)) as [es r] eqn:Eo. rewrite handle_datas_app, Ed.
  change (set_buffer s1 cur ig) with (set_stream s1 (ig, cur)). rewrite handle_datas_stream. by destruct (handle_datas s1 es).
Qed.

(** *** Frames on the wire *)
Record wf_frame (f : SpinelFrame) : Prop := {
  wf_flag : flag (header f) = 2;
  wf_link : 0 <= network_link_id (header f) < 4;
  wf_tid : 0 <= transaction_id (header f) < 16;
  wf_payload : payload f <> [];
  wf_size : (length (frame_to_bytes f) <= SPINEL_FRAME_MAX_SIZE)%nat
}.

Lemma header_round_trip link tid rest :
  0 <= link < 4 -> 0 <= tid < 16 ->
  header_from_bytes (header_to_bytes (mkHeader 2 link tid) ++ rest) = Ok (mkHeader 2 link tid).
Proof.
  intros Hl Ht. change (header_from_bytes (header_to_bytes (mkHeader 2 link tid)) = Ok (mkHeader 2 link tid)).
  assert (Hall : forallb (fun l => forallb (fun t =>
      match header_from_bytes (header_to_bytes (mkHeader 2 l t)) with
      | Ok (mkHeader a b c) => (a =? 2) && (b =? l) && (c =? t)
      | _ => false
      end) (seqZ 0 16)) (seqZ 0 4) = true) by by vm_compute.
  rewrite forallb_forall in Hall. specialize (Hall link). rewrite <- list_elem_of_In, elem_of_seqZ, forallb_forall in Hall.
  specialize (Hall Hl tid). rewrite <- list_elem_of_In, elem_of_seqZ in Hall. specialize (Hall Ht).
  destruct header_from_bytes as [[a b c]| |]; [|done..]. rewrite !andb_true_iff, !Z.eqb_eq in Hall. by destruct Hall as [[-> ->] ->].
Qed.

Lemma frame_round_trip f :
  wf_frame f -> parse_spinel_parts (frame_to_bytes f) = Ok (header f, command_id f, payload f).
Proof.
  intros [Hf Hl Ht Hp _]. destruct f as [[fl nl tid] c [|b p]]; [done|]. cbn in Hf, Hl, Ht. subst fl.
  unfold parse_spinel_parts, frame_to_bytes. cbn [header command_id payload].
  pose proof (header_round_trip nl tid [] Hl Ht) as Hh. rewrite app_nil_r in Hh. unfold header_to_bytes in *. cbn [app] in *.
  cbn [length Nat.ltb Nat.leb take]. rewrite Hh. cbn [mbind res_bind flag Z.eqb Pos.eqb negb]. by rewrite command_of_code.
Qed.

Definition wire (fs : list SpinelFrame) : bytes := concat (map (fun f => to_bytes_with_flags (frame_to_bytes f)) fs).

Lemma escaped_no_flag d : special_code Flag ∉ hdlc_escape_into d.
Proof. apply escape_no_flag. Qed.

Lemma octets_wire ig fs :
  octets ig [] (wire fs) = (map frame_to_bytes fs, (match fs with [] => ig | _ => false end, [])).
Proof.
  revert ig. induction fs as [|f fs IH]; intros ig; [done|]. unfold wire in *. cbn [map concat].
  unfold to_bytes_with_flags at 1. rewrite <- !app_assoc. cbn [app octets]. rewrite Z.eqb_refl, octets_flag by apply escaped_no_flag.
  rewrite IH. cbn [app]. assert (deliver ig [] = []) as -> by (unfold deliver; cbn; by rewrite andb_false_r).
  unfold deliver. rewrite hdlc_round_trip. destruct (Nat.ltb_spec 0 (length (hdlc_escape_into (frame_to_bytes f)))) as [|Hz].
  - cbn. by destruct fs.
  - pose proof (escape_length (frame_to_bytes f ++ to_le_bytes 2 (frame_crc (frame_to_bytes f)))) as Hl.
    rewrite length_app, length_to_le_bytes in Hl. unfold hdlc_escape_into in Hz. lia.
Qed.

Lemma wire_gap fs : Forall wf_frame fs -> (max_gap 0 (wire fs) <= MAX_HDLC_BUFFER_SIZE)%nat.
Proof.
  induction 1 as [|f fs [_ _ _ _ Hs] _ IH]; [cbn; unfold MAX_HDLC_BUFFER_SIZE; lia|].
  unfold wire in *. cbn [map concat]. unfold to_bytes_with_flags at 1. rewrite <- !app_assoc. cbn [app max_gap].
  rewrite Z.eqb_refl, max_gap_frame by apply escaped_no_flag.
  pose proof (escape_length (frame_to_bytes f ++ to_le_bytes 2 (frame_crc (frame_to_bytes f)))) as Hl.
  rewrite length_app, length_to_le_bytes in Hl. change (concat (map escape_byte (frame_to_bytes f ++ to_le_bytes 2 (frame_crc (frame_to_bytes f))))) with (hdlc_escape_into (frame_to_bytes f)) in Hl.
  unfold SPINEL_FRAME_MAX_SIZE, MAX_HDLC_BUFFER_SIZE in *. lia.
Qed.

(** What the protocol does with the frames, one after the other. *)
Fixpoint handle_frames (s : state) (fs : list SpinelFrame) : list Action * state :=
  match fs with
  | [] => ([], s)
  | f :: fs =>
      let '(a, s) := handle_inbound_frame s (header f) (command_id f) (payload f) in
      let '(b, s) := handle_frames s fs in (a ++ b, s)
  end.

Lemma handle_datas_frames s fs : Forall wf_frame fs -> handle_datas s (map frame_to_bytes fs) = handle_frames s fs.
Proof.
  intros Hw. revert s. induction Hw as [|f fs Hf _ IH]; intros s; [done|]. cbn [map handle_datas handle_frames].
  unfold handle_data. rewrite frame_round_trip by done. destruct handle_inbound_frame as [a s']. by rewrite IH.
Qed.

(** C35: However the bytes of a sequence of well-formed frames are cut into reads, the protocol
    handles exactly these frames, in order, and no octet is left over. *)
Theorem stream_reassembled (s : state) (fs : list SpinelFrame) (chunks : list bytes) :
  buffer s = [] -> Forall wf_frame fs -> concat chunks = wire fs ->
  handle_chunks s chunks =
    let '(a, s') := handle_frames s fs in
    Some (a, set_stream s' (match fs with [] => ignoring_until_next_flag s | _ => false end, [])).
Proof.
  intros Hb Hw Hc. rewrite handle_chunks_octets, Hb, Hc; rewrite ?Hb, ?Hc.
  - by rewrite octets_wire, handle_datas_frames.
  - by apply not_elem_of_nil.
  - by apply wire_gap.
Qed.

(** *** Transaction ids *)
Definition is_tid (k : Z) : Prop := 1 <= k <= 7.
Definition wf (s : state) : Prop := is_tid (next_tid s) /\ forall k, is_Some (pending_frames s !! k) -> is_tid k.

Ltac next_tids :=
  repeat match goal with
    |- context [1 + ?a mod 7] => let v := eval vm_compute in (1 + a mod 7) in change (1 + a mod 7) with v
  end.

Lemma free_tid_spec s :
  wf s ->
  match free_tid 8 s (next_tid s) with
  | Ok tid => is_tid tid /\ pending_frames s !! tid = None
  | _ => forall k, is_tid k -> is_Some (pending_frames s !! k)
  end.
Proof.
  intros [Hn _]. destruct s as [bf ig n m u pr rn]. unfold is_tid in *. cbn [next_tid] in *.
  assert (Hc : n ∈ [1; 2; 3; 4; 5; 6; 7]) by (change (n ∈ seqZ 1 7); apply elem_of_seqZ; lia).
  assert (Hall : is_Some (m !! 1) -> is_Some (m !! 2) -> is_Some (m !! 3) -> is_Some (m !! 4) -> is_Some (m !! 5) ->
                 is_Some (m !! 6) -> is_Some (m !! 7) -> forall k, 1 <= k <= 7 -> is_Some (m !! k)).
  { intros. assert (Hs : k ∈ [1; 2; 3; 4; 5; 6; 7]) by (change (k ∈ seqZ 1 7); apply elem_of_seqZ; lia).
    repeat (apply elem_of_cons in Hs as [->|Hs]; [done|]). by apply elem_of_nil in Hs. }
  repeat (apply elem_of_cons in Hc as [->|Hc]; [|]); [..|by apply elem_of_nil in Hc];
    cbn [free_tid next_tid pending_frames]; next_tids;
    repeat (let Hp := fresh in case_bool_decide as Hp; [|rewrite <- eq_None_not_Some in Hp; by split; [lia|]]; cbn [Z.eqb Pos.eqb]); by apply Hall.
Qed.

Lemma next_tid_range k : is_tid k -> is_tid (1 + k mod 7).
Proof. unfold is_tid. intros. div_lia. Qed.

Lemma wf_insert s tid w n :
  wf s -> is_tid tid -> is_tid n -> wf (set_pending (set_next_tid s n) (<[tid := w]> (pending_frames s))).
Proof.
  intros [_ Hp] Ht Hn. split; [done|]. cbn. intros k Hk. destruct (decide (k = tid)) as [->|]; [done|].
  rewrite lookup_insert_ne in Hk by done. by apply Hp.
Qed.

Lemma prepare_request_ok s command payload w f s' :
  wf s -> prepare_request s command payload w = Ok (f, s') ->
  let tid := transaction_id (header f) in
  is_tid tid /\ f = mkFrame (mkHeader 2 0 tid) command payload /\ pending_frames s !! tid = None /\
  s' = set_pending (set_next_tid s (1 + tid mod 7)) (<[tid := w]> (pending_frames s)) /\ wf s'.
Proof.
  intros Hw Hr. unfold prepare_request in Hr. pose proof (free_tid_spec s Hw) as Hs.
  destruct (free_tid 8 s (next_tid s)) as [tid| |]; [|done..]. cbn in Hr. simplify_eq/=. destruct Hs as [Ht Hfree].
  split_and!; try done. apply wf_insert; [done..|by apply next_tid_range].
Qed.

(** A request gets a transaction id from 1 to 7 that no pending request holds, and is refused, by
    a panic, exactly when all seven are in flight. *)
Lemma request_gets_free_tid (s : state) (command : SpinelCommandId) (payload : bytes) (w : Waiter) :
  wf s ->
  match prepare_request s command payload w with
  | Ok (f, s') =>
      let tid := transaction_id (header f) in
      is_tid tid /\ f = mkFrame (mkHeader 2 0 tid) command payload /\
      pending_frames s !! tid = None /\ pending_frames s' = <[tid := w]> (pending_frames s) /\ wf s'
  | Err _ => False
  | Panic => forall k, is_tid k <-> is_Some (pending_frames s !! k)
  end.
Proof.
  intros Hw. destruct (prepare_request s command payload w) as [[f s']|[]|] eqn:Hr.
  - apply prepare_request_ok in Hr as (? & ? & ? & -> & ?); [|done]. done.
  - unfold prepare_request in Hr. pose proof (free_tid_spec s Hw) as Hs. destruct (free_tid 8 s (next_tid s)); [done..|].
    intros k. split; [apply Hs|apply Hw].
Qed.

(** *** Responses *)
(** An unsolicited status that announces a reset of the radio. *)
Definition announces_reset (f : SpinelFrame) : bool :=
  (transaction_id (header f) =? 0) && bool_decide (command_id f = CmdPropValueIs) &&
  match packed_uint21_deserialize (payload f) with
  | Ok (id, value) =>
      match property_of id, packed_uint21_deserialize value with
      | Some PropLastStatus, Ok (n, _) => match status_of_u32 n with Some status => is_reset status | None => false end
      | _, _ => false
      end
  | _ => false
  end.

(** A frame changes the pending requests only as a response or as a reset. *)
Lemma handle_frame_pending (s : state) f :
  let s' := (handle_inbound_frame s (header f) (command_id f) (payload f)).2 in
  pending_frames s' =
    if announces_reset f then ∅
    else if transaction_id (header f) =? 0 then pending_frames s
    else delete (transaction_id (header f)) (pending_frames s).
Proof.
  unfold announces_reset, handle_inbound_frame, handle_unsolicited_last_status.
  destruct (Z.eqb_spec (transaction_id (header f)) 0); cbn [andb].
  - destruct (bool_decide _); cbn [andb]; [|done].
    destruct (packed_uint21_deserialize (payload f)) as [[id v]| |]; [|done..].
    destruct (property_of id) as [[]|]; try done.
    destruct (packed_uint21_deserialize v) as [[n r]| |]; [|done..].
    destruct (status_of_u32 n) as [st|]; [|done]. by destruct (is_reset st).
  - destruct (pending_frames s !! transaction_id (header f)) eqn:E; [done|]. by rewrite delete_id.
Qed.

Lemma handle_frames_keep s fs k w :
  k <> 0 -> pending_frames s !! k = Some w ->
  Forall (fun f => transaction_id (header f) <> k /\ announces_reset f = false) fs ->
  pending_frames (handle_frames s fs).2 !! k = Some w.
Proof.
  intros Hk Hp Hf. revert s Hp. induction Hf as [|f fs [Ht Hr] _ IH]; intros s Hp; [done|]. cbn [handle_frames].
  pose proof (handle_frame_pending s f) as Hs. destruct handle_inbound_frame as [a s'] eqn:E.
  specialize (IH s'). destruct (handle_frames s' fs) as [b s2]. apply IH. cbn in Hs. rewrite Hs, Hr.
  destruct (_ =? 0); [done|]. by rewrite lookup_delete_ne.
Qed.

Lemma handle_frames_app s fs gs :
  handle_frames s (fs ++ gs) = let '(a, s1) := handle_frames s fs in let '(b, s2) := handle_frames s1 gs in (a ++ b, s2).
Proof.
  revert s. induction fs as [|f fs IH]; intros s; cbn; [by destruct handle_frames|].
  destruct handle_inbound_frame as [a s1]. rewrite IH. destruct (handle_frames s1 fs) as [b s2].
  destruct (handle_frames s2 gs) as [c s3]. by rewrite app_assoc.
Qed.

(** The response that carries a request's transaction id is given to that request, whatever other
    responses and notifications arrive first, unless the radio announces a reset. *)
Lemma response_reaches_its_request (s : state) (command : SpinelCommandId) (payload : bytes) (w : Waiter)
    (f : SpinelFrame) (s' : state) (others : list SpinelFrame) (response : SpinelFrame) :
  wf s -> prepare_request s command payload w = Ok (f, s') ->
  Forall (fun g => transaction_id (header g) <> transaction_id (header f) /\ announces_reset g = false) others ->
  transaction_id (header response) = transaction_id (header f) ->
  exists actions s2, handle_frames s' (others ++ [response]) = (actions ++ [Respond w response], s2) /\
    pending_frames s2 !! transaction_id (header f) = None.
Proof.
  intros Hw Hr Ho Ht. apply prepare_request_ok in Hr as (Hid & _ & _ & -> & _); [|done]. unfold is_tid in Hid.
  rewrite handle_frames_app. set (s1 := set_pending _ _).
  assert (Hp : pending_frames (handle_frames s1 others).2 !! transaction_id (header f) = Some w).
  { apply handle_frames_keep; [lia|apply lookup_insert_eq|done]. }
  destruct (handle_frames s1 others) as [a s2]. cbn [snd] in Hp. cbn [handle_frames]. unfold handle_inbound_frame.
  rewrite Ht, Hp. destruct (Z.eqb_spec (transaction_id (header f)) 0); [lia|]. destruct response as [h c p].
  eexists a, _. split; [done|]. cbn. apply lookup_delete_eq.
Qed.

(** *** Every request is resolved exactly once *)
Definition resolves (a : Action (Waiter:=Waiter) (Chan:=Chan)) : option Waiter :=
  match a with Respond w _ | Cancelled w => Some w | PropertyUpdate _ _ | ResetNotification _ _ => None end.
Definition waiting (s : state) : list Waiter := (map_to_list (pending_frames s)).*2.

(** The runs of the protocol: [issued] are the requests made, [actions] what was sent. Dropping the
    sender of a request that is given up cancels it. *)
Inductive run : list Waiter -> list Action -> state -> Prop :=
| run_new : run [] [] new
| run_request issued actions s command payload w f s' :
    run issued actions s -> prepare_request s command payload w = Ok (f, s') -> run (w :: issued) actions s'
| run_bytes issued actions s bs a s' :
    run issued actions s -> handle_inbound_bytes s bs = Some (a, s') -> run issued (actions ++ a) s'
| run_cancel issued actions s tid :
    run issued actions s ->
    run issued (actions ++ match pending_frames s !! tid with Some w => [Cancelled w] | None => [] end) (cancel_request s tid)
| run_reset issued actions s status a s' :
    run issued actions s -> notify_reset s status = (a, s') -> run issued (actions ++ a) s'.

Definition conserves (s : state) (r : list Action * state) : Prop :=
  (omap resolves r.1 ++ waiting r.2 ≡ₚ waiting s) /\ (wf s -> wf r.2).

Lemma conserves_refl s : conserves s ([], s).
Proof. by split. Qed.

Lemma conserves_trans s a s1 b s2 : conserves s (a, s1) -> conserves s1 (b, s2) -> conserves s (a ++ b, s2).
Proof.
  intros [H1 W1] [H2 W2]. cbn in *. split; [|tauto]. cbn. by rewrite omap_app, <- app_assoc, H2.
Qed.

Lemma wf_delete s tid : wf s -> wf (set_pending s (delete tid (pending_frames s))).
Proof. intros [Hn Hp]. split; [done|]. cbn. intros k [w [_ Hk]%lookup_delete_Some]. apply Hp. by exists w. Qed.

Lemma notify_reset_conserves s status : conserves s (notify_reset s status).
Proof.
  unfold notify_reset. cbn. split; cbn.
  - rewrite omap_app. assert (Hc : forall l : list (Z * Waiter), omap resolves (map (fun e => Cancelled e.2) l) = l.*2).
    { induction l as [|e l IH]; [done|]. cbn. by rewrite IH. }
    rewrite Hc. unfold waiting. cbn. rewrite map_to_list_empty. by destruct (reset_notification_receiver s); cbn; rewrite !app_nil_r.
  - intros [Hn _]. split; [done|]. cbn. intros k [w Hk]. by rewrite lookup_empty in Hk.
Qed.

Lemma remove_pending s tid w :
  pending_frames s !! tid = Some w -> waiting s ≡ₚ w :: waiting (set_pending s (delete tid (pending_frames s))).
Proof. intros Hp. unfold waiting. cbn. by rewrite <- (map_to_list_delete _ _ _ Hp). Qed.

Lemma handle_frame_conserves s h command payload : conserves s (handle_inbound_frame s h command payload).
Proof.
  unfold handle_inbound_frame, handle_unsolicited_last_status.
  repeat (case_match; try apply conserves_refl; try apply notify_reset_conserves); try (split; [cbn; by case_match|done]).
  match goal with Hp : pending_frames s !! _ = Some _ |- _ => split; [by rewrite (remove_pending _ _ _ Hp)|apply wf_delete] end.
Qed.

Lemma handle_datas_conserves s ds : conserves s (handle_datas s ds).
Proof.
  revert s. induction ds as [|d ds IH]; intros s; [apply conserves_refl|]. cbn [handle_datas].
  assert (Hd : conserves s (handle_data s d)).
  { unfold handle_data. destruct parse_spinel_parts as [[[h c] p]| |]; [apply handle_frame_conserves|apply conserves_refl..]. }
  destruct (handle_data s d) as [a s1]. specialize (IH s1). destruct (handle_datas s1 ds) as [b s2]. by eapply conserves_trans.
Qed.

Lemma handle_bytes_conserves s bs a s' : handle_inbound_bytes s bs = Some (a, s') -> conserves s (a, s').
Proof.
  rewrite handle_inbound_octets. destruct octets as [ds r]. pose proof (handle_datas_conserves s ds) as Hd.
  destruct (handle_datas s ds). intros [= <- <-]. done.
Qed.

Lemma run_inv issued actions s : run issued actions s -> wf s /\ omap resolves actions ++ waiting s ≡ₚ issued.
Proof.
  assert (Hstep : forall issued actions s (a : list Action) s', wf s /\ omap resolves actions ++ waiting s ≡ₚ issued ->
      conserves s (a, s') -> wf s' /\ omap resolves (actions ++ a) ++ waiting s' ≡ₚ issued).
  { intros iss acts s0 a s' [Hw Hp] [Hc Hc']. cbn in *. split; [auto|]. by rewrite omap_app, <- app_assoc, Hc. }
  induction 1 as [|issued actions s command payload w f s' _ [Hw IH] Hr|issued actions s bs a s' _ IH Hb
                  |issued actions s tid _ IH|issued actions s status a s' _ IH Hr].
  - split; [|done]. split; [cbn; unfold is_tid; lia|]. intros k [w Hk]. done.
  - apply prepare_request_ok in Hr as (_ & _ & Hfree & -> & Hw'); [|done]. split; [done|].
    unfold waiting in *. cbn. rewrite map_to_list_insert by done. cbn. by rewrite <- IH, Permutation_middle.
  - apply (Hstep _ _ s); [done|]. by apply handle_bytes_conserves in Hb.
  - apply (Hstep _ _ s); [done|]. unfold cancel_request. destruct (pending_frames s !! tid) as [w|] eqn:E.
    + split; [by rewrite (remove_pending _ _ _ E)|apply wf_delete].
    + rewrite delete_id by done. split; [done|]. by intros [Hn Hp].
  - apply (Hstep _ _ s); [done|]. rewrite <- Hr. apply notify_reset_conserves.
Qed.

(** In every run of the protocol, the requests that were answered or cancelled together with
    those still pending are exactly the requests issued: none is lost and none is resolved twice;
    at most seven are pending. *)
Lemma requests_conserved (issued : list Waiter) (actions : list Action) (s : state) :
  run issued actions s ->
  omap resolves actions ++ waiting s ≡ₚ issued /\ (NoDup issued -> NoDup (omap resolves actions ++ waiting s)) /\
  (length (waiting s) <= 7)%nat.
Proof.
  intros [Hw Hp]%run_inv. split_and!; [done|by rewrite Hp|]. unfold waiting. rewrite length_fmap, length_map_to_list.
  rewrite <- size_dom. change 7%nat with (size (list_to_set [1; 2; 3; 4; 5; 6; 7] : gset Z)). apply subseteq_size.
  intros k Hk. apply elem_of_dom, Hw in Hk. unfold is_tid in Hk. apply elem_of_list_to_set.
  change (k ∈ seqZ 1 7). apply elem_of_seqZ. lia.
Qed.
End Protocol.
End SpinelFacts.

(** ** The theorems at concrete inputs

    The checksum is an instance that adds the octets; the theorems hold of any 16-bit one. *)
Module SpinelWitness.
Import Spinel.Spinel SpinelFacts.

#[local] Instance sum_crc : Crc := fun bs => foldr Z.add 0 bs mod 65536.
#[local] Instance sum_crc_laws : CrcLaws.
Proof. constructor. intros bs. unfold update_crc, sum_crc, in_width. apply Z.mod_pos_bound. lia. Qed.

Abbreviation proto := (t (Waiter:=nat) (Chan:=nat)).

(** The radio's version, asked for and answered, with a frame received in between. *)
Definition start : proto := set_property_update_receiver new PropStreamRaw 9%nat.
Definition other : SpinelFrame := mkFrame (mkHeader 2 0 0) CmdPropValueIs [0x71; 0x7E; 0x7D].
Definition answer : SpinelFrame := mkFrame (mkHeader 2 0 1) CmdPropValueIs [0x02; 0x41].
Definition asked : SpinelFrame * proto :=
  match prepare_request start CmdPropValueGet [0x02] 5%nat with Ok r => r | _ => (other, start) end.

Lemma start_wf : wf start.
Proof. split; [cbn; unfold is_tid; lia|]. intros k [w Hk]. done. Qed.

Lemma frames_wf : Forall wf_frame [other; answer].
Proof. repeat constructor; cbn; try lia; done. Qed.

(** The two frames arrive in three reads, one of which ends inside an escape sequence. *)
Definition sent : bytes := Eval vm_compute in wire [other; answer].
Definition reads : list bytes := [take 5 sent; take 7 (drop 5 sent); drop 12 sent].

Lemma stream_reassembled_witness :
  exists s', handle_chunks (asked.2) reads =
    Some ([PropertyUpdate 9%nat (mkPropValueIs PropStreamRaw [0x7E; 0x7D]); Respond 5%nat answer], s').
Proof.
  eexists. rewrite (stream_reassembled asked.2 [other; answer] reads); [|done|apply frames_wf|by vm_compute].
  vm_compute. reflexivity.
Defined.

Lemma request_gets_free_tid_witness : prepare_request start CmdPropValueGet [0x02] 5%nat = Ok asked /\ wf asked.2.
Proof.
  split; [by vm_compute|]. pose proof (request_gets_free_tid start CmdPropValueGet [0x02] 5%nat start_wf) as H.
  by apply H.
Defined.

Lemma response_reaches_its_request_witness :
  exists actions s2, handle_frames asked.2 ([other] ++ [answer]) = (actions ++ [Respond 5%nat answer], s2) /\
    pending_frames s2 !! 1 = None.
Proof.
  apply (response_reaches_its_request start CmdPropValueGet [0x02] 5%nat asked.1 asked.2 [other] answer).
  - apply start_wf.
  - by vm_compute.
  - repeat constructor. by vm_compute.
  - by vm_compute.
Defined.

(** A request, the answer to it, and a second request that a reset cancels. *)
Lemma requests_conserved_witness :
  exists actions (s : proto), run [6%nat; 5%nat] actions s /\ omap resolves actions = [5%nat; 6%nat] /\ (length (waiting s) <= 7)%nat.
Proof.
  pose (r1 := match prepare_request (new : proto) CmdPropValueGet [0x02] 5%nat with Ok r => r.2 | _ => new end).
  pose (r2 := match handle_inbound_bytes r1 (wire [answer]) with Some r => r | _ => ([], r1) end).
  pose (r3 := match prepare_request r2.2 CmdPropValueGet [0x02] 6%nat with Ok r => r.2 | _ => r2.2 end).
  pose (r4 := notify_reset r3 StatusResetSoftware).
  assert (Hr : run [6%nat; 5%nat] (r2.1 ++ r4.1) r4.2).
  { apply (run_reset _ _ r3 StatusResetSoftware); [|by vm_compute].
    eapply (run_request _ _ r2.2 CmdPropValueGet [0x02]); [|by vm_compute].
    apply (run_bytes _ [] r1 (wire [answer])); [|by vm_compute].
    eapply (run_request _ _ new CmdPropValueGet [0x02]); [apply run_new|by vm_compute]. }
  exists (r2.1 ++ r4.1), r4.2. split_and!; [done|by vm_compute|]. apply (requests_conserved _ _ _ Hr).
Defined.
End SpinelWitness.
