(* ===== verification/Effects.v ===== *)
(** * Commands that change a state and may fail

    The radio back ends and the driver's radio tasks are sequences of fallible calls on one state,
    written with [?] in the source: a call leaves the state changed whether it succeeds or not, the
    first error ends the sequence, and a panic ends everything. *)

From S2P Require Import Prelude.

Definition eff (S E A : Type) : Type := S -> may ((A + E) * S).

#[export] Instance eff_ret S E : MRet (eff S E) := fun A a s => Ok (inl a, s).
#[export] Instance eff_bind S E : MBind (eff S E) := fun A B f m s =>
  '(r, s) ← m s;
  match r with inl a => f a s | inr e => Ok (inr e, s) end.

Definition raise {S E A} (e : E) : eff S E A := fun s => Ok (inr e, s).
Definition gets {S E A} (f : S -> A) : eff S E A := fun s => Ok (inl (f s), s).
Definition modify {S E} (f : S -> S) : eff S E unit := fun s => Ok (inl tt, f s).

(** [.map_err(f)]. *)
Definition map_err {S E E' A} (f : E -> E') (m : eff S E A) : eff S E' A := fun s =>
  '(r, s) ← m s; Ok (match r with inl a => inl a | inr e => inr (f e) end, s).

(** The result as a value, without [?]. *)
Definition attempt {S E E' A} (m : eff S E A) : eff S E' (A + E) := fun s => '(r, s) ← m s; Ok (inl r, s).

(** A command on a part of the state. *)
Definition on_part {S S' E A} (get : S -> S') (put : S -> S' -> S) (m : eff S' E A) : eff S E A := fun s =>
  '(r, x) ← m (get s); Ok (r, put s x).

(** A step that returns. *)
Lemma eff_next {S E A B} (m : eff S E A) (f : A -> eff S E B) s a s' : m s = Ok (inl a, s') -> (m ≫= f) s = f a s'.
Proof. intros Hm. unfold mbind, eff_bind. by rewrite Hm. Qed.

(** ** Specifications: what holds of the result and the state after a command that returns. *)
Definition eff_post {S E A} (m : eff S E A) (s : S) (Q : A + E -> S -> Prop) : Prop := forall r s', m s = Ok (r, s') -> Q r s'.

Section Rules.
Context {S E A : Type}.
Implicit Types (Q : A + E -> S -> Prop) (s : S).

Lemma eff_post_ret a s Q : Q (inl a) s -> eff_post (mret a : eff S E A) s Q.
Proof. intros HQ r s' [= <- <-]. exact HQ. Qed.
Lemma eff_post_raise e s Q : Q (inr e) s -> eff_post (raise e : eff S E A) s Q.
Proof. intros HQ r s' [= <- <-]. exact HQ. Qed.
Lemma eff_post_gets (f : S -> A) s Q : Q (inl (f s)) s -> eff_post (gets f : eff S E A) s Q.
Proof. intros HQ r s' [= <- <-]. exact HQ. Qed.
Lemma eff_post_weaken (m : eff S E A) s Q Q' : eff_post m s Q -> (forall r s', Q r s' -> Q' r s') -> eff_post m s Q'.
Proof. intros Hm HQ r s' Hr. apply HQ. by apply Hm. Qed.
End Rules.

Lemma eff_post_modify {S E} (f : S -> S) s (Q : unit + E -> S -> Prop) : Q (inl tt) (f s) -> eff_post (modify f : eff S E unit) s Q.
Proof. intros HQ r s' [= <- <-]. exact HQ. Qed.

Lemma eff_post_bind {S E A B} (m : eff S E A) (f : A -> eff S E B) s (Q : B + E -> S -> Prop) :
  eff_post m s (fun r s' => match r with inl a => eff_post (f a) s' Q | inr e => Q (inr e) s' end) -> eff_post (m ≫= f) s Q.
Proof.
  intros Hm r s'. unfold mbind, eff_bind. intros ([x s1] & Hx & Hr)%bind_ok. specialize (Hm x s1 Hx). destruct x as [a|e].
  - exact (Hm r s' Hr).
  - by injection Hr as <- <-.
Qed.

Lemma eff_post_map_err {S E E' A} (f : E -> E') (m : eff S E A) s (Q : A + E' -> S -> Prop) :
  eff_post m s (fun r s' => Q (match r with inl a => inl a | inr e => inr (f e) end) s') -> eff_post (map_err f m) s Q.
Proof. intros Hm r s' ([x s1] & Hx & [= <- <-])%bind_ok. exact (Hm x s1 Hx). Qed.

Lemma eff_post_attempt {S E E' A} (m : eff S E A) s (Q : (A + E) + E' -> S -> Prop) :
  eff_post m s (fun r s' => Q (inl r) s') -> eff_post (attempt m) s Q.
Proof. intros Hm r s' ([x s1] & Hx & [= <- <-])%bind_ok. exact (Hm x s1 Hx). Qed.
