(* ===== verification/SpinelClient.v ===== *)
(** * The Spinel client: [src/crates/ziggurat-spinel/src/client.rs]

    [SpinelClient] sends commands to the radio co-processor and waits for their answers. A command
    is written to the link, and then the reader task feeds what arrives to the protocol until the
    answer is there or two seconds have passed. The link is a parameter: what a write answers, and
    the chunks that arrive before the timeout of the command. Requests are numbered, and the number
    is the waiter the protocol knows them by. *)

From stdpp Require Import gmap.
From S2P Require Import Prelude Effects Types AbstractBits Spinel.

Module SpinelClient.
Import Spinel.

Definition MAX_CONSECUTIVE_TIMEOUTS : Z := 4.

(** ** Radio frames *)
Record SpinelTxFrame := mkTxFrame {
  tx_psdu : bytes;
  tx_channel : option Z;
  max_csma_backoffs : option Z;
  max_frame_retries : option Z;
  enable_csma_ca : option bool;
  is_header_updated : option bool;
  is_a_retransmit : option bool;
  is_security_processed : option bool;
  tx_delay : option Z;
  tx_delay_base_time : option Z;
  rx_channel_after_tx : option Z;
  tx_power : option Z
}.

(** [x as u8] of an [i8], and back. *)
Definition u8_of_i8 (x : Z) : Z := x mod 2 ^ 8.
Definition i8_of_u8 (x : Z) : Z := if x <? 128 then x else x - 256.

Definition opt_bytes {A} (f : A -> bytes) (o : option A) : bytes := match o with Some a => f a | None => [] end.
Definition byte_of_bool (b : bool) : bytes := [Z.b2z b].

Definition tx_to_bytes (f : SpinelTxFrame) : bytes :=
  to_le_bytes 2 (Z.of_nat (length (tx_psdu f)) mod 2 ^ 16) ++ tx_psdu f
  ++ opt_bytes (fun c => [c]) (tx_channel f)
  ++ opt_bytes (fun n => [n]) (max_csma_backoffs f)
  ++ opt_bytes (fun n => [n]) (max_frame_retries f)
  ++ opt_bytes byte_of_bool (enable_csma_ca f)
  ++ opt_bytes byte_of_bool (is_header_updated f)
  ++ opt_bytes byte_of_bool (is_a_retransmit f)
  ++ opt_bytes byte_of_bool (is_security_processed f)
  ++ opt_bytes (to_le_bytes 4) (tx_delay f)
  ++ opt_bytes (to_le_bytes 4) (tx_delay_base_time f)
  ++ opt_bytes (fun c => [c]) (rx_channel_after_tx f)
  ++ opt_bytes (fun p => [u8_of_i8 p]) (tx_power f).

Record SpinelRxFrame := mkRxFrame {
  rx_psdu : bytes;
  rssi : Z;
  noise_floor : Z;
  flags : Z;
  rx_channel : Z;
  lqi : Z;
  timestamp_us : Z;
  receive_error : Z;
  manufacturer_specific : bytes
}.

Inductive SpinelRxFrameError : Type :=
| RxTooShort (expected got : nat)
| PsduTooLong (got : nat).

(** The metadata after the PSDU: 1 + 1 + 4 + 1 + 1 + 8 + 1 bytes. *)
Definition RX_TRAILER : nat := 17.

Definition byte_at (bs : bytes) (i : nat) : Z := default 0 (bs !! i).
Definition le_at (bs : bytes) (i n : nat) : Z := from_le_bytes (take n (drop i bs)).

Definition rx_from_bytes (bs : bytes) : res SpinelRxFrameError SpinelRxFrame :=
  if (length bs <? 2)%nat then Err (RxTooShort 2 (length bs))
  else
    let psdu_len := Z.to_nat (le_at bs 0 2) in
    let expected := (2 + psdu_len + RX_TRAILER)%nat in
    if (length bs <? expected)%nat then Err (RxTooShort expected (length bs))
    else if (MAX_PHY_PACKET_SIZE <? psdu_len)%nat then Err (PsduTooLong psdu_len)
    else
      let rest := drop (2 + psdu_len) bs in
      Ok (mkRxFrame (take psdu_len (drop 2 bs)) (i8_of_u8 (byte_at rest 0)) (i8_of_u8 (byte_at rest 1)) (le_at rest 2 4)
            (byte_at rest 6) (byte_at rest 7) (le_at rest 8 8) (byte_at rest 16) (drop RX_TRAILER rest)).

(** ** The client *)
Inductive SpinelError : Type :=
| IoError
| CancelledByReset
| TransportClosed
| Timeout
| U21ParsingError (err : SpinelFrameParsingError)
| InvalidResponsePropertyId (property_id : Z)
| NcpVersionNotUtf8
| InvalidHardwareAddress (got : bytes)
| UnexpectedResponseProperty (expected got : SpinelPropertyId)
| EmptyResponse
| InvalidStatus (status : Z).

Inductive SpinelResetReason : Type := ResetPlatform | ResetStack | ResetBootloader.
Definition reset_reason_code (r : SpinelResetReason) : Z :=
  match r with ResetPlatform => 1 | ResetStack => 2 | ResetBootloader => 3 end.

(** The link: whether a write succeeds, and what arrives before a command times out. *)
Class RcpTransport (L : Type) := {
  write_all : L -> bytes -> bool * L;
  arriving : L -> list bytes * L
}.

Section Client.
Context `{!Crc} {L Chan : Type} `{!RcpTransport L}.

Abbreviation protocol_state := (@Spinel.t nat Chan).
Abbreviation action := (@Spinel.Action nat Chan).

(** [SpinelClient]. [inbox] is what was sent to the channels and not received yet. *)
Record t := mk {
  protocol : protocol_state;
  consecutive_timeouts : Z;
  next_request : nat;
  inbox : list action;
  link : L
}.

Definition set_protocol (c : t) (p : protocol_state) : t := mk p (consecutive_timeouts c) (next_request c) (inbox c) (link c).
Definition set_timeouts (c : t) (n : Z) : t := mk (protocol c) n (next_request c) (inbox c) (link c).
Definition set_inbox (c : t) (l : list action) : t := mk (protocol c) (consecutive_timeouts c) (next_request c) l (link c).
Definition set_link (c : t) (l : L) : t := mk (protocol c) (consecutive_timeouts c) (next_request c) (inbox c) l.

Definition new (port : L) : t := mk Spinel.new 0 0 [] port.

(** The reader task, on one chunk. *)
Definition read_chunk (c : t) (chunk : bytes) : t :=
  match handle_inbound_bytes (protocol c) chunk with
  | Some (actions, p) => set_inbox (set_protocol c p) (inbox c ++ actions)
  | None => c
  end.

Definition read_arriving (c : t) : t :=
  let '(chunks, l) := arriving (link c) in foldl read_chunk (set_link c l) chunks.

Definition send_frame (f : SpinelFrame) : eff t SpinelError unit := fun c =>
  let '(written, l) := write_all (link c) (to_bytes_with_flags (frame_to_bytes f)) in
  Ok (if written then inl tt else inr IoError, set_link c l).

Definition send_reset (reason : SpinelResetReason) : eff t SpinelError unit :=
  send_frame (mkFrame (mkHeader 2 0 0) CmdReset [reset_reason_code reason]).

(** What the oneshot of a request holds: the answer, or that its sender was dropped. *)
Definition concerns (waiter : nat) (a : action) : bool :=
  match a with Respond w _ | Cancelled w => bool_decide (w = waiter) | _ => false end.

(** [timeout(TIMEOUT, rx)]: the first message for the request, which leaves the channel. *)
Definition take_answer (waiter : nat) (c : t) : option action * t :=
  match list_find (fun a => concerns waiter a = true) (inbox c) with
  | Some (i, a) => (Some a, set_inbox c (delete i (inbox c)))
  | None => (None, c)
  end.

Definition cancel (c : t) (tid : Z) : t := set_protocol c (cancel_request (protocol c) tid).

(** The branch of a command that was not answered in time. *)
Definition timed_out (c : t) (tid : Z) : t :=
  let c := cancel c tid in
  let timeouts := consecutive_timeouts c + 1 in
  if MAX_CONSECUTIVE_TIMEOUTS <=? timeouts then
    let '(actions, p) := notify_reset (protocol c) StatusResponseTimeout in
    set_timeouts (set_inbox (set_protocol c p) (inbox c ++ actions)) 0
  else set_timeouts c timeouts.

(** The rest of a command once its frame is on the wire. *)
Definition await_response (waiter : nat) (tid : Z) : eff t SpinelError SpinelFrame := fun c =>
  let '(answer, c) := take_answer waiter (read_arriving c) in
  match answer with
  | Some (Respond _ f) => Ok (inl f, set_timeouts c 0)
  | Some _ => Ok (inr CancelledByReset, cancel c tid)
  | None => Ok (inr Timeout, timed_out c tid)
  end.

Definition send_command (command : SpinelCommandId) (payload : bytes) : eff t SpinelError SpinelFrame := fun c =>
  let waiter := next_request c in
  '(f, p) ← prepare_request (protocol c) command payload waiter;
  let c := mk p (consecutive_timeouts c) (S waiter) (inbox c) (link c) in
  (_ ← send_frame f; await_response waiter (transaction_id (header f))) c.

(** [match self.once().await { Err(Timeout) => self.once().await, result => result }]. *)
Definition retry_timeout {A} (once : eff t SpinelError A) : eff t SpinelError A :=
  r ← attempt once;
  match r with
  | inl a => mret a
  | inr Timeout => once
  | inr e => raise e
  end.

Definition expect_bytes (m : may bytes) (c : t) : may ((bytes + SpinelError) * t) := bs ← m; Ok (inl bs, c).

(** [packed_uint21_deserialize(..).map_err(..)?]. *)
Definition unpack (bs : bytes) : eff t SpinelError (Z * bytes) :=
  match packed_uint21_deserialize bs with
  | Ok r => mret r
  | Err e => raise (U21ParsingError e)
  | Panic => fun _ => Panic
  end.

Definition prop_value_get_once (property : SpinelPropertyId) : eff t SpinelError bytes :=
  id ← expect_bytes (packed_uint21_to_bytes (property_code property));
  response ← send_command CmdPropValueGet id;
  r ← unpack (payload response);
  mret r.2.

Definition prop_value_get (property : SpinelPropertyId) : eff t SpinelError bytes := retry_timeout (prop_value_get_once property).

Definition prop_value_set_once (property : SpinelPropertyId) (value : bytes) : eff t SpinelError (SpinelPropertyId * bytes) :=
  id ← expect_bytes (packed_uint21_to_bytes (property_code property));
  response ← send_command CmdPropValueSet (id ++ value);
  r ← unpack (payload response);
  match property_of r.1 with
  | Some answered => mret (answered, r.2)
  | None => raise (InvalidResponsePropertyId r.1)
  end.

Definition prop_value_set (property : SpinelPropertyId) (value : bytes) : eff t SpinelError (SpinelPropertyId * bytes) :=
  retry_timeout (prop_value_set_once property value).

Definition get_hw_address : eff t SpinelError Eui64 :=
  rsp ← prop_value_get PropHwaddr;
  if (length rsp =? 8)%nat then mret (Eui64.from_be_bytes rsp) else raise (InvalidHardwareAddress rsp).

(** [transmit_frame_inner]: not repeated on a timeout. *)
Definition transmit_frame (f : SpinelTxFrame) : eff t SpinelError SpinelStatus :=
  r ← prop_value_set_once PropStreamRaw (tx_to_bytes f);
  if bool_decide (r.1 = PropLastStatus) then
    match r.2 with
    | [] => raise EmptyResponse
    | b :: _ => match status_of b with Some status => mret status | None => raise (InvalidStatus b) end
    end
  else raise (UnexpectedResponseProperty PropLastStatus r.1).
End Client.
End SpinelClient.
