(* ===== verification/SpinelClientFacts.v ===== *)
(** * The Spinel client's requests

    Every command a client sends is settled by the time it returns: its transaction id is free again
    and nothing it waits for is left in the channels, unless its frame could not be written. *)

From stdpp Require Import gmap.
From S2P Require Import Prelude Effects Types AbstractBits Spinel SpinelFacts SpinelClient.

Module SpinelClientFacts.
Import Spinel SpinelFacts SpinelClient.

Section Client.
Context `{!Crc} {L Chan : Type} `{!RcpTransport L}.
Abbreviation client := (@SpinelClient.t L Chan).
Abbreviation protocol_state := (@Spinel.t nat Chan).

(** ** The protocol only removes requests while it reads *)
Definition shrinks (s : protocol_state) (r : list (@Spinel.Action nat Chan) * protocol_state) : Prop :=
  pending_frames r.2 ⊆ pending_frames s.

Lemma unchanged_shrinks s a : shrinks s (a, s).
Proof. unfold shrinks. done. Qed.

Lemma notify_reset_shrinks s status : shrinks s (notify_reset s status).
Proof. apply map_empty_subseteq. Qed.

Lemma last_status_shrinks s value : shrinks s (handle_unsolicited_last_status s value).
Proof.
  unfold handle_unsolicited_last_status. destruct (packed_uint21_deserialize value) as [[n rest]| |]; try apply unchanged_shrinks.
  destruct (status_of_u32 n) as [status|]; [|apply unchanged_shrinks].
  destruct (is_reset status); [apply notify_reset_shrinks|apply unchanged_shrinks].
Qed.

Lemma handle_frame_shrinks s h command payload : shrinks s (handle_inbound_frame s h command payload).
Proof.
  unfold handle_inbound_frame. destruct (transaction_id h =? 0).
  - destruct (bool_decide (command = CmdPropValueIs)); [|apply unchanged_shrinks].
    destruct (packed_uint21_deserialize payload) as [[id value]| |]; try apply unchanged_shrinks.
    destruct (property_of id) as [[]|]; first [apply unchanged_shrinks|apply last_status_shrinks].
  - destruct (pending_frames s !! _); [apply delete_subseteq|apply unchanged_shrinks].
Qed.

Lemma handle_datas_shrinks s ds : shrinks s (handle_datas s ds).
Proof.
  revert s. induction ds as [|d ds IH]; intros s; [by unfold shrinks|]. cbn [handle_datas].
  assert (shrinks s (handle_data s d)) as Hd.
  { unfold handle_data. destruct parse_spinel_parts as [[[h c] p]| |]; [apply handle_frame_shrinks|by unfold shrinks..]. }
  destruct (handle_data s d) as [a s1]. specialize (IH s1). destruct (handle_datas s1 ds) as [b s2]. unfold shrinks in *. cbn in *. by etrans.
Qed.

(** ** What the client is owed *)
Definition outstanding (c : client) : list nat := omap resolves (inbox c) ++ waiting (protocol c).

Record sound (c : client) : Prop := mkSound {
  so_wf : wf (protocol c);
  so_numbered : Forall (fun w => w < next_request c)%nat (outstanding c);
  so_distinct : NoDup (outstanding c);
  so_timeouts : 0 <= consecutive_timeouts c < MAX_CONSECUTIVE_TIMEOUTS
}.

(** Reading moves requests from the table to the channels. *)
Record reads (c c' : client) : Prop := mkReads {
  re_outstanding : outstanding c' ≡ₚ outstanding c;
  re_wf : wf (protocol c) -> wf (protocol c');
  re_pending : pending_frames (protocol c') ⊆ pending_frames (protocol c);
  re_timeouts : consecutive_timeouts c' = consecutive_timeouts c;
  re_next : next_request c' = next_request c
}.
#[local] Instance reads_preorder : PreOrder reads.
Proof.
  split; [done|]. intros x y z [] []. split; [by etrans|auto|by etrans|congruence..].
Qed.

Lemma read_chunk_reads c chunk : reads c (read_chunk c chunk).
Proof.
  unfold read_chunk. destruct (handle_inbound_bytes (protocol c) chunk) as [[a p]|] eqn:Hb; [|done].
  pose proof (handle_bytes_conserves _ _ _ _ Hb) as [Hc Hw]. cbn in Hc, Hw. split; [|done| |done..].
  - unfold outstanding. cbn. by rewrite omap_app, <- app_assoc, Hc.
  - rewrite handle_inbound_octets in Hb. destruct octets as [ds r]. pose proof (handle_datas_shrinks (protocol c) ds) as Hs.
    destruct (handle_datas _ _) as [b p']. by injection Hb as <- <-.
Qed.

Lemma read_arriving_reads c : reads c (read_arriving c).
Proof.
  unfold read_arriving. destruct (arriving (link c)) as [chunks l]. transitivity (set_link c l); [done|]. generalize (set_link c l).
  induction chunks as [|chunk chunks IH]; intros c1; [done|]. cbn [foldl]. etrans; [apply read_chunk_reads|apply IH].
Qed.

(** ** One command *)

(** [c'] waits for one request more than [c]: number [next_request c], under [tid]. *)
Record waits_for (c : client) (tid : Z) (c' : client) : Prop := mkWaitsFor {
  wa_outstanding : outstanding c' ≡ₚ next_request c :: outstanding c;
  wa_wf : wf (protocol c');
  wa_timeouts : consecutive_timeouts c' = consecutive_timeouts c;
  wa_next : next_request c' = S (next_request c);
  wa_tid k w : pending_frames (protocol c') !! k = Some w -> (k = tid <-> w = next_request c)
}.

Lemma waiting_elem (p : protocol_state) w : w ∈ waiting p <-> exists k, pending_frames p !! k = Some w.
Proof.
  unfold waiting. rewrite list_elem_of_fmap. split.
  - intros ([k x] & -> & Hk%elem_of_map_to_list). by exists k.
  - intros [k Hk]. exists (k, w). by rewrite elem_of_map_to_list.
Qed.

Lemma prepared c command payload f p :
  sound c -> prepare_request (protocol c) command payload (next_request c) = Ok (f, p) ->
  waits_for c (transaction_id (header f)) (mk p (consecutive_timeouts c) (S (next_request c)) (inbox c) (link c)).
Proof.
  intros [Hw Hn _ _] Hp. apply prepare_request_ok in Hp as (_ & _ & Hfree & -> & Hw'); [|done]. split; [|done..|].
  - unfold outstanding, waiting. cbn. rewrite map_to_list_insert by done. cbn. by rewrite <- Permutation_middle.
  - intros k w. cbn. rewrite lookup_insert_Some. intros [[<- <-]|[Hk Hpk]]; [done|]. split; [by intros ->|]. intros ->. exfalso.
    apply Forall_app in Hn as [_ Hn]. rewrite Forall_forall in Hn. assert (next_request c ∈ waiting (protocol c)) as Hin by (apply waiting_elem; by exists k).
    specialize (Hn _ Hin). lia.
Qed.

Lemma waits_reads c tid c1 c2 : waits_for c tid c1 -> reads c1 c2 -> waits_for c tid c2.
Proof.
  intros [Ho Hw Ht Hn Hk] [Ro Rw Rp Rt Rn]. split; [by rewrite Ro|auto|congruence..|]. intros k w Hkw. apply Hk. by eapply lookup_weaken.
Qed.

Lemma waits_distinct c tid c' : sound c -> waits_for c tid c' -> NoDup (outstanding c').
Proof.
  intros [_ Hn Hd _] [-> _ _ _ _]. constructor; [|done]. intros Hin. rewrite Forall_forall in Hn. specialize (Hn _ Hin). lia.
Qed.

(** The request leaves the table under its id. *)
Lemma cancel_outstanding c tid c' :
  sound c -> waits_for c tid c' -> next_request c ∉ omap resolves (inbox c') -> outstanding (cancel c' tid) ≡ₚ outstanding c.
Proof.
  intros Hs Hwait Hno. pose proof (wa_outstanding _ _ _ Hwait) as Ho.
  assert (next_request c ∈ outstanding c') as Hin by (rewrite Ho; apply elem_of_cons; by left). apply elem_of_app in Hin as [Hin|Hin]; [done|].
  apply waiting_elem in Hin as [k Hk]. assert (k = tid) as -> by by apply (wa_tid _ _ _ Hwait k _ Hk).
  apply (Permutation_cons_inv (a := next_request c)). rewrite <- Ho. unfold outstanding, cancel, cancel_request. cbn [protocol inbox set_protocol].
  rewrite (remove_pending _ _ _ Hk). apply Permutation_middle.
Qed.

(** Nothing is under the id of a request that was resolved. *)
Lemma cancel_resolved c tid c' :
  sound c -> waits_for c tid c' -> next_request c ∈ omap resolves (inbox c') -> cancel c' tid = c'.
Proof.
  intros Hs Hwait Hin. unfold cancel, cancel_request. rewrite delete_id; [by destruct c' as [[] ? ? ? ?]|].
  destruct (pending_frames (protocol c') !! tid) as [w|] eqn:Hk; [|done]. exfalso.
  assert (w = next_request c) as -> by by apply (wa_tid _ _ _ Hwait tid _ Hk).
  pose proof (waits_distinct _ _ _ Hs Hwait) as (_ & Hd & _)%NoDup_app. apply (Hd _ Hin), waiting_elem. by exists tid.
Qed.

Lemma concerns_resolves (w : nat) (a : @Spinel.Action nat Chan) : concerns w a = true <-> resolves a = Some w.
Proof. destruct a; cbn; rewrite ?bool_decide_eq_true; naive_solver. Qed.

Lemma take_answer_spec w (c : client) :
  match take_answer w c with
  | (Some a, c') => resolves a = Some w /\ w ∈ omap resolves (inbox c) /\ protocol c' = protocol c /\
      outstanding c ≡ₚ w :: outstanding c' /\ next_request c' = next_request c /\ consecutive_timeouts c' = consecutive_timeouts c
  | (None, c') => c' = c /\ w ∉ omap resolves (inbox c)
  end.
Proof.
  unfold take_answer. destruct (list_find _ (inbox c)) as [[i a]|] eqn:Hf.
  - apply list_find_Some in Hf as (Hi & Ha & _). apply concerns_resolves in Ha. split_and!; [done| |done| |done..].
    + apply list_elem_of_omap. exists a. split; [by apply list_elem_of_lookup_2 with i|done].
    + unfold outstanding. cbn [inbox set_inbox protocol]. rewrite <- (take_drop_middle _ _ _ Hi) at 1. rewrite delete_take_drop.
      rewrite !omap_app. cbn [omap list_omap]. rewrite Ha. rewrite <- !app_assoc. cbn. apply Permutation_sym, Permutation_middle.
  - split; [done|]. rewrite list_elem_of_omap. intros (a & Ha & Hr). apply list_find_None in Hf. rewrite Forall_forall in Hf.
    apply (Hf a Ha). by apply concerns_resolves.
Qed.

(** After a command that was written: everything it waited for is settled. *)
Definition settled (c : client) (c' : client) : Prop := sound c' /\ outstanding c' ≡ₚ outstanding c.

Lemma settle_sound c c' :
  sound c -> wf (protocol c') -> outstanding c' ≡ₚ outstanding c -> (next_request c <= next_request c')%nat ->
  0 <= consecutive_timeouts c' < MAX_CONSECUTIVE_TIMEOUTS -> settled c c'.
Proof.
  intros [_ Hn Hd _] Hw Ho Hle Ht. split; [|done]. split; [done| |by rewrite Ho|done]. rewrite Ho. eapply Forall_impl; [exact Hn|]. cbn. lia.
Qed.

Lemma timed_out_settled c tid c' :
  sound c -> waits_for c tid c' -> next_request c ∉ omap resolves (inbox c') -> settled c (timed_out c' tid).
Proof.
  intros Hs Hwait Hno. pose proof (cancel_outstanding _ _ _ Hs Hwait Hno) as Hc. destruct Hwait as [_ Hw Ht Hn _].
  assert (wf (protocol (cancel c' tid))) as Hwc by by apply wf_delete. pose proof (so_timeouts _ Hs). unfold timed_out. cbv zeta.
  change (consecutive_timeouts (cancel c' tid)) with (consecutive_timeouts c'). rewrite Ht.
  destruct (MAX_CONSECUTIVE_TIMEOUTS <=? _) eqn:Hm.
  - pose proof (notify_reset_conserves (protocol (cancel c' tid)) StatusResponseTimeout) as [Hr Hw'].
    destruct (notify_reset _ _) as [a p]. cbn [fst snd] in Hr, Hw'. apply settle_sound; [done|by apply Hw'| |cbn; rewrite Hn; lia|].
    + rewrite <- Hc. unfold outstanding. cbn. by rewrite omap_app, <- app_assoc, Hr.
    + cbn. unfold MAX_CONSECUTIVE_TIMEOUTS. lia.
  - apply settle_sound; [done..|cbn; rewrite Hn; lia|]. cbn. unfold MAX_CONSECUTIVE_TIMEOUTS in *. lia.
Qed.

Lemma await_response_settled c tid c' :
  sound c -> waits_for c tid c' -> exists r c'', await_response (next_request c) tid c' = Ok (r, c'') /\ settled c c'' /\ r <> inr IoError.
Proof.
  intros Hs Hwait. pose proof (waits_reads _ _ _ _ Hwait (read_arriving_reads c')) as Hr. unfold await_response.
  pose proof (take_answer_spec (next_request c) (read_arriving c')) as Ha. revert Hr Ha. generalize (read_arriving c'). intros c1 Hr Ha.
  pose proof (cancel_resolved _ _ _ Hs Hr) as Hcan. destruct (take_answer _ c1) as [[a|] c2].
  - destruct Ha as (Hra & Hin & Hp & Ho & Hn & Ht). specialize (Hcan Hin). destruct Hr as [Hro Hrw Hrt Hrn _].
    assert (outstanding c2 ≡ₚ outstanding c) as Hc2 by (apply (Permutation_cons_inv (a := next_request c)); by rewrite <- Ho).
    assert (cancel c2 tid = c2) as Hc2' by
      (apply (f_equal protocol) in Hcan; unfold cancel in *; cbn in Hcan; rewrite Hp, Hcan, <- Hp; by destruct c2).
    pose proof (so_timeouts _ Hs). destruct a as [w f|w|chan u|chan u]; try done.
    + eexists _, _. split; [done|]. split; [|done]. apply settle_sound; [done|by cbn; rewrite Hp|done|cbn; rewrite Hn, Hrn; lia|].
      cbn. unfold MAX_CONSECUTIVE_TIMEOUTS. lia.
    + rewrite Hc2'. eexists _, _. split; [done|]. split; [|done]. apply settle_sound; [done|by rewrite Hp|done|rewrite Hn, Hrn; lia|].
      rewrite Ht, Hrt. done.
  - destruct Ha as [-> Hno]. eexists _, _. split; [done|]. split; [|done]. by apply timed_out_settled.
Qed.

Lemma request_accepted c command payload :
  sound c -> (length (waiting (protocol c)) < 7)%nat -> exists f p, prepare_request (protocol c) command payload (next_request c) = Ok (f, p).
Proof.
  intros Hs Hlen. unfold prepare_request. pose proof (free_tid_spec _ (so_wf _ Hs)) as Hf.
  destruct (free_tid 8 _ _) as [tid|[]|]; [by eexists _, _|]. exfalso.
  assert (list_to_set (seqZ 1 7) ⊆ dom (pending_frames (protocol c))) as Hsub.
  { intros k Hk%elem_of_list_to_set%elem_of_seqZ. apply elem_of_dom, Hf. unfold is_tid. lia. }
  apply subseteq_size in Hsub. rewrite size_dom in Hsub. unfold waiting in Hlen. rewrite length_fmap, length_map_to_list in Hlen.
  change (size (list_to_set (seqZ 1 7) : gset Z)) with 7%nat in Hsub. lia.
Qed.

(** C19: a command of the Spinel client always comes back, with an answer or an error, while fewer than
    seven are in flight, and leaves nothing behind: whatever arrives meanwhile (answers to other
    requests, resets, noise), the requests the client is owed afterwards are those it was owed
    before, its transaction id is free again, and the count of consecutive timeouts stays below the
    reset threshold. The exception is a frame that could not be written, whose request stays
    pending. *)
Theorem command_settles (c : client) (command : SpinelCommandId) (payload : bytes) :
  sound c -> (length (waiting (protocol c)) < 7)%nat ->
  exists r c', send_command command payload c = Ok (r, c') /\ sound c' /\
    outstanding c' ≡ₚ match r with inr IoError => [next_request c] | _ => [] end ++ outstanding c.
Proof.
  intros Hs Hlen. destruct (request_accepted c command payload Hs Hlen) as (f & p & Hp). unfold send_command. rewrite Hp.
  pose proof (prepared _ _ _ _ _ Hs Hp) as Hwait. cbv beta iota zeta delta [mbind res_bind eff_bind send_frame].
  match goal with |- context [write_all ?x ?y] => destruct (write_all x y) as [written l] end. set (c1 := set_link _ l).
  assert (waits_for c (transaction_id (header f)) c1) as Hw1 by (destruct Hwait; by split). destruct written.
  - destruct (await_response_settled _ _ _ Hs Hw1) as (r & c' & -> & [Hs' Ho] & Hio). eexists _, _. split; [done|]. split; [done|].
    by destruct r as [?|[]].
  - eexists _, _. split; [done|]. pose proof (waits_distinct _ _ _ Hs Hw1). destruct Hw1 as [Ho Hw Ht Hn _]. split; [|done].
    split; [done| |done|rewrite Ht; apply Hs]. rewrite Ho, Hn. constructor; [lia|]. eapply Forall_impl; [apply Hs|]. cbn. lia.
Qed.

Lemma new_sound (port : L) : sound (new port : client).
Proof.
  split; [split; [cbn; unfold is_tid; lia|]| | |cbn; unfold MAX_CONSECUTIVE_TIMEOUTS; lia]; [|unfold outstanding, waiting; cbn; rewrite map_to_list_empty; constructor..].
  intros k [w Hk]. done.
Qed.
End Client.

(** ** On scripted links *)

(** What arrives during each command, and whether writes succeed. *)
Record script := mkScript { works : bool; chunks : list (list bytes) }.
#[local] Instance scripted : RcpTransport script := {|
  write_all l _ := (works l, l);
  arriving l := (default [] (head (chunks l)), mkScript (works l) (tail (chunks l)))
|}.
#[local] Existing Instance SpinelFacts.SpinelWitness.sum_crc.

(** The answer to the first request comes in two pieces. *)
Definition ex_answer : bytes := to_bytes_with_flags (frame_to_bytes (mkFrame (mkHeader 2 0 1) CmdPropValueIs [33; 15])).
Definition ex_client : @SpinelClient.t script nat := new (mkScript true [[take 4 ex_answer; drop 4 ex_answer]]).

Lemma command_settles_witness :
  exists c', send_command CmdPropValueGet [33] ex_client = Ok (inl (mkFrame (mkHeader 2 0 1) CmdPropValueIs [33; 15]), c') /\
    sound c' /\ outstanding c' ≡ₚ outstanding ex_client.
Proof.
  destruct (command_settles ex_client CmdPropValueGet [33] (new_sound _)) as (r & c' & Hr & Hs & Ho); [vm_compute; lia|].
  assert (r = inl (mkFrame (mkHeader 2 0 1) CmdPropValueIs [33; 15])) as -> by (vm_compute in Hr; congruence).
  exists c'. split_and!; [exact Hr|exact Hs|exact Ho].
Defined.

Fixpoint fail_writes (n : nat) (c : @SpinelClient.t script nat) : may (@SpinelClient.t script nat) :=
  match n with O => Ok c | S n => '(_, c) ← send_command CmdPropValueGet [33] c; fail_writes n c end.

(** A request whose frame is not written keeps its transaction id: after seven failed writes the
    next command panics. *)
Lemma write_failures_exhaust_tids :
  match fail_writes 7 (new (mkScript false [])) with
  | Ok c => length (waiting (protocol c)) = 7%nat /\ send_command CmdPropValueGet [33] c = Panic
  | _ => False
  end.
Proof. vm_compute. done. Qed.
End SpinelClientFacts.
