(* ===== verification/Zdp.v ===== *)
(** * Device profile commands and beacon payloads: [src/crates/ziggurat-zigbee/src/zdp.rs] and [beacon.rs]

    The commands the stack itself consumes or answers, behind a transaction sequence number. The
    bit layouts are derived by the [abstract-bits] crate and are parameters, as for the other
    frames; the counts in front of lists are part of the layout. *)

From S2P Require Import Prelude Types Constants AbstractBits NwkCommands.

Module Zdp.

Definition MAC_PAYLOAD_MAX_LEN : nat := 104.
Definition ZDP_PROFILE_ID : Z := 0x0000.

Inductive DeserializeError : Type := Payload | ZeroBytes.

Inductive ZdpClusterId : Type :=
| IdDeviceAnnce | IdParentAnnce | IdMgmtLqiReq | IdMgmtRtgReq | IdParentAnnceRsp | IdMgmtLqiRsp | IdMgmtRtgRsp.
#[export] Instance ZdpClusterId_eq_dec : EqDecision ZdpClusterId.
Proof. solve_decision. Defined.

Definition cluster_code (c : ZdpClusterId) : Z :=
  match c with
  | IdDeviceAnnce => 0x0013
  | IdParentAnnce => 0x001F
  | IdMgmtLqiReq => 0x0031
  | IdMgmtRtgReq => 0x0032
  | IdParentAnnceRsp => 0x801F
  | IdMgmtLqiRsp => 0x8031
  | IdMgmtRtgRsp => 0x8032
  end.

(** [ZdpClusterId::try_from]. *)
Definition cluster_of (code : Z) : option ZdpClusterId :=
  find (fun c => cluster_code c =? code)
    [IdDeviceAnnce; IdParentAnnce; IdMgmtLqiReq; IdMgmtRtgReq; IdParentAnnceRsp; IdMgmtLqiRsp; IdMgmtRtgRsp].

Inductive ZdpStatus : Type := Success | NotSupported.

Record DeviceAnnce := mkDeviceAnnce {
  nwk_addr : Nwk;
  ieee_addr : Eui64;
  capability : NwkCommands.NwkRejoinCapabilityInformation
}.
Record ParentAnnce := mkParentAnnce { children : list Eui64 }.
Record ParentAnnceRsp := mkParentAnnceRsp {
  rsp_status : ZdpStatus;
  rsp_children : list Eui64
}.
Record MgmtLqiReq := mkMgmtLqiReq { lqi_start_index : Z }.

Inductive ZdpDeviceType : Type := ZdpCoordinator | ZdpRouter | ZdpEndDevice | ZdpUnknownType.
Inductive ZdpRxOnWhenIdle : Type := RxOff | RxOn | RxUnknown.
Inductive ZdpAffinity : Type := AffinityParent | AffinityChild | AffinitySibling | NoneOfTheAbove.
Inductive ZdpPermitJoining : Type := NotAccepting | Accepting | PermitUnknown.

Record NeighborDescriptor := mkNeighborDescriptor {
  nd_extended_pan_id : Eui64;
  nd_extended_address : Eui64;
  nd_network_address : Nwk;
  nd_device_type : ZdpDeviceType;
  nd_rx_on_when_idle : ZdpRxOnWhenIdle;
  nd_affinity : ZdpAffinity;
  nd_permit_joining : ZdpPermitJoining;
  nd_depth : Z;
  nd_lqa : Z
}.
Record MgmtLqiRsp := mkMgmtLqiRsp {
  lqi_status : ZdpStatus;
  neighbor_table_entries : Z;
  lqi_rsp_start_index : Z;
  neighbor_table_list : list NeighborDescriptor
}.
Record MgmtRtgReq := mkMgmtRtgReq { rtg_start_index : Z }.

Inductive ZdpRouteStatus : Type := RouteActive | RouteDiscoveryUnderway | RouteDiscoveryFailed | RouteInactive.

Record RoutingDescriptor := mkRoutingDescriptor {
  rd_destination_address : Nwk;
  rd_status : ZdpRouteStatus;
  rd_memory_constrained : bool;
  rd_many_to_one : bool;
  rd_route_record_required : bool;
  rd_next_hop_address : Nwk
}.
Record MgmtRtgRsp := mkMgmtRtgRsp {
  rtg_status : ZdpStatus;
  routing_table_entries : Z;
  rtg_rsp_start_index : Z;
  routing_table_list : list RoutingDescriptor
}.

(** [beacon.rs]. *)
Record ZigbeeBeacon := mkZigbeeBeacon {
  protocol_id : Z;
  stack_profile : Z;
  protocol_version : Z;
  zb_reserved1 : Z;
  router_capacity : bool;
  device_depth : Z;
  end_device_capacity : bool;
  extended_pan_id : Eui64;
  tx_offset : Z;
  update_id : Z
}.

Class ZdpCodecs := {
  device_annce_bits :: AbstractBits DeviceAnnce;
  parent_annce_bits :: AbstractBits ParentAnnce;
  parent_annce_rsp_bits :: AbstractBits ParentAnnceRsp;
  mgmt_lqi_req_bits :: AbstractBits MgmtLqiReq;
  mgmt_lqi_rsp_bits :: AbstractBits MgmtLqiRsp;
  mgmt_rtg_req_bits :: AbstractBits MgmtRtgReq;
  mgmt_rtg_rsp_bits :: AbstractBits MgmtRtgRsp;
  zigbee_beacon_bits :: AbstractBits ZigbeeBeacon
}.

(** The trait [ZdpCommand]: the layout and the cluster. *)
Class ZdpCommand (T : Type) `{AbstractBits T} := CLUSTER_ID : ZdpClusterId.
Section Commands.
Context `{!ZdpCodecs}.
#[export] Instance device_annce_command : ZdpCommand DeviceAnnce := IdDeviceAnnce.
#[export] Instance parent_annce_command : ZdpCommand ParentAnnce := IdParentAnnce.
#[export] Instance parent_annce_rsp_command : ZdpCommand ParentAnnceRsp := IdParentAnnceRsp.
#[export] Instance mgmt_lqi_req_command : ZdpCommand MgmtLqiReq := IdMgmtLqiReq.
#[export] Instance mgmt_lqi_rsp_command : ZdpCommand MgmtLqiRsp := IdMgmtLqiRsp.
#[export] Instance mgmt_rtg_req_command : ZdpCommand MgmtRtgReq := IdMgmtRtgReq.
#[export] Instance mgmt_rtg_rsp_command : ZdpCommand MgmtRtgRsp := IdMgmtRtgRsp.
End Commands.

(** The buffer has one byte for the sequence number; the writer refuses what does not fit the rest. *)
Definition serialize `{AbstractBits T} (thing : T) (tsn : Z) : option bytes :=
  match write_abstract_bits thing with
  | Some w => if (length w <=? MAC_PAYLOAD_MAX_LEN - 1)%nat then Some (tsn :: w) else None
  | None => None
  end.

Definition deserialize `{AbstractBits T} (bs : bytes) : res DeserializeError (Z * T) :=
  match bs with
  | [] => Err ZeroBytes
  | tsn :: payload =>
      match read_abstract_bits payload with
      | Some (command, _) => Ok (tsn, command)
      | None => Err Payload
      end
  end.

Lemma zdp_round_trip `{AbstractBitsLaws T} (v : T) tsn bs :
  canonical v -> serialize v tsn = Some bs -> deserialize bs = Ok (tsn, v).
Proof.
  intros (w & Hw & _ & Hr)%read_after_write. unfold serialize. rewrite Hw. destruct (_ <=? _)%nat; [|done].
  intros [= <-]. specialize (Hr []). rewrite app_nil_r in Hr. simpl. by rewrite Hr.
Qed.
End Zdp.
