(* ===== verification/Stack.v ===== *)
(** * The stack's state: [src/crates/ziggurat-driver/src/zigbee_stack.rs]

    The data of the driver ([Nib], [Aib], [MacState], [ZigbeeCore] and the tables beside it), the
    notification queue, the counters and the slots of [send_handle.rs]. The driver is async code
    around one lock: a handler takes the state and returns it, and what suspends is split at its
    await. Wake-ups of other tasks only say when those tasks run and are left out. A handler reads
    the clock and the random source through [Env]: the clock stands still while a handler runs. *)

From S2P Require Import Prelude Flat Types Constants AbstractBits Mac Neighbors Routing NwkBroadcasts NwkSecurity Addresses Budget.
From S2P Require Import SendTypes Unicasts Unrouted BroadcastSends Sends NwkCommands NwkFrame NextHop ApsFrame ApsSecurity.

Module Stack.
#[export] Existing Instances Routing.Status_eq_dec Routing.ManyToOne_eq_dec Neighbors.NwkDeviceType_eq_dec NwkFrame.NwkFrameType_eq_dec.
#[export] Existing Instances NwkFrame.NwkRouteDiscovery_eq_dec NwkFrame.NwkSecurityHeaderKeyId_eq_dec ApsSecurity.AppliedKey_eq_dec.

Definition FRAME_COUNTER_NOTIFY_INTERVAL : Z := 100.
Definition NOTIFICATION_QUEUE_CAP : nat := 64.

(** [ziggurat_phy]: the radio's outcomes. *)
Inductive TxResult : Type := Acked | NoAck | ChannelAccessFailure | Aborted | Failed.
Inductive RadioError : Type :=
| RadioTimeout
| TransportClosed
| Rejected (reason : string)
| OtherRadioError (reason : string).

Inductive EnqueueError : Type :=
| RateLimited (retry_in : Duration)
| PayloadTooLong
| SecurityUnavailable
| RouteDiscoverySuppressed
| NotStarted.

Inductive DeliveryError : Type :=
| RouteDiscoveryTimeoutError
| RouteInactiveAfterDiscovery
| NwkNoAck (next_hop : Ieee802154Address)
| CcaFailure
| TransmitFailed (result : TxResult)
| ApsAckTimeoutError
| HandoffTimeoutError
| BroadcastQuorumNotReachedError
| IndirectExpiredError (destination : Ieee802154Address)
| CancelledError
| Radio (error : RadioError).

#[export] Instance delivery_error : FromSendFailure DeliveryError := fun failure =>
  match failure with
  | HandoffTimeout => HandoffTimeoutError
  | ApsAckTimeout => ApsAckTimeoutError
  | IndirectExpired destination => IndirectExpiredError destination
  | RouteDiscoveryTimeout => RouteDiscoveryTimeoutError
  | BroadcastQuorumNotReached => BroadcastQuorumNotReachedError
  | Cancelled => CancelledError
  end.

Record TxPolicy := mkPolicy { priority : TxPriority; class : Budget.TrafficClass }.
Definition STACK_CRITICAL : TxPolicy := mkPolicy StackCritical Budget.Critical.

Inductive NwkSecurityMode : Type := WithNetworkKey | WithoutSecurity.
Inductive ApsAckMode : Type := RequestAck | NoApsAck.
Inductive JoinKind : Type := NewJoin | Rejoin.
Inductive AddrConflictSource : Type := Local | Network.
#[export] Instance NwkSecurityMode_eq_dec : EqDecision NwkSecurityMode.
Proof. solve_decision. Defined.
#[export] Instance JoinKind_eq_dec : EqDecision JoinKind.
Proof. solve_decision. Defined.
#[export] Instance AddrConflictSource_eq_dec : EqDecision AddrConflictSource.
Proof. solve_decision. Defined.

Record ParentInformation := mkParentInformation {
  mac_data_poll_keepalive : bool;
  end_device_timeout_request_keepalive : bool;
  power_negotiation : bool
}.

(** The fields of [State] that never change, and those of [NetworkConfig] they come from. *)
Record Config := mkConfig {
  role : Neighbors.NwkDeviceType;
  network_address : Nwk;
  ieee_address : Eui64;
  extended_pan_id : Eui64;
  is_concentrator : bool;
  hack_ignore_broadcast_startup_wait_period : bool;
  hack_disable_tx : bool;
  hack_force_route_discovery : bool;
  hack_beacon_spam_duration : Duration;
  parent_information : ParentInformation
}.

Record AddressConflict := mkConflict {
  handled_at : Instant;
  heard_from_network : bool;
  report_at : option Instant
}.

(** [Frame]: a NWK frame is secured when it is transmitted. *)
Inductive Frame : Type :=
| FrameNwk (nwk_frame : NwkFrame.t) (security : NwkSecurityMode)
| FrameRaw (raw : Mac.Frame bytes).

Record Unicast := mkUnicast {
  frame : NwkFrame.t;
  security : NwkSecurityMode;
  mode : NextHop.SendMode;
  policy : TxPolicy;
  confirm : Confirm
}.
Record Broadcast := mkBroadcast {
  b_frame : NwkFrame.t;
  b_security : NwkSecurityMode;
  b_policy : TxPolicy
}.

(** [SendSlot]: its two verdicts. A slot is its index in the list of slots. *)
Definition Slot : Type := nat.
Record Progress := mkProgress {
  handed_off : option (verdict DeliveryError);
  delivered : option (verdict DeliveryError)
}.

Definition SendTable : Type := Sends.t Frame Slot DeliveryError.
Definition SendActions : Type := Actions Frame Slot DeliveryError.

Record Nib := mkNib {
  sequence_number : Z;
  update_id : Z;
  tx_total : Z;
  neighbors : Neighbors.t;
  routing : Routing.t;
  broadcasts : NwkBroadcasts.t;
  nwk_security : NwkSecurity.t;
  address_map : AddressMap.t
}.
Definition set_sequence_number (n : Nib) (x : Z) : Nib :=
  mkNib x (update_id n) (tx_total n) (neighbors n) (routing n) (broadcasts n) (nwk_security n) (address_map n).
Definition set_update_id (n : Nib) (x : Z) : Nib :=
  mkNib (sequence_number n) x (tx_total n) (neighbors n) (routing n) (broadcasts n) (nwk_security n)
    (address_map n).
Definition set_tx_total (n : Nib) (x : Z) : Nib :=
  mkNib (sequence_number n) (update_id n) x (neighbors n) (routing n) (broadcasts n) (nwk_security n)
    (address_map n).
Definition set_neighbors (n : Nib) (x : Neighbors.t) : Nib :=
  mkNib (sequence_number n) (update_id n) (tx_total n) x (routing n) (broadcasts n) (nwk_security n)
    (address_map n).
Definition set_routing (n : Nib) (x : Routing.t) : Nib :=
  mkNib (sequence_number n) (update_id n) (tx_total n) (neighbors n) x (broadcasts n) (nwk_security n)
    (address_map n).
Definition set_broadcasts (n : Nib) (x : NwkBroadcasts.t) : Nib :=
  mkNib (sequence_number n) (update_id n) (tx_total n) (neighbors n) (routing n) x (nwk_security n)
    (address_map n).
Definition set_nwk_security (n : Nib) (x : NwkSecurity.t) : Nib :=
  mkNib (sequence_number n) (update_id n) (tx_total n) (neighbors n) (routing n) (broadcasts n) x
    (address_map n).
Definition set_address_map (n : Nib) (x : AddressMap.t) : Nib :=
  mkNib (sequence_number n) (update_id n) (tx_total n) (neighbors n) (routing n) (broadcasts n) (nwk_security n)
    x.

Record Aib := mkAib {
  aps_counter : Z;
  aps_security : ApsSecurity.t
}.
Definition set_aps_counter (a : Aib) (x : Z) : Aib := mkAib x (aps_security a).
Definition set_aps_security (a : Aib) (x : ApsSecurity.t) : Aib := mkAib (aps_counter a) x.

Record MacState := mkMacState {
  channel : Z;
  ieee802154_sequence_number : Z;
  pan_id : PanId
}.
Definition set_channel (m : MacState) (x : Z) : MacState := mkMacState x (ieee802154_sequence_number m) (pan_id m).
Definition set_ieee802154_sequence_number (m : MacState) (x : Z) : MacState := mkMacState (channel m) x (pan_id m).
Definition set_pan_id (m : MacState) (x : PanId) : MacState :=
  mkMacState (channel m) (ieee802154_sequence_number m) x.

(** [ZigbeeCore]. *)
Record Core := mkCore {
  nib : Nib;
  aib : Aib;
  mac : MacState;
  sends : SendTable;
  permitting_joins_until : option Instant;
  trust_center_joins_until : option Instant;
  beacon_spam_until : option Instant
}.
Definition set_nib (c : Core) (x : Nib) : Core :=
  mkCore x (aib c) (mac c) (sends c) (permitting_joins_until c) (trust_center_joins_until c)
    (beacon_spam_until c).
Definition set_aib (c : Core) (x : Aib) : Core :=
  mkCore (nib c) x (mac c) (sends c) (permitting_joins_until c) (trust_center_joins_until c)
    (beacon_spam_until c).
Definition set_mac (c : Core) (x : MacState) : Core :=
  mkCore (nib c) (aib c) x (sends c) (permitting_joins_until c) (trust_center_joins_until c)
    (beacon_spam_until c).
Definition set_sends (c : Core) (x : SendTable) : Core :=
  mkCore (nib c) (aib c) (mac c) x (permitting_joins_until c) (trust_center_joins_until c) (beacon_spam_until c).
Definition set_permitting_joins_until (c : Core) (x : option Instant) : Core :=
  mkCore (nib c) (aib c) (mac c) (sends c) x (trust_center_joins_until c) (beacon_spam_until c).
Definition set_trust_center_joins_until (c : Core) (x : option Instant) : Core :=
  mkCore (nib c) (aib c) (mac c) (sends c) (permitting_joins_until c) x (beacon_spam_until c).
Definition set_beacon_spam_until (c : Core) (x : option Instant) : Core :=
  mkCore (nib c) (aib c) (mac c) (sends c) (permitting_joins_until c) (trust_center_joins_until c) x.

Inductive DeviceLeaveReason : Type :=
| Announced (rejoin : bool)
| RouterReported (router : Nwk) (router_ieee : option Eui64)
| KeepaliveTimeout.

(** [ZigbeeNotification]; a received command keeps what identifies it and its data. *)
Inductive ZigbeeNotification : Type :=
| ReceivedApsCommand (source destination : Nwk) (group : option Z) (profile_id cluster_id src_ep dst_ep lqi rssi : Z)
    (aps_encrypted : bool) (data : bytes)
| ReceivedGpdf (mac_sequence_number : Z) (source_ieee : option Eui64) (lqi rssi : Z) (data : bytes)
| FrameCounterUpdate (frame_counter : Z)
| LinkKeyUpdate (ieee : Eui64) (key : Key)
| DeviceJoined (nwk : Nwk) (ieee : Eui64) (parent : Nwk) (device_type : option Neighbors.NwkDeviceType) (rx_on_when_idle : bool)
| RouteRecordUpdate (destination : Nwk) (relays : list Nwk)
| ApsFrameCounterUpdate (frame_counter : Z)
| DeviceLeft (nwk : Nwk) (ieee : option Eui64) (reason : DeviceLeaveReason)
| ApsDecryptionFailure (source : Nwk) (source_ieee : Eui64) (frame_counter : Z) (key_id : NwkFrame.NwkSecurityHeaderKeyId).

(** A tasklet: what [Tasklets::push] was given, and where it awaits. *)
Inductive Tasklet : Type :=
| RunJoin (eui64 : Eui64) (short_address : Nwk)
| DeliverKeyAndAnnounce (nwk : Nwk) (eui64 : Eui64) (join_kind : JoinKind)
| AwaitExtraction (response : Slot) (eui64 : Eui64) (short_address : Nwk)
| AwaitKeyTransport (key_transport : Slot) (nwk : Nwk) (eui64 : Eui64)
| ParentAnnceSleep (slept_at wake_at : Instant) (send_time : Duration) (remaining : option (list Eui64))
| ParentAnnceHandoff (send : Slot) (started : Instant) (remaining : list Eui64).

(** A beacon of a network scan. *)
Record NetworkBeacon := mkNetworkBeacon {
  nb_channel : Z;
  nb_source : option Nwk;
  nb_pan_id : PanId;
  nb_extended_pan_id : Eui64;
  nb_permit_joining : bool;
  nb_stack_profile : Z;
  nb_protocol_version : Z;
  nb_router_capacity : bool;
  nb_end_device_capacity : bool;
  nb_device_depth : Z;
  nb_update_id : Z;
  nb_lqi : Z;
  nb_rssi : Z
}.

(** [ZigbeeStack]: the core and the tables beside it. *)
Record t := mk {
  core : Core;
  address_conflicts : FlatMap.t Z AddressConflict;
  aps_duplicates : FlatMap.t (Z * Z) Instant;
  notifications : list ZigbeeNotification;
  broadcast_budget : Budget.t;
  src_match_written : Unicasts.SrcMatchTable;
  last_persisted_aps_counter : Z;
  slots : list Progress;
  tasklets : list Tasklet;
  parent_annce_received : option Instant;
  scan_active : bool;
  scan_beacon_frames : Z;
  scan_beacons : list NetworkBeacon
}.
Definition set_core (s : t) (x : Core) : t :=
  mk x (address_conflicts s) (aps_duplicates s) (notifications s) (broadcast_budget s) (src_match_written s)
    (last_persisted_aps_counter s) (slots s) (tasklets s) (parent_annce_received s) (scan_active s)
    (scan_beacon_frames s) (scan_beacons s).
Definition set_address_conflicts (s : t) (x : FlatMap.t Z AddressConflict) : t :=
  mk (core s) x (aps_duplicates s) (notifications s) (broadcast_budget s) (src_match_written s)
    (last_persisted_aps_counter s) (slots s) (tasklets s) (parent_annce_received s) (scan_active s)
    (scan_beacon_frames s) (scan_beacons s).
Definition set_aps_duplicates (s : t) (x : FlatMap.t (Z * Z) Instant) : t :=
  mk (core s) (address_conflicts s) x (notifications s) (broadcast_budget s) (src_match_written s)
    (last_persisted_aps_counter s) (slots s) (tasklets s) (parent_annce_received s) (scan_active s)
    (scan_beacon_frames s) (scan_beacons s).
Definition set_notifications (s : t) (x : list ZigbeeNotification) : t :=
  mk (core s) (address_conflicts s) (aps_duplicates s) x (broadcast_budget s) (src_match_written s)
    (last_persisted_aps_counter s) (slots s) (tasklets s) (parent_annce_received s) (scan_active s)
    (scan_beacon_frames s) (scan_beacons s).
Definition set_broadcast_budget (s : t) (x : Budget.t) : t :=
  mk (core s) (address_conflicts s) (aps_duplicates s) (notifications s) x (src_match_written s)
    (last_persisted_aps_counter s) (slots s) (tasklets s) (parent_annce_received s) (scan_active s)
    (scan_beacon_frames s) (scan_beacons s).
Definition set_src_match_written (s : t) (x : Unicasts.SrcMatchTable) : t :=
  mk (core s) (address_conflicts s) (aps_duplicates s) (notifications s) (broadcast_budget s) x
    (last_persisted_aps_counter s) (slots s) (tasklets s) (parent_annce_received s) (scan_active s)
    (scan_beacon_frames s) (scan_beacons s).
Definition set_last_persisted_aps_counter (s : t) (x : Z) : t :=
  mk (core s) (address_conflicts s) (aps_duplicates s) (notifications s) (broadcast_budget s)
    (src_match_written s) x (slots s) (tasklets s) (parent_annce_received s) (scan_active s)
    (scan_beacon_frames s) (scan_beacons s).
Definition set_slots (s : t) (x : list Progress) : t :=
  mk (core s) (address_conflicts s) (aps_duplicates s) (notifications s) (broadcast_budget s)
    (src_match_written s) (last_persisted_aps_counter s) x (tasklets s) (parent_annce_received s)
    (scan_active s) (scan_beacon_frames s) (scan_beacons s).
Definition set_tasklets (s : t) (x : list Tasklet) : t :=
  mk (core s) (address_conflicts s) (aps_duplicates s) (notifications s) (broadcast_budget s)
    (src_match_written s) (last_persisted_aps_counter s) (slots s) x (parent_annce_received s) (scan_active s)
    (scan_beacon_frames s) (scan_beacons s).
Definition set_parent_annce_received (s : t) (x : option Instant) : t :=
  mk (core s) (address_conflicts s) (aps_duplicates s) (notifications s) (broadcast_budget s)
    (src_match_written s) (last_persisted_aps_counter s) (slots s) (tasklets s) x (scan_active s)
    (scan_beacon_frames s) (scan_beacons s).
Definition set_scan_active (s : t) (x : bool) : t :=
  mk (core s) (address_conflicts s) (aps_duplicates s) (notifications s) (broadcast_budget s)
    (src_match_written s) (last_persisted_aps_counter s) (slots s) (tasklets s) (parent_annce_received s) x
    (scan_beacon_frames s) (scan_beacons s).
Definition set_scan_beacon_frames (s : t) (x : Z) : t :=
  mk (core s) (address_conflicts s) (aps_duplicates s) (notifications s) (broadcast_budget s)
    (src_match_written s) (last_persisted_aps_counter s) (slots s) (tasklets s) (parent_annce_received s)
    (scan_active s) x (scan_beacons s).
Definition set_scan_beacons (s : t) (x : list NetworkBeacon) : t :=
  mk (core s) (address_conflicts s) (aps_duplicates s) (notifications s) (broadcast_budget s)
    (src_match_written s) (last_persisted_aps_counter s) (slots s) (tasklets s) (parent_annce_received s)
    (scan_active s) (scan_beacon_frames s) x.

(** What a handler reads: the configuration, the tunables, the clock, and its random draws. The
    jitters are what [mul_f32] of a random fraction left. *)
Record Env := mkEnv {
  config : Config;
  tunables : Tunables;
  now : Instant;
  conflict_jitter : Duration;
  relay_jitter : Duration;
  rreq_jitter : Duration;
  passive_ack_jitter : Duration;
  retry_jitter : Duration;
  parent_annce_jitter : Duration;
  candidate_addresses : list Nwk;
  fresh_key : Key
}.

(** Updates of the tables inside the core. *)
Definition on_core (s : t) (f : Core -> Core) : t := set_core s (f (core s)).
Definition on_nib (s : t) (f : Nib -> Nib) : t := on_core s (fun c => set_nib c (f (nib c))).
Definition the_nib (s : t) : Nib := nib (core s).

Definition with_neighbors (s : t) (n : Neighbors.t) : t := on_nib s (fun b => set_neighbors b n).
Definition with_routing (s : t) (r : Routing.t) : t := on_nib s (fun b => set_routing b r).
Definition with_broadcasts (s : t) (b : NwkBroadcasts.t) : t := on_nib s (fun n => set_broadcasts n b).
Definition with_nwk_security (s : t) (x : NwkSecurity.t) : t := on_nib s (fun b => set_nwk_security b x).
Definition with_address_map (s : t) (m : AddressMap.t) : t := on_nib s (fun b => set_address_map b m).
Definition with_aps_security (s : t) (x : ApsSecurity.t) : t := on_core s (fun c => set_aib c (set_aps_security (aib c) x)).
Definition with_sends (s : t) (x : SendTable) : t := on_core s (fun c => set_sends c x).
Definition with_mac_sequence (s : t) (n : Z) : t := on_core s (fun c => set_mac c (set_ieee802154_sequence_number (mac c) n)).

(** [sort_by_key], a stable sort. *)
Section SortByKey.
Context {A : Type} (key : A -> Z).

Fixpoint insert_by_key (x : A) (l : list A) : list A :=
  match l with
  | [] => [x]
  | y :: l => if key y <=? key x then y :: insert_by_key x l else x :: y :: l
  end.
Definition sort_by_key (l : list A) : list A := fold_left (fun sorted x => insert_by_key x sorted) l [].
End SortByKey.

(** ** Counters and notifications *)
Definition next_sequence_number (n : Nib) : Z * Nib :=
  let value := wrapping_add u8_max (sequence_number n) 1 in (value, set_sequence_number n value).

Definition next_nwk_sequence_number (s : t) : Z * t :=
  let '(value, n) := next_sequence_number (the_nib s) in (value, on_nib s (fun _ => n)).

(** [push_notification]: the oldest events make room. *)
Definition push_notification (s : t) (n : ZigbeeNotification) : t :=
  let queue := notifications s in
  set_notifications s (drop (length queue - (NOTIFICATION_QUEUE_CAP - 1)) queue ++ [n]).

(** [next_notifications], when the queue is not empty. *)
Definition take_notifications (s : t) : list ZigbeeNotification * t := (notifications s, set_notifications s []).

Definition device_join_capability (s : t) (ieee : Eui64) : option Neighbors.NwkDeviceType * bool :=
  match Neighbors.device_capability (neighbors (the_nib s)) ieee with
  | Some (device_type, rx_on_when_idle) => (Some device_type, rx_on_when_idle)
  | None => (None, true)
  end.

(** [counter.wrapping_sub(last)] on 32 bits. *)
Definition maybe_notify_aps_frame_counter (s : t) : t :=
  let counter := ApsSecurity.outgoing_frame_counter (aps_security (aib (core s))) in
  if FRAME_COUNTER_NOTIFY_INTERVAL <=? (counter - last_persisted_aps_counter s) mod 2 ^ 32
  then push_notification (set_last_persisted_aps_counter s counter) (ApsFrameCounterUpdate counter)
  else s.

Definition next_aps_counter (s : t) : Z * t :=
  let value := wrapping_add u8_max (aps_counter (aib (core s))) 1 in
  (value, on_core s (fun c => set_aib c (set_aps_counter (aib c) value))).

Definition next_nwk_frame_counter (s : t) : may (Z * t) :=
  '(advance, security) ← NwkSecurity.next_outgoing_frame_counter (nwk_security (the_nib s));
  let s := with_nwk_security s security in
  let value := NwkSecurity.ca_value advance in
  Ok (value, if NwkSecurity.ca_should_persist advance then push_notification s (FrameCounterUpdate value) else s).

(** ** The slots of [send_handle.rs] *)
Definition new_slot (s : t) : Slot * t := (length (slots s), set_slots s (slots s ++ [mkProgress None None])).

Definition slot_handed_off (p : Progress) : Progress :=
  match handed_off p with Some _ => p | None => mkProgress (Some (inl tt)) (delivered p) end.

Definition slot_settled (result : verdict DeliveryError) (p : Progress) : Progress :=
  mkProgress (Some (default result (handed_off p))) (Some result).

Definition on_slot (s : t) (slot : Slot) (f : Progress -> Progress) : t := set_slots s (alter f slot (slots s)).

(** [State::new] and the tables of [ZigbeeStack::new]. *)
Definition new (cfg : Config) (channel update_id : Z) (pan : PanId) (key : Key) (key_seq key_counter : Z) (tc_link_key : Key)
    (seed : option ApsSecurity.TclkSeed) (aps_counter budget_tokens : Z) : t :=
  mk (mkCore
        (mkNib 0 update_id 0 Neighbors.new Routing.new NwkBroadcasts.new
           (NwkSecurity.new key key_seq key_counter FRAME_COUNTER_NOTIFY_INTERVAL)
           (AddressMap.new (network_address cfg) (ieee_address cfg)))
        (mkAib aps_counter (ApsSecurity.new tc_link_key (ieee_address cfg) seed))
        (mkMacState channel 0 pan)
        Sends.new None None None)
     FlatMap.new FlatMap.new [] (Budget.new budget_tokens) (Unicasts.mkSrcMatchTable FlatSet.new FlatSet.new) 0 [] [] None false 0 [].

(** ** Configuration *)
Inductive NwkCapabilityInformationDeviceType : Type := CapabilityEndDevice | CapabilityRouter.
Inductive NwkCapabilityInformationPowerSource : Type := MainsPower | Battery.
Inductive NwkSecurityCapability : Type := NotCapable | Capable.

Record NwkCapabilityInformation := mkCapabilityInformation {
  alternate_pan_coordinator : bool;
  ci_device_type : NwkCapabilityInformationDeviceType;
  ci_power_source : NwkCapabilityInformationPowerSource;
  ci_receiver_on_when_idle : bool;
  ci_reserved1 : bool;
  ci_reserved2 : bool;
  ci_security_capability : NwkSecurityCapability;
  ci_allocate_address : bool
}.

Record NetworkConfig := mkNetworkConfig {
  nc_role : Neighbors.NwkDeviceType;
  nc_channel : Z;
  nc_update_id : Z;
  nc_pan_id : PanId;
  nc_extended_pan_id : Eui64;
  nc_network_address : Nwk;
  nc_ieee_address : Eui64;
  nc_network_key : Key;
  nc_network_key_seq_number : Z;
  nc_network_key_tx_counter : Z;
  nc_tc_link_key : Key;
  nc_tclk_seed : option ApsSecurity.TclkSeed;
  nc_tx_power : Z;
  nc_source_routing : bool
}.

(** The part of [State::new] that is constant afterwards, but for [capability_information], which
    depends on the role alone. *)
Definition state_config (n : NetworkConfig) : Config :=
  mkConfig (nc_role n) (nc_network_address n) (nc_ieee_address n) (nc_extended_pan_id n) (nc_source_routing n)
    true false false 100000 (mkParentInformation true false false).

Definition capability_information (n : NetworkConfig) : NwkCapabilityInformation :=
  mkCapabilityInformation false
    match nc_role n with
    | Neighbors.EndDevice => CapabilityEndDevice
    | Neighbors.Coordinator | Neighbors.Router => CapabilityRouter
    end
    MainsPower true false false Capable true.

(** [ZigbeeStack::new]: [aps_counter] is drawn at random. *)
Definition stack_new (n : NetworkConfig) (tunables : Tunables) (aps_counter : Z) : t :=
  new (state_config n) (nc_channel n) (nc_update_id n) (nc_pan_id n) (nc_network_key n) (nc_network_key_seq_number n)
    (nc_network_key_tx_counter n) (nc_tc_link_key n) (nc_tclk_seed n) aps_counter (Tunables.load tunables broadcast_budget_tokens).
End Stack.
