(* ===== verification/Tasks.v ===== *)
(** * The tasks of the stack: [spawn_tracked] and [shutdown] of
    [src/crates/ziggurat-driver/src/zigbee_stack.rs], and the spawner of [runtime.rs]

    Every background task is registered under an id with a cancellation, which holds at most one
    permit, and deregisters when it ends. [shutdown] gives every registered task a permit and waits
    until none is registered. The tasks and [shutdown] interleave freely: a step is one of them
    reaching its next await. The last section is the timing of the periodic tasks. *)

From S2P Require Import Prelude Flat.

Module Tasks.

(** [TokioSpawner]: the set of the tasks it spawned. *)
Inductive Task : Type := Live | Finished.

(** [TokioSpawner::spawn]: the finished tasks are reaped first. *)
Definition join_next (tasks : list Task) : list Task := List.filter (fun t => match t with Live => true | Finished => false end) tasks.
Definition tokio_spawn (tasks : list Task) : list Task := join_next tasks ++ [Live].
(** [TokioSpawner::shutdown]. *)
Definition tokio_shutdown (tasks : list Task) : list Task := [].

(** [EmbassySpawner::spawn]: a slot of a fixed pool; and [shutdown], which stops nothing. *)
Definition POOL_SIZE : nat := 32.
Definition embassy_spawn (tasks : list Task) : may (list Task) :=
  if (length (join_next tasks) <? POOL_SIZE)%nat then Ok (join_next tasks ++ [Live]) else Panic.
Definition embassy_shutdown (tasks : list Task) : list Task := tasks.

(** [Notify]: at most one permit. *)
Definition notify_one (permit : bool) : bool := true.
Definition notified_now (permit : bool) : option bool := if permit then Some false else None.

(** Where [shutdown] is: not called, at the test of its loop, waiting, or past the loop. *)
Inductive Shutdown : Type := NotCalled | Testing | Waiting | Drained.

Record t := mk {
  next_task_id : Z;
  (** the registered tasks, each with the permit of its [cancel] *)
  cancels : FlatMap.t Z bool;
  (** the permit of [tasks_drained] *)
  tasks_drained : bool;
  (** the tasks that have not ended *)
  running : list Z;
  shutdown : Shutdown
}.

Definition new : t := mk 0 FlatMap.new false [] NotCalled.

Definition spawn_tracked (s : t) : t :=
  let id := next_task_id s in
  mk ((id + 1) mod 2 ^ 32) (FlatMap.insert (cancels s) id false).2 (tasks_drained s) (running s ++ [id]) (shutdown s).

(** The end of a task, finished or cancelled. *)
Definition deregister (id : Z) (s : t) : t :=
  mk (next_task_id s) (FlatMap.remove (cancels s) id).2 true (filter (fun k => k <> id) (running s)) (shutdown s).

(** [shutdown] up to its loop: every cancellation is notified. *)
Definition cancel_all (s : t) : t := mk (next_task_id s) (FlatMap.iter_mut (fun _ _ => true) (cancels s)) (tasks_drained s) (running s) Testing.

(** The test of the loop. *)
Definition test_drained (s : t) : t :=
  mk (next_task_id s) (cancels s) (tasks_drained s) (running s) (if FlatMap.is_empty (cancels s) then Drained else Waiting).

(** [tasks_drained.notified()]. *)
Definition notified (s : t) : t := mk (next_task_id s) (cancels s) false (running s) Testing.

(** What can happen next. A task may end by itself at any time; it is cancelled when it has its permit. *)
Inductive label : Type := Spawned (id : Z) | Ended (id : Z) | Cancelled (id : Z) | Called | Tested | Woken.

Inductive step : t -> label -> t -> Prop :=
| step_spawn s : step s (Spawned (next_task_id s)) (spawn_tracked s)
| step_end s id : id ∈ running s -> step s (Ended id) (deregister id s)
| step_cancel s id : id ∈ running s -> FlatMap.get (cancels s) id = Some true -> step s (Cancelled id) (deregister id s)
| step_call s : shutdown s = NotCalled -> step s Called (cancel_all s)
| step_test s : shutdown s = Testing -> step s Tested (test_drained s)
| step_wake s : shutdown s = Waiting -> tasks_drained s = true -> step s Woken (notified s).

Inductive run : t -> list label -> t -> Prop :=
| run_nil s : run s [] s
| run_snoc s ls s1 l s2 : run s ls s1 -> step s1 l s2 -> run s (ls ++ [l]) s2.

Definition is_spawn (l : label) : bool := match l with Spawned _ => true | _ => false end.
Definition is_call (l : label) : bool := match l with Called => true | _ => false end.
Definition spawns (ls : list label) : Z := Z.of_nat (length (List.filter is_spawn ls)).

(** The ids of the tasks spawned once [shutdown] was called. *)
Fixpoint late (ls : list label) : list Z :=
  match ls with
  | [] => []
  | Called :: ls => omap (fun l => match l with Spawned id => Some id | _ => None end) ls
  | _ :: ls => late ls
  end.

Lemma late_snoc ls l : late (ls ++ [l]) = late ls ++ (if existsb is_call ls then match l with Spawned id => [id] | _ => [] end else []).
Proof.
  induction ls as [|x ls IH]; [by destruct l|]. destruct x; cbn [late existsb is_call orb app]; try exact IH.
  rewrite omap_app. f_equal. by destruct l.
Qed.

(** ** The registry *)
Record registered (ls : list label) (s : t) : Prop := {
  r_ids : next_task_id s = spawns ls;
  r_below : Forall (fun id => 0 <= id < next_task_id s) (running s);
  r_same id : is_Some (FlatMap.get (cancels s) id) <-> id ∈ running s;
  r_called : existsb is_call ls = true <-> shutdown s <> NotCalled;
  r_told id : shutdown s <> NotCalled -> id ∈ running s -> id ∉ late ls -> FlatMap.get (cancels s) id = Some true;
  r_wake : shutdown s = Waiting -> running s = [] -> tasks_drained s = true
}.

Lemma spawns_snoc ls l : spawns (ls ++ [l]) = spawns ls + if is_spawn l then 1 else 0.
Proof. unfold spawns. rewrite List.filter_app, length_app. cbn. destruct (is_spawn l); cbn; lia. Qed.

Lemma elem_of_ended (id k : Z) (l : list Z) : k ∈ filter (fun k => k <> id) l <-> k <> id /\ k ∈ l.
Proof. by rewrite list_elem_of_filter. Qed.

Lemma called_snoc ls l : existsb is_call (ls ++ [l]) = existsb is_call ls || is_call l.
Proof. rewrite existsb_app. cbn. by rewrite orb_false_r. Qed.

Lemma spawn_registered ls s : spawns ls + 1 < 2 ^ 32 -> registered ls s -> registered (ls ++ [Spawned (next_task_id s)]) (spawn_tracked s).
Proof.
  intros Hn [Hi Hb Hs Hc Ht Hw]. assert (0 <= spawns ls) by (unfold spawns; lia).
  assert (next_task_id s ∉ running s) as Hfresh. { intros Hin. rewrite Forall_forall in Hb. specialize (Hb _ Hin). lia. }
  split; cbn [next_task_id running cancels shutdown tasks_drained spawn_tracked].
  - rewrite spawns_snoc, Hi, Z.mod_small by lia. done.
  - rewrite Z.mod_small by lia. apply Forall_app. split; [eapply Forall_impl; [exact Hb|]; cbn; lia|]. apply Forall_singleton. lia.
  - intros id. rewrite elem_of_app, list_elem_of_singleton. destruct (decide (next_task_id s = id)) as [<-|Hne].
    + rewrite FlatMap.get_insert_eq. naive_solver.
    + rewrite FlatMap.get_insert_ne, Hs by done. naive_solver.
  - rewrite called_snoc, orb_false_r. exact Hc.
  - intros id Hcall. rewrite elem_of_app, list_elem_of_singleton, late_snoc, (proj2 Hc Hcall). rewrite not_elem_of_app, list_elem_of_singleton. intros Hin [Hl Hne].
    rewrite FlatMap.get_insert_ne by done. apply Ht; [done| |done]. by destruct Hin as [Hin | ->].
  - intros _ Hnil. by apply app_nil in Hnil as [_ ?].
Qed.

Lemma end_registered ls s id l : is_spawn l = false -> is_call l = false -> registered ls s -> registered (ls ++ [l]) (deregister id s).
Proof.
  intros Hsp Hcl [Hi Hb Hs Hc Ht Hw]. split; cbn [next_task_id running cancels shutdown tasks_drained deregister].
  - by rewrite spawns_snoc, Hsp, Hi, Z.add_0_r.
  - rewrite Forall_forall in Hb |- *. intros k [_ Hk]%elem_of_ended. by apply Hb.
  - intros k. rewrite elem_of_ended. destruct (decide (id = k)) as [<-|Hne].
    + rewrite FlatMap.get_remove_eq, is_Some_alt. naive_solver.
    + rewrite FlatMap.get_remove_ne, Hs by done. naive_solver.
  - rewrite called_snoc, Hcl, orb_false_r. exact Hc.
  - intros k Hcall [Hne Hk]%elem_of_ended. rewrite late_snoc, not_elem_of_app. intros [Hl _]. rewrite FlatMap.get_remove_ne by done. by apply Ht.
  - done.
Qed.

Lemma step_registered ls s l s' : spawns (ls ++ [l]) < 2 ^ 32 -> registered ls s -> step s l s' -> registered (ls ++ [l]) s'.
Proof.
  intros Hn Hr Hst. rewrite spawns_snoc in Hn. destruct Hst as [s|s id Hin|s id Hin Hp|s Hd|s Hd|s Hd Hp].
  - by apply spawn_registered.
  - by apply end_registered.
  - by apply end_registered.
  - destruct Hr as [Hi Hb Hs Hc Ht Hw]. split; cbn [next_task_id running cancels shutdown tasks_drained cancel_all].
    + by rewrite spawns_snoc, Hi, Z.add_0_r.
    + done.
    + intros id. rewrite FlatMap.get_iter_mut, fmap_is_Some. apply Hs.
    + rewrite called_snoc, orb_true_r. done.
    + intros id _ Hid _. rewrite FlatMap.get_iter_mut. apply Hs in Hid as [b ->]. done.
    + done.
  - destruct Hr as [Hi Hb Hs Hc Ht Hw]. split; cbn [next_task_id running cancels shutdown tasks_drained test_drained]; try done.
    + by rewrite spawns_snoc, Hi, Z.add_0_r.
    + rewrite called_snoc, orb_false_r, Hc, Hd. destruct (FlatMap.is_empty _); done.
    + intros id _ Hid. rewrite late_snoc, not_elem_of_app. intros [Hl _]. apply Ht; [by rewrite Hd|done..].
    + destruct (FlatMap.is_empty (cancels s)) eqn:He; [done|]. intros _ Hnil. exfalso. revert He. apply not_false_iff_true.
      apply FlatMap.is_empty_true. intros id. destruct (FlatMap.get (cancels s) id) eqn:Hg; [|done].
      assert (id ∈ running s) as Hid by (apply Hs; by eexists). rewrite Hnil in Hid. by apply not_elem_of_nil in Hid.
  - destruct Hr as [Hi Hb Hs Hc Ht Hw]. split; cbn [next_task_id running cancels shutdown tasks_drained notified]; try done.
    + by rewrite spawns_snoc, Hi, Z.add_0_r.
    + rewrite called_snoc, orb_false_r, Hc, Hd. done.
    + intros id _ Hid. rewrite late_snoc, not_elem_of_app. intros [Hl _]. apply Ht; [by rewrite Hd|done..].
Qed.

Lemma run_registered ls s : spawns ls < 2 ^ 32 -> run new ls s -> registered ls s.
Proof.
  intros Hn Hr. remember new as s0 eqn:H0. revert Hn. induction Hr as [s|s ls s1 l s2 Hr IH Hst]; intros Hn; subst.
  - split; cbn [next_task_id running cancels shutdown tasks_drained new existsb]; try done. intros id. rewrite FlatMap.get_new, is_Some_alt. split; [done|]. by intros ?%not_elem_of_nil.
  - eapply step_registered; [exact Hn| |exact Hst]. apply IH; [done|]. rewrite spawns_snoc in Hn. destruct (is_spawn l); lia.
Qed.

(** C24: [shutdown] stops every task and is never stuck: in every interleaving of the tasks with it,
    when its loop ends no tracked task is running; while it waits, a wake-up is pending or a task is
    still running; and every task that was running when it was called, and has not ended, holds its
    cancellation, so it ends at its next await. Tasks spawned after the call are the only ones that
    are not told to stop. The ids are unique for the first 2^32 tasks. *)
Theorem shutdown_drains ls s :
  spawns ls < 2 ^ 32 -> run new ls s ->
  (forall s', step s Tested s' -> shutdown s' = Drained -> running s' = []) /\
  (shutdown s = Waiting -> tasks_drained s = true \/ running s <> []) /\
  (forall id, shutdown s <> NotCalled -> id ∈ running s -> id ∉ late ls -> exists s', step s (Cancelled id) s').
Proof.
  intros Hn Hr. pose proof (run_registered ls s Hn Hr) as [Hi Hb Hs Hc Ht Hw]. split_and!.
  - intros s' Hst Hd. inversion Hst as [| | | |s0 H0|]; subst. cbn in Hd |- *. destruct (FlatMap.is_empty (cancels s)) eqn:He; [|done].
    destruct (running s) as [|id rest] eqn:Hrun; [done|]. exfalso. assert (is_Some (FlatMap.get (cancels s) id)) as [b Hg] by (apply Hs; left).
    rewrite (proj1 (FlatMap.is_empty_true _) He) in Hg. done.
  - intros Hd. destruct (running s) as [|id rest] eqn:Hrun; [left; by apply Hw|by right].
  - intros id Hcall Hid Hl. eexists. apply step_cancel; [done|]. by apply Ht.
Qed.

(** A task spawned during the shutdown holds no cancellation: if it never ends by itself the wait
    never ends. *)
Lemma late_task_not_told s :
  step s (Spawned (next_task_id s)) (spawn_tracked s) /\ FlatMap.get (cancels (spawn_tracked s)) (next_task_id s) = Some false.
Proof. split; [constructor|]. apply FlatMap.get_insert_eq. Qed.

(** ** The pool of the firmware *)

(** The tasks [start_network] spawns, and those of the NCP around it: the receive loop, the notification pump and the sweeper. *)
Definition start_network_tasks (is_concentrator : bool) : nat := 9 + (if is_concentrator then 1 else 0).
Definition ncp_tasks : nat := 3.

Fixpoint embassy_spawns (n : nat) (tasks : list Task) : may (list Task) :=
  match n with O => Ok tasks | S n => tasks ← embassy_spawn tasks; embassy_spawns n tasks end.

(** Spawning fills a slot, so a pool has room for as many tasks as it has free slots. *)
Lemma pool_fills n tasks : (length (join_next tasks) + n <= POOL_SIZE)%nat -> exists tasks', embassy_spawns n tasks = Ok tasks' /\
  length (join_next tasks') = (length (join_next tasks) + n)%nat.
Proof.
  revert tasks. induction n as [|n IH]; intros tasks Hl; [exists tasks; split; [done|lia]|]. cbn [embassy_spawns]. unfold embassy_spawn.
  destruct (Nat.ltb_spec (length (join_next tasks)) POOL_SIZE) as [_|]; [|lia]. cbn [mbind res_bind].
  assert (length (join_next (join_next tasks ++ [Live])) = S (length (join_next tasks))) as Hj.
  { unfold join_next. rewrite List.filter_app, length_app. cbn. rewrite Nat.add_1_r. f_equal. induction tasks as [|[] tasks IHt]; cbn; [done| |].
    - f_equal. apply IHt. cbn in Hl. unfold join_next. lia.
    - apply IHt, Hl. }
  destruct (IH (join_next tasks ++ [Live])) as (tasks' & He & Hn); [lia|]. exists tasks'. split; [done|]. lia.
Qed.

(** The firmware never exhausts its pool by starting a network, whatever else is live in half of it. *)
Lemma network_fits_the_pool is_concentrator tasks :
  (length (join_next tasks) <= 16)%nat -> exists tasks', embassy_spawns (start_network_tasks is_concentrator + ncp_tasks) tasks = Ok tasks'.
Proof.
  intros Hl. destruct (pool_fills (start_network_tasks is_concentrator + ncp_tasks) tasks) as (tasks' & He & _); [|by exists tasks'].
  unfold start_network_tasks, ncp_tasks, POOL_SIZE. destruct is_concentrator; lia.
Qed.

(** ** A run: two tasks, one ends by itself, the other is cancelled *)
Definition ex_labels : list label := [Spawned 0; Spawned 1; Ended 0; Called].
Definition ex_state : t := cancel_all (deregister 0 (spawn_tracked (spawn_tracked new))).
Lemma ex_task_run : run new ex_labels ex_state.
Proof.
  change ex_labels with (((([] ++ [Spawned 0]) ++ [Spawned 1]) ++ [Ended 0]) ++ [Called]).
  repeat eapply run_snoc; [apply run_nil|apply step_spawn|apply (step_spawn (spawn_tracked new))|apply step_end; left|by apply step_call].
Qed.

Lemma shutdown_drains_witness :
  (forall s', step ex_state Tested s' -> shutdown s' = Drained -> running s' = []) /\
  (shutdown ex_state = Waiting -> tasks_drained ex_state = true \/ running ex_state <> []) /\
  (forall id, shutdown ex_state <> NotCalled -> id ∈ running ex_state -> id ∉ late ex_labels -> exists s', step ex_state (Cancelled id) s').
Proof. apply (shutdown_drains ex_labels); [vm_compute; reflexivity|exact ex_task_run]. Defined.
End Tasks.

(** ** The periodic tasks

    [periodic_many_to_one_route_request_task] of [zigbee_stack/route.rs] and
    [periodic_link_status_broadcast_task] of [zigbee_stack/neighbor.rs]: when they send. *)
Module Periodic.

(** A turn of the many-to-one task: the tunables it reads, how long the delivery takes, when the kick
    is pending, if it is, and how late the task wakes. *)
Record Turn := mkTurn {
  mtorr_min_interval : Duration;
  mtorr_max_interval : Duration;
  delivery : Duration;
  mtorr_kick : option Instant;
  latency : Duration
}.

(** When a turn that starts at [start] ends. The sleep is polled before the kick. *)
Definition mtorr_turn (start : Instant) (t : Turn) : Instant :=
  let min_deadline := start + mtorr_min_interval t in
  let max_deadline := start + mtorr_max_interval t in
  let delivered := start + delivery t in
  let max_sleep := Z.max delivered max_deadline in
  match mtorr_kick t with
  | Some kick => if Z.max delivered kick <? max_sleep then Z.max (Z.max delivered kick) min_deadline else max_sleep
  | None => max_sleep
  end + latency t.

Fixpoint mtorr_times (start : Instant) (turns : list Turn) : list Instant :=
  start :: match turns with [] => [] | t :: turns => mtorr_times (mtorr_turn start t) turns end.

Definition turn_ok (t : Turn) : Prop :=
  0 <= mtorr_min_interval t <= mtorr_max_interval t /\ 0 <= delivery t /\ 0 <= latency t.

Lemma mtorr_turn_spaced start t : turn_ok t ->
  start + mtorr_min_interval t <= mtorr_turn start t <= start + Z.max (mtorr_max_interval t) (delivery t) + latency t.
Proof.
  intros (Hm & Hd & Hl). unfold mtorr_turn. destruct (mtorr_kick t) as [kick|]; [|lia]. destruct (Z.ltb_spec (Z.max (start + delivery t) kick) (Z.max (start + delivery t) (start + mtorr_max_interval t))); lia.
Qed.

(** Route advertisements are never closer than the minimum interval, however often routes fail, and
    never farther apart than the maximum, or the delivery if it takes longer, and the task's latency. *)
Lemma advertisements_spaced start turns i a b t :
  Forall turn_ok turns -> mtorr_times start turns !! i = Some a -> mtorr_times start turns !! S i = Some b -> turns !! i = Some t ->
  a + mtorr_min_interval t <= b <= a + Z.max (mtorr_max_interval t) (delivery t) + latency t.
Proof.
  intros Hok. revert start i. induction Hok as [|u turns Hu Hok IH]; intros start i; [done|]. destruct i as [|i]; cbn.
  - intros [= <-] Hb [= <-]. destruct turns; cbn in Hb; injection Hb as <-; by apply mtorr_turn_spaced.
  - apply IH.
Qed.

(** The link status task: it sleeps until [next], sends, and waits for the delivery; [next] moves by
    the period, whatever the time is then. *)
Fixpoint link_status_times (now next : Instant) (turns : list (Duration * Duration)) : list Instant :=
  match turns with
  | [] => []
  | (period, delivery) :: turns => let sent := Z.max now next in sent :: link_status_times (sent + delivery) (next + period) turns
  end.

(** The broadcasts do not drift: as long as each is delivered within its period, each is sent exactly
    at its time. *)
Lemma link_status_on_time now next turns i t :
  now <= next -> Forall (fun x => x.2 <= x.1) turns -> link_status_times now next turns !! i = Some t ->
  t = next + foldr Z.add 0 (take i turns.*1).
Proof.
  intros Hn Hok. revert now next i Hn. induction Hok as [|[period d] turns Hd Hok IH]; intros now next i Hn; [done|]. cbn in Hd. destruct i as [|i]; cbn.
  - intros [= <-]. lia.
  - intros Ht. apply IH in Ht; [|lia]. lia.
Qed.
End Periodic.
