(* ===== verification/Radio.v ===== *)
(** * The radio: [src/crates/ziggurat-phy/src/lib.rs]

    The interface between the driver and a radio back end. A call changes the radio and answers, or
    fails; the class states the calls, [RadioLaws] what the driver relies on. The calls of
    [ExclusiveRadio] are made while the lock is held; what the lock keeps out is not on the radio
    meanwhile, so the calls under it follow each other directly. *)

From S2P Require Import Prelude Effects Flat Types Constants Stack.

Module Radio.
Import Stack(TxResult, RadioError).

Record TxFrame := mkTxFrame {
  psdu : bytes;
  channel : option Z;
  csma_ca : bool;
  max_frame_retries : Z;
  max_csma_backoffs : Z;
  security_processed : bool
}.

Record RxFrame := mkRxFrame {
  rx_psdu : bytes;
  rx_channel : Z;
  rssi : Z;
  lqi : Z;
  timestamp_us : Z
}.

Record RadioConfig := mkRadioConfig {
  cfg_channel : Z;
  tx_power : Z;
  short_address : Nwk;
  extended_address : Eui64;
  cfg_pan_id : PanId;
  promiscuous : bool;
  rx_on_when_idle : bool;
  frame_pending_short : list Nwk;
  frame_pending_extended : list Eui64
}.

Record ResetEvent := mkResetEvent { reason : string }.

(** What a [Receiver] answers within a timeout. *)
Inductive Received (T : Type) : Type :=
| Item (x : T)
| Closed
| TimedOut.
Arguments Item {T} x.
Arguments Closed {T}.
Arguments TimedOut {T}.

Class RadioPhy (R : Type) := {
  reset : eff R RadioError unit;
  reconfigure : RadioConfig -> eff R RadioError unit;
  set_frame_pending_table : list Nwk -> list Eui64 -> eff R RadioError unit;
  transmit : TxFrame -> eff R RadioError TxResult;
  energy_detect : Z -> Duration -> eff R RadioError Z;
  recv_reset : Duration -> eff R RadioError (Received ResetEvent);
  (** [ExclusiveRadio] *)
  set_channel : Z -> eff R RadioError unit;
  transmit_exclusive : TxFrame -> eff R RadioError TxResult;
  set_promiscuous : bool -> eff R RadioError unit
}.

(** The body [set_promiscuous] has in the trait. *)
Definition set_promiscuous_default {R} (_ : bool) : eff R RadioError unit := mret tt.

(** The channel a radio listens on, and what moves it. *)
Class RadioLaws (R : Type) `{!RadioPhy R} := {
  tuned : R -> Z;
  set_channel_tunes c r : eff_post (set_channel c) r (fun answer r' => tuned r' = match answer with inl _ => c | inr _ => tuned r end);
  set_promiscuous_tuned b r : eff_post (set_promiscuous b) r (fun _ r' => tuned r' = tuned r);
  transmit_tuned f r : eff_post (transmit_exclusive f) r (fun _ r' => tuned r' = tuned r);
  reconfigure_tunes cfg r :
    eff_post (reconfigure cfg) r (fun answer r' => tuned r' = match answer with inl _ => cfg_channel cfg | inr _ => tuned r end)
}.
End Radio.
