(* ===== verification/SpinelPhy.v ===== *)
(** * The radio over Spinel: [src/crates/ziggurat-phy-spinel/src/lib.rs]

    [SpinelPhy] implements the radio interface with the commands of [SpinelClient]. The texts of the
    errors it makes up are rendered by a parameter. *)

From stdpp Require Import gmap.
From S2P Require Import Prelude Effects Flat Types AbstractBits Fcs Mac Constants Spinel SpinelClient Stack Radio.

Module SpinelPhy.
Import Stack(TxResult, RadioError).
Import Spinel.

(** The channels [new] makes. *)
Inductive Channel : Type := StreamRawChannel | EnergyChannel | ResetChannel.
#[export] Instance Channel_eq_dec : EqDecision Channel.
Proof. solve_decision. Defined.

(** What is formatted into an error. *)
Inductive Message : Type :=
| SpinelMessage (err : SpinelClient.SpinelError)
| ChannelRejected (channel : Z) (response : SpinelPropertyId) (value : bytes)
| EnergyScanRejected (channel : Z) (response : SpinelPropertyId) (value : bytes)
| MalformedEnergyResult (value : bytes)
| WrongChannel (scanned channel : Z).

Definition RX_CAPACITY : nat := 32.
Definition RESET_CAPACITY : nat := 8.

Section Phy.
Context `{!Crc} {L : Type} `{!SpinelClient.RcpTransport L}.
Context (describe : Message -> string) (describe_status : SpinelStatus -> string).

(** [SpinelPhy]; a slot is the queue of the current subscription, if there is one. *)
Record t := mk {
  client : @SpinelClient.t L Channel;
  home_channel : Z;
  rx_slot : option (list Radio.RxFrame);
  reset_slot : option (list Radio.ResetEvent)
}.

Definition set_client (p : t) (c : @SpinelClient.t L Channel) : t := mk c (home_channel p) (rx_slot p) (reset_slot p).
Definition set_home (p : t) (channel : Z) : t := mk (client p) channel (rx_slot p) (reset_slot p).
Definition set_rx_slot (p : t) (q : option (list Radio.RxFrame)) : t := mk (client p) (home_channel p) q (reset_slot p).
Definition set_reset_slot (p : t) (q : option (list Radio.ResetEvent)) : t := mk (client p) (home_channel p) (rx_slot p) q.

Definition new (port : L) : t :=
  let c := SpinelClient.new port in
  let p := SpinelClient.protocol c in
  let p := set_property_update_receiver p PropStreamRaw StreamRawChannel in
  let p := set_property_update_receiver p PropMacEnergyScanResult EnergyChannel in
  let p := set_reset_notification_receiver p ResetChannel in
  mk (SpinelClient.set_protocol c p) 11 None None.

(** ** Streams *)
Definition try_send {T} (capacity : nat) (slot : option (list T)) (x : T) : option (list T) :=
  match slot with
  | Some q => Some (if (length q <? capacity)%nat then q ++ [x] else q)
  | None => None
  end.

Definition subscribe_rx (p : t) : t := set_rx_slot p (Some []).
Definition subscribe_reset (p : t) : t := set_reset_slot p (Some []).

(** The body of [spawn_rx_forwarder]. *)
Definition normalize (value : bytes) : option Radio.RxFrame :=
  match SpinelClient.rx_from_bytes value with
  | Ok frame =>
      let psdu := SpinelClient.rx_psdu frame in
      if (length psdu <? 2)%nat then None
      else Some (Radio.mkRxFrame (take (length psdu - 2) psdu) (SpinelClient.rx_channel frame) (SpinelClient.rssi frame)
                   (SpinelClient.lqi frame) (SpinelClient.timestamp_us frame))
  | _ => None
  end.

Definition forward_rx (p : t) (update : SpinelFramePropValueIs) : t :=
  match normalize (Spinel.value update) with
  | Some rx => set_rx_slot p (try_send RX_CAPACITY (rx_slot p) rx)
  | None => p
  end.

(** The body of [spawn_reset_forwarder]. *)
Definition forward_reset (p : t) (status : SpinelStatus) : t :=
  set_reset_slot p (try_send RESET_CAPACITY (reset_slot p) (Radio.mkResetEvent (describe_status status))).

(** Both forwarders, on what is in their channels. *)
Definition forward (p : t) (a : @Spinel.Action nat Channel) : t :=
  match a with
  | PropertyUpdate StreamRawChannel update => forward_rx p update
  | ResetNotification ResetChannel status => forward_reset p status
  | _ => p
  end.
Definition forwarded (a : @Spinel.Action nat Channel) : bool :=
  match a with PropertyUpdate StreamRawChannel _ | ResetNotification ResetChannel _ => true | _ => false end.

Definition run_forwarders (p : t) : t :=
  let c := client p in
  let p := foldl forward p (SpinelClient.inbox c) in
  set_client p (SpinelClient.set_inbox c (filter (fun a => forwarded a = false) (SpinelClient.inbox c))).

(** ** Commands *)
Definition map_spinel_err (err : SpinelClient.SpinelError) : RadioError :=
  match err with
  | SpinelClient.Timeout => Stack.RadioTimeout
  | SpinelClient.TransportClosed | SpinelClient.CancelledByReset => Stack.TransportClosed
  | other => Stack.OtherRadioError (describe (SpinelMessage other))
  end.

Definition map_status (status : SpinelStatus) : TxResult :=
  match status with
  | StatusOk => Stack.Acked
  | StatusNoAck => Stack.NoAck
  | StatusCcaFailure => Stack.ChannelAccessFailure
  | _ => Stack.Failed
  end.

(** A command of the client. *)
Definition on_client {A} (m : eff (@SpinelClient.t L Channel) SpinelClient.SpinelError A) : eff t RadioError A :=
  map_err map_spinel_err (on_part client set_client m).

Definition set_spinel_prop (id : SpinelPropertyId) (value : bytes) : eff t RadioError (SpinelPropertyId * bytes) :=
  on_client (SpinelClient.prop_value_set id value).

Definition write_frame_pending (short : list Nwk) (extended : list Eui64) : eff t RadioError unit :=
  _ ← set_spinel_prop PropMacSrcMatchShortAddresses (concat (map Nwk.to_bytes short));
  _ ← set_spinel_prop PropMacSrcMatchExtendedAddresses (concat (map Eui64.to_be_bytes extended));
  mret tt.

(** [SpinelMacPromiscuousMode::Full] and [Off]. *)
Definition promiscuous_mode (promiscuous : bool) : Z := if promiscuous then 2 else 0.

Definition apply_config (cfg : Radio.RadioConfig) : eff t RadioError unit :=
  _ ← set_spinel_prop PropPhyEnabled [1];
  _ ← set_spinel_prop PropPhyChan [Radio.cfg_channel cfg];
  _ ← set_spinel_prop PropPhyTxPower [SpinelClient.u8_of_i8 (Radio.tx_power cfg)];
  _ ← set_spinel_prop PropMacPromiscuousMode [promiscuous_mode (Radio.promiscuous cfg)];
  _ ← set_spinel_prop PropMac154Laddr (Eui64.to_be_bytes (Radio.extended_address cfg));
  _ ← set_spinel_prop PropMac154Saddr (Nwk.to_bytes (Radio.short_address cfg));
  _ ← set_spinel_prop PropMac154Panid (PanId.to_bytes (Radio.cfg_pan_id cfg));
  _ ← set_spinel_prop PropMacRxOnWhenIdleMode [Z.b2z (Radio.rx_on_when_idle cfg)];
  _ ← set_spinel_prop PropMacRawStreamEnabled [1];
  _ ← set_spinel_prop PropMacSrcMatchEnabled [1];
  write_frame_pending (Radio.frame_pending_short cfg) (Radio.frame_pending_extended cfg).

Definition tx_frame_to_spinel (f : Radio.TxFrame) (channel : Z) : SpinelClient.SpinelTxFrame :=
  SpinelClient.mkTxFrame (Radio.psdu f ++ to_le_bytes 2 (Fcs.compute_fcs (Radio.psdu f))) (Some (default channel (Radio.channel f)))
    (Some (Radio.max_csma_backoffs f)) (Some (Radio.max_frame_retries f)) (Some (Radio.csma_ca f)) (Some true) (Some false)
    (Some (Radio.security_processed f)) None None None None.

Definition reset : eff t RadioError unit := on_client (SpinelClient.send_reset SpinelClient.ResetStack).

Definition reconfigure (cfg : Radio.RadioConfig) : eff t RadioError unit :=
  _ ← apply_config cfg; modify (fun p => set_home p (Radio.cfg_channel cfg)).

Definition transmit (f : Radio.TxFrame) : eff t RadioError TxResult :=
  home ← gets home_channel;
  status ← on_client (SpinelClient.transmit_frame (tx_frame_to_spinel f home));
  mret (map_status status).

Definition set_channel (channel : Z) : eff t RadioError unit :=
  r ← set_spinel_prop PropPhyChan [channel];
  if bool_decide (r.1 = PropPhyChan) then modify (fun p => set_home p channel)
  else raise (Stack.Rejected (describe (ChannelRejected channel r.1 r.2))).

(** *** Energy detection *)
Definition is_energy (a : @Spinel.Action nat Channel) : bool :=
  match a with PropertyUpdate EnergyChannel _ => true | _ => false end.

(** [while energy_rx.try_recv().is_ok() {}]. *)
Definition drain_energy (p : t) : t :=
  set_client p (SpinelClient.set_inbox (client p) (filter (fun a => is_energy a = false) (SpinelClient.inbox (client p)))).

(** [timeout(.., energy_rx.recv())]. *)
Definition recv_energy : eff t RadioError bytes := fun p =>
  let p := set_client p (SpinelClient.read_arriving (client p)) in
  match list_find (fun a => is_energy a = true) (SpinelClient.inbox (client p)) with
  | Some (i, PropertyUpdate _ update) =>
      Ok (inl (Spinel.value update), set_client p (SpinelClient.set_inbox (client p) (delete i (SpinelClient.inbox (client p)))))
  | _ => Ok (inr Stack.RadioTimeout, p)
  end.

Definition scan_period_ms (duration : Duration) : Z := Z.min (duration / 1000) 65535.

Definition energy_detect (channel : Z) (duration : Duration) : eff t RadioError Z :=
  _ ← modify drain_energy;
  _ ← set_spinel_prop PropMacScanMask [channel];
  _ ← set_spinel_prop PropMacScanPeriod (to_le_bytes 2 (scan_period_ms duration));
  r ← set_spinel_prop PropMacScanState [2];
  if bool_decide (r.1 = PropMacScanState) then
    value ← recv_energy;
    match value with
    | [scanned; max_rssi] =>
        if scanned =? channel then
          home ← gets home_channel;
          _ ← set_spinel_prop PropPhyChan [home];
          mret (SpinelClient.i8_of_u8 max_rssi)
        else raise (Stack.OtherRadioError (describe (WrongChannel scanned channel)))
    | _ => raise (Stack.OtherRadioError (describe (MalformedEnergyResult value)))
    end
  else raise (Stack.Rejected (describe (EnergyScanRejected channel r.1 r.2))).

(** The reset stream of the driver: what arrives is read and forwarded until an event is there. *)
Definition recv_reset (_ : Duration) : eff t RadioError (Radio.Received Radio.ResetEvent) := fun p =>
  let p := run_forwarders (set_client p (SpinelClient.read_arriving (client p))) in
  match reset_slot p with
  | Some (event :: q) => Ok (inl (Radio.Item event), set_reset_slot p (Some q))
  | _ => Ok (inl Radio.TimedOut, p)
  end.

Definition hw_address : eff t RadioError Eui64 := on_client SpinelClient.get_hw_address.

#[export] Instance spinel_phy : Radio.RadioPhy t := {|
  Radio.reset := reset;
  Radio.reconfigure := reconfigure;
  Radio.set_frame_pending_table := write_frame_pending;
  Radio.transmit := transmit;
  Radio.energy_detect := energy_detect;
  Radio.recv_reset := recv_reset;
  Radio.set_channel := set_channel;
  Radio.transmit_exclusive := transmit;
  Radio.set_promiscuous := Radio.set_promiscuous_default
|}.

(** ** The laws of the interface *)
Lemma on_client_home {A} (m : eff _ _ A) p : eff_post (on_client m) p (fun _ p' => home_channel p' = home_channel p).
Proof. apply eff_post_map_err. intros r p' ([x c] & _ & [= <- <-])%bind_ok. done. Qed.

(** A command and then the rest, with the channel unchanged so far. *)
Lemma prop_then_home {A} id value (k : SpinelPropertyId * bytes -> eff t RadioError A) p (Q : A + RadioError -> t -> Prop) home :
  home_channel p = home -> (forall e p', home_channel p' = home -> Q (inr e) p') ->
  (forall r p', home_channel p' = home -> eff_post (k r) p' Q) -> eff_post (r ← set_spinel_prop id value; k r) p Q.
Proof.
  intros Hp Herr Hk. apply eff_post_bind. eapply eff_post_weaken; [apply on_client_home|]. intros [r|e] p' Hp'; [apply Hk|apply Herr]; congruence.
Qed.

Lemma write_frame_pending_home short extended p :
  eff_post (write_frame_pending short extended) p (fun _ p' => home_channel p' = home_channel p).
Proof. unfold write_frame_pending. do 2 (apply (prop_then_home _ _ _ _ _ (home_channel p)); [done..|intros _ ? ?]). by apply eff_post_ret. Qed.

Lemma apply_config_home cfg p : eff_post (apply_config cfg) p (fun _ p' => home_channel p' = home_channel p).
Proof.
  unfold apply_config. do 10 (apply (prop_then_home _ _ _ _ _ (home_channel p)); [done..|intros _ ? ?]).
  eapply eff_post_weaken; [apply write_frame_pending_home|]. cbn. congruence.
Qed.

#[export] Instance spinel_phy_laws : Radio.RadioLaws t.
Proof.
  refine (Radio.Build_RadioLaws t _ home_channel _ _ _ _).
  - intros c p. unfold Radio.set_channel, spinel_phy, set_channel. apply (prop_then_home _ _ _ _ _ (home_channel p)); [done..|].
    intros r p' Hp'. case_bool_decide; [by apply eff_post_modify|by apply eff_post_raise].
  - intros b p. by apply eff_post_ret.
  - intros f p. unfold Radio.transmit_exclusive, spinel_phy, transmit. apply eff_post_bind, eff_post_gets, eff_post_bind.
    eapply eff_post_weaken; [apply on_client_home|]. intros [status|e] p' Hp'; [by apply eff_post_ret|done].
  - intros cfg p. unfold Radio.reconfigure, spinel_phy, reconfigure. apply eff_post_bind. eapply eff_post_weaken; [apply apply_config_home|].
    intros [[]|e] p' Hp'; [by apply eff_post_modify|done].
Defined.
End Phy.
End SpinelPhy.
