(* ===== verification/OtLink.v ===== *)
(** * The radio of an OpenThread firmware: [src/crates/ziggurat-phy-otlink/src/lib.rs]

    [OtLinkPhy] implements [RadioPhy] over the operations of the trait [LinkOps], a synchronous
    submission each; completions and received frames come back through callbacks. The radio behind
    [LinkOps] is the parameter [L]. [tx_done] and [energy_done] are what happens while a call waits
    for its completion: the other callbacks made meanwhile, and the completion. A radio that never
    completes leaves its caller waiting, which is not represented. The statics of the crate are
    fields of the state; its locks keep one call on the radio at a time, and the calls follow each
    other here. *)

From S2P Require Import Prelude Effects Types Constants Stack Radio.

Module OtLink.
Import Stack(TxResult, RadioError).

Definition RX_DEPTH : nat := 16.

(** The callbacks that are not the completion awaited. *)
Inductive Callback : Type :=
| RxDone (psdu : bytes) (channel rssi lqi timestamp_us : Z)
| TxDone (result : TxResult)
| EnergyDone (max_rssi_dbm : Z).

(** The trait, with what its completions deliver. *)
Class LinkOps (L : Type) := {
  ops_configure : Radio.RadioConfig -> eff L RadioError unit;
  ops_set_channel : Z -> eff L RadioError unit;
  ops_set_promiscuous : bool -> eff L RadioError unit;
  ops_set_frame_pending_table : list Nwk -> list Eui64 -> eff L RadioError unit;
  ops_transmit : bytes -> Z -> bool -> Z -> Z -> eff L RadioError unit;
  ops_energy_scan : Z -> Duration -> eff L RadioError unit;
  tx_done : L -> list Callback * TxResult * L;
  energy_done : L -> list Callback * Z * L
}.

(** The channel the receiver is on: what an operation that succeeds does to it, and that a failed
    one leaves it. A transmission comes back to it; a scan may end anywhere. *)
Class LinkLaws (L : Type) `{!LinkOps L} := {
  link_tuned : L -> Z;
  configure_tunes cfg l : eff_post (ops_configure cfg) l (fun answer l' => link_tuned l' = match answer with inl _ => Radio.cfg_channel cfg | inr _ => link_tuned l end);
  channel_tunes c l : eff_post (ops_set_channel c) l (fun answer l' => link_tuned l' = match answer with inl _ => c | inr _ => link_tuned l end);
  promiscuous_tuned b l : eff_post (ops_set_promiscuous b) l (fun _ l' => link_tuned l' = link_tuned l);
  table_tuned short extended l : eff_post (ops_set_frame_pending_table short extended) l (fun _ l' => link_tuned l' = link_tuned l);
  transmit_submitted psdu c csma retries backoffs l : eff_post (ops_transmit psdu c csma retries backoffs) l (fun _ l' => link_tuned l' = link_tuned l);
  transmit_completed l before result l' : tx_done l = (before, result, l') -> link_tuned l' = link_tuned l
}.

Section Phy.
Context {L : Type} `{!LinkOps L}.

(** [OtLinkPhy], its [RadioState], and the statics. *)
Record t := mk {
  ops : L;
  config : option Radio.RadioConfig;
  rx_channel : list Radio.RxFrame;
  reset_channel : list Radio.ResetEvent;
  tx_complete : option TxResult;
  energy_complete : option Z;
  current_channel : Z;
  rx_total : Z;
  rx_dropped : Z
}.

Definition new (l : L) : t := mk l None [] [] None None 0 0 0.

Definition set_ops (p : t) (x : L) : t := mk x (config p) (rx_channel p) (reset_channel p) (tx_complete p) (energy_complete p) (current_channel p) (rx_total p) (rx_dropped p).
Definition set_config (p : t) (x : option Radio.RadioConfig) : t := mk (ops p) x (rx_channel p) (reset_channel p) (tx_complete p) (energy_complete p) (current_channel p) (rx_total p) (rx_dropped p).
Definition set_rx_channel (p : t) (x : list Radio.RxFrame) : t := mk (ops p) (config p) x (reset_channel p) (tx_complete p) (energy_complete p) (current_channel p) (rx_total p) (rx_dropped p).
Definition set_reset_channel (p : t) (x : list Radio.ResetEvent) : t := mk (ops p) (config p) (rx_channel p) x (tx_complete p) (energy_complete p) (current_channel p) (rx_total p) (rx_dropped p).
Definition set_tx_complete (p : t) (x : option TxResult) : t := mk (ops p) (config p) (rx_channel p) (reset_channel p) x (energy_complete p) (current_channel p) (rx_total p) (rx_dropped p).
Definition set_energy_complete (p : t) (x : option Z) : t := mk (ops p) (config p) (rx_channel p) (reset_channel p) (tx_complete p) x (current_channel p) (rx_total p) (rx_dropped p).
Definition set_current_channel (p : t) (x : Z) : t := mk (ops p) (config p) (rx_channel p) (reset_channel p) (tx_complete p) (energy_complete p) x (rx_total p) (rx_dropped p).
Definition set_rx_counts (p : t) (total dropped : Z) : t := mk (ops p) (config p) (rx_channel p) (reset_channel p) (tx_complete p) (energy_complete p) (current_channel p) total dropped.

(** ** Callbacks *)

(** [Channel::try_send]: refused when the channel is full. *)
Definition try_send {A} (capacity : nat) (queue : list A) (x : A) : option (list A) :=
  if (length queue <? capacity)%nat then Some (queue ++ [x]) else None.

(** [fetch_add(1)] on a [usize], of thirty-two bits on the processors the firmware is built for. *)
Definition count (n : Z) : Z := (n + 1) mod 2 ^ 32.

Definition deliver_rx (psdu : bytes) (channel rssi lqi timestamp_us : Z) (p : t) : t :=
  let frame := Radio.mkRxFrame psdu channel rssi lqi timestamp_us in
  match try_send RX_DEPTH (rx_channel p) frame with
  | Some queue => set_rx_counts (set_rx_channel p queue) (count (rx_total p)) (rx_dropped p)
  | None => set_rx_counts p (count (rx_total p)) (count (rx_dropped p))
  end.

Definition deliver_tx_result (result : TxResult) (p : t) : t := set_tx_complete p (Some result).
Definition deliver_energy_result (max_rssi_dbm : Z) (p : t) : t := set_energy_complete p (Some max_rssi_dbm).

Definition deliver (c : Callback) (p : t) : t :=
  match c with
  | RxDone psdu channel rssi lqi timestamp_us => deliver_rx psdu channel rssi lqi timestamp_us p
  | TxDone result => deliver_tx_result result p
  | EnergyDone rssi => deliver_energy_result rssi p
  end.

(** ** Calls *)
Definition on_ops {A} (m : eff L RadioError A) : eff t RadioError A := on_part ops set_ops m.

(** [Signal::wait]: the value, which is taken. *)
Definition wait_tx : eff t RadioError TxResult := fun p =>
  let '(before, result, l) := tx_done (ops p) in
  let p := deliver_tx_result result (foldl (fun p c => deliver c p) (set_ops p l) before) in
  result ← unwrap (tx_complete p);
  Ok (inl result, set_tx_complete p None).

Definition wait_energy : eff t RadioError Z := fun p =>
  let '(before, rssi, l) := energy_done (ops p) in
  let p := deliver_energy_result rssi (foldl (fun p c => deliver c p) (set_ops p l) before) in
  rssi ← unwrap (energy_complete p);
  Ok (inl rssi, set_energy_complete p None).

Definition transmit_inner (f : Radio.TxFrame) : eff t RadioError TxResult :=
  current ← gets current_channel;
  let channel := default current (Radio.channel f) in
  _ ← modify (fun p => set_tx_complete p None);
  _ ← on_ops (ops_transmit (Radio.psdu f) channel (Radio.csma_ca f) (Radio.max_frame_retries f) (Radio.max_csma_backoffs f));
  wait_tx.

Definition set_channel (c : Z) : eff t RadioError unit :=
  _ ← modify (fun p => set_current_channel p c);
  on_ops (ops_set_channel c).

Definition set_promiscuous (b : bool) : eff t RadioError unit := on_ops (ops_set_promiscuous b).

(** There is nothing to reset; the notification the driver waits for is made up. *)
Definition reset : eff t RadioError unit :=
  modify (fun p => match try_send 1 (reset_channel p) (Radio.mkResetEvent "otlink ready") with Some queue => set_reset_channel p queue | None => p end).

Definition set_frame_pending_table (short : list Nwk) (extended : list Eui64) : eff t RadioError unit := on_ops (ops_set_frame_pending_table short extended).

Definition reconfigure (cfg : Radio.RadioConfig) : eff t RadioError unit :=
  _ ← modify (fun p => set_current_channel p (Radio.cfg_channel cfg));
  _ ← set_frame_pending_table (Radio.frame_pending_short cfg) (Radio.frame_pending_extended cfg);
  _ ← on_ops (ops_configure cfg);
  modify (fun p => set_config p (Some cfg)).

Definition energy_detect (c : Z) (duration : Duration) : eff t RadioError Z :=
  _ ← modify (fun p => set_energy_complete p None);
  _ ← on_ops (ops_energy_scan c duration);
  rssi ← wait_energy;
  home ← gets current_channel;
  _ ← (if negb (home =? 0) then on_ops (ops_set_channel home) else mret tt);
  mret rssi.

(** [OtLinkRx::recv] and [OtLinkResetStream::recv]; the channels are never closed. *)
Definition recv_rx (p : t) : option (Radio.RxFrame * t) :=
  match rx_channel p with f :: queue => Some (f, set_rx_channel p queue) | [] => None end.

Definition recv_reset (_ : Duration) : eff t RadioError (Radio.Received Radio.ResetEvent) := fun p =>
  match reset_channel p with
  | ev :: queue => Ok (inl (Radio.Item ev), set_reset_channel p queue)
  | [] => Ok (inl Radio.TimedOut, p)
  end.

#[export] Instance ot_link_phy : Radio.RadioPhy t := {|
  Radio.reset := reset;
  Radio.reconfigure := reconfigure;
  Radio.set_frame_pending_table := set_frame_pending_table;
  Radio.transmit := transmit_inner;
  Radio.energy_detect := energy_detect;
  Radio.recv_reset := recv_reset;
  Radio.set_channel := set_channel;
  Radio.transmit_exclusive := transmit_inner;
  Radio.set_promiscuous := set_promiscuous
|}.

(** ** The laws of the interface *)
Context `{!LinkLaws L}.

Lemma on_ops_tuned {A} (m : eff L RadioError A) p (Q : A + RadioError -> Z -> Prop) :
  eff_post m (ops p) (fun r l => Q r (link_tuned l)) -> eff_post (on_ops m) p (fun r p' => Q r (link_tuned (ops p'))).
Proof. intros Hm r p' ([x l] & Hx & [= <- <-])%bind_ok. exact (Hm _ _ Hx). Qed.

Lemma delivered_tuned cs p : ops (foldl (fun p c => deliver c p) p cs) = ops p.
Proof.
  revert p. induction cs as [|c cs IH]; intros p; [done|]. cbn. rewrite IH. destruct c; [|done..].
  cbn. unfold deliver_rx. by destruct (try_send _ _ _).
Qed.

Lemma wait_tx_tuned p : eff_post wait_tx p (fun _ p' => link_tuned (ops p') = link_tuned (ops p)).
Proof.
  intros r p'. unfold wait_tx. destruct (tx_done (ops p)) as [[before result] l] eqn:Hd. intros (x & _ & [= <- <-])%bind_ok. cbn.
  rewrite delivered_tuned. cbn. by eapply transmit_completed.
Qed.

Lemma transmit_keeps f p : eff_post (transmit_inner f) p (fun _ p' => link_tuned (ops p') = link_tuned (ops p)).
Proof.
  unfold transmit_inner. apply eff_post_bind, eff_post_gets. cbv beta iota zeta. apply eff_post_bind, eff_post_modify, eff_post_bind.
  eapply eff_post_weaken; [apply (on_ops_tuned _ _ (fun _ z => z = link_tuned (ops p))), transmit_submitted|].
  intros [[]|e] p' Hp'; [|done]. rewrite <- Hp'. apply wait_tx_tuned.
Qed.

#[export] Instance ot_link_laws : Radio.RadioLaws t.
Proof.
  refine (Radio.Build_RadioLaws t _ (fun p => link_tuned (ops p)) _ _ _ _).
  - intros c p. apply eff_post_bind, eff_post_modify.
    apply (on_ops_tuned _ _ (fun r z => z = match r with inl _ => c | inr _ => link_tuned (ops p) end)), channel_tunes.
  - intros b p. apply (on_ops_tuned _ _ (fun _ z => z = link_tuned (ops p))), promiscuous_tuned.
  - intros f p. apply transmit_keeps.
  - intros cfg p. apply eff_post_bind, eff_post_modify, eff_post_bind. unfold set_frame_pending_table.
    eapply eff_post_weaken; [apply (on_ops_tuned _ _ (fun _ z => z = link_tuned (ops p))), table_tuned|].
    intros [[]|e] p' Hp'; [|done]. apply eff_post_bind.
    eapply eff_post_weaken; [apply (on_ops_tuned _ _ (fun r z => z = match r with inl _ => Radio.cfg_channel cfg | inr _ => link_tuned (ops p') end)), configure_tunes|].
    intros [[]|e] p2 Hp2; [by apply eff_post_modify|by rewrite Hp2].
Defined.

(** ** The home channel *)
Lemma delivered_channel cs p : current_channel (foldl (fun p c => deliver c p) p cs) = current_channel p.
Proof.
  revert p. induction cs as [|c cs IH]; intros p; [done|]. cbn. rewrite IH. destruct c; [|done..].
  cbn. unfold deliver_rx. by destruct (try_send _ _ _).
Qed.

(** An energy scan that succeeds on a configured radio ends on the home channel, wherever the scan
    left the receiver and whatever arrived meanwhile. *)
Lemma energy_returns_home c duration p rssi p' :
  current_channel p <> 0 -> energy_detect c duration p = Ok (inl rssi, p') -> link_tuned (ops p') = current_channel p /\ current_channel p' = current_channel p.
Proof.
  intros Hne. unfold energy_detect. set (Q := fun (r : Z + RadioError) p' => forall x, r = inl x -> link_tuned (ops p') = current_channel p /\ current_channel p' = current_channel p).
  cut (eff_post (energy_detect c duration) p Q); [intros HQ He; by eapply HQ|]. apply eff_post_bind, eff_post_modify, eff_post_bind.
  intros r p1 ([[[]|e] l] & _ & [= <- <-])%bind_ok; [|by intros ?]. apply eff_post_bind. intros r p2. unfold wait_energy.
  destruct (energy_done _) as [[before v] l2]. intros (z & _ & [= <- <-])%bind_ok. apply eff_post_bind, eff_post_gets. cbv beta iota.
  cbn [current_channel set_energy_complete deliver_energy_result]. rewrite delivered_channel. cbn [current_channel set_ops set_energy_complete].
  rewrite (proj2 (Z.eqb_neq _ _) Hne). cbn [negb]. apply eff_post_bind. intros r p3 ([y l3] & Hy & [= <- <-])%bind_ok.
  pose proof (channel_tunes _ _ _ _ Hy) as Ht. destruct y as [[]|e]; [|by intros ?]. apply eff_post_ret. intros x [= <-]. cbn [ops set_ops].
  split; [exact Ht|]. cbn. by rewrite delivered_channel.
Qed.

(** The channel is noted before the radio is asked: after a retune that fails, what frames without a
    channel are sent on, and where a scan returns to, is not where the receiver is. *)
Lemma failed_retune_noted c p e l :
  ops_set_channel c (ops p) = Ok (inr e, l) ->
  exists p', set_channel c p = Ok (inr e, p') /\ current_channel p' = c /\ link_tuned (ops p') = link_tuned (ops p).
Proof.
  intros Ho. exists (set_ops (set_current_channel p c) l). unfold set_channel. erewrite eff_next by reflexivity. unfold on_ops, on_part. cbn [ops set_current_channel].
  rewrite Ho. split; [done|]. split; [done|]. exact (channel_tunes _ _ _ _ Ho).
Qed.
End Phy.

(** ** The queue of received frames *)
Section Queue.
Context {L : Type} `{!LinkOps L}.
Implicit Types p : t (L:=L).

(** A run of the receive side: callbacks, and frames taken off the queue. *)
Inductive rx_op : Type := Called (c : Callback) | Taken.

Fixpoint rx_run p (l : list rx_op) : list Radio.RxFrame * t (L:=L) :=
  match l with
  | [] => ([], p)
  | Called c :: l => rx_run (deliver c p) l
  | Taken :: l =>
      match recv_rx p with
      | Some (f, p) => let '(fs, p) := rx_run p l in (f :: fs, p)
      | None => rx_run p l
      end
  end.

(** The frames the radio received. *)
Definition arrived (l : list rx_op) : list Radio.RxFrame :=
  omap (fun o => match o with Called (RxDone psdu c rssi lqi ts) => Some (Radio.mkRxFrame psdu c rssi lqi ts) | _ => None end) l.

Definition is_usize (z : Z) : Prop := 0 <= z < 2 ^ 32.

Lemma count_many n k : is_usize n -> 0 <= k -> (count n + k) mod 2 ^ 32 = (n + (1 + k)) mod 2 ^ 32 /\ is_usize (count n).
Proof. intros Hn Hk. unfold count. rewrite Zplus_mod_idemp_l. split; [f_equal; lia|]. apply Z.mod_pos_bound. lia. Qed.

(** No received frame is lost silently: whatever the callbacks and the reads, the frames taken,
    then those waiting, are frames that arrived, in the order they arrived; the others are exactly
    those dropped, and are counted; at most sixteen wait. *)
Lemma received_frames_accounted (l : list rx_op) p taken p' :
  (length (rx_channel p) <= RX_DEPTH)%nat -> is_usize (rx_total p) -> is_usize (rx_dropped p) -> rx_run p l = (taken, p') ->
  exists dropped, (taken ++ rx_channel p') `sublist_of` (rx_channel p ++ arrived l) /\ (taken ++ rx_channel p') ++ dropped ≡ₚ rx_channel p ++ arrived l /\
    rx_total p' = (rx_total p + Z.of_nat (length (arrived l))) mod 2 ^ 32 /\ rx_dropped p' = (rx_dropped p + Z.of_nat (length dropped)) mod 2 ^ 32 /\
    (length (rx_channel p') <= RX_DEPTH)%nat.
Proof.
  revert p taken p'. induction l as [|o l IH]; intros p taken p' Hl Ht Hd.
  { cbn. intros [= <- <-]. exists []. rewrite !app_nil_r, !Z.add_0_r, !Z.mod_small by done. done. }
  destruct o as [[psdu c rssi lqi ts|result|rssi]|]; cbn [rx_run deliver].
  - cbn [arrived omap list_omap]. fold (arrived l). set (f := Radio.mkRxFrame _ _ _ _ _). unfold deliver_rx, try_send. fold f.
    cbn [length]. rewrite Nat2Z.inj_succ, <- Z.add_1_l.
    destruct (Nat.ltb_spec (length (rx_channel p)) RX_DEPTH) as [Hlt|Hge].
    + intros Hr. destruct (count_many (rx_total p) (Z.of_nat (length (arrived l))) Ht ltac:(lia)) as [Hc Hu].
      apply IH in Hr as (d & Hs & Hp & Hx & Hy & Hz); [|cbn; rewrite length_app; cbn; lia|done..]. cbn in Hs, Hp, Hx, Hy.
      rewrite <- (assoc_L (++) (rx_channel p)) in Hs, Hp. exists d. split_and!; [done|done|by rewrite Hx|done|done].
    + intros Hr. destruct (count_many (rx_total p) (Z.of_nat (length (arrived l))) Ht ltac:(lia)) as [Hc Hu].
      apply IH in Hr as (d & Hs & Hp & Hx & Hy & Hz); [|done|done|by apply (count_many (rx_dropped p) 0)]. cbn in Hs, Hp, Hx, Hy.
      exists (f :: d). split_and!; [|by rewrite <- Permutation_middle, Hp, Permutation_middle|by rewrite Hx| |done].
      * etrans; [exact Hs|]. apply sublist_app; [done|]. by apply sublist_cons.
      * rewrite Hy. cbn [length]. rewrite Nat2Z.inj_succ, <- Z.add_1_l. by apply count_many; [|lia].
  - by apply (IH (deliver_tx_result result p)).
  - by apply (IH (deliver_energy_result rssi p)).
  - cbn [arrived omap list_omap]. fold (arrived l). unfold recv_rx. destruct (rx_channel p) as [|f queue] eqn:Hq.
    + intros Hr. rewrite <- Hq. apply IH; [by rewrite Hq|done..].
    + destruct (rx_run (set_rx_channel p queue) l) as [fs p1] eqn:Hr. intros [= <- <-].
      apply IH in Hr as (d & Hs & Hp & Hrest); [|cbn in Hl |- *; lia|done..]. exists d. cbn in Hs, Hp. split_and!; [| |apply Hrest..].
      * by apply sublist_skip.
      * cbn. by rewrite Hp.
Qed.
End Queue.
End OtLink.
