(* ===== verification/OtFirmware.v ===== *)
(** * Ziggurat inside an OpenThread firmware: [src/crates/ziggurat-ot]

    The radio operations ([link_ops.rs]), the cryptography ([crypto.rs]) and the timer
    ([time_driver.rs]) that the crate builds on the C functions of the firmware, and its queue of
    host frames ([lib.rs]). Those functions are the class [Platform]; the queue of timers is that of
    the crate embassy-time-queue-utils, the class [TimerQueue]. The allocator, the executor and the
    panic handler are foreign-function bindings and left out. *)

From S2P Require Import Prelude Effects Types AbstractBits Constants Crypto CryptoFacts Stack Radio OtLink.

Module OtFirmware.
Import Stack(TxResult, RadioError, OtherRadioError).

(** ** [platform.rs] *)
Record ZigguratRadioConfig := mkRawConfig {
  raw_channel : Z;
  tx_power_dbm : Z;
  raw_short_address : Z;
  raw_pan_id : Z;
  raw_extended_address : bytes;
  raw_promiscuous : bool;
  raw_rx_on_when_idle : bool
}.

Inductive ZigguratTxStatus : Type := StatusAcked | StatusNoAck | StatusChannelAccessFailure | StatusAborted | StatusFailed.

(** A C function changes the firmware and answers a status, zero for success. *)
Class Platform (P : Type) := {
  radio_configure : ZigguratRadioConfig -> P -> Z * P;
  radio_set_channel : Z -> P -> Z * P;
  radio_set_promiscuous : bool -> P -> Z * P;
  radio_src_match_clear : P -> P;
  radio_src_match_add_short : Z -> P -> Z * P;
  radio_src_match_add_ext : bytes -> P -> Z * P;
  radio_transmit : bytes -> Z -> bool -> Z -> Z -> P -> Z * P;
  radio_energy_scan : Z -> Z -> P -> Z * P;
  radio_tx_wait : P -> list OtLink.Callback * ZigguratTxStatus * P;
  radio_energy_wait : P -> list OtLink.Callback * Z * P
}.

(** [ziggurat_radio_tx_done]. *)
Definition tx_result (status : ZigguratTxStatus) : TxResult :=
  match status with
  | StatusAcked => Stack.Acked
  | StatusNoAck => Stack.NoAck
  | StatusChannelAccessFailure => Stack.ChannelAccessFailure
  | StatusAborted => Stack.Aborted
  | StatusFailed => Stack.Failed
  end.

(** ** [link_ops.rs] *)
Section Ops.
Context {P : Type} `{!Platform P}.

Definition check (call : P -> Z * P) (what : string) : eff P RadioError unit := fun p =>
  let '(status, p) := call p in
  Ok (if status =? 0 then inl tt else inr (OtherRadioError what), p).

Definition configure (cfg : Radio.RadioConfig) : eff P RadioError unit :=
  let raw := mkRawConfig (Radio.cfg_channel cfg) (Radio.tx_power cfg) (Nwk.as_u16 (Radio.short_address cfg)) (Radio.cfg_pan_id cfg)
    (Eui64.to_be_bytes (Radio.extended_address cfg)) (Radio.promiscuous cfg) (Radio.rx_on_when_idle cfg) in
  check (radio_configure raw) "radio_configure failed".

Definition set_channel (c : Z) : eff P RadioError unit := check (radio_set_channel c) "radio_set_channel failed".
Definition set_promiscuous (b : bool) : eff P RadioError unit := check (radio_set_promiscuous b) "radio_set_promiscuous failed".

Fixpoint add_short (short : list Nwk) : eff P RadioError unit :=
  match short with
  | [] => mret tt
  | nwk :: short => _ ← check (radio_src_match_add_short (Nwk.as_u16 nwk)) "radio_src_match_add_short failed"; add_short short
  end.
Fixpoint add_ext (extended : list Eui64) : eff P RadioError unit :=
  match extended with
  | [] => mret tt
  | eui :: extended => _ ← check (radio_src_match_add_ext (Eui64.to_be_bytes eui)) "radio_src_match_add_ext failed"; add_ext extended
  end.
Definition set_frame_pending_table (short : list Nwk) (extended : list Eui64) : eff P RadioError unit :=
  _ ← modify radio_src_match_clear;
  _ ← add_short short;
  add_ext extended.

Definition transmit (psdu : bytes) (channel : Z) (csma_ca : bool) (max_frame_retries max_csma_backoffs : Z) : eff P RadioError unit :=
  check (radio_transmit psdu channel csma_ca max_frame_retries max_csma_backoffs) "radio_transmit failed".

(** The duration is passed in milliseconds, in sixteen bits. *)
Definition energy_scan (channel : Z) (duration : Duration) : eff P RadioError unit :=
  check (radio_energy_scan channel ((duration / 1000) mod 2 ^ 16)) "radio_energy_scan failed".

#[export] Instance platform_link_ops : OtLink.LinkOps P := {|
  OtLink.ops_configure := configure;
  OtLink.ops_set_channel := set_channel;
  OtLink.ops_set_promiscuous := set_promiscuous;
  OtLink.ops_set_frame_pending_table := set_frame_pending_table;
  OtLink.ops_transmit := transmit;
  OtLink.ops_energy_scan := energy_scan;
  OtLink.tx_done p := let '(before, status, p) := radio_tx_wait p in (before, tx_result status, p);
  OtLink.energy_done := radio_energy_wait
|}.

(** What the firmware's glue promises of the receiver's channel and of the source match table. *)
Class PlatformLaws := {
  on_channel : P -> Z;
  match_table : P -> list Z * list bytes;
  configured_on raw p : let '(status, p') := radio_configure raw p in on_channel p' = (if status =? 0 then raw_channel raw else on_channel p) /\ match_table p' = match_table p;
  retuned_on c p : let '(status, p') := radio_set_channel c p in on_channel p' = (if status =? 0 then c else on_channel p) /\ match_table p' = match_table p;
  promiscuous_on b p : let '(_, p') := radio_set_promiscuous b p in on_channel p' = on_channel p /\ match_table p' = match_table p;
  cleared p : on_channel (radio_src_match_clear p) = on_channel p /\ match_table (radio_src_match_clear p) = ([], []);
  added_short a p : let '(status, p') := radio_src_match_add_short a p in
    on_channel p' = on_channel p /\ match_table p' = if status =? 0 then ((match_table p).1 ++ [a], (match_table p).2) else match_table p;
  added_ext a p : let '(status, p') := radio_src_match_add_ext a p in
    on_channel p' = on_channel p /\ match_table p' = if status =? 0 then ((match_table p).1, (match_table p).2 ++ [a]) else match_table p;
  transmit_on psdu c csma retries backoffs p : let '(_, p') := radio_transmit psdu c csma retries backoffs p in on_channel p' = on_channel p;
  waited_on p : let '(_, _, p') := radio_tx_wait p in on_channel p' = on_channel p
}.

Section Laws.
Context `{!PlatformLaws}.

Lemma check_post call what p (Q : unit + RadioError -> P -> Prop) :
  (let '(status, p') := call p in Q (if status =? 0 then inl tt else inr (OtherRadioError what)) p') -> eff_post (check call what) p Q.
Proof. unfold check. intros HQ r p'. destruct (call p) as [status p1]. by intros [= <- <-]. Qed.

(** The table that an attempt to write [short] and [extended] leaves: all of it, or a prefix. *)
Lemma add_short_post short p :
  eff_post (add_short short) p (fun r p' => on_channel p' = on_channel p /\ (match_table p').2 = (match_table p).2 /\
    match r with inl _ => (match_table p').1 = (match_table p).1 ++ short | inr _ => True end).
Proof.
  revert p. induction short as [|a short IH]; intros p; cbn [add_short]; [apply eff_post_ret; by rewrite app_nil_r|].
  apply eff_post_bind, check_post. pose proof (added_short (Nwk.as_u16 a) p) as Ha. destruct (radio_src_match_add_short _ p) as [status p1].
  destruct Ha as [Hc Ht]. destruct (status =? 0); [|by rewrite Ht].
  eapply eff_post_weaken; [apply IH|]. intros r p2 (Hc2 & He2 & Hs2). rewrite Hc2, He2, Hc, Ht. split_and!; [done..|].
  destruct r; [|done]. rewrite Hs2, Ht. cbn [fst snd]. by rewrite <- (assoc_L (++)).
Qed.

Lemma add_ext_post extended p :
  eff_post (add_ext extended) p (fun r p' => on_channel p' = on_channel p /\ (match_table p').1 = (match_table p).1 /\
    match r with inl _ => (match_table p').2 = (match_table p).2 ++ map Eui64.to_be_bytes extended | inr _ => True end).
Proof.
  revert p. induction extended as [|a extended IH]; intros p; cbn [add_ext]; [apply eff_post_ret; by rewrite app_nil_r|].
  apply eff_post_bind, check_post. pose proof (added_ext (Eui64.to_be_bytes a) p) as Ha. destruct (radio_src_match_add_ext _ p) as [status p1].
  destruct Ha as [Hc Ht]. destruct (status =? 0); [|by rewrite Ht].
  eapply eff_post_weaken; [apply IH|]. intros r p2 (Hc2 & He2 & Hs2). rewrite Hc2, He2, Hc, Ht. split_and!; [done..|].
  destruct r; [|done]. rewrite Hs2, Ht. cbn [fst snd]. by rewrite <- (assoc_L (++)).
Qed.

(** The frame-pending table is replaced: when the call succeeds the firmware's table is exactly the
    addresses given, short and extended, in their order, whatever it held; the receiver stays. *)
Lemma table_replaced short extended p :
  eff_post (set_frame_pending_table short extended) p (fun r p' => on_channel p' = on_channel p /\
    match r with inl _ => match_table p' = (short, map Eui64.to_be_bytes extended) | inr _ => True end).
Proof.
  unfold set_frame_pending_table. apply eff_post_bind, eff_post_modify, eff_post_bind. destruct (cleared p) as [Hc0 Ht0].
  eapply eff_post_weaken; [apply add_short_post|]. intros r p1 (Hc1 & He1 & Hs1). rewrite Hc0 in Hc1. rewrite Ht0 in He1, Hs1.
  destruct r as [[]|e]; [|done]. eapply eff_post_weaken; [apply add_ext_post|]. intros r p2 (Hc2 & Hs2 & He2). rewrite Hc2. split; [done|].
  destruct r as [[]|e]; [|done]. rewrite (surjective_pairing (match_table p2)), Hs2, He2, Hs1, He1. done.
Qed.

#[export] Instance platform_link_laws : OtLink.LinkLaws P.
Proof.
  refine (OtLink.Build_LinkLaws P _ on_channel _ _ _ _ _ _).
  - intros cfg p. apply check_post. match goal with |- context [radio_configure ?raw p] => pose proof (configured_on raw p) as Hc; destruct (radio_configure raw p) as [status p'] end.
    destruct Hc as [-> _]. by destruct (status =? 0).
  - intros c p. apply check_post. pose proof (retuned_on c p) as Hc. destruct (radio_set_channel c p) as [status p']. destruct Hc as [-> _]. by destruct (status =? 0).
  - intros b p. apply check_post. pose proof (promiscuous_on b p) as Hc. destruct (radio_set_promiscuous b p) as [status p']. by destruct Hc as [-> _].
  - intros short extended p. eapply eff_post_weaken; [apply table_replaced|]. by intros r p' [Hc _].
  - intros psdu c csma retries backoffs p. apply check_post. pose proof (transmit_on psdu c csma retries backoffs p) as Hc. by destruct (radio_transmit _ _ _ _ _ p).
  - intros p before result p'. cbn. pose proof (waited_on p) as Hw. destruct (radio_tx_wait p) as [[b status] p1]. by intros [= <- <- <-].
Defined.
End Laws.
End Ops.

(** ** [crypto.rs] *)

(** [ziggurat_platform_ccm_crypt]: the direction, the key, the nonce, the authenticated data, the
    input and (to decrypt) the tag; a status, the output and the tag. *)
Class CcmEngine := ccm_crypt : bool -> Key -> bytes -> bytes -> bytes -> bytes -> Z * bytes * bytes.

Section Crypto.
Context `{!CcmEngine}.

(** The status of the engine is not looked at. *)
Definition encrypt_ccm {E} (key : Key) (nonce auth_data buffer : bytes) : res E bytes :=
  let '(_, out, tag) := ccm_crypt true key nonce auth_data buffer (replicate Crypto.MIC_LENGTH 0) in
  Crypto.extend_buffer (take (length buffer) out) tag.

Definition decrypt_ccm (key : Key) (nonce auth_data tagged_ciphertext : bytes) : res Crypto.DecryptionError bytes :=
  if (length tagged_ciphertext <? Crypto.MIC_LENGTH)%nat then Err Crypto.CiphertextTooShort
  else
    let ct_len := (length tagged_ciphertext - Crypto.MIC_LENGTH)%nat in
    let tag := drop ct_len tagged_ciphertext in
    let '(status, out, _) := ccm_crypt false key nonce auth_data (take ct_len tagged_ciphertext) tag in
    if negb (status =? 0) then Err Crypto.InvalidMacTag else Ok (take ct_len out).

(** An engine that computes the CCM of the software backend, and reports a tag that does not verify. *)
Class CcmEngineLaws `{!Ccm} := {
  engine_encrypts key nonce aad plain : exists cipher mic, encrypt_inout_detached key nonce aad plain = Some (cipher, mic) /\
    length cipher = length plain /\ ccm_crypt true key nonce aad plain (replicate Crypto.MIC_LENGTH 0) = (0, cipher, mic);
  engine_decrypts key nonce aad cipher mic : let '(status, out, _) := ccm_crypt false key nonce aad cipher mic in
    match decrypt_inout_detached key nonce aad cipher mic with Some plain => status = 0 /\ out = plain /\ length plain = length cipher | None => status <> 0 end
}.

(** With such an engine the firmware protects and opens frames exactly as the software backend does,
    every error included. *)
Lemma backend_equivalent `{!Ccm, !CcmEngineLaws} key nonce aad bs :
  (forall E, encrypt_ccm (E:=E) key nonce aad bs = Crypto.software_encrypt_ccm key nonce aad bs) /\
  decrypt_ccm key nonce aad bs = Crypto.software_decrypt_ccm key nonce aad bs.
Proof.
  split.
  - intros E. unfold encrypt_ccm, Crypto.software_encrypt_ccm. destruct (engine_encrypts key nonce aad bs) as (c & m & -> & Hl & ->). cbn [unwrap mbind res_bind fst snd].
    rewrite take_ge by lia. done.
  - unfold decrypt_ccm, Crypto.software_decrypt_ccm. destruct (_ <? _)%nat eqn:Hlt; [done|]. apply Nat.ltb_ge in Hlt. cbn zeta.
    set (n := (length bs - Crypto.MIC_LENGTH)%nat). pose proof (engine_decrypts key nonce aad (take n bs) (drop n bs)) as Hd.
    destruct (ccm_crypt false key nonce aad (take n bs) (drop n bs)) as [[status out] tag].
    destruct (decrypt_inout_detached _ _ _ _ _) as [plain|]; cbn [ok_or].
    + destruct Hd as (-> & -> & Hl). cbn. rewrite take_ge; [done|]. rewrite Hl, length_take. lia.
    + by rewrite (proj2 (Z.eqb_neq _ _) Hd).
Qed.
End Crypto.

(** ** [time_driver.rs] *)

Definition NEVER : Z := 2 ^ 64 - 1.

(** The queue of timers, of tasks named by their wakers: [next_expiration now] wakes the tasks whose
    timers are due, which leave the queue, and answers the earliest deadline that is left, or [NEVER];
    [queue_schedule_wake] asks for a deadline for a task and answers whether the next expiration has
    to be found again. *)
Class TimerQueue (Q W : Type) := {
  next_expiration : Z -> Q -> list W * Z * Q;
  queue_schedule_wake : Z -> W -> Q -> bool * Q
}.

Section TimeDriver.
Context {Q W : Type} `{!TimerQueue Q W}.






(** Armed for the earliest of the deadlines, or off when there is none. *)
Definition armed_for (a : Z) (timers : list (W * Z)) : Prop :=
  a = NEVER /\ timers = [] \/ a ∈ timers.*2 /\ Forall (fun x => a <= x.2) timers.

(** The timers a reading of the clock has reached, and those it has not. *)
Definition due (now : Z) (timers : list (W * Z)) : list (W * Z) := filter (fun x => x.2 <= now) timers.
Definition left_after (now : Z) (timers : list (W * Z)) : list (W * Z) := filter (fun x => now < x.2) timers.

(** What the queue documents. A task has its earliest request in the queue: asking again for a later
    deadline changes nothing, and no request touches the timer of another task. *)
Class TimerQueueLaws := {
  timers : Q -> list (W * Z);
  expired now q : let '(woke, next, q') := next_expiration now q in
    timers q' = left_after now (timers q) /\ woke = (due now (timers q)).*1 /\ armed_for next (timers q');
  scheduled at_ w q : let '(changed, q') := queue_schedule_wake at_ w q in
    (exists d, (w, d) ∈ timers q' /\ d <= at_) /\
    (forall w' d, (w', d) ∈ timers q' -> (w', d) ∈ timers q \/ w' = w /\ d = at_) /\
    (forall w' d, w' <> w -> (w', d) ∈ timers q -> (w', d) ∈ timers q') /\
    (length (timers q') <= S (length (timers q)))%nat /\
    (changed = false -> forall a, armed_for a (timers q) -> armed_for a (timers q'))
}.








End TimeDriver.

(** ** [lib.rs]: host frames *)
Definition INBOUND_DEPTH : nat := 16.

(** [ziggurat_host_frame]: a frame that does not fit the queue is lost. *)
Definition host_frame (line : bytes) (inbound : list bytes) : list bytes := default inbound (OtLink.try_send INBOUND_DEPTH inbound line).

(** ** [lib.rs]: the pump of outbound frames

    The pump and the firmware's serial link interleave: the link takes a frame when it has room, and
    signals when it has room again. *)
Inductive Phase : Type := Idle | Turn (line : bytes) | Ready (line : bytes) | Refused (line : bytes).

Record Pump := mkPump {
  outbound : list bytes;
  phase : Phase;
  (** the signal [HOST_READY] *)
  host_ready : bool;
  (** the room of the link, and what it was given *)
  room : nat;
  given : list bytes
}.

(** A step of the pump. *)
Inductive pump_step : Pump -> Pump -> Prop :=
(** [OUTBOUND.receive()] *)
| pump_receive line out ready n sent : pump_step (mkPump (line :: out) Idle ready n sent) (mkPump out (Turn line) ready n sent)
(** [HOST_READY.reset()] *)
| pump_reset line out ready n sent : pump_step (mkPump out (Turn line) ready n sent) (mkPump out (Ready line) false n sent)
(** [ziggurat_platform_host_send], taken and refused *)
| pump_sent line out ready n sent : pump_step (mkPump out (Ready line) ready (S n) sent) (mkPump out Idle ready n (sent ++ [line]))
| pump_refused line out ready sent : pump_step (mkPump out (Ready line) ready 0 sent) (mkPump out (Refused line) ready 0 sent)
(** [HOST_READY.wait()] *)
| pump_woken line out n sent : pump_step (mkPump out (Refused line) true n sent) (mkPump out (Turn line) false n sent).

(** A run from the start, with the frames queued: the pump steps, a frame is queued, or the link has
    room again and calls [ziggurat_host_send_ready]. *)
Inductive pump_run (room : nat) : list bytes -> Pump -> Prop :=
| run_start : pump_run room [] (mkPump [] Idle false room [])
| run_step queued p p' : pump_run room queued p -> pump_step p p' -> pump_run room queued p'
| run_queued queued line out ph ready n sent :
    pump_run room queued (mkPump out ph ready n sent) -> pump_run room (queued ++ [line]) (mkPump (out ++ [line]) ph ready n sent)
| run_room queued out ph ready n sent :
    pump_run room queued (mkPump out ph ready n sent) -> pump_run room queued (mkPump out ph true (S n) sent).

Definition held (ph : Phase) : list bytes := match ph with Idle => [] | Turn l | Ready l | Refused l => [l] end.

Lemma pump_invariant k queued p :
  pump_run k queued p -> given p ++ held (phase p) ++ outbound p = queued /\ (forall line, phase p = Refused line -> host_ready p = false -> room p = 0%nat).
Proof.
  induction 1 as [|q p p' _ [Hq Hr] Hst|q line out ph ready n sent _ [Hq Hr]|q out ph ready n sent _ [Hq Hr]]; cbn in *.
  - done.
  - destruct Hst; cbn in *; (split; [by rewrite <- Hq, <- ?(assoc_L (++))|naive_solver]).
  - split; [by rewrite <- Hq, <- !(assoc_L (++))|done].
  - done.
Qed.

(** Nothing queued for the host is lost or reordered, and no wake-up is missed: as long as the link
    has room and a frame is not sent yet, the pump has a step to take. *)
Lemma pump_never_stuck k queued p :
  pump_run k queued p -> given p ++ held (phase p) ++ outbound p = queued /\ (given p <> queued -> (0 < room p)%nat -> exists p', pump_step p p').
Proof.
  intros [Hq Hr]%pump_invariant. split; [done|]. destruct p as [out ph ready n sent]. cbn in *. intros Hne Hn. destruct ph as [|line|line|line].
  - destruct out as [|line out]; [by rewrite app_nil_r in Hq|]. eexists. apply pump_receive.
  - eexists. apply pump_reset.
  - destruct n as [|n]; [lia|]. eexists. apply pump_sent.
  - destruct ready; [eexists; apply pump_woken|]. specialize (Hr line eq_refl eq_refl). lia.
Qed.

(** ** A queue of timers, one of a task *)
Definition earliest (ts : list (nat * Z)) : Z := match ts with [] => NEVER | x :: ts => foldr Z.min x.2 ts.*2 end.

Definition has_earlier (at_ : Z) (w : nat) (q : list (nat * Z)) : bool := existsb (fun x => (x.1 =? w)%nat && (x.2 <? at_)) q.

#[export] Instance timer_list : TimerQueue (list (nat * Z)) nat := {|
  next_expiration now q := let q' := left_after now q in ((due now q).*1, earliest q', q');
  queue_schedule_wake at_ w q := if has_earlier at_ w q then (false, q) else (true, (w, at_) :: filter (fun x => x.1 <> w) q)
|}.

Lemma earliest_armed ts : armed_for (earliest ts) ts.
Proof.
  destruct ts as [|x ts]; [by left|]. right. cbn. induction ts as [|y ts [IHin IHle]]; cbn [foldr fmap list_fmap].
  - split; [left|]. by apply Forall_singleton.
  - apply Forall_cons in IHle as [Hd Hds]. split.
    + destruct (Z.min_spec y.2 (foldr Z.min x.2 ts.*2)) as [[_ ->]|[_ ->]]; [right; left|]. apply elem_of_cons in IHin as [->|IHin]; [left|]. right. by right.
    + apply Forall_cons. split; [lia|]. apply Forall_cons. split; [lia|]. eapply Forall_impl; [exact Hds|]. cbn. lia.
Qed.

#[export] Instance timer_list_laws : TimerQueueLaws (Q:=list (nat * Z)) (W:=nat).
Proof.
  unshelve eapply Build_TimerQueueLaws; [exact (fun q => q)|..].
  - intros now q. cbn. split_and!; [done..|]. apply earliest_armed.
  - intros at_ w q. cbn. destruct (has_earlier at_ w q) eqn:Hl.
    + apply existsb_exists in Hl as ([w' d] & Hin & [Hw%Nat.eqb_eq Hd%Z.ltb_lt]%andb_prop). cbn in Hw, Hd. subst w'. split_and!; [|by auto|done|lia|done].
      exists d. split; [by apply list_elem_of_In|lia].
    + split_and!; [exists at_; split; [left|lia]| | | |done].
      * intros w' d. rewrite elem_of_cons, list_elem_of_filter. naive_solver.
      * intros w' d Hne Hin. right. by apply list_elem_of_filter.
      * cbn. pose proof (length_filter (fun x : nat * Z => x.1 <> w) q). lia.
Defined.



(** The queue of the radio's frames, on a radio that does nothing. *)
#[local] Instance idle_link : OtLink.LinkOps unit := {|
  OtLink.ops_configure _ := mret tt;
  OtLink.ops_set_channel _ := mret tt;
  OtLink.ops_set_promiscuous _ := mret tt;
  OtLink.ops_set_frame_pending_table _ _ := mret tt;
  OtLink.ops_transmit _ _ _ _ _ := mret tt;
  OtLink.ops_energy_scan _ _ := mret tt;
  OtLink.tx_done l := ([], Stack.Acked, l);
  OtLink.energy_done l := ([], 0, l)
|}.

(** Eighteen frames, one of them taken after the sixteenth: the last one is lost. *)
Definition ex_arrivals : list OtLink.rx_op :=
  map (fun n => OtLink.Called (OtLink.RxDone [Z.of_nat n] 15 (-60) 200 0)) (seq 0 16) ++
  [OtLink.Taken; OtLink.Called (OtLink.RxDone [16] 15 (-60) 200 0); OtLink.Called (OtLink.RxDone [17] 15 (-60) 200 0)].

Lemma received_frames_accounted_witness :
  let '(taken, p') := OtLink.rx_run (OtLink.new tt) ex_arrivals in
  length taken = 1%nat /\ OtLink.rx_dropped p' = 1 /\
  exists dropped, (taken ++ OtLink.rx_channel p') `sublist_of` OtLink.arrived ex_arrivals /\
    (taken ++ OtLink.rx_channel p') ++ dropped ≡ₚ OtLink.arrived ex_arrivals.
Proof.
  destruct (OtLink.rx_run (OtLink.new tt) ex_arrivals) as [taken p'] eqn:Hr. split_and!.
  - vm_compute in Hr. by injection Hr as <- <-.
  - vm_compute in Hr. by injection Hr as <- <-.
  - destruct (OtLink.received_frames_accounted ex_arrivals (OtLink.new tt) taken p') as (d & Hs & Hp & _); [cbn; lia|done|done|exact Hr|].
    by exists d.
Defined.
End OtFirmware.
