(* ===== verification/StackSend.v ===== *)
(** * Sending: [zigbee_stack/sends.rs], and the sending half of [zigbee_stack/nwk.rs] and [route.rs]

    Frames enter the send table here and leave it for the radio. The table's enqueueing operations
    return no actions (see [Sends]), so only the other operations have some to carry out, and
    carrying them out enqueues at most. *)

From S2P Require Import Prelude Flat Types Constants AbstractBits Mac Neighbors Routing NwkBroadcasts NwkSecurity Addresses Budget.
From S2P Require Import SendTypes Unicasts Unrouted BroadcastSends Sends Crypto NwkCommands NwkFrame NextHop ApsFrame ApsSecurity Stack.

Module StackSend.
Import Stack.

(** [SendHandle]. *)
Definition Handle : Type := SendId * Slot.

(** The result of an operation that may refuse: [Result<_, EnqueueError>], with the state. *)
Abbreviation enqueued A := (may ((A + EnqueueError) * t)).

Section Ops.
Context (e : Env).

Definition own_address : Nwk := network_address (config e).

(** ** Frames we originate *)
Definition nwk_command_frame (destination : Nwk) (command : NwkCommands.NwkCommand) : NwkFrame.t :=
  NwkFrame.mk
    (NwkFrame.mkHeader
       (NwkFrame.mkFrameControl NwkFrame.TypeCommand PROTOCOL_VERSION NwkFrame.Suppress false true false false true false 0)
       destination own_address (2 * MAX_DEPTH) 0 None (Some (ieee_address (config e))) None None)
    None (NwkFrame.Command command).

Definition nwk_data_frame (destination : Nwk) (payload : bytes) : NwkFrame.t + EnqueueError :=
  if (length payload <=? MAX_PHY_PACKET_SIZE)%nat then
    inl (NwkFrame.mk
      (NwkFrame.mkHeader
         (NwkFrame.mkFrameControl NwkFrame.TypeData PROTOCOL_VERSION NwkFrame.Suppress false true false false false false 0)
         destination own_address (2 * MAX_DEPTH) 0 None None None None)
      None (NwkFrame.Opaque payload))
  else inr PayloadTooLong.

(** ** Enqueueing *)
Definition enqueue_unicast (s : t) (f : Frame) (p : TxPolicy) (c : Confirm) (next_hop : Nwk)
    (poll_address : option Ieee802154Address) : may (Handle * t) :=
  let '(slot, s) := new_slot s in
  '(id, table) ← Sends.enqueue_unicast (sends (core s))
    (Unicasts.mkUnicast f (priority p) slot c next_hop poll_address) (now e) (tunables e);
  Ok ((id, slot), with_sends s table).

Definition enqueue_broadcast (s : t) (f : Frame) (p : TxPolicy) (schedule : BroadcastSends.Schedule) : may (Handle * t) :=
  let '(slot, s) := new_slot s in
  '(id, table) ← Sends.enqueue_broadcast (sends (core s))
    (BroadcastSends.mkBroadcast f (priority p) slot schedule) (now e) (tunables e);
  Ok ((id, slot), with_sends s table).

Definition broadcast_route_request (s : t) (f : NwkFrame.t) (attempts : Z) (initial_delay : Duration) : may t :=
  '(_, s) ← enqueue_broadcast s (FrameNwk f WithNetworkKey) (mkPolicy UserNormal Budget.Critical)
    (BroadcastSends.FixedInterval (Tunables.load (tunables e) rreq_retry_interval) attempts (Instant.add (now e) initial_delay));
  Ok s.

Definition start_route_discovery (s : t) (dest : Nwk) : may t :=
  let '(request_id, routing) := Routing.begin_discovery (routing (the_nib s)) own_address dest (now e)
    (Tunables.load (tunables e) route_discovery_time) in
  let s := with_routing s routing in
  let dest_eui64 := AddressMap.eui64_for (address_map (the_nib s)) dest in
  let '(sequence_number, s) := next_nwk_sequence_number s in
  let f := NwkFrame.with_sequence_number
    (nwk_command_frame Routing.BROADCAST_ALL_ROUTERS_AND_COORDINATOR
       (NwkCommands.RouteRequest (NwkCommands.mkRouteRequest Routing.NotManyToOne request_id dest 0 dest_eui64)))
    sequence_number in
  attempts ← unwrap (checked_add u8_max (Tunables.load (tunables e) initial_rreq_retries) 1);
  broadcast_route_request s f attempts 0.

Definition next_hop_policy : NextHop.Policy :=
  NextHop.mkPolicy (is_concentrator (config e)) (hack_force_route_discovery (config e)) (Tunables.load (tunables e) max_source_route).

Definition poll_address (n : Nib) (next_hop : Nwk) : option Ieee802154Address :=
  AddrEui64 <$> Neighbors.sleepy_child_eui64 (neighbors n) next_hop.

(** ** [send_unicast] *)
Definition send_unicast (s : t) (send : Unicast) : enqueued Handle :=
  let dest := NwkFrame.destination (NwkFrame.nwk_header (frame send)) in
  if negb (dest <? NwkFrame.BROADCAST_LOW_POWER_ROUTERS) then Panic
  else
    let '(sequence_number, s) := next_nwk_sequence_number s in
    '(resolved, f) ← NextHop.resolve (routing (the_nib s)) (neighbors (the_nib s))
      (NwkFrame.with_sequence_number (frame send) sequence_number) (mode send) next_hop_policy;
    match resolved with
    | NextHop.Resolved next_hop =>
        '(handle, s) ← enqueue_unicast s (FrameNwk f (security send)) (policy send) (confirm send) next_hop
          (poll_address (the_nib s) next_hop);
        Ok (inl handle, s)
    | NextHop.NeedDiscovery =>
        let '(slot, s) := new_slot s in
        let discovering := Sends.has_unrouted (sends (core s)) dest in
        '(id, table) ← Sends.enqueue_unrouted_unicast (sends (core s))
          (Unrouted.mkUnroutedUnicast (FrameNwk f (security send)) (priority (policy send)) slot (confirm send) dest)
          (now e) (tunables e);
        let s := with_sends s table in
        s ← (if discovering then Ok s else start_route_discovery s dest);
        Ok (inl (id, slot), s)
    | NextHop.Discard => Ok (inr RouteDiscoverySuppressed, s)
    end.

(** [let _ = self.send_unicast(..)]: the handle, or the refusal, is dropped. *)
Definition send_unicast_detached (s : t) (send : Unicast) : may t := '(_, s) ← send_unicast s send; Ok s.

(** ** Failures *)
Definition note_delivery_failure (s : t) : t :=
  if negb (is_concentrator (config e)) then s
  else with_routing s (Routing.note_delivery_failure (routing (the_nib s)) (Tunables.load (tunables e) mtorr_delivery_failure_threshold)).2.

Definition note_route_error (s : t) : t :=
  if negb (is_concentrator (config e)) then s
  else with_routing s (Routing.note_route_error (routing (the_nib s)) (Tunables.load (tunables e) mtorr_route_error_threshold)).2.

Definition invalidate_routes_via (s : t) (next_hop : Nwk) : t :=
  with_routing s (Routing.invalidate_via (routing (the_nib s)) next_hop).

Definition handle_relay_failure (s : t) (f : NwkFrame.t) (next_hop : Nwk) : may t :=
  let s := invalidate_routes_via s next_hop in
  let h := NwkFrame.nwk_header f in
  let destination_ieee := AddressMap.eui64_for (address_map (the_nib s)) (NwkFrame.source h) in
  let status_code :=
    if bool_decide (is_Some (NwkFrame.source_route h)) then NwkCommands.SourceRouteFailure else NwkCommands.LinkFailure in
  let report := NwkFrame.with_discover_route
    (NwkFrame.with_destination_ieee
       (nwk_command_frame (NwkFrame.source h)
          (NwkCommands.NetworkStatus (NwkCommands.mkNetworkStatus status_code (NwkFrame.destination h))))
       destination_ieee)
    NwkFrame.Enable in
  send_unicast_detached s
    (mkUnicast report WithNetworkKey (NextHop.RouteMode NextHop.StackDecides) STACK_CRITICAL OnHandoff).

Definition handle_unicast_send_failure (s : t) (f : NwkFrame.t) (next_hop : Nwk) : may t :=
  let h := NwkFrame.nwk_header f in
  if negb (NwkFrame.source h =? own_address) then handle_relay_failure s f next_hop
  else
    let s := invalidate_routes_via s next_hop in
    let s := with_routing s (Routing.remove_route_record (routing (the_nib s)) (NwkFrame.destination h)).2 in
    Ok (if bool_decide (Neighbors.sleepy_child_eui64 (neighbors (the_nib s)) next_hop = None) then note_delivery_failure s else s).

(** ** Carrying out the table's actions *)
Definition run_action (s : t) (a : Action Frame Slot DeliveryError) : may t :=
  match a with
  | HandedOff slot => Ok (on_slot s slot slot_handed_off)
  | Settled slot result f failed_hop =>
      s ← match failed_hop, f with
          | Some next_hop, FrameNwk nwk_frame _ => handle_unicast_send_failure s nwk_frame next_hop
          | _, _ => Ok s
          end;
      Ok (on_slot s slot (slot_settled result))
  end.

Fixpoint run_send_actions (s : t) (actions : SendActions) : may t :=
  match actions with
  | [] => Ok s
  | a :: actions => s ← run_action s a; run_send_actions s actions
  end.

(** A mutation of the table, committed: its actions are carried out in the state after it. *)
Definition commit_sends (s : t) (r : SendTable * SendActions) : may t := run_send_actions (with_sends s r.1) r.2.

Definition cancel_send (s : t) (id : SendId) : may (bool * t) :=
  '(actions, table) ← Sends.cancel (sends (core s)) id;
  match actions with
  | Some actions => s ← commit_sends s (table, actions); Ok (true, s)
  | None => Ok (false, s)
  end.

(** ** The timer pass *)

(** [resolve_routed_unicast]: the closure [route_unicasts] calls. Its state says whether it panicked. *)
Definition resolve_routed_unicast (n : Nib) (panicked : bool) (f : Frame)
    : bool * Frame * (Nwk * option Ieee802154Address + DeliveryError) :=
  match f with
  | FrameRaw _ => (true, f, inr RouteInactiveAfterDiscovery)
  | FrameNwk nwk_frame sec =>
      match NextHop.resolve (routing n) (neighbors n) nwk_frame (NextHop.RouteMode NextHop.StackDecides) next_hop_policy with
      | Ok (NextHop.Resolved next_hop, f') => (panicked, FrameNwk f' sec, inl (next_hop, poll_address n next_hop))
      | Ok (_, f') => (panicked, FrameNwk f' sec, inr RouteInactiveAfterDiscovery)
      | _ => (true, f, inr RouteInactiveAfterDiscovery)
      end
  end.

Definition passive_ack_quorum_heard (n : Nib) (key : Nwk * Z) : bool :=
  NwkBroadcasts.passively_acked (broadcasts n) key.1 key.2 (Neighbors.expected_broadcast_relayers (neighbors n))
    (Z.to_nat (Tunables.load (tunables e) broadcast_passive_ack_quorum)).

(** The first loop of [drive_sends]: broadcasts whose quorum was heard. *)
Fixpoint settle_quorums (s : t) (keys : list (Nwk * Z)) : may (t * SendActions) :=
  match keys with
  | [] => Ok (s, [])
  | key :: keys =>
      '(s, a) ← (if passive_ack_quorum_heard (the_nib s) key then
                   '(table, a) ← Sends.broadcast_delivered (sends (core s)) key;
                   Ok (with_sends s table, a)
                 else Ok (s, []));
      '(s, b) ← settle_quorums s keys;
      Ok (s, a ++ b)
  end.

(** The body of the second loop: sends waiting for a route to [dest]. *)
Definition drive_unrouted (s : t) (dest : Nwk) : may (t * SendActions) :=
  if bool_decide (Routing.route_status (routing (the_nib s)) dest = Some Routing.Active) then
    '(panicked, table, a) ← Sends.route_unicasts (resolve_routed_unicast (the_nib s)) (sends (core s)) dest (now e) (tunables e) false;
    if panicked : bool then Panic else Ok (with_sends s table, a)
  else if bool_decide (Routing.discovery_deadline (routing (the_nib s)) dest (now e) = None) then
    '(retry, table) ← Sends.retry_discovery (sends (core s)) dest;
    let s := with_sends s table in
    if retry : bool then s ← start_route_discovery s dest; Ok (s, [])
    else
      let s := with_routing s (Routing.mark_discovery_failed (routing (the_nib s)) dest) in
      '(table, a) ← Sends.fail_unrouted (sends (core s)) dest;
      Ok (with_sends s table, a)
  else Ok (s, []).

Fixpoint drive_each (s : t) (dests : list Nwk) : may (t * SendActions) :=
  match dests with
  | [] => Ok (s, [])
  | dest :: dests => '(s, a) ← drive_unrouted s dest; '(s, b) ← drive_each s dests; Ok (s, a ++ b)
  end.

(** [drive_sends]: the instant of the next pass, if any. *)
Definition drive_sends (s : t) : may (option Instant * t) :=
  '(s, a) ← settle_quorums s (Sends.broadcasts_awaiting_quorum (sends (core s)));
  '(s, b) ← drive_each s (Sends.unrouted_destinations (sends (core s)));
  '(table, c) ← Sends.tick (sends (core s)) (now e);
  let s := with_sends s table in
  let discoveries := omap (fun dest => Routing.discovery_deadline (routing (the_nib s)) dest (now e))
                          (Sends.unrouted_destinations (sends (core s))) in
  let next_wake := min_instant (option_list (Sends.next_wake (sends (core s))) ++ discoveries) in
  s ← run_send_actions s (a ++ b ++ c);
  Ok (next_wake, s).

(** ** Broadcasts *)
Definition fan_out_copy (s : t) (f : NwkFrame.t) (sec : NwkSecurityMode) (copy_of : option SendId) (child : Eui64 * Nwk) : may t :=
  let '(slot, s) := new_slot s in
  let unicast := Unicasts.mkUnicast (FrameNwk f sec) UserNormal slot OnHandoff child.2 (Some (AddrEui64 child.1)) in
  '(_, table) ← match copy_of with
                | Some broadcast => Sends.enqueue_broadcast_copy (sends (core s)) broadcast unicast (now e) (tunables e)
                | None => Sends.enqueue_unicast (sends (core s)) unicast (now e) (tunables e)
                end;
  Ok (with_sends s table).

Fixpoint fan_out_copies (s : t) (f : NwkFrame.t) (sec : NwkSecurityMode) (copy_of : option SendId) (children : list (Eui64 * Nwk))
    : may t :=
  match children with
  | [] => Ok s
  | child :: children => s ← fan_out_copy s f sec copy_of child; fan_out_copies s f sec copy_of children
  end.

Definition maybe_fan_out_broadcast_to_sleepy_children (s : t) (f : NwkFrame.t) (sec : NwkSecurityMode) (copy_of : option SendId) : may t :=
  if negb (NwkFrame.destination (NwkFrame.nwk_header f) =? NwkFrame.BROADCAST_ALL_DEVICES) then Ok s
  else
    fan_out_copies s f sec copy_of
      (filter (fun child => child.2 <> NwkFrame.source (NwkFrame.nwk_header f)) (Neighbors.sleepy_children (neighbors (the_nib s)))).

Definition broadcast_copies : may Z := unwrap (checked_add u8_max (Tunables.load (tunables e) max_broadcast_retries) 1).

Definition send_broadcast (s : t) (send : Broadcast) : enqueued Handle :=
  '(admission, budget) ← Budget.take (broadcast_budget s) (class (b_policy send)) (now e)
    (Tunables.load (tunables e) broadcast_budget_tokens) (Tunables.load (tunables e) broadcast_token_refill)
    (Tunables.load (tunables e) broadcast_critical_reserve) (Tunables.load (tunables e) broadcast_forwarding_reserve);
  let s := set_broadcast_budget s budget in
  match admission with
  | Budget.Defer retry_in => Ok (inr (RateLimited retry_in), s)
  | Budget.Admit =>
      let '(sequence_number, s) := next_nwk_sequence_number s in
      let f := NwkFrame.with_sequence_number (b_frame send) sequence_number in
      let key := (NwkFrame.source (NwkFrame.nwk_header f), sequence_number) in
      let s := with_broadcasts s (NwkBroadcasts.record_transmission (broadcasts (the_nib s)) key.1 key.2
                 (Neighbors.expected_broadcast_relayers (neighbors (the_nib s))) (now e)
                 (Tunables.load (tunables e) broadcast_delivery_time)) in
      copies ← broadcast_copies;
      '(handle, s) ← enqueue_broadcast s (FrameNwk f (b_security send)) (b_policy send)
        (BroadcastSends.PassiveAck key copies (now e));
      s ← maybe_fan_out_broadcast_to_sleepy_children s f (b_security send) (Some handle.1);
      Ok (inl handle, s)
  end.

Definition send_oneshot_broadcast (s : t) (send : Broadcast) : may (Handle * t) :=
  let '(sequence_number, s) := next_nwk_sequence_number s in
  enqueue_broadcast s (FrameNwk (NwkFrame.with_sequence_number (b_frame send) sequence_number) (b_security send)) (b_policy send)
    BroadcastSends.Once.

(** ** Transmitting *)
Section Transmit.
Context `{!AbstractBits NwkFrame.NwkFrameControl, !AbstractBits NwkFrame.NwkSourceRoute,
          !AbstractBits NwkFrame.NwkSecurityHeaderControlField}.
Context `{!NwkCommands.CommandCodecs, !Ccm}.

Definition apply_nwk_aux_header (s : t) (f : NwkFrame.t) (sec : NwkSecurityMode) : NwkFrame.t :=
  match sec with
  | WithoutSecurity => f
  | WithNetworkKey =>
      NwkFrame.mk (NwkFrame.nwk_header f)
        (Some (NwkFrame.mkAuxHeader (NwkFrame.mkSecurityControl NwkFrame.NoSecurity NwkFrame.NetworkKey true false) 0
                 (Some (ieee_address (config e))) (NwkSecurity.active_key_seq_number (nwk_security (the_nib s)))))
        (NwkFrame.payload f)
  end.

Definition set_frame_counter (a : NwkFrame.NwkAuxHeader) (counter : Z) : NwkFrame.NwkAuxHeader :=
  NwkFrame.mkAuxHeader (NwkFrame.security_control a) counter (NwkFrame.extended_source a) (NwkFrame.key_sequence_number a).

(** The frame, with the counter written into it, and its encryption. *)
Definition encrypt_nwk_frame (s : t) (f : NwkFrame.t) (sec : NwkSecurityMode) : may (NwkFrame.EncryptedNwkFrame * NwkFrame.t * t) :=
  match sec with
  | WithNetworkKey =>
      aux ← unwrap (NwkFrame.aux_header f);
      '(counter, s) ← next_nwk_frame_counter s;
      let f := NwkFrame.mk (NwkFrame.nwk_header f) (Some (set_frame_counter aux counter)) (NwkFrame.payload f) in
      encrypted ← NwkFrame.encrypt f (NwkSecurity.network_key (nwk_security (the_nib s)));
      Ok (encrypted, f, s)
  | WithoutSecurity =>
      bs ← NwkFrame.payload_to_bytes (NwkFrame.payload f);
      Ok (NwkFrame.mkEncrypted (NwkFrame.nwk_header f) None bs, f, s)
  end.

Definition increment_tx_total (s : t) : t :=
  let tx_total := wrapping_add u16_max (tx_total (the_nib s)) 1 in
  let s := on_nib s (fun n => set_tx_total n tx_total) in
  if tx_total =? 0 then with_neighbors s (Neighbors.reset_transmit_failures (neighbors (the_nib s))) else s.

Definition data_header (s : t) (ack_request frame_pending : bool) (dest : Nwk) : Mac.FrameHeader :=
  Mac.mkFrameHeader
    (Mac.mkFrameControl Mac.TypeData false frame_pending ack_request true false false false Mac.ModeShort Mac.Ieee2003 Mac.ModeShort)
    (Some (ieee802154_sequence_number (mac (core s)))) (Some (pan_id (mac (core s)))) (Some (AddrNwk dest)) None
    (Some (AddrNwk own_address)).

(** [build_unicast_802154_data_frame], around the serialized NWK frame. *)
Definition build_unicast_802154_data_frame (s : t) (next_hop : Nwk) (payload : bytes) (frame_pending : bool) : Mac.Frame bytes :=
  Mac.Data (Mac.mkDataFrame (data_header s true frame_pending next_hop) payload 0).

Definition set_sequence (f : Mac.Frame bytes) (n : Z) : Mac.Frame bytes :=
  let put h := Mac.mkFrameHeader (Mac.frame_control h) (Some n) (Mac.dest_pan_id h) (Mac.dest_address h) (Mac.src_pan_id h) (Mac.src_address h) in
  match f with
  | Mac.Beacon b => Mac.Beacon (Mac.mkBeaconFrame (put (Mac.bf_header b)) (Mac.superframe_specification b) (Mac.gts_specification b)
                      (Mac.pending_address_specification b) (Mac.beacon_payload b) (Mac.bf_fcs b))
  | Mac.Data d => Mac.Data (Mac.mkDataFrame (put (Mac.df_header d)) (Mac.df_payload d) (Mac.df_fcs d))
  | Mac.Ack a => Mac.Ack (Mac.mkAckFrame (put (Mac.af_header a)) (Mac.af_fcs a))
  | Mac.Command c => Mac.Command (Mac.mkCommandFrame (put (Mac.cf_header c)) (Mac.command_payload c) (Mac.cf_fcs c))
  end.

(** The first half of [send_802154_frame]: the frame with its MAC sequence number. *)
Definition assign_mac_sequence (s : t) (f : Mac.Frame bytes) : Mac.Frame bytes * t :=
  if Mac.sequence_number_suppression (Mac.frame_control (Mac.header f)) then (f, s)
  else
    let n := wrapping_add u8_max (ieee802154_sequence_number (mac (core s))) 1 in
    (set_sequence f n, with_mac_sequence s n).

(** Its second half: the verdict on what the radio answered. *)
Definition transmit_verdict (f : Mac.Frame bytes) (answer : TxResult + RadioError) : verdict DeliveryError :=
  if hack_disable_tx (config e) then inl tt
  else
    match answer with
    | inl Acked => inl tt
    | inl NoAck => match Mac.dest_address (Mac.header f) with Some next_hop => inr (NwkNoAck next_hop) | None => inl tt end
    | inl ChannelAccessFailure => inr CcaFailure
    | inl other => inr (TransmitFailed other)
    | inr error => inr (Radio error)
    end.

(** [transmit_unicast] up to the radio: the frame on the air, and the NWK frame as it was secured. *)
Definition start_unicast (s : t) (f : NwkFrame.t) (next_hop : Nwk) (sec : NwkSecurityMode) (frame_pending : bool)
    : may (Mac.Frame bytes * NwkFrame.t * t) :=
  '(encrypted, f, s) ← encrypt_nwk_frame s (apply_nwk_aux_header s f sec) sec;
  bs ← NwkFrame.to_bytes encrypted;
  let on_air := build_unicast_802154_data_frame s next_hop bs frame_pending in
  let s := match AddressMap.eui64_for (address_map (the_nib s)) next_hop with
           | Some relaying_ieee => with_neighbors s (Neighbors.record_outbound_activity (neighbors (the_nib s)) relaying_ieee)
           | None => s
           end in
  let s := with_routing s (Routing.record_usage (routing (the_nib s)) (NwkFrame.destination (NwkFrame.nwk_header f))) in
  let '(on_air, s) := assign_mac_sequence (increment_tx_total s) on_air in
  Ok (on_air, f, s).

(** [transmit_unicast] after the radio answered. *)
Definition finish_unicast (s : t) (next_hop : Nwk) (result : verdict DeliveryError) : t :=
  match result with
  | inr (NwkNoAck _) =>
      match AddressMap.eui64_for (address_map (the_nib s)) next_hop with
      | Some next_hop_eui64 => with_neighbors s (Neighbors.record_transmit_failure (neighbors (the_nib s)) next_hop_eui64)
      | None => s
      end
  | _ => s
  end.

Definition start_broadcast (s : t) (f : NwkFrame.t) (sec : NwkSecurityMode) : may (Mac.Frame bytes * NwkFrame.t * t) :=
  '(encrypted, f, s) ← encrypt_nwk_frame s (apply_nwk_aux_header s f sec) sec;
  bs ← NwkFrame.to_bytes encrypted;
  let on_air := Mac.Data (Mac.mkDataFrame (data_header s false false 0xFFFF) bs 0) in
  let '(on_air, s) := assign_mac_sequence (increment_tx_total s) on_air in
  Ok (on_air, f, s).

Definition set_frame_pending (f : Mac.Frame bytes) (pending : bool) : Mac.Frame bytes :=
  let put h :=
    let fc := Mac.frame_control h in
    Mac.mkFrameHeader
      (Mac.mkFrameControl (Mac.frame_type fc) (Mac.security_enabled fc) pending (Mac.ack_request fc) (Mac.pan_id_compression fc)
         (Mac.reserved1 fc) (Mac.sequence_number_suppression fc) (Mac.information_elements_present fc) (Mac.dest_addr_mode fc)
         (Mac.frame_version fc) (Mac.src_addr_mode fc))
      (Mac.sequence_number h) (Mac.dest_pan_id h) (Mac.dest_address h) (Mac.src_pan_id h) (Mac.src_address h) in
  match f with
  | Mac.Beacon b => Mac.Beacon (Mac.mkBeaconFrame (put (Mac.bf_header b)) (Mac.superframe_specification b) (Mac.gts_specification b)
                      (Mac.pending_address_specification b) (Mac.beacon_payload b) (Mac.bf_fcs b))
  | Mac.Data d => Mac.Data (Mac.mkDataFrame (put (Mac.df_header d)) (Mac.df_payload d) (Mac.df_fcs d))
  | Mac.Ack a => Mac.Ack (Mac.mkAckFrame (put (Mac.af_header a)) (Mac.af_fcs a))
  | Mac.Command c => Mac.Command (Mac.mkCommandFrame (put (Mac.cf_header c)) (Mac.command_payload c) (Mac.cf_fcs c))
  end.

(** [transmit] up to the radio: the frame on the air, and the loaned frame as it is handed back. *)
Definition start_transmit (s : t) (f : Frame) (transmit : Transmit) : may (Mac.Frame bytes * Frame * t) :=
  match transmit, f with
  | TxUnicast next_hop frame_pending, FrameNwk nwk_frame sec =>
      '(on_air, nwk_frame, s) ← start_unicast s nwk_frame next_hop sec frame_pending;
      Ok (on_air, FrameNwk nwk_frame sec, s)
  | TxUnicast _ frame_pending, FrameRaw raw =>
      let '(raw, s) := assign_mac_sequence s (set_frame_pending raw frame_pending) in Ok (raw, FrameRaw raw, s)
  | TxBroadcast, FrameNwk nwk_frame sec =>
      '(on_air, nwk_frame, s) ← start_broadcast s nwk_frame sec;
      Ok (on_air, FrameNwk nwk_frame sec, s)
  | TxBroadcast, FrameRaw raw =>
      let '(raw, s) := assign_mac_sequence s raw in Ok (raw, FrameRaw raw, s)
  end.

(** The sender task up to its await: the loan, now being transmitted, and the frame on the air. *)
Definition sender_start (s : t) : may (option (InFlight Frame * Mac.Frame bytes) * t) :=
  '(loan, table) ← Sends.dequeue (sends (core s)) (now e);
  let s := with_sends s table in
  match loan with
  | None => Ok (None, s)
  | Some in_flight =>
      '(on_air, f, s) ← start_transmit s (in_flight_frame in_flight) (in_flight_transmit in_flight);
      Ok (Some (mkInFlight (in_flight_id in_flight) f (in_flight_transmit in_flight), on_air), s)
  end.

(** The sender task after it: the radio answered. *)
Definition sender_finish (s : t) (in_flight : InFlight Frame) (on_air : Mac.Frame bytes) (answer : TxResult + RadioError) : may t :=
  let result := transmit_verdict on_air answer in
  let s := match in_flight_transmit in_flight, in_flight_frame in_flight with
           | TxUnicast next_hop _, FrameNwk _ _ => finish_unicast s next_hop result
           | _, _ => s
           end in
  let retry_delay := Tunables.load (tunables e) unicast_retry_delay + retry_jitter e in
  let passive_ack_interval := Tunables.load (tunables e) passive_ack_timeout + passive_ack_jitter e in
  r ← Sends.transmitted (sends (core s)) in_flight result (now e) retry_delay passive_ack_interval;
  commit_sends s r.
End Transmit.
End Ops.
End StackSend.
