(* ===== verification/StackNwk.v ===== *)
(** * The NWK handlers: [zigbee_stack/nwk.rs], [route.rs], [neighbor.rs], and their part of [joining.rs] and [indirect.rs]

    What the stack does with a NWK frame once it is authenticated. *)

From S2P Require Import Prelude Flat Types Constants AbstractBits Mac Neighbors Routing NwkBroadcasts NwkSecurity Addresses Budget.
From S2P Require Import SendTypes Unicasts Unrouted BroadcastSends Sends Crypto NwkCommands NwkFrame Receive NextHop ApsFrame ApsSecurity.
From S2P Require Import Stack StackSend.

Module StackNwk.
Import Stack StackSend.
Import (notations) NwkCommands.

Section Handlers.
Context (e : Env).
Notation own := (own_address e).

(** ** Children and addresses *)
Definition drop_indirect_transactions (s : t) (eui64 : option Eui64) (nwk : Nwk) : may t :=
  r ← Sends.drop_indirect_unicasts (sends (core s)) eui64 nwk;
  commit_sends e s r.

Definition cleanup_moved_child (s : t) (eui64 : Eui64) (nwk : Nwk) : may t :=
  s ← drop_indirect_transactions s (Some eui64) nwk;
  Ok (with_routing s (Routing.remove_route (routing (the_nib s)) nwk).2).

Definition forget_moved_child (s : t) (eui64 : Eui64) : may t :=
  let '(removed, neighbors) := Neighbors.take_child (neighbors (the_nib s)) eui64 in
  let s := with_neighbors s neighbors in
  match removed with
  | Some nwk => cleanup_moved_child s eui64 nwk
  | None => Ok s
  end.

Definition send_rejoin_response (s : t) (dest : Nwk) (dest_ieee : Eui64) (assigned : Nwk)
    (status : NwkCommands.Nwk802154AssociationStatus) (secured : bool) : may t :=
  let response := NwkFrame.with_destination_ieee
    (NwkFrame.with_radius
       (nwk_command_frame e dest (NwkCommands.RejoinResponse (NwkCommands.mkRejoinResponse assigned status))) 1)
    (Some dest_ieee) in
  send_unicast_detached e s
    (mkUnicast (if secured then response else NwkFrame.unsecured response)
       (if secured then WithNetworkKey else WithoutSecurity) NextHop.Direct STACK_CRITICAL OnHandoff).

Definition allocate_network_address (s : t) (eui64 : Eui64) : may Nwk :=
  AddressMap.allocate (address_map (the_nib s)) eui64 (neighbors (the_nib s)) (candidate_addresses e).

Definition reassign_child_address (s : t) (eui64 : Eui64) (old_address : Nwk) : may t :=
  new_address ← AddressMap.generate_unused (address_map (the_nib s)) (neighbors (the_nib s)) (candidate_addresses e);
  send_rejoin_response s old_address eui64 new_address NwkCommands.AssociationSuccessful true.

Definition handle_address_conflict (s : t) (address : Nwk) (source : AddrConflictSource) : may t :=
  let window := Tunables.load (tunables e) broadcast_delivery_time in
  let from_network := bool_decide (source = Network) in
  let recent c := now e <? Instant.add (handled_at c) window in
  if match FlatMap.get (address_conflicts s) address with Some c => recent c | None => false end then
    Ok (set_address_conflicts s (FlatMap.modify (address_conflicts s) address
          (fun c => mkConflict (handled_at c) (heard_from_network c || from_network) (report_at c))))
  else
    let kept := FlatMap.retain (fun _ c => now e <? Instant.add (handled_at c) (2 * window)) (address_conflicts s) in
    let conflict := mkConflict (now e) from_network
      (if from_network then None else Some (Instant.add (now e) (conflict_jitter e))) in
    let s := set_address_conflicts s (FlatMap.insert kept address conflict).2 in
    if address =? own then Ok s
    else
      match Neighbors.end_device_child_eui64 (neighbors (the_nib s)) address with
      | Some child_eui64 => reassign_child_address s child_eui64 address
      | None =>
          let s := with_address_map s (AddressMap.forget_address (address_map (the_nib s)) address) in
          Ok (with_routing s (Routing.remove_route (routing (the_nib s)) address).2)
      end.

Definition update_nwk_eui64_mapping (s : t) (nwk : Nwk) (eui64 : Eui64) : may t :=
  let '(conflict, m) := AddressMap.update_mapping (address_map (the_nib s)) eui64 nwk in
  let s := with_address_map s m in
  if conflict then handle_address_conflict s nwk Local else Ok s.

(** ** The report reactor *)
Definition is_due (c : AddressConflict) : bool := match report_at c with Some at_ => at_ <=? now e | None => false end.

Fixpoint broadcast_reports (s : t) (addresses : list Nwk) : may t :=
  match addresses with
  | [] => Ok s
  | address :: addresses =>
      '(_, s) ← send_broadcast e s
        (mkBroadcast (nwk_command_frame e NwkFrame.BROADCAST_RX_ON_WHEN_IDLE
                        (NwkCommands.NetworkStatus (NwkCommands.mkNetworkStatus NwkCommands.AddressConflict address)))
           WithNetworkKey (mkPolicy UserNormal Budget.Critical));
      broadcast_reports s addresses
  end.

Definition drive_conflict_reports (s : t) : may t :=
  let due := omap (fun x => if is_due x.2 && negb (heard_from_network x.2) then Some x.1 else None)
                  (FlatMap.entries (address_conflicts s)) in
  let s := set_address_conflicts s (FlatMap.iter_mut (fun _ c =>
             if is_due c then mkConflict (handled_at c) (heard_from_network c) None else c) (address_conflicts s)) in
  broadcast_reports s due.

(** When the reactor is due next. *)
Definition earliest_conflict_report (s : t) : option Instant := min_instant (omap report_at (FlatMap.values (address_conflicts s))).

(** ** Broadcasts *)
Definition filter_broadcast (s : t) (f : NwkFrame.t) (sender_nwk : Nwk) : bool * t :=
  let delivery_time := Tunables.load (tunables e) broadcast_delivery_time in
  if negb (hack_ignore_broadcast_startup_wait_period (config e)) && (now e <? Instant.add (Instant.from_micros 0) delivery_time)
  then (true, s)
  else
    let h := NwkFrame.nwk_header f in
    let '(duplicate, b) := NwkBroadcasts.filter_received (broadcasts (the_nib s)) (NwkFrame.source h) (NwkFrame.sequence_number h)
      sender_nwk (Neighbors.expected_broadcast_relayers (neighbors (the_nib s))) (now e) delivery_time in
    (duplicate, with_broadcasts s b).

Definition maybe_relay_broadcast (s : t) (f : NwkFrame.t) : may t :=
  let h := NwkFrame.nwk_header f in
  if negb (bool_decide (NwkFrame.frame_type (NwkFrame.frame_control h) = NwkFrame.TypeData)) then Ok s
  else if NwkFrame.source h =? own then Ok s
  else
    let f := NwkFrame.set_header f (NextHop.clear_end_device_initiator_for_relay (neighbors (the_nib s)) h).2 in
    s ← maybe_fan_out_broadcast_to_sleepy_children e s f WithNetworkKey None;
    let f := NwkFrame.with_radius f (saturating_sub (NwkFrame.radius (NwkFrame.nwk_header f)) 1) in
    if NwkFrame.radius (NwkFrame.nwk_header f) =? 0 then Ok s
    else
      copies ← broadcast_copies e;
      '(_, s) ← enqueue_broadcast e s (FrameNwk f WithNetworkKey) (mkPolicy UserNormal Budget.Forwarding)
        (BroadcastSends.PassiveAck (NwkFrame.source h, NwkFrame.sequence_number h) copies (Instant.add (now e) (relay_jitter e)));
      Ok s.

(** ** Neighbors *)
Definition maybe_recompute_lqa (s : t) (sender_nwk : Nwk) (lqi : Z) : may t :=
  n ← Neighbors.record_lqa (neighbors (the_nib s)) sender_nwk lqi;
  Ok (with_neighbors s n).

Definition maybe_age_neighbors (s : t) : t :=
  let max_age := Tunables.load (tunables e) router_age_limit * Tunables.load (tunables e) link_status_period in
  let '(stale, n) := Neighbors.age (neighbors (the_nib s)) (now e) max_age in
  fold_left invalidate_routes_via stale (with_neighbors s n).

Definition handle_link_status (s : t) (f : NwkFrame.t) (cmd : Neighbors.NwkLinkStatusCommand) (lqi : Z) : may t :=
  let s := maybe_age_neighbors s in
  let h := NwkFrame.nwk_header f in
  match NwkFrame.source_ieee h with
  | None => Ok s
  | Some source_ieee =>
      '(lost_link, n) ← Neighbors.on_link_status (neighbors (the_nib s)) own source_ieee (NwkFrame.source h) lqi cmd (now e);
      let s := with_neighbors s n in
      Ok (match lost_link with Some nwk => invalidate_routes_via s nwk | None => s end)
  end.

(** ** Our own link status *)
Definition MAX_LINK_STATUSES : nat := 7.

Definition sort_by_address (ls : list Neighbors.NwkLinkStatus) : list Neighbors.NwkLinkStatus :=
  sort_by_key Neighbors.ls_address ls.

(** The loop's frames: consecutive ones share an entry. The fuel is one more than the entries left. *)
Fixpoint link_status_chunks (fuel : nat) (ls : list Neighbors.NwkLinkStatus) (start : nat) : option (list Neighbors.NwkLinkStatusCommand) :=
  match fuel with
  | O => None
  | S fuel =>
      let total := length ls in
      let stop := Nat.min (start + MAX_LINK_STATUSES) total in
      let cmd := Neighbors.mkLinkStatusCommand (start =? 0)%nat (stop =? total)%nat (take (stop - start) (drop start ls)) in
      if (stop =? total)%nat then Some [cmd] else cons cmd <$> link_status_chunks fuel ls (stop - 1)
  end.

(** The batch; the handle is that of its last frame. *)
Fixpoint send_link_statuses (s : t) (cmds : list Neighbors.NwkLinkStatusCommand) (last : option Handle) : may (option Handle * t) :=
  match cmds with
  | [] => Ok (last, s)
  | cmd :: cmds =>
      '(handle, s) ← send_oneshot_broadcast e s
        (mkBroadcast (NwkFrame.with_radius
                        (nwk_command_frame e Routing.BROADCAST_ALL_ROUTERS_AND_COORDINATOR (NwkCommands.LinkStatus cmd)) 1)
           WithNetworkKey (mkPolicy Background Budget.Critical));
      send_link_statuses s cmds (Some handle)
  end.

Definition send_link_status_broadcast (s : t) (empty : bool) : enqueued Handle :=
  if own =? 0xFFFF then Ok (inr NotStarted, s)
  else
    let s := with_routing s (Routing.decay_activity (routing (the_nib s))) in
    let s := maybe_age_neighbors s in
    let s := with_neighbors s (Neighbors.decay_activity (neighbors (the_nib s))) in
    let ls := sort_by_address (if empty then [] else Neighbors.link_status_entries (neighbors (the_nib s))) in
    cmds ← unwrap (link_status_chunks (S (length ls)) ls 0);
    '(handle, s) ← send_link_statuses s cmds None;
    handle ← unwrap handle;
    Ok (inl handle, s).

(** ** Routes *)
Definition direct (f : NwkFrame.t) : Unicast := mkUnicast f WithNetworkKey NextHop.Direct STACK_CRITICAL OnHandoff.

Definition handle_route_reply (s : t) (f : NwkFrame.t) (cmd : NwkCommands.NwkRouteReplyCommand) : may t :=
  let h := NwkFrame.nwk_header f in
  match Neighbors.link (neighbors (the_nib s)) (NwkFrame.source h) with
  | None => Ok s
  | Some sender_link =>
      if Neighbors.l_outgoing_cost sender_link =? 0 then Ok s
      else
        let '(outcome, r) := Routing.accept_route_reply (routing (the_nib s)) own (NwkCommands.originator_nwk cmd)
          (NwkCommands.rrep_route_request_identifier cmd) (NwkCommands.responder_nwk cmd) (NwkFrame.source h)
          (NwkCommands.rrep_path_cost cmd) in
        let s := with_routing s r in
        match Routing.rp_disposition outcome with
        | Routing.Drop | Routing.Established => Ok s
        | Routing.Relay next_hop path_cost =>
            match Neighbors.link (neighbors (the_nib s)) next_hop with
            | None => Ok s
            | Some link =>
                let cost := saturating_add u8_max path_cost (Z.max (Neighbors.l_incoming_cost link) (Neighbors.l_outgoing_cost link)) in
                let reply := NwkFrame.with_destination_ieee
                  (NwkFrame.with_radius
                     (nwk_command_frame e next_hop (NwkCommands.RouteReply
                        (NwkCommands.mkRouteReply (NwkCommands.rrep_route_request_identifier cmd) (NwkCommands.originator_nwk cmd)
                           (NwkCommands.responder_nwk cmd) cost (NwkCommands.originator_eui64 cmd) (NwkCommands.responder_eui64 cmd))))
                     (Z.max (saturating_sub (NwkFrame.radius h) 1) 1))
                  (Some (Neighbors.l_eui64 link)) in
                send_unicast_detached e s (direct reply)
            end
        end
  end.

(** Who answers a route request: us, or one of our end device children through us. *)
Definition route_responder (s : t) (cmd : NwkCommands.NwkRouteRequestCommand) : option Eui64 :=
  if negb (bool_decide (NwkCommands.many_to_one cmd = Routing.NotManyToOne)) then None
  else if (NwkCommands.rreq_destination_address cmd =? own)
          || bool_decide (NwkCommands.destination_eui64 cmd = Some (ieee_address (config e)))
  then Some (ieee_address (config e))
  else Neighbors.end_device_child_eui64 (neighbors (the_nib s)) (NwkCommands.rreq_destination_address cmd).

(** The relay of a route request nobody here answers. *)
Definition relay_route_request (s : t) (h : NwkFrame.NwkHeader) (cmd : NwkCommands.NwkRouteRequestCommand) (cost : Z) : may t :=
  let s :=
    if bool_decide (NwkCommands.many_to_one cmd = Routing.NotManyToOne)
    then with_routing s (Routing.note_relayed_discovery (routing (the_nib s)) (NwkCommands.rreq_destination_address cmd))
    else s in
  let radius := saturating_sub (NwkFrame.radius h) 1 in
  if radius =? 0 then Ok s
  else
    let relayed :=
      NwkFrame.with_sequence_number
        (NwkFrame.with_radius
           (NwkFrame.with_source_ieee
              (NwkFrame.with_source
                 (nwk_command_frame e (NwkFrame.destination h) (NwkCommands.RouteRequest
                    (NwkCommands.mkRouteRequest (NwkCommands.many_to_one cmd) (NwkCommands.rreq_route_request_identifier cmd)
                       (NwkCommands.rreq_destination_address cmd) cost (NwkCommands.destination_eui64 cmd))))
                 (NwkFrame.source h))
              (NwkFrame.source_ieee h))
           radius)
        (NwkFrame.sequence_number h) in
    attempts ← unwrap (checked_add u8_max (Tunables.load (tunables e) rreq_retries) 1);
    broadcast_route_request e s relayed attempts (rreq_jitter e).

Definition handle_route_request (s : t) (f : NwkFrame.t) (cmd : NwkCommands.NwkRouteRequestCommand) (sender_nwk : Nwk) : may t :=
  let h := NwkFrame.nwk_header f in
  match Neighbors.link (neighbors (the_nib s)) sender_nwk with
  | None => Ok s
  | Some sender_link =>
      if Neighbors.l_outgoing_cost sender_link =? 0 then Ok s
      else
        let contributing := Z.max (Neighbors.l_outgoing_cost sender_link) (Neighbors.l_incoming_cost sender_link) in
        let cost := saturating_add u8_max (NwkCommands.rreq_path_cost cmd) contributing in
        let '(outcome, r) := Routing.accept_route_request (routing (the_nib s)) (NwkFrame.source h)
          (NwkCommands.rreq_route_request_identifier cmd) (NwkCommands.rreq_destination_address cmd) sender_nwk cost
          (NwkCommands.many_to_one cmd) (now e) (Tunables.load (tunables e) route_discovery_time) in
        let s := with_routing s r in
        if negb (Routing.rq_accepted outcome) then Ok s
        else
          match route_responder s cmd with
          | Some responder =>
              let reply := NwkFrame.with_destination_ieee
                (nwk_command_frame e sender_nwk (NwkCommands.RouteReply
                   (NwkCommands.mkRouteReply (NwkCommands.rreq_route_request_identifier cmd) (NwkFrame.source h)
                      (NwkCommands.rreq_destination_address cmd) contributing (NwkFrame.source_ieee h) (Some responder))))
                (Some (Neighbors.l_eui64 sender_link)) in
              send_unicast_detached e s (direct reply)
          | None => relay_route_request s h cmd cost
          end
  end.

Definition send_many_to_one_route_request (s : t) : may (Handle * t) :=
  let '(request_id, r) := Routing.begin_many_to_one_advertisement (routing (the_nib s)) own (now e)
    (Tunables.load (tunables e) route_discovery_time) in
  send_oneshot_broadcast e (with_routing s r)
    (mkBroadcast
       (NwkFrame.with_radius
          (nwk_command_frame e Routing.BROADCAST_ALL_ROUTERS_AND_COORDINATOR (NwkCommands.RouteRequest
             (NwkCommands.mkRouteRequest Routing.ManyToOneSenderSupportsRouteRecordTable request_id
                Routing.BROADCAST_ALL_ROUTERS_AND_COORDINATOR 0 None)))
          (Tunables.load (tunables e) concentrator_radius))
       WithNetworkKey (mkPolicy Background Budget.Critical)).

Definition handle_network_status (s : t) (cmd : NwkCommands.NwkNetworkStatusCommand) : may t :=
  let nwk := NwkCommands.ns_network_address cmd in
  let drop_route s := with_routing s (Routing.remove_route (routing (the_nib s)) nwk).2 in
  match NwkCommands.status_code cmd with
  | NwkCommands.LegacyNoRouteAvailable | NwkCommands.LegacyLinkFailure | NwkCommands.LinkFailure =>
      Ok (note_route_error e (drop_route s))
  | NwkCommands.SourceRouteFailure =>
      let s := drop_route s in
      Ok (note_route_error e (with_routing s (Routing.remove_route_record (routing (the_nib s)) nwk).2))
  | NwkCommands.ManyToOneRouteFailure => Ok (note_route_error e s)
  | NwkCommands.AddressConflict => handle_address_conflict s nwk Network
  | _ => Ok s
  end.

Definition handle_route_record (s : t) (source : Nwk) (relays : list Nwk) : t :=
  let '(changed, r) := Routing.store_route_record (routing (the_nib s)) source relays in
  let s := with_routing s r in
  if changed then push_notification s (RouteRecordUpdate source relays) else s.

(** ** Joining and leaving *)
Definition may_rejoin_unsecured (s : t) (eui64 : Eui64) : bool :=
  negb (Tunables.load (tunables e) allow_unsecured_rejoins =? 0)
  || ApsSecurity.has_unique_link_key (aps_security (aib (core s))) eui64.

Definition announce_join (s : t) (nwk : Nwk) (eui64 : Eui64) : t :=
  let '(device_type, rx_on_when_idle) := device_join_capability s eui64 in
  push_notification s (DeviceJoined nwk eui64 own device_type rx_on_when_idle).

(** The keepalive timeout a child starts with. *)
Definition child_timeout (device_type : Neighbors.NwkDeviceType) : may Duration :=
  if bool_decide (device_type = Neighbors.EndDevice) then
    t ← unwrap (EndDeviceTimeout.try_from (Tunables.load (tunables e) end_device_timeout_default));
    Ok (EndDeviceTimeout.duration t)
  else Ok Neighbors.forever.

Definition at_child_capacity (s : t) : bool :=
  Tunables.load (tunables e) max_children <=? Z.of_nat (Neighbors.end_device_child_count (neighbors (the_nib s))).

Definition handle_rejoin_request (s : t) (f : NwkFrame.t) (cmd : NwkCommands.NwkRejoinRequestCommand) (secured : bool) : may t :=
  let h := NwkFrame.nwk_header f in
  match NwkFrame.source_ieee h with
  | None => Ok s
  | Some source_ieee =>
      let requested := NwkFrame.source h in
      let capability := NwkCommands.capability_information cmd in
      let device_type := match NwkCommands.device_type capability with
                         | NwkCommands.RejoinRouter => Neighbors.Router
                         | NwkCommands.RejoinEndDevice => Neighbors.EndDevice
                         end in
      if bool_decide (device_type = Neighbors.EndDevice) && negb (Neighbors.contains (neighbors (the_nib s)) source_ieee)
         && at_child_capacity s
      then send_rejoin_response s requested source_ieee 0xFFFF NwkCommands.PanAtCapacity secured
      else
        assigned ← (if AddressMap.claimed_by_other (address_map (the_nib s)) requested source_ieee
                    then allocate_network_address s source_ieee else Ok requested);
        s ← update_nwk_eui64_mapping s assigned source_ieee;
        timeout ← child_timeout device_type;
        let s := with_neighbors s (Neighbors.upsert_child (neighbors (the_nib s))
          (Neighbors.mkChild source_ieee assigned device_type (NwkCommands.receiver_on_when_idle capability) timeout
             (if secured then Neighbors.Child else Neighbors.UnauthenticatedChild)) (now e)) in
        s ← send_rejoin_response s requested source_ieee assigned NwkCommands.AssociationSuccessful secured;
        if negb secured then
          if negb (may_rejoin_unsecured s source_ieee) then Ok s
          else Ok (set_tasklets s (tasklets s ++ [DeliverKeyAndAnnounce assigned source_ieee Rejoin]))
        else Ok (announce_join s assigned source_ieee)
  end.

Definition handle_leave (s : t) (f : NwkFrame.t) (cmd : NwkCommands.NwkLeaveCommand) : may t :=
  let h := NwkFrame.nwk_header f in
  let source := NwkFrame.source h in
  if NwkCommands.request cmd then Ok s
  else
    let source_ieee := match NwkFrame.source_ieee h with
                       | Some ieee => Some ieee
                       | None => AddressMap.eui64_for (address_map (the_nib s)) source
                       end in
    let s := match source_ieee with Some ieee => with_neighbors s (Neighbors.remove (neighbors (the_nib s)) ieee) | None => s end in
    s ← drop_indirect_transactions s source_ieee source;
    let s := with_routing s (Routing.remove_route (routing (the_nib s)) source).2 in
    Ok (push_notification s (DeviceLeft source source_ieee (Announced (NwkCommands.rejoin cmd)))).

Definition send_end_device_timeout_response (s : t) (dest : Nwk) (status : NwkCommands.NwkEndDeviceTimeoutResponseStatus) : may t :=
  let info := parent_information (config e) in
  send_unicast_detached e s (direct (NwkFrame.with_radius
    (nwk_command_frame e dest (NwkCommands.EndDeviceTimeoutResponse
       (NwkCommands.mkTimeoutResponse status (mac_data_poll_keepalive info) (end_device_timeout_request_keepalive info)
          (power_negotiation info)))) 1)).

Definition handle_end_device_timeout_request (s : t) (f : NwkFrame.t) (cmd : NwkCommands.NwkEndDeviceTimeoutRequestCommand) : may t :=
  let source := NwkFrame.source (NwkFrame.nwk_header f) in
  if negb (NwkCommands.end_device_configuration cmd =? 0)
  then send_end_device_timeout_response s source NwkCommands.UnsupportedFeature
  else
    let timeout := EndDeviceTimeout.duration (NwkCommands.request_timeout_enum cmd) in
    let '(updated, n) := Neighbors.set_child_timeout (neighbors (the_nib s)) source timeout
      (NwkCommands.end_device_configuration cmd) (now e) in
    let s := with_neighbors s n in
    if negb updated then Ok s else send_end_device_timeout_response s source NwkCommands.TimeoutSuccess.

Definition handle_unsecured_nwk_frame (s : t) (f : NwkFrame.t) : may t :=
  match NwkFrame.payload f with
  | NwkFrame.Command (NwkCommands.RejoinRequest cmd) => handle_rejoin_request s f cmd false
  | _ => Ok s
  end.

(** ** The handler of an authenticated frame *)
Definition note_relayer_counter (s : t) (f : NwkFrame.t) : t :=
  match NwkFrame.aux_header f with
  | Some aux =>
      match NwkFrame.extended_source aux with
      | Some relaying_eui64 =>
          with_nwk_security s
            (NwkSecurity.note_inbound_frame_counter (nwk_security (the_nib s)) relaying_eui64 (NwkFrame.frame_counter aux)).2
      | None => s
      end
  | None => s
  end.

Definition bypasses_transaction_table (p : NwkFrame.NwkPayload) : bool :=
  match p with
  | NwkFrame.Command (NwkCommands.RouteRequest _ | NwkCommands.LinkStatus _) => true
  | _ => false
  end.

(** The [match] on the NWK command. *)
Definition handle_nwk_command (s : t) (f : NwkFrame.t) (sender_nwk : Nwk) (lqi : Z) : may t :=
  match NwkFrame.payload f with
  | NwkFrame.Opaque _ => Ok s
  | NwkFrame.Command command =>
      match command with
      | NwkCommands.LinkStatus cmd => handle_link_status s f cmd lqi
      | NwkCommands.RouteReply cmd => handle_route_reply s f cmd
      | NwkCommands.RouteRecord cmd =>
          Ok (handle_route_record s (NwkFrame.source (NwkFrame.nwk_header f)) (NwkCommands.rr_relays cmd))
      | NwkCommands.RouteRequest cmd => handle_route_request s f cmd sender_nwk
      | NwkCommands.RejoinRequest cmd => handle_rejoin_request s f cmd true
      | NwkCommands.Leave cmd => handle_leave s f cmd
      | NwkCommands.NetworkStatus cmd => handle_network_status s cmd
      | NwkCommands.EndDeviceTimeoutRequest cmd => handle_end_device_timeout_request s f cmd
      | NwkCommands.Unparsed raw =>
          if bool_decide (head raw = Some (NwkCommands.id_to_u8 NwkCommands.IdEndDeviceTimeoutRequest))
          then send_end_device_timeout_response s (NwkFrame.source (NwkFrame.nwk_header f)) NwkCommands.IncorrectValue
          else Ok s
      | _ => Ok s
      end
  end.

(** The broadcast step: [false] stops the processing. *)
Definition handle_broadcast (s : t) (f : NwkFrame.t) (sender_nwk : Nwk) : may (bool * t) :=
  let h := NwkFrame.nwk_header f in
  let '(filtered, s) := filter_broadcast s f sender_nwk in
  if filtered : bool then Ok (false, s)
  else if NwkFrame.source h =? own then
    s ← (if Instant.add (Instant.from_micros 0) (Tunables.load (tunables e) broadcast_delivery_time) <? now e
         then handle_address_conflict s own Local else Ok s);
    Ok (false, s)
  else s ← maybe_relay_broadcast s f; Ok (true, s).

Definition handle_decrypted_frame (s : t) (f : NwkFrame.t) (sender_nwk : Nwk) (lqi : Z) : may t :=
  let h := NwkFrame.nwk_header f in
  let s := note_relayer_counter s f in
  s ← match NwkFrame.source_ieee h with
      | Some src_eui64 => update_nwk_eui64_mapping s (NwkFrame.source h) src_eui64
      | None => Ok s
      end;
  s ← match NwkFrame.destination_ieee h with
      | Some destination_ieee =>
          if (NwkFrame.destination h =? own) && negb (bool_decide (destination_ieee = ieee_address (config e)))
          then handle_address_conflict s own Local else Ok s
      | None => Ok s
      end;
  let s := maybe_age_neighbors s in
  s ← maybe_recompute_lqa s sender_nwk lqi;
  if (Routing.BROADCAST_ALL_ROUTERS_AND_COORDINATOR <=? NwkFrame.destination h)
     && negb (bypasses_transaction_table (NwkFrame.payload f))
  then
    '(continue, s) ← handle_broadcast s f sender_nwk;
    if continue : bool then handle_nwk_command s f sender_nwk lqi else Ok s
  else handle_nwk_command s f sender_nwk lqi.

(** ** The relay of a unicast in transit: [NextHop.relay_unicast_nwk_frame] and the enqueueing after it *)
Definition relay_view (s : t) : NextHop.node :=
  NextHop.mkNode own (neighbors (the_nib s)) (routing (the_nib s)) (nwk_security (the_nib s)).

Definition relay_frame (s : t) (f : NwkFrame.t) (sender_nwk : Nwk) (lqi : Z) : may t :=
  '(forward, n) ← NextHop.relay_unicast_nwk_frame (relay_view s) f sender_nwk lqi (Tunables.load (tunables e) max_source_route);
  let s := with_nwk_security (with_routing (with_neighbors s (NextHop.n_neighbors n)) (NextHop.n_routing n)) (NextHop.n_security n) in
  match forward with
  | None => Ok s
  | Some (f, next_hop) =>
      '(_, s) ← enqueue_unicast e s (FrameNwk f WithNetworkKey) (mkPolicy UserNormal Budget.Forwarding) OnHandoff next_hop
        (poll_address (the_nib s) next_hop);
      Ok s
  end.

(** ** The receive path *)
Definition receive_view (s : t) : Receive.t :=
  Receive.mk (pan_id (mac (core s))) own (ieee_address (config e)) (hack_disable_tx (config e)) (nwk_security (the_nib s)).

(** [process_gpdf]. *)
Definition process_gpdf (s : t) (d : Mac.DataFrame bytes) (lqi rssi : Z) : t :=
  let h := Mac.df_header d in
  if match Mac.dest_pan_id h with Some p => (p =? pan_id (mac (core s))) || (p =? 0xFFFF) | None => false end then
    match Mac.sequence_number h with
    | None => s
    | Some n =>
        let source_ieee := match Mac.src_address h with Some (AddrEui64 eui64) => Some eui64 | _ => None end in
        push_notification s (ReceivedGpdf n source_ieee lqi rssi (Mac.df_payload d))
    end
  else s.

Section Path.
Context `{!AbstractBits Receive.GpNwkFrameControl, !AbstractBits NwkFrame.NwkFrameControl, !AbstractBits NwkFrame.NwkSourceRoute,
          !AbstractBits NwkFrame.NwkSecurityHeaderControlField}.
Context `{!NwkCommands.CommandCodecs, !Ccm}.

(** [process_802154_data_frame]: the frame that goes on to the APS layer, if any. *)
Definition process_data_frame (s : t) (d : Mac.DataFrame bytes) (lqi rssi : Z) : may (option NwkFrame.t * t) :=
  disposition ← Receive.process_802154_data_frame (receive_view s) d;
  match disposition with
  | Receive.Drop => Ok (None, s)
  | Receive.Gpdf => Ok (None, process_gpdf s d lqi rssi)
  | Receive.Unsecured f => s ← handle_unsecured_nwk_frame s f; Ok (None, s)
  | Receive.Relay f sender_nwk => s ← relay_frame s f sender_nwk lqi; Ok (None, s)
  | Receive.Handle f sender_nwk => s ← handle_decrypted_frame s f sender_nwk lqi; Ok (Some f, s)
  end.
End Path.
End Handlers.
End StackNwk.

(** ** The batch of a link status broadcast

    The loop of [send_link_status_broadcast] cuts the neighbors into frames that share their boundary
    entries; here it ends, and its frames give the list back. *)
Module LinkStatusFacts.
Import Neighbors StackNwk.

(** A receiver joins the frames at the entry that consecutive ones share. *)
Definition shared_tail (cmds : list NwkLinkStatusCommand) : list NwkLinkStatus :=
  mjoin ((fun c => tail (link_statuses c)) <$> cmds).
Definition stitch (cmds : list NwkLinkStatusCommand) : list NwkLinkStatus :=
  match cmds with [] => [] | c :: cmds => link_statuses c ++ shared_tail cmds end.

(** The frames from [start] on: their entries, sizes and markers. *)
Record batch (ls : list NwkLinkStatus) (start : nat) (cmds : list NwkLinkStatusCommand) : Prop := mkBatch {
  ba_entries : stitch cmds = drop start ls;
  ba_bounded : Forall (fun c => length (link_statuses c) <= MAX_LINK_STATUSES)%nat cmds;
  ba_first : is_first_frame <$> cmds = (start =? 0)%nat :: replicate (length cmds - 1) false;
  ba_last : is_last_frame <$> cmds = replicate (length cmds - 1) false ++ [true]
}.

Lemma shared_tail_stitch c cmds : link_statuses c <> [] -> shared_tail (c :: cmds) = tail (stitch (c :: cmds)).
Proof. unfold shared_tail. cbn. by destruct (link_statuses c). Qed.

(** The head of the frames from [start] carries the entry at [start]. *)
Lemma chunks_head fuel ls start c cmds :
  link_status_chunks fuel ls start = Some (c :: cmds) -> (start < length ls)%nat -> link_statuses c <> [].
Proof.
  destruct fuel as [|fuel]; [done|]. cbn [link_status_chunks]. intros Hc Hlt. set (stop := Nat.min _ _) in *.
  assert (link_statuses c = take (stop - start) (drop start ls)) as ->.
  { destruct (stop =? length ls)%nat; [by injection Hc as <- _|]. by apply fmap_Some in Hc as (l & _ & [= -> _]). }
  intros Hnil%(f_equal length). rewrite length_take, length_drop in Hnil. cbn in Hnil. unfold stop, MAX_LINK_STATUSES in Hnil. lia.
Qed.

Lemma chunks_batch ls fuel start :
  (length ls - start < fuel)%nat -> (start <= length ls)%nat -> exists c cmds, link_status_chunks fuel ls start = Some (c :: cmds) /\ batch ls start (c :: cmds).
Proof.
  revert start. induction fuel as [|fuel IH]; intros start Hf Hs; [lia|]. cbn [link_status_chunks]. set (stop := Nat.min _ _).
  assert (length (take (stop - start) (drop start ls)) <= MAX_LINK_STATUSES)%nat as Hlen by (rewrite length_take; unfold stop; lia).
  destruct (Nat.eqb_spec stop (length ls)) as [Hstop|Hstop].
  - eexists _, []. split; [done|]. split; [|by apply Forall_singleton|done|done]. cbn. rewrite app_nil_r. apply take_ge. rewrite length_drop. lia.
  - assert (stop = start + MAX_LINK_STATUSES)%nat as Hn by (unfold stop in *; lia). unfold MAX_LINK_STATUSES in Hn.
    destruct (IH (stop - 1)%nat) as (c & cmds & Hc & [He Hb Hfi Hla]); [lia..|]. rewrite Hc. cbn [fmap option_fmap option_map].
    eexists _, _. split; [done|]. split.
    + assert (link_statuses c <> []) as Hne by (apply (chunks_head fuel ls (stop - 1) c cmds Hc); unfold stop in *; lia).
      cbn [stitch link_statuses]. rewrite shared_tail_stitch by done. rewrite He.
      replace (tail (drop (stop - 1) ls)) with (drop (stop - start) (drop start ls)); [apply take_drop|].
      change (tail ?l) with (drop 1 l). rewrite !drop_drop. f_equal. lia.
    + by constructor.
    + cbn [fmap list_fmap is_first_frame length] in *. rewrite Hfi. replace (stop - 1 =? 0)%nat with false by (symmetry; apply Nat.eqb_neq; lia).
      f_equal. cbn. by rewrite Nat.sub_0_r.
    + cbn [fmap list_fmap is_last_frame length] in *. rewrite Hla. cbn. by rewrite Nat.sub_0_r.
Qed.

(** C18: the link status loop ends and loses nothing: for every list of neighbors, the fuel the loop
    has is enough, its frames carry at most [MAX_LINK_STATUSES] entries each, only the first is
    marked first and only the last is marked last, and a receiver that joins them at their shared
    entries gets the list back, in order. *)
Theorem link_status_batch_complete ls :
  exists cmds, link_status_chunks (S (length ls)) ls 0 = Some cmds /\ stitch cmds = ls /\
    Forall (fun c => length (link_statuses c) <= MAX_LINK_STATUSES)%nat cmds /\
    is_first_frame <$> cmds = true :: replicate (length cmds - 1) false /\ is_last_frame <$> cmds = replicate (length cmds - 1) false ++ [true].
Proof.
  destruct (chunks_batch ls (S (length ls)) 0) as (c & cmds & Hc & [He Hb Hfi Hla]); [lia..|]. by exists (c :: cmds).
Qed.
End LinkStatusFacts.
