(* ===== verification/StackAps.v ===== *)
(** * The APS layer of the driver: [zigbee_stack/aps.rs], and the key exchange of [zigbee_stack/joining.rs]

    Application data in both directions, its acknowledgments and duplicate rejection, and the APS
    commands of the trust center: transport key, request key, verify key, confirm key, update
    device and tunnel. *)

From S2P Require Import Prelude Flat Types Constants AbstractBits Mac Neighbors Routing NwkBroadcasts NwkSecurity Addresses Budget.
From S2P Require Import SendTypes Unicasts Unrouted BroadcastSends Sends Crypto NwkCommands NwkFrame Receive NextHop ApsFrame ApsSecurity.
From S2P Require Import Stack StackSend StackNwk.

Module StackAps.
Import Stack StackSend StackNwk.

(** [ApsAckData::from_aps_ack]. *)
Definition from_aps_ack (src : Nwk) (ack : ApsFrame.ApsAckFrame) : ApsAckData :=
  mkApsAckData src (ApsFrame.ack_destination_endpoint ack) (ApsFrame.ack_cluster_id ack) (ApsFrame.ack_profile_id ack)
    (ApsFrame.ack_source_endpoint ack) (ApsFrame.ack_counter ack).

(** [FrameBytes::from_slice(&data).map_err(|_| EnqueueError::PayloadTooLong)]. *)
Definition asdu_bytes (data : bytes) : bytes + EnqueueError :=
  if (length data <=? MAX_PHY_PACKET_SIZE)%nat then inl data else inr PayloadTooLong.

Section Handlers.
Context (e : Env).
Notation own := (own_address e).
Context `{!ApsFrame.ApsCodecs, !AbstractBits NwkFrame.NwkSecurityHeaderControlField, !Ccm, !BlockCipher}.

Definition aps (s : t) : ApsSecurity.t := aps_security (aib (core s)).
Definition network_key (s : t) : Key := NwkSecurity.network_key (nwk_security (the_nib s)).

(** ** Receiving *)
Definition aps_frame_source (s : t) (f : NwkFrame.t) (extended_source : option Eui64) : option Eui64 :=
  let h := NwkFrame.nwk_header f in
  match extended_source, NwkFrame.source_ieee h with
  | Some eui64, _ => Some eui64
  | None, Some eui64 => Some eui64
  | None, None => AddressMap.eui64_for (address_map (the_nib s)) (NwkFrame.source h)
  end.

Definition decrypt_aps_data_frame (s : t) (f : NwkFrame.t) (frame : ApsFrame.EncryptedApsDataFrame)
    : may (option (ApsFrame.ApsDataFrame * Eui64) * t) :=
  match aps_frame_source s f (ApsFrame.extended_source (ApsFrame.ed_aux_header frame)) with
  | None => Ok (None, s)
  | Some source =>
      '(data, security) ← ApsSecurity.decrypt_data (aps s) source frame (network_key s);
      Ok (option_map (fun d => (d, source)) data, with_aps_security s security)
  end.

Definition decrypt_aps_ack_frame (s : t) (f : NwkFrame.t) (frame : ApsFrame.EncryptedApsAckFrame)
    : may (option ApsFrame.ApsAckFrame * t) :=
  match aps_frame_source s f (ApsFrame.extended_source (ApsFrame.ea_aux_header frame)) with
  | None => Ok (None, s)
  | Some source =>
      '(ack, security) ← ApsSecurity.decrypt_ack (aps s) source frame (network_key s);
      Ok (ack, with_aps_security s security)
  end.

Definition handle_aps_ack (s : t) (f : NwkFrame.t) (ack : ApsFrame.ApsAckFrame) : may t :=
  r ← Sends.aps_ack_received (sends (core s)) (from_aps_ack (NwkFrame.source (NwkFrame.nwk_header f)) ack);
  commit_sends e s r.

Definition is_duplicate_aps_frame (s : t) (source : Nwk) (counter : Z) : bool * t :=
  let timeout := Tunables.load (tunables e) aps_duplicate_rejection_timeout in
  let table := FlatMap.retain (fun _ seen => Instant.saturating_duration_since (now e) seen <? timeout) (aps_duplicates s) in
  let '(old, table) := FlatMap.insert table (source, counter) (now e) in
  (bool_decide (is_Some old), set_aps_duplicates s table).

(** ** Acknowledging *)
Definition ack_for (frame : ApsFrame.ApsDataFrame) : ApsFrame.ApsAckFrame :=
  let h := ApsFrame.header frame in
  ApsFrame.mkAck
    (ApsFrame.mkAckControl ApsFrame.TypeAck ApsFrame.Unicast false (ApsFrame.security (ApsFrame.frame_control h)) false false)
    (Some (ApsFrame.source_endpoint h)) (Some (ApsFrame.cluster_id h)) (Some (ApsFrame.profile_id h))
    (ApsFrame.destination_endpoint h) (ApsFrame.counter h).

(** The serialized acknowledgment, or [None] where the code gives up. *)
Definition ack_payload (s : t) (frame : ApsFrame.ApsDataFrame) (source_eui64 : option Eui64) : may (option bytes * t) :=
  if ApsFrame.security (ApsFrame.frame_control (ApsFrame.header frame)) then
    match source_eui64 with
    | None => Ok (None, s)
    | Some eui64 =>
        '(encrypted, security) ← ApsSecurity.encrypt_ack (aps s) eui64 (ack_for frame);
        let s := with_aps_security s security in
        match encrypted with
        | None => Ok (None, s)
        | Some encrypted =>
            let s := maybe_notify_aps_frame_counter s in
            bs ← ApsFrame.encrypted_ack_to_bytes encrypted;
            Ok (Some bs, s)
        end
    end
  else bs ← ApsFrame.ack_to_bytes (ack_for frame); Ok (Some bs, s).

(** [nwk_data_frame(..).expect(..)]. *)
Definition expect_data_frame (destination : Nwk) (payload : bytes) : may NwkFrame.t :=
  match nwk_data_frame e destination payload with inl f => Ok f | inr _ => Panic end.

Definition handle_aps_ack_request (s : t) (frame : ApsFrame.ApsDataFrame) (f : NwkFrame.t) (source_eui64 : option Eui64) : may t :=
  '(payload, s) ← ack_payload s frame source_eui64;
  match payload with
  | None => Ok s
  | Some payload =>
      ack ← expect_data_frame (NwkFrame.source (NwkFrame.nwk_header f)) payload;
      send_unicast_detached e s
        (mkUnicast (NwkFrame.with_discover_route ack NwkFrame.Enable) WithNetworkKey (NextHop.RouteMode NextHop.StackDecides)
           STACK_CRITICAL OnHandoff)
  end.

Definition ack_wait (s : t) (destination : Nwk) (sleepy_destination : bool) : Duration :=
  if sleepy_destination && bool_decide (Neighbors.sleepy_child_eui64 (neighbors (the_nib s)) destination = None)
  then Tunables.load (tunables e) aps_ack_timeout + Tunables.load (tunables e) transaction_persistence_time
  else Tunables.load (tunables e) aps_ack_timeout.

(** ** Sending *)
Definition data_control (mode : ApsFrame.ApsDeliveryMode) (secured ack : bool) : ApsFrame.ApsFrameControl :=
  ApsFrame.mkControl ApsFrame.TypeData mode 0 secured ack false.

(** What [send_aps_unicast] is called with. *)
Record UnicastRequest := mkUnicastRequest {
  ur_destination : Nwk;
  ur_profile_id : Z;
  ur_cluster_id : Z;
  ur_src_ep : Z;
  ur_dst_ep : Z;
  ur_aps_ack : ApsAckMode;
  ur_aps_counter : option Z;
  ur_radius : Z;
  ur_data : bytes;
  ur_aps_security : option Eui64;
  ur_sleepy_destination : bool;
  ur_priority : TxPriority;
  ur_route : NextHop.RouteDirective
}.

Definition wants_ack (r : UnicastRequest) : bool := match ur_aps_ack r with RequestAck => true | NoApsAck => false end.

Definition unicast_aps_frame (r : UnicastRequest) (aps_seq : Z) (asdu : bytes) : ApsFrame.ApsDataFrame :=
  ApsFrame.into_frame
    (ApsFrame.mkDataHeader (data_control ApsFrame.Unicast (bool_decide (is_Some (ur_aps_security r))) (wants_ack r))
       None (Some (ur_dst_ep r)) (ur_cluster_id r) (ur_profile_id r) (ur_src_ep r) aps_seq)
    asdu.

(** The serialized APS frame, secured when asked to. *)
Definition unicast_payload (s : t) (r : UnicastRequest) (frame : ApsFrame.ApsDataFrame) : enqueued bytes :=
  match ur_aps_security r with
  | Some destination_eui64 =>
      '(encrypted, security) ← ApsSecurity.encrypt_data (aps s) destination_eui64 frame;
      let s := with_aps_security s security in
      match encrypted with
      | Some encrypted =>
          let s := maybe_notify_aps_frame_counter s in
          bs ← ApsFrame.encrypted_data_to_bytes encrypted;
          Ok (inl bs, s)
      | None => Ok (inr SecurityUnavailable, s)
      end
  | None => bs ← ApsFrame.data_to_bytes frame; Ok (inl bs, s)
  end.

Definition unicast_confirm (s : t) (r : UnicastRequest) (aps_seq : Z) : Confirm :=
  match ur_aps_ack r with
  | RequestAck =>
      ApsAck (mkApsAckData (ur_destination r) (Some (ur_src_ep r)) (Some (ur_cluster_id r)) (Some (ur_profile_id r))
                (Some (ur_dst_ep r)) aps_seq)
        (ack_wait s (ur_destination r) (ur_sleepy_destination r))
  | NoApsAck => OnHandoff
  end.

Definition route_frame (f : NwkFrame.t) (radius : Z) : NwkFrame.t :=
  NwkFrame.with_radius (NwkFrame.with_discover_route f NwkFrame.Enable) (Z.max radius 1).

Definition send_aps_unicast (s : t) (r : UnicastRequest) : enqueued (Handle * Z) :=
  match asdu_bytes (ur_data r) with
  | inr err => Ok (inr err, s)
  | inl asdu =>
      let '(aps_seq, s) := match ur_aps_counter r with Some n => (n, s) | None => next_aps_counter s end in
      '(payload, s) ← unicast_payload s r (unicast_aps_frame r aps_seq asdu);
      match payload with
      | inr err => Ok (inr err, s)
      | inl payload =>
          match nwk_data_frame e (ur_destination r) payload with
          | inr err => Ok (inr err, s)
          | inl f =>
              '(sent, s) ← send_unicast e s
                (mkUnicast (route_frame f (ur_radius r)) WithNetworkKey (NextHop.RouteMode (ur_route r))
                   (mkPolicy (ur_priority r) Budget.Host) (unicast_confirm s r aps_seq));
              match sent with
              | inl handle => Ok (inl (handle, aps_seq), s)
              | inr err => Ok (inr err, s)
              end
          end
      end
  end.

(** The common end of [send_aps_broadcast] and [send_aps_groupcast]. *)
Definition send_data_broadcast (s : t) (destination : Nwk) (frame : ApsFrame.ApsDataFrame) (radius : Z) (p : TxPriority) : enqueued Handle :=
  payload ← ApsFrame.data_to_bytes frame;
  match nwk_data_frame e destination payload with
  | inr err => Ok (inr err, s)
  | inl f => send_broadcast e s (mkBroadcast (route_frame f radius) WithNetworkKey (mkPolicy p Budget.Host))
  end.

Definition send_aps_broadcast (s : t) (destination : Nwk) (profile_id cluster_id src_ep dst_ep radius : Z) (data : bytes) (p : TxPriority)
    : enqueued Handle :=
  match asdu_bytes data with
  | inr err => Ok (inr err, s)
  | inl asdu =>
      let '(counter, s) := next_aps_counter s in
      send_data_broadcast s destination
        (ApsFrame.into_frame (ApsFrame.mkDataHeader (data_control ApsFrame.Broadcast false false) None (Some dst_ep) cluster_id profile_id
                                src_ep counter) asdu) radius p
  end.

Definition send_aps_groupcast (s : t) (group_id profile_id cluster_id src_ep radius : Z) (data : bytes) (p : TxPriority) : enqueued Handle :=
  match asdu_bytes data with
  | inr err => Ok (inr err, s)
  | inl asdu =>
      let '(counter, s) := next_aps_counter s in
      send_data_broadcast s NwkFrame.BROADCAST_RX_ON_WHEN_IDLE
        (ApsFrame.into_frame (ApsFrame.mkDataHeader (data_control ApsFrame.Multicast false false) (Some group_id) None cluster_id profile_id
                                src_ep counter) asdu) radius p
  end.
End Handlers.
End StackAps.
