(* ===== verification/StackJoin.v ===== *)
(** * Joining: [zigbee_stack/joining.rs]

    The join window, association, the delivery of the network key (direct or tunnelled), the
    exchange of a trust center link key, and the flows that await a verdict in between
    ([run_join], [deliver_key_and_announce]): a flow is a tasklet, and [poll_tasklet] runs it up to
    its next await. *)

From S2P Require Import Prelude Flat Types Constants AbstractBits Mac Neighbors Routing NwkBroadcasts NwkSecurity Addresses Budget.
From S2P Require Import SendTypes Unicasts Unrouted BroadcastSends Sends Crypto NwkCommands NwkFrame Receive NextHop ApsFrame ApsSecurity.
From S2P Require Import Stack StackSend StackNwk StackAps.

Module StackJoin.
Import Stack StackSend StackNwk StackAps.

Section Handlers.
Context (e : Env).
Notation own := (own_address e).

(** ** The join window *)
Definition permit_joins (s : t) (duration : Z) (accept_direct_joins : bool) : t :=
  let deadline := if duration =? 0 then None else Some (Instant.add (now e) (duration * 1000000)) in
  on_core s (fun c =>
    let c := set_trust_center_joins_until c deadline in
    if accept_direct_joins then set_permitting_joins_until c deadline else c).

Definition is_open (until : option Instant) : bool := match until with Some deadline => now e <? deadline | None => false end.
Definition permitting_joins (s : t) : bool := is_open (permitting_joins_until (core s)).
Definition trust_center_permitting_joins (s : t) : bool := is_open (trust_center_joins_until (core s)).

(** ** Keys of devices that join *)
Definition set_provisional_key (s : t) (ieee : Eui64) (key : Key) : t :=
  with_aps_security s (ApsSecurity.set_provisional_key (aps s) ieee key).

Definition begin_join (s : t) (ieee : Eui64) : t :=
  let '(provisional_key, security) := ApsSecurity.begin_join (aps s) ieee in
  let s := with_aps_security s security in
  match provisional_key with Some key => push_notification s (LinkKeyUpdate ieee key) | None => s end.

(** ** Association *)
Definition build_802154_association_response (s : t) (destination : Eui64) (short_address : Nwk) (status : Mac.AssociationStatus)
    : Mac.Frame bytes :=
  Mac.Command (Mac.mkCommandFrame
    (Mac.mkFrameHeader
       (Mac.mkFrameControl Mac.TypeCommand false false true true false false false Mac.ModeLong Mac.Ieee2003 Mac.ModeLong)
       (Some (ieee802154_sequence_number (mac (core s)))) (Some (pan_id (mac (core s)))) (Some (AddrEui64 destination)) None
       (Some (AddrEui64 (ieee_address (config e)))))
    (Mac.AssociationResponse (Mac.mkAssociationResponse short_address status)) 0).

Definition queue_association_response (s : t) (eui64 : Eui64) (short_address : Nwk) (status : Mac.AssociationStatus)
    : may (option Handle * t) :=
  s ← drop_indirect_transactions e s (Some eui64) short_address;
  '(handle, s) ← enqueue_unicast e s (FrameRaw (build_802154_association_response s eui64 short_address status))
    STACK_CRITICAL OnHandoff short_address (Some (AddrEui64 eui64));
  Ok (match status with Mac.AssociationSuccessful => Some handle | _ => None end, s).

Definition association_denial (s : t) (device_type : Neighbors.NwkDeviceType) (source : Eui64) : option Mac.AssociationStatus :=
  if negb (permitting_joins s) then Some Mac.PanAccessDenied
  else if bool_decide (device_type = Neighbors.EndDevice) && negb (Neighbors.contains (neighbors (the_nib s)) source)
          && at_child_capacity e s
  then Some Mac.PanAtCapacity
  else None.

Definition process_802154_association_request (s : t) (f : Mac.CommandFrame) (request : Mac.AssociationRequestCommand) : may t :=
  match Mac.src_address (Mac.cf_header f) with
  | Some (AddrEui64 source_eui64) =>
      let device_type := match Mac.device_type request with
                         | Mac.FullFunctionDevice => Neighbors.Router
                         | Mac.ReducedFunctionDevice => Neighbors.EndDevice
                         end in
      match association_denial s device_type source_eui64 with
      | Some status => '(_, s) ← queue_association_response s source_eui64 0xFFFF status; Ok s
      | None =>
          short_address ← allocate_network_address e s source_eui64;
          let s := begin_join s source_eui64 in
          s ← update_nwk_eui64_mapping e s short_address source_eui64;
          timeout ← child_timeout e device_type;
          let s := with_neighbors s (Neighbors.upsert_child (neighbors (the_nib s))
            (Neighbors.mkChild source_eui64 short_address device_type (Mac.receive_on_when_idle request) timeout Neighbors.Child)
            (now e)) in
          Ok (set_tasklets s (tasklets s ++ [RunJoin source_eui64 short_address]))
      end
  | _ => Ok s
  end.

(** ** Delivering the network key *)
Context `{!ApsFrame.ApsCodecs, !AbstractBits NwkFrame.NwkSecurityHeaderControlField, !Ccm, !BlockCipher}.

Definition aps_command (secured : bool) (counter : Z) (c : ApsFrame.ApsCommandFrameCommand) : ApsFrame.ApsCommandFrame :=
  ApsFrame.mkCommand (ApsFrame.mkControl ApsFrame.TypeCommand ApsFrame.Unicast 0 secured false false) counter c.

Definition build_encrypted_network_key_transport (s : t) (destination : Eui64) (join_kind : JoinKind)
    : may (ApsFrame.EncryptedApsCommandFrame * t) :=
  let descriptor := ApsFrame.mkNetworkKeyDescriptor (network_key s) (NwkSecurity.key_seq_number (nwk_security (the_nib s))) destination
    (ieee_address (config e)) in
  let '(counter, s) := next_aps_counter s in
  let command := aps_command true counter (ApsFrame.TransportKey
    (ApsFrame.mkTransportKey ApsFrame.StandardNetworkKey (ApsFrame.DescribeNetworkKey descriptor))) in
  link_key ← (if bool_decide (join_kind = NewJoin) then Ok (ApsSecurity.join_link_key (aps s) destination)
              else ApsSecurity.device_link_key (aps s) destination);
  '(encrypted, security) ← ApsSecurity.encrypt_command_with_link_key (aps s) link_key NwkFrame.KeyTransportKey command;
  Ok (encrypted, with_aps_security s security).

Definition send_network_key (s : t) (destination : Nwk) (eui64 : Eui64) (join_kind : JoinKind) : may (option Handle * t) :=
  '(encrypted, s) ← build_encrypted_network_key_transport s eui64 join_kind;
  bs ← ApsFrame.encrypted_command_to_bytes encrypted;
  f ← expect_data_frame e destination bs;
  '(sent, s) ← send_unicast e s
    (mkUnicast (NwkFrame.unsecured f) WithoutSecurity NextHop.Direct STACK_CRITICAL OnHandoff);
  Ok (match sent with inl handle => Some handle | inr _ => None end, s).

(** ** The flows: the first part of [deliver_key_and_announce], and the polls *)
Definition start_key_transport (s : t) (nwk : Nwk) (eui64 : Eui64) (join_kind : JoinKind) : may (option Tasklet * t) :=
  '(key_transport, s) ← send_network_key s nwk eui64 join_kind;
  Ok (match key_transport with Some handle => Some (AwaitKeyTransport handle.2 nwk eui64) | None => None end, s).

(** [handle.delivered().await]: the verdict, once it is there. *)
Definition delivered_verdict (s : t) (slot : Slot) : option (verdict DeliveryError) := slots s !! slot ≫= delivered.

(** A tasklet of a join, run up to its next await; [None] when it is over. *)
Definition poll_join (s : t) (task : Tasklet) : may (option Tasklet * t) :=
  match task with
  | RunJoin eui64 short_address =>
      '(response, s) ← queue_association_response s eui64 short_address Mac.AssociationSuccessful;
      Ok (match response with Some handle => Some (AwaitExtraction handle.2 eui64 short_address) | None => None end, s)
  | AwaitExtraction response eui64 short_address =>
      match delivered_verdict s response with
      | None => Ok (Some task, s)
      | Some (inr _) => Ok (None, s)
      | Some (inl _) => start_key_transport s short_address eui64 NewJoin
      end
  | DeliverKeyAndAnnounce nwk eui64 join_kind => start_key_transport s nwk eui64 join_kind
  | AwaitKeyTransport key_transport nwk eui64 =>
      match delivered_verdict s key_transport with
      | None => Ok (Some task, s)
      | Some (inr _) => Ok (None, s)
      | Some (inl _) => Ok (None, announce_join e s nwk eui64)
      end
  | ParentAnnceSleep _ _ _ _ | ParentAnnceHandoff _ _ _ => Ok (Some task, s)
  end.

(** ** APS commands *)
Definition send_secured_aps_payload (s : t) (destination : Nwk) (payload : bytes) : enqueued Handle :=
  match nwk_data_frame e destination payload with
  | inr err => Ok (inr err, s)
  | inl f =>
      send_unicast e s
        (mkUnicast (NwkFrame.with_discover_route f NwkFrame.Enable) WithNetworkKey
           (if Neighbors.has_network_address (neighbors (the_nib s)) destination then NextHop.Direct
            else NextHop.RouteMode NextHop.StackDecides)
           STACK_CRITICAL OnHandoff)
  end.
Definition send_secured_detached (s : t) (destination : Nwk) (payload : bytes) : may t :=
  '(_, s) ← send_secured_aps_payload s destination payload; Ok s.

(** The checks of [handle_request_key]: the device whose request is honoured, and the key it used. *)
Definition key_requester (s : t) (f : NwkFrame.t) (frame : ApsFrame.ApsCommandFrame) (request : ApsFrame.ApsRequestKeyCommandFrame)
    (aps_source_ieee : option Eui64) (applied_key : option ApsSecurity.AppliedKey) : option (Eui64 * ApsSecurity.AppliedKey) :=
  match ApsFrame.rk_key_type request with
  | ApsFrame.RequestApplicationLinkKey => None
  | ApsFrame.RequestTrustCenterLinkKey =>
      if negb (ApsFrame.security (ApsFrame.cmd_control frame)) then None
      else
        match aps_source_ieee with
        | None => None
        | Some source_ieee =>
            if bool_decide (AddressMap.eui64_for (address_map (the_nib s)) (NwkFrame.source (NwkFrame.nwk_header f)) = Some source_ieee)
            then (fun applied => (source_ieee, applied)) <$> applied_key
            else None
        end
  end.

Definition handle_request_key (s : t) (f : NwkFrame.t) (frame : ApsFrame.ApsCommandFrame) (request : ApsFrame.ApsRequestKeyCommandFrame)
    (aps_source_ieee : option Eui64) (applied_key : option ApsSecurity.AppliedKey) : may t :=
  match key_requester s f frame request aps_source_ieee applied_key with
  | None => Ok s
  | Some (source_ieee, applied) =>
      '(new_key, security) ← ApsSecurity.issue_device_key (aps s) source_ieee (fresh_key e);
      let s := with_aps_security s security in
      let '(counter, s) := next_aps_counter s in
      let command := aps_command true counter (ApsFrame.TransportKey
        (ApsFrame.mkTransportKey ApsFrame.TrustCenterLinkKey
           (ApsFrame.DescribeTrustCenterLinkKey (ApsFrame.mkTclkDescriptor new_key source_ieee (ieee_address (config e)))))) in
      '(encrypted, security) ← ApsSecurity.encrypt_command_with_applied_key (aps s) source_ieee applied NwkFrame.KeyLoadKey command;
      let s := with_aps_security s security in
      match encrypted with
      | None => Ok s
      | Some encrypted =>
          bs ← ApsFrame.encrypted_command_to_bytes encrypted;
          send_secured_detached s (NwkFrame.source (NwkFrame.nwk_header f)) bs
      end
  end.

Definition send_confirm_key (s : t) (destination : Nwk) (eui64 : Eui64) (status : Z) (encrypted : bool) : may t :=
  let '(counter, s) := next_aps_counter s in
  let command := aps_command encrypted counter (ApsFrame.ConfirmKey
    (ApsFrame.mkConfirmKey status ApsFrame.TrustCenterLinkKey eui64)) in
  '(payload, s) ← (if encrypted then
                     '(frame, security) ← ApsSecurity.encrypt_command (aps s) eui64 NwkFrame.DataKey command;
                     bs ← ApsFrame.encrypted_command_to_bytes frame;
                     Ok (bs, with_aps_security s security)
                   else bs ← ApsFrame.command_to_bytes command; Ok (bs, s));
  send_secured_detached s destination payload.

(** The sender's EUI64: from the NWK header, or from the address map. *)
Definition nwk_sender_ieee (s : t) (f : NwkFrame.t) : option Eui64 :=
  let h := NwkFrame.nwk_header f in
  match NwkFrame.source_ieee h with
  | Some ieee => Some ieee
  | None => AddressMap.eui64_for (address_map (the_nib s)) (NwkFrame.source h)
  end.

Definition handle_verify_key (s : t) (f : NwkFrame.t) (verify : ApsFrame.ApsVerifyKeyCommandFrame) : may t :=
  let source_ieee := ApsFrame.vk_source_address verify in
  let source := NwkFrame.source (NwkFrame.nwk_header f) in
  match ApsFrame.vk_standard_key_type verify with
  | ApsFrame.TrustCenterLinkKey =>
      if match nwk_sender_ieee s f with Some sender => negb (bool_decide (sender = source_ieee)) | None => false end then Ok s
      else
        '(verified, security) ← ApsSecurity.verify_device_key (aps s) source_ieee (key_bytes (ApsFrame.initiator_verify_key_hash verify));
        let s := with_aps_security s security in
        match verified with
        | None => send_confirm_key s source source_ieee ApsFrame.APS_STATUS_SECURITY_FAIL false
        | Some true =>
            key ← ApsSecurity.device_link_key (aps s) source_ieee;
            send_confirm_key (push_notification s (LinkKeyUpdate source_ieee key)) source source_ieee ApsFrame.APS_STATUS_SUCCESS true
        | Some false => send_confirm_key s source source_ieee ApsFrame.APS_STATUS_SECURITY_FAIL true
        end
  | _ => Ok s
  end.

Definition send_tunneled_network_key (s : t) (router_nwk : Nwk) (device_eui64 : Eui64) (join_kind : JoinKind) : may t :=
  '(encrypted, s) ← build_encrypted_network_key_transport s device_eui64 join_kind;
  let '(counter, s) := next_aps_counter s in
  tunneled ← ApsFrame.encrypted_command_to_bytes encrypted;
  tunneled ← ApsFrame.expect_frame_bytes tunneled;
  bs ← ApsFrame.command_to_bytes (aps_command false counter (ApsFrame.Tunnel (ApsFrame.mkTunnel device_eui64 tunneled)));
  send_secured_detached s router_nwk bs.

Definition announce_update (s : t) (update : ApsFrame.ApsUpdateDeviceCommandFrame) (router_nwk : Nwk) : t :=
  push_notification s
    (DeviceJoined (ApsFrame.ud_device_short_address update) (ApsFrame.ud_device_address update) router_nwk None true).

(** Update-Device from a router we share a unique link key with must be APS-encrypted. *)
Definition update_refused (s : t) (f : NwkFrame.t) (aps_encrypted : bool) : bool :=
  negb aps_encrypted && (Tunables.load (tunables e) allow_unencrypted_router_device_update =? 0)
  && match nwk_sender_ieee s f with Some router => ApsSecurity.has_unique_link_key (aps s) router | None => false end.

Definition handle_update_device (s : t) (f : NwkFrame.t) (update : ApsFrame.ApsUpdateDeviceCommandFrame) (aps_encrypted : bool) : may t :=
  let router_nwk := NwkFrame.source (NwkFrame.nwk_header f) in
  let device := ApsFrame.ud_device_address update in
  let short := ApsFrame.ud_device_short_address update in
  if update_refused s f aps_encrypted then Ok s
  else
    match ApsFrame.ud_status update with
    | ApsFrame.DeviceLeft =>
        Ok (push_notification s (DeviceLeft short (Some device) (RouterReported router_nwk (nwk_sender_ieee s f))))
    | ApsFrame.StandardDeviceUnsecuredJoin =>
        s ← forget_moved_child e s device;
        if negb (trust_center_permitting_joins s) then Ok s
        else
          s ← update_nwk_eui64_mapping e (begin_join s device) short device;
          s ← send_tunneled_network_key s router_nwk device NewJoin;
          Ok (announce_update s update router_nwk)
    | ApsFrame.StandardDeviceTrustCenterRejoin =>
        s ← forget_moved_child e s device;
        if negb (may_rejoin_unsecured e s device) then Ok s
        else
          s ← update_nwk_eui64_mapping e s short device;
          s ← send_tunneled_network_key s router_nwk device Rejoin;
          Ok (announce_update s update router_nwk)
    | ApsFrame.StandardDeviceSecuredRejoin =>
        s ← forget_moved_child e s device;
        s ← update_nwk_eui64_mapping e s short device;
        Ok (announce_update s update router_nwk)
    end.

Definition is_trust_center : bool := bool_decide (role (config e) = Neighbors.Coordinator).

Definition handle_aps_command_frame (s : t) (f : NwkFrame.t) (frame : ApsFrame.ApsCommandFrame) (aps_source_ieee : option Eui64)
    (applied_key : option ApsSecurity.AppliedKey) : may t :=
  match ApsFrame.command frame with
  | ApsFrame.UpdateDevice cmd =>
      if is_trust_center then handle_update_device s f cmd (bool_decide (is_Some aps_source_ieee)) else Ok s
  | ApsFrame.RequestKey cmd => if is_trust_center then handle_request_key s f frame cmd aps_source_ieee applied_key else Ok s
  | ApsFrame.VerifyKey cmd => if is_trust_center then handle_verify_key s f cmd else Ok s
  | ApsFrame.TransportKey _ | ApsFrame.RemoveDevice _ | ApsFrame.SwitchKey _ | ApsFrame.Tunnel _ | ApsFrame.ConfirmKey _ => Ok s
  end.

Definition handle_encrypted_aps_command_frame (s : t) (f : NwkFrame.t) (encrypted : ApsFrame.EncryptedApsCommandFrame) : may t :=
  let aux := ApsFrame.ec_aux_header encrypted in
  match ApsFrame.extended_source aux with
  | None => Ok s
  | Some extended_source =>
      '(decrypted, security) ← ApsSecurity.decrypt_command (aps s) extended_source encrypted (network_key s);
      let s := with_aps_security s security in
      match decrypted with
      | Some (frame, applied_key) => handle_aps_command_frame s f frame (Some extended_source) (Some applied_key)
      | None =>
          Ok (push_notification s (ApsDecryptionFailure (NwkFrame.source (NwkFrame.nwk_header f)) extended_source
                (ApsFrame.frame_counter aux) (NwkFrame.key_id (ApsFrame.security_control aux))))
      end
  end.
End Handlers.
End StackJoin.
