(* ===== verification/StackRun.v ===== *)
(** * Polls, device profile commands, MAC commands and the receive loop

    [zigbee_stack/indirect.rs], [zdp.rs], the rest of [mac.rs], [tasklets.rs], and [run] of
    [zigbee_stack.rs]: one pass of each loop is one definition. *)

From S2P Require Import Prelude Flat Types Constants AbstractBits Mac Neighbors Routing NwkBroadcasts NwkSecurity Addresses Budget.
From S2P Require Import SendTypes Unicasts Unrouted BroadcastSends Sends Crypto NwkCommands NwkFrame Receive NextHop ApsFrame ApsSecurity.
From S2P Require Import Zdp Stack StackSend StackNwk StackAps StackJoin.

Module StackRun.
Import Zdp.
Import Stack StackSend StackNwk StackAps StackJoin.

Section Loops.
Context (e : Env).
Notation own := (own_address e).

(** ** Indirect delivery *)
Definition queue_leave_for_stale_child (s : t) (nwk : Nwk) : may t :=
  if Sends.has_unicast_awaiting_poll (sends (core s)) (AddrNwk nwk) then Ok s
  else
    let f := NwkFrame.with_radius
      (nwk_command_frame e nwk (NwkCommands.Leave (NwkCommands.mkLeave true true false))) 1 in
    let '(n, s) := next_nwk_sequence_number s in
    '(_, s) ← enqueue_unicast e s (FrameNwk (NwkFrame.with_sequence_number f n) WithNetworkKey) STACK_CRITICAL OnHandoff nwk
      (Some (AddrNwk nwk));
    Ok s.

(** Who polls: both addresses, as far as they are known. *)
Definition poller (s : t) (address : Ieee802154Address) : option Eui64 * option Nwk :=
  match address with
  | AddrEui64 eui64 => (Some eui64, AddressMap.nwk_for (address_map (the_nib s)) eui64)
  | AddrNwk nwk => (AddressMap.eui64_for (address_map (the_nib s)) nwk, Some nwk)
  end.

Definition handle_data_request (s : t) (f : Mac.CommandFrame) : may t :=
  match Mac.src_address (Mac.cf_header f) with
  | None => Ok s
  | Some poll_source =>
      let '(source_eui64, source_nwk) := poller s poll_source in
      let '(known_device, n) := Neighbors.refresh_child_timeout (neighbors (the_nib s)) source_eui64 source_nwk (now e) in
      let s := with_neighbors s n in
      let '(delivered, s) :=
        if Unicasts.src_match_contains (src_match_written s) poll_source then
          let '(queued, table) := Sends.poll (sends (core s)) source_eui64 source_nwk (now e) in (queued, with_sends s table)
        else (false, s) in
      match source_nwk with
      | Some nwk => if negb known_device && negb delivered then queue_leave_for_stale_child s nwk else Ok s
      | None => Ok s
      end
  end.

Fixpoint evict_each (s : t) (evicted : list (Eui64 * Nwk)) : may t :=
  match evicted with
  | [] => Ok s
  | (eui64, nwk) :: evicted =>
      s ← drop_indirect_transactions e s (Some eui64) nwk;
      let s := with_routing s (Routing.remove_route (routing (the_nib s)) nwk).2 in
      evict_each (push_notification s (DeviceLeft nwk (Some eui64) KeepaliveTimeout)) evicted
  end.

Definition evict_timed_out_children (s : t) : may t :=
  let '(evicted, n) := Neighbors.evict_timed_out_children (neighbors (the_nib s)) (now e) in
  evict_each (with_neighbors s n) evicted.

(** ** Device profile commands *)
Section Profile.
Context `{!ApsFrame.ApsCodecs, !Zdp.ZdpCodecs}.

Definition PARENT_ANNCE_CHILDREN_PER_FRAME : nat := 8.
Definition MGMT_LQI_DESCRIPTORS_PER_FRAME : nat := 2.
Definition MGMT_RTG_DESCRIPTORS_PER_FRAME : nat := 10.

Definition send_zdp_command `{Zdp.ZdpCommand T} (s : t) (destination : Nwk) (delivery_mode : ApsFrame.ApsDeliveryMode) (tsn : Z) (command : T)
    : enqueued Handle :=
  serialized ← unwrap (Zdp.serialize command tsn);
  match asdu_bytes serialized with
  | inr err => Ok (inr err, s)
  | inl asdu =>
      let '(counter, s) := next_aps_counter s in
      bs ← ApsFrame.data_to_bytes
        (ApsFrame.into_frame
           (ApsFrame.mkDataHeader (data_control delivery_mode false false) None (Some 0) (Zdp.cluster_code (Zdp.CLUSTER_ID (T:=T)))
              Zdp.ZDP_PROFILE_ID 0 counter) asdu);
      match nwk_data_frame e destination bs with
      | inr err => Ok (inr err, s)
      | inl f =>
          let f := NwkFrame.with_radius (NwkFrame.with_discover_route f NwkFrame.Enable) (2 * MAX_DEPTH) in
          match delivery_mode with
          | ApsFrame.Broadcast => send_broadcast e s (mkBroadcast f WithNetworkKey (mkPolicy UserNormal Budget.Host))
          | _ =>
              send_unicast e s
                (mkUnicast f WithNetworkKey (NextHop.RouteMode NextHop.StackDecides) (mkPolicy UserNormal Budget.Host) OnHandoff)
          end
      end
  end.

Definition neighbor_descriptor (entry : Neighbors.TableEntry) : Zdp.NeighborDescriptor :=
  Zdp.mkNeighborDescriptor (extended_pan_id (config e)) (Neighbors.extended_address entry) (Neighbors.network_address entry)
    (match Neighbors.device_type entry with
     | Neighbors.Coordinator => Zdp.ZdpCoordinator
     | Neighbors.Router => Zdp.ZdpRouter
     | Neighbors.EndDevice => Zdp.ZdpEndDevice
     end)
    (if Neighbors.rx_on_when_idle entry then Zdp.RxOn else Zdp.RxOff)
    (match Neighbors.relationship entry with
     | Neighbors.Parent => Zdp.AffinityParent
     | Neighbors.Child => Zdp.AffinityChild
     | Neighbors.Sibling => Zdp.AffinitySibling
     | _ => Zdp.NoneOfTheAbove
     end)
    Zdp.PermitUnknown 1 (default 0 (Neighbors.lqa entry)).

(** The page of a table, ordered by address, that starts at [start]. *)
Definition page {A} (key : A -> Z) (size : nat) (l : list A) (start : Z) : list A := take size (drop (Z.to_nat start) (sort_by_key key l)).

Definition mgmt_lqi_rsp (s : t) (start : Z) : Zdp.MgmtLqiRsp :=
  let entries := Neighbors.entries (neighbors (the_nib s)) in
  Zdp.mkMgmtLqiRsp Zdp.Success (Z.of_nat (length entries) mod 256) start
    (neighbor_descriptor <$> page Neighbors.network_address MGMT_LQI_DESCRIPTORS_PER_FRAME entries start).

Definition handle_mgmt_lqi_req (s : t) (f : NwkFrame.t) (frame : ApsFrame.ApsDataFrame) : may t :=
  let h := NwkFrame.nwk_header f in
  if negb (NwkFrame.destination h =? own) then Ok s
  else
    match Zdp.deserialize (T:=Zdp.MgmtLqiReq) (ApsFrame.asdu frame) with
    | Ok (tsn, request) =>
        '(_, s) ← send_zdp_command s (NwkFrame.source h) ApsFrame.Unicast tsn (mgmt_lqi_rsp s (Zdp.lqi_start_index request));
        Ok s
    | _ => Ok s
    end.

Definition routing_descriptor (entry : Routing.TableEntry) : Zdp.RoutingDescriptor :=
  Zdp.mkRoutingDescriptor (Routing.destination entry)
    (match Routing.status entry with
     | Routing.Active => Zdp.RouteActive
     | Routing.DiscoveryUnderway => Zdp.RouteDiscoveryUnderway
     | Routing.DiscoveryFailed => Zdp.RouteDiscoveryFailed
     | Routing.Inactive => Zdp.RouteInactive
     end)
    false (Routing.many_to_one entry) (Routing.route_record_required entry) (Routing.next_hop_address entry).

Definition mgmt_rtg_rsp (s : t) (start : Z) : Zdp.MgmtRtgRsp :=
  let entries := FlatMap.values (Routing.route_table (routing (the_nib s))) in
  Zdp.mkMgmtRtgRsp Zdp.Success (Z.of_nat (length entries) mod 256) start
    (routing_descriptor <$> page Routing.destination MGMT_RTG_DESCRIPTORS_PER_FRAME entries start).

Definition handle_mgmt_rtg_req (s : t) (f : NwkFrame.t) (frame : ApsFrame.ApsDataFrame) : may t :=
  let h := NwkFrame.nwk_header f in
  if negb (NwkFrame.destination h =? own) then Ok s
  else
    match Zdp.deserialize (T:=Zdp.MgmtRtgReq) (ApsFrame.asdu frame) with
    | Ok (tsn, request) =>
        '(_, s) ← send_zdp_command s (NwkFrame.source h) ApsFrame.Unicast tsn (mgmt_rtg_rsp s (Zdp.rtg_start_index request));
        Ok s
    | _ => Ok s
    end.

Definition UNKNOWN_IEEE : Eui64 := mkEui64 (replicate 8 0xFF).

Definition handle_device_annce (s : t) (frame : ApsFrame.ApsDataFrame) : t :=
  match Zdp.deserialize (T:=Zdp.DeviceAnnce) (ApsFrame.asdu frame) with
  | Ok (_, annce) =>
      let m := address_map (the_nib s) in
      if bool_decide (Zdp.ieee_addr annce = UNKNOWN_IEEE)
      then with_address_map s (AddressMap.forget_address m (Zdp.nwk_addr annce))
      else
        let s := with_address_map s (AddressMap.claim m (Zdp.ieee_addr annce) (Zdp.nwk_addr annce)) in
        with_neighbors s (Neighbors.update_network_address (neighbors (the_nib s)) (Zdp.ieee_addr annce) (Zdp.nwk_addr annce))
  | _ => s
  end.

Fixpoint cleanup_each (s : t) (removed : list (Eui64 * Nwk)) : may t :=
  match removed with
  | [] => Ok s
  | (eui64, nwk) :: removed => s ← cleanup_moved_child e s eui64 nwk; cleanup_each s removed
  end.

Definition handle_parent_annce (s : t) (f : NwkFrame.t) (frame : ApsFrame.ApsDataFrame) : may t :=
  match Zdp.deserialize (T:=Zdp.ParentAnnce) (ApsFrame.asdu frame) with
  | Ok (tsn, annce) =>
      let s := set_parent_annce_received s (Some (now e)) in
      let '((claimed, removed), n) := Neighbors.process_parent_annce (neighbors (the_nib s)) (Zdp.children annce) in
      s ← cleanup_each (with_neighbors s n) removed;
      if bool_decide (claimed = []) then Ok s
      else
        '(_, s) ← send_zdp_command s (NwkFrame.source (NwkFrame.nwk_header f)) ApsFrame.Unicast tsn
          (Zdp.mkParentAnnceRsp Zdp.Success claimed);
        Ok s
  | _ => Ok s
  end.

Definition handle_parent_annce_rsp (s : t) (frame : ApsFrame.ApsDataFrame) : may t :=
  match Zdp.deserialize (T:=Zdp.ParentAnnceRsp) (ApsFrame.asdu frame) with
  | Ok (_, response) =>
      let '(removed, n) := Neighbors.remove_claimed_children (neighbors (the_nib s)) (Zdp.rsp_children response) in
      cleanup_each (with_neighbors s n) removed
  | _ => Ok s
  end.

Definition handle_zdp_frame (s : t) (f : NwkFrame.t) (frame : ApsFrame.ApsDataFrame) : may t :=
  let h := ApsFrame.header frame in
  if negb (ApsFrame.profile_id h =? Zdp.ZDP_PROFILE_ID) || negb (bool_decide (ApsFrame.destination_endpoint h = Some 0)) then Ok s
  else
    match Zdp.cluster_of (ApsFrame.cluster_id h) with
    | Some Zdp.IdDeviceAnnce => Ok (handle_device_annce s frame)
    | Some Zdp.IdParentAnnce => handle_parent_annce s f frame
    | Some Zdp.IdParentAnnceRsp => handle_parent_annce_rsp s frame
    | Some Zdp.IdMgmtLqiReq => handle_mgmt_lqi_req s f frame
    | Some Zdp.IdMgmtRtgReq => handle_mgmt_rtg_req s f frame
    | Some Zdp.IdMgmtLqiRsp | Some Zdp.IdMgmtRtgRsp | None => Ok s
    end.

(** ** The announcement of our children: [run_parent_annce] *)
Definition sleep_parent_annce (send_time : Duration) (remaining : option (list Eui64)) : Tasklet :=
  ParentAnnceSleep (now e)
    (Instant.add (now e) (saturating_sub (Tunables.load (tunables e) parent_annce_base_timer + parent_annce_jitter e) send_time))
    send_time remaining.

(** Its first sleep; [start_network] pushes it. *)
Definition run_parent_annce : Tasklet := sleep_parent_annce 0 None.

(** The children still to announce, after the sleep. *)
Definition children_left (s : t) (remaining : option (list Eui64)) : list Eui64 :=
  match remaining with
  | Some remaining => filter (fun eui64 => Neighbors.is_unconfirmed_end_device_child (neighbors (the_nib s)) eui64 = true) remaining
  | None => Neighbors.end_device_children (neighbors (the_nib s))
  end.

Definition resume_parent_annce (send_time : Duration) (rest : list Eui64) : option Tasklet :=
  match rest with [] => None | _ => Some (sleep_parent_annce send_time (Some rest)) end.

Definition announce_children (s : t) (pending : list Eui64) : may (option Tasklet * t) :=
  let chunk := take PARENT_ANNCE_CHILDREN_PER_FRAME pending in
  let rest := drop PARENT_ANNCE_CHILDREN_PER_FRAME pending in
  match chunk with
  | [] => Ok (None, s)
  | _ =>
      let '(tsn, s) := next_aps_counter s in
      '(sent, s) ← send_zdp_command s Routing.BROADCAST_ALL_ROUTERS_AND_COORDINATOR ApsFrame.Broadcast tsn (Zdp.mkParentAnnce chunk);
      match sent with
      | inl handle => Ok (Some (ParentAnnceHandoff handle.2 (now e) rest), s)
      | inr _ => Ok (resume_parent_annce 0 rest, s)
      end
  end.

Definition poll_parent_annce (s : t) (task : Tasklet) : may (option Tasklet * t) :=
  match task with
  | ParentAnnceSleep slept_at wake_at send_time remaining =>
      if now e <? wake_at then Ok (Some task, s)
      else if match parent_annce_received s with Some received_at => slept_at <? received_at | None => false end
      then Ok (Some (sleep_parent_annce send_time remaining), s)
      else announce_children s (children_left s remaining)
  | ParentAnnceHandoff send started rest =>
      match slots s !! send ≫= handed_off with
      | None => Ok (Some task, s)
      | Some _ => Ok (resume_parent_annce (Instant.saturating_duration_since (now e) started) rest, s)
      end
  | _ => Ok (Some task, s)
  end.

(** ** Beacons and MAC commands *)
Definition send_802154_beacon (s : t) : may t :=
  let permitting := permitting_joins e s in
  let end_device_capacity := negb (at_child_capacity e s) in
  payload ← unwrap (to_abstract_bytes
    (Zdp.mkZigbeeBeacon 0 STACK_PROFILE PROTOCOL_VERSION 0 true 0 end_device_capacity (extended_pan_id (config e)) 0xFFFFFF
       (update_id (the_nib s))));
  let beacon := Mac.Beacon (Mac.mkBeaconFrame
    (Mac.mkFrameHeader
       (Mac.mkFrameControl Mac.TypeBeacon false false false false false false false Mac.ModeNone Mac.Ieee2003 Mac.ModeShort)
       (Some (ieee802154_sequence_number (mac (core s)))) None None (Some (pan_id (mac (core s)))) (Some (AddrNwk own)))
    (Mac.mkSuperframe 15 15 15 false 0 (is_trust_center e) permitting) 0 0 payload 0) in
  '(_, s) ← enqueue_broadcast e s (FrameRaw beacon) (mkPolicy (if permitting then StackCritical else Background) Budget.Critical)
    BroadcastSends.Once;
  Ok s.

(** One pass of the beacon-spam loop. *)
Definition beacon_spam_pass (s : t) : may t :=
  if is_open e (beacon_spam_until (core s)) && permitting_joins e s then send_802154_beacon s else Ok s.

Definition process_802154_command_frame (s : t) (f : Mac.CommandFrame) : may t :=
  let h := Mac.cf_header f in
  if negb match Mac.dest_pan_id h with Some p => (p =? pan_id (mac (core s))) || (p =? 0xFFFF) | None => false end then Ok s
  else if negb match Mac.dest_address h with
               | Some (AddrNwk nwk) => (nwk =? own) || (nwk =? 0xFFFF)
               | Some (AddrEui64 eui64) => bool_decide (eui64 = ieee_address (config e))
               | None => false
               end then Ok s
  else
    match Mac.command_payload f with
    | Mac.BeaconRequest _ =>
        let spam := hack_beacon_spam_duration (config e) in
        if (spam =? 0) || negb (permitting_joins e s) then send_802154_beacon s
        else Ok (on_core s (fun c => set_beacon_spam_until c (Some (Instant.add (now e) spam))))
    | Mac.AssociationRequest request =>
        if is_trust_center e then process_802154_association_request e s f request else Ok s
    | Mac.DataRequest _ => handle_data_request s f
    | _ => Ok s
    end.

(** ** Network scans *)
Definition begin_network_scan (s : t) : t := set_scan_active (set_scan_beacons s []) true.

Definition handle_beacon (s : t) (beacon : Mac.BeaconFrame) (channel lqi rssi : Z) : t :=
  if negb (scan_active s) then s
  else
    let s := set_scan_beacon_frames s (wrapping_add u32_max (scan_beacon_frames s) 1) in
    match from_abstract_bytes (T:=Zdp.ZigbeeBeacon) (Mac.beacon_payload beacon) with
    | None => s
    | Some payload =>
        match Mac.src_pan_id (Mac.bf_header beacon) with
        | None => s
        | Some pan =>
            let source := match Mac.src_address (Mac.bf_header beacon) with Some (AddrNwk nwk) => Some nwk | _ => None end in
            set_scan_beacons s (scan_beacons s ++
              [mkNetworkBeacon channel source pan (Zdp.extended_pan_id payload)
                 (Mac.association_permit (Mac.superframe_specification beacon)) (Zdp.stack_profile payload)
                 (Zdp.protocol_version payload) (Zdp.router_capacity payload) (Zdp.end_device_capacity payload)
                 (Zdp.device_depth payload) (Zdp.update_id payload) lqi rssi])
        end
    end.

(** [next_scan_beacons], when it does not wait: an empty batch says the window is closed. *)
Definition take_scan_beacons (s : t) : option (list NetworkBeacon) * t :=
  match scan_beacons s with
  | [] => (if scan_active s then None else Some [], s)
  | batch => (Some batch, set_scan_beacons s [])
  end.

Definition set_nwk_update_id (s : t) (update_id : Z) : t := on_nib s (fun n => set_update_id n update_id).

(** ** The receive loop *)
Section Receive.
Context `{!AbstractBits Receive.GpNwkFrameControl, !AbstractBits NwkFrame.NwkFrameControl, !AbstractBits NwkFrame.NwkSourceRoute,
          !AbstractBits NwkFrame.NwkSecurityHeaderControlField}.
Context `{!NwkCommands.CommandCodecs, !Ccm, !BlockCipher}.

(** A plaintext data frame, with the EUI64 of its originator when it was APS-encrypted. *)
Definition deliver_aps_data (s : t) (f : NwkFrame.t) (frame : ApsFrame.ApsDataFrame) (source_eui64 : option Eui64) (aps_encrypted : bool)
    (lqi rssi : Z) : may t :=
  let nh := NwkFrame.nwk_header f in
  let h := ApsFrame.header frame in
  let '(duplicate, s) := is_duplicate_aps_frame e s (NwkFrame.source nh) (ApsFrame.counter h) in
  s ← (if ApsFrame.ack_request (ApsFrame.frame_control h) then handle_aps_ack_request e s frame f source_eui64 else Ok s);
  if duplicate : bool then Ok s
  else
    s ← handle_zdp_frame s f frame;
    Ok (push_notification s
          (ReceivedApsCommand (NwkFrame.source nh) (NwkFrame.destination nh) (ApsFrame.group_id h) (ApsFrame.profile_id h)
             (ApsFrame.cluster_id h) (ApsFrame.source_endpoint h) (default 0 (ApsFrame.destination_endpoint h)) lqi rssi aps_encrypted
             (ApsFrame.asdu frame))).

Definition process_aps_frame (s : t) (f : NwkFrame.t) (payload : bytes) (lqi rssi : Z) : may t :=
  match ApsFrame.parse_aps_frame payload with
  | Ok (ApsFrame.Data data) => deliver_aps_data s f data None false lqi rssi
  | Ok (ApsFrame.EncryptedData encrypted) =>
      '(decrypted, s) ← decrypt_aps_data_frame s f encrypted;
      match decrypted with
      | Some (data, source_eui64) => deliver_aps_data s f data (Some source_eui64) true lqi rssi
      | None => Ok s
      end
  | Ok (ApsFrame.Ack ack) => handle_aps_ack e s f ack
  | Ok (ApsFrame.EncryptedAck encrypted) =>
      '(decrypted, s) ← decrypt_aps_ack_frame s f encrypted;
      match decrypted with Some ack => handle_aps_ack e s f ack | None => Ok s end
  | Ok (ApsFrame.Command cmd) => handle_aps_command_frame e s f cmd None None
  | Ok (ApsFrame.EncryptedCommand encrypted) => handle_encrypted_aps_command_frame e s f encrypted
  | Err _ => Ok s
  | Panic => Panic
  end.

(** One pass of [run], on a parsed MAC frame. *)
Definition run_frame (s : t) (frame : Mac.Frame bytes) (channel lqi rssi : Z) : may t :=
  match frame with
  | Mac.Beacon beacon => Ok (handle_beacon s beacon channel lqi rssi)
  | _ =>
      if bool_decide (Mac.src_address (Mac.header frame) = Some (AddrNwk own)) then Ok s
      else
        match frame with
        | Mac.Data data =>
            '(passed, s) ← process_data_frame e s data lqi rssi;
            match passed ≫= (fun f => (fun payload => (f, payload)) <$> NwkFrame.as_opaque (NwkFrame.payload f)) with
            | Some (f, payload) => process_aps_frame s f payload lqi rssi
            | None => Ok s
            end
        | Mac.Command command => process_802154_command_frame s command
        | _ => Ok s
        end
  end.

(** [recv_frame] and the pass: packets that do not parse are skipped. *)
Section Packets.
Context `{!AbstractBits Mac.FrameControl, !AbstractBits Mac.SuperframeSpecification, !AbstractBits Mac.AssociationRequestCommand,
          !AbstractBits Mac.AssociationResponseCommand, !AbstractBits Mac.DisassociationNotificationCommand}.

Definition run_packet (s : t) (psdu : bytes) (channel lqi rssi : Z) : may t :=
  match Mac.from_bytes_without_fcs psdu with
  | Ok frame => run_frame s frame channel lqi rssi
  | Err _ => Ok s
  | Panic => Panic
  end.
End Packets.

(** ** The tasklet runner: one poll of every tasklet there is *)
Definition poll_tasklet (s : t) (task : Tasklet) : may (option Tasklet * t) :=
  match task with
  | ParentAnnceSleep _ _ _ _ | ParentAnnceHandoff _ _ _ => poll_parent_annce s task
  | _ => poll_join e s task
  end.

Fixpoint poll_each (s : t) (tasks : list Tasklet) : may t :=
  match tasks with
  | [] => Ok s
  | task :: tasks =>
      '(next, s) ← poll_tasklet s task;
      poll_each (set_tasklets s (tasklets s ++ option_list next)) tasks
  end.

Definition tasklet_pass (s : t) : may t := poll_each (set_tasklets s []) (tasklets s).
End Receive.
End Profile.

(** ** Stopping: the sends left are abandoned *)
Definition abandon_sends (s : t) : t :=
  let '(waiters, table) := Sends.abandon (sends (core s)) in
  fold_left (fun s waiter => on_slot s waiter (slot_settled (inr CancelledError))) waiters (with_sends s table).
End Loops.
End StackRun.
