(* ===== verification/StackRadio.v ===== *)
(** * The driver and its radio

    The parts of [zigbee_stack.rs] and [zigbee_stack/indirect.rs] that program the radio: reset and
    configuration, the source address match table, the network scan, the change of channel. Other
    tasks run while the radio answers: a task that reads the stack before and writes it after is two
    definitions, one on each side of its calls, and what it does with the radio in between is a
    command on the radio alone. *)

From S2P Require Import Prelude Effects Flat Types Constants AbstractBits Mac Neighbors Addresses.
From S2P Require Import SendTypes Unicasts Sends Stack Radio StackSend StackNwk StackRun.

Module StackRadio.
Import Stack StackSend StackNwk StackRun.
#[local] Existing Instance Mac.frame_bytes_payload.

Definition RESET_NOTIFICATION_TIMEOUT : Duration := 2000000.
Definition RESET_ATTEMPTS : nat := 5.

Section State.
Context (e : Env).

(** ** What the tasks read and write of the stack *)

(** The addresses of every device with a frame that awaits its poll. *)
Definition poll_table (s : t) : Unicasts.SrcMatchTable :=
  Sends.poll_addresses (sends (core s)) (AddressMap.map (address_map (the_nib s))).

(** [FlatSet]'s equality: the same elements. *)
Definition same_table (x y : Unicasts.SrcMatchTable) : bool :=
  bool_decide (FlatMap.keys (Unicasts.short_addresses x) = FlatMap.keys (Unicasts.short_addresses y)) &&
  bool_decide (FlatMap.keys (Unicasts.extended_addresses x) = FlatMap.keys (Unicasts.extended_addresses y)).

(** [write_src_match_table] before the radio is called: the table to write, if it changed. *)
Definition table_to_write (s : t) : option Unicasts.SrcMatchTable :=
  let table := poll_table s in if same_table (src_match_written s) table then None else Some table.

(** [*self.src_match_written.lock() = table]. *)
Definition table_written (s : t) (table : Unicasts.SrcMatchTable) : t := set_src_match_written s table.

(** [apply_radio_configuration] before the radio is called; [tx_power] is the network's. *)
Definition radio_config (s : t) (tx_power : Z) : Radio.RadioConfig * Unicasts.SrcMatchTable :=
  let table := poll_table s in
  (Radio.mkRadioConfig (channel (mac (core s))) tx_power (own_address e) (ieee_address (config e)) (pan_id (mac (core s)))
     (hack_disable_tx (config e)) true (FlatMap.keys (Unicasts.short_addresses table)) (FlatMap.keys (Unicasts.extended_addresses table)),
   table).

(** [set_channel] after the radio retuned. *)
Definition retuned (s : t) (c : Z) : t := on_core s (fun x => Stack.set_mac x (Stack.set_channel (mac x) c)).

(** [start_network] hands the announcement of our children to the tasklet runner. *)
Definition start_parent_annce (s : t) : t := set_tasklets s (tasklets s ++ [run_parent_annce e]).

(** *** The scan *)
Section Scan.
Context `{!AbstractBits Mac.FrameControl, !AbstractBits Mac.SuperframeSpecification, !AbstractBits Mac.AssociationRequestCommand,
          !AbstractBits Mac.AssociationResponseCommand, !AbstractBits Mac.DisassociationNotificationCommand}.

Definition beacon_request_frame (sequence_number : Z) : Mac.Frame bytes :=
  Mac.Command (Mac.mkCommandFrame
    (Mac.mkFrameHeader
       (Mac.mkFrameControl Mac.TypeCommand false false false false false false false Mac.ModeShort Mac.Ieee2003 Mac.ModeNone)
       (Some sequence_number) (Some 0xFFFF) (Some (AddrNwk 0xFFFF)) None None)
    (Mac.BeaconRequest Mac.BeaconRequestBody) 0).

Definition beacon_request_psdu (s : t) : may (bytes * t) :=
  let n := wrapping_add u8_max (ieee802154_sequence_number (mac (core s))) 1 in
  bs ← Mac.to_bytes_without_fcs (beacon_request_frame n);
  Ok (bs, with_mac_sequence s n).
End Scan.

(** [run_network_scan] after the radio is released. *)
Definition scan_ended (s : t) : t := set_scan_active s false.
End State.

(** ** What they do with the radio *)
Section Radio.
Context {R : Type} `{!Radio.RadioPhy R}.

(** The loop of [reset_radio], with the attempts left. *)
Fixpoint reset_attempts (attempts : nat) : eff R RadioError unit :=
  match attempts with
  | O => raise RadioTimeout
  | S attempts =>
      _ ← Radio.reset;
      answer ← Radio.recv_reset RESET_NOTIFICATION_TIMEOUT;
      match answer with
      | Radio.Item _ => mret tt
      | Radio.Closed => raise TransportClosed
      | Radio.TimedOut => reset_attempts attempts
      end
  end.
Definition reset_radio : eff R RadioError unit := reset_attempts RESET_ATTEMPTS.

(** One turn of [radio_recovery_task]'s loop: [apply_radio_configuration], whose failure is retried. *)
Definition apply_radio_configuration (cfg : Radio.RadioConfig) : eff R RadioError unit := Radio.reconfigure cfg.

Definition write_table (table : Unicasts.SrcMatchTable) : eff R RadioError unit :=
  Radio.set_frame_pending_table (FlatMap.keys (Unicasts.short_addresses table)) (FlatMap.keys (Unicasts.extended_addresses table)).

Definition beacon_request_tx (psdu : bytes) (csma_backoffs : Z) : Radio.TxFrame := Radio.mkTxFrame psdu None true 0 csma_backoffs true.

(** The loop over the channels; the first error ends it. *)
Fixpoint sweep (psdu : bytes) (csma_backoffs : Z) (channels : list Z) : eff R RadioError unit :=
  match channels with
  | [] => mret tt
  | c :: channels =>
      _ ← Radio.set_channel c;
      _ ← Radio.transmit_exclusive (beacon_request_tx psdu csma_backoffs);
      sweep psdu csma_backoffs channels
  end.

(** The block of [run_network_scan] that holds the radio: whatever became of the sweep, the radio
    is taken back to its home channel. *)
Definition scan_radio (psdu : bytes) (csma_backoffs home : Z) (channels : list Z) : eff R RadioError unit :=
  _ ← Radio.set_promiscuous true;
  swept ← attempt (sweep psdu csma_backoffs channels);
  _ ← Radio.set_promiscuous false;
  _ ← Radio.set_channel home;
  match swept with inl _ => mret tt | inr err => raise err end.

(** [start_network] once the radio is up: the first link status broadcast, and the announcement of
    our children. The tasks it spawns are the steps of the system; [others] is what they do while the
    broadcast is handed to the radio. *)
Definition first_broadcast (e : Env) (others : t -> t) : eff (t * R) RadioError unit := fun x =>
  '(sent, s) ← send_link_status_broadcast e x.1 true;
  let s := match sent with inl _ => others s | inr _ => s end in
  Ok (inl tt, (start_parent_annce e s, x.2)).

Definition on_radio {A} (m : eff R RadioError A) : eff (t * R) RadioError A := on_part snd (fun x r => (x.1, r)) m.

(** Nothing else of the stack runs before the sender task is spawned. *)
Definition start_network (e : Env) (power : Z) (others : t -> t) : eff (t * R) RadioError unit :=
  _ ← on_radio reset_radio;
  configured ← gets (fun x : t * R => radio_config e x.1 power);
  _ ← on_radio (apply_radio_configuration configured.1);
  _ ← modify (fun x : t * R => (table_written x.1 configured.2, x.2));
  first_broadcast e others.

(** ** The scan comes home *)
Context `{!Radio.RadioLaws R}.

(** Both restoring calls succeed. *)
Definition restorable (home : Z) : Prop := forall r : R,
  exists r1 r2, Radio.set_promiscuous false r = Ok (inl tt, r1) /\ Radio.set_channel home r1 = Ok (inl tt, r2).

(** The radio ends on [home], or could not be made promiscuous in the first place. *)
Lemma scan_failed_home psdu n home channels r answer r' :
  restorable home -> scan_radio psdu n home channels r = Ok (answer, r') ->
  Radio.tuned r' = home \/ exists err, answer = inr err /\ Radio.set_promiscuous true r = Ok (inr err, r').
Proof.
  intros Hres. unfold scan_radio. cbv beta delta [mbind eff_bind attempt].
  intros ([[[]|err] r1] & H1 & Hk)%bind_ok; [|injection Hk as <- <-; right; by exists err]. left.
  apply bind_ok in Hk as ([[swept|err] r2] & H2 & Hk); [|by apply bind_ok in H2 as ([? ?] & _ & ?)].
  destruct (Hres r2) as (r3 & r4 & Hp & Hc). rewrite Hp in Hk. cbn [mbind res_bind] in Hk. rewrite Hc in Hk. cbn [mbind res_bind] in Hk.
  pose proof (Radio.set_channel_tunes home r3 _ _ Hc) as Ht. destruct swept as [[]|err]; by injection Hk as <- <-.
Qed.
End Radio.
End StackRadio.

(** ** The radio over time: resets, changes of channel, the table of polls

    The tasks that keep the radio programmed with the state of the stack. While a call on the radio
    is awaited the other tasks run: [others] is what they do to the stack meanwhile. *)
Module StackRecovery.
Import Stack StackRadio.

Section Tasks.
Context {R : Type} `{!Radio.RadioPhy R}.

(** [radio.call().await]. *)
Definition awaiting {A} (others : t -> t) (m : eff R RadioError A) : eff (t * R) RadioError A := fun x =>
  '(answer, r) ← m x.2; Ok (answer, (others x.1, r)).

(** [write_src_match_table]: an unchanged table is not rewritten. *)
Definition write_src_match_table (others : t -> t) : eff (t * R) RadioError unit :=
  changed ← gets (fun x : t * R => table_to_write x.1);
  match changed with
  | None => mret tt
  | Some table =>
      _ ← awaiting others (write_table table);
      modify (fun x : t * R => (table_written x.1 table, x.2))
  end.

(** [ZigbeeStack::set_channel]. *)
Definition set_channel (c : Z) (others : t -> t) : eff (t * R) RadioError unit :=
  _ ← awaiting others (Radio.set_channel c);
  modify (fun x : t * R => (retuned x.1 c, x.2)).

(** [ZigbeeStack::energy_detect]. *)
Definition energy_detect (c : Z) (duration : Duration) (others : t -> t) : eff (t * R) RadioError Z := awaiting others (Radio.energy_detect c duration).

(** [run_network_scan]: the home channel is read from the stack before the radio is locked;
    [until_lock] is what the other tasks do to the stack and the radio until the lock is granted, and
    [others] what they do to the stack while the radio is held. *)
Definition run_network_scan `{!AbstractBits Mac.FrameControl, !AbstractBits Mac.SuperframeSpecification, !AbstractBits Mac.AssociationRequestCommand,
      !AbstractBits Mac.AssociationResponseCommand, !AbstractBits Mac.DisassociationNotificationCommand}
    (csma_backoffs : Z) (channels : list Z) (until_lock : t * R -> t * R) (others : t -> t) : eff (t * R) RadioError unit :=
  psdu ← (fun x => '(bs, s) ← beacon_request_psdu x.1; Ok (inl bs, (s, x.2)));
  home ← gets (fun x : t * R => channel (mac (core x.1)));
  _ ← modify until_lock;
  result ← attempt (awaiting others (scan_radio psdu csma_backoffs home channels));
  _ ← modify (fun x : t * R => (scan_ended x.1, x.2));
  match result with inl _ => mret tt | inr err => raise err end.

Section Recovery.
Context (e : Env) (power : Z).

Definition apply_configuration (others : t -> t) : eff (t * R) RadioError unit :=
  configured ← gets (fun x : t * R => radio_config e x.1 power);
  _ ← awaiting others (apply_radio_configuration configured.1);
  modify (fun x : t * R => (table_written x.1 configured.2, x.2)).

(** The inner loop of [radio_recovery_task], with the attempts followed: an attempt, and the sleep
    after one that failed. [false] when none of them succeeded. *)
Fixpoint reprogram (attempts : nat) (others : nat -> t -> t) : eff (t * R) RadioError bool :=
  match attempts with
  | O => mret false
  | S attempts =>
      answer ← attempt (apply_configuration (others 0%nat));
      match answer with
      | inl _ => mret true
      | inr _ =>
          _ ← modify (fun x : t * R => (others 1%nat x.1, x.2));
          reprogram attempts (fun n => others (S (S n)))
      end
  end.

(** A turn of its outer loop, on what the reset receiver answers. *)
Definition recovery_turn (event : option Radio.ResetEvent) (attempts : nat) (others : nat -> t -> t) : eff (t * R) RadioError bool :=
  match event with
  | None => fun _ => Panic
  | Some _ => reprogram attempts others
  end.
End Recovery.
End Tasks.

(** ** The radio follows the stack *)
Section Facts.
Context {R : Type} `{!Radio.RadioPhy R, !Radio.RadioLaws R}.
Context (e : Env) (power : Z).

Definition channel_of (s : t) : Z := channel (mac (core s)).

(** What the other tasks did to the stack in [n] awaits. *)
Fixpoint disturbed (others : nat -> t -> t) (n : nat) (s : t) : t :=
  match n with O => s | S n => disturbed (fun k => others (S k)) n (others 0%nat s) end.

(** A radio that answers, and refuses a configuration only so often. *)
Definition heals (patience : R -> nat) : Prop := forall cfg r,
  exists answer r', Radio.reconfigure cfg r = Ok (answer, r') /\ match answer with inl _ => True | inr _ => (patience r' < patience r)%nat end.

Lemma attempted others s r answer r' :
  Radio.reconfigure (radio_config e s power).1 r = Ok (answer, r') ->
  attempt (E':=RadioError) (apply_configuration e power others) (s, r) =
    Ok (inl answer, (match answer with inl _ => table_written (others s) (poll_table s) | inr _ => others s end, r')).
Proof.
  intros Hr. unfold attempt. enough (apply_configuration e power others (s, r) =
    Ok (answer, (match answer with inl _ => table_written (others s) (poll_table s) | inr _ => others s end, r'))) as -> by done.
  unfold apply_configuration. erewrite eff_next by reflexivity. unfold mbind, eff_bind, awaiting, apply_radio_configuration. cbn [fst snd] in Hr |- *.
  rewrite Hr. by destruct answer as [[]|].
Qed.

(** The loop ends; the radio then holds the configuration of the stack at the start of the last
    attempt, and the table noted as written is the one it was given. *)
Lemma reprogrammed patience others n s r :
  heals patience -> (patience r < n)%nat ->
  exists k r0 r', let s0 := disturbed others (2 * k) s in
    reprogram e power n others (s, r) = Ok (inl true, (table_written (others (2 * k)%nat s0) (poll_table s0), r')) /\
    Radio.reconfigure (radio_config e s0 power).1 r0 = Ok (inl tt, r').
Proof.
  intros Hh. revert others s r. induction n as [|n IH]; intros others s r Hn; [lia|]. cbn [reprogram].
  destruct (Hh (radio_config e s power).1 r) as ([[]|err] & r' & Hr & Hp).
  - exists 0%nat, r, r'. split; [|exact Hr]. by erewrite eff_next by exact (attempted _ _ _ _ _ Hr).
  - destruct (IH (fun k => others (S (S k))) (others 1%nat (others 0%nat s)) r') as (k & r0 & r2 & Hx & Hc); [lia|].
    exists (S k), r0, r2. replace (2 * S k)%nat with (S (S (2 * k))) by lia. cbn [disturbed]. split; [|exact Hc].
    rewrite <- Hx. by erewrite eff_next by exact (attempted _ _ _ _ _ Hr).
Qed.

Lemma disturbed_channel others n s : (forall k s, channel_of (others k s) = channel_of s) -> channel_of (disturbed others n s) = channel_of s.
Proof. revert others s. induction n as [|n IH]; intros others s Hk; [done|]. cbn. rewrite IH by done. apply Hk. Qed.

(** A change of channel that succeeds moves the radio and the stack, one that fails neither. *)
Lemma channel_migrated c others s r :
  eff_post (set_channel c others) (s, r) (fun answer x => match answer with
    | inl _ => channel_of x.1 = c /\ Radio.tuned x.2 = c
    | inr _ => x.1 = others s /\ Radio.tuned x.2 = Radio.tuned r
    end).
Proof.
  unfold set_channel. apply eff_post_bind. intros answer x ([a r'] & Ha & [= <- <-])%bind_ok. cbn [fst snd].
  pose proof (Radio.set_channel_tunes c r _ _ Ha) as Ht. destruct a as [[]|err]; [|done]. by apply eff_post_modify.
Qed.

Section Scan.
Context `{!AbstractBits Mac.FrameControl, !AbstractBits Mac.SuperframeSpecification, !AbstractBits Mac.AssociationRequestCommand}.
Context `{!AbstractBits Mac.AssociationResponseCommand, !AbstractBits Mac.DisassociationNotificationCommand}.

(** The steps of a scan: the stack and the radio when the lock is granted, and what the block that
    holds the radio answered. *)
Lemma scan_steps n channels until_lock others s r answer s' r' :
  run_network_scan n channels until_lock others (s, r) = Ok (answer, (s', r')) ->
  exists psdu s1, channel_of s1 = channel_of s /\ s' = scan_ended (others (until_lock (s1, r)).1) /\
    scan_radio psdu n (channel_of s) channels (until_lock (s1, r)).2 = Ok (answer, r').
Proof.
  unfold run_network_scan. intros ([x y] & Hx & Hk)%bind_ok. apply bind_ok in Hx as ([bs s1] & Hb & [= <- <-]).
  assert (channel_of s1 = channel_of s) as Hs1.
  { revert Hb. unfold beacon_request_psdu. by intros (b & _ & [= _ <-])%bind_ok. }
  exists bs, s1. split; [done|]. apply bind_ok in Hk as ([z y] & [= <- <-] & Hk). apply bind_ok in Hk as ([z y] & [= <- <-] & Hk).
  apply bind_ok in Hk as ([z y] & Hz & Hk). apply bind_ok in Hz as ([a x] & Ha & [= <- <-]). apply bind_ok in Ha as ([b r2] & Hs & [= <- <-]).
  apply bind_ok in Hk as ([z y] & [= <- <-] & Hk). rewrite <- Hs1. unfold channel_of at 1. rewrite Hs. destruct b as [[]|err]; by injection Hk as <- <- <-.
Qed.

(** C28: a network scan takes the radio back to the channel that the stack was on when the scan was
    asked for, on any radio that keeps the laws of the interface and answers the two restoring calls,
    whether the sweep finished or a retune or a beacon request failed on the way; only a radio that
    could not be made promiscuous at the start stays where it was. So a scan beside which nobody
    changes the channel, of a radio tuned to the channel of the stack, leaves it tuned to the channel
    of the stack. Without that condition it does not: the channel is read before the lock on the radio
    is taken, so a change of channel that completes while the scan waits for the lock is undone on the
    radio, and the stack believes itself on the new channel while the radio listens on the old one. *)
Theorem scan_returns_home n channels until_lock others s (r : R) answer s' r' :
  restorable (R:=R) (channel_of s) -> run_network_scan n channels until_lock others (s, r) = Ok (answer, (s', r')) ->
  (Radio.tuned r' = channel_of s \/
     exists err s1, answer = inr err /\ Radio.set_promiscuous true (until_lock (s1, r)).2 = Ok (inr err, r') /\
       Radio.tuned r' = Radio.tuned (until_lock (s1, r)).2) /\
  ((forall x, channel_of (until_lock x).1 = channel_of x.1 /\ Radio.tuned (until_lock x).2 = Radio.tuned x.2) ->
   (forall s, channel_of (others s) = channel_of s) -> Radio.tuned r = channel_of s -> Radio.tuned r' = channel_of s') /\
  (forall c, answer = inl tt -> (forall x, channel_of (until_lock x).1 = c) -> (forall s, channel_of (others s) = channel_of s) ->
   channel_of s' = c /\ Radio.tuned r' = channel_of s).
Proof.
  intros Hres (psdu & s1 & Hs1 & -> & Hs)%scan_steps. pose proof (scan_failed_home _ _ _ _ _ _ _ Hres Hs) as Hhome. split_and!.
  - destruct Hhome as [?|(err & -> & Hp)]; [by left|]. right. exists err, s1. split_and!; [done..|]. exact (Radio.set_promiscuous_tuned true _ _ _ Hp).
  - intros Hlock Hoth Hr. destruct (Hlock (s1, r)) as [Hc Ht]. change (Radio.tuned r' = channel_of (others (until_lock (s1, r)).1)). rewrite Hoth, Hc.
    cbn [fst snd] in *. destruct Hhome as [->|(err & _ & Hp)]; [done|]. rewrite (Radio.set_promiscuous_tuned true _ _ _ Hp), Ht. congruence.
  - intros c -> Hlock Hoth. change (channel_of (others (until_lock (s1, r)).1) = c /\ Radio.tuned r' = channel_of s). rewrite Hoth, Hlock. split; [done|].
    by destruct Hhome as [?|(err & ? & _)].
Qed.
End Scan.

(** C25: after a change of channel, a reset of the radio does not take the network back: whatever the
    reset left of the radio, when the recovery task is told of it its loop ends as soon as the radio
    accepts a configuration, and the radio then listens on the new channel, with the addresses and
    the table of polls of the stack as it was when that attempt began; the table noted as written is
    the one the radio was given. The other tasks may do anything between the attempts but change
    the channel again. *)
Theorem migration_survives_reset patience c others' s r s1 r1 ev others r2 :
  set_channel c others' (s, r) = Ok (inl tt, (s1, r1)) -> heals patience -> (forall k s, channel_of (others k s) = channel_of s) ->
  exists k s3 r0 r3, let s0 := disturbed others k s1 in
    recovery_turn e power (Some ev) (S (patience r2)) others (s1, r2) = Ok (inl true, (s3, r3)) /\
    Radio.reconfigure (radio_config e s0 power).1 r0 = Ok (inl tt, r3) /\
    Radio.tuned r3 = c /\ channel_of s3 = c /\ src_match_written s3 = poll_table s0.
Proof.
  intros Hc Hh Hk. destruct (channel_migrated c others' s r _ _ Hc) as [Hs1 _]. cbn [fst] in Hs1.
  destruct (reprogrammed patience others (S (patience r2)) s1 r2 Hh) as (k & r0 & r3 & Hx & Hr); [lia|]. cbv zeta in Hx, Hr.
  pose proof (disturbed_channel others (2 * k) s1 Hk) as Hd. eexists (2 * k)%nat, _, r0, r3. cbv zeta. split_and!; [exact Hx|exact Hr| | |done].
  - rewrite (Radio.reconfigure_tunes _ _ _ _ Hr). cbn. by rewrite <- Hs1, <- Hd.
  - change (channel_of (others (2 * k)%nat (disturbed others (2 * k) s1)) = c). by rewrite Hk, Hd.
Qed.
End Facts.
End StackRecovery.
