(* ===== verification/StackSteps.v ===== *)
(** * What the handlers may do to the stack

    Every handler of the driver changes the parts of the state the theorems are about (the address
    map, the security counters, the notification queue, the send table and its slots) through a few
    operations only. [Closed P] says that a predicate survives these operations; a handler is proved
    once to preserve every closed predicate, and an invariant of the whole stack is then a matter of
    showing it closed. The first argument of a predicate is the list of send-table actions that were
    returned and are still to be carried out. *)

From S2P Require Import Prelude Flat Types Constants AbstractBits Mac Neighbors Routing NwkBroadcasts NwkSecurity Addresses Budget.
From S2P Require Import SendTypes Unicasts Unrouted BroadcastSends Sends SendLoops Crypto NwkCommands NwkFrame Receive NextHop ApsFrame ApsSecurity.
From S2P Require Import ApsSecurityFacts Zdp Stack StackSend StackNwk StackAps StackJoin StackRun.

(** Whatever a computation returns satisfies [Q]. *)
Definition post {A} (m : may A) (Q : A -> Prop) : Prop := forall x, m = Ok x -> Q x.

Lemma post_ok {A} (x : A) (Q : A -> Prop) : Q x -> post (Ok x) Q.
Proof. by intros ? ? [= <-]. Qed.

Lemma post_panic {A} (Q : A -> Prop) : post Panic Q.
Proof. by intros ?. Qed.

Lemma post_any {A} (m : may A) : post m (fun _ => True).
Proof. done. Qed.

Lemma post_bind {A B} (R : A -> Prop) (m : may A) (k : A -> may B) Q : post m R -> (forall x, R x -> post (k x) Q) -> post (m ≫= k) Q.
Proof. intros Hm Hk y (x & Hx & Hy)%bind_ok. by eapply Hk; [apply Hm|]. Qed.

Lemma post_mono {A} (m : may A) (Q R : A -> Prop) : post m Q -> (forall x, Q x -> R x) -> post m R.
Proof. intros Hm HQ x Hx. by apply HQ, Hm. Qed.

Lemma post_bind_eq {A B} (m : may A) (k : A -> may B) Q : (forall x, m = Ok x -> post (k x) Q) -> post (m ≫= k) Q.
Proof. intros Hk y (x & Hx & Hy)%bind_ok. by eapply Hk. Qed.

Create HintDb closed.

Module StackSteps.
Import Stack StackSend StackNwk StackAps StackJoin StackRun.

Abbreviation table_op := (Sends.Op Frame Slot DeliveryError bool).

(** The parts of the state the theorems are about are untouched. *)
Record same (s s' : t) : Prop := mkSame {
  same_addresses : address_map (the_nib s') = address_map (the_nib s);
  same_nwk : nwk_security (the_nib s') = nwk_security (the_nib s);
  same_aps : aps s' = aps s;
  same_sends : sends (core s') = sends (core s);
  same_slots : slots s' = slots s;
  same_notifications : notifications s' = notifications s
}.

#[export] Instance same_preorder : PreOrder same.
Proof. split; [by split|]. intros x y z [] []. split; by etrans. Qed.

(** The calls that admit a send, and those that only move sends that are there. *)
Definition admits (op : table_op) : Prop :=
  match op with
  | Sends.EnqueueUnicast _ _ _ | Sends.EnqueueBroadcastCopy _ _ _ _ | Sends.EnqueueUnrouted _ _ _ => True
  | Sends.EnqueueBroadcast b _ _ => BroadcastSends.schedulable (BroadcastSends.b_schedule b)
  | _ => False
  end.
Definition moves (table : SendTable) (op : table_op) : Prop :=
  match op with
  | Sends.Poll _ _ _ | Sends.ApsAckReceived _ | Sends.FailUnrouted _ | Sends.RouteUnicasts _ _ _ _ _ | Sends.BroadcastDelivered _
  | Sends.DropIndirect _ _ | Sends.Cancel _ | Sends.Tick _ => True
  | Sends.RetryDiscovery dest => Sends.has_unrouted table dest = true
  | _ => False
  end.

Section Closed.
Context `{!ApsFrame.ApsCodecs, !AbstractBits NwkFrame.NwkSecurityHeaderControlField, !Ccm, !BlockCipher}.

Record Closed (P : SendActions -> t -> Prop) : Prop := {
  cl_same p s s' : P p s -> same s s' -> P p s';
  cl_address p s m : P p s -> AddressMap.step (address_map (the_nib s)) m -> P p (with_address_map s m);
  cl_aps p s ev x : P p s -> ApsSecurityFacts.step (aps s) ev x -> P p (with_aps_security s x);
  cl_noted p s eui64 counter : P p s ->
    match FlatMap.get (NwkSecurity.incoming (nwk_security (the_nib s))) eui64 with Some last => last < counter | None => True end ->
    P p (with_nwk_security s (NwkSecurity.note_inbound_frame_counter (nwk_security (the_nib s)) eui64 counter).2);
  cl_counter p s advance x : P p s -> NwkSecurity.next_outgoing_frame_counter (nwk_security (the_nib s)) = Ok (advance, x) ->
    P p (with_nwk_security s x);
  cl_push p s n : P p s -> P p (push_notification s n);
  cl_taken p s : P p s -> P p (set_notifications s []);
  cl_admit p s op table out : P p s -> admits op -> Sends.exec (sends (core s)) op = Ok (table, out) ->
    Sends.out_admitted out = [length (slots s)] -> P p (with_sends (new_slot s).2 table);
  cl_move p s op table out : P p s -> moves (sends (core s)) op -> Sends.exec (sends (core s)) op = Ok (table, out) ->
    P (p ++ Sends.out_actions out) (with_sends s table);
  cl_handed p s slot : P (HandedOff slot :: p) s -> P p (on_slot s slot slot_handed_off);
  cl_settled p s slot result f hop : P (Settled slot result f hop :: p) s -> P p (on_slot s slot (slot_settled result))
}.

Context (P : SendActions -> t -> Prop) (HP : Closed P).

(** The tunables are unsigned. *)
Definition unsigned (e : Env) : Prop := forall f, 0 <= Tunables.load (tunables e) f.

Lemma cl_with_same p s s' : same s s' -> P p s -> P p s'.
Proof. intros Hs Hp. by eapply (cl_same P HP). Qed.

(** ** Sends *)
Section Handlers.
Context (e : Env) (He : unsigned e).

Lemma checked_nonzero m x y : 0 <= x -> checked_add m x 1 = Some y -> y <> 0.
Proof. unfold checked_add. destruct (_ <=? _); [|done]. intros ? [= <-]. lia. Qed.

Lemma enqueue_unicast_cl p s f pol c hop poll :
  P p s -> post (enqueue_unicast e s f pol c hop poll) (fun r => P p r.2).
Proof.
  intros Hp. unfold enqueue_unicast. cbn [new_slot]. apply post_bind_eq. intros [id table] Ht. apply post_ok. cbn [snd].
  eapply (cl_admit P HP p s (Sends.EnqueueUnicast _ (now e) (tunables e)) table); [done..| |].
  - cbn [Sends.exec]. cbn [sends core set_slots new_slot] in Ht. rewrite Ht. reflexivity.
  - done.
Qed.

Lemma enqueue_broadcast_cl p s f pol schedule :
  BroadcastSends.schedulable schedule -> P p s -> post (enqueue_broadcast e s f pol schedule) (fun r => P p r.2).
Proof.
  intros Hs Hp. unfold enqueue_broadcast. cbn [new_slot]. apply post_bind_eq. intros [id table] Ht. apply post_ok. cbn [snd].
  eapply (cl_admit P HP p s (Sends.EnqueueBroadcast _ (now e) (tunables e)) table); [done| | |].
  2: { cbn [Sends.exec]. cbn [sends core set_slots new_slot] in Ht. rewrite Ht. reflexivity. }
  - exact Hs.
  - done.
Qed.

Lemma fan_out_copy_cl p s f sec copy_of child : P p s -> post (fan_out_copy e s f sec copy_of child) (P p).
Proof.
  intros Hp. unfold fan_out_copy. cbn [new_slot]. apply post_bind_eq. intros [id table] Ht. apply post_ok.
  cbn [sends core set_slots] in Ht. destruct copy_of as [b|].
  - eapply (cl_admit P HP p s (Sends.EnqueueBroadcastCopy b _ (now e) (tunables e)) table); [done..| |];
      [cbn [Sends.exec]; rewrite Ht; reflexivity|done].
  - eapply (cl_admit P HP p s (Sends.EnqueueUnicast _ (now e) (tunables e)) table); [done..| |];
      [cbn [Sends.exec]; rewrite Ht; reflexivity|done].
Qed.

Lemma enqueue_unrouted_cl p s u id table :
  P p s -> Unrouted.uu_waiter u = length (slots s) ->
  Sends.enqueue_unrouted_unicast (sends (core s)) u (now e) (tunables e) = Ok (id, table) -> P p (with_sends (new_slot s).2 table).
Proof.
  intros Hp Hu Ht. eapply (cl_admit P HP p s (Sends.EnqueueUnrouted u (now e) (tunables e)) table); [done..| |].
  - cbn [Sends.exec]. rewrite Ht. reflexivity.
  - by rewrite <- Hu.
Qed.

(** ** The automation: the middle predicate of a bind is chosen by its type *)
Ltac leaf :=
  lazymatch goal with
  | |- P ?p (push_notification ?s _) => apply (cl_push P HP); leaf
  | |- P ?p (if ?b then _ else _) => destruct b; leaf
  | |- P ?p (match ?x with _ => _ end) => destruct x; leaf
  | |- P ?p ?s' =>
      first [assumption
            | match goal with Hs : P p ?s |- _ => apply (cl_with_same p s s'); [split; reflexivity|exact Hs] end
            | solve [eauto with closed]]
  end.

Ltac branch := lazymatch goal with |- post (match ?x with _ => _ end) _ => destruct x end.

Ltac walk_step p :=
  lazymatch goal with
  | |- post (Ok _) _ => apply post_ok; cbn [fst snd]
  | |- post Panic _ => apply post_panic
  | |- post (mbind _ (unwrap ?o)) _ =>
      let x := fresh "x" in let Hx := fresh "Hx" in
      destruct o as [x|] eqn:Hx; cbn [unwrap mbind res_bind]; [|apply post_panic]
  | |- post (mbind _ ?m) _ =>
      lazymatch type of m with
      | res _ t => apply (post_bind (P p)); [|let s := fresh "s" in let Hs := fresh "Hs" in intros s Hs]
      | res _ (_ * t) =>
          apply (post_bind (fun r => P p r.2)); [|let x := fresh "x" in let s := fresh "s" in let Hs := fresh "Hs" in intros [x s] Hs; cbn [snd] in Hs]
      | _ => apply post_bind_eq; let x := fresh "x" in let Hx := fresh "Hx" in intros x Hx
      end
  | |- post (let '_ := ?x in _) _ => destruct x eqn:?
  | |- post (match ?x with _ => _ end) _ => destruct x eqn:?
  end.
Ltac walk p :=
  repeat first [progress (cbn beta zeta iota) | solve [eauto with closed] | walk_step p | leaf].
(** With no action pending. *)
Ltac walk0 := walk (@nil (Action Frame Slot DeliveryError)).
Ltac handler f := let p := fresh "p" in intros; lazymatch goal with Hs : P ?p _ |- _ => unfold f; walk p end.

#[local] Hint Resolve enqueue_unicast_cl fan_out_copy_cl : closed.

Lemma next_seq_cl p s z s' : next_nwk_sequence_number s = (z, s') -> P p s -> P p s'.
Proof. intros [= <- <-] Hs. leaf. Qed.
#[local] Hint Extern 1 (P _ ?s) => match goal with Hn : next_nwk_sequence_number _ = (_, s) |- _ => eapply next_seq_cl; [exact Hn|leaf] end : closed.

Lemma broadcast_route_request_cl p s f attempts delay :
  attempts <> 0 -> P p s -> post (broadcast_route_request e s f attempts delay) (P p).
Proof. intros Ha Hs. unfold broadcast_route_request. walk p. apply enqueue_broadcast_cl; [by right|done]. Qed.

Lemma start_route_discovery_cl p s dest : P p s -> post (start_route_discovery e s dest) (P p).
Proof.
  intros Hs. unfold start_route_discovery. destruct (Routing.begin_discovery _ _ _ _ _) as [id r]. cbn [next_nwk_sequence_number next_sequence_number].
  walk p. apply broadcast_route_request_cl; [by eapply checked_nonzero; [apply He|]|leaf].
Qed.
#[local] Hint Resolve start_route_discovery_cl : closed.

Lemma send_unicast_cl p s send : P p s -> post (send_unicast e s send) (fun r => P p r.2).
Proof.
  intros Hs. unfold send_unicast. case_match; [apply post_panic|]. destruct (next_nwk_sequence_number s) as [n s1] eqn:Hn.
  apply post_bind_eq. intros [[hop| |] f] Hf; [walk p| |walk p]. cbn [new_slot]. apply post_bind_eq. intros [id table] Ht. cbn beta iota zeta.
  assert (P p (with_sends (new_slot s1).2 table)) as Hs2 by (eapply enqueue_unrouted_cl; [leaf| |exact Ht]; done).
  walk p.
Qed.
#[local] Hint Resolve send_unicast_cl : closed.

Lemma send_unicast_detached_cl p s send : P p s -> post (send_unicast_detached e s send) (P p).
Proof. handler send_unicast_detached. Qed.
#[local] Hint Resolve send_unicast_detached_cl : closed.

Lemma note_delivery_failure_cl p s : P p s -> P p (note_delivery_failure e s).
Proof. intros Hs. unfold note_delivery_failure. leaf. Qed.
Lemma note_route_error_cl p s : P p s -> P p (note_route_error e s).
Proof. intros Hs. unfold note_route_error. leaf. Qed.
#[local] Hint Resolve note_delivery_failure_cl note_route_error_cl : closed.

Lemma handle_relay_failure_cl p s f hop : P p s -> post (handle_relay_failure e s f hop) (P p).
Proof. intros Hs. unfold handle_relay_failure. apply send_unicast_detached_cl. leaf. Qed.
#[local] Hint Resolve handle_relay_failure_cl : closed.

Lemma handle_unicast_send_failure_cl p s f hop : P p s -> post (handle_unicast_send_failure e s f hop) (P p).
Proof.
  intros Hs. unfold handle_unicast_send_failure. case_match; [by apply handle_relay_failure_cl|]. apply post_ok.
  case_bool_decide; [apply note_delivery_failure_cl|]; leaf.
Qed.
#[local] Hint Resolve handle_unicast_send_failure_cl : closed.

(** The actions of the table, carried out. *)
Lemma run_action_cl p s a : P (a :: p) s -> post (run_action e s a) (P p).
Proof.
  intros Hs. destruct a as [slot|slot result f failed_hop]; cbn [run_action]; [apply post_ok; by apply (cl_handed P HP)|].
  apply (post_bind (P (Settled slot result f failed_hop :: p))).
  - destruct failed_hop, f; eauto using post_ok with closed.
  - intros s' Hs'. apply post_ok. by eapply (cl_settled P HP).
Qed.

Lemma run_send_actions_cl p a s : P (a ++ p) s -> post (run_send_actions e s a) (P p).
Proof.
  revert s. induction a as [|x a IH]; intros s Hs; [by apply post_ok|]. cbn [run_send_actions].
  apply (post_bind (P (a ++ p))); [by apply run_action_cl|]. intros s' Hs'. by apply IH.
Qed.

(** A table call and its actions. *)
Lemma commit_cl s op table out :
  P [] s -> moves (sends (core s)) op -> Sends.exec (sends (core s)) op = Ok (table, out) ->
  post (commit_sends e s (table, Sends.out_actions out)) (P []).
Proof.
  intros Hs Hm Hx. unfold commit_sends. cbn [fst snd]. apply run_send_actions_cl. rewrite app_nil_r.
  by eapply (cl_move P HP [] s op).
Qed.

Lemma cancel_send_cl s id : P [] s -> post (cancel_send e s id) (fun r => P [] r.2).
Proof.
  intros Hs. unfold cancel_send. apply post_bind_eq. intros [[a|] table] Ht; [|by apply post_ok].
  apply (post_bind (P [])); [|intros s' Hs'; by apply post_ok].
  eapply (commit_cl s (Sends.Cancel id) table (Sends.mkOutcome [] None a [])); [done..|]. cbn [Sends.exec]. by rewrite Ht.
Qed.

(** ** The timer pass

    [drive_sends] reads the awaited destinations once and handles each: handling one leaves the
    others awaited, so the discovery of every one of them may be retried. *)
Definition awaited (s : t) (dest : Nwk) : Prop := Sends.has_unrouted (sends (core s)) dest = true.
Definition others_awaited (s s' : t) (dest : Nwk) : Prop := forall d, d <> dest -> awaited s d -> awaited s' d.

Lemma contains_remove_ne (m : FlatMap.t Z Z) dest d :
  d <> dest -> FlatMap.contains_key m d = true -> FlatMap.contains_key (FlatMap.remove m dest).2 d = true.
Proof. intros Hne. rewrite !FlatMap.contains_key_get. by rewrite FlatMap.get_remove_ne. Qed.

Lemma take_retries {F W} (u : Unrouted.t F W) dest taken u' :
  Unrouted.take u dest = Ok (taken, u') -> Unrouted.retries u' = Unrouted.retries u.
Proof. unfold Unrouted.take. by intros ([? m] & _ & [= <- <-])%bind_ok. Qed.

Lemma route_unicasts_others resolve s dest now tun c c' table a :
  Sends.route_unicasts (C:=bool) resolve (sends (core s)) dest now tun c = Ok (c', table, a) -> others_awaited s (with_sends s table) dest.
Proof.
  unfold Sends.route_unicasts. intros ([u a1] & Hu & Hk)%bind_ok. apply bind_ok in Hk as ([taken u2] & Hr & Hk).
  destruct (Sends.route_each _ _ _ _ _ _ _) as [[c1 m] a2]. injection Hk as <- <- <-. intros d Hd. unfold awaited, Sends.has_unrouted, Unrouted.has_unrouted.
  cbn [sends core with_sends on_core set_core set_sends Sends.unrouted_unicasts]. unfold Unrouted.route in Hr. apply take_retries in Hr. rewrite Hr.
  cbn [Unrouted.retries]. unfold Unrouted.tick in Hu. apply bind_ok in Hu as ([? ?] & _ & [= <- <-]). by apply contains_remove_ne.
Qed.

Lemma fail_unrouted_others s dest table a :
  Sends.fail_unrouted (sends (core s)) dest = Ok (table, a) -> others_awaited s (with_sends s table) dest.
Proof.
  unfold Sends.fail_unrouted, Unrouted.fail. intros ([u a1] & Hu & [= <- <-])%bind_ok. apply bind_ok in Hu as ([taken u1] & Ht & [= <- <-]).
  apply take_retries in Ht. intros d Hd. unfold awaited, Sends.has_unrouted, Unrouted.has_unrouted.
  cbn [sends core with_sends on_core set_core set_sends Sends.unrouted_unicasts Sends.set_unrouted]. rewrite Ht. by apply contains_remove_ne.
Qed.

Lemma retry_discovery_awaited s dest b table d :
  Sends.retry_discovery (sends (core s)) dest = Ok (b, table) -> awaited s d -> awaited (with_sends s table) d.
Proof.
  unfold Sends.retry_discovery, Unrouted.retry_discovery. intros ([b' u] & Hu & [= <- <-])%bind_ok. apply bind_ok in Hu as (n & _ & Hk).
  unfold awaited, Sends.has_unrouted, Unrouted.has_unrouted. destruct (_ || _); injection Hk as <- <-; [done|].
  cbn [sends core with_sends on_core set_core set_sends Sends.unrouted_unicasts Sends.set_unrouted Unrouted.retries].
  rewrite !FlatMap.contains_key_get. destruct (decide (d = dest)) as [->|Hne]; [rewrite FlatMap.get_modify_eq|by rewrite FlatMap.get_modify_ne].
  by destruct (FlatMap.get _ dest).
Qed.

(** A discovery is a broadcast: it leaves the unrouted sends alone. *)
Lemma start_route_discovery_awaited s dest d : awaited s d -> post (start_route_discovery e s dest) (fun s' => awaited s' d).
Proof.
  intros Ha. unfold start_route_discovery, broadcast_route_request, enqueue_broadcast.
  destruct (Routing.begin_discovery _ _ _ _ _) as [id r]. cbn [next_nwk_sequence_number next_sequence_number new_slot].
  apply post_bind_eq. intros n _. apply post_bind_eq. intros [h s2] Hs2. apply post_ok. revert Hs2.
  intros ([i table] & Ht & [= <- <-])%bind_ok. revert Ha. unfold awaited.
  unfold Sends.enqueue_broadcast in Ht. apply bind_ok in Ht as ([i' s1] & Ht & [= <- <-]). unfold Sends.take_id in Ht.
  by apply bind_ok in Ht as (n' & _ & [= <- <-]).
Qed.

Lemma settle_quorums_cl p s keys : P p s -> post (settle_quorums e s keys) (fun r => P (p ++ r.2) r.1).
Proof.
  revert p s. induction keys as [|key keys IH]; intros p s Hs; [apply post_ok; cbn [fst snd]; by rewrite app_nil_r|]. cbn [settle_quorums].
  apply (post_bind (fun r => P (p ++ r.2) r.1)).
  - case_match; [|apply post_ok; cbn [fst snd]; by rewrite app_nil_r]. apply post_bind_eq. intros [table a] Ht. apply post_ok. cbn [fst snd].
    eapply (cl_move P HP p s (Sends.BroadcastDelivered key) table (Sends.mkOutcome [] None a [])); [done..|]. cbn [Sends.exec]. by rewrite Ht.
  - intros [s1 a] Hs1. cbn [fst snd] in Hs1. apply (post_bind (fun r => P ((p ++ a) ++ r.2) r.1)); [by apply IH|].
    intros [s2 b] Hs2. apply post_ok. cbn [fst snd] in *. by rewrite app_assoc.
Qed.

Lemma drive_unrouted_cl p s dest :
  P p s -> awaited s dest -> post (drive_unrouted e s dest) (fun r => P (p ++ r.2) r.1 /\ others_awaited s r.1 dest).
Proof.
  intros Hs Ha. unfold drive_unrouted. case_match; [|case_match].
  - apply post_bind_eq. intros [[panicked table] a] Ht. case_match; [apply post_panic|]. apply post_ok. cbn [fst snd]. split.
    + eapply (cl_move P HP p s (Sends.RouteUnicasts (resolve_routed_unicast e (the_nib s)) false dest (now e) (tunables e)) table
        (Sends.mkOutcome [] None a [])); [done..|]. cbn [Sends.exec]. by rewrite Ht.
    + by eapply route_unicasts_others.
  - apply post_bind_eq. intros [retry table] Ht.
    assert (P p (with_sends s table)) as Hs1.
    { rewrite <- (app_nil_r p).
      eapply (cl_move P HP p s (Sends.RetryDiscovery dest) table (Sends.mkOutcome [] None [] [])); [done..|]. cbn [Sends.exec]. by rewrite Ht. }
    pose proof (fun d => retry_discovery_awaited s dest retry table d Ht) as Hd. case_match.
    + apply (post_bind (fun s' => P p s' /\ others_awaited s s' dest)).
      * intros s' Hs'. split; [by eapply start_route_discovery_cl|]. intros d _ Hw. by eapply start_route_discovery_awaited; [apply Hd|].
      * intros s' [??]. apply post_ok. cbn [fst snd]. by rewrite app_nil_r.
    + apply post_bind_eq. intros [table' a] Ht'. apply post_ok. cbn [fst snd]. split.
      * match type of Ht' with Sends.fail_unrouted (sends (core ?x)) _ = _ =>
          eapply (cl_move P HP p x (Sends.FailUnrouted dest) table' (Sends.mkOutcome [] None a [])) end; [leaf|done|].
        cbn [Sends.exec]. by rewrite Ht'.
      * intros d Hne Hw. by eapply (fail_unrouted_others (with_sends s table)); [exact Ht'|done|apply Hd].
  - apply post_ok. cbn [fst snd]. rewrite app_nil_r. split; [done|]. by intros d _.
Qed.

Lemma drive_each_cl p s dests :
  NoDup dests -> Forall (awaited s) dests -> P p s -> post (drive_each e s dests) (fun r => P (p ++ r.2) r.1).
Proof.
  intros Hnd. revert p s. induction Hnd as [|dest dests Hin Hnd IH]; intros p s Ha Hs; [apply post_ok; cbn [fst snd]; by rewrite app_nil_r|].
  apply Forall_cons in Ha as [Hd Ha]. cbn [drive_each]. apply (post_bind (fun r => P (p ++ r.2) r.1 /\ others_awaited s r.1 dest)); [by apply drive_unrouted_cl|].
  intros [s1 a] [Hs1 Ho]. cbn [fst snd] in *. apply (post_bind (fun r => P ((p ++ a) ++ r.2) r.1)).
  - apply IH; [|done]. rewrite Forall_forall in Ha |- *. intros d Hd'. apply Ho; [by intros ->|by apply Ha].
  - intros [s2 b] Hs2. apply post_ok. cbn [fst snd] in *. by rewrite app_assoc.
Qed.

Lemma destinations_awaited s : NoDup (Sends.unrouted_destinations (sends (core s))) /\ Forall (awaited s) (Sends.unrouted_destinations (sends (core s))).
Proof.
  split; [apply FlatMap.NoDup_keys|]. apply Forall_forall. intros d Hd. unfold awaited, Sends.has_unrouted, Unrouted.has_unrouted.
  by apply FlatMap.contains_key_get, FlatMap.elem_of_keys.
Qed.

Lemma drive_sends_cl s : P [] s -> post (drive_sends e s) (fun r => P [] r.2).
Proof.
  intros Hs. unfold drive_sends. apply (post_bind (fun r => P r.2 r.1)); [by apply (settle_quorums_cl [])|]. intros [s1 a] Hs1. cbn [fst snd] in Hs1.
  destruct (destinations_awaited s1) as [Hnd Ha].
  apply (post_bind (fun r => P (a ++ r.2) r.1)); [by apply drive_each_cl|]. intros [s2 b] Hs2. cbn [fst snd] in Hs2.
  apply post_bind_eq. intros [table c] Ht. cbn beta zeta iota. apply (post_bind (P [])); [|intros s' Hs'; by apply post_ok].
  apply run_send_actions_cl. rewrite app_nil_r, app_assoc.
  eapply (cl_move P HP _ s2 (Sends.Tick (now e)) table (Sends.mkOutcome [] None c [])); [done..|]. cbn [Sends.exec]. by rewrite Ht.
Qed.

(** ** Broadcasts *)
Lemma fan_out_copies_cl p s f sec copy_of children : P p s -> post (fan_out_copies e s f sec copy_of children) (P p).
Proof.
  revert s. induction children as [|child children IH]; intros s Hs; [by apply post_ok|]. cbn [fan_out_copies].
  apply (post_bind (P p)); [by apply fan_out_copy_cl|]. intros s' Hs'. by apply IH.
Qed.

Lemma maybe_fan_out_cl p s f sec copy_of : P p s -> post (maybe_fan_out_broadcast_to_sleepy_children e s f sec copy_of) (P p).
Proof. intros Hs. unfold maybe_fan_out_broadcast_to_sleepy_children. case_match; [by apply post_ok|by apply fan_out_copies_cl]. Qed.
#[local] Hint Resolve maybe_fan_out_cl : closed.

Lemma broadcast_copies_nonzero n : broadcast_copies e = Ok n -> n <> 0.
Proof. unfold broadcast_copies. destruct (checked_add _ _ _) eqn:Hc; [|done]. intros [= <-]. by eapply checked_nonzero; [apply He|]. Qed.

Lemma send_broadcast_cl p s send : P p s -> post (send_broadcast e s send) (fun r => P p r.2).
Proof.
  intros Hs. unfold send_broadcast. apply post_bind_eq. intros [[|retry_in] budget] _; [|apply post_ok; leaf].
  cbn [next_nwk_sequence_number next_sequence_number]. apply post_bind_eq. intros n Hn%broadcast_copies_nonzero.
  apply (post_bind (fun r => P p r.2)); [apply enqueue_broadcast_cl; [by right|leaf]|]. intros [h s1] Hs1. cbn [snd] in Hs1. walk p.
Qed.

Lemma send_oneshot_broadcast_cl p s send : P p s -> post (send_oneshot_broadcast e s send) (fun r => P p r.2).
Proof. intros Hs. apply enqueue_broadcast_cl; [by left|leaf]. Qed.
#[local] Hint Resolve send_broadcast_cl send_oneshot_broadcast_cl : closed.

(** ** Children and addresses *)
Lemma drop_indirect_cl s eui64 nwk : P [] s -> post (drop_indirect_transactions e s eui64 nwk) (P []).
Proof.
  intros Hs. unfold drop_indirect_transactions. apply post_bind_eq. intros [table a] Ht.
  eapply (commit_cl s (Sends.DropIndirect eui64 nwk) table (Sends.mkOutcome [] None a [])); [done..|]. cbn [Sends.exec]. by rewrite Ht.
Qed.
#[local] Hint Resolve drop_indirect_cl : closed.

Lemma cleanup_moved_child_cl s eui64 nwk : P [] s -> post (cleanup_moved_child e s eui64 nwk) (P []).
Proof. handler cleanup_moved_child. Qed.
#[local] Hint Resolve cleanup_moved_child_cl : closed.

Lemma forget_moved_child_cl s eui64 : P [] s -> post (forget_moved_child e s eui64) (P []).
Proof. handler forget_moved_child. all: apply cleanup_moved_child_cl; leaf. Qed.
#[local] Hint Resolve forget_moved_child_cl : closed.

Lemma send_rejoin_response_cl p s dest dest_ieee assigned status secured :
  P p s -> post (send_rejoin_response e s dest dest_ieee assigned status secured) (P p).
Proof. intros Hs. by apply send_unicast_detached_cl. Qed.
#[local] Hint Resolve send_rejoin_response_cl : closed.

Lemma reassign_child_address_cl p s eui64 old : P p s -> post (reassign_child_address e s eui64 old) (P p).
Proof. handler reassign_child_address. Qed.
#[local] Hint Resolve reassign_child_address_cl : closed.

Lemma forget_address_cl p s nwk : P p s -> P p (with_address_map s (AddressMap.forget_address (address_map (the_nib s)) nwk)).
Proof. intros Hs. apply (cl_address P HP); [done|apply AddressMap.step_forget]. Qed.

Lemma handle_address_conflict_cl p s address source : P p s -> post (handle_address_conflict e s address source) (P p).
Proof.
  intros Hs. unfold handle_address_conflict. branch; [apply post_ok; leaf|].
  set (s1 := set_address_conflicts s _). assert (P p s1) as Hs1 by leaf. clearbody s1. branch; [by apply post_ok|].
  branch; [by apply reassign_child_address_cl|]. pose proof (forget_address_cl p s1 address Hs1). apply post_ok. leaf.
Qed.
#[local] Hint Resolve handle_address_conflict_cl : closed.

Lemma update_nwk_eui64_mapping_cl p s nwk eui64 : P p s -> post (update_nwk_eui64_mapping e s nwk eui64) (P p).
Proof.
  intros Hs. unfold update_nwk_eui64_mapping. destruct (AddressMap.update_mapping _ _ _) as [conflict m] eqn:Hm.
  assert (P p (with_address_map s m)).
  { apply (cl_address P HP); [done|]. change m with ((conflict, m).2). rewrite <- Hm. apply AddressMap.step_update. }
  walk p.
Qed.
#[local] Hint Resolve update_nwk_eui64_mapping_cl : closed.

Lemma broadcast_reports_cl p s addresses : P p s -> post (broadcast_reports e s addresses) (P p).
Proof.
  revert s. induction addresses as [|a l IH]; intros s Hs; [by apply post_ok|]. cbn [broadcast_reports].
  apply (post_bind (fun r => P p r.2)); [by apply send_broadcast_cl|]. intros [h s'] Hs'. by apply IH.
Qed.

Lemma drive_conflict_reports_cl p s : P p s -> post (drive_conflict_reports e s) (P p).
Proof. intros Hs. apply broadcast_reports_cl. leaf. Qed.

Lemma maybe_relay_broadcast_cl p s f : P p s -> post (maybe_relay_broadcast e s f) (P p).
Proof.
  intros Hs. unfold maybe_relay_broadcast. do 2 (branch; [by apply post_ok|]). apply (post_bind (P p)); [by apply maybe_fan_out_cl|].
  intros s1 Hs1. case_match; [by apply post_ok|]. apply post_bind_eq. intros n Hn%broadcast_copies_nonzero.
  apply (post_bind (fun r => P p r.2)); [apply enqueue_broadcast_cl; [by right|done]|]. intros [h s2] Hs2. by apply post_ok.
Qed.
#[local] Hint Resolve maybe_relay_broadcast_cl : closed.

(** ** Neighbors and routes *)
Lemma invalidate_all_cl p s l : P p s -> P p (fold_left invalidate_routes_via l s).
Proof. revert s. induction l as [|x l IH]; intros s Hs; [done|]. cbn [fold_left]. apply IH. unfold invalidate_routes_via. leaf. Qed.

Lemma maybe_age_neighbors_cl p s : P p s -> P p (maybe_age_neighbors e s).
Proof. intros Hs. unfold maybe_age_neighbors. destruct (Neighbors.age _ _ _). apply invalidate_all_cl. leaf. Qed.
#[local] Hint Resolve maybe_age_neighbors_cl : closed.

Lemma maybe_recompute_lqa_cl p s nwk lqi : P p s -> post (maybe_recompute_lqa s nwk lqi) (P p).
Proof. handler maybe_recompute_lqa. Qed.
#[local] Hint Resolve maybe_recompute_lqa_cl : closed.

Lemma handle_link_status_cl p s f cmd lqi : P p s -> post (handle_link_status e s f cmd lqi) (P p).
Proof.
  intros Hs%maybe_age_neighbors_cl. unfold handle_link_status. set (s1 := maybe_age_neighbors e s) in *. clearbody s1. walk p.
Qed.
#[local] Hint Resolve handle_link_status_cl : closed.

Lemma send_link_statuses_cl p s cmds last : P p s -> post (send_link_statuses e s cmds last) (fun r => P p r.2).
Proof.
  revert s last. induction cmds as [|cmd cmds IH]; intros s last Hs; [by apply post_ok|]. cbn [send_link_statuses].
  apply (post_bind (fun r => P p r.2)); [by apply send_oneshot_broadcast_cl|]. intros [h s'] Hs'. by apply IH.
Qed.

Lemma send_link_status_broadcast_cl p s empty : P p s -> post (send_link_status_broadcast e s empty) (fun r => P p r.2).
Proof.
  intros Hs. unfold send_link_status_broadcast. branch; [by apply post_ok|]. cbv zeta.
  match goal with |- context [maybe_age_neighbors e ?x] =>
    assert (P p (maybe_age_neighbors e x)) as Hs1 by (apply maybe_age_neighbors_cl; leaf); generalize dependent (maybe_age_neighbors e x) end.
  intros s1 Hs1. apply post_bind_eq. intros cmds _. apply (post_bind (fun r => P p r.2)); [apply send_link_statuses_cl; leaf|].
  intros [h s2] Hs2. walk p.
Qed.

Lemma handle_route_reply_cl p s f cmd : P p s -> post (handle_route_reply e s f cmd) (P p).
Proof. handler handle_route_reply. apply send_unicast_detached_cl. leaf. Qed.

Lemma relay_route_request_cl p s h cmd cost : P p s -> post (relay_route_request e s h cmd cost) (P p).
Proof.
  intros Hs. unfold relay_route_request. set (s1 := if bool_decide _ then _ else s). assert (P p s1) as Hs1 by (subst s1; leaf). clearbody s1.
  walk p. apply broadcast_route_request_cl; [by eapply checked_nonzero; [apply He|]|done].
Qed.
#[local] Hint Resolve handle_route_reply_cl relay_route_request_cl : closed.

Lemma handle_route_request_cl p s f cmd sender : P p s -> post (handle_route_request e s f cmd sender) (P p).
Proof.
  intros Hs. unfold handle_route_request. branch; [|by apply post_ok]. branch; [by apply post_ok|]. cbv zeta. branch.
  match goal with |- context [with_routing s ?r] => assert (P p (with_routing s r)) as Hs1 by leaf; generalize dependent (with_routing s r) end.
  intros s1 Hs1. walk p.
Qed.

Lemma send_many_to_one_cl p s : P p s -> post (send_many_to_one_route_request e s) (fun r => P p r.2).
Proof. handler send_many_to_one_route_request. apply send_oneshot_broadcast_cl. leaf. Qed.

Lemma handle_network_status_cl p s cmd : P p s -> post (handle_network_status e s cmd) (P p).
Proof. intros Hs. unfold handle_network_status. branch; eauto using post_ok with closed; apply post_ok; try apply note_route_error_cl; leaf. Qed.

Lemma handle_route_record_cl p s source relays : P p s -> P p (handle_route_record s source relays).
Proof. intros Hs. unfold handle_route_record. destruct (Routing.store_route_record _ _ _) as [[|] r]; leaf. Qed.
#[local] Hint Resolve handle_route_request_cl handle_network_status_cl handle_route_record_cl : closed.

(** ** Joining and leaving *)
Lemma announce_join_cl p s nwk eui64 : P p s -> P p (announce_join e s nwk eui64).
Proof. intros Hs. unfold announce_join. destruct (device_join_capability _ _). leaf. Qed.
#[local] Hint Resolve announce_join_cl : closed.

Lemma handle_rejoin_request_cl p s f cmd secured : P p s -> post (handle_rejoin_request e s f cmd secured) (P p).
Proof.
  intros Hs. unfold handle_rejoin_request. branch; [|by apply post_ok]. cbv zeta. branch; [by apply send_rejoin_response_cl|].
  apply post_bind_eq. intros assigned _. apply (post_bind (P p)); [by apply update_nwk_eui64_mapping_cl|]. intros s1 Hs1.
  apply post_bind_eq. intros timeout _. apply (post_bind (P p)); [apply send_rejoin_response_cl; leaf|]. intros s2 Hs2. walk p.
Qed.
#[local] Hint Resolve handle_rejoin_request_cl : closed.

Lemma handle_leave_cl s f cmd : P [] s -> post (handle_leave e s f cmd) (P []).
Proof.
  intros Hs. unfold handle_leave. branch; [by apply post_ok|]. cbv zeta. apply (post_bind (P [])); [|intros s' Hs'; walk0].
  apply drop_indirect_cl. leaf.
Qed.

Lemma send_end_device_timeout_response_cl p s dest status : P p s -> post (send_end_device_timeout_response e s dest status) (P p).
Proof. intros Hs. by apply send_unicast_detached_cl. Qed.
#[local] Hint Resolve handle_leave_cl send_end_device_timeout_response_cl : closed.

Lemma handle_end_device_timeout_request_cl p s f cmd : P p s -> post (handle_end_device_timeout_request e s f cmd) (P p).
Proof. handler handle_end_device_timeout_request. apply send_end_device_timeout_response_cl. leaf. Qed.

Lemma handle_unsecured_nwk_frame_cl p s f : P p s -> post (handle_unsecured_nwk_frame e s f) (P p).
Proof. handler handle_unsecured_nwk_frame. Qed.
#[local] Hint Resolve handle_end_device_timeout_request_cl handle_unsecured_nwk_frame_cl : closed.

(** ** An authenticated NWK frame; its counter is noted first *)
Lemma handle_nwk_command_cl s f sender lqi : P [] s -> post (handle_nwk_command e s f sender lqi) (P []).
Proof. intros Hs. unfold handle_nwk_command. walk0. Qed.
#[local] Hint Resolve handle_nwk_command_cl : closed.

Lemma filter_broadcast_cl p s f sender b s' : filter_broadcast e s f sender = (b, s') -> P p s -> P p s'.
Proof.
  unfold filter_broadcast. destruct (negb _ && _); [by intros [= <- <-]|]. destruct (NwkBroadcasts.filter_received _ _ _ _ _ _ _) as [d b'].
  intros [= <- <-] Hs. leaf.
Qed.

Lemma handle_broadcast_cl p s f sender : P p s -> post (handle_broadcast e s f sender) (fun r => P p r.2).
Proof.
  intros Hs. unfold handle_broadcast. destruct (filter_broadcast e s f sender) as [b s'] eqn:Hf. eapply filter_broadcast_cl in Hf; [|done]. walk p.
Qed.
#[local] Hint Resolve handle_broadcast_cl : closed.

Lemma handle_decrypted_frame_cl s f sender lqi :
  P [] (note_relayer_counter s f) -> post (handle_decrypted_frame e s f sender lqi) (P []).
Proof.
  intros Hs. unfold handle_decrypted_frame. set (s1 := note_relayer_counter s f) in *. clearbody s1.
  apply (post_bind (P [])); [branch; eauto using post_ok with closed|]. intros s2 Hs2.
  apply (post_bind (P [])); [branch; [branch|]; eauto using post_ok with closed|]. intros s3 Hs3%maybe_age_neighbors_cl.
  apply (post_bind (P [])); [by apply maybe_recompute_lqa_cl|]. intros s4 Hs4. walk0.
Qed.

(** ** The receive path *)
Section Path.
Context `{!AbstractBits Receive.GpNwkFrameControl, !AbstractBits NwkFrame.NwkFrameControl, !AbstractBits NwkFrame.NwkSourceRoute}.
Context `{!NwkCommands.CommandCodecs}.

Lemma noted_cl p s d o f n :
  P p s -> Receive.process_802154_data_frame (receive_view e s) d = Ok o -> Receive.accepts o f n -> P p (note_relayer_counter s f).
Proof.
  intros Hs Hp Ha. destruct (Receive.process_authentic _ _ _ _ _ Hp Ha) as [Hau _].
  destruct (Receive.au_frame _ _ _ _ Hau) as (e' & aux & eui64 & _ & Hd & _ & _ & Haux & Hext & _ & _ & _ & _ & Hnew).
  destruct (Receive.decrypt_headers _ _ _ Hd) as [_ Hh]. unfold note_relayer_counter. rewrite Hh, Haux, Hext. by apply (cl_noted P HP).
Qed.

Lemma relay_frame_cl p s f sender lqi : P p (note_relayer_counter s f) -> post (relay_frame e s f sender lqi) (P p).
Proof.
  intros Hs. unfold relay_frame. apply post_bind_eq. intros [forward n] Hn. cbv zeta.
  set (s1 := with_nwk_security _ _).
  assert (P p s1) as Hs1.
  { apply (cl_with_same p _ _) with (2 := Hs). subst s1. unfold NextHop.relay_unicast_nwk_frame in Hn. apply bind_ok in Hn as (nb & _ & Hn).
    assert (NextHop.n_security n = nwk_security (the_nib (note_relayer_counter s f))) as Hsec.
    { cbv zeta in Hn. destruct (_ =? 0); [injection Hn as <- <-|].
      - unfold note_relayer_counter. destruct (NwkFrame.aux_header f) as [aux|]; [|done]. by destruct (NwkFrame.extended_source aux).
      - destruct (NextHop.append_to_route_record _ _ _); [|injection Hn as <- <-];
          [apply bind_ok in Hn as ([hop r] & _ & [= <- <-])|];
          unfold note_relayer_counter; (destruct (NwkFrame.aux_header f) as [aux|]; [|done]); by destruct (NwkFrame.extended_source aux). }
    split; try (unfold note_relayer_counter; repeat (destruct (NwkFrame.aux_header f) as [aux|]; [|done]); by destruct (NwkFrame.extended_source aux)).
    exact Hsec. }
  clearbody s1. walk p.
Qed.

Lemma process_gpdf_cl p s d lqi rssi : P p s -> P p (process_gpdf s d lqi rssi).
Proof. intros Hs. unfold process_gpdf. leaf. Qed.
#[local] Hint Resolve process_gpdf_cl : closed.

Lemma process_data_frame_cl s d lqi rssi : P [] s -> post (process_data_frame e s d lqi rssi) (fun r => P [] r.2).
Proof.
  intros Hs. unfold process_data_frame. apply post_bind_eq. intros [| |f|f n|f n] Hd.
  - by apply post_ok.
  - apply post_ok. cbn [snd]. eauto with closed.
  - apply (post_bind (P [])); [by apply handle_unsecured_nwk_frame_cl|]. intros s' Hs'. by apply post_ok.
  - apply (post_bind (P [])); [|intros s' Hs'; by apply post_ok]. apply relay_frame_cl. eapply noted_cl; [done..|by left].
  - apply (post_bind (P [])); [|intros s' Hs'; by apply post_ok]. apply handle_decrypted_frame_cl. eapply noted_cl; [done..|by right].
Qed.
End Path.

(** ** The APS layer *)
Lemma aps_move_cl p s ev x s' : ApsSecurityFacts.step (aps s) ev x -> s' = with_aps_security s x -> P p s -> P p s'.
Proof. intros Hx -> Hs. by eapply (cl_aps P HP). Qed.

Lemma maybe_notify_cl p s : P p s -> P p (maybe_notify_aps_frame_counter s).
Proof. intros Hs. unfold maybe_notify_aps_frame_counter. leaf. Qed.
#[local] Hint Resolve maybe_notify_cl : closed.

Lemma decrypt_data_step x source f k o x' :
  ApsSecurity.decrypt_data x source f k = Ok (o, x') -> exists ev, ApsSecurityFacts.step x ev x'.
Proof. unfold ApsSecurity.decrypt_data. intros ([found x1] & Hf & [= <- <-])%bind_ok. eexists. by eapply ApsSecurityFacts.step_decrypt_frame. Qed.

Lemma decrypt_ack_step x source f k o x' :
  ApsSecurity.decrypt_ack x source f k = Ok (o, x') -> exists ev, ApsSecurityFacts.step x ev x'.
Proof. unfold ApsSecurity.decrypt_ack. intros ([found x1] & Hf & [= <- <-])%bind_ok. eexists. by eapply ApsSecurityFacts.step_decrypt_frame. Qed.

Lemma decrypt_aps_data_frame_cl p s f frame : P p s -> post (decrypt_aps_data_frame s f frame) (fun r => P p r.2).
Proof.
  intros Hs. unfold decrypt_aps_data_frame. branch; [|by apply post_ok]. apply post_bind_eq. intros [data x] [ev Hx]%decrypt_data_step.
  apply post_ok. cbn [snd]. by eapply (cl_aps P HP).
Qed.

Lemma decrypt_aps_ack_frame_cl p s f frame : P p s -> post (decrypt_aps_ack_frame s f frame) (fun r => P p r.2).
Proof.
  intros Hs. unfold decrypt_aps_ack_frame. branch; [|by apply post_ok]. apply post_bind_eq. intros [data x] [ev Hx]%decrypt_ack_step.
  apply post_ok. cbn [snd]. by eapply (cl_aps P HP).
Qed.
#[local] Hint Resolve decrypt_aps_data_frame_cl decrypt_aps_ack_frame_cl : closed.

Lemma handle_aps_ack_cl s f ack : P [] s -> post (handle_aps_ack e s f ack) (P []).
Proof.
  intros Hs. unfold handle_aps_ack. apply post_bind_eq. intros [table a] Ht.
  eapply (commit_cl s (Sends.ApsAckReceived _) table (Sends.mkOutcome [] None a [])); [done..|]. cbn [Sends.exec]. by rewrite Ht.
Qed.
#[local] Hint Resolve handle_aps_ack_cl : closed.

Lemma is_duplicate_cl p s source counter b s' : is_duplicate_aps_frame e s source counter = (b, s') -> P p s -> P p s'.
Proof. unfold is_duplicate_aps_frame. destruct (FlatMap.insert _ _ _) as [old m]. intros [= <- <-] Hs. leaf. Qed.

(** Securing data or an acknowledgment: a step, or the key is missing and nothing happens. *)
Lemma encrypt_ack_cl p s eui64 ack o x : P p s -> ApsSecurity.encrypt_ack (aps s) eui64 ack = Ok (o, x) -> P p (with_aps_security s x).
Proof.
  intros Hs Hx. destruct o as [f|].
  - eapply (cl_aps P HP); [done|]. by eapply ApsSecurityFacts.step_encrypt_ack.
  - unfold ApsSecurity.encrypt_ack in Hx. apply bind_ok in Hx as ([k|] & _ & Hx); [|injection Hx as <-; leaf].
    apply bind_ok in Hx as ([? ?] & _ & Hx). by apply bind_ok in Hx as (? & _ & [=]).
Qed.

Lemma encrypt_data_cl p s eui64 frame o x : P p s -> ApsSecurity.encrypt_data (aps s) eui64 frame = Ok (o, x) -> P p (with_aps_security s x).
Proof.
  intros Hs Hx. destruct o as [f|].
  - eapply (cl_aps P HP); [done|]. by eapply ApsSecurityFacts.step_encrypt_data.
  - unfold ApsSecurity.encrypt_data in Hx. apply bind_ok in Hx as ([k|] & _ & Hx); [|injection Hx as <-; leaf].
    apply bind_ok in Hx as ([? ?] & _ & Hx). by apply bind_ok in Hx as (? & _ & [=]).
Qed.

Lemma ack_payload_cl p s frame source : P p s -> post (ack_payload s frame source) (fun r => P p r.2).
Proof.
  intros Hs. unfold ack_payload. branch; [|walk p]. branch; [|by apply post_ok]. apply post_bind_eq. intros [[f|] x] Hx.
  - apply (encrypt_ack_cl p s _ _ _ _ Hs), maybe_notify_cl in Hx. apply post_bind_eq. intros bs _. by apply post_ok.
  - apply post_ok. by eapply encrypt_ack_cl.
Qed.
#[local] Hint Resolve ack_payload_cl : closed.

Lemma handle_aps_ack_request_cl p s frame f source : P p s -> post (handle_aps_ack_request e s frame f source) (P p).
Proof. handler handle_aps_ack_request. Qed.
#[local] Hint Resolve handle_aps_ack_request_cl : closed.

Lemma unicast_payload_cl p s r frame : P p s -> post (unicast_payload s r frame) (fun r => P p r.2).
Proof.
  intros Hs. unfold unicast_payload. branch; [|walk p]. apply post_bind_eq. intros [[f|] x] Hx.
  - apply (encrypt_data_cl p s _ _ _ _ Hs), maybe_notify_cl in Hx. apply post_bind_eq. intros bs _. by apply post_ok.
  - apply post_ok. by eapply encrypt_data_cl.
Qed.
#[local] Hint Resolve unicast_payload_cl : closed.

Lemma send_aps_unicast_cl p s r : P p s -> post (send_aps_unicast e s r) (fun r => P p r.2).
Proof.
  intros Hs. unfold send_aps_unicast. branch; [|by apply post_ok].
  destruct (match ur_aps_counter r with Some n => (n, s) | None => next_aps_counter s end) as [seq s1] eqn:Hq.
  assert (P p s1) as Hs1 by (destruct (ur_aps_counter r); injection Hq as <- <-; leaf). walk p.
Qed.

Lemma send_data_broadcast_cl p s dest frame radius pr : P p s -> post (send_data_broadcast e s dest frame radius pr) (fun r => P p r.2).
Proof. handler send_data_broadcast. Qed.
#[local] Hint Resolve send_data_broadcast_cl : closed.

Lemma send_aps_broadcast_cl p s dest profile cluster src dst radius data pr :
  P p s -> post (send_aps_broadcast e s dest profile cluster src dst radius data pr) (fun r => P p r.2).
Proof. intros Hs. unfold send_aps_broadcast. branch; [|by apply post_ok]. cbn [next_aps_counter]. apply send_data_broadcast_cl. leaf. Qed.

Lemma send_aps_groupcast_cl p s group profile cluster src radius data pr :
  P p s -> post (send_aps_groupcast e s group profile cluster src radius data pr) (fun r => P p r.2).
Proof. intros Hs. unfold send_aps_groupcast. branch; [|by apply post_ok]. cbn [next_aps_counter]. apply send_data_broadcast_cl. leaf. Qed.

(** ** Joining *)
Lemma begin_join_cl p s ieee : P p s -> P p (begin_join s ieee).
Proof.
  intros Hs. unfold begin_join. destruct (ApsSecurity.begin_join (aps s) ieee) as [k x] eqn:Hx.
  assert (P p (with_aps_security s x)).
  { eapply (cl_aps P HP); [done|]. change x with ((k, x).2). rewrite <- Hx. apply ApsSecurityFacts.step_begin_join. }
  leaf.
Qed.
#[local] Hint Resolve begin_join_cl : closed.

Lemma queue_association_response_cl s eui64 short status : P [] s -> post (queue_association_response e s eui64 short status) (fun r => P [] r.2).
Proof. intros Hs. unfold queue_association_response. walk0. Qed.
#[local] Hint Resolve queue_association_response_cl : closed.

Lemma association_request_cl s f request : P [] s -> post (process_802154_association_request e s f request) (P []).
Proof.
  intros Hs. unfold process_802154_association_request. repeat (branch; try by apply post_ok); [walk0|].
  apply post_bind_eq. intros short _. apply (post_bind (P [])); [by apply update_nwk_eui64_mapping_cl, begin_join_cl|]. intros s1 Hs1. walk0.
Qed.
#[local] Hint Resolve association_request_cl : closed.

Lemma build_transport_cl p s dest kind : P p s -> post (build_encrypted_network_key_transport e s dest kind) (fun r => P p r.2).
Proof.
  intros Hs. unfold build_encrypted_network_key_transport. cbn [next_aps_counter]. apply post_bind_eq. intros k _. apply post_bind_eq.
  intros [f x] Hx. apply post_ok. cbn [snd]. eapply (cl_aps P HP); [leaf|]. by eapply ApsSecurityFacts.step_encrypt_transport.
Qed.
#[local] Hint Resolve build_transport_cl : closed.

Lemma send_network_key_cl p s dest eui64 kind : P p s -> post (send_network_key e s dest eui64 kind) (fun r => P p r.2).
Proof. handler send_network_key. Qed.
#[local] Hint Resolve send_network_key_cl : closed.

Lemma start_key_transport_cl p s nwk eui64 kind : P p s -> post (start_key_transport e s nwk eui64 kind) (fun r => P p r.2).
Proof. handler start_key_transport. Qed.
#[local] Hint Resolve start_key_transport_cl : closed.

Lemma poll_join_cl s task : P [] s -> post (poll_join e s task) (fun r => P [] r.2).
Proof. intros Hs. unfold poll_join. walk0. Qed.

Lemma send_secured_aps_payload_cl p s dest payload : P p s -> post (send_secured_aps_payload e s dest payload) (fun r => P p r.2).
Proof. handler send_secured_aps_payload. Qed.
#[local] Hint Resolve send_secured_aps_payload_cl : closed.

Lemma send_secured_detached_cl p s dest payload : P p s -> post (send_secured_detached e s dest payload) (P p).
Proof. handler send_secured_detached. Qed.
#[local] Hint Resolve send_secured_detached_cl : closed.

Lemma encrypt_reply_cl p s source applied id c o x :
  P p s -> ApsSecurity.encrypt_command_with_applied_key (aps s) source applied id c = Ok (o, x) -> P p (with_aps_security s x).
Proof.
  intros Hs Hx. destruct o as [f|].
  - eapply (cl_aps P HP); [done|]. by eapply ApsSecurityFacts.step_encrypt_reply.
  - unfold ApsSecurity.encrypt_command_with_applied_key in Hx. destruct applied; [injection Hx as <-; leaf|..];
      (apply bind_ok in Hx as (? & _ & Hx); by apply bind_ok in Hx as ([? ?] & _ & [=])).
Qed.

Lemma handle_request_key_cl p s f frame request source applied : P p s -> post (handle_request_key e s f frame request source applied) (P p).
Proof.
  intros Hs. unfold handle_request_key. branch; [|by apply post_ok]. branch. apply post_bind_eq. intros [k x] Hx. cbn [next_aps_counter].
  assert (P p (with_aps_security s x)) as Hs1 by (eapply (cl_aps P HP); [done|]; by eapply ApsSecurityFacts.step_issue).
  apply post_bind_eq. intros [o y] Hy. eapply (encrypt_reply_cl p) in Hy; [|leaf]. branch; [|apply post_ok; leaf].
  apply post_bind_eq. intros bs _. apply send_secured_detached_cl. leaf.
Qed.

Lemma send_confirm_key_cl p s dest eui64 status encrypted : P p s -> post (send_confirm_key e s dest eui64 status encrypted) (P p).
Proof.
  intros Hs. unfold send_confirm_key. cbn [next_aps_counter]. apply (post_bind (fun r => P p r.2)).
  - branch; [|walk p]. apply post_bind_eq. intros [f x] Hx. apply post_bind_eq. intros bs _. apply post_ok. cbn [snd].
    eapply (cl_aps P HP); [leaf|]. by eapply ApsSecurityFacts.step_encrypt_command.
  - intros [bs s'] Hs'. by apply send_secured_detached_cl.
Qed.
#[local] Hint Resolve handle_request_key_cl send_confirm_key_cl : closed.

Lemma handle_verify_key_cl p s f verify : P p s -> post (handle_verify_key e s f verify) (P p).
Proof.
  intros Hs. unfold handle_verify_key. branch; try by apply post_ok. branch; [by apply post_ok|]. apply post_bind_eq. intros [o x] Hx.
  assert (P p (with_aps_security s x)) as Hs1 by (eapply (cl_aps P HP); [done|]; by eapply ApsSecurityFacts.step_verify).
  branch; [branch|]; [|by apply send_confirm_key_cl..]. apply post_bind_eq. intros k _. apply send_confirm_key_cl. leaf.
Qed.

Lemma send_tunneled_cl p s router device kind : P p s -> post (send_tunneled_network_key e s router device kind) (P p).
Proof.
  intros Hs. unfold send_tunneled_network_key. apply (post_bind (fun r => P p r.2)); [by apply build_transport_cl|]. intros [f s1] Hs1.
  cbn [next_aps_counter]. do 3 (apply post_bind_eq; intros ? _). apply send_secured_detached_cl. cbn [snd] in Hs1. leaf.
Qed.
#[local] Hint Resolve handle_verify_key_cl send_tunneled_cl : closed.

Lemma handle_update_device_cl s f update encrypted : P [] s -> post (handle_update_device e s f update encrypted) (P []).
Proof. intros Hs. unfold handle_update_device, announce_update. walk0. Qed.
#[local] Hint Resolve handle_update_device_cl : closed.

Lemma handle_aps_command_frame_cl s f frame source applied : P [] s -> post (handle_aps_command_frame e s f frame source applied) (P []).
Proof. intros Hs. unfold handle_aps_command_frame. walk0. Qed.
#[local] Hint Resolve handle_aps_command_frame_cl : closed.

Lemma handle_encrypted_command_cl s f frame : P [] s -> post (handle_encrypted_aps_command_frame e s f frame) (P []).
Proof.
  intros Hs. unfold handle_encrypted_aps_command_frame. branch; [|by apply post_ok]. apply post_bind_eq. intros [o x] Hx.
  assert (P [] (with_aps_security s x)) as Hs1 by (eapply (cl_aps P HP); [done|]; by eapply ApsSecurityFacts.step_decrypt_command).
  branch; [branch; by apply handle_aps_command_frame_cl|apply post_ok; leaf].
Qed.
#[local] Hint Resolve handle_encrypted_command_cl poll_join_cl : closed.

(** ** Polls, device profile commands, MAC commands *)
Lemma queue_leave_cl p s nwk : P p s -> post (queue_leave_for_stale_child e s nwk) (P p).
Proof. handler queue_leave_for_stale_child. Qed.
#[local] Hint Resolve queue_leave_cl : closed.

Lemma handle_data_request_cl p s f : P p s -> post (handle_data_request e s f) (P p).
Proof.
  intros Hs. unfold handle_data_request. branch; [|by apply post_ok]. branch. branch.
  match goal with |- context [with_neighbors s ?n] => assert (P p (with_neighbors s n)) as Hs1 by leaf; generalize dependent (with_neighbors s n) end.
  intros s1 Hs1. destruct (Unicasts.src_match_contains _ _); [|walk p].
  destruct (Sends.poll _ _ _ _) as [queued table] eqn:Ht. assert (P p (with_sends s1 table)) as Hs2.
  { rewrite <- (app_nil_r p). match type of Ht with Sends.poll _ ?a ?b ?c = _ =>
      eapply (cl_move P HP p s1 (Sends.Poll a b c) table (Sends.mkOutcome [] None [] [])) end; [done..|]. cbn [Sends.exec]. by rewrite Ht. }
  walk p.
Qed.
#[local] Hint Resolve handle_data_request_cl : closed.

Lemma evict_each_cl s l : P [] s -> post (evict_each e s l) (P []).
Proof.
  revert s. induction l as [|[eui64 nwk] l IH]; intros s Hs; [by apply post_ok|]. cbn [evict_each]. apply (post_bind (P [])); [by apply drop_indirect_cl|].
  intros s' Hs'. apply IH. leaf.
Qed.

Lemma evict_timed_out_children_cl s : P [] s -> post (evict_timed_out_children e s) (P []).
Proof. intros Hs. unfold evict_timed_out_children. branch. apply evict_each_cl. leaf. Qed.

Section Profile.
Context `{!Zdp.ZdpCodecs}.

Lemma send_zdp_command_cl `{Zdp.ZdpCommand T} p s dest mode tsn (command : T) : P p s -> post (send_zdp_command e s dest mode tsn command) (fun r => P p r.2).
Proof.
  intros Hs. unfold send_zdp_command. apply post_bind_eq. intros bs _. branch; [|by apply post_ok]. cbn [next_aps_counter].
  apply post_bind_eq. intros frame _. branch; [|apply post_ok; leaf]. branch; [apply send_unicast_cl|apply send_broadcast_cl|apply send_unicast_cl]; leaf.
Qed.
#[local] Hint Extern 1 (post (send_zdp_command _ _ _ _ _ _) _) => apply send_zdp_command_cl; leaf : closed.

Lemma cleanup_each_cl s l : P [] s -> post (cleanup_each e s l) (P []).
Proof.
  revert s. induction l as [|[eui64 nwk] l IH]; intros s Hs; [by apply post_ok|]. cbn [cleanup_each].
  apply (post_bind (P [])); [by apply cleanup_moved_child_cl|]. intros s' Hs'. by apply IH.
Qed.

Lemma handle_device_annce_cl p s frame : P p s -> P p (handle_device_annce s frame).
Proof.
  intros Hs. unfold handle_device_annce. destruct (Zdp.deserialize _) as [[tsn annce]| |]; [|done..]. case_bool_decide; [by apply forget_address_cl|].
  assert (P p (with_address_map s (AddressMap.claim (address_map (the_nib s)) (Zdp.ieee_addr annce) (Zdp.nwk_addr annce)))) as Hs1
    by (apply (cl_address P HP); [done|apply AddressMap.step_claim]). leaf.
Qed.
#[local] Hint Resolve handle_device_annce_cl : closed.

Lemma handle_zdp_frame_cl s f frame : P [] s -> post (handle_zdp_frame e s f frame) (P []).
Proof.
  intros Hs. unfold handle_zdp_frame. branch; [by apply post_ok|]. branch; [branch|by apply post_ok]; try by apply post_ok.
  - apply post_ok. eauto with closed.
  - unfold handle_parent_annce. branch; try by apply post_ok. branch. cbv zeta. branch. branch.
    apply (post_bind (P [])); [apply cleanup_each_cl; leaf|]. intros s1 Hs1. walk0.
  - unfold handle_mgmt_lqi_req. walk0.
  - unfold handle_mgmt_rtg_req. walk0.
  - unfold handle_parent_annce_rsp. branch; try by apply post_ok. branch. branch. apply cleanup_each_cl. leaf.
Qed.
#[local] Hint Resolve handle_zdp_frame_cl : closed.

Lemma poll_parent_annce_cl p s task : P p s -> post (poll_parent_annce e s task) (fun r => P p r.2).
Proof.
  intros Hs. unfold poll_parent_annce. branch; try by apply post_ok.
  - branch; [by apply post_ok|]. branch; [by apply post_ok|]. unfold announce_children. cbv zeta. branch; [by apply post_ok|].
    cbn [next_aps_counter]. apply (post_bind (fun r => P p r.2)); [apply send_zdp_command_cl; leaf|]. intros [[h|] s1] Hs1; by apply post_ok.
  - branch; by apply post_ok.
Qed.

Lemma send_802154_beacon_cl p s : P p s -> post (send_802154_beacon e s) (P p).
Proof.
  intros Hs. unfold send_802154_beacon. apply post_bind_eq. intros bs _. cbv zeta. apply (post_bind (fun r => P p r.2)); [apply enqueue_broadcast_cl; [by left|done]|].
  intros [h s1] Hs1. by apply post_ok.
Qed.
#[local] Hint Resolve poll_parent_annce_cl send_802154_beacon_cl : closed.

Lemma beacon_spam_pass_cl p s : P p s -> post (beacon_spam_pass e s) (P p).
Proof. handler beacon_spam_pass. Qed.

Lemma process_command_frame_cl s f : P [] s -> post (process_802154_command_frame e s f) (P []).
Proof. intros Hs. unfold process_802154_command_frame. walk0. Qed.
#[local] Hint Resolve process_command_frame_cl : closed.

Lemma handle_beacon_cl p s beacon channel lqi rssi : P p s -> P p (handle_beacon s beacon channel lqi rssi).
Proof. intros Hs. unfold handle_beacon. leaf. Qed.
#[local] Hint Resolve handle_beacon_cl : closed.

(** ** The receive loop and the tasklets *)
Section Loop.
Context `{!AbstractBits Receive.GpNwkFrameControl, !AbstractBits NwkFrame.NwkFrameControl, !AbstractBits NwkFrame.NwkSourceRoute}.
Context `{!NwkCommands.CommandCodecs}.

Lemma deliver_aps_data_cl s f frame source encrypted lqi rssi : P [] s -> post (deliver_aps_data e s f frame source encrypted lqi rssi) (P []).
Proof.
  intros Hs. unfold deliver_aps_data. destruct (is_duplicate_aps_frame _ _ _ _) as [b s1] eqn:Hd. eapply is_duplicate_cl in Hd; [|done]. walk0.
Qed.
#[local] Hint Resolve deliver_aps_data_cl : closed.

Lemma process_aps_frame_cl s f payload lqi rssi : P [] s -> post (process_aps_frame e s f payload lqi rssi) (P []).
Proof. intros Hs. unfold process_aps_frame. walk0. Qed.
#[local] Hint Resolve process_aps_frame_cl process_data_frame_cl : closed.

Lemma run_frame_cl s frame channel lqi rssi : P [] s -> post (run_frame e s frame channel lqi rssi) (P []).
Proof. intros Hs. unfold run_frame. walk0. Qed.

Lemma poll_each_cl s tasks : P [] s -> post (poll_each e s tasks) (P []).
Proof.
  revert s. induction tasks as [|task tasks IH]; intros s Hs; [by apply post_ok|]. cbn [poll_each].
  apply (post_bind (fun r => P [] r.2)); [unfold poll_tasklet; branch; eauto with closed|]. intros [next s1] Hs1. cbn [snd] in Hs1. apply IH. leaf.
Qed.

Lemma tasklet_pass_cl s : P [] s -> post (tasklet_pass e s) (P []).
Proof. intros Hs. apply poll_each_cl. leaf. Qed.

(** ** Transmitting: the frame counter, and nothing else the theorems are about *)
Section Transmit.
Context `{!AbstractBits NwkFrame.NwkFrameControl, !AbstractBits NwkFrame.NwkSourceRoute, !NwkCommands.CommandCodecs}.

Lemma next_nwk_frame_counter_cl p s : P p s -> post (next_nwk_frame_counter s) (fun r => P p r.2).
Proof.
  intros Hs. unfold next_nwk_frame_counter. apply post_bind_eq. intros [advance x] Hx. apply post_ok. cbn [snd].
  assert (P p (with_nwk_security s x)) by by eapply (cl_counter P HP). leaf.
Qed.
#[local] Hint Resolve next_nwk_frame_counter_cl : closed.

Lemma encrypt_nwk_frame_cl p s f sec : P p s -> post (encrypt_nwk_frame s f sec) (fun r => P p r.2).
Proof. intros Hs. unfold encrypt_nwk_frame. walk p. Qed.
#[local] Hint Resolve encrypt_nwk_frame_cl : closed.

Lemma increment_tx_total_cl p s : P p s -> P p (increment_tx_total s).
Proof. intros Hs. unfold increment_tx_total. leaf. Qed.

Lemma assign_mac_sequence_cl p s f g s' : assign_mac_sequence s f = (g, s') -> P p s -> P p s'.
Proof. unfold assign_mac_sequence. destruct (Mac.sequence_number_suppression _); intros [= <- <-] Hs; leaf. Qed.

Lemma start_unicast_cl p s f hop sec pending : P p s -> post (start_unicast e s f hop sec pending) (fun r => P p r.2).
Proof.
  intros Hs. unfold start_unicast. apply (post_bind (fun r => P p r.2)); [by apply encrypt_nwk_frame_cl|]. intros [[enc g] s1] Hs1. cbn [snd] in Hs1.
  apply post_bind_eq. intros bs _. cbv zeta. destruct (assign_mac_sequence _ _) as [air s2] eqn:Ha. apply post_ok. cbn [snd].
  eapply assign_mac_sequence_cl; [exact Ha|]. apply increment_tx_total_cl.
  match goal with |- P p (with_routing ?x _) => assert (P p x) by leaf end. leaf.
Qed.

Lemma start_broadcast_cl p s f sec : P p s -> post (start_broadcast e s f sec) (fun r => P p r.2).
Proof.
  intros Hs. unfold start_broadcast. apply (post_bind (fun r => P p r.2)); [by apply encrypt_nwk_frame_cl|]. intros [[enc g] s1] Hs1. cbn [snd] in Hs1.
  apply post_bind_eq. intros bs _. cbv zeta. destruct (assign_mac_sequence _ _) as [air s2] eqn:Ha. apply post_ok. cbn [snd].
  eapply assign_mac_sequence_cl; [exact Ha|]. by apply increment_tx_total_cl.
Qed.
#[local] Hint Resolve start_unicast_cl start_broadcast_cl : closed.

Lemma start_transmit_cl p s f tx : P p s -> post (start_transmit e s f tx) (fun r => P p r.2).
Proof.
  intros Hs. unfold start_transmit. branch; branch; [walk p| |walk p|].
  all: destruct (assign_mac_sequence _ _) as [air s2] eqn:Ha; apply post_ok; cbn [snd]; by eapply assign_mac_sequence_cl.
Qed.
End Transmit.

Lemma finish_unicast_cl p s hop result : P p s -> P p (finish_unicast s hop result).
Proof. intros Hs. unfold finish_unicast. leaf. Qed.
End Loop.
End Profile.
End Handlers.
End Closed.
End StackSteps.

(** ** The timer pass of the stack is one of [SendLoops]

    Whatever [drive_sends] does to the tables is a sequence of the calls a pass makes, with [tick] last,
    and the deadline it returns is that of the pass; the actions are carried out after it. *)
Module TimerPass.
Import Stack StackSend StackSteps.
Import SendLoops.SendLoops(calls, of_the_pass, pass_deadline).

Section Pass.
Context (e : Env) (He : unsigned e).
Abbreviation world := (Sends.world Frame Slot DeliveryError).
Abbreviation Op := (Sends.Op Frame Slot DeliveryError bool).

(** The table of the second state follows from that of the first by calls of the pass. *)
Definition passes (s s' : t) : Prop :=
  exists ops : list Op, forallb (of_the_pass (now e)) ops = true /\
    forall w : world, Sends.w_sends w = sends (core s) -> exists w', calls w ops w' /\ Sends.w_sends w' = sends (core s').

Lemma calls_app (w : world) (ops ops' : list Op) w' w'' : calls w ops w' -> calls w' ops' w'' -> calls w (ops ++ ops') w''.
Proof. induction 1; cbn [app]; [done|]. intros Hc. econstructor; eauto. Qed.

Lemma passes_refl s s' : sends (core s') = sends (core s) -> passes s s'.
Proof. intros Hs. exists []. split; [done|]. intros w Hw. exists w. split; [constructor|congruence]. Qed.

Lemma passes_trans s1 s2 s3 : passes s1 s2 -> passes s2 s3 -> passes s1 s3.
Proof.
  intros (ops & Ho & Hc) (ops' & Ho' & Hc'). exists (ops ++ ops'). split; [by rewrite forallb_app, Ho, Ho'|].
  intros w Hw. destruct (Hc w Hw) as (w1 & Hw1 & Hs1). destruct (Hc' w1 Hs1) as (w2 & Hw2 & Hs2). exists w2. split; [by eapply calls_app|done].
Qed.

Lemma passes_one s s' (op : Op) table out :
  of_the_pass (now e) op = true -> (forall w : world, Sends.w_sends w = sends (core s) -> Sends.allowed w op) ->
  Sends.exec (sends (core s)) op = Ok (table, out) -> sends (core s') = table -> passes s s'.
Proof.
  intros Hop Ha Hx Ht. exists [op]. split; [cbn; by rewrite Hop|]. intros w Hw. exists (Sends.world_after w op table out).
  split; [|done]. econstructor; [by apply Ha|by rewrite Hw|constructor].
Qed.

Lemma quorums_pass s keys : post (settle_quorums e s keys) (fun r => passes s r.1).
Proof.
  revert s. induction keys as [|key keys IH]; intros s; [apply post_ok; by apply passes_refl|]. cbn [settle_quorums].
  apply (post_bind (fun r => passes s r.1)).
  - case_match; [|apply post_ok; by apply passes_refl]. apply post_bind_eq. intros [table a] Ht. apply post_ok.
    eapply (passes_one _ _ (Sends.BroadcastDelivered key) table); [done..| |done]. cbn [Sends.exec]. by rewrite Ht.
  - intros [s1 a] Hs1. apply (post_bind (fun r => passes s1 r.1)); [apply IH|]. intros [s2 b] Hs2. apply post_ok. by eapply passes_trans.
Qed.

Lemma discovery_passes s dest : post (start_route_discovery e s dest) (passes s).
Proof.
  unfold start_route_discovery, broadcast_route_request, enqueue_broadcast. destruct (Routing.begin_discovery _ _ _ _ _) as [id r].
  cbn [next_nwk_sequence_number next_sequence_number new_slot]. apply post_bind_eq. intros n Hn. apply post_bind_eq. intros [h s2] Hs2. apply post_ok.
  apply bind_ok in Hs2 as ([i table] & Ht & [= <- <-]). cbn [sends core with_routing on_nib on_core set_core set_nib set_slots] in Ht.
  assert (n <> 0) as Hnz by (unfold unwrap in Hn; destruct (checked_add _ _ _) eqn:Hc; [injection Hn as <-; eapply checked_nonzero; [apply He|exact Hc]|done]).
  assert (Sends.next_id (sends (core s)) < u32_max) as Hid.
  { unfold Sends.enqueue_broadcast, Sends.take_id in Ht. apply bind_ok in Ht as ([? ?] & Ht & _). apply bind_ok in Ht as (k & Hk & _).
    unfold checked_add in Hk. destruct (Z.leb_spec (Sends.next_id (sends (core s)) + 1) u32_max); [lia|done]. }
  match type of Ht with Sends.enqueue_broadcast _ ?b _ _ = _ => assert (Sends.exec (sends (core s)) (Sends.EnqueueBroadcast b (now e) (tunables e) : Op) = Ok (table, Sends.mkOutcome [BroadcastSends.b_waiter b] None [] [])) as Hx by (cbn [Sends.exec]; by rewrite Ht) end.
  eapply passes_one; [..|exact Hx|done]; [done|]. intros w Hw. cbn. rewrite Hw. split; [done|by right].
Qed.

Lemma unrouted_passes s dest :
  awaited s dest -> post (drive_unrouted e s dest) (fun r => passes s r.1 /\ others_awaited s r.1 dest).
Proof.
  intros Ha. unfold drive_unrouted. case_match; [|case_match].
  - apply post_bind_eq. intros [[panicked table] a] Ht. case_match; [apply post_panic|]. apply post_ok. split; [|by eapply route_unicasts_others].
    eapply (passes_one _ _ (Sends.RouteUnicasts (resolve_routed_unicast e (the_nib s)) false dest (now e) (tunables e)) table); [apply Z.eqb_refl|done| |done].
    cbn [Sends.exec]. by rewrite Ht.
  - apply post_bind_eq. intros [retry table] Ht. pose proof (fun d => retry_discovery_awaited s dest retry table d Ht) as Hd.
    assert (passes s (with_sends s table)) as Hp.
    { eapply (passes_one _ _ (Sends.RetryDiscovery dest) table); [done| |cbn [Sends.exec]; by rewrite Ht|done]. intros w Hw. cbn. by rewrite Hw. }
    case_match.
    + apply (post_bind (fun s' => passes s s' /\ others_awaited s s' dest)).
      * intros s' Hs'. split; [eapply passes_trans; [exact Hp|by eapply discovery_passes]|]. intros d _ Hw. by eapply start_route_discovery_awaited; [apply Hd|].
      * intros s' [??]. by apply post_ok.
    + apply post_bind_eq. intros [table' a] Ht'. apply post_ok. cbn [fst]. split; [|intros d Hne Hw; by eapply (fail_unrouted_others (with_sends s table)); [exact Ht'|done|apply Hd]].
      eapply passes_trans; [exact Hp|]. eapply (passes_one _ _ (Sends.FailUnrouted dest) table'); [done|done| |done]. cbn [Sends.exec].
      change (Sends.fail_unrouted (sends (core (with_sends s table))) dest = Ok (table', a)) in Ht'. by rewrite Ht'.
  - apply post_ok. split; [by apply passes_refl|]. by intros d _.
Qed.

Lemma each_passes s dests : NoDup dests -> Forall (awaited s) dests -> post (drive_each e s dests) (fun r => passes s r.1).
Proof.
  intros Hnd. revert s. induction Hnd as [|dest dests Hin Hnd IH]; intros s Ha; [apply post_ok; by apply passes_refl|].
  apply Forall_cons in Ha as [Hd Ha]. cbn [drive_each]. apply (post_bind (fun r => passes s r.1 /\ others_awaited s r.1 dest)); [by apply unrouted_passes|].
  intros [s1 a] [Hs1 Ho]. cbn [fst] in *. apply (post_bind (fun r => passes s1 r.1)).
  - apply IH. rewrite Forall_forall in Ha |- *. intros d Hd'. apply Ho; [by intros ->|by apply Ha].
  - intros [s2 b] Hs2. apply post_ok. by eapply passes_trans.
Qed.

Lemma drive_is_pass s d s' (w : world) :
  drive_sends e s = Ok (d, s') -> Sends.w_sends w = sends (core s) ->
  exists (ops : list Op) w' discoveries s1 actions, forallb (of_the_pass (now e)) ops = true /\ calls w (ops ++ [Sends.Tick (now e)]) w' /\
    d = pass_deadline w' discoveries /\ Sends.w_sends w' = sends (core s1) /\ run_send_actions e s1 actions = Ok s'.
Proof.
  unfold drive_sends. intros ([s1 a] & H1 & Hk)%bind_ok Hw. apply bind_ok in Hk as ([s2 b] & H2 & Hk). apply bind_ok in Hk as ([table c] & Ht & Hk).
  apply bind_ok in Hk as (s3 & Hr & [= <- <-]). destruct (destinations_awaited s1) as [Hnd Ha].
  destruct (passes_trans s s1 s2 (quorums_pass _ _ _ H1) (each_passes _ _ Hnd Ha _ H2)) as (ops & Ho & Hc). destruct (Hc w Hw) as (w1 & Hw1 & Hs1).
  exists ops, (Sends.world_after w1 (Sends.Tick (now e) : Op) table (Sends.mkOutcome [] None c [])).
  eexists _, (with_sends s2 table), _. split_and!; [done| |reflexivity|done|exact Hr].
  eapply calls_app; [exact Hw1|]. econstructor; [done| |constructor]. cbn [Sends.exec]. by rewrite Hs1, Ht.
Qed.
End Pass.
End TimerPass.
