(* ===== verification/StackLink.v ===== *)
(** * The stack and its send table

    The driver is a client of [Sends]: in every state it can be in there is a world of the send
    table that agrees with it (the table, the slots it admitted, the verdicts it has written or is
    about to write, and the frame the sender task holds), so what is proved of every world holds of
    the driver. The predicate is closed, hence preserved by every handler. *)

From S2P Require Import Prelude Flat Types Constants AbstractBits Mac NwkSecurity Addresses.
From S2P Require Import SendTypes Unicasts Unrouted BroadcastSends SendTable Sends SendsFacts SendsTheorems Crypto NwkCommands NwkFrame ApsFrame ApsSecurity ApsSecurityFacts.
From S2P Require Import Stack StackSend StackNwk StackAps StackJoin StackRun StackSteps.

Module StackLink.
Import Stack StackSend StackNwk StackAps StackJoin StackRun StackSteps.

Abbreviation world := (Sends.world Frame Slot DeliveryError).

(** The slots whose final verdict is written. *)
Definition resolved (ps : list Progress) (i : nat) : Prop := exists v, ps !! i ≫= delivered = Some v.
#[export] Instance resolved_dec ps i : Decision (resolved ps i).
Proof.
  refine (match ps !! i ≫= delivered as o return ps !! i ≫= delivered = o -> _ with Some v => fun Ho => left _ | None => fun Ho => right _ end eq_refl).
  - by exists v.
  - intros [v Hv]. congruence.
Defined.
Definition resolved_slots (ps : list Progress) : list nat := filter (resolved ps) (seq 0 (length ps)).

(** [ws] are the slots whose verdict is returned and still to be written. *)
Record agrees (w : world) (loans : list (InFlight Frame)) (ws : list Slot) (s : t) : Prop := mkAgrees {
  ag_reachable : Sends.reachable (C:=bool) w;
  ag_table : Sends.w_sends w = sends (core s);
  ag_loans : Sends.w_loans w = loans;
  ag_admitted : Sends.w_admitted w = seq 0 (length (slots s));
  ag_reported : Sends.w_reported w ≡ₚ resolved_slots (slots s) ++ ws
}.

Definition linked (loans : list (InFlight Frame)) (p : SendActions) (s : t) : Prop := exists w, agrees w loans (settled_waiters p) s.

(** ** Slots *)
Lemma resolved_alter f ps slot i :
  (forall x, delivered (f x) = delivered x) -> resolved (alter f slot ps) i <-> resolved ps i.
Proof.
  intros Hf. unfold resolved. destruct (decide (i = slot)) as [->|Hne].
  - rewrite list_lookup_alter_eq. destruct (ps !! slot) as [x|]; cbn; [by rewrite Hf|done].
  - by rewrite list_lookup_alter_ne.
Qed.

Lemma resolved_slots_alter f ps slot :
  (forall x, delivered (f x) = delivered x) -> resolved_slots (alter f slot ps) = resolved_slots ps.
Proof.
  intros Hf. unfold resolved_slots. rewrite length_alter. apply list_filter_iff. intros i. by apply resolved_alter.
Qed.

Lemma handed_off_delivered x : delivered (slot_handed_off x) = delivered x.
Proof. unfold slot_handed_off. by destruct (handed_off x). Qed.

Lemma resolved_settle ps slot r i :
  (slot < length ps)%nat -> resolved (alter (slot_settled r) slot ps) i <-> i = slot \/ resolved ps i.
Proof.
  intros Hlt. unfold resolved. destruct (decide (i = slot)) as [->|Hne].
  - rewrite list_lookup_alter_eq. destruct (lookup_lt_is_Some_2 ps slot Hlt) as [x ->]. cbn. split; [by left|by exists r].
  - rewrite list_lookup_alter_ne by done. split; [by right|]. by intros [|].
Qed.

Lemma NoDup_resolved_slots ps : NoDup (resolved_slots ps).
Proof. apply NoDup_filter, NoDup_seq. Qed.

Lemma elem_of_resolved_slots ps i : i ∈ resolved_slots ps <-> resolved ps i.
Proof.
  unfold resolved_slots. rewrite list_elem_of_filter, elem_of_seq. split; [by intros [? _]|]. intros Hr. split; [done|].
  destruct Hr as [v Hv]. apply bind_Some in Hv as (x & Hx & _). apply lookup_lt_Some in Hx. lia.
Qed.

Lemma resolved_slots_settle ps slot r :
  (slot < length ps)%nat -> slot ∉ resolved_slots ps ->
  resolved_slots (alter (slot_settled r) slot ps) ≡ₚ slot :: resolved_slots ps.
Proof.
  intros Hlt Hnot. apply NoDup_Permutation; [apply NoDup_resolved_slots|by constructor; [|apply NoDup_resolved_slots]|].
  intros i. rewrite elem_of_cons, !elem_of_resolved_slots. by apply resolved_settle.
Qed.

Lemma filter_ext_in {A} (Q R : A -> Prop) `{!forall x, Decision (Q x), !forall x, Decision (R x)} (l : list A) :
  (forall x, x ∈ l -> Q x <-> R x) -> filter Q l = filter R l.
Proof.
  induction l as [|x l IH]; intros Hl; [done|]. rewrite !filter_cons, IH by (intros y Hy; apply Hl; by right).
  destruct (Hl x (list_elem_of_here _ _)). by repeat case_decide; try tauto.
Qed.

Lemma resolved_slots_new ps : resolved_slots (ps ++ [mkProgress None None]) = resolved_slots ps.
Proof.
  unfold resolved_slots. rewrite length_app, Nat.add_comm. cbn [length Nat.add]. rewrite seq_S, filter_app. cbn [Nat.add].
  rewrite (filter_cons_False _ (length ps)), filter_nil, app_nil_r.
  - apply filter_ext_in. intros i [_ Hi]%elem_of_seq. unfold resolved. by rewrite lookup_app_l.
  - unfold resolved. rewrite lookup_app_r by done. rewrite Nat.sub_diag. cbn. by intros [v [=]].
Qed.

(** In a world that agrees, a verdict that is still to be written is written for the first time. *)
Lemma pending_unresolved w loans slot ws s :
  agrees w loans (slot :: ws) s -> (slot < length (slots s))%nat /\ slot ∉ resolved_slots (slots s).
Proof.
  intros [Hr Ht Hl Ha Hp]. pose proof (SendsTheorems.wi_waiters _ (SendsTheorems.world_reachable_inv _ Hr)) as Hw. rewrite Ha, Hp in Hw.
  assert (NoDup (seq 0 (length (slots s)))) as Hnd by apply NoDup_seq. rewrite Hw in Hnd. cbn in Hnd. split.
  - assert (slot ∈ seq 0 (length (slots s))) as Hin by (rewrite Hw; cbn; set_solver). apply elem_of_seq in Hin. lia.
  - apply NoDup_app in Hnd as (Hnd & _ & _). apply NoDup_app in Hnd as (_ & Hd & _). intros Hin. apply (Hd _ Hin). cbn. set_solver.
Qed.

(** ** The predicate is closed *)
Definition kept (s0 : t) (s : t) : Prop :=
  forall i v, slots s0 !! i ≫= delivered = Some v -> slots s !! i ≫= delivered = Some v.

(** The link, and no verdict of [s0] is overwritten. *)
Definition settles_once (s0 : t) (loans : list (InFlight Frame)) (p : SendActions) (s : t) : Prop := linked loans p s /\ kept s0 s.

Lemma agrees_same w loans ws s s' : agrees w loans ws s -> same s s' -> agrees w loans ws s'.
Proof. intros [Hr Ht Hl Ha Hp] [_ _ _ Hs Hq _]. split; [done|by rewrite Hs|done|by rewrite Hq|by rewrite Hq]. Qed.

Lemma take_id_bound (table : SendTable) r : Sends.take_id table = Ok r -> Sends.next_id table < u32_max.
Proof.
  unfold Sends.take_id. intros (n & Hn & _)%bind_ok. unfold checked_add in Hn. destruct (Z.leb_spec (Sends.next_id table + 1) u32_max); [lia|done].
Qed.

Lemma admits_allowed (w : world) op table out :
  admits op -> Sends.exec (Sends.w_sends w) op = Ok (table, out) ->
  Sends.allowed w op /\ Sends.out_lent out = None /\ Sends.out_actions out = [] /\ Sends.out_abandoned out = [].
Proof.
  destruct op; try done; cbn [admits Sends.exec Sends.allowed]; intros Ha ([id s] & Hx & [= <- <-])%bind_ok;
    (split; [|done]); apply bind_ok in Hx as (r & Hr & _); apply take_id_bound in Hr; done.
Qed.

Lemma moves_allowed (w : world) op table out :
  moves (Sends.w_sends w) op -> Sends.exec (Sends.w_sends w) op = Ok (table, out) ->
  Sends.allowed w op /\ Sends.out_lent out = None /\ Sends.out_admitted out = [] /\ Sends.out_abandoned out = [] /\
  Sends.loans_after (Sends.w_loans w) op out = Sends.w_loans w.
Proof.
  destruct op; try done; cbn [moves Sends.exec Sends.allowed]; intros Ha Hx;
    try (apply bind_ok in Hx as ([? ?] & _ & Hx); cbn beta iota in Hx); try match goal with Hx : (let '_ := ?x in _) = _ |- _ => destruct x end;
    injection Hx as <- <-; by split_and!.
Qed.

Lemma linked_admit loans p s op table out :
  linked loans p s -> admits op -> Sends.exec (sends (core s)) op = Ok (table, out) -> Sends.out_admitted out = [length (slots s)] ->
  linked loans p (with_sends (new_slot s).2 table).
Proof.
  intros [w [Hr Ht Hl Ha Hp]] Hop Hx Hadm. rewrite <- Ht in Hx. destruct (admits_allowed w op table out Hop Hx) as (Hall & Hlent & Hact & Hab).
  exists (Sends.world_after w op table out). split.
  - by eapply Sends.reachable_step.
  - done.
  - cbn. rewrite <- Hl. unfold Sends.loans_after. destruct op; try done; by rewrite Hlent.
  - cbn. rewrite Ha, Hadm, length_app, Nat.add_comm. cbn [length Nat.add]. by rewrite seq_S.
  - cbn [Sends.world_after Sends.w_reported slots with_sends on_core set_core new_slot snd set_slots].
    rewrite Hact, Hab, Hp, resolved_slots_new. by rewrite app_nil_r.
Qed.

Lemma linked_move loans p s op table out :
  linked loans p s -> moves (sends (core s)) op -> Sends.exec (sends (core s)) op = Ok (table, out) ->
  linked loans (p ++ Sends.out_actions out) (with_sends s table).
Proof.
  intros [w [Hr Ht Hl Ha Hp]] Hop Hx. rewrite <- Ht in Hop, Hx. destruct (moves_allowed w op table out Hop Hx) as (Hall & Hlent & Hadm & Hab & Hla).
  exists (Sends.world_after w op table out). split.
  - by eapply Sends.reachable_step.
  - done.
  - cbn [Sends.world_after Sends.w_loans]. by rewrite Hla.
  - cbn. by rewrite Hadm, app_nil_r, Ha.
  - cbn [Sends.world_after Sends.w_reported slots with_sends on_core set_core]. by rewrite Hab, Hp, settled_waiters_app, app_nil_r, app_assoc.
Qed.

Lemma agrees_settled w loans ws s slot r :
  agrees w loans (slot :: ws) s -> agrees w loans ws (on_slot s slot (slot_settled r)).
Proof.
  intros Hw. destruct (pending_unresolved _ _ _ _ _ Hw) as [Hlt Hnot]. destruct Hw as [Hr Ht Hl Ha Hp]. split; [done..| |].
  - cbn. by rewrite length_alter.
  - cbn [slots on_slot set_slots]. rewrite Hp, resolved_slots_settle by done. by rewrite <- Permutation_middle.
Qed.

Lemma settled_kept w loans ws s0 s slot r :
  agrees w loans (slot :: ws) s -> kept s0 s -> kept s0 (on_slot s slot (slot_settled r)).
Proof.
  intros Hw Hk i v Hv%Hk. destruct (pending_unresolved _ _ _ _ _ Hw) as [_ Hnot]. cbn.
  destruct (decide (i = slot)) as [->|Hne]; [|by rewrite list_lookup_alter_ne]. destruct Hnot. apply elem_of_resolved_slots. by exists v.
Qed.

Section Closed.
Context `{!ApsFrame.ApsCodecs, !AbstractBits NwkFrame.NwkSecurityHeaderControlField, !Ccm, !BlockCipher}.

Lemma settles_once_closed s0 loans : Closed (settles_once s0 loans).
Proof.
  split.
  - intros p s s' [[w Hw] Hk] Hs. split; [exists w; by eapply agrees_same|]. intros i v Hv. rewrite (same_slots _ _ Hs). by apply Hk.
  - by intros p s m [[w [? ? ? ? ?]] Hk] _; (split; [by exists w|]).
  - by intros p s ev x [[w [? ? ? ? ?]] Hk] _; (split; [by exists w|]).
  - by intros p s eui64 c [[w [? ? ? ? ?]] Hk] _; (split; [by exists w|]).
  - by intros p s a x [[w [? ? ? ? ?]] Hk] _; (split; [by exists w|]).
  - by intros p s n [[w [? ? ? ? ?]] Hk]; (split; [by exists w|]).
  - by intros p s [[w [? ? ? ? ?]] Hk]; (split; [by exists w|]).
  - intros p s op table out [Hl Hk] Hop Hx Ha. split; [by eapply linked_admit|]. intros i v Hv%Hk. cbn.
    apply bind_Some in Hv as (x & Hx' & Hv). by rewrite lookup_app_l_Some with (x := x).
  - intros p s op table out [Hl Hk] Hop Hx. split; [by eapply linked_move|done].
  - intros p s slot [[w [Hr Ht Hl Ha Hp]] Hk]. split.
    + exists w. split; [done..| |]; cbn [slots on_slot set_slots]; [by rewrite length_alter|].
      rewrite resolved_slots_alter by apply handed_off_delivered. exact Hp.
    + intros i v Hv%Hk. cbn. destruct (decide (i = slot)) as [->|Hne]; [|by rewrite list_lookup_alter_ne].
      rewrite list_lookup_alter_eq. apply bind_Some in Hv as (x & -> & Hv). cbn. by rewrite handed_off_delivered.
  - intros p s slot r f hop [[w Hw] Hk]. split; [exists w; by apply agrees_settled|by eapply settled_kept].
Qed.

(** Shutting down settles every send that is left. *)
Lemma settle_all w loans ws s0 s r :
  agrees w loans ws s -> kept s0 s ->
  let s' := fold_left (fun s slot => on_slot s slot (slot_settled r)) ws s in agrees w loans [] s' /\ kept s0 s'.
Proof.
  revert s. induction ws as [|slot ws IH]; intros s Hw Hk; [done|]. cbn [fold_left]. apply IH; [by apply agrees_settled|by eapply settled_kept].
Qed.

Lemma abandon_settles_once s0 loans s : settles_once s0 loans [] s -> settles_once s0 [] [] (abandon_sends s).
Proof.
  intros [[w [Hr Ht Hl Ha Hp]] Hk]. unfold abandon_sends. destruct (Sends.abandon (sends (core s))) as [ws table] eqn:Hx.
  destruct (settle_all (Sends.world_after w (Sends.Abandon : table_op) table (Sends.mkOutcome [] None [] ws)) [] ws s0 (with_sends s table) (inr CancelledError))
    as [Hw Hk']; [|done|split; [by eexists|done]].
  split; try done.
  - eapply Sends.reachable_step; [done..|]. cbn [Sends.exec]. rewrite Ht, Hx. done.
  - cbn. by rewrite app_nil_r.
  - cbn [Sends.world_after Sends.w_reported Sends.out_actions Sends.out_abandoned slots with_sends on_core set_core]. rewrite Hp. cbn. by rewrite app_nil_r.
Qed.
End Closed.

(** ** The sender task *)
Section Sender.
Context `{!ApsFrame.ApsCodecs, !AbstractBits NwkFrame.NwkSecurityHeaderControlField, !Ccm, !BlockCipher}.
Context `{!AbstractBits NwkFrame.NwkFrameControl, !AbstractBits NwkFrame.NwkSourceRoute, !NwkCommands.CommandCodecs}.
Context (e : Env) (He : unsigned e).

(** What the sender task holds between its two halves. *)
Definition holds (loan : option (InFlight Frame)) (s0 s : t) : Prop :=
  match loan with
  | None => settles_once s0 [] [] s
  | Some f => exists g, Sends.same_loan f g /\ settles_once s0 [g] [] s
  end.

Lemma sender_start_holds s0 s :
  settles_once s0 [] [] s -> post (sender_start e s) (fun r => holds (fst <$> r.1) s0 r.2).
Proof.
  intros [[w [Hr Ht Hl Ha Hp]] Hk]. unfold sender_start. apply post_bind_eq. intros [o table] Hd.
  assert (settles_once s0 (option_list o) [] (with_sends s table)) as Hs.
  { split; [|done]. exists (Sends.world_after w (Sends.Dequeue (now e) : table_op) table (Sends.mkOutcome [] o [] [])). split; try done.
    - eapply Sends.reachable_step; [done..|]. cbn [Sends.exec]. rewrite Ht, Hd. done.
    - cbn. rewrite Hl. by destruct o.
    - cbn. by rewrite app_nil_r.
    - cbn [Sends.world_after Sends.w_reported Sends.out_actions Sends.out_abandoned]. by rewrite app_nil_r. }
  destruct o as [f|]; cbn [option_list] in Hs; cbv zeta beta iota; [|by apply post_ok].
  apply (post_bind (fun r => settles_once s0 [f] [] r.2)); [apply (start_transmit_cl _ (settles_once_closed s0 [f])); done|].
  intros [[air g] s1] Hs1. apply post_ok. exists f. by split.
Qed.

Lemma sender_finish_holds s0 s f on_air answer :
  holds (Some f) s0 s -> post (sender_finish e s f on_air answer) (settles_once s0 [] []).
Proof.
  intros (g & Hg & Hs). unfold sender_finish.
  set (s1 := match in_flight_transmit f with TxUnicast _ _ => _ | _ => _ end).
  assert (settles_once s0 [g] [] s1) as Hs1.
  { subst s1. destruct (in_flight_transmit f), (in_flight_frame f); try done. apply (finish_unicast_cl _ (settles_once_closed s0 [g])). done. }
  clearbody s1. clear s Hs. cbv zeta. apply post_bind_eq. intros [table a] Ht. unfold commit_sends. cbn [fst snd].
  apply (run_send_actions_cl _ (settles_once_closed s0 [])); [done|]. destruct Hs1 as [[w [Hr Hw Hl Ha Hp]] Hk]. split; [|done].
  match type of Ht with Sends.transmitted _ _ ?r ?n ?d ?i = _ => set (op := Sends.Transmitted f r n d i : table_op) end.
  exists (Sends.world_after w op table (Sends.mkOutcome [] None a [])). split; try done.
  - eapply Sends.reachable_step; [done| |].
    + exists g. rewrite Hl. split; [by left|done].
    + cbn [op Sends.exec]. rewrite Hw, Ht. done.
  - cbn. rewrite Hl. destruct Hg as [Hid _]. rewrite filter_cons_False; [done|]. intros Hne. by apply Hne.
  - cbn. by rewrite app_nil_r.
  - cbn [Sends.world_after Sends.w_reported Sends.out_actions Sends.out_abandoned]. by rewrite Hp, !app_nil_r.
Qed.

(** The radio's report is always taken: its record is there. *)
Lemma report_accepted s0 s f result now delay interval :
  holds (Some f) s0 s -> exists r, Sends.transmitted (sends (core s)) f result now delay interval = Ok r.
Proof.
  intros (g & Hg & [w [Hr Hw Hl Ha Hp]] & _).
  destruct (SendsTheorems.exec_spec w (Sends.Transmitted f result now delay interval : table_op) (SendsTheorems.world_reachable_inv w Hr)) as (s' & out & Hx & _).
  { exists g. rewrite Hl. split; [by left|done]. }
  cbn [Sends.exec] in Hx. apply bind_ok in Hx as (r & Hx & _). exists r. by rewrite <- Hw.
Qed.
End Sender.
End StackLink.
