(* ===== verification/StackSystem.v ===== *)
(** * Runs of the stack

    The tasks of the driver share one state and run in any order: the receive loop on whatever
    arrives, the client's calls, the timers, the tasklets, and the sender task, which holds at most
    one frame between its two halves while the radio transmits it. A run is any interleaving of
    these steps, each with its own clock, random draws and tunables; a step that panics is not part
    of a run. The theorems are about every run. *)

From S2P Require Import Prelude Flat Types Constants AbstractBits Mac NwkSecurity Addresses.
From S2P Require Import SendTypes Sends SendsFacts SendsTheorems Crypto NwkCommands NwkFrame Receive NextHop ApsFrame ApsSecurity ApsSecurityFacts Zdp.
From S2P Require Import Unicasts Stack StackSend StackNwk StackAps StackJoin StackRun StackRadio StackSteps StackLink.

Module StackSystem.
Import Stack StackSend StackNwk StackAps StackJoin StackRun StackRadio StackSteps StackLink.

Section System.
Context `{!ApsFrame.ApsCodecs, !AbstractBits NwkFrame.NwkSecurityHeaderControlField, !Ccm, !BlockCipher}.
Context `{!AbstractBits Receive.GpNwkFrameControl, !AbstractBits NwkFrame.NwkFrameControl, !AbstractBits NwkFrame.NwkSourceRoute}.
Context `{!NwkCommands.CommandCodecs, !Zdp.ZdpCodecs}.
Context `{!AbstractBits Mac.FrameControl, !AbstractBits Mac.SuperframeSpecification, !AbstractBits Mac.AssociationRequestCommand}.
Context `{!AbstractBits Mac.AssociationResponseCommand, !AbstractBits Mac.DisassociationNotificationCommand}.

(** The state, the frame the sender task has with the radio, and the match tables the
    synchronization and the recovery task have with it. *)
Record sys := mkSys {
  stack : t;
  loan : option (InFlight Frame * Mac.Frame bytes);
  tables : list Unicasts.SrcMatchTable
}.

(** The client's calls and the timers. *)
Inductive act (e : Env) (s : t) : t -> Prop :=
| act_unicast r x s' : send_aps_unicast e s r = Ok (x, s') -> act e s s'
| act_broadcast dest profile cluster src dst radius data p x s' :
    send_aps_broadcast e s dest profile cluster src dst radius data p = Ok (x, s') -> act e s s'
| act_groupcast group profile cluster src radius data p x s' :
    send_aps_groupcast e s group profile cluster src radius data p = Ok (x, s') -> act e s s'
| act_cancel id x s' : cancel_send e s id = Ok (x, s') -> act e s s'
| act_permit_joins duration direct : act e s (permit_joins e s duration direct)
| act_provisional ieee key : act e s (set_provisional_key s ieee key)
| act_take : act e s (take_notifications s).2
| act_begin_scan : act e s (begin_network_scan s)
| act_take_beacons : act e s (take_scan_beacons s).2
| act_update_id id : act e s (set_nwk_update_id s id)
| act_retuned c : act e s (retuned s c)
| act_announce : act e s (start_parent_annce e s)
| act_scan bs s' : beacon_request_psdu s = Ok (bs, s') -> act e s s'
| act_scan_ended : act e s (scan_ended s)
| act_drive_sends x s' : drive_sends e s = Ok (x, s') -> act e s s'
| act_conflicts s' : drive_conflict_reports e s = Ok s' -> act e s s'
| act_evict s' : evict_timed_out_children e s = Ok s' -> act e s s'
| act_link_status empty x s' : send_link_status_broadcast e s empty = Ok (x, s') -> act e s s'
| act_many_to_one x s' : send_many_to_one_route_request e s = Ok (x, s') -> act e s s'
| act_beacon_spam s' : beacon_spam_pass e s = Ok s' -> act e s s'
| act_tasklets s' : tasklet_pass e s = Ok s' -> act e s s'.

(** What a step shows on the outside: a secured frame of [sender] was processed, or one of ours was
    secured. *)
Inductive label : Type :=
| Handled (sender : Eui64) (counter : Z)
| Secured (counter : Z)
| Silent.

Definition secured_by (f : NwkFrame.t) : option (Eui64 * Z) :=
  aux ← NwkFrame.aux_header f; eui64 ← NwkFrame.extended_source aux; Some (eui64, NwkFrame.frame_counter aux).

(** The secured frame a received MAC frame makes the stack process. *)
Definition accepted_frame (e : Env) (s : t) (frame : Mac.Frame bytes) : option NwkFrame.t :=
  match frame with
  | Mac.Data d =>
      if bool_decide (Mac.src_address (Mac.df_header d) = Some (AddrNwk (own_address e))) then None
      else
        match Receive.process_802154_data_frame (receive_view e s) d with
        | Ok (Receive.Relay f _) | Ok (Receive.Handle f _) => Some f
        | _ => None
        end
  | _ => None
  end.

Definition receive_label (e : Env) (s : t) (frame : Mac.Frame bytes) : label :=
  match accepted_frame e s frame ≫= secured_by with Some (eui64, counter) => Handled eui64 counter | None => Silent end.

Definition send_label (f : InFlight Frame) : label :=
  match in_flight_frame f with
  | FrameNwk nwk WithNetworkKey => match secured_by nwk with Some (_, counter) => Secured counter | None => Silent end
  | _ => Silent
  end.

Inductive step : sys -> label -> sys -> Prop :=
| step_act e s s' l ts : unsigned e -> act e s s' -> step (mkSys s l ts) Silent (mkSys s' l ts)
| step_receive e s frame channel lqi rssi s' l ts : unsigned e ->
    run_frame e s frame channel lqi rssi = Ok s' -> step (mkSys s l ts) (receive_label e s frame) (mkSys s' l ts)
| step_idle e s s' ts : unsigned e -> sender_start e s = Ok (None, s') -> step (mkSys s None ts) Silent (mkSys s' None ts)
| step_start e s f air s' ts : unsigned e ->
    sender_start e s = Ok (Some (f, air), s') -> step (mkSys s None ts) (send_label f) (mkSys s' (Some (f, air)) ts)
| step_finish e s f air answer s' ts : unsigned e ->
    sender_finish e s f air answer = Ok s' -> step (mkSys s (Some (f, air)) ts) Silent (mkSys s' None ts)
| step_table_read s l ts : step (mkSys s l ts) Silent (mkSys s l (poll_table s :: ts))
| step_table_written s l table ts1 ts2 :
    step (mkSys s l (ts1 ++ table :: ts2)) Silent (mkSys (table_written s table) l (ts1 ++ ts2))
| step_table_failed s l table ts1 ts2 : step (mkSys s l (ts1 ++ table :: ts2)) Silent (mkSys s l (ts1 ++ ts2))
| step_shutdown s l ts : step (mkSys s l ts) Silent (mkSys (abandon_sends s) None []).

Inductive run : sys -> list label -> sys -> Prop :=
| run_nil x : run x [] x
| run_cons x l y ls z : step x l y -> run y ls z -> run x (l :: ls) z.

Lemma run_app x ls y ls' z : run x ls y -> run y ls' z -> run x (ls ++ ls') z.
Proof. induction 1; [done|]. intros Hz. eapply run_cons; eauto. Qed.

(** ** Every step preserves every closed predicate *)
Section Preserve.
Context (P : SendActions -> t -> Prop) (HP : Closed P).

Lemma act_cl e s s' : unsigned e -> P [] s -> act e s s' -> P [] s'.
Proof.
  intros He Hs Ha.
  destruct Ha as [r x s' Hx|dest profile cluster src dst radius data p x s' Hx|group profile cluster src radius data p x s' Hx|id x s' Hx
    |duration direct|ieee key| | | |id|c| |bs s' Hx| |x s' Hx|s' Hx|s' Hx|empty x s' Hx|x s' Hx|s' Hx|s' Hx].
  - exact (send_aps_unicast_cl P HP e He [] s r Hs _ Hx).
  - exact (send_aps_broadcast_cl P HP e He [] s _ _ _ _ _ _ _ _ Hs _ Hx).
  - exact (send_aps_groupcast_cl P HP e He [] s _ _ _ _ _ _ _ Hs _ Hx).
  - exact (cancel_send_cl P HP e He s id Hs _ Hx).
  - apply (cl_with_same P HP [] s); [|done]. unfold permit_joins. by destruct direct; split.
  - eapply (cl_aps P HP); [done|]. apply ApsSecurityFacts.step_provisional.
  - by apply (cl_taken P HP).
  - by apply (cl_with_same P HP [] s); [split|].
  - apply (cl_with_same P HP [] s); [|done]. unfold take_scan_beacons. by destruct (scan_beacons s); split.
  - by apply (cl_with_same P HP [] s); [split|].
  - by apply (cl_with_same P HP [] s); [split|].
  - by apply (cl_with_same P HP [] s); [split|].
  - apply (cl_with_same P HP [] s); [|done]. unfold beacon_request_psdu in Hx. apply bind_ok in Hx as (bs' & _ & [= _ <-]). by split.
  - by apply (cl_with_same P HP [] s); [split|].
  - exact (drive_sends_cl P HP e He s Hs _ Hx).
  - exact (drive_conflict_reports_cl P HP e He [] s Hs _ Hx).
  - exact (evict_timed_out_children_cl P HP e He s Hs _ Hx).
  - exact (send_link_status_broadcast_cl P HP e [] s empty Hs _ Hx).
  - exact (send_many_to_one_cl P HP e [] s Hs _ Hx).
  - exact (beacon_spam_pass_cl P HP e [] s Hs _ Hx).
  - exact (tasklet_pass_cl P HP e He s Hs _ Hx).
Qed.

(** A received frame, from the state in which its counter is already noted. *)
Lemma receive_noted_cl e s frame channel lqi rssi f :
  unsigned e -> accepted_frame e s frame = Some f -> P [] (note_relayer_counter s f) -> post (run_frame e s frame channel lqi rssi) (P []).
Proof.
  intros He Hf Hs. unfold accepted_frame in Hf. destruct frame as [|d| |]; try done. case_bool_decide as Hown; [done|].
  unfold run_frame. rewrite bool_decide_false by done. unfold process_data_frame.
  destruct (Receive.process_802154_data_frame _ d) as [[| | |g n|g n]| |]; try done; injection Hf as ->; cbn [mbind res_bind].
  - apply (post_bind (fun r => r.1 = None /\ P [] r.2)).
    + apply (post_bind (P [])); [by apply (relay_frame_cl P HP)|]. intros s1 Hs1. by apply post_ok.
    + intros [o s1] [Ho Hs1]. cbn in Ho. subst o. by apply post_ok.
  - apply (post_bind (fun r => P [] r.2)).
    + apply (post_bind (P [])); [by apply (handle_decrypted_frame_cl P HP)|]. intros s1 Hs1. by apply post_ok.
    + intros [o s1] Hs1. cbn [snd] in Hs1. destruct (o ≫= _) as [[g payload]|]; [|by apply post_ok].
      by apply (process_aps_frame_cl P HP).
Qed.

(** The sender task and the shutdown, for a predicate that does not look at the send table or the slots. *)
Section Blind.
Context (Hblind : forall p q s table, P p s -> P q (with_sends s table)).
Context (Hslots : forall p s slot v, P p s -> P p (on_slot s slot (slot_settled v))).

Lemma sender_start_cl e s : unsigned e -> P [] s -> post (sender_start e s) (fun r => P [] r.2).
Proof.
  intros He Hs. unfold sender_start. apply post_bind_eq. intros [o table] _. cbv zeta beta iota. apply (Hblind _ [] _ table) in Hs.
  destruct o as [f|]; [|by apply post_ok]. apply (post_bind (fun r => P [] r.2)); [by apply (start_transmit_cl P HP)|].
  intros [[air g] s1] Hs1. by apply post_ok.
Qed.

Lemma sender_finish_cl e s f air answer : unsigned e -> P [] s -> post (sender_finish e s f air answer) (P []).
Proof.
  intros He Hs. unfold sender_finish. cbv zeta. apply post_bind_eq. intros [table a] _. unfold commit_sends. cbn [fst snd].
  apply (run_send_actions_cl P HP); [done|]. apply (Hblind []). destruct (in_flight_transmit f), (in_flight_frame f); try done.
  by apply (finish_unicast_cl P HP).
Qed.

Lemma step_cl x l y : step x l y -> P [] (stack x) -> P [] (stack y).
Proof.
  intros Hxy Hs. destruct Hxy as [e s s' l ts He Ha|e s frame channel lqi rssi s' l ts He Hr|e s s' ts He Hr|e s f air s' ts He Hr|e s f air answer s' ts He Hr
    |s l ts|s l table ts1 ts2|s l table ts1 ts2|s l ts]; cbn [stack] in *.
  - by eapply act_cl.
  - exact (run_frame_cl P HP e He s frame channel lqi rssi Hs _ Hr).
  - exact (sender_start_cl e s He Hs _ Hr).
  - exact (sender_start_cl e s He Hs _ Hr).
  - exact (sender_finish_cl e s f air answer He Hs _ Hr).
  - done.
  - by apply (cl_with_same P HP [] s); [split|].
  - done.
  - unfold abandon_sends. destruct (Sends.abandon _) as [ws table]. apply (Hblind [] []) with (table := table) in Hs.
    revert Hs. generalize (with_sends s table). induction ws as [|slot ws IH]; intros s1 Hs1; [done|]. by apply IH, Hslots.
Qed.

Lemma run_cl x ls y : run x ls y -> P [] (stack x) -> P [] (stack y).
Proof. induction 1 as [|x l y ls z Hxy _ IH]; [done|]. intros Hs. apply IH. by eapply step_cl. Qed.
End Blind.
End Preserve.

(** ** Security, addresses and notifications only move forward *)
Record nwk_le (n n' : NwkSecurity.t) : Prop := mkNwkLe {
  nl_outgoing : NwkSecurity.outgoing_frame_counter n <= NwkSecurity.outgoing_frame_counter n';
  nl_incoming : forall eui64 c, FlatMap.get (NwkSecurity.incoming n) eui64 = Some c ->
    exists c', FlatMap.get (NwkSecurity.incoming n') eui64 = Some c' /\ c <= c'
}.
#[export] Instance nwk_le_preorder : PreOrder nwk_le.
Proof.
  split; [split; [done|eauto with lia]|]. intros x y z [Ho Hi] [Ho' Hi']. split; [lia|]. intros eui64 c (c1 & Hc & ?)%Hi.
  apply Hi' in Hc as (c2 & Hc & ?). exists c2. split; [done|lia].
Qed.

Record advances (s0 : t) (p : SendActions) (s : t) : Prop := mkAdvances {
  adv_addresses : rtc AddressMap.step (address_map (the_nib s0)) (address_map (the_nib s));
  adv_nwk : nwk_le (nwk_security (the_nib s0)) (nwk_security (the_nib s));
  adv_aps : exists evs, ApsSecurityFacts.trace (aps s0) evs (aps s);
  adv_notifications : (length (notifications s0) <= NOTIFICATION_QUEUE_CAP -> length (notifications s) <= NOTIFICATION_QUEUE_CAP)%nat
}.

Lemma trace_snoc x evs y ev z : ApsSecurityFacts.trace x evs y -> ApsSecurityFacts.step y ev z -> ApsSecurityFacts.trace x (evs ++ [ev]) z.
Proof. induction 1; intros Hs; cbn; econstructor; eauto. constructor. Qed.

Lemma noted_le n eui64 counter :
  match FlatMap.get (NwkSecurity.incoming n) eui64 with Some last => last < counter | None => True end ->
  nwk_le n (NwkSecurity.note_inbound_frame_counter n eui64 counter).2.
Proof.
  intros Hnew. unfold NwkSecurity.note_inbound_frame_counter. destruct (FlatMap.insert _ _ _) as [old m] eqn:Hi. cbn [snd].
  replace m with (FlatMap.insert (NwkSecurity.incoming n) eui64 counter).2 by by rewrite Hi. split; [done|]. intros x c Hc.
  change (NwkSecurity.incoming (NwkSecurity.with_incoming n ?m')) with m'. destruct (decide (eui64 = x)) as [<-|Hne].
  - rewrite FlatMap.get_insert_eq. exists counter. split; [done|]. rewrite Hc in Hnew. lia.
  - rewrite FlatMap.get_insert_ne by done. by exists c.
Qed.

Lemma counter_advance n advance n' :
  NwkSecurity.next_outgoing_frame_counter n = Ok (advance, n') ->
  NwkSecurity.ca_value advance = NwkSecurity.outgoing_frame_counter n + 1 /\
  NwkSecurity.outgoing_frame_counter n' = NwkSecurity.ca_value advance /\ nwk_le n n'.
Proof.
  unfold NwkSecurity.next_outgoing_frame_counter. intros (v & Hv & [= <- <-])%bind_ok. unfold checked_add in Hv. destruct (_ <=? _); [|done].
  injection Hv as <-. split_and!; [done..|]. split; cbn; [lia|]. eauto with lia.
Qed.

Lemma pushed_bound s n : (length (notifications (push_notification s n)) <= NOTIFICATION_QUEUE_CAP)%nat.
Proof. cbn. rewrite length_app, length_drop. unfold NOTIFICATION_QUEUE_CAP. cbn. lia. Qed.

Lemma advances_closed s0 : Closed (advances s0).
Proof.
  split.
  - intros p s s' [HA1 HA2 HA3 HA4] [Ea En Ep _ _ Eq]. split; [by rewrite Ea|by rewrite En|by rewrite Ep|by rewrite Eq].
  - intros p s m [HA1 HA2 HA3 HA4] Hm. split; [|done..]. by eapply rtc_r.
  - intros p s ev x [HA1 HA2 [evs HA3] HA4] Hx. split; [done..| |done]. exists (evs ++ [ev]). by eapply trace_snoc.
  - intros p s eui64 c [HA1 HA2 HA3 HA4] Hc. split; [done| |done..]. etrans; [exact HA2|]. by apply noted_le.
  - intros p s a x [HA1 HA2 HA3 HA4] Hx. split; [done| |done..]. etrans; [exact HA2|]. by eapply counter_advance.
  - intros p s n [HA1 HA2 HA3 HA4]. split; [done..|]. intros _. apply pushed_bound.
  - intros p s [HA1 HA2 HA3 HA4]. split; [done..|]. intros _. cbn. lia.
  - by intros p s op table out [HA1 HA2 HA3 HA4] _ _ _.
  - by intros p s op table out [HA1 HA2 HA3 HA4] _ _.
  - by intros p s slot [HA1 HA2 HA3 HA4].
  - by intros p s slot r f hop [HA1 HA2 HA3 HA4].
Qed.

Lemma advances_refl s p : advances s p s.
Proof. split; [done..| |done]. exists []. constructor. Qed.

Lemma run_advances x ls y : run x ls y -> advances (stack x) [] (stack y).
Proof. intros Hr. apply (run_cl _ (advances_closed _)) with (3 := Hr); [by intros p q s table []|by intros p s slot f []|apply advances_refl]. Qed.

(** ** Replays *)
Definition handled (sender : Eui64) (ls : list label) : list Z :=
  omap (fun l => match l with Handled e n => if bool_decide (e = sender) then Some n else None | _ => None end) ls.

(** A frame that is processed is newer than what is stored, and then stored. *)
Lemma step_handled x sender c y :
  step x (Handled sender c) y ->
  match FlatMap.get (NwkSecurity.incoming (nwk_security (the_nib (stack x)))) sender with Some last => last < c | None => True end /\
  exists c', FlatMap.get (NwkSecurity.incoming (nwk_security (the_nib (stack y)))) sender = Some c' /\ c <= c'.
Proof.
  intros Hxy. remember (Handled sender c) as l eqn:Hl.
  destruct Hxy as [e s s' l ts He Ha|e s frame channel lqi rssi s' l ts He Hr|e s s' ts He Hr|e s f air s' ts He Hr|e s f air answer s' ts He Hr
    |s l ts|s l table ts1 ts2|s l table ts1 ts2|s l ts]; try done.
  2: { unfold send_label in Hl. by repeat case_match. }
  cbn [stack]. unfold receive_label in Hl. destruct (accepted_frame e s frame) as [f|] eqn:Hf; [|done]. cbn [mbind option_bind] in Hl.
  destruct (secured_by f) as [[eui64 n]|] eqn:Hb; [|done]. injection Hl as -> ->.
  assert (exists d o n, Receive.process_802154_data_frame (receive_view e s) d = Ok o /\ Receive.accepts o f n) as (d & o & n & Hp & Hacc).
  { unfold accepted_frame in Hf. destruct frame as [|d| |]; try done. case_bool_decide; [done|].
    destruct (Receive.process_802154_data_frame (receive_view e s) d) as [[| | |g m|g m]| |] eqn:Hp; try done; injection Hf as ->;
      eexists d, _, m; (split; [exact Hp|]); [by left|by right]. }
  destruct (Receive.process_authentic _ _ _ _ _ Hp Hacc) as [Hau _].
  destruct (Receive.au_frame _ _ _ _ Hau) as (enc & aux & eui64 & _ & Hd & _ & _ & Haux & Hext & _ & _ & _ & _ & Hnew).
  destruct (Receive.decrypt_headers _ _ _ Hd) as [_ Hh]. unfold secured_by in Hb. rewrite Hh, Haux in Hb. cbn [mbind option_bind] in Hb.
  rewrite Hext in Hb. cbn [mbind option_bind] in Hb. injection Hb as -> <-. split; [exact Hnew|].
  pose proof (receive_noted_cl _ (advances_closed (note_relayer_counter s f)) e s frame channel lqi rssi f He Hf (advances_refl _ _) _ Hr) as Hadv.
  apply (nl_incoming _ _ (adv_nwk _ _ _ Hadv)). unfold note_relayer_counter. rewrite Hh, Haux, Hext. cbn [the_nib with_nwk_security].
  unfold NwkSecurity.note_inbound_frame_counter. destruct (FlatMap.insert _ _ _) as [old m] eqn:Hi. cbn [snd].
  replace m with (FlatMap.insert (NwkSecurity.incoming (nwk_security (the_nib s))) sender (NwkFrame.frame_counter aux)).2 by by rewrite Hi.
  apply FlatMap.get_insert_eq.
Qed.

Lemma step_incoming x l y sender c :
  step x l y -> FlatMap.get (NwkSecurity.incoming (nwk_security (the_nib (stack x)))) sender = Some c ->
  exists c', FlatMap.get (NwkSecurity.incoming (nwk_security (the_nib (stack y)))) sender = Some c' /\ c <= c'.
Proof. intros Hxy. apply (nl_incoming _ _ (adv_nwk _ _ _ (run_advances x [l] y (run_cons _ _ _ _ _ Hxy (run_nil _))))). Qed.

Lemma run_handled sender x ls y :
  run x ls y -> StronglySorted Z.lt (handled sender ls) /\
  forall last, FlatMap.get (NwkSecurity.incoming (nwk_security (the_nib (stack x)))) sender = Some last ->
    Forall (fun n => last < n) (handled sender ls).
Proof.
  induction 1 as [x|x l y ls z Hxy _ [Hsort Hgt]]; [split; [constructor|by constructor]|].
  assert (forall last, FlatMap.get (NwkSecurity.incoming (nwk_security (the_nib (stack x)))) sender = Some last ->
    Forall (fun n => last < n) (handled sender ls)) as Hrest.
  { intros last (c' & Hc & Hle)%(step_incoming _ _ _ _ _ Hxy). eapply Forall_impl; [by apply Hgt|]. cbn. lia. }
  destruct l as [e n| |]; [|done..]. cbn [handled omap list_omap]. change (list_omap _ _ _ ls) with (handled sender ls).
  case_bool_decide as He; [|done]. subst e. apply step_handled in Hxy as [Hnew (c' & Hc & Hle)]. split.
  - constructor; [done|]. eapply Forall_impl; [by apply Hgt|]. cbn. lia.
  - intros last Hl. rewrite Hl in Hnew. by constructor; [|apply Hrest].
Qed.

(** C2: no secured frame is processed twice: in every run of the stack, from any state and whatever
    else happens in between, the frame counters of the network-secured frames the stack processes
    for one sender are strictly increasing. *)
Theorem stack_no_replays sender x ls y : run x ls y -> StronglySorted Z.lt (handled sender ls).
Proof. intros Hr. by apply (run_handled sender) in Hr as [? _]. Qed.

(** ** Nonces *)
Definition secured (ls : list label) : list Z := omap (fun l => match l with Secured n => Some n | _ => None end) ls.
Definition outgoing (s : t) : Z := NwkSecurity.outgoing_frame_counter (nwk_security (the_nib s)).

Lemma encrypt_counter s f enc g s' :
  encrypt_nwk_frame s f WithNetworkKey = Ok (enc, g, s') ->
  exists aux, NwkFrame.aux_header g = Some aux /\ NwkFrame.frame_counter aux = outgoing s + 1 /\ outgoing s' = outgoing s + 1.
Proof.
  unfold encrypt_nwk_frame. intros (aux & _ & Hk)%bind_ok. apply bind_ok in Hk as ([n s1] & Hn & Hk). apply bind_ok in Hk as (enc' & _ & [= <- <- <-]).
  unfold next_nwk_frame_counter in Hn. apply bind_ok in Hn as ([adv x] & (Hv & Ho & _)%counter_advance & [= <- <-]).
  eexists. split; [reflexivity|]. cbn [NwkFrame.frame_counter set_frame_counter]. split; [exact Hv|]. unfold outgoing. rewrite <- Hv.
  destruct (NwkSecurity.ca_should_persist adv); exact Ho.
Qed.

Lemma assign_outgoing s f g s' : assign_mac_sequence (increment_tx_total s) f = (g, s') -> outgoing s' = outgoing s.
Proof.
  assert (outgoing (increment_tx_total s) = outgoing s) as Hi by (unfold increment_tx_total; by destruct (_ =? 0)).
  unfold assign_mac_sequence. destruct (Mac.sequence_number_suppression _); by intros [= <- <-].
Qed.

Lemma start_transmit_counter e s f tx air nwk s' :
  start_transmit e s f tx = Ok (air, FrameNwk nwk WithNetworkKey, s') ->
  exists aux, NwkFrame.aux_header nwk = Some aux /\ NwkFrame.frame_counter aux = outgoing s + 1 /\ outgoing s' = outgoing s + 1.
Proof.
  unfold start_transmit. destruct tx as [hop pending|], f as [f sec|raw]; cbn beta iota.
  2, 4: by destruct (assign_mac_sequence _ _) as [? ?].
  - intros ([[a g] s1] & Hu & [= <- <- -> <-])%bind_ok. unfold start_unicast in Hu. apply bind_ok in Hu as ([[enc h] s2] & He & Hu).
    apply bind_ok in Hu as (bs & _ & Hu). cbv zeta in Hu. destruct (assign_mac_sequence _ _) as [air s3] eqn:Ha. injection Hu as <- <- <-.
    apply encrypt_counter in He as (aux & ? & ? & Ho). exists aux. split_and!; [done..|]. rewrite <- Ho. apply assign_outgoing in Ha. rewrite Ha.
    by destruct (AddressMap.eui64_for _ _).
  - intros ([[a g] s1] & Hu & [= <- <- -> <-])%bind_ok. unfold start_broadcast in Hu. apply bind_ok in Hu as ([[enc h] s2] & He & Hu).
    apply bind_ok in Hu as (bs & _ & Hu). cbv zeta in Hu. destruct (assign_mac_sequence _ _) as [air s3] eqn:Ha. injection Hu as <- <- <-.
    apply encrypt_counter in He as (aux & ? & ? & Ho). exists aux. split_and!; [done..|]. rewrite <- Ho. by apply assign_outgoing in Ha.
Qed.

Lemma step_secured x c y : step x (Secured c) y -> c = outgoing (stack x) + 1 /\ outgoing (stack y) = c.
Proof.
  intros Hxy. remember (Secured c) as l eqn:Hl.
  destruct Hxy as [e s s' l ts He Ha|e s frame channel lqi rssi s' l ts He Hr|e s s' ts He Hr|e s f air s' ts He Hr|e s f air answer s' ts He Hr
    |s l ts|s l table ts1 ts2|s l table ts1 ts2|s l ts]; try done.
  - unfold receive_label in Hl. by repeat case_match.
  - cbn [stack]. unfold sender_start in Hr. apply bind_ok in Hr as ([[g|] table] & _ & Hr); [|done]. cbv zeta in Hr.
    apply bind_ok in Hr as ([[a h] s1] & Ht & [= <- <- <-]). unfold send_label in Hl. cbn [in_flight_frame] in Hl.
    destruct h as [nwk [|]|]; try done. apply start_transmit_counter in Ht as (aux & Haux & Hn & Ho). unfold secured_by in Hl. rewrite Haux in Hl.
    cbn [mbind option_bind] in Hl. destruct (NwkFrame.extended_source aux); [|done]. injection Hl as <-. split; [exact Hn|by rewrite Hn].
Qed.

Lemma run_outgoing x ls y : run x ls y -> outgoing (stack x) <= outgoing (stack y).
Proof. intros Hr. exact (nl_outgoing _ _ (adv_nwk _ _ _ (run_advances _ _ _ Hr))). Qed.

Lemma step_outgoing x l y : step x l y -> outgoing (stack x) <= outgoing (stack y).
Proof. intros Hs. apply (run_outgoing x [l]). eapply run_cons; [exact Hs|apply run_nil]. Qed.

Lemma run_secured x ls y :
  run x ls y -> StronglySorted Z.lt (secured ls) /\ Forall (fun n => outgoing (stack x) < n <= outgoing (stack y)) (secured ls).
Proof.
  induction 1 as [x|x l y ls z Hxy Hyz [Hsort Hgt]]; [split; constructor|]. pose proof (step_outgoing _ _ _ Hxy) as Hle.
  pose proof (run_outgoing _ _ _ Hyz) as Hle'.
  assert (Forall (fun n => outgoing (stack x) < n <= outgoing (stack z)) (secured ls)) as Hrest
    by (eapply Forall_impl; [exact Hgt|]; cbn; lia).
  destruct l as [|n|]; [done| |done]. cbn [secured omap list_omap]. change (list_omap _ _ _ ls) with (secured ls).
  apply step_secured in Hxy as [-> Ho]. split; [|constructor; [lia|done]].
  constructor; [done|]. eapply Forall_impl; [exact Hgt|]. cbn. lia.
Qed.

(** C3: no nonce is used twice: in every run of the stack the frame counters under which it secures
    frames with the network key, retransmissions included, are strictly increasing, and all are
    above the counter it started from. *)
Theorem stack_nonces_increase x ls y :
  run x ls y -> StronglySorted Z.lt (secured ls) /\ Forall (fun n => outgoing (stack x) < n) (secured ls).
Proof. intros [Hs Hf]%run_secured. split; [done|]. eapply Forall_impl; [exact Hf|]. cbn. lia. Qed.

(** ** Handles *)

(** A stack whose send table is empty: nothing was sent yet. *)
Definition fresh (s : t) : Prop := slots s = [] /\ sends (core s) = Sends.new.

(** The link between the system and the send table's worlds. *)
Definition linked_system (s0 : t) (x : sys) : Prop := holds (fst <$> loan x) s0 (stack x).

Lemma fresh_linked s : fresh s -> linked_system s (mkSys s None []).
Proof.
  intros [Hs Ht]. split; [|by intros i v]. exists Sends.init. split; cbn [stack];
    [apply Sends.reachable_init|by rewrite Ht|done|by rewrite Hs|by rewrite Hs].
Qed.

Lemma step_linked s0 x l y : step x l y -> linked_system s0 x -> linked_system s0 y.
Proof.
  unfold linked_system. intros Hxy Hx.
  destruct Hxy as [e s s' l ts He Ha|e s frame channel lqi rssi s' l ts He Hr|e s s' ts He Hr|e s f air s' ts He Hr|e s f air answer s' ts He Hr
    |s l ts|s l table ts1 ts2|s l table ts1 ts2|s l ts]; cbn [stack loan] in *.
  - destruct l as [[f air]|]; cbn [fmap option_fmap option_map fst holds] in *; [destruct Hx as (g & Hg & Hx); exists g; split; [done|]|];
      by eapply (act_cl _ (settles_once_closed s0 _)).
  - destruct l as [[f air]|]; cbn [fmap option_fmap option_map fst holds] in *; [destruct Hx as (g & Hg & Hx); exists g; split; [done|]|];
      exact (run_frame_cl _ (settles_once_closed s0 _) e He s frame channel lqi rssi Hx _ Hr).
  - exact (sender_start_holds e s0 s Hx _ Hr).
  - exact (sender_start_holds e s0 s Hx _ Hr).
  - exact (sender_finish_holds e He s0 s f air answer Hx _ Hr).
  - done.
  - destruct (fst <$> l) as [f|]; cbn [holds] in *; [destruct Hx as (g & Hg & Hx); exists g; split; [done|]|];
      by apply (cl_with_same _ (settles_once_closed s0 _) [] s); [split|].
  - done.
  - destruct (fst <$> l) as [f|]; [destruct Hx as (g & _ & Hx)|]; by eapply abandon_settles_once.
Qed.

Lemma run_linked s0 x ls y : run x ls y -> linked_system s0 x -> linked_system s0 y.
Proof. induction 1 as [|x l y ls z Hxy _ IH]; [done|]. intros Hx. apply IH. by eapply step_linked. Qed.

(** The world of a linked system. *)
Lemma linked_world s0 x : linked_system s0 x ->
  exists w g, agrees w (option_list g) [] (stack x) /\ kept s0 (stack x) /\ option_Forall2 Sends.same_loan (fst <$> loan x) g.
Proof.
  unfold linked_system. destruct (loan x) as [[f air]|]; cbn.
  - intros (g & Hg & [w Hw] & Hk). exists w, (Some g). split_and!; [done..|by constructor].
  - intros ([w Hw] & Hk). exists w, None. split_and!; [done..|by constructor].
Qed.

Lemma rebase s0 x : linked_system s0 x -> linked_system (stack x) x.
Proof.
  unfold linked_system. destruct (fst <$> loan x) as [f|]; cbn; [intros (g & Hg & Hl & _); exists g; split; [done|]|intros [Hl _]]; (split; [done|by intros i v]).
Qed.

(** C1: every handle resolves exactly once: at any point of a run of the stack, the handles it gave
    out are, up to order, those whose final verdict is written together with those whose send is
    still live in the table (so none is lost and none has two sends), and a verdict that is written
    is never overwritten by what happens later. *)
Theorem handles_resolve_once s0 ls x ls' y :
  fresh s0 -> run (mkSys s0 None []) ls x -> run x ls' y ->
  resolved_slots (slots (stack x)) ++ SendsFacts.waiters (sends (core (stack x))) ≡ₚ seq 0 (length (slots (stack x))) /\
  forall i v, slots (stack x) !! i ≫= delivered = Some v -> slots (stack y) !! i ≫= delivered = Some v.
Proof.
  intros Hf Hx Hy. pose proof (run_linked _ _ _ _ Hx (fresh_linked s0 Hf)) as Hl. split.
  - destruct (linked_world _ _ Hl) as (w & g & [Hr Ht _ Ha Hp] & _ & _). rewrite app_nil_r in Hp.
    rewrite <- Ha, <- Hp, <- Ht. symmetry. apply (SendsTheorems.wi_waiters w), (SendsTheorems.world_reachable_inv w Hr).
  - destruct (linked_world _ _ (run_linked _ _ _ _ Hy (rebase _ _ Hl))) as (w & g & _ & Hk & _). exact Hk.
Qed.

(** C4: the driver never trips the send table: at any point of a run, every call it may make on the
    table (polls, acknowledgments, timers, routing, quorums, cancellation, a retry for an awaited
    destination) returns, a frame can be taken for the radio, and when one is with the radio its
    report is accepted; none of the table's [unwrap]s can fire. *)
Theorem send_table_never_trips s0 ls x :
  fresh s0 -> run (mkSys s0 None []) ls x ->
  (forall op, moves (sends (core (stack x))) op -> exists r, Sends.exec (sends (core (stack x))) op = Ok r) /\
  (forall now, exists r, Sends.dequeue (sends (core (stack x))) now = Ok r) /\
  (forall f air result now delay interval, loan x = Some (f, air) ->
    exists r, Sends.transmitted (sends (core (stack x))) f result now delay interval = Ok r).
Proof.
  intros Hf Hx. pose proof (run_linked _ _ _ _ Hx (fresh_linked s0 Hf)) as Hl.
  destruct (linked_world _ _ Hl) as (w & g & [Hr Ht _ _ _] & _ & _). pose proof (SendsTheorems.world_reachable_inv w Hr) as Hinv. split_and!.
  - intros op Hop. rewrite <- Ht in Hop |- *. destruct (SendsTheorems.exec_spec w op Hinv) as (s & out & -> & _); [by destruct op|]. by eexists.
  - intros now. destruct (SendsTheorems.exec_spec w (Sends.Dequeue now : table_op) Hinv I) as (s & out & Hd & _). rewrite Ht in Hd.
    cbn [Sends.exec] in Hd. apply bind_ok in Hd as (r & Hd & _). by exists r.
  - intros f air result now delay interval Hla. unfold linked_system in Hl. rewrite Hla in Hl. by eapply report_accepted.
Qed.

(** ** Well-formedness *)

(** The frame counter fits its 32 bits. *)
Definition fits (p : SendActions) (s : t) : Prop := 0 <= outgoing s <= u32_max.

Lemma fits_closed : Closed fits.
Proof.
  unfold fits, outgoing. split; try by intros; cbn in *.
  - intros p s s' Hs [_ -> _ _ _ _]. done.
  - intros p s advance x Hs Hx. cbn. unfold NwkSecurity.next_outgoing_frame_counter in Hx. apply bind_ok in Hx as (v & Hv & [= _ <-]).
    unfold checked_add in Hv. destruct (Z.leb_spec (NwkSecurity.outgoing_frame_counter (nwk_security (the_nib s)) + 1) u32_max); [|done].
    injection Hv as <-. cbn. lia.
Qed.

(** C17: the state of a running stack stays well formed: in every run of a stack created by [new] with
    a 32-bit frame counter, at most 64 notifications are queued for the client, no two devices are
    mapped to one network address, and the outgoing frame counter is still a 32-bit number: it never
    wraps. *)
Theorem stack_tables_sound cfg channel update_id pan key key_seq key_counter tclk seed counter tokens ls x :
  0 <= key_counter <= u32_max ->
  run (mkSys (new cfg channel update_id pan key key_seq key_counter tclk seed counter tokens) None []) ls x ->
  (length (notifications (stack x)) <= NOTIFICATION_QUEUE_CAP)%nat /\ AddressMap.single_owner (address_map (the_nib (stack x))) /\
  0 <= outgoing (stack x) <= u32_max.
Proof.
  intros Hk Hr. destruct (run_advances _ _ _ Hr) as [Ha _ _ Hn]. split_and!; [apply Hn; cbn; lia|eapply AddressMap.reachable_single_owner; exact Ha|..];
    by apply (run_cl fits fits_closed) with (3 := Hr).
Qed.
End System.
End StackSystem.
