(* ===== verification/StackWitness.v ===== *)
(** * The theorems of the stack on a concrete run

    A coordinator receives two secured frames of a device, sends it a message, has no answer from
    the radio at first and an acknowledgment for the retransmission. *)

From S2P Require Import Prelude Flat Types Constants AbstractBits Codec Mac NwkSecurity Addresses Neighbors.
From S2P Require Import SendTypes Sends SendsFacts Crypto NwkCommands NwkFrame Receive NextHop ApsFrame ApsSecurity MacCodec NwkCodec NwkWitness ApsWitness Zdp.
From S2P Require Import Effects Stack Radio StackSend StackNwk StackAps StackJoin StackRun StackRadio StackSteps StackLink StackSystem.

Module StackWitness.
Import Stack StackSend StackNwk StackAps StackJoin StackRun StackRadio StackSteps StackLink StackSystem.
Import NwkWitness(no_codec, eui, ex_key, ex_header, ex_aux, leave_command, secured_bytes, ex_mac_header).
#[local] Existing Instances NwkWitness.checksum_ccm NwkWitness.command_codecs ApsWitness.aps_codecs.
#[local] Existing Instances NwkCodec.control_bits NwkCodec.security_bits NwkCodec.route_bits NwkCodec.gp_bits.
#[local] Existing Instances MacCodec.control_bits MacCodec.superframe_bits MacCodec.association_bits MacCodec.response_bits MacCodec.disassociation_bits.
#[local] Instance xor_cipher : BlockCipher := fun key block => zip_with Z.lxor key block.
#[local] Instance zdp_codecs : Zdp.ZdpCodecs := {|
  Zdp.device_annce_bits := no_codec _; Zdp.parent_annce_bits := no_codec _; Zdp.parent_annce_rsp_bits := no_codec _;
  Zdp.mgmt_lqi_req_bits := no_codec _; Zdp.mgmt_lqi_rsp_bits := no_codec _; Zdp.mgmt_rtg_req_bits := no_codec _;
  Zdp.mgmt_rtg_rsp_bits := no_codec _; Zdp.zigbee_beacon_bits := no_codec _
|}.

Definition ex_config : Config :=
  mkConfig Neighbors.Coordinator 0x0000 (eui 0x01) (eui 0x02) true true false false 0 (mkParentInformation true true false).

Definition env (at_ : Instant) : Env := mkEnv ex_config Tunables.default at_ 0 0 0 0 0 0 [] ex_key.

Definition ex_new : t := new ex_config 15 0 0x3ef5 ex_key 0 500 ex_key None 0 100.

(** What a call that returns leaves behind. *)
Definition left {A} (d : A) (r : may A) : A := match r with Ok x => x | _ => d end.

Definition ex_data_frame (counter : Z) : Mac.Frame bytes :=
  Mac.Data (Mac.mkDataFrame ex_mac_header
    (secured_bytes (NwkFrame.mk (ex_header NwkFrame.TypeCommand 0x0000) (Some (ex_aux counter)) (NwkFrame.Command leave_command))) 0).

Definition ex_request : UnicastRequest :=
  mkUnicastRequest 0x1d79 0x0104 0x0006 1 1 NoApsAck None 30 [0x01; 0x02; 0x03] None false UserNormal
    (NextHop.Force (NextHop.HostNextHop 0x1d79)).

Definition ex_s1 : t := left ex_new (run_frame (env 10) ex_new (ex_data_frame 1000) 15 200 (-40)).
Definition ex_s2 : t := left ex_new (run_frame (env 20) ex_s1 (ex_data_frame 1001) 15 200 (-40)).
Definition ex_s3 : t := (left (inr NotStarted, ex_new) (send_aps_unicast (env 30) ex_s2 ex_request)).2.

(** The sender task's two halves. *)
Definition begun (e : Env) (s : t) : sys :=
  match sender_start e s with Ok (loan, s) => mkSys s loan [] | _ => mkSys s None [] end.
Definition done_with (e : Env) (x : sys) (answer : TxResult + RadioError) : sys :=
  match loan x with
  | Some (f, air) => mkSys (left (stack x) (sender_finish e (stack x) f air answer)) None (tables x)
  | None => x
  end.

Definition ex_x4 : sys := begun (env 40) ex_s3.
Definition ex_x5 : sys := done_with (env 50) ex_x4 (inl NoAck).
Definition ex_s6 : t := (left (None, ex_new) (drive_sends (env 1000000) (stack ex_x5))).2.
Definition ex_x6 : sys := begun (env 1000050) ex_s6.
Definition ex_x7 : sys := done_with (env 1000060) ex_x6 (inl Acked).

Definition ex_labels : list label := [Handled (eui 0x42) 1000; Handled (eui 0x42) 1001; Silent; Secured 501; Silent; Silent; Secured 502; Silent].

Lemma env_unsigned at_ : unsigned (env at_).
Proof. intros f. by destruct f. Qed.

Definition returned {A} (r : may A) : bool := match r with Ok _ => true | _ => false end.

Lemma left_returned {A} (d : A) (r : may A) : returned r = true -> r = Ok (left d r).
Proof. by destruct r. Qed.

Lemma receive_step e s frame channel lqi rssi d l :
  unsigned e -> returned (run_frame e s frame channel lqi rssi) = true -> receive_label e s frame = l ->
  step (mkSys s None []) l (mkSys (left d (run_frame e s frame channel lqi rssi)) None []).
Proof. intros He Hr <-. apply (step_receive e s frame channel lqi rssi _ None [] He). by apply left_returned. Qed.

Lemma begun_step e s l :
  unsigned e -> match sender_start e s with Ok (Some (f, _), _) => Some (send_label f) | _ => None end = Some l ->
  step (mkSys s None []) l (begun e s).
Proof.
  intros He Hl. unfold begun. destruct (sender_start e s) as [[[[f air]|] s']| |] eqn:Hs; try done. injection Hl as <-.
  by apply (step_start e).
Qed.

Lemma done_step e x answer :
  unsigned e ->
  match loan x with Some (f, air) => returned (sender_finish e (stack x) f air answer) | None => false end = true ->
  step x Silent (done_with e x answer).
Proof.
  intros He Hr. unfold done_with. destruct x as [s [[f air]|] ts]; cbn in *; [|done]. apply (step_finish e s f air answer _ ts He).
  by apply left_returned.
Qed.

Lemma ex_first : step (mkSys ex_new None []) (Handled (eui 0x42) 1000) (mkSys ex_s1 None []).
Proof. apply receive_step; [apply env_unsigned|vm_compute; reflexivity..]. Qed.
Lemma ex_second : step (mkSys ex_s1 None []) (Handled (eui 0x42) 1001) (mkSys ex_s2 None []).
Proof. apply receive_step; [apply env_unsigned|vm_compute; reflexivity..]. Qed.
Lemma ex_asked : step (mkSys ex_s2 None []) Silent (mkSys ex_s3 None []).
Proof.
  apply (step_act (env 30)); [apply env_unsigned|].
  apply (act_unicast _ _ ex_request (left (inr NotStarted, ex_new) (send_aps_unicast (env 30) ex_s2 ex_request)).1). unfold ex_s3.
  rewrite <- surjective_pairing. apply left_returned. vm_compute. reflexivity.
Qed.
Lemma ex_sent : step (mkSys ex_s3 None []) (Secured 501) ex_x4.
Proof. apply begun_step; [apply env_unsigned|vm_compute; reflexivity]. Qed.
Lemma ex_unanswered : step ex_x4 Silent ex_x5.
Proof. apply done_step; [apply env_unsigned|vm_compute; reflexivity]. Qed.
Lemma ex_driven : step (mkSys (stack ex_x5) None []) Silent (mkSys ex_s6 None []).
Proof.
  apply (step_act (env 1000000)); [apply env_unsigned|].
  apply (act_drive_sends _ _ (left (None, ex_new) (drive_sends (env 1000000) (stack ex_x5))).1). unfold ex_s6.
  rewrite <- surjective_pairing. apply left_returned. vm_compute. reflexivity.
Qed.
Lemma ex_sent_again : step (mkSys ex_s6 None []) (Secured 502) ex_x6.
Proof. apply begun_step; [apply env_unsigned|vm_compute; reflexivity]. Qed.
Lemma ex_answered : step ex_x6 Silent ex_x7.
Proof. apply done_step; [apply env_unsigned|vm_compute; reflexivity]. Qed.

Lemma x5_idle : ex_x5 = mkSys (stack ex_x5) None [].
Proof. vm_compute. reflexivity. Qed.

Lemma ex_before : run (mkSys ex_new None []) (take 5 ex_labels) ex_x5.
Proof.
  eapply run_cons; [apply ex_first|]. eapply run_cons; [apply ex_second|]. eapply run_cons; [apply ex_asked|].
  eapply run_cons; [apply ex_sent|]. eapply run_cons; [apply ex_unanswered|]. apply run_nil.
Qed.
Lemma ex_after : run ex_x5 (drop 5 ex_labels) ex_x7.
Proof.
  rewrite x5_idle. eapply run_cons; [apply ex_driven|]. eapply run_cons; [apply ex_sent_again|]. eapply run_cons; [apply ex_answered|]. apply run_nil.
Qed.
Lemma ex_in_flight : run (mkSys ex_new None []) (take 4 ex_labels) ex_x4.
Proof.
  eapply run_cons; [apply ex_first|]. eapply run_cons; [apply ex_second|]. eapply run_cons; [apply ex_asked|].
  eapply run_cons; [apply ex_sent|]. apply run_nil.
Qed.

Lemma ex_run : run (mkSys ex_new None []) ex_labels ex_x7.
Proof. exact (run_app _ _ _ _ _ ex_before ex_after). Qed.

Lemma stack_no_replays_witness : handled (eui 0x42) ex_labels = [1000; 1001] /\ StronglySorted Z.lt (handled (eui 0x42) ex_labels).
Proof. split; [reflexivity|]. apply (stack_no_replays _ _ _ _ ex_run). Defined.

Lemma stack_nonces_increase_witness :
  secured ex_labels = [501; 502] /\ StronglySorted Z.lt (secured ex_labels) /\ Forall (fun n => outgoing ex_new < n) (secured ex_labels).
Proof. split; [reflexivity|]. apply (stack_nonces_increase _ _ _ ex_run). Defined.

Lemma handles_resolve_once_witness :
  resolved_slots (slots (stack ex_x5)) ++ SendsFacts.waiters (sends (core (stack ex_x5))) ≡ₚ [0%nat] /\
  forall i v, slots (stack ex_x5) !! i ≫= delivered = Some v -> slots (stack ex_x7) !! i ≫= delivered = Some v.
Proof. exact (handles_resolve_once ex_new _ ex_x5 _ ex_x7 (conj eq_refl eq_refl) ex_before ex_after). Defined.

Lemma send_table_never_trips_witness :
  is_Some (loan ex_x4) /\
  (forall op, moves (sends (core (stack ex_x4))) op -> exists r, Sends.exec (sends (core (stack ex_x4))) op = Ok r) /\
  (forall now, exists r, Sends.dequeue (sends (core (stack ex_x4))) now = Ok r) /\
  (forall f air result now delay interval, loan ex_x4 = Some (f, air) ->
    exists r, Sends.transmitted (sends (core (stack ex_x4))) f result now delay interval = Ok r).
Proof. split; [vm_compute; by eexists|]. exact (send_table_never_trips ex_new _ ex_x4 (conj eq_refl eq_refl) ex_in_flight). Defined.

Lemma stack_tables_sound_witness :
  outgoing (stack ex_x7) = 502 /\
  (length (notifications (stack ex_x7)) <= NOTIFICATION_QUEUE_CAP)%nat /\ AddressMap.single_owner (address_map (the_nib (stack ex_x7))) /\
  0 <= outgoing (stack ex_x7) <= u32_max.
Proof. split; [vm_compute; reflexivity|]. refine (stack_tables_sound _ _ _ _ _ _ _ _ _ _ _ _ _ _ ex_run). done. Defined.

(** ** The radio *)

(** A radio that refuses channel 26 and transmits nothing. *)
#[local] Instance deaf_radio : Radio.RadioPhy Z := {|
  Radio.reset := mret tt;
  Radio.reconfigure cfg := modify (fun _ => Radio.cfg_channel cfg);
  Radio.set_frame_pending_table _ _ := mret tt;
  Radio.transmit _ := mret NoAck;
  Radio.energy_detect _ _ := raise RadioTimeout;
  Radio.recv_reset _ := mret Radio.TimedOut;
  Radio.set_channel c := if c =? 26 then raise (Rejected "channel") else modify (fun _ => c);
  Radio.transmit_exclusive _ := mret NoAck;
  Radio.set_promiscuous := Radio.set_promiscuous_default
|}.
#[local] Instance deaf_radio_laws : Radio.RadioLaws Z.
Proof.
  refine (Radio.Build_RadioLaws Z _ (fun c => c) _ _ _ _).
  - intros c r. unfold Radio.set_channel, deaf_radio. destruct (c =? 26); [by apply eff_post_raise|by apply eff_post_modify].
  - intros b r. by apply eff_post_ret.
  - intros f r. by apply eff_post_ret.
  - intros cfg r. by apply eff_post_modify.
Defined.

(** A scan that fails at channel 26, beside which nothing happens, and one that a change to channel 20
    overtakes while it waits for the radio. *)
Definition ex_scan (until_lock : t * Z -> t * Z) (channels : list Z) :=
  StackRecovery.run_network_scan (R:=Z) 4 channels until_lock (fun s => s) (ex_new, 15).
Definition ex_retuned (x : t * Z) : t * Z := (retuned x.1 20, 20).

Lemma scan_returns_home_witness :
  (exists s', ex_scan (fun x => x) [11; 26; 12] = Ok (inr (Rejected "channel"), (s', 15)) /\ Radio.tuned (15 : Z) = StackRecovery.channel_of s') /\
  (exists s', ex_scan ex_retuned [11; 12] = Ok (inl tt, (s', 15)) /\ StackRecovery.channel_of s' = 20 /\ Radio.tuned (15 : Z) = 15).
Proof.
  assert (restorable (R:=Z) (StackRecovery.channel_of ex_new)) as Hres.
  { intros r. exists r, 15. split; reflexivity. }
  split.
  - eexists. split; [vm_compute; reflexivity|].
    refine (proj1 (proj2 (StackRecovery.scan_returns_home 4 [11; 26; 12] (fun x => x) (fun s => s) ex_new 15 _ _ 15 Hres _)) _ _ _); [vm_compute; reflexivity|done..].
  - eexists. split; [vm_compute; reflexivity|].
    refine (proj2 (proj2 (StackRecovery.scan_returns_home 4 [11; 12] ex_retuned (fun s => s) ex_new 15 _ _ 15 Hres _)) 20 _ _ _); [vm_compute; reflexivity|done..].
Defined.

(** A radio that refuses its first two configurations: the channel and the refusals left. *)
#[local] Instance slow_radio : Radio.RadioPhy (Z * nat) := {|
  Radio.reset := modify (fun _ => (0, 2%nat));
  Radio.reconfigure cfg r := match r.2 with O => Ok (inl tt, (Radio.cfg_channel cfg, O)) | S n => Ok (inr RadioTimeout, (r.1, n)) end;
  Radio.set_frame_pending_table _ _ := mret tt;
  Radio.transmit _ := mret NoAck;
  Radio.energy_detect _ _ := raise RadioTimeout;
  Radio.recv_reset _ := mret Radio.TimedOut;
  Radio.set_channel c := modify (fun r => (c, r.2));
  Radio.transmit_exclusive _ := mret NoAck;
  Radio.set_promiscuous := Radio.set_promiscuous_default
|}.
#[local] Instance slow_radio_laws : Radio.RadioLaws (Z * nat).
Proof.
  refine (Radio.Build_RadioLaws (Z * nat) _ fst _ _ _ _).
  - intros c r. by apply eff_post_modify.
  - intros b r. by apply eff_post_ret.
  - intros f r. by apply eff_post_ret.
  - intros cfg [c n] answer r'. cbn. destruct n; by intros [= <- <-].
Defined.

(** The stack moved to channel 25; the radio was reset and is on none. *)
Lemma migration_survives_reset_witness :
  exists k s3 r0 r3, let s0 := StackRecovery.disturbed (fun _ s => s) k (retuned (stack ex_x7) 25) in
    StackRecovery.recovery_turn (env 500) 8 (Some (Radio.mkResetEvent "crash")) 3 (fun _ s => s) (retuned (stack ex_x7) 25, (0, 2%nat)) = Ok (inl true, (s3, r3)) /\
    Radio.reconfigure (radio_config (env 500) s0 8).1 r0 = Ok (inl tt, r3) /\
    Radio.tuned r3 = 25 /\ StackRecovery.channel_of s3 = 25 /\ src_match_written s3 = poll_table s0.
Proof.
  refine (StackRecovery.migration_survives_reset (env 500) 8 snd 25 (fun s => s) (stack ex_x7) (15, O) _ (25, O) (Radio.mkResetEvent "crash") (fun _ s => s) (0, 2%nat) _ _ _); [reflexivity| |done].
  intros cfg [c [|n]]; cbn; eexists _, _; (split; [reflexivity|]); [done|]. cbn. lia.
Defined.
End StackWitness.
