(* ===== verification/Exchange.v ===== *)
(** * Two stacks and the air between them

    What one stack puts on the air ([StackSend], [NwkFrame], [Crypto], [Mac]) another reads
    ([Mac], [Receive], [StackNwk], [ApsFrame], [StackRun]): a message of up to 82 bytes arrives as it
    was sent, and whatever the air does to a conversation, losing, repeating and delaying packets, the
    listener queues every message for its host at most once and none after a later one. *)

From S2P Require Import Prelude Flat Types Constants AbstractBits Fcs Mac MacFacts Neighbors NeighborFacts Routing NwkSecurity Addresses Budget.
From S2P Require Import SendTypes Crypto CryptoFacts NwkCommands NwkFrame NwkFrameFacts Receive NextHop ApsFrame ApsFrameFacts ApsSecurity Zdp.
From S2P Require Import Codec MacCodec NwkCodec NwkWitness ApsWitness Stack StackSend StackNwk StackAps StackJoin StackRun StackWitness.

Module Exchange.
Import Stack StackSend StackNwk StackAps StackRun.
#[local] Existing Instance Mac.frame_bytes_payload.
#[local] Existing Instances ApsFrame.control_bits ApsFrameFacts.control_laws ApsFrameFacts.control_size ApsFrameFacts.security_control_laws ApsFrameFacts.security_control_size.

(** ** The link *)

(** A speaker and a listener on one network. *)
Record Link := mkLink {
  l_pan : PanId;
  l_from : Nwk;
  l_to : Nwk;
  l_eui64 : Eui64;
  l_key : Key;
  l_key_seq : Z
}.

Record link_ok (l : Link) : Prop := {
  lo_pan : is_u16 (l_pan l);
  lo_from : is_u16 (l_from l);
  lo_to : 0 <= l_to l < Routing.BROADCAST_ALL_ROUTERS_AND_COORDINATOR;
  lo_apart : l_from l <> l_to l;
  lo_eui64 : eui64_ok (l_eui64 l);
  lo_key_seq : is_u8 (l_key_seq l)
}.

(** A message on its way down: the request of the host, and the numbers [send_aps_unicast] and
    [send_unicast] gave it. *)
Record Message := mkMessage {
  m_request : UnicastRequest;
  m_aps_seq : Z;
  m_nwk_seq : Z;
  m_pending : bool
}.

(** What the largest frame leaves for the payload, below the MAC, NWK, auxiliary and APS headers, the
    integrity code and the check sequence. *)
Definition MAX_ASDU : nat := 82.

(** Plain messages for the application: no acknowledgment, no APS security, not for the device object. *)
Record message_ok (l : Link) (m : Message) : Prop := {
  mo_destination : ur_destination (m_request m) = l_to l;
  mo_profile : is_u16 (ur_profile_id (m_request m));
  mo_cluster : is_u16 (ur_cluster_id (m_request m));
  mo_source : is_u8 (ur_src_ep (m_request m));
  mo_endpoint : is_u8 (ur_dst_ep (m_request m));
  mo_application : ur_profile_id (m_request m) <> Zdp.ZDP_PROFILE_ID \/ ur_dst_ep (m_request m) <> 0;
  mo_plain : ur_aps_security (m_request m) = None;
  mo_unacknowledged : ur_aps_ack (m_request m) = NoApsAck;
  mo_radius : is_u8 (ur_radius (m_request m));
  mo_aps_seq : is_u8 (m_aps_seq m);
  mo_nwk_seq : is_u8 (m_nwk_seq m);
  mo_bytes : is_bytes (ur_data (m_request m));
  mo_length : (length (ur_data (m_request m)) <= MAX_ASDU)%nat
}.

(** The frames of a message at each layer. *)
Definition aps_frame (m : Message) : ApsFrame.ApsDataFrame := unicast_aps_frame (m_request m) (m_aps_seq m) (ur_data (m_request m)).

Definition nwk_header (l : Link) (m : Message) : NwkFrame.NwkHeader :=
  NwkFrame.mkHeader
    (NwkFrame.mkFrameControl NwkFrame.TypeData PROTOCOL_VERSION NwkFrame.Enable false true false false false false 0)
    (l_to l) (l_from l) (Z.max (ur_radius (m_request m)) 1) (m_nwk_seq m) None None None None.

Definition aux_header (l : Link) (counter : Z) : NwkFrame.NwkAuxHeader :=
  NwkFrame.mkAuxHeader (NwkFrame.mkSecurityControl NwkFrame.NoSecurity NwkFrame.NetworkKey true false) counter (Some (l_eui64 l)) (l_key_seq l).

(** The MAC header as the listener reads it; on the air the source PAN is left out. *)
Definition mac_header (l : Link) (pending : bool) (mac_seq : Z) : Mac.FrameHeader :=
  Mac.mkFrameHeader
    (Mac.mkFrameControl Mac.TypeData false pending true true false false false Mac.ModeShort Mac.Ieee2003 Mac.ModeShort)
    (Some mac_seq) (Some (l_pan l)) (Some (AddrNwk (l_to l))) (Some (l_pan l)) (Some (AddrNwk (l_from l))).

(** What the listener's host is told. *)
Definition received (l : Link) (m : Message) (lqi rssi : Z) : ZigbeeNotification :=
  let r := m_request m in
  ReceivedApsCommand (l_from l) (l_to l) None (ur_profile_id r) (ur_cluster_id r) (ur_src_ep r) (ur_dst_ep r) lqi rssi false (ur_data r).

(** A packet heard: which of those on the air, when and how. *)
Record Reception := mkReception {
  r_env : Env;
  r_index : nat;
  r_channel : Z;
  r_lqi : Z;
  r_rssi : Z
}.

(** The receptions that count: each of a packet later than all before it. *)
Fixpoint accept (next : nat) (rs : list Reception) : list Reception :=
  match rs with
  | [] => []
  | r :: rs => if (next <=? r_index r)%nat then r :: accept (S (r_index r)) rs else accept next rs
  end.

Lemma accept_above next rs : Forall (fun r => next <= r_index r)%nat (accept next rs).
Proof.
  revert next. induction rs as [|r rs IH]; intros next; cbn [accept]; [constructor|]. destruct (Nat.leb_spec next (r_index r)); [|apply IH].
  constructor; [done|]. eapply Forall_impl; [apply IH|]. cbn. lia.
Qed.

(** No packet counts twice, nor after a later one. *)
Lemma accept_sorted next rs : StronglySorted lt (r_index <$> accept next rs).
Proof.
  revert next. induction rs as [|r rs IH]; intros next; cbn [accept]; [constructor|]. destruct (next <=? r_index r)%nat; [|apply IH].
  cbn [fmap list_fmap]. constructor; [apply IH|]. apply Forall_fmap. eapply Forall_impl; [apply (accept_above (S (r_index r)))|]. cbn. lia.
Qed.

(** On air that keeps the order every packet heard counts. *)
Lemma accept_all next rs i : StronglySorted le (r_index <$> rs) -> i ∈ r_index <$> rs -> (next <= i)%nat -> i ∈ r_index <$> accept next rs.
Proof.
  revert next. induction rs as [|r rs IH]; intros next; cbn [accept fmap list_fmap]; [done|].
  intros [Hs Hle]%StronglySorted_inv [->|Hi]%elem_of_cons Hn.
  - rewrite (proj2 (Nat.leb_le _ _) Hn). apply list_elem_of_here.
  - destruct (next <=? r_index r)%nat; [|by apply IH]. cbn [fmap list_fmap]. destruct (decide (i = r_index r)) as [->|Hne]; [apply list_elem_of_here|].
    apply list_elem_of_further, IH; [done..|]. rewrite Forall_forall in Hle. specialize (Hle i Hi). lia.
Qed.

(** What the layouts of the control fields are relied on for: every combination of their flags and
    enumerations fits, and a Green Power control field has its version where a NWK one does. *)
Class LinkLayouts `{!AbstractBits Mac.FrameControl, !AbstractBits NwkFrame.NwkFrameControl, !AbstractBits Receive.GpNwkFrameControl, !ApsFrame.ApsCodecs}
    `{!AbstractBitsLaws Mac.FrameControl, !AbstractBitsLaws NwkFrame.NwkFrameControl, !ApsFrameFacts.ApsCodecsLaws} := {
  mac_control_fits (c : Mac.FrameControl) : canonical c;
  nwk_control_fits (c : NwkFrame.NwkFrameControl) : in_width 4 (NwkFrame.protocol_version c) -> in_width 2 (NwkFrame.reserved1 c) -> canonical c;
  aps_control_fits (c : ApsFrame.ApsFrameControl) : in_width 1 (ApsFrame.reserved1 c) -> canonical c;
  gp_version_shared (c : NwkFrame.NwkFrameControl) bs rest (g : Receive.GpNwkFrameControl) n :
    canonical c -> write_abstract_bits c = Some bs -> read_abstract_bits (bs ++ rest) = Some (g, n) ->
    Receive.gp_protocol_version g = NwkFrame.protocol_version c
}.

Section Exchange.
Context `{!AbstractBits Mac.FrameControl, !AbstractBits Mac.SuperframeSpecification, !AbstractBits Mac.AssociationRequestCommand}.
Context `{!AbstractBits Mac.AssociationResponseCommand, !AbstractBits Mac.DisassociationNotificationCommand}.
Context `{!AbstractBits Receive.GpNwkFrameControl, !AbstractBits NwkFrame.NwkFrameControl, !AbstractBits NwkFrame.NwkSourceRoute, !AbstractBits NwkFrame.NwkSecurityHeaderControlField}.
Context `{!NwkCommands.CommandCodecs, !ApsFrame.ApsCodecs, !Zdp.ZdpCodecs, !Ccm, !BlockCipher}.
Context `{!AbstractBitsLaws Mac.FrameControl, !FixedLayout Mac.FrameControl 2}.
Context `{!AbstractBitsLaws NwkFrame.NwkFrameControl, !AbstractBitsLaws NwkFrame.NwkSourceRoute, !FixedLayout NwkFrame.NwkFrameControl 2}.
Context `{!ApsFrameFacts.ApsCodecsLaws, !ApsFrameFacts.SecurityControlLaws, !NwkCommands.CommandCodecsLaws, !Crypto.CcmLaws, !Crypto.CcmBytes, !LinkLayouts}.

(** ** Speaking *)

(** The frame [send_aps_unicast] makes of the request, numbered by [send_unicast]. *)
Definition nwk_message (e : Env) (m : Message) : may (NwkFrame.t + EnqueueError) :=
  let r := m_request m in
  payload ← ApsFrame.data_to_bytes (aps_frame m);
  Ok (match nwk_data_frame e (ur_destination r) payload with
      | inl f => inl (NwkFrame.with_sequence_number (route_frame f (ur_radius r)) (m_nwk_seq m))
      | inr err => inr err
      end).

(** A message, transmitted to its destination. *)
Definition say (e : Env) (s : t) (m : Message) : may (option bytes * t) :=
  f ← nwk_message e m;
  match f with
  | inr _ => Ok (None, s)
  | inl f =>
      '(on_air, _, s) ← start_unicast e s f (ur_destination (m_request m)) WithNetworkKey (m_pending m);
      psdu ← Mac.to_bytes_without_fcs on_air;
      Ok (Some psdu, s)
  end.

(** What [send_aps_unicast] queues for a plain request, when the frame needs no route of its own: the
    frame of the message, numbered as the stack numbers it. *)
Lemma message_queued e s r aps_seq s1 nwk_seq s2 f next_hop pending :
  ur_aps_security r = None -> (length (ur_data r) <= MAX_PHY_PACKET_SIZE)%nat ->
  match ur_aps_counter r with Some n => (n, s) | None => next_aps_counter s end = (aps_seq, s1) -> next_nwk_sequence_number s1 = (nwk_seq, s2) ->
  nwk_message e (mkMessage r aps_seq nwk_seq pending) = Ok (inl f) -> ur_destination r < NwkFrame.BROADCAST_LOW_POWER_ROUTERS ->
  NextHop.resolve (routing (the_nib s2)) (neighbors (the_nib s2)) f (NextHop.RouteMode (ur_route r)) (next_hop_policy e) = Ok (NextHop.Resolved next_hop, f) ->
  send_aps_unicast e s r =
    ('(handle, s3) ← enqueue_unicast e s2 (FrameNwk f WithNetworkKey) (mkPolicy (ur_priority r) Budget.Host) (unicast_confirm e s1 r aps_seq) next_hop (poll_address (the_nib s2) next_hop);
     Ok (inl (handle, aps_seq), s3)).
Proof.
  intros Hsec Hlen Haps Hnwk Hf Hdest Hres. unfold send_aps_unicast, asdu_bytes. rewrite (proj2 (Nat.leb_le _ _) Hlen), Haps.
  unfold nwk_message, aps_frame in Hf. cbn [m_request m_aps_seq m_nwk_seq] in Hf. apply bind_ok in Hf as (payload & Hp & Hf). apply ok_inj in Hf.
  unfold unicast_payload. rewrite Hsec, Hp. cbn [mbind res_bind].
  assert (exists f0, nwk_data_frame e (ur_destination r) payload = inl f0 /\ NwkFrame.with_sequence_number (route_frame f0 (ur_radius r)) nwk_seq = f /\
    NwkFrame.destination (NwkFrame.nwk_header (route_frame f0 (ur_radius r))) = ur_destination r) as (f0 & Hn & Hf0 & Hd).
  { unfold nwk_data_frame in *. destruct (_ <=? _)%nat; [|done]. injection Hf as <-. by eexists. }
  rewrite Hn. unfold send_unicast. cbn [frame security policy confirm mode]. rewrite Hd, (proj2 (Z.ltb_lt _ _) Hdest). cbn [negb]. rewrite Hnwk, Hf0, Hres. cbn [mbind res_bind].
  destruct (enqueue_unicast _ _ _ _ _ _ _) as [[handle s3]| |]; done.
Qed.

(** A packet that carries a message under a counter. *)
Inductive carries (l : Link) (counter : Z) (m : Message) (psdu : bytes) : Prop :=
| carries_intro mac_seq fcs nwk c payload :
    Mac.from_bytes_without_fcs psdu = Ok (Mac.Data (Mac.mkDataFrame (mac_header l (m_pending m) mac_seq) nwk fcs)) ->
    Receive.is_gpdf nwk = false ->
    NwkFrame.from_bytes nwk = Ok (NwkFrame.mkEncrypted (nwk_header l m) (Some (aux_header l counter)) c) ->
    NwkFrame.decrypt (NwkFrame.mkEncrypted (nwk_header l m) (Some (aux_header l counter)) c) (l_key l) =
      Ok (NwkFrame.mk (nwk_header l m) (Some (aux_header l counter)) (NwkFrame.Opaque payload)) ->
    ApsFrame.parse_aps_frame payload = Ok (ApsFrame.Data (aps_frame m)) ->
    carries l counter m psdu.

(** *** The layers *)
Lemma aps_written l m :
  message_ok l m ->
  exists bs, (forall E, ApsFrame.data_to_bytes (E:=E) (aps_frame m) = Ok bs) /\ ApsFrame.parse_aps_frame bs = Ok (ApsFrame.Data (aps_frame m)) /\
    is_bytes bs /\ length bs = (8 + length (ur_data (m_request m)))%nat.
Proof.
  intros Hm. pose proof Hm as [_ Hp Hc Hs He _ Hpl Hack _ Hn _ Hb Hl].
  assert (canonical (data_control ApsFrame.Unicast false false)) as Hctl by (apply aps_control_fits; by split).
  assert (ApsFrame.frame_control (ApsFrame.header (aps_frame m)) = data_control ApsFrame.Unicast false false) as Hfc.
  { cbn. unfold wants_ack. by rewrite Hpl, Hack. }
  assert (ApsFrameFacts.frame_ok (ApsFrame.Data (aps_frame m))) as Hok.
  { cbn [ApsFrameFacts.frame_ok]. rewrite Hfc. split; [by split|]. split; [constructor; rewrite ?Hfc; try done|].
    unfold ApsFrameFacts.fits, MAX_ASDU, MAX_PHY_PACKET_SIZE in *. cbn. lia. }
  destruct (ApsFrameFacts.data_round_trip (E:=Empty_set) _ Hok) as (bs & Hw & Hr). cbn [ApsFrameFacts.frame_to_bytes] in Hw.
  destruct (read_after_write _ Hctl) as (cb & Hcw & Hcb & _). pose proof (write_size _ _ Hcw) as Hcl.
  assert (forall E, ApsFrame.data_to_bytes (E:=E) (aps_frame m) = Ok (((([] ++ cb) ++ [] ++ to_le_bytes 1 (ur_dst_ep (m_request m)) ++ to_le_bytes 2 (ur_cluster_id (m_request m))
    ++ to_le_bytes 2 (ur_profile_id (m_request m)) ++ to_le_bytes 1 (ur_src_ep (m_request m)) ++ to_le_bytes 1 (m_aps_seq m))) ++ ur_data (m_request m))) as Hd.
  { intros E. unfold ApsFrame.data_to_bytes, ApsFrame.data_header_serialize. rewrite Hfc, (extend_written _ _ _ Hcw) by (rewrite Hcl; unfold MAX_PHY_PACKET_SIZE; lia). done. }
  rewrite Hd in Hw. apply ok_inj in Hw. exists bs. rewrite <- Hw in *. split_and!; [done..| |].
  - repeat apply is_bytes_app; auto using is_bytes_nil, is_bytes_to_le_bytes.
  - rewrite !length_app, !length_to_le_bytes, Hcl. cbn. lia.
Qed.

Lemma mac_written l pending mac_seq :
  link_ok l -> is_u8 mac_seq ->
  exists hb, length hb = 9%nat /\ forall src_pan nwk, is_bytes nwk ->
    let h := mac_header l pending mac_seq in
    (forall E fcs, Mac.to_bytes_without_fcs (E:=E) (Mac.Data (Mac.mkDataFrame
       (Mac.mkFrameHeader (Mac.frame_control h) (Mac.sequence_number h) (Mac.dest_pan_id h) (Mac.dest_address h) src_pan (Mac.src_address h)) nwk fcs)) = Ok (hb ++ nwk)) /\
    ((length nwk + 11 <= MAX_PHY_PACKET_SIZE)%nat ->
     exists fcs, Mac.from_bytes_without_fcs (hb ++ nwk) = Ok (Mac.Data (Mac.mkDataFrame h nwk fcs))).
Proof.
  intros [Hp Hf Ht _ _ _] Hs. set (h := mac_header l pending mac_seq).
  assert (is_u16 (l_to l)) as Ht' by (destruct Ht; unfold is_u16, in_width, Routing.BROADCAST_ALL_ROUTERS_AND_COORDINATOR in *; lia).
  assert (MacFacts.header_ok h) as Hok by (constructor; try done; apply mac_control_fits).
  destruct (MacFacts.data_frame_written h Hok eq_refl) as (hb & Hb & Hhb & Hmac). exists hb.
  assert (length hb = 9%nat) as Hl.
  { destruct (read_after_write _ (mac_control_fits (Mac.frame_control h))) as (cb & Hcw & _). pose proof (write_size _ _ Hcw) as Hcl.
    specialize (Hhb Empty_set). unfold Mac.header_bytes in Hhb. rewrite (extend_written _ _ _ Hcw) in Hhb by (rewrite Hcl; unfold MAX_PHY_PACKET_SIZE; lia).
    apply ok_inj in Hhb as <-. cbn [h mac_header Mac.sequence_number Mac.dest_pan_id Mac.dest_address Mac.pan_id_compression Mac.frame_control Mac.src_address Mac.option_bytes Mac.address_bytes].
    rewrite !length_app, Hcl. done. }
  split; [done|]. intros src_pan nwk Hn. destruct (Hmac nwk Hn) as [_ Hfrom]. split.
  - intros E fcs. unfold Mac.to_bytes_without_fcs. cbn [Mac.header Mac.df_header].
    assert (forall h', Mac.pan_id_compression (Mac.frame_control h) = true -> h' = Mac.mkFrameHeader (Mac.frame_control h) (Mac.sequence_number h) (Mac.dest_pan_id h) (Mac.dest_address h) src_pan (Mac.src_address h) ->
      Mac.header_bytes (E:=E) h' = Mac.header_bytes h) as Hsame by (intros h' Hc ->; unfold Mac.header_bytes; cbn [Mac.frame_control Mac.sequence_number Mac.dest_pan_id Mac.dest_address Mac.src_pan_id Mac.src_address]; by rewrite Hc).
    rewrite (Hsame _ eq_refl eq_refl), Hhb. done.
  - intros Hmax. eexists. apply Hfrom. rewrite length_app. lia.
Qed.

Lemma nwk_written l m counter payload :
  link_ok l -> message_ok l m -> is_u32 counter -> is_bytes payload -> (length payload <= 90)%nat ->
  let h := nwk_header l m in let a := aux_header l counter in
  exists nwk c, (forall E, NwkFrame.encrypt (E:=E) (NwkFrame.mk h (Some a) (NwkFrame.Opaque payload)) (l_key l) = Ok (NwkFrame.mkEncrypted h (Some a) c)) /\
    (forall E, NwkFrame.to_bytes (E:=E) (NwkFrame.mkEncrypted h (Some a) c) = Ok nwk) /\ is_bytes nwk /\ length nwk = (26 + length payload)%nat /\
    Receive.is_gpdf nwk = false /\ NwkFrame.from_bytes nwk = Ok (NwkFrame.mkEncrypted h (Some a) c) /\
    NwkFrame.decrypt (NwkFrame.mkEncrypted h (Some a) c) (l_key l) = Ok (NwkFrame.mk h (Some a) (NwkFrame.Opaque payload)).
Proof.
  intros Hl Hm Hc Hb Hlen h a. destruct Hl as [Hp Hf Ht _ He Hk]. destruct Hm.
  assert (canonical (NwkFrame.frame_control h)) as Hctl by (apply nwk_control_fits; by split).
  assert (NwkFrameFacts.header_ok h) as Hh.
  { constructor; try done; unfold is_u16, is_u8, in_width, Routing.BROADCAST_ALL_ROUTERS_AND_COORDINATOR in *; cbn; lia. }
  assert (forall level, NwkFrameFacts.aux_ok (NwkFrame.set_level a level)) as Ha by (intros level; constructor; try done; apply ApsFrameFacts.security_control_fits).
  assert (NwkFrameFacts.securable (NwkFrame.mk h (Some a) (NwkFrame.Opaque payload)) a payload) as Hs.
  { constructor; try done; [left; by eexists|]. unfold Crypto.MIC_LENGTH, MAX_PHY_PACKET_SIZE. lia. }
  destruct (NwkFrameFacts.nwk_sealed _ _ _ (l_key l) Hs) as (nonce & aad & c & _ & Hcc & Hcl & Henc & Hdec).
  cbn [NwkFrame.nwk_header NwkFrame.aux_header] in *. pose proof (CryptoFacts.ccm_is_bytes _ _ _ _ _ Hb (Hcc Empty_set)) as Hcb.
  destruct (NwkFrameFacts.nwk_frame_written h (Some a) Hh (Ha NwkFrame.NoSecurity)) as (pre & Hpb & Hw). destruct (Hw c) as [Hto Hfrom].
  destruct (read_after_write _ Hctl) as (cb & Hcw & _). pose proof (write_size _ _ Hcw) as Hcwl.
  destruct (NwkFrameFacts.control_bytes_written _ (ApsFrameFacts.security_control_fits (NwkFrame.security_control a))) as (b & Hsw & _).
  assert (exists rest, pre ++ c = cb ++ rest /\ length (pre ++ c) = (22 + length c)%nat) as (rest & Hpre & Hpl).
  { specialize (Hto Empty_set). unfold NwkFrame.to_bytes, NwkFrame.extend_frame_bytes in Hto. cbn [NwkFrame.e_nwk_header NwkFrame.e_aux_header NwkFrame.ciphertext] in Hto.
    unfold NwkFrame.header_serialize in Hto. rewrite (extend_written _ _ _ Hcw) in Hto by (rewrite Hcwl; unfold MAX_PHY_PACKET_SIZE; lia).
    cbn [mbind res_bind] in Hto. unfold NwkFrame.aux_serialize in Hto. cbn [NwkFrame.source_route h nwk_header mbind res_bind] in Hto. rewrite Hsw in Hto. cbn [mbind res_bind] in Hto.
    apply ok_inj in Hto as <-. rewrite <- !(assoc_L (++)). cbn [app]. eexists. split; [reflexivity|].
    destruct He as [He _]. cbn. rewrite !length_app, Hcwl. cbn. rewrite !length_app. cbn. unfold Eui64.to_bytes. rewrite He. lia. }
  unfold Crypto.MIC_LENGTH in Hcl. exists (pre ++ c), c. split_and!; [done..|by apply is_bytes_app| | | |done].
  - lia.
  - rewrite Hpre. unfold Receive.is_gpdf. destruct (read_abstract_bits (cb ++ rest)) as [[g n]|] eqn:Hg; [|done].
    by rewrite (gp_version_shared _ _ _ _ _ Hctl Hcw Hg).
  - apply Hfrom. rewrite Hpl. unfold MAX_PHY_PACKET_SIZE. lia.
Qed.

(** A stack that speaks on the link. *)
Record speaker (e : Env) (l : Link) (s : t) : Prop := {
  sp_address : own_address e = l_from l;
  sp_eui64 : ieee_address (config e) = l_eui64 l;
  sp_pan : pan_id (mac (core s)) = l_pan l;
  sp_key : NwkSecurity.network_key (nwk_security (the_nib s)) = l_key l;
  sp_key_seq : NwkSecurity.active_key_seq_number (nwk_security (the_nib s)) = l_key_seq l
}.

Definition spoken (s : t) : Z := NwkSecurity.outgoing_frame_counter (nwk_security (the_nib s)).

(** Changes that leave alone what the link depends on. *)
Definition same_side (s s' : t) : Prop :=
  mac (core s') = mac (core s) /\ nwk_security (the_nib s') = nwk_security (the_nib s).

Lemma counted e l s :
  speaker e l s -> 0 <= spoken s < u32_max ->
  exists s', next_nwk_frame_counter s = Ok (spoken s + 1, s') /\ speaker e l s' /\ spoken s' = spoken s + 1.
Proof.
  intros [Ha He Hp Hk Hq] Hc. unfold next_nwk_frame_counter, NwkSecurity.next_outgoing_frame_counter, checked_add. fold (spoken s).
  rewrite (proj2 (Z.leb_le _ _)) by lia. cbn [unwrap mbind res_bind NwkSecurity.ca_value NwkSecurity.ca_should_persist].
  eexists. split; [reflexivity|]. by destruct (NwkSecurity.is_multiple_of _ _).
Qed.

Lemma same_side_speaker e l s s' n : same_side s s' -> speaker e l s -> speaker e l (with_mac_sequence s' n) /\ spoken (with_mac_sequence s' n) = spoken s.
Proof.
  intros [Hp Hn] [Ha He Hp' Hk Hq]. unfold spoken. change (the_nib (with_mac_sequence s' n)) with (the_nib s'). rewrite Hn. split; [|done].
  split; change (the_nib (with_mac_sequence s' n)) with (the_nib s'); rewrite ?Hn; try done. cbn. congruence.
Qed.

Lemma transmit_side s next_hop r :
  same_side s (increment_tx_total (with_routing
    (match AddressMap.eui64_for (address_map (the_nib s)) next_hop with
     | Some relaying_ieee => with_neighbors s (Neighbors.record_outbound_activity (neighbors (the_nib s)) relaying_ieee)
     | None => s
     end) r)).
Proof. unfold increment_tx_total. destruct (AddressMap.eui64_for _ _); destruct (_ =? 0); done. Qed.

(** What the speaker puts on the air carries the message, under the next counter. *)
Lemma say_carries e l s m :
  link_ok l -> message_ok l m -> speaker e l s -> 0 <= spoken s < u32_max ->
  exists psdu s', say e s m = Ok (Some psdu, s') /\ carries l (spoken s + 1) m psdu /\ speaker e l s' /\ spoken s' = spoken s + 1.
Proof.
  intros Hl Hm Hs Hc. destruct (aps_written l m Hm) as (payload & Hp & Hr & Hpb & Hpl). pose proof (mo_length _ _ Hm) as Hmax. unfold MAX_ASDU in Hmax.
  destruct (counted e l s Hs Hc) as (s1 & Hn & Hs1 & Hc1).
  destruct (nwk_written l m (spoken s + 1) payload Hl Hm) as (nwk & c & Henc & Hto & Hnb & Hnl & Hgp & Hfrom & Hdec); [unfold is_u32, in_width, u32_max in *; lia|done|lia|].
  set (n := wrapping_add u8_max (ieee802154_sequence_number (mac (core s1))) 1).
  assert (is_u8 n) as Hn8 by (pose proof (wrapping_add_range u8_max (ieee802154_sequence_number (mac (core s1))) 1); unfold is_u8, in_width, u8_max in *; lia).
  destruct (mac_written l (m_pending m) n Hl Hn8) as (hb & Hhl & Hmac). destruct (Hmac None nwk Hnb) as [Hmto Hmfrom].
  destruct Hmfrom as [fcs Hmfrom]; [unfold MAX_PHY_PACKET_SIZE; lia|].
  assert (nwk_message e m = Ok (inl (NwkFrame.mk (nwk_header l m) None (NwkFrame.Opaque payload)))) as Hf.
  { unfold nwk_message. rewrite Hp. cbn [mbind res_bind]. unfold nwk_data_frame. rewrite (proj2 (Nat.leb_le _ _)) by (unfold MAX_PHY_PACKET_SIZE; lia).
    rewrite (mo_destination _ _ Hm), (sp_address _ _ _ Hs). done. }
  assert (exists s2, same_side s1 s2 /\ say e s m = Ok (Some (hb ++ nwk), with_mac_sequence s2 n)) as (s2 & Hside & Hsay).
  { unfold say. rewrite Hf. cbn [mbind res_bind]. unfold start_unicast, apply_nwk_aux_header, encrypt_nwk_frame.
    cbn [NwkFrame.aux_header NwkFrame.nwk_header NwkFrame.payload unwrap mbind res_bind]. rewrite Hn. cbn [mbind res_bind].
    rewrite (sp_eui64 _ _ _ Hs), (sp_key_seq _ _ _ Hs), (sp_key _ _ _ Hs1). unfold set_frame_counter.
    cbn [NwkFrame.security_control NwkFrame.extended_source NwkFrame.key_sequence_number]. fold (aux_header l (spoken s + 1)). rewrite Henc. cbn [mbind res_bind]. rewrite Hto. cbn [mbind res_bind].
    match goal with |- context [increment_tx_total (with_routing _ ?r)] => pose proof (transmit_side s1 (ur_destination (m_request m)) r) as Hside end.
    match type of Hside with same_side _ ?x => set (s2 := x) in *; clearbody s2 end. exists s2. split; [done|].
    unfold assign_mac_sequence. cbn [build_unicast_802154_data_frame Mac.header Mac.df_header data_header Mac.frame_control Mac.sequence_number_suppression].
    destruct Hside as [-> _]. fold n. unfold build_unicast_802154_data_frame. cbn [set_sequence mbind res_bind Mac.df_header Mac.df_payload Mac.df_fcs data_header Mac.frame_control Mac.dest_pan_id Mac.dest_address Mac.src_pan_id Mac.src_address].
    rewrite (sp_pan _ _ _ Hs1), (sp_address _ _ _ Hs1), (mo_destination _ _ Hm). specialize (Hmto Empty_set 0).
    cbn [mac_header Mac.frame_control Mac.sequence_number Mac.dest_pan_id Mac.dest_address Mac.src_address] in Hmto. by rewrite Hmto. }
  destruct (same_side_speaker e l s1 s2 n Hside Hs1) as [Hs2 Hc2].
  exists (hb ++ nwk), (with_mac_sequence s2 n). split; [done|]. split; [by econstructor|]. split; [done|congruence].
Qed.

(** ** Listening *)
Record listener (e : Env) (l : Link) (s : t) : Prop := {
  li_address : own_address e = l_to l;
  li_pan : pan_id (mac (core s)) = l_pan l;
  li_key : NwkSecurity.network_key (nwk_security (the_nib s)) = l_key l;
  li_key_seq : NwkSecurity.active_key_seq_number (nwk_security (the_nib s)) = l_key_seq l;
  li_neighbors : NeighborFacts.inv (neighbors (the_nib s))
}.

(** The counter stored for the speaker, and the messages its duplicate table does not have. *)
Definition heard (l : Link) (s : t) : option Z := FlatMap.get (NwkSecurity.incoming (nwk_security (the_nib s))) (l_eui64 l).
Definition unseen (l : Link) (s : t) (aps_seq : Z) : Prop := FlatMap.get (aps_duplicates s) (l_from l, aps_seq) = None.

(** Whether the listener takes a packet with a counter. *)
Definition newer (l : Link) (s : t) (counter : Z) : bool := match heard l s with Some last => last <? counter | None => true end.

Lemma key_for e l s counter :
  listener e l s -> counter < u32_max ->
  NwkSecurity.inbound_network_key (nwk_security (the_nib s)) (l_eui64 l) (l_key_seq l) counter = if newer l s counter then Some (l_key l) else None.
Proof.
  intros [_ _ Hk Hq _] Hc. unfold NwkSecurity.inbound_network_key, newer. rewrite Hq, Z.eqb_refl. cbn [negb].
  rewrite (proj2 (Z.eqb_neq _ _)) by lia. fold (heard l s). change (NwkSecurity.d_key (NwkSecurity.primary (nwk_security (the_nib s)))) with (NwkSecurity.network_key (nwk_security (the_nib s))). rewrite Hk.
  destruct (heard l s) as [last|]; [|done]. rewrite Z.leb_antisym. by destruct (last <? counter).
Qed.

(** The receive path's verdict on a packet of the link. *)
Lemma disposition e l s m counter pending mac_seq nwk fcs c payload :
  let f := NwkFrame.mk (nwk_header l m) (Some (aux_header l counter)) (NwkFrame.Opaque payload) in
  link_ok l -> listener e l s -> counter < u32_max -> Receive.is_gpdf nwk = false ->
  NwkFrame.from_bytes nwk = Ok (NwkFrame.mkEncrypted (nwk_header l m) (Some (aux_header l counter)) c) ->
  NwkFrame.decrypt (NwkFrame.mkEncrypted (nwk_header l m) (Some (aux_header l counter)) c) (l_key l) = Ok f ->
  Receive.process_802154_data_frame (receive_view e s) (Mac.mkDataFrame (mac_header l pending mac_seq) nwk fcs) =
    Ok (if newer l s counter then Receive.Handle f (l_from l) else Receive.Drop).
Proof.
  intros f Hl Hs Hc Hgp Hfrom Hdec. unfold Receive.process_802154_data_frame, receive_view.
  cbn [Mac.df_header Mac.df_payload mac_header Mac.frame_control Mac.security_enabled Mac.dest_pan_id Mac.src_address Receive.pan_id].
  rewrite Hgp, (li_pan _ _ _ Hs), Z.eqb_refl. cbn [negb]. unfold Receive.mac_addressed. cbn [Mac.dest_address mac_header Receive.network_address].
  rewrite (li_address _ _ _ Hs), Z.eqb_refl, orb_true_r. cbn [negb]. rewrite Hfrom. cbn [res_ok mbind res_bind].
  unfold Receive.process_nwk_frame. cbn [NwkFrame.e_nwk_header NwkFrame.e_aux_header NwkFrame.frame_control nwk_header aux_header NwkFrame.reserved1 NwkFrame.security
    NwkFrame.security_control NwkFrame.security_level NwkFrame.key_id NwkFrame.extended_source NwkFrame.key_sequence_number NwkFrame.frame_counter Receive.nwk_security].
  rewrite Z.eqb_refl. cbn [negb]. rewrite !bool_decide_true by done. cbn [negb]. rewrite (key_for e l s counter Hs Hc). destruct (newer l s counter); [|done].
  fold (nwk_header l m) (aux_header l counter). rewrite Hdec. cbn [res_ok mbind res_bind]. unfold Receive.is_transit. cbn [NwkFrame.destination nwk_header Receive.network_address].
  by rewrite Z.eqb_refl.
Qed.

(** Only the tables of neighbors and routes change when the neighbors age. *)
Lemma aged e s :
  let s' := maybe_age_neighbors e s in
  mac (core s') = mac (core s) /\ nwk_security (the_nib s') = nwk_security (the_nib s) /\ notifications s' = notifications s /\ aps_duplicates s' = aps_duplicates s /\
  (NeighborFacts.inv (neighbors (the_nib s)) -> NeighborFacts.inv (neighbors (the_nib s'))).
Proof.
  unfold maybe_age_neighbors. destruct (Neighbors.age _ _ _) as [stale n] eqn:Ha.
  assert (NeighborFacts.inv (neighbors (the_nib s)) -> NeighborFacts.inv n) as Hn.
  { intros Hi. replace n with (Neighbors.age (neighbors (the_nib s)) (now e) (Tunables.load (tunables e) router_age_limit * Tunables.load (tunables e) link_status_period)).2 by by rewrite Ha.
    eapply NeighborFacts.neighbors_step_inv; [apply NeighborFacts.step_age|done]. }
  assert (forall x, let s' := fold_left invalidate_routes_via stale x in
    mac (core s') = mac (core x) /\ nwk_security (the_nib s') = nwk_security (the_nib x) /\ notifications s' = notifications x /\ aps_duplicates s' = aps_duplicates x /\ neighbors (the_nib s') = neighbors (the_nib x)) as Hfold.
  { clear Ha Hn. induction stale as [|a stale IH]; intros x; cbn [fold_left]; [done|]. apply (IH (invalidate_routes_via x a)). }
  destruct (Hfold (with_neighbors s n)) as (Hm & Hk & Hq & Hd & Hb). cbn zeta. rewrite Hm, Hk, Hq, Hd, Hb. done.
Qed.

(** A frame that is handled: its counter is stored, and the host has not heard of it yet. *)
Lemma handled e l s m counter payload lqi :
  link_ok l -> listener e l s ->
  exists s', handle_decrypted_frame e s (NwkFrame.mk (nwk_header l m) (Some (aux_header l counter)) (NwkFrame.Opaque payload)) (l_from l) lqi = Ok s' /\
    listener e l s' /\ heard l s' = Some counter /\ notifications s' = notifications s /\ aps_duplicates s' = aps_duplicates s.
Proof.
  intros Hl [Ha Hp Hk Hq Hi]. unfold handle_decrypted_frame. cbn [NwkFrame.nwk_header nwk_header NwkFrame.source_ieee NwkFrame.destination_ieee NwkFrame.destination NwkFrame.payload mbind res_bind].
  set (s1 := note_relayer_counter s _). destruct (aged e s1) as (Hm1 & Hn1 & Hq1 & Hd1 & Hi1). set (s2 := maybe_age_neighbors e s1) in *. clearbody s2.
  unfold maybe_recompute_lqa. destruct (NeighborFacts.record_lqa_ok (neighbors (the_nib s2)) (l_from l) lqi (Hi1 Hi)) as (n & -> & Hn). cbn [mbind res_bind].
  rewrite (proj2 (Z.leb_gt _ _)) by apply Hl. cbn [andb]. exists (with_neighbors s2 n). split; [done|].
  assert (nwk_security (the_nib (with_neighbors s2 n)) = (NwkSecurity.note_inbound_frame_counter (nwk_security (the_nib s)) (l_eui64 l) counter).2) as Hsec by exact Hn1.
  unfold NwkSecurity.note_inbound_frame_counter in Hsec. destruct (FlatMap.insert _ (l_eui64 l) counter) as [old table] eqn:Hins. cbn [snd] in Hsec.
  split_and!; [|unfold heard; rewrite Hsec; cbn|exact Hq1|exact Hd1].
  - split; rewrite ?Hsec; try done. change (mac (core (with_neighbors s2 n))) with (mac (core s2)). by rewrite Hm1.
  - replace table with (FlatMap.insert (NwkSecurity.incoming (nwk_security (the_nib s))) (l_eui64 l) counter).2 by by rewrite Hins. apply FlatMap.get_insert_eq.
Qed.

(** The duplicate table learns one message. *)
Lemma first_seen e l s n :
  unseen l s n ->
  exists table, is_duplicate_aps_frame e s (l_from l) n = (false, set_aps_duplicates s table) /\
    forall k, unseen l s k -> k <> n -> FlatMap.get table (l_from l, k) = None.
Proof.
  unfold unseen, is_duplicate_aps_frame. intros Hn. set (kept := FlatMap.retain _ _).
  assert (forall k, FlatMap.get (aps_duplicates s) (l_from l, k) = None -> FlatMap.get kept (l_from l, k) = None) as Hkept.
  { intros k Hk. unfold kept. by rewrite FlatMap.get_retain, Hk. }
  pose proof (FlatMap.get_insert_old kept (l_from l, n) (now e)) as Hold. pose proof (fun k => FlatMap.get_insert_ne kept (l_from l, n) (l_from l, k) (now e)) as Hne.
  destruct (FlatMap.insert kept (l_from l, n) (now e)) as [old table]. cbn [fst snd] in *. rewrite Hold, (Hkept _ Hn).
  exists table. split; [done|]. intros k Hk Hkn. rewrite Hne; [auto|congruence].
Qed.

Lemma told e l s f m lqi rssi payload :
  message_ok l m -> NwkFrame.nwk_header f = nwk_header l m -> ApsFrame.parse_aps_frame payload = Ok (ApsFrame.Data (aps_frame m)) -> unseen l s (m_aps_seq m) ->
  exists table, process_aps_frame e s f payload lqi rssi = Ok (push_notification (set_aps_duplicates s table) (received l m lqi rssi)) /\
    forall k, unseen l s k -> k <> m_aps_seq m -> FlatMap.get table (l_from l, k) = None.
Proof.
  intros Hm Hf Hp Hu. destruct (first_seen e l s (m_aps_seq m) Hu) as (table & Hd & Ht). exists table. split; [|done].
  unfold process_aps_frame. rewrite Hp. unfold deliver_aps_data. rewrite Hf. cbn [NwkFrame.source nwk_header aps_frame unicast_aps_frame ApsFrame.header ApsFrame.counter].
  rewrite Hd. cbn [ApsFrame.frame_control data_control ApsFrame.ack_request]. unfold wants_ack. rewrite (mo_unacknowledged _ _ Hm). cbn [mbind res_bind].
  unfold handle_zdp_frame. destruct (mo_application _ _ Hm) as [Hz%Z.eqb_neq|Hz].
  - change (ApsFrame.profile_id _) with (ur_profile_id (m_request m)). by rewrite Hz.
  - change (ApsFrame.destination_endpoint _) with (Some (ur_dst_ep (m_request m))). rewrite (bool_decide_false (Some _ = Some 0)) by congruence. by rewrite orb_true_r.
Qed.

(** A packet of the link, received: a message under a newer counter is told to the host; one under a
    counter already heard changes nothing. *)
Lemma hear_packet e l s m counter psdu channel lqi rssi :
  link_ok l -> message_ok l m -> listener e l s -> carries l counter m psdu -> counter < u32_max ->
  if newer l s counter then unseen l s (m_aps_seq m) ->
    exists s', run_packet e s psdu channel lqi rssi = Ok s' /\ listener e l s' /\ heard l s' = Some counter /\
      notifications s' = notifications (push_notification s (received l m lqi rssi)) /\
      forall k, unseen l s k -> k <> m_aps_seq m -> unseen l s' k
  else run_packet e s psdu channel lqi rssi = Ok s.
Proof.
  intros Hl Hm Hs [mac_seq fcs nwk c payload Hmac Hgp Hfrom Hdec Hp] Hc.
  pose proof (disposition e l s m counter (m_pending m) mac_seq nwk fcs c payload Hl Hs Hc Hgp Hfrom Hdec) as Hd. unfold run_packet. rewrite Hmac.
  unfold run_frame. cbn [Mac.header Mac.df_header mac_header Mac.src_address]. rewrite bool_decide_false.
  2: { intros Heq. apply (lo_apart _ Hl). injection Heq as Heq. by rewrite Heq, (li_address _ _ _ Hs). }
  fold (mac_header l (m_pending m) mac_seq). unfold process_data_frame. rewrite Hd. cbn [mbind res_bind]. destruct (newer l s counter); [|done].
  intros Hu. destruct (handled e l s m counter payload lqi Hl Hs) as (s1 & -> & Hs1 & Hh1 & Hq1 & Hd1). cbn [mbind res_bind option_bind NwkFrame.as_opaque NwkFrame.payload fmap option_fmap option_map].
  assert (unseen l s1 (m_aps_seq m)) as Hu1 by (unfold unseen; by rewrite Hd1).
  destruct (told e l s1 (NwkFrame.mk (nwk_header l m) (Some (aux_header l counter)) (NwkFrame.Opaque payload)) m lqi rssi payload Hm eq_refl Hp Hu1) as (table & Ht & Hk).
  eexists. split; [exact Ht|]. split_and!; [by destruct Hs1|done|cbn; by rewrite Hq1|]. intros k Huk Hne. apply Hk; [|done]. unfold unseen. by rewrite Hd1.
Qed.

(** ** A conversation *)

(** The speaker's messages, one after the other, each at its time. *)
Fixpoint speak (s : t) (ms : list (Env * Message)) : may (list (option bytes) * t) :=
  match ms with
  | [] => Ok ([], s)
  | (e, m) :: ms =>
      '(packet, s) ← say e s m;
      '(packets, s) ← speak s ms;
      Ok (packet :: packets, s)
  end.

(** What the listener hears of the packets on the air. *)
Fixpoint listen (packets : list (option bytes)) (s : t) (rs : list Reception) : may t :=
  match rs with
  | [] => Ok s
  | r :: rs =>
      match packets !! r_index r with
      | Some (Some psdu) => s ← run_packet (r_env r) s psdu (r_channel r) (r_lqi r) (r_rssi r); listen packets s rs
      | _ => listen packets s rs
      end
  end.

(** The events of the receptions that count. *)
Definition events (l : Link) (ms : list (Env * Message)) (rs : list Reception) : list ZigbeeNotification :=
  omap (fun r => (fun em => received l em.2 (r_lqi r) (r_rssi r)) <$> ms !! r_index r) rs.

Lemma speak_carries l a ms :
  link_ok l -> Forall (fun em => speaker em.1 l a /\ message_ok l em.2) ms -> 0 <= spoken a -> spoken a + Z.of_nat (length ms) < u32_max ->
  exists packets a', speak a ms = Ok (packets, a') /\
    forall i em, ms !! i = Some em -> exists psdu, packets !! i = Some (Some psdu) /\ carries l (spoken a + 1 + Z.of_nat i) em.2 psdu.
Proof.
  intros Hl. revert a. induction ms as [|[e m] ms IH]; intros a Hms H0' Hmax; cbn [speak length] in *; [by exists [], a|].
  apply Forall_cons in Hms as [[Hs Hm] Hms]. cbn [fst snd] in *.
  destruct (say_carries e l a m Hl Hm Hs) as (psdu & a1 & Hsay & Hc & Hs1 & Hc1); [lia|]. rewrite Hsay. cbn [mbind res_bind].
  destruct (IH a1) as (packets & a' & Hsp & Hall); [|lia..|].
  { eapply Forall_impl; [exact Hms|]. cbn. intros em [[? ? _ _ _] ?]. split; [|done]. by destruct Hs1. }
  rewrite Hsp. cbn [mbind res_bind]. exists (Some psdu :: packets), a'. split; [done|]. intros [|i] em; cbn [lookup list_lookup].
  - intros [= <-]. exists psdu. by rewrite Z.add_0_r.
  - intros Hi. destruct (Hall i em Hi) as (x & Hx & Hxc). exists x. split; [done|]. by replace (spoken a + 1 + Z.of_nat (S i)) with (spoken a1 + 1 + Z.of_nat i) by lia.
Qed.

(** The listener is at a point of the conversation: it takes the packets from there on, and has none
    of their messages. *)
Definition at_point (l : Link) (base : Z) (ms : list (Env * Message)) (s : t) (next : nat) : Prop :=
  (forall i, newer l s (base + 1 + Z.of_nat i) = (next <=? i)%nat) /\
  forall i em, (next <= i)%nat -> ms !! i = Some em -> unseen l s (m_aps_seq em.2).

Lemma listen_step l base ms packets s next r em :
  link_ok l -> NoDup (m_aps_seq ∘ snd <$> ms) -> listener (r_env r) l s -> at_point l base ms s next ->
  ms !! r_index r = Some em -> message_ok l em.2 -> base + 1 + Z.of_nat (r_index r) < u32_max ->
  (exists psdu, packets !! r_index r = Some (Some psdu) /\ carries l (base + 1 + Z.of_nat (r_index r)) em.2 psdu) ->
  exists s', (forall rs, listen packets s (r :: rs) = listen packets s' rs) /\ listener (r_env r) l s' /\
    if (next <=? r_index r)%nat then at_point l base ms s' (S (r_index r)) /\ notifications s' = notifications (push_notification s (received l em.2 (r_lqi r) (r_rssi r)))
    else s' = s.
Proof.
  intros Hl Hnd Hs [Hnew Hun] Hi Hm Hmax (psdu & Hp & Hc). cbn [listen]. rewrite Hp.
  pose proof (hear_packet (r_env r) l s em.2 _ psdu (r_channel r) (r_lqi r) (r_rssi r) Hl Hm Hs Hc Hmax) as Hr. rewrite Hnew in Hr.
  destruct (Nat.leb_spec next (r_index r)) as [Hle|Hgt]; [|exists s; by rewrite Hr].
  destruct (Hr (Hun _ _ Hle Hi)) as (s' & Hrun & Hs' & Hh & Hq & Hk). exists s'. rewrite Hrun. split; [done|]. split; [done|]. split; [|done]. split.
  - intros i. unfold newer. rewrite Hh. destruct (Nat.leb_spec (S (r_index r)) i); [apply Z.ltb_lt|apply Z.ltb_ge]; lia.
  - intros i em' Hi' Hem. apply Hk; [apply (Hun i); [lia|done]|]. intros Heq.
    assert (i = r_index r); [|lia]. eapply NoDup_lookup; [exact Hnd|rewrite list_lookup_fmap, Hem; reflexivity|]. rewrite list_lookup_fmap, Hi. cbn. by rewrite Heq.
Qed.

Lemma pushed_same s s' q : notifications s = notifications s' -> notifications (fold_left push_notification q s) = notifications (fold_left push_notification q s').
Proof. revert s s'. induction q as [|n q IH]; intros s s' Hs; cbn [fold_left]; [done|]. apply IH. unfold push_notification. cbn. by rewrite Hs. Qed.

Lemma listen_refines l base ms packets rs s next :
  link_ok l -> NoDup (m_aps_seq ∘ snd <$> ms) -> Forall (fun em => message_ok l em.2) ms -> base + Z.of_nat (length ms) < u32_max ->
  (forall i em, ms !! i = Some em -> exists psdu, packets !! i = Some (Some psdu) /\ carries l (base + 1 + Z.of_nat i) em.2 psdu) ->
  Forall (fun r => listener (r_env r) l s /\ (r_index r < length ms)%nat) rs -> at_point l base ms s next ->
  exists s', listen packets s rs = Ok s' /\ notifications s' = notifications (fold_left push_notification (events l ms (accept next rs)) s).
Proof.
  intros Hl Hnd Hms Hmax Hp. revert s next. induction rs as [|r rs IH]; intros s next Hrs Hat; [by exists s|].
  apply Forall_cons in Hrs as [[Hs Hi] Hrs]. destruct (lookup_lt_is_Some_2 ms _ Hi) as [em Hem].
  destruct (listen_step l base ms packets s next r em Hl Hnd Hs Hat Hem) as (s1 & Hrun & Hs1 & Hnext); [by eapply Forall_lookup in Hms|lia|by apply Hp|].
  assert (Forall (fun r => listener (r_env r) l s1 /\ (r_index r < length ms)%nat) rs) as Hrs1.
  { eapply Forall_impl; [exact Hrs|]. cbn. intros x [[? _ _ _ _] ?]. split; [|done]. by destruct Hs1. }
  rewrite Hrun. cbn [accept]. destruct (next <=? r_index r)%nat.
  - destruct Hnext as [Hat1 Hq]. destruct (IH s1 _ Hrs1 Hat1) as (s' & Hr' & Hq'). exists s'. split; [done|]. rewrite Hq'. unfold events. cbn [omap list_omap]. rewrite Hem. cbn [fmap option_fmap option_map fold_left].
    by apply pushed_same.
  - subst s1. exact (IH s next Hrs Hat).
Qed.

(** C7: whatever the air does to a conversation, the listener keeps its order. The messages are plain
    application messages of up to 82 bytes (not for the device object, with no APS acknowledgment
    and no APS security), sent to the listener one after the other over one link and secured with
    the network key, on which the two sides agree; their APS counters are distinct and none is in
    the listener's duplicate table yet, the listener has stored no later frame counter of the
    speaker, and the speaker's counter stays below its limit. Then all are transmitted and every
    packet is processed, whichever of them are lost, repeated or delayed; what the listener puts into
    its notification queue, in full and as sent, is exactly the messages whose packets arrived before
    any later one, each once and in the order they were sent; and when the air keeps the order every
    message that arrives is among them. The queue holds 64 entries and drops its oldest when full, so
    the host is told of each message as long as it keeps up. *)
Theorem conversation_refined l a b ms rs :
  link_ok l -> Forall (fun em => speaker em.1 l a /\ message_ok l em.2) ms -> 0 <= spoken a -> spoken a + Z.of_nat (length ms) < u32_max ->
  NoDup (m_aps_seq ∘ snd <$> ms) -> Forall (fun em => unseen l b (m_aps_seq em.2)) ms ->
  Forall (fun r => listener (r_env r) l b /\ (r_index r < length ms)%nat) rs -> from_option (fun last => last <= spoken a) True (heard l b) ->
  exists packets a' b', speak a ms = Ok (packets, a') /\ listen packets b rs = Ok b' /\
    notifications b' = notifications (fold_left push_notification (events l ms (accept 0 rs)) b) /\
    StronglySorted lt (r_index <$> accept 0 rs) /\
    (StronglySorted le (r_index <$> rs) -> forall i, i ∈ r_index <$> rs -> i ∈ r_index <$> accept 0 rs).
Proof.
  intros Hl Hms H0' Hmax Hnd Hun Hrs Hh. destruct (speak_carries l a ms Hl Hms H0' Hmax) as (packets & a' & Hsp & Hp).
  assert (at_point l (spoken a) ms b 0) as Hat.
  { split; [|intros i em _ Hi; by eapply Forall_lookup in Hun]. intros i. unfold newer. destruct (heard l b) as [last|]; [|done]. cbn in Hh. apply Z.ltb_lt. lia. }
  destruct (listen_refines l (spoken a) ms packets rs b 0 Hl Hnd) as (b' & Hb & Hq); [|done..|].
  { eapply Forall_impl; [exact Hms|]. by cbn; intros ? []. }
  exists packets, a', b'. split_and!; [done..|apply accept_sorted|]. intros Hs i Hi. apply accept_all; [done..|lia].
Qed.
End Exchange.
End Exchange.

(** ** The theorem on two stacks

    A device sends the coordinator of [StackWitness] two messages; the first is heard twice, and once
    more after the second. *)
Module ExchangeWitness.
Import Stack StackAps Exchange.
Import NwkWitness(eui, ex_key).
#[local] Existing Instances NwkWitness.checksum_ccm NwkWitness.checksum_ccm_laws NwkWitness.checksum_ccm_bytes NwkWitness.command_codecs NwkWitness.command_codecs_laws.
#[local] Existing Instances ApsWitness.aps_codecs ApsWitness.aps_codecs_laws ApsWitness.aps_security_control_laws StackWitness.zdp_codecs StackWitness.xor_cipher.
#[local] Existing Instances NwkCodec.control_bits NwkCodec.control_laws NwkCodec.control_layout NwkCodec.security_bits NwkCodec.route_bits NwkCodec.route_laws NwkCodec.gp_bits.
#[local] Existing Instances MacCodec.control_bits MacCodec.control_laws MacCodec.control_layout MacCodec.superframe_bits MacCodec.association_bits MacCodec.response_bits MacCodec.disassociation_bits.

Lemma version_read (c : NwkFrame.NwkFrameControl) bs rest (g : Receive.GpNwkFrameControl) n :
  canonical c -> write_abstract_bits c = Some bs -> read_abstract_bits (bs ++ rest) = Some (g, n) ->
  Receive.gp_protocol_version g = NwkFrame.protocol_version c.
Proof.
  intros [Hlow _]. cbn [fst NwkCodec.control_parts] in Hlow. destruct (NwkCodec.nwk_low_codec _ Hlow) as [Hw Hd].
  revert Hd. unfold NwkCodec.decode_low. intros (ty & _ & (d & _ & [= _ Hv _])%bind_Some)%bind_Some.
  set (low := NwkCodec.encode_low _) in *. cbn - [low]. intros [= <-]. cbn - [low].
  rewrite Z.mod_small by exact Hw. unfold NwkCodec.decode_gp. intros (y & (t & _ & [= <-])%bind_Some & [= <- _])%bind_Some.
  cbn [Receive.gp_protocol_version]. fold low. rewrite Z.mul_0_r, Z.add_0_r. exact Hv.
Qed.

#[local] Instance layouts : LinkLayouts.
Proof.
  split.
  - intros c. by split.
  - intros c Hv Hr. by split.
  - intros c Hr. exact Hr.
  - exact version_read.
Qed.

Definition ex_link : Link := mkLink 0x3ef5 0x1d79 0x0000 (eui 0x42) ex_key 0.
Definition device_config : Config :=
  mkConfig Neighbors.Router 0x1d79 (eui 0x42) (eui 0x02) true true false false 0 (mkParentInformation true true false).
Definition device_env (at_ : Instant) : Env := mkEnv device_config Tunables.default at_ 0 0 0 0 0 0 [] ex_key.
Definition device : t := new device_config 15 0 0x3ef5 ex_key 0 900 ex_key None 0 100.
Definition ex_request (data : bytes) : UnicastRequest :=
  mkUnicastRequest 0x0000 0x0104 0x0006 1 1 NoApsAck None 30 data None false UserNormal (NextHop.Force (NextHop.HostNextHop 0x0000)).
Definition ex_messages : list (Env * Message) :=
  [(device_env 10, mkMessage (ex_request [0x01; 0x02]) 1 1 false); (device_env 20, mkMessage (ex_request (replicate 82 0x55)) 2 2 false)].
Definition ex_heard : list Reception :=
  (fun x => mkReception (StackWitness.env x.1) x.2 15 200 (-40)) <$> [(30, 0%nat); (40, 0%nat); (50, 1%nat); (60, 0%nat)].

Lemma conversation_refined_witness :
  (r_index <$> accept 0 ex_heard = [0; 1]%nat) /\
  exists packets a' b', speak device ex_messages = Ok (packets, a') /\ listen packets StackWitness.ex_new ex_heard = Ok b' /\
    notifications b' = notifications (fold_left push_notification (events ex_link ex_messages (accept 0 ex_heard)) StackWitness.ex_new) /\
    StronglySorted lt (r_index <$> accept 0 ex_heard) /\
    (StronglySorted le (r_index <$> ex_heard) -> forall i, i ∈ r_index <$> ex_heard -> i ∈ r_index <$> accept 0 ex_heard).
Proof.
  split; [reflexivity|]. apply (conversation_refined ex_link device StackWitness.ex_new ex_messages ex_heard).
  - split; try done; try (by split). split; [done|]. by apply Forall_replicate.
  - repeat constructor; try done; try (left; done); cbn; try lia; repeat apply Forall_cons; try done; try (by split); apply Forall_replicate; by split.
  - done.
  - done.
  - apply (bool_decide_unpack _). vm_compute. exact I.
  - repeat constructor.
  - assert (NeighborFacts.inv Neighbors.new) as Hn by (apply NeighborFacts.neighbors_reachable_inv, rtc_refl). repeat constructor; try done; cbn; try lia; apply Hn.
  - exact I.
Defined.
End ExchangeWitness.
