(* ===== verification/Wire.v ===== *)
(** * The host protocol's frames: [src/crates/ziggurat-protocol/src/wire.rs]

    Requests, responses, streamed events and notifications between a host and the stack. Every frame
    starts with a three-byte header. The layouts of the payloads are declared with the [abstract-bits]
    macro and are parameters; a length or [reserved] field is computed by the macro and is no field
    of the struct. *)

From S2P Require Import Prelude Types AbstractBits.

Module Wire.

Definition PROTOCOL_VERSION : Z := 2.
Definition MAX_FRAME : nat := 512.

(** 14 bits on the wire. *)
Abbreviation RequestId := Z (only parsing).

(** ** Codes *)
Inductive RequestCommand : Type :=
| CmdReset | CmdGetFirmwareInfo | CmdGetHwAddress | CmdShutdown
| CmdConfigure | CmdLoadKeyTable | CmdLoadChildren | CmdLoadAddressCache | CmdLoadRouteTable | CmdLoadSourceRoutes | CmdStartNetwork
| CmdGetNetworkInfo | CmdScanKeyTable | CmdScanChildren | CmdScanAddressCache | CmdScanRouteTable
| CmdSendUnicast | CmdSendBroadcast | CmdSendGroupcast | CmdCancelRequest | CmdPermitJoins | CmdSetChannel | CmdSetNwkUpdateId
| CmdSetProvisionalKey | CmdSetTunable
| CmdEnergyScan | CmdNetworkScan | CmdPacketCapture | CmdPacketCaptureChannel.

Definition request_code (c : RequestCommand) : Z :=
  match c with
  | CmdReset => 0x00 | CmdGetFirmwareInfo => 0x01 | CmdGetHwAddress => 0x02 | CmdShutdown => 0x03
  | CmdConfigure => 0x10 | CmdLoadKeyTable => 0x11 | CmdLoadChildren => 0x12 | CmdLoadAddressCache => 0x13
  | CmdLoadRouteTable => 0x14 | CmdLoadSourceRoutes => 0x15 | CmdStartNetwork => 0x16
  | CmdGetNetworkInfo => 0x20 | CmdScanKeyTable => 0x21 | CmdScanChildren => 0x22 | CmdScanAddressCache => 0x23 | CmdScanRouteTable => 0x24
  | CmdSendUnicast => 0x30 | CmdSendBroadcast => 0x31 | CmdSendGroupcast => 0x32 | CmdCancelRequest => 0x33 | CmdPermitJoins => 0x34
  | CmdSetChannel => 0x35 | CmdSetNwkUpdateId => 0x36 | CmdSetProvisionalKey => 0x37 | CmdSetTunable => 0x38
  | CmdEnergyScan => 0x40 | CmdNetworkScan => 0x41 | CmdPacketCapture => 0x42 | CmdPacketCaptureChannel => 0x43
  end.

Definition all_requests : list RequestCommand :=
  [CmdReset; CmdGetFirmwareInfo; CmdGetHwAddress; CmdShutdown; CmdConfigure; CmdLoadKeyTable; CmdLoadChildren; CmdLoadAddressCache;
   CmdLoadRouteTable; CmdLoadSourceRoutes; CmdStartNetwork; CmdGetNetworkInfo; CmdScanKeyTable; CmdScanChildren; CmdScanAddressCache;
   CmdScanRouteTable; CmdSendUnicast; CmdSendBroadcast; CmdSendGroupcast; CmdCancelRequest; CmdPermitJoins; CmdSetChannel;
   CmdSetNwkUpdateId; CmdSetProvisionalKey; CmdSetTunable; CmdEnergyScan; CmdNetworkScan; CmdPacketCapture; CmdPacketCaptureChannel].

(** [RequestCommand::try_from]. *)
Definition request_of (z : Z) : option RequestCommand := find (fun c => request_code c =? z) all_requests.

Inductive NotificationCommand : Type :=
| NoteHello | NoteLastReset | NoteReceivedAps | NoteSendConfirm | NoteApsAckConfirm | NoteBroadcastConfirm | NoteReceivedGpdf
| NoteDeviceJoined | NoteDeviceLeft | NoteFrameCounter | NoteApsFrameCounter | NoteLinkKey | NoteApsDecryptFailure | NoteRouteRecord.

Definition notification_code (c : NotificationCommand) : Z :=
  match c with
  | NoteHello => 0x00 | NoteLastReset => 0x01 | NoteReceivedAps => 0x10 | NoteSendConfirm => 0x11 | NoteApsAckConfirm => 0x12
  | NoteBroadcastConfirm => 0x13 | NoteReceivedGpdf => 0x14 | NoteDeviceJoined => 0x20 | NoteDeviceLeft => 0x21
  | NoteFrameCounter => 0x30 | NoteApsFrameCounter => 0x31 | NoteLinkKey => 0x32 | NoteApsDecryptFailure => 0x33 | NoteRouteRecord => 0x34
  end.

Inductive FrameType : Type := TypeRequest | TypeResponse | TypeEvent | TypeNotification.

Inductive Status : Type :=
| StatusOk | MalformedPayload | UnknownCommand | InvalidRequest
| NotConfigured | StatusNotStarted | AlreadyStarted
| StatusRateLimited | BudgetExhausted | StatusPayloadTooLong | StatusSecurityUnavailable | NoRoute
| StatusRadioError | NetworkStartFailed | ScanFailed | ResponseTooLarge.

Inductive NodeRole : Type := RoleCoordinator | RoleRouter.
Inductive TclkFlavorId : Type := FlavorZStack | FlavorEzsp.
Inductive ChildDeviceType : Type := ChildUnknown | ChildRouter | ChildEndDevice.
Inductive KeyId : Type := KeyData | KeyNetwork | KeyKeyTransport | KeyKeyLoad.
Inductive LeaveReason : Type := LeaveAnnounced | LeaveRouterReported | LeaveKeepaliveTimeout.
Inductive RouteControl : Type := RouteStackDecides | RouteHintNextHop | RouteForceNextHop | RouteHintSourceRoute | RouteForceSourceRoute.

Inductive SendStatus : Type :=
| Success | RouteDiscoveryTimeout | RouteDiscoveryNoEntry | RouteInactiveAfterDiscovery | SendNwkNoAck | SendCcaFailure
| SendTransmitFailed | SendApsAckTimeout | SendBroadcastQuorumNotReached | SendIndirectExpired | FrameBudgetExhausted
| SendCancelled | SendRadioError | SendHandoffTimeout.

#[export] Instance RequestCommand_eq_dec : EqDecision RequestCommand.
Proof. solve_decision. Defined.
#[export] Instance FrameType_eq_dec : EqDecision FrameType.
Proof. solve_decision. Defined.
#[export] Instance Status_eq_dec : EqDecision Status.
Proof. solve_decision. Defined.
#[export] Instance SendStatus_eq_dec : EqDecision SendStatus.
Proof. solve_decision. Defined.

Record Header := mkHeader { command : Z; frame_type : FrameType; request_id : RequestId }.

(** ** Payloads *)
Record ResetPayload := mkReset { hard : bool }.
Record FirmwareInfoPayload := mkFirmwareInfo { fi_protocol_version : Z; version : bytes }.
Record HwAddressPayload := mkHwAddress { hw_ieee : Eui64 }.

Record NetworkState := mkNetworkState {
  ns_channel : Z;
  ns_nwk_update_id : Z;
  ns_pan_id : PanId;
  ns_extended_pan_id : Eui64;
  ns_nwk_address : Nwk;
  ns_ieee_address : Eui64;
  ns_network_key : Key;
  ns_network_key_seq : Z;
  ns_network_key_tx_counter : Z;
  ns_tc_link_key : Key;
  ns_has_tclk_seed : bool;
  ns_tclk_seed : Key;
  ns_tclk_flavor : TclkFlavorId;
  ns_tx_power : Z;
  ns_aps_frame_counter : Z
}.
Record ConfigurePayload := mkConfigure { cf_role : NodeRole; cf_source_routing : bool; cf_state : NetworkState }.

Record KeyEntry := mkKeyEntry { ke_key : Key; ke_tx_counter : Z; ke_rx_counter : Z; ke_seq : Z; ke_partner_ieee : Eui64 }.
Record LoadKeyTablePayload := mkLoadKeyTable { kt_entries : list KeyEntry }.
Record ChildFlags := mkChildFlags { fl_rx_on_when_idle : bool; fl_device_type : ChildDeviceType }.
Record ChildEntry := mkChildEntry { ch_ieee : Eui64; ch_nwk : Nwk; ch_flags : ChildFlags }.
Record LoadChildrenPayload := mkLoadChildren { lc_entries : list ChildEntry }.
Record AddressEntry := mkAddressEntry { ad_ieee : Eui64; ad_nwk : Nwk }.
Record LoadAddressCachePayload := mkLoadAddressCache { ac_entries : list AddressEntry }.
Record RouteEntry := mkRouteEntry { re_destination : Nwk; re_next_hop : Nwk; re_path_cost : Z }.
Record LoadRouteTablePayload := mkLoadRouteTable { rt_entries : list RouteEntry }.
Record SourceRouteEntry := mkSourceRouteEntry { sr_destination : Nwk; sr_relays : list Nwk }.
Record LoadSourceRoutesPayload := mkLoadSourceRoutes { lr_entries : list SourceRouteEntry }.
Record NetworkInfoPayload := mkNetworkInfo { ni_state : NetworkState; ni_key_count : Z; ni_started : bool }.
Record ScanCountPayload := mkScanCount { sc_count : Z }.

Record SendUnicastFlags := mkSendUnicastFlags {
  has_eui64 : bool;
  aps_ack : bool;
  aps_encryption : bool;
  sleepy_destination : bool;
  force_aps_seq : bool
}.
Record SourceRouteRelays := mkSourceRouteRelays { relays : list Nwk }.
Record SendUnicastPayload := mkSendUnicast {
  su_flags : SendUnicastFlags;
  su_destination : Nwk;
  su_destination_eui64 : Eui64;
  su_profile_id : Z;
  su_cluster_id : Z;
  su_src_ep : Z;
  su_dst_ep : Z;
  su_aps_seq : Z;
  su_radius : Z;
  su_priority : Z;
  su_route : RouteControl;
  su_next_hop : option Nwk;
  su_relays : option SourceRouteRelays;
  su_asdu : bytes
}.
Record SendUnicastResultPayload := mkSendUnicastResult { sent_aps_seq : Z }.
Record SendBroadcastPayload := mkSendBroadcast {
  sb_flags : Z;
  sb_destination : Nwk;
  sb_profile_id : Z;
  sb_cluster_id : Z;
  sb_src_ep : Z;
  sb_dst_ep : Z;
  sb_aps_seq : Z;
  sb_radius : Z;
  sb_priority : Z;
  sb_asdu : bytes
}.
Record SendGroupcastPayload := mkSendGroupcast {
  sg_flags : Z;
  sg_group_id : Z;
  sg_profile_id : Z;
  sg_cluster_id : Z;
  sg_src_ep : Z;
  sg_aps_seq : Z;
  sg_radius : Z;
  sg_priority : Z;
  sg_asdu : bytes
}.
Record CancelRequestPayload := mkCancelRequest { cr_request_id : RequestId }.
Record CancelResultPayload := mkCancelResult { cancelled : bool }.
Record PermitJoinsPayload := mkPermitJoins { pj_duration : Z; accept_direct_joins : bool }.
Record ChannelPayload := mkChannel { cp_channel : Z }.
Record NwkUpdateIdPayload := mkNwkUpdateId { up_nwk_update_id : Z }.
Record ProvisionalKeyPayload := mkProvisionalKey { pk_ieee : Eui64; pk_key : Key }.
Record SetTunablePayload := mkSetTunable { st_name : bytes; st_value : Z }.
Record ScanRequestPayload := mkScanRequest { channels : list Z; duration_per_channel_ms : Z }.
Record EnergyResultPayload := mkEnergyResult { er_channel : Z; er_rssi : Z }.
Record BeaconPayload := mkBeacon {
  bp_channel : Z;
  bp_source : Nwk;
  bp_pan_id : PanId;
  bp_extended_pan_id : Eui64;
  bp_permit_joining : bool;
  bp_router_capacity : bool;
  bp_end_device_capacity : bool;
  bp_stack_profile : Z;
  bp_protocol_version : Z;
  bp_device_depth : Z;
  bp_update_id : Z;
  bp_lqi : Z;
  bp_rssi : Z
}.
Record CapturedPacketPayload := mkCapturedPacket { cap_channel : Z; cap_rssi : Z; cap_lqi : Z; cap_psdu : bytes }.
Record RateLimitedPayload := mkRateLimited { rl_status : Status; rl_retry_in_ms : Z }.
Record HelloPayload := mkHello { he_protocol_version : Z; he_configured : bool }.
Record LastResetPayload := mkLastReset { message : bytes }.
Record ReceivedApsPayload := mkReceivedAps {
  ra_source : Nwk;
  ra_destination : Nwk;
  ra_has_group : bool;
  ra_aps_encrypted : bool;
  ra_group : Z;
  ra_profile_id : Z;
  ra_cluster_id : Z;
  ra_src_ep : Z;
  ra_dst_ep : Z;
  ra_lqi : Z;
  ra_rssi : Z;
  ra_data : bytes
}.
Record ReceivedGpdfPayload := mkReceivedGpdf {
  gp_mac_sequence_number : Z;
  gp_has_source_ieee : bool;
  gp_source_ieee : Eui64;
  gp_lqi : Z;
  gp_rssi : Z;
  gp_data : bytes
}.
Record SendConfirmPayload := mkSendConfirm { sc_status : SendStatus }.
Record ApsAckConfirmPayload := mkApsAckConfirm { aa_status : SendStatus }.
Record BroadcastConfirmPayload := mkBroadcastConfirm { bc_status : SendStatus }.
Record DeviceJoinedPayload := mkDeviceJoined { dj_nwk : Nwk; dj_ieee : Eui64; dj_parent : Nwk; dj_flags : ChildFlags }.
Record DeviceLeftPayload := mkDeviceLeft {
  dl_nwk : Nwk;
  dl_has_ieee : bool;
  dl_rejoin : bool;
  dl_has_router_ieee : bool;
  dl_ieee : Eui64;
  dl_reason : LeaveReason;
  dl_router : Nwk;
  dl_router_ieee : Eui64
}.
Record FrameCounterPayload := mkFrameCounter { fc_frame_counter : Z }.
Record LinkKeyPayload := mkLinkKey { lk_ieee : Eui64; lk_key : Key }.
Record RouteRecordPayload := mkRouteRecord { rr_destination : Nwk; rr_relays : list Nwk }.
Record ApsFrameCounterPayload := mkApsFrameCounter { af_frame_counter : Z }.
Record ApsDecryptFailPayload := mkApsDecryptFail { df_source : Nwk; df_source_ieee : Eui64; df_frame_counter : Z; df_key_id : KeyId }.

(** ** Frames *)
Inductive Request : Type :=
| Reset (p : ResetPayload)
| GetFirmwareInfo
| GetHwAddress
| Shutdown
| Configure (p : ConfigurePayload)
| LoadKeyTable (p : LoadKeyTablePayload)
| LoadChildren (p : LoadChildrenPayload)
| LoadAddressCache (p : LoadAddressCachePayload)
| LoadRouteTable (p : LoadRouteTablePayload)
| LoadSourceRoutes (p : LoadSourceRoutesPayload)
| StartNetwork
| GetNetworkInfo
| ScanKeyTable
| ScanChildren
| ScanAddressCache
| ScanRouteTable
| SendUnicast (p : SendUnicastPayload)
| SendBroadcast (p : SendBroadcastPayload)
| SendGroupcast (p : SendGroupcastPayload)
| PermitJoins (p : PermitJoinsPayload)
| SetChannel (p : ChannelPayload)
| SetNwkUpdateId (p : NwkUpdateIdPayload)
| SetProvisionalKey (p : ProvisionalKeyPayload)
| EnergyScan (p : ScanRequestPayload)
| NetworkScan (p : ScanRequestPayload)
| PacketCapture (p : ChannelPayload)
| PacketCaptureChannel (p : ChannelPayload)
| SetTunable (p : SetTunablePayload)
| CancelRequest (p : CancelRequestPayload).

Inductive Response : Type :=
| Empty
| FirmwareInfo (p : FirmwareInfoPayload)
| HwAddress (p : HwAddressPayload)
| NetworkInfo (p : NetworkInfoPayload)
| ScanCount (p : ScanCountPayload)
| CancelResult (p : CancelResultPayload)
| SendUnicastResult (p : SendUnicastResultPayload).

Inductive Error : Type :=
| ErrorStatus (status : Status)
| RateLimited (retry_in : Duration).

Inductive Event : Type :=
| EventKeyEntry (p : KeyEntry)
| EventChild (p : ChildEntry)
| EventAddress (p : AddressEntry)
| EventRoute (p : RouteEntry)
| EventEnergyResult (p : EnergyResultPayload)
| EventBeacon (p : BeaconPayload)
| EventCapturedPacket (p : CapturedPacketPayload).

Inductive Notification : Type :=
| Hello (p : HelloPayload)
| LastReset (p : LastResetPayload)
| ReceivedAps (p : ReceivedApsPayload)
| SendConfirm (id : RequestId) (p : SendConfirmPayload)
| ApsAckConfirm (id : RequestId) (p : ApsAckConfirmPayload)
| BroadcastConfirm (id : RequestId) (p : BroadcastConfirmPayload)
| ReceivedGpdf (p : ReceivedGpdfPayload)
| DeviceJoined (p : DeviceJoinedPayload)
| DeviceLeft (p : DeviceLeftPayload)
| FrameCounter (p : FrameCounterPayload)
| LinkKey (p : LinkKeyPayload)
| ApsDecryptFailure (p : ApsDecryptFailPayload)
| RouteRecord (p : RouteRecordPayload)
| ApsFrameCounter (p : ApsFrameCounterPayload).

(** The layouts, of [abstract-bits]. *)
Class WireCodecs := {
  header_bits :: AbstractBits Header;
  status_bits :: AbstractBits Status;
  reset_bits :: AbstractBits ResetPayload;
  configure_bits :: AbstractBits ConfigurePayload;
  key_table_bits :: AbstractBits LoadKeyTablePayload;
  children_bits :: AbstractBits LoadChildrenPayload;
  address_cache_bits :: AbstractBits LoadAddressCachePayload;
  route_table_bits :: AbstractBits LoadRouteTablePayload;
  source_routes_bits :: AbstractBits LoadSourceRoutesPayload;
  send_unicast_bits :: AbstractBits SendUnicastPayload;
  send_broadcast_bits :: AbstractBits SendBroadcastPayload;
  send_groupcast_bits :: AbstractBits SendGroupcastPayload;
  permit_joins_bits :: AbstractBits PermitJoinsPayload;
  channel_bits :: AbstractBits ChannelPayload;
  update_id_bits :: AbstractBits NwkUpdateIdPayload;
  provisional_key_bits :: AbstractBits ProvisionalKeyPayload;
  scan_request_bits :: AbstractBits ScanRequestPayload;
  set_tunable_bits :: AbstractBits SetTunablePayload;
  cancel_request_bits :: AbstractBits CancelRequestPayload;
  firmware_info_bits :: AbstractBits FirmwareInfoPayload;
  hw_address_bits :: AbstractBits HwAddressPayload;
  network_info_bits :: AbstractBits NetworkInfoPayload;
  scan_count_bits :: AbstractBits ScanCountPayload;
  cancel_result_bits :: AbstractBits CancelResultPayload;
  send_result_bits :: AbstractBits SendUnicastResultPayload;
  rate_limited_bits :: AbstractBits RateLimitedPayload;
  key_entry_bits :: AbstractBits KeyEntry;
  child_entry_bits :: AbstractBits ChildEntry;
  address_entry_bits :: AbstractBits AddressEntry;
  route_entry_bits :: AbstractBits RouteEntry;
  energy_result_bits :: AbstractBits EnergyResultPayload;
  beacon_bits :: AbstractBits BeaconPayload;
  captured_bits :: AbstractBits CapturedPacketPayload;
  hello_bits :: AbstractBits HelloPayload;
  last_reset_bits :: AbstractBits LastResetPayload;
  received_aps_bits :: AbstractBits ReceivedApsPayload;
  send_confirm_bits :: AbstractBits SendConfirmPayload;
  aps_ack_confirm_bits :: AbstractBits ApsAckConfirmPayload;
  broadcast_confirm_bits :: AbstractBits BroadcastConfirmPayload;
  received_gpdf_bits :: AbstractBits ReceivedGpdfPayload;
  device_joined_bits :: AbstractBits DeviceJoinedPayload;
  device_left_bits :: AbstractBits DeviceLeftPayload;
  frame_counter_bits :: AbstractBits FrameCounterPayload;
  link_key_bits :: AbstractBits LinkKeyPayload;
  decrypt_fail_bits :: AbstractBits ApsDecryptFailPayload;
  route_record_bits :: AbstractBits RouteRecordPayload;
  aps_frame_counter_bits :: AbstractBits ApsFrameCounterPayload
}.

(** *** Assembly *)
(** [append]: what did not fit, or cannot be written, appends nothing. *)
Definition append `{AbstractBits T} (bs : bytes) (value : T) : bool * bytes :=
  match write_abstract_bits value with
  | Some w => if (length w <=? MAX_FRAME)%nat then (true, bs ++ w) else (false, bs)
  | None => (false, bs)
  end.

(** [parse]: trailing bytes are ignored. *)
Definition parse `{AbstractBits T} (payload : bytes) : option T := fst <$> read_abstract_bits payload.
Definition require `{AbstractBits T} (payload : bytes) : T + Error :=
  match parse payload with Some v => inl v | None => inr (ErrorStatus MalformedPayload) end.

Section Frames.
Context `{!WireCodecs}.

(** The header, and where the payload starts. *)
Definition header_parse (bs : bytes) : option (Header * nat) := read_abstract_bits bs.

Definition envelope (ty : FrameType) (command : Z) (id : RequestId) : bytes := (append [] (mkHeader command ty id)).2.

Definition required `{AbstractBits T} (mk : T -> Request) (payload : bytes) : Request + Error :=
  match require payload with inl v => inl (mk v) | inr e => inr e end.

Definition request_parse (command : RequestCommand) (payload : bytes) : Request + Error :=
  match command with
  | CmdReset => required Reset payload
  | CmdGetFirmwareInfo => inl GetFirmwareInfo
  | CmdGetHwAddress => inl GetHwAddress
  | CmdShutdown => inl Shutdown
  | CmdConfigure => required Configure payload
  | CmdLoadKeyTable => required LoadKeyTable payload
  | CmdLoadChildren => required LoadChildren payload
  | CmdLoadAddressCache => required LoadAddressCache payload
  | CmdLoadRouteTable => required LoadRouteTable payload
  | CmdLoadSourceRoutes => required LoadSourceRoutes payload
  | CmdStartNetwork => inl StartNetwork
  | CmdGetNetworkInfo => inl GetNetworkInfo
  | CmdScanKeyTable => inl ScanKeyTable
  | CmdScanChildren => inl ScanChildren
  | CmdScanAddressCache => inl ScanAddressCache
  | CmdScanRouteTable => inl ScanRouteTable
  | CmdSendUnicast => required SendUnicast payload
  | CmdSendBroadcast => required SendBroadcast payload
  | CmdSendGroupcast => required SendGroupcast payload
  | CmdPermitJoins => required PermitJoins payload
  | CmdSetChannel => required SetChannel payload
  | CmdSetNwkUpdateId => required SetNwkUpdateId payload
  | CmdSetProvisionalKey => required SetProvisionalKey payload
  | CmdEnergyScan => required EnergyScan payload
  | CmdNetworkScan => required NetworkScan payload
  | CmdPacketCapture => required PacketCapture payload
  | CmdPacketCaptureChannel => required PacketCaptureChannel payload
  | CmdSetTunable => required SetTunable payload
  | CmdCancelRequest => required CancelRequest payload
  end.

(** [Error::frame]; [as_millis() as u32] truncates. *)
Definition error_frame (e : Error) (command : Z) (id : RequestId) : bytes :=
  let bs := envelope TypeResponse command id in
  match e with
  | ErrorStatus status => (append bs status).2
  | RateLimited retry_in => (append bs (mkRateLimited StatusRateLimited (retry_in / 1000 mod 2 ^ 32))).2
  end.

(** The payload of a response. *)
Definition append_response (bs : bytes) (r : Response) : bool * bytes :=
  match r with
  | Empty => (true, bs)
  | FirmwareInfo p => append bs p
  | HwAddress p => append bs p
  | NetworkInfo p => append bs p
  | ScanCount p => append bs p
  | CancelResult p => append bs p
  | SendUnicastResult p => append bs p
  end.

Definition response_frame (r : Response) (command : Z) (id : RequestId) : bytes :=
  let '(_, bs) := append (envelope TypeResponse command id) StatusOk in
  let '(fits, bs) := append_response bs r in
  if fits : bool then bs else error_frame (ErrorStatus ResponseTooLarge) command id.

Definition event_command (ev : Event) : RequestCommand :=
  match ev with
  | EventKeyEntry _ => CmdScanKeyTable
  | EventChild _ => CmdScanChildren
  | EventAddress _ => CmdScanAddressCache
  | EventRoute _ => CmdScanRouteTable
  | EventEnergyResult _ => CmdEnergyScan
  | EventBeacon _ => CmdNetworkScan
  | EventCapturedPacket _ => CmdPacketCapture
  end.

Definition append_event (bs : bytes) (ev : Event) : bool * bytes :=
  match ev with
  | EventKeyEntry p => append bs p
  | EventChild p => append bs p
  | EventAddress p => append bs p
  | EventRoute p => append bs p
  | EventEnergyResult p => append bs p
  | EventBeacon p => append bs p
  | EventCapturedPacket p => append bs p
  end.

Definition then_some (r : bool * bytes) : option bytes := if r.1 then Some r.2 else None.

Definition event_frame (ev : Event) (id : RequestId) : option bytes :=
  then_some (append_event (envelope TypeEvent (request_code (event_command ev)) id) ev).

Definition notification_command (n : Notification) : NotificationCommand * RequestId :=
  match n with
  | Hello _ => (NoteHello, 0)
  | LastReset _ => (NoteLastReset, 0)
  | ReceivedAps _ => (NoteReceivedAps, 0)
  | SendConfirm id _ => (NoteSendConfirm, id)
  | ApsAckConfirm id _ => (NoteApsAckConfirm, id)
  | BroadcastConfirm id _ => (NoteBroadcastConfirm, id)
  | ReceivedGpdf _ => (NoteReceivedGpdf, 0)
  | DeviceJoined _ => (NoteDeviceJoined, 0)
  | DeviceLeft _ => (NoteDeviceLeft, 0)
  | FrameCounter _ => (NoteFrameCounter, 0)
  | LinkKey _ => (NoteLinkKey, 0)
  | ApsDecryptFailure _ => (NoteApsDecryptFailure, 0)
  | RouteRecord _ => (NoteRouteRecord, 0)
  | ApsFrameCounter _ => (NoteApsFrameCounter, 0)
  end.

Definition append_notification (bs : bytes) (n : Notification) : bool * bytes :=
  match n with
  | Hello p => append bs p
  | LastReset p => append bs p
  | ReceivedAps p => append bs p
  | SendConfirm _ p => append bs p
  | ApsAckConfirm _ p => append bs p
  | BroadcastConfirm _ p => append bs p
  | ReceivedGpdf p => append bs p
  | DeviceJoined p => append bs p
  | DeviceLeft p => append bs p
  | FrameCounter p => append bs p
  | LinkKey p => append bs p
  | ApsDecryptFailure p => append bs p
  | RouteRecord p => append bs p
  | ApsFrameCounter p => append bs p
  end.

Definition frame (n : Notification) : option bytes :=
  let '(command, id) := notification_command n in
  then_some (append_notification (envelope TypeNotification (notification_code command) id) n).
End Frames.
End Wire.
