(* ===== verification/SendTracker.v ===== *)
(** * The send tracker: [src/crates/ziggurat-protocol/src/send_tracker.rs]

    The host knows its sends by request id. [SendTracker] keeps their handles, and a sweep turns the
    verdicts that are there into the confirm frames each send owes. The wake the tracker shares with
    the handles only schedules sweeps and is left out. *)

From S2P Require Import Prelude Flat Types SendTypes Stack StackSend Wire.

Module SendTracker.
Import Stack StackSend.

(** [send_status] of [bridge.rs]. *)
Definition send_status (result : verdict DeliveryError) : Wire.SendStatus :=
  match result with
  | inl _ => Wire.Success
  | inr err =>
      match err with
      | RouteDiscoveryTimeoutError => Wire.RouteDiscoveryTimeout
      | RouteInactiveAfterDiscovery => Wire.RouteInactiveAfterDiscovery
      | NwkNoAck _ => Wire.SendNwkNoAck
      | CcaFailure => Wire.SendCcaFailure
      | TransmitFailed _ => Wire.SendTransmitFailed
      | ApsAckTimeoutError => Wire.SendApsAckTimeout
      | HandoffTimeoutError => Wire.SendHandoffTimeout
      | BroadcastQuorumNotReachedError => Wire.SendBroadcastQuorumNotReached
      | IndirectExpiredError _ => Wire.SendIndirectExpired
      | CancelledError => Wire.SendCancelled
      | Radio _ => Wire.SendRadioError
      end
  end.

Inductive ConfirmKind : Type := UnicastNoAck | UnicastApsAck | BroadcastQuorum.
#[export] Instance ConfirmKind_eq_dec : EqDecision ConfirmKind.
Proof. solve_decision. Defined.

Record TrackedSend := mkTracked {
  handle : Handle;
  confirm_kind : ConfirmKind;
  emitted_send_confirm : bool
}.

Definition t : Type := FlatMap.t Z TrackedSend.
Definition new : t := FlatMap.new.

Definition insert (tr : t) (id : Z) (h : Handle) (kind : ConfirmKind) : t := (FlatMap.insert tr id (mkTracked h kind false)).2.

Definition send_id (tr : t) (id : Z) : option SendId := (fun entry => (handle entry).1) <$> FlatMap.get tr id.

(** The body of the loop: the frames an entry emits, the entry afterwards, and whether it is done.
    [status] is [SendHandle::status]. *)
Section Sweep.
Context (status : Handle -> Progress).

Definition confirm_delivered (id : Z) (entry : TrackedSend) (confirm : Wire.SendStatus -> Wire.Notification) : list Wire.Notification * TrackedSend * bool :=
  match delivered (status (handle entry)) with
  | Some result => ([confirm (send_status result)], entry, true)
  | None => ([], entry, false)
  end.

Definition ack_confirm (id : Z) (entry : TrackedSend) : list Wire.Notification * TrackedSend * bool :=
  if emitted_send_confirm entry
  then confirm_delivered id entry (fun s => Wire.ApsAckConfirm id (Wire.mkApsAckConfirm s))
  else ([], entry, false).

Definition sweep_entry (id : Z) (entry : TrackedSend) : list Wire.Notification * TrackedSend * bool :=
  match confirm_kind entry with
  | UnicastNoAck => confirm_delivered id entry (fun s => Wire.SendConfirm id (Wire.mkSendConfirm s))
  | BroadcastQuorum => confirm_delivered id entry (fun s => Wire.BroadcastConfirm id (Wire.mkBroadcastConfirm s))
  | UnicastApsAck =>
      match emitted_send_confirm entry, handed_off (status (handle entry)) with
      | false, Some result =>
          let confirm := Wire.SendConfirm id (Wire.mkSendConfirm (send_status result)) in
          let entry := mkTracked (handle entry) (confirm_kind entry) true in
          match result with
          | inr _ => ([confirm], entry, true)
          | inl _ => let '(frames, entry, is_done) := ack_confirm id entry in (confirm :: frames, entry, is_done)
          end
      | _, _ => ack_confirm id entry
      end
  end.

Definition frames_of (e : Z * TrackedSend) : list Wire.Notification := (sweep_entry e.1 e.2).1.1.
Definition entry_after (id : Z) (entry : TrackedSend) : TrackedSend := (sweep_entry id entry).1.2.
Definition is_done (e : Z * TrackedSend) : bool := (sweep_entry e.1 e.2).2.

Definition sweep (tr : t) : list Wire.Notification * t :=
  let out := concat (map frames_of (FlatMap.entries tr)) in
  let done_ids := (filter (fun e => is_done e = true) (FlatMap.entries tr)).*1 in
  (out, fold_left (fun tr id => (FlatMap.remove tr id).2) done_ids (FlatMap.iter_mut entry_after tr)).
End Sweep.

(** ** What a send is confirmed with *)

(** The confirms that are due, given the verdicts. *)
Definition due (id : Z) (kind : ConfirmKind) (p : Progress) : list Wire.Notification :=
  match kind with
  | UnicastNoAck => match delivered p with Some r => [Wire.SendConfirm id (Wire.mkSendConfirm (send_status r))] | None => [] end
  | BroadcastQuorum => match delivered p with Some r => [Wire.BroadcastConfirm id (Wire.mkBroadcastConfirm (send_status r))] | None => [] end
  | UnicastApsAck =>
      match handed_off p with
      | None => []
      | Some r =>
          Wire.SendConfirm id (Wire.mkSendConfirm (send_status r)) ::
          match r, delivered p with
          | inl _, Some r => [Wire.ApsAckConfirm id (Wire.mkApsAckConfirm (send_status r))]
          | _, _ => []
          end
      end
  end.

(** No confirm is owed any more. *)
Definition complete (kind : ConfirmKind) (p : Progress) : bool :=
  match kind, handed_off p, delivered p with
  | UnicastApsAck, Some (inr _), _ => true
  | _, _, Some _ => true
  | _, _, None => false
  end.

(** The verdicts of a slot: each is written once, and the final one settles the first. *)
Record progress_le (p q : Progress) : Prop := mkProgressLe {
  pl_handed_off v : handed_off p = Some v -> handed_off q = Some v;
  pl_delivered v : delivered p = Some v -> delivered q = Some v
}.
Definition settled_whole (p : Progress) : Prop := is_Some (delivered p) -> is_Some (handed_off p).

Definition confirmed_id (n : Wire.Notification) : option Z :=
  match n with Wire.SendConfirm id _ | Wire.ApsAckConfirm id _ | Wire.BroadcastConfirm id _ => Some id | _ => None end.
Definition confirms_of (id : Z) (l : list Wire.Notification) : list Wire.Notification := filter (fun n => confirmed_id n = Some id) l.

(** The entry of a send that was confirmed up to [p]. *)
Definition entry_at (h : Handle) (kind : ConfirmKind) (p : Progress) : option TrackedSend :=
  if complete kind p then None
  else Some (mkTracked h kind (match kind, handed_off p with UnicastApsAck, Some _ => true | _, _ => false end)).

(** ** One entry *)
Section Entry.
Context (status : Handle -> Progress).

Lemma frames_confirm id entry : Forall (fun n => confirmed_id n = Some id) (frames_of status (id, entry)).
Proof.
  unfold frames_of, sweep_entry, ack_confirm, confirm_delivered. cbn [fst snd].
  repeat (case_match; simplify_eq/=; repeat constructor).
Qed.

Lemma sweep_entry_spec id h kind p entry :
  progress_le p (status h) -> settled_whole (status h) -> settled_whole p -> entry_at h kind p = Some entry ->
  due id kind (status h) = due id kind p ++ frames_of status (id, entry) /\
  entry_at h kind (status h) = if is_done status (id, entry) then None else Some (entry_after status id entry).
Proof.
  intros [Hh Hd] Hq Hp. unfold entry_at at 1. destruct (complete kind p) eqn:Hc; [done|]. intros [= <-].
  unfold entry_at, frames_of, is_done, entry_after, sweep_entry, ack_confirm, confirm_delivered, settled_whole in *.
  cbn [fst snd handle confirm_kind emitted_send_confirm]. generalize dependent (status h). intros [qh qd] Hh Hd Hq.
  destruct p as [ph pd]. cbn [handed_off delivered] in *.
  destruct kind, ph as [[[]|?]|], pd as [[[]|?]|]; cbn in Hc; try discriminate Hc;
    try (specialize (Hh _ eq_refl)); try (specialize (Hd _ eq_refl)); subst;
    repeat match goal with |- context [handed_off] => progress cbn | |- context [complete _ (mkProgress ?x ?y)] => first [is_var x; destruct x as [[[]|?]|]|is_var y; destruct y as [[[]|?]|]|progress cbn] end;
    cbn; try done; try (exfalso; destruct Hq as [? ?]; [by eexists|done]).
Qed.

(** Nothing changes for a send that was confirmed in full. *)
Lemma complete_stays id h kind p q :
  progress_le p q -> settled_whole q -> settled_whole p -> entry_at h kind p = None ->
  due id kind q = due id kind p /\ entry_at h kind p = entry_at h kind q.
Proof.
  intros [Hh Hd] Hq Hp. unfold entry_at. destruct (complete kind p) eqn:Hc; [|done]. intros _.
  destruct p as [ph pd], q as [qh qd]. unfold settled_whole in *. cbn [handed_off delivered] in *.
  destruct kind, ph as [[[]|?]|], pd as [[[]|?]|]; cbn in Hc; try discriminate Hc;
    try (specialize (Hh _ eq_refl)); try (specialize (Hd _ eq_refl)); subst; cbn; try done;
    try (exfalso; destruct Hp as [? ?]; [by eexists|done]).
Qed.
End Entry.
(** ** The table *)
Section Table.
Context (status : Handle -> Progress).

Lemma confirms_of_app id l l' : confirms_of id (l ++ l') = confirms_of id l ++ confirms_of id l'.
Proof. apply filter_app. Qed.

Lemma confirms_of_frames id id' entry :
  confirms_of id (frames_of status (id', entry)) = if bool_decide (id' = id) then frames_of status (id', entry) else [].
Proof.
  pose proof (frames_confirm status id' entry) as Hf. unfold confirms_of. induction Hf as [|n l Hn _ IH]; [by destruct (bool_decide _)|].
  rewrite filter_cons, Hn, IH. case_bool_decide as Hid; [subst; by rewrite decide_True|]. rewrite decide_False by congruence. done.
Qed.

(** Only the entry of a send emits its confirms. *)
Lemma sweep_frames id tr :
  confirms_of id (sweep status tr).1 = match FlatMap.get tr id with Some entry => frames_of status (id, entry) | None => [] end.
Proof.
  cbn [fst sweep].
  assert (forall l : list (Z * TrackedSend), NoDup l.*1 ->
    confirms_of id (concat (map (frames_of status) l)) =
    match list_find (fun e => e.1 = id) l with Some (_, e) => frames_of status e | None => [] end) as Hl.
  { induction l as [|[id' entry] l IH]; [done|]. cbn [fmap list_fmap map concat fst]. intros [Hn Hd]%NoDup_cons.
    rewrite confirms_of_app, confirms_of_frames, IH by done. cbn [list_find fst].
    destruct (decide (id' = id)) as [->|Hne].
    - rewrite bool_decide_true by done. destruct (list_find _ l) as [[i e]|] eqn:Hf; [|by rewrite app_nil_r].
      apply list_find_Some in Hf as (Hi & He & _). exfalso. apply Hn. rewrite <- He. apply list_elem_of_fmap_2. by eapply list_elem_of_lookup_2.
    - rewrite bool_decide_false by done. by destruct (list_find _ l) as [[i e]|]. }
  rewrite Hl by apply FlatMap.NoDup_keys. destruct (list_find _ _) as [[i [id' entry]]|] eqn:Hf.
  - apply list_find_Some in Hf as (Hi & He & _). cbn in He. subst id'. apply list_elem_of_lookup_2, FlatMap.elem_of_entries in Hi. by rewrite Hi.
  - destruct (FlatMap.get tr id) as [entry|] eqn:Hg; [|done]. apply FlatMap.elem_of_entries in Hg. apply list_find_None in Hf.
    rewrite Forall_forall in Hf. by destruct (Hf _ Hg).
Qed.

Lemma get_remove_each ids (tr : t) id :
  FlatMap.get (fold_left (fun tr id => (FlatMap.remove tr id).2) ids tr) id = if bool_decide (id ∈ ids) then None else FlatMap.get tr id.
Proof.
  revert tr. induction ids as [|x ids IH]; intros tr; [by rewrite bool_decide_false by apply not_elem_of_nil|]. cbn [fold_left]. rewrite IH.
  destruct (decide (x = id)) as [->|Hne].
  - rewrite FlatMap.get_remove_eq. rewrite (bool_decide_true (id ∈ id :: ids)) by (apply elem_of_cons; by left). by destruct (bool_decide _).
  - rewrite FlatMap.get_remove_ne by done. destruct (decide (id ∈ ids)) as [Hin|Hin].
    + rewrite !bool_decide_true; [done|apply elem_of_cons; by right|done].
    + rewrite !bool_decide_false; [done|by rewrite elem_of_cons; intros [?|?]|done].
Qed.

Lemma sweep_get id tr :
  FlatMap.get (sweep status tr).2 id =
    match FlatMap.get tr id with
    | Some entry => if is_done status (id, entry) then None else Some (entry_after status id entry)
    | None => None
    end.
Proof.
  cbn [snd sweep]. rewrite get_remove_each, FlatMap.get_iter_mut. destruct (FlatMap.get tr id) as [entry|] eqn:Hg; [|by destruct (bool_decide _)].
  cbn [fmap option_fmap option_map]. destruct (is_done status (id, entry)) eqn:Hd.
  - rewrite bool_decide_true; [done|]. apply list_elem_of_fmap. exists (id, entry). split; [done|]. apply list_elem_of_filter.
    split; [done|by apply FlatMap.elem_of_entries].
  - rewrite bool_decide_false; [done|]. intros ([id' entry'] & Hid & [Hd' He]%list_elem_of_filter)%list_elem_of_fmap. cbn in Hid. subst id'.
    apply FlatMap.elem_of_entries in He. congruence.
Qed.
End Table.

(** ** Runs of the tracker *)
Inductive op : Type :=
| Insert (id : Z) (h : Handle) (kind : ConfirmKind)
| Sweep (status : Handle -> Progress).

Definition exec (tr : t) (o : op) : list Wire.Notification * t :=
  match o with
  | Insert id h kind => ([], insert tr id h kind)
  | Sweep status => sweep status tr
  end.

Fixpoint run (tr : t) (ops : list op) : list Wire.Notification * t :=
  match ops with
  | [] => ([], tr)
  | o :: ops => let '(out, tr) := exec tr o in let '(rest, tr) := run tr ops in (out ++ rest, tr)
  end.

(** The verdicts of [h] as the sweeps of a run see them grow from [p] to [q]. *)
Inductive grows (h : Handle) (id : Z) : Progress -> list op -> Progress -> Prop :=
| grows_nil p : grows h id p [] p
| grows_insert p id' h' kind ops q : id' <> id -> grows h id p ops q -> grows h id p (Insert id' h' kind :: ops) q
| grows_sweep p status ops q :
    progress_le p (status h) -> settled_whole (status h) -> grows h id (status h) ops q -> grows h id p (Sweep status :: ops) q.

Lemma run_confirms h id kind p ops q tr :
  grows h id p ops q -> settled_whole p -> FlatMap.get tr id = entry_at h kind p ->
  due id kind q = due id kind p ++ confirms_of id (run tr ops).1 /\ FlatMap.get (run tr ops).2 id = entry_at h kind q.
Proof.
  intros Hg. revert tr. induction Hg as [p|p id' h' kind' ops q Hne _ IH|p status ops q Hle Hw _ IH]; intros tr Hp Htr; cbn [run exec].
  - by rewrite app_nil_r.
  - destruct (IH (insert tr id' h' kind')) as [Hd Hf]; [done| |]; [unfold insert; by rewrite FlatMap.get_insert_ne by done|].
    by destruct (run _ ops).
  - pose proof (sweep_frames status id tr) as Hf. pose proof (sweep_get status id tr) as Hs. rewrite Htr in Hf, Hs.
    assert (due id kind (status h) = due id kind p ++ confirms_of id (sweep status tr).1 /\ FlatMap.get (sweep status tr).2 id = entry_at h kind (status h))
      as [Hd1 Hg1].
    { destruct (entry_at h kind p) as [entry|] eqn:He.
      - destruct (sweep_entry_spec status id h kind p entry Hle Hw Hp He) as [-> ->]. by rewrite Hf.
      - rewrite Hf, app_nil_r, Hs, <- He. by apply complete_stays. }
    destruct (sweep status tr) as [out tr1]. cbn [fst snd] in *. destruct (IH tr1 Hw Hg1) as [Hd2 Hg2]. destruct (run tr1 ops) as [rest tr2].
    cbn [fst snd] in *. by rewrite confirms_of_app, app_assoc, <- Hd1.
Qed.

(** Every tracked send is confirmed exactly once, in order. *)
Lemma tracked_confirms (tr : t) (id : Z) (h : Handle) (kind : ConfirmKind) (ops : list op) (q : Progress) :
  grows h id (mkProgress None None) ops q ->
  confirms_of id (run (insert tr id h kind) ops).1 = due id kind q /\
  FlatMap.get (run (insert tr id h kind) ops).2 id = entry_at h kind q.
Proof.
  intros Hg. destruct (run_confirms h id kind _ ops q (insert tr id h kind) Hg) as [Hd He].
  - by intros [? ?].
  - unfold insert. rewrite FlatMap.get_insert_eq. by destruct kind.
  - by destruct kind; rewrite Hd.
Qed.

(** Two sends, one acked end to end and one refused by the next hop, over three sweeps. *)
Definition ex_first : Handle -> Progress := fun h =>
  if h.1 =? 1 then mkProgress (Some (inl tt)) None else mkProgress (Some (inr CcaFailure)) (Some (inr CcaFailure)).
Definition ex_last : Handle -> Progress := fun h =>
  if h.1 =? 1 then mkProgress (Some (inl tt)) (Some (inl tt)) else ex_first h.
Definition ex_ops : list op := [Insert 8 (2, 1%nat) UnicastApsAck; Sweep ex_first; Sweep ex_first; Sweep ex_last].

Example ex_confirms :
  confirms_of 7 (run (insert new 7 (1, 0%nat) UnicastApsAck) ex_ops).1 =
    [Wire.SendConfirm 7 (Wire.mkSendConfirm Wire.Success); Wire.ApsAckConfirm 7 (Wire.mkApsAckConfirm Wire.Success)] /\
  confirms_of 8 (run (insert new 7 (1, 0%nat) UnicastApsAck) ex_ops).1 = [Wire.SendConfirm 8 (Wire.mkSendConfirm Wire.SendCcaFailure)].
Proof. split; vm_compute; reflexivity. Qed.
End SendTracker.
