(* ===== verification/Bridge.v ===== *)
(** * The bridge between the wire and the stack: [src/crates/ziggurat-protocol/src/bridge.rs]

    What a host's requests do to the stack, and what the stack's state and notifications look like on
    the wire: configuration and backup, the loading of saved tables, the sends. *)

From Stdlib Require Import Ascii String.
From S2P Require Import Prelude Flat Types Constants AbstractBits Neighbors Routing NwkSecurity Addresses.
From S2P Require Import SendTypes Sends NwkFrame NextHop ApsFrame ApsSecurity Crypto Stack StackSend StackNwk StackAps Wire SendTracker.

Module Bridge.
Import Stack StackSend StackAps.

Definition RESTORED_CHILD_TIMEOUT : Duration := 24 * 60 * 60 * 1000000.

(** ** Configuration *)

Definition config_seed (st : Wire.NetworkState) : option ApsSecurity.TclkSeed :=
  if Wire.ns_has_tclk_seed st
  then Some (ApsSecurity.mkSeed (Wire.ns_tclk_seed st)
               match Wire.ns_tclk_flavor st with Wire.FlavorEzsp => ApsSecurity.Ezsp | Wire.FlavorZStack => ApsSecurity.ZStack end)
  else None.

Definition network_config (p : Wire.ConfigurePayload) : NetworkConfig :=
  let st := Wire.cf_state p in
  mkNetworkConfig match Wire.cf_role p with Wire.RoleRouter => Neighbors.Router | Wire.RoleCoordinator => Neighbors.Coordinator end
    (Wire.ns_channel st) (Wire.ns_nwk_update_id st) (Wire.ns_pan_id st) (Wire.ns_extended_pan_id st) (Wire.ns_nwk_address st)
    (Wire.ns_ieee_address st) (Wire.ns_network_key st) (Wire.ns_network_key_seq st) (Wire.ns_network_key_tx_counter st)
    (Wire.ns_tc_link_key st) (config_seed st) (Wire.ns_tx_power st) (Wire.cf_source_routing p).

(** The stack that [handle_configure] makes, with the APS frame counter of the payload restored. *)
Definition configure (p : Wire.ConfigurePayload) (tunables : Tunables) (aps_counter : Z) : t :=
  let s := stack_new (network_config p) tunables aps_counter in
  with_aps_security s (ApsSecurity.restore_outgoing_frame_counter (aps s) (Wire.ns_aps_frame_counter (Wire.cf_state p))).

(** The fields of [NetworkConfig] that are read back and live nowhere else. *)
Record Saved := mkSaved { sv_tc_link_key : Key; sv_tclk_seed : option ApsSecurity.TclkSeed; sv_tx_power : Z }.

Definition network_state (cfg : Config) (saved : Saved) (s : t) : Wire.NetworkState :=
  let security := nwk_security (the_nib s) in
  let '(has_seed, seed, flavor) :=
    match sv_tclk_seed saved with
    | None => (false, mkKey (replicate 16 0), Wire.FlavorZStack)
    | Some x => (true, ApsSecurity.seed x, match ApsSecurity.flavor x with ApsSecurity.ZStack => Wire.FlavorZStack | ApsSecurity.Ezsp => Wire.FlavorEzsp end)
    end in
  Wire.mkNetworkState (channel (mac (core s))) (update_id (the_nib s)) (pan_id (mac (core s))) (extended_pan_id cfg) (network_address cfg)
    (ieee_address cfg) (NwkSecurity.network_key security) (NwkSecurity.key_seq_number security) (NwkSecurity.outgoing_frame_counter security)
    (sv_tc_link_key saved) has_seed seed flavor (sv_tx_power saved) (ApsSecurity.outgoing_frame_counter (aps s)).

Definition network_info_payload (cfg : Config) (saved : Saved) (s : t) (started : bool) : Wire.NetworkInfoPayload :=
  Wire.mkNetworkInfo (network_state cfg saved s) (Z.of_nat (ApsSecurity.device_key_count (aps s)) mod 2 ^ 16) started.

(** ** Reading the tables *)
Definition key_entries (s : t) : list Wire.KeyEntry :=
  map (fun '(partner, entry) =>
         Wire.mkKeyEntry (ApsSecurity.key entry) (ApsSecurity.outgoing_frame_counter (aps s))
           (default 0 (ApsSecurity.incoming_frame_counter (aps s) partner)) 0 partner)
    (ApsSecurity.device_keys (aps s)).

Definition child_entries (s : t) : list Wire.ChildEntry :=
  map (fun entry => Wire.mkChildEntry (Neighbors.extended_address entry) (Neighbors.network_address entry)
         (Wire.mkChildFlags (Neighbors.rx_on_when_idle entry) Wire.ChildEndDevice))
    (filter (fun entry => Neighbors.is_child entry && Neighbors.is_type Neighbors.EndDevice entry = true) (Neighbors.entries (neighbors (the_nib s)))).

Definition address_entries (s : t) : list Wire.AddressEntry :=
  map (fun '(ieee, nwk) => Wire.mkAddressEntry ieee nwk) (AddressMap.entries (address_map (the_nib s))).

Definition route_entries (s : t) : list Wire.RouteEntry :=
  map (fun entry => Wire.mkRouteEntry (Routing.destination entry) (Routing.next_hop_address entry) (Routing.path_cost entry))
    (filter (fun entry => Routing.status entry = Routing.Active) (FlatMap.values (Routing.route_table (routing (the_nib s))))).

(** ** Loading the tables *)
Definition apply_key (a : ApsSecurity.t) (entry : Wire.KeyEntry) : ApsSecurity.t :=
  let a := ApsSecurity.restore_device_key a (Wire.ke_partner_ieee entry) (Wire.ke_key entry) in
  if Wire.ke_rx_counter entry =? 0 then a
  else ApsSecurity.restore_incoming_frame_counter a (Wire.ke_partner_ieee entry) (Wire.ke_rx_counter entry).

Definition apply_key_table (s : t) (p : Wire.LoadKeyTablePayload) : t :=
  with_aps_security s (foldl apply_key (aps s) (Wire.kt_entries p)).

Definition apply_child (at_ : Instant) (s : t) (entry : Wire.ChildEntry) : t :=
  let device_type := match Wire.fl_device_type (Wire.ch_flags entry) with
                     | Wire.ChildRouter => Neighbors.Router
                     | Wire.ChildUnknown | Wire.ChildEndDevice => Neighbors.EndDevice
                     end in
  let s := with_neighbors s (Neighbors.upsert_child (neighbors (the_nib s))
    (Neighbors.mkChild (Wire.ch_ieee entry) (Wire.ch_nwk entry) device_type (Wire.fl_rx_on_when_idle (Wire.ch_flags entry))
       RESTORED_CHILD_TIMEOUT Neighbors.Child) at_) in
  with_address_map s (AddressMap.update_mapping (address_map (the_nib s)) (Wire.ch_ieee entry) (Wire.ch_nwk entry)).2.

Definition apply_children (at_ : Instant) (s : t) (p : Wire.LoadChildrenPayload) : t := foldl (apply_child at_) s (Wire.lc_entries p).

Definition apply_address_cache (s : t) (p : Wire.LoadAddressCachePayload) : t :=
  with_address_map s
    (foldl (fun m entry => (AddressMap.update_mapping m (Wire.ad_ieee entry) (Wire.ad_nwk entry)).2) (address_map (the_nib s)) (Wire.ac_entries p)).

Definition apply_route_table (s : t) (p : Wire.LoadRouteTablePayload) : t :=
  with_routing s
    (foldl (fun r entry => Routing.restore_route r (Wire.re_destination entry) (Wire.re_next_hop entry) (Wire.re_path_cost entry))
       (routing (the_nib s)) (Wire.rt_entries p)).

Definition apply_source_routes (s : t) (p : Wire.LoadSourceRoutesPayload) : t :=
  with_routing s
    (foldl (fun r entry => (Routing.store_route_record r (Wire.sr_destination entry) (Wire.sr_relays entry)).2)
       (routing (the_nib s)) (Wire.lr_entries p)).

(** ** Sends *)
Definition enqueue_error (e : EnqueueError) : Wire.Error :=
  match e with
  | RateLimited retry_in => Wire.RateLimited retry_in
  | NotStarted => Wire.ErrorStatus Wire.StatusNotStarted
  | PayloadTooLong => Wire.ErrorStatus Wire.StatusPayloadTooLong
  | SecurityUnavailable => Wire.ErrorStatus Wire.StatusSecurityUnavailable
  | RouteDiscoverySuppressed => Wire.ErrorStatus Wire.NoRoute
  end.

Definition host_source_route (relays : Wire.SourceRouteRelays) : NextHop.HostRoute + Wire.Error :=
  match Wire.relays relays with
  | [] => inr (Wire.ErrorStatus Wire.InvalidRequest)
  | relays => inl (NextHop.HostSourceRoute relays)
  end.

(** The [unwrap]s: the layout makes a field present exactly when the control calls for it. *)
Definition route_directive (control : Wire.RouteControl) (next_hop : option Nwk) (relays : option Wire.SourceRouteRelays)
    : may (NextHop.RouteDirective + Wire.Error) :=
  match control with
  | Wire.RouteStackDecides => Ok (inl NextHop.StackDecides)
  | Wire.RouteHintNextHop => hop ← unwrap next_hop; Ok (inl (NextHop.Hint (NextHop.HostNextHop hop)))
  | Wire.RouteForceNextHop => hop ← unwrap next_hop; Ok (inl (NextHop.Force (NextHop.HostNextHop hop)))
  | Wire.RouteHintSourceRoute =>
      relays ← unwrap relays;
      Ok match host_source_route relays with inl r => inl (NextHop.Hint r) | inr e => inr e end
  | Wire.RouteForceSourceRoute =>
      relays ← unwrap relays;
      Ok match host_source_route relays with inl r => inl (NextHop.Force r) | inr e => inr e end
  end.

Definition unicast_request (p : Wire.SendUnicastPayload) (route : NextHop.RouteDirective) : UnicastRequest :=
  let f := Wire.su_flags p in
  mkUnicastRequest (Wire.su_destination p) (Wire.su_profile_id p) (Wire.su_cluster_id p) (Wire.su_src_ep p) (Wire.su_dst_ep p)
    (if Wire.aps_ack f then RequestAck else NoApsAck) (if Wire.force_aps_seq f then Some (Wire.su_aps_seq p) else None) (Wire.su_radius p)
    (Wire.su_asdu p) (if Wire.aps_encryption f && Wire.has_eui64 f then Some (Wire.su_destination_eui64 p) else None)
    (Wire.sleepy_destination f) (TxPriority.from_host (Wire.su_priority p)) route.

Definition unicast_kind (p : Wire.SendUnicastPayload) : SendTracker.ConfirmKind :=
  if Wire.aps_ack (Wire.su_flags p) then SendTracker.UnicastApsAck else SendTracker.UnicastNoAck.

Section Sends.
Context `{!ApsFrame.ApsCodecs, !AbstractBits NwkFrame.NwkSecurityHeaderControlField, !Ccm, !BlockCipher} (e : Env).

Definition send_unicast (s : t) (p : Wire.SendUnicastPayload)
    : may (((Handle * SendTracker.ConfirmKind * Wire.SendUnicastResultPayload) + Wire.Error) * t) :=
  route ← route_directive (Wire.su_route p) (Wire.su_next_hop p) (Wire.su_relays p);
  match route with
  | inr err => Ok (inr err, s)
  | inl route =>
      '(sent, s) ← send_aps_unicast e s (unicast_request p route);
      Ok (match sent with
          | inl (h, aps_seq) => inl (h, unicast_kind p, Wire.mkSendUnicastResult aps_seq)
          | inr err => inr (enqueue_error err)
          end, s)
  end.

Definition broadcast_result (sent : Handle + EnqueueError) : (Handle * SendTracker.ConfirmKind) + Wire.Error :=
  match sent with inl h => inl (h, SendTracker.BroadcastQuorum) | inr err => inr (enqueue_error err) end.

Definition send_broadcast (s : t) (p : Wire.SendBroadcastPayload) : may (((Handle * SendTracker.ConfirmKind) + Wire.Error) * t) :=
  '(sent, s) ← send_aps_broadcast e s (Wire.sb_destination p) (Wire.sb_profile_id p) (Wire.sb_cluster_id p) (Wire.sb_src_ep p)
    (Wire.sb_dst_ep p) (Wire.sb_radius p) (Wire.sb_asdu p) (TxPriority.from_host (Wire.sb_priority p));
  Ok (broadcast_result sent, s).

Definition send_groupcast (s : t) (p : Wire.SendGroupcastPayload) : may (((Handle * SendTracker.ConfirmKind) + Wire.Error) * t) :=
  '(sent, s) ← send_aps_groupcast e s (Wire.sg_group_id p) (Wire.sg_profile_id p) (Wire.sg_cluster_id p) (Wire.sg_src_ep p)
    (Wire.sg_radius p) (Wire.sg_asdu p) (TxPriority.from_host (Wire.sg_priority p));
  Ok (broadcast_result sent, s).

Definition cancel_request (s : t) (tr : SendTracker.t) (p : Wire.CancelRequestPayload) : may (Wire.CancelResultPayload * t) :=
  match SendTracker.send_id tr (Wire.cr_request_id p) with
  | Some id => '(cancelled, s) ← cancel_send e s id; Ok (Wire.mkCancelResult cancelled, s)
  | None => Ok (Wire.mkCancelResult false, s)
  end.
End Sends.

(** A name that is not UTF-8 is none of the names of the tunables, and both failures have one status. *)
Definition name_of (bs : bytes) : string :=
  fold_right (fun b s => String (ascii_of_N (Z.to_N b)) s) EmptyString bs.
Definition set_tunable (tun : Tunables) (p : Wire.SetTunablePayload) : Tunables + Wire.Error :=
  match Tunables.set tun (name_of (Wire.st_name p)) (Wire.st_value p) with
  | Ok tun => inl tun
  | _ => inr (Wire.ErrorStatus Wire.InvalidRequest)
  end.

(** ** Notifications *)
Definition beacon_payload (b : NetworkBeacon) : Wire.BeaconPayload :=
  Wire.mkBeacon (nb_channel b) (default 0xFFFF (nb_source b)) (nb_pan_id b) (nb_extended_pan_id b) (nb_permit_joining b)
    (nb_router_capacity b) (nb_end_device_capacity b) (nb_stack_profile b) (nb_protocol_version b) (nb_device_depth b) (nb_update_id b)
    (nb_lqi b) (nb_rssi b).

Definition NO_EUI64 : Eui64 := mkEui64 (replicate 8 0).

Definition joined_type (device_type : option Neighbors.NwkDeviceType) : Wire.ChildDeviceType :=
  match device_type with
  | Some Neighbors.Router => Wire.ChildRouter
  | Some Neighbors.EndDevice => Wire.ChildEndDevice
  | _ => Wire.ChildUnknown
  end.

Definition left_payload (nwk : Nwk) (ieee : option Eui64) (reason : DeviceLeaveReason) : Wire.DeviceLeftPayload :=
  let '(code, rejoin, router, router_ieee) :=
    match reason with
    | Announced rejoin => (Wire.LeaveAnnounced, rejoin, None, None)
    | RouterReported router router_ieee => (Wire.LeaveRouterReported, false, Some router, router_ieee)
    | KeepaliveTimeout => (Wire.LeaveKeepaliveTimeout, false, None, None)
    end in
  Wire.mkDeviceLeft nwk (bool_decide (is_Some ieee)) rejoin (bool_decide (is_Some router_ieee)) (default NO_EUI64 ieee) code
    (default 0xFFFF router) (default NO_EUI64 router_ieee).

Definition wire_key_id (key_id : NwkFrame.NwkSecurityHeaderKeyId) : Wire.KeyId :=
  match key_id with
  | NwkFrame.DataKey => Wire.KeyData
  | NwkFrame.NetworkKey => Wire.KeyNetwork
  | NwkFrame.KeyTransportKey => Wire.KeyKeyTransport
  | NwkFrame.KeyLoadKey => Wire.KeyKeyLoad
  end.

Definition wire_notification (n : ZigbeeNotification) : Wire.Notification :=
  match n with
  | ReceivedApsCommand source destination group profile_id cluster_id src_ep dst_ep lqi rssi aps_encrypted data =>
      Wire.ReceivedAps (Wire.mkReceivedAps source destination (bool_decide (is_Some group)) aps_encrypted (default 0 group) profile_id
        cluster_id src_ep dst_ep lqi rssi data)
  | DeviceJoined nwk ieee parent device_type rx_on_when_idle =>
      Wire.DeviceJoined (Wire.mkDeviceJoined nwk ieee parent (Wire.mkChildFlags rx_on_when_idle (joined_type device_type)))
  | DeviceLeft nwk ieee reason => Wire.DeviceLeft (left_payload nwk ieee reason)
  | ReceivedGpdf mac_sequence_number source_ieee lqi rssi data =>
      Wire.ReceivedGpdf (Wire.mkReceivedGpdf mac_sequence_number (bool_decide (is_Some source_ieee)) (default NO_EUI64 source_ieee) lqi rssi data)
  | FrameCounterUpdate n => Wire.FrameCounter (Wire.mkFrameCounter n)
  | LinkKeyUpdate ieee key => Wire.LinkKey (Wire.mkLinkKey ieee key)
  | RouteRecordUpdate destination relays => Wire.RouteRecord (Wire.mkRouteRecord destination relays)
  | ApsFrameCounterUpdate n => Wire.ApsFrameCounter (Wire.mkApsFrameCounter n)
  | ApsDecryptionFailure source source_ieee n key_id =>
      Wire.ApsDecryptFailure (Wire.mkApsDecryptFail source source_ieee n (wire_key_id key_id))
  end.

Definition notification_frame `{!Wire.WireCodecs} (n : ZigbeeNotification) : option bytes := Wire.frame (wire_notification n).
End Bridge.
