(* ===== verification/HostSystem.v ===== *)
(** * The stack under its host

    A host gives the stack sends and learns their fate from the confirms the tracker makes of the
    verdicts in the slots. Here the tracker's sweeps are interleaved with runs of the stack. *)

From S2P Require Import Prelude Flat Types Constants AbstractBits Mac NwkSecurity Addresses.
From S2P Require Import SendTypes Sends SendsFacts SendsTheorems Crypto NwkCommands NwkFrame Receive NextHop ApsFrame ApsSecurity ApsSecurityFacts Zdp.
From S2P Require Import Stack StackSend StackAps StackSteps StackLink StackSystem Wire SendTracker Bridge.

Module HostSystem.
Import Stack StackSend StackAps StackSteps StackLink StackSystem.
Import ApsSecurityFacts(get_update, device_key_update, incoming_update).

Section Host.
Context `{!ApsFrame.ApsCodecs, !AbstractBits NwkFrame.NwkSecurityHeaderControlField, !Ccm, !BlockCipher}.
Context `{!AbstractBits Receive.GpNwkFrameControl, !AbstractBits NwkFrame.NwkFrameControl, !AbstractBits NwkFrame.NwkSourceRoute}.
Context `{!NwkCommands.CommandCodecs, !Zdp.ZdpCodecs}.
Context `{!AbstractBits Mac.FrameControl, !AbstractBits Mac.SuperframeSpecification, !AbstractBits Mac.AssociationRequestCommand}.
Context `{!AbstractBits Mac.AssociationResponseCommand, !AbstractBits Mac.DisassociationNotificationCommand}.

(** [SendHandle::status]. *)
Definition slot_index (h : Handle) : nat := h.2.
Definition status_of (s : t) (h : Handle) : Progress := default (mkProgress None None) (slots s !! slot_index h).

(** ** The handoff verdict of a slot is kept, and a final verdict brings one *)
Record handoffs (s0 : t) (p : SendActions) (s : t) : Prop := mkHandoffs {
  ho_kept i p0 v : slots s0 !! i = Some p0 -> handed_off p0 = Some v -> exists q, slots s !! i = Some q /\ handed_off q = Some v;
  ho_whole : (forall i q, slots s0 !! i = Some q -> SendTracker.settled_whole q) -> forall i q, slots s !! i = Some q -> SendTracker.settled_whole q
}.

Lemma handoffs_slots s0 p s q s' : handoffs s0 p s -> slots s' = slots s -> handoffs s0 q s'.
Proof. intros [Hk Hw] Hs. split; rewrite Hs; [exact Hk|exact Hw]. Qed.

Lemma handoffs_new s0 p s q table : handoffs s0 p s -> handoffs s0 q (with_sends (new_slot s).2 table).
Proof.
  intros [Hk Hw]. split; cbn.
  - intros i p0 v Hi Hv. destruct (Hk i p0 v Hi Hv) as (x & Hx & Hxv). exists x. split; [|done]. by apply lookup_app_l_Some.
  - intros Hz i x [Hx|[_ Hx]]%lookup_app_Some; [by apply (Hw Hz i)|]. apply list_lookup_singleton_Some in Hx as [_ <-]. by intros [? ?].
Qed.

Lemma handoffs_on s0 p s q slot f :
  (forall x v, handed_off x = Some v -> handed_off (f x) = Some v) -> (forall x, SendTracker.settled_whole x -> SendTracker.settled_whole (f x)) ->
  handoffs s0 p s -> handoffs s0 q (on_slot s slot f).
Proof.
  intros Hf Hg [Hk Hw]. split; cbn.
  - intros i p0 v Hi Hv. destruct (Hk i p0 v Hi Hv) as (x & Hx & Hxv). destruct (decide (i = slot)) as [->|Hne].
    + exists (f x). rewrite list_lookup_alter_eq, Hx. split; [done|by apply Hf].
    + exists x. by rewrite list_lookup_alter_ne by done.
  - intros Hz i x Hx. destruct (decide (i = slot)) as [->|Hne].
    + rewrite list_lookup_alter_eq in Hx. apply fmap_Some in Hx as (y & Hy & ->). by apply Hg, (Hw Hz slot).
    + rewrite list_lookup_alter_ne in Hx by done. by apply (Hw Hz i).
Qed.

Lemma handed_off_keeps x : (forall v, handed_off x = Some v -> handed_off (slot_handed_off x) = Some v) /\
  (SendTracker.settled_whole x -> SendTracker.settled_whole (slot_handed_off x)).
Proof. unfold slot_handed_off, SendTracker.settled_whole. destruct (handed_off x) eqn:Hx; cbn; naive_solver. Qed.

Lemma settled_keeps r x : (forall v, handed_off x = Some v -> handed_off (slot_settled r x) = Some v) /\ SendTracker.settled_whole (slot_settled r x).
Proof. unfold slot_settled, SendTracker.settled_whole. cbn. split; [by intros v ->|by eexists]. Qed.

Lemma handoffs_settled s0 p s q slot r : handoffs s0 p s -> handoffs s0 q (on_slot s slot (slot_settled r)).
Proof. apply handoffs_on; [apply settled_keeps|intros x _; apply settled_keeps]. Qed.

Lemma handoffs_closed s0 : Closed (handoffs s0).
Proof.
  split; try by intros; eapply handoffs_slots.
  - intros p s s' Hs [_ _ _ _ E _]. by eapply handoffs_slots.
  - intros. by eapply handoffs_new.
  - intros p s slot. apply handoffs_on; [apply handed_off_keeps|intros x; apply handed_off_keeps].
  - intros p s slot result f hop. apply handoffs_settled.
Qed.

Lemma run_handoffs x ls y : run x ls y -> handoffs (stack x) [] (stack y).
Proof.
  intros Hr. apply (run_cl _ (handoffs_closed _)) with (3 := Hr).
  - intros. by eapply handoffs_slots.
  - intros. by eapply handoffs_settled.
  - split; [eauto|auto].
Qed.

(** ** Sweeps between runs *)

(** The tracker's operations from [x] to [z], the last sweep's state: the stack runs before each
    sweep, which sees the slots as they are then. *)
Inductive host (id : Z) : sys -> list SendTracker.op -> sys -> Prop :=
| host_nil x : host id x [] x
| host_insert x id' h kind ops z : id' <> id -> host id x ops z -> host id x (SendTracker.Insert id' h kind :: ops) z
| host_sweep x ls y ops z : run x ls y -> host id y ops z -> host id x (SendTracker.Sweep (status_of (stack y)) :: ops) z.

Lemma status_grows s0 ls x ls' y h :
  fresh s0 -> run (mkSys s0 None []) ls x -> run x ls' y -> SendTracker.progress_le (status_of (stack x) h) (status_of (stack y) h).
Proof.
  intros Hf Hx Hy. pose proof (run_linked _ _ _ _ Hx (fresh_linked s0 Hf)) as Hl.
  destruct (linked_world _ _ (run_linked _ _ _ _ Hy (rebase _ _ Hl))) as (w & g & _ & Hk & _). unfold status_of. split; intros v.
  - destruct (slots (stack x) !! slot_index h) as [p|] eqn:Hp; [|done]. cbn. intros Hv. destruct (ho_kept _ _ _ (run_handoffs _ _ _ Hy) _ _ _ Hp Hv) as (q & -> & Hq).
    exact Hq.
  - specialize (Hk (slot_index h) v). destruct (slots (stack x) !! slot_index h) as [p|]; [|done]. cbn in *. intros Hv. specialize (Hk Hv).
    by destruct (slots (stack y) !! slot_index h).
Qed.

Lemma status_whole s0 ls x h : fresh s0 -> run (mkSys s0 None []) ls x -> SendTracker.settled_whole (status_of (stack x) h).
Proof.
  intros [Hf _] Hx. unfold status_of. destruct (slots (stack x) !! slot_index h) as [p|] eqn:Hp; [|by intros [? ?]]. cbn.
  apply (ho_whole _ _ _ (run_handoffs _ _ _ Hx)) with (2 := Hp). cbn. rewrite Hf. by intros i q Hq.
Qed.

Lemma host_grows s0 ls id h x ops z :
  fresh s0 -> run (mkSys s0 None []) ls x -> host id x ops z ->
  SendTracker.grows h id (status_of (stack x) h) ops (status_of (stack z) h).
Proof.
  intros Hf Hx Hh. revert ls Hx. induction Hh as [x|x id' h' kind ops z Hne _ IH|x ls' y ops z Hy _ IH]; intros ls Hx.
  - apply SendTracker.grows_nil.
  - apply SendTracker.grows_insert; [done|]. by eapply IH.
  - pose proof (run_app _ _ _ _ _ Hx Hy) as Hxy.
    apply SendTracker.grows_sweep; [by eapply status_grows|by eapply status_whole|by eapply IH].
Qed.

(** C5: a host learns the fate of every send exactly once: a send that is registered with the tracker
    when it is accepted is confirmed, however the radio, the mesh and the other tasks interleave
    with the sweeps, with exactly the frames its verdicts call for at the last sweep, in order and
    without repetition, and is forgotten exactly when nothing more is owed. *)
Theorem host_learns_once s0 ls x id h kind tr ops z :
  fresh s0 -> run (mkSys s0 None []) ls x -> status_of (stack x) h = mkProgress None None -> host id x ops z ->
  SendTracker.confirms_of id (SendTracker.run (SendTracker.insert tr id h kind) ops).1 = SendTracker.due id kind (status_of (stack z) h) /\
  FlatMap.get (SendTracker.run (SendTracker.insert tr id h kind) ops).2 id = SendTracker.entry_at h kind (status_of (stack z) h).
Proof.
  intros Hf Hx Hs Hh. pose proof (host_grows s0 ls id h x ops z Hf Hx Hh) as Hg. rewrite Hs in Hg. by apply SendTracker.tracked_confirms.
Qed.

(** ** Restarts *)
Lemma sorted_app (l l' : list Z) a :
  StronglySorted Z.lt l -> StronglySorted Z.lt l' -> Forall (fun n => n <= a) l -> Forall (fun n => a < n) l' -> StronglySorted Z.lt (l ++ l').
Proof.
  intros Hl Hl' Hle Hgt. induction Hl as [|n l _ IH Hn]; [done|]. apply Forall_cons in Hle as [Hna Hle]. constructor; [by apply IH|].
  apply Forall_app. split; [done|]. eapply Forall_impl; [exact Hgt|]. cbn. lia.
Qed.

(** What [configure] takes from a network state. *)
Lemma configure_counters p tun aps_counter cfg saved s :
  Wire.cf_state p = Bridge.network_state cfg saved s ->
  outgoing (Bridge.configure p tun aps_counter) = outgoing s /\
  ApsSecurity.outgoing_frame_counter (aps s) <= ApsSecurity.outgoing_frame_counter (aps (Bridge.configure p tun aps_counter)).
Proof.
  intros Hp. unfold Bridge.configure, stack_new, Bridge.network_config. rewrite Hp. unfold Bridge.network_state.
  destruct (match Bridge.sv_tclk_seed saved with Some _ => _ | None => _ end) as [[? ?] ?]. cbn. split; [done|lia].
Qed.

(** The counter of the APS layer never goes back in a run. *)
Lemma run_aps_counter x ls y : run x ls y -> ApsSecurity.outgoing_frame_counter (aps (stack x)) <= ApsSecurity.outgoing_frame_counter (aps (stack y)).
Proof. intros Hx. destruct (adv_aps _ _ _ (run_advances _ _ _ Hx)) as [evs He]. by destruct (ApsSecurityFacts.trace_emitted _ _ _ He) as (_ & _ & ?). Qed.

(** C6: network-key nonces stay fresh over a restart: when a stack is configured from the network state
    that was read off another, as it is after a restart from a backup, the frame counters of all the
    frames the two secure with the network key, one after the other, are strictly increasing. Of the
    APS layer the theorem only says that its outgoing counter does not go back in either run nor over
    the restart: the APS frames a run secures are not among its labels. *)
Theorem restart_keeps_nonces_fresh x ls y cfg saved p tun aps_counter ls' z :
  run x ls y -> Wire.cf_state p = Bridge.network_state cfg saved (stack y) ->
  run (mkSys (Bridge.configure p tun aps_counter) None []) ls' z ->
  StronglySorted Z.lt (secured (ls ++ ls')) /\
  Sorted Z.le [ApsSecurity.outgoing_frame_counter (aps (stack x)); ApsSecurity.outgoing_frame_counter (aps (stack y));
               ApsSecurity.outgoing_frame_counter (aps (Bridge.configure p tun aps_counter)); ApsSecurity.outgoing_frame_counter (aps (stack z))].
Proof.
  intros Hx Hp Hz. destruct (configure_counters _ tun aps_counter _ _ _ Hp) as [Hn Ha].
  destruct (run_secured _ _ _ Hx) as [Hs Hf], (run_secured _ _ _ Hz) as [Hs' Hf']. split.
  - unfold secured. rewrite omap_app. apply (sorted_app _ _ (outgoing (stack y))); [done..| |].
    + eapply Forall_impl; [exact Hf|]. cbn. lia.
    + eapply Forall_impl; [exact Hf'|]. cbn [stack]. rewrite Hn. lia.
  - apply run_aps_counter in Hx. apply run_aps_counter in Hz. repeat constructor; done.
Qed.

(** ** Backups of the key table *)









End Host.
End HostSystem.
