(* ===== verification/Surface.v ===== *)
(** * What a control surface promises its host

    Both the firmware and the server answer the same requests. Their life cycle has three phases, and
    a request either is refused by the phase or streams events before its one reply. A handler's
    steps are shown to stream with the rules and the tactic of this file. *)

From S2P Require Import Prelude Effects Types Wire.

Module Surface.

(** ** The life cycle *)
Inductive Phase : Type := Unconfigured | Loading | Running.

(** What a request needs. *)
Inductive Demand : Type := Nothing | AStack | ALoadWindow | ANetwork.

Definition demand_of (request : Wire.Request) : Demand :=
  match request with
  | Wire.Reset _ | Wire.GetFirmwareInfo | Wire.GetHwAddress | Wire.Shutdown | Wire.Configure _ | Wire.EnergyScan _
  | Wire.PacketCapture _ | Wire.PacketCaptureChannel _ => Nothing
  | Wire.GetNetworkInfo | Wire.ScanKeyTable | Wire.ScanChildren | Wire.ScanAddressCache | Wire.ScanRouteTable | Wire.SetTunable _ => AStack
  | Wire.LoadKeyTable _ | Wire.LoadChildren _ | Wire.LoadAddressCache _ | Wire.LoadRouteTable _ | Wire.LoadSourceRoutes _
  | Wire.StartNetwork => ALoadWindow
  | _ => ANetwork
  end.

(** Why a phase refuses a demand. *)
Definition refusal (p : Phase) (d : Demand) : option Wire.Status :=
  match d, p with
  | Nothing, _ | AStack, (Loading | Running) | ALoadWindow, Loading | ANetwork, Running => None
  | _, Unconfigured => Some Wire.NotConfigured
  | ALoadWindow, Running => Some Wire.AlreadyStarted
  | ANetwork, Loading => Some Wire.StatusNotStarted
  end.

(** Where a request that was not refused leads, by whether it succeeded. *)
Definition next_phase (p : Phase) (request : Wire.Request) (ok : bool) : Phase :=
  match request with
  | Wire.Shutdown => Unconfigured
  | Wire.Configure _ => if ok then Loading else Unconfigured
  | Wire.StartNetwork => if ok then Running else p
  | _ => p
  end.

(** ** Surfaces *)

(** A state with a phase and an outbound stream. *)
Class Surface (S : Type) := {
  phase : S -> Phase;
  written : S -> list bytes
}.

(** An event of the request [id]. *)
Definition is_event `{!Wire.WireCodecs} (id : Wire.RequestId) (f : bytes) : Prop := exists ev, Wire.event_frame ev id = Some f.

Section Streaming.
Context {S : Type} `{!Surface S} (P : bytes -> Prop).

(** Frames of [P] are written and nothing else is. *)
Definition emits (a a' : S) : Prop := exists out, written a' = written a ++ out /\ Forall P out.
#[export] Instance emits_preorder : PreOrder emits.
Proof.
  split; [intros a; exists []; by rewrite app_nil_r|]. intros a b c (es & He & Hf) (es' & He' & Hf'). exists (es ++ es').
  rewrite He', He, <- app_assoc. split; [done|]. by apply Forall_app.
Qed.

Definition streams (a a' : S) : Prop := phase a' = phase a /\ emits a a'.
#[export] Instance streams_preorder : PreOrder streams.
Proof. split; [intros a; by split|]. intros a b c [Hp He] [Hp' He']. split; [congruence|by etrans]. Qed.

(** A command that keeps the phase and only streams. *)
Definition streaming {E A} (m : eff S E A) : Prop := forall a, eff_post m a (fun _ a' => streams a a').

Lemma streaming_quiet {E A} (m : eff S E A) :
  (forall a, eff_post m a (fun _ a' => phase a' = phase a /\ written a' = written a)) -> streaming m.
Proof. intros Hm a r a' Hr. destruct (Hm a r a' Hr) as [Hp Ho]. split; [done|]. exists []. by rewrite Ho, app_nil_r. Qed.

Lemma streaming_ret {E A} (x : A) : streaming (mret x : eff S E A).
Proof. intros a. by apply eff_post_ret. Qed.
Lemma streaming_raise {E A} (x : E) : streaming (raise x : eff S E A).
Proof. intros a. by apply eff_post_raise. Qed.
Lemma streaming_bind {E A B} (m : eff S E A) (k : A -> eff S E B) :
  streaming m -> (forall x, streaming (k x)) -> streaming (m ≫= k).
Proof.
  intros Hm Hk a. apply eff_post_bind. intros [x|e] a1 Ha; [|by apply (Hm a _ _ Ha)]. intros r a2 Hb.
  etrans; [by eapply Hm|by eapply Hk].
Qed.
Lemma streaming_modify {E} f : (forall a, phase (f a) = phase a /\ written (f a) = written a) -> streaming (modify f : eff S E unit).
Proof. intros Hf. apply streaming_quiet. intros a. apply eff_post_modify, Hf. Qed.
Lemma streaming_gets {E A} (f : S -> A) : streaming (gets f : eff S E A).
Proof. intros a. by apply eff_post_gets. Qed.
Lemma streaming_map_err {E E' A} (f : E -> E') (m : eff S E A) : streaming m -> streaming (map_err f m).
Proof. intros Hm a. apply eff_post_map_err. intros r a' Hr. by apply (Hm a r a'). Qed.
Lemma streaming_attempt {E E' A} (m : eff S E A) : streaming m -> streaming (attempt m : eff S E' (A + E)).
Proof. intros Hm a. apply eff_post_attempt. intros r a' Hr. by apply (Hm a r a'). Qed.
Lemma streaming_lift {A} (r : A + Wire.Error) : streaming (match r with inl x => mret x | inr err => raise err end : eff S Wire.Error A).
Proof. destruct r; [apply streaming_ret|apply streaming_raise]. Qed.
End Streaming.

(** ** What a request may fail with *)

Definition is_ok {A B} (r : A + B) : bool := if r is inl _ then true else false.

(** The statuses of a radio that fails. *)
Definition radio_failure (e : Wire.Error) : Prop := e = Wire.ErrorStatus Wire.StatusRadioError \/ e = Wire.ErrorStatus Wire.ScanFailed.

Section FailsWith.
Context {S : Type} `{!Surface S}.

(** A command that, in the phase [ph], keeps it and fails with the errors of [P] only. *)
Definition fails_with {E A} (ph : Phase) (P : E -> Prop) (m : eff S E A) : Prop := forall a, phase a = ph ->
  eff_post m a (fun r a' => phase a' = ph /\ match r with inl _ => True | inr e => P e end).

Context (ph : Phase).

Lemma fails_streaming (F : bytes -> Prop) {E A} (P : E -> Prop) (m : eff S E A) :
  streaming F m -> (forall a e a', m a = Ok (inr e, a') -> P e) -> fails_with ph P m.
Proof. intros Hm Hp a Ha r a' Hr. destruct (Hm a r a' Hr) as [Hph _]. split; [congruence|]. destruct r; [done|by eapply Hp]. Qed.
Lemma fails_ret {E A} (P : E -> Prop) (x : A) : fails_with ph P (mret x : eff S E A).
Proof. intros a Ha. by apply eff_post_ret. Qed.
Lemma fails_raise {E A} (P : E -> Prop) (e : E) : P e -> fails_with ph P (raise e : eff S E A).
Proof. intros He a Ha. by apply eff_post_raise. Qed.
Lemma fails_gets {E A} (P : E -> Prop) (f : S -> A) : fails_with ph P (gets f : eff S E A).
Proof. intros a Ha. by apply eff_post_gets. Qed.
Lemma fails_modify {E} (P : E -> Prop) f : (forall a, phase (f a) = phase a) -> fails_with ph P (modify f : eff S E unit).
Proof. intros Hf a Ha. apply eff_post_modify. by rewrite Hf. Qed.
Lemma fails_bind {E A B} (P : E -> Prop) (m : eff S E A) (k : A -> eff S E B) :
  fails_with ph P m -> (forall x, fails_with ph P (k x)) -> fails_with ph P (m ≫= k).
Proof. intros Hm Hk a Ha. apply eff_post_bind. intros [x|e] a1 Hx; destruct (Hm a Ha _ _ Hx) as [Hp He]; [by apply Hk|done]. Qed.
End FailsWith.

Create HintDb failing.
#[export] Hint Resolve fails_ret fails_raise fails_gets : failing.

Ltac failing :=
  lazymatch goal with
  | |- fails_with _ _ (_ ≫= _) => apply fails_bind; [failing|intros ?; failing]
  | |- fails_with _ _ (let _ := _ in _) => cbv zeta; failing
  | |- fails_with _ _ (match ?x with _ => _ end) => destruct x; failing
  | |- _ => eauto with failing
  end.

Create HintDb streaming.
#[export] Hint Resolve streaming_ret streaming_raise streaming_gets streaming_lift streaming_attempt : streaming.

(** Each step of a handler streams. *)
Ltac stream :=
  lazymatch goal with
  | |- streaming _ (_ ≫= _) => apply streaming_bind; [stream|intros ?; stream]
  | |- streaming _ (let _ := _ in _) => cbv zeta; stream
  | |- streaming _ (match ?x with _ => _ end) => destruct x; stream
  | |- _ => eauto with streaming
  end.
End Surface.
