(* ===== verification/Ncp.v ===== *)
(** * The firmware's control surface: [src/crates/ziggurat-ncp-api/src]

    [App] is the firmware's state and [handle_frame] its dispatch of one request. A request is
    handled to its end before the next is read, but the tasks of a running stack go on while it
    waits for the radio: [others] is what they do to the stack at the n-th such wait. A handler that
    waits for room in the outbound queue does not look at the stack afterwards, so what the tasks do
    meanwhile comes after it. *)

From S2P Require Import Prelude Effects Flat Types Constants AbstractBits Mac Addresses Neighbors Routing.
From S2P Require Import SendTypes Sends NwkFrame ApsFrame ApsSecurity Crypto Stack Radio StackSend StackAps StackJoin StackRun StackRadio.
From S2P Require Import Wire SendTracker Bridge.

Module Ncp.
Import Stack StackSend StackAps StackJoin StackRun StackRadio.

(** ** The outbound queue *)
Definition OUTBOUND_DEPTH : nat := 64.

(** The channel, and what the transport has drained from it. *)
Record Outbound := mkOutbound { drained : list bytes; queue : list bytes }.

(** [push_outbound]: a full queue loses its oldest frame. *)
Definition push_outbound (o : Outbound) (frame : bytes) : Outbound :=
  if (length (queue o) <? OUTBOUND_DEPTH)%nat then mkOutbound (drained o) (queue o ++ [frame])
  else mkOutbound (drained o) (tail (queue o) ++ [frame]).

(** [send_outbound] waits for room: the transport drains the oldest frame. *)
Definition send_outbound (o : Outbound) (frame : bytes) : Outbound :=
  if (length (queue o) <? OUTBOUND_DEPTH)%nat then mkOutbound (drained o) (queue o ++ [frame])
  else mkOutbound (drained o ++ take 1 (queue o)) (tail (queue o) ++ [frame]).

Definition push_frame (o : Outbound) (frame : option bytes) : Outbound := match frame with Some f => push_outbound o f | None => o end.

(** A stack, with the part of its configuration that does not change while it runs and its tunables. *)
Record Live := mkLive { state : t; cfg : Config; saved : Bridge.Saved; tun : Tunables }.
Definition set_state (l : Live) (s : t) : Live := mkLive s (cfg l) (saved l) (tun l).
Definition set_tunables (l : Live) (x : Tunables) : Live := mkLive (state l) (cfg l) (saved l) x.

(** What a request sees of the world: the clock and the random draws, the other tasks at its waits,
    the board's address and the firmware's version. *)
Record World := mkWorld {
  clock : Env;
  others : nat -> t -> t;
  new_aps_counter : Z;
  hw_eui64 : Eui64;
  firmware : bytes
}.

(** The environment of a stack's handlers at the clock and draws of [c]. *)
Definition env_for (c : Env) (l : Live) : Env :=
  mkEnv (cfg l) (tun l) (now c) (conflict_jitter c) (relay_jitter c) (rreq_jitter c) (passive_ack_jitter c) (retry_jitter c)
    (parent_annce_jitter c) (candidate_addresses c) (fresh_key c).
Definition env_of (w : World) : Live -> Env := env_for (clock w).

Definition DEFAULT_TX_POWER : Z := 8.

Definition capture_config (channel : Z) : Radio.RadioConfig :=
  Radio.mkRadioConfig channel DEFAULT_TX_POWER 0xFFFF Bridge.NO_EUI64 0xFFFF true true [] [].

Section Ncp.
Context `{!ApsFrame.ApsCodecs, !AbstractBits NwkFrame.NwkSecurityHeaderControlField, !Ccm, !BlockCipher, !Wire.WireCodecs}.
Context `{!AbstractBits Mac.FrameControl, !AbstractBits Mac.SuperframeSpecification, !AbstractBits Mac.AssociationRequestCommand}.
Context `{!AbstractBits Mac.AssociationResponseCommand, !AbstractBits Mac.DisassociationNotificationCommand}.
Context {R : Type} `{!Radio.RadioPhy R}.

Record App := mkApp {
  phy : R;
  stack : option Live;
  started : bool;
  capture_stop : bool;
  sends : SendTracker.t;
  outbound : Outbound
}.
Definition set_phy (a : App) (x : R) : App := mkApp x (stack a) (started a) (capture_stop a) (sends a) (outbound a).
Definition set_stack (a : App) (x : option Live) : App := mkApp (phy a) x (started a) (capture_stop a) (sends a) (outbound a).
Definition set_started (a : App) (x : bool) : App := mkApp (phy a) (stack a) x (capture_stop a) (sends a) (outbound a).
Definition set_capture (a : App) (x : bool) : App := mkApp (phy a) (stack a) (started a) x (sends a) (outbound a).
Definition set_sends (a : App) (x : SendTracker.t) : App := mkApp (phy a) (stack a) (started a) (capture_stop a) x (outbound a).
Definition set_outbound (a : App) (x : Outbound) : App := mkApp (phy a) (stack a) (started a) (capture_stop a) (sends a) x.

Abbreviation handler A := (eff App Wire.Error A).
Definition reply_status {A} (st : Wire.Status) : handler A := raise (Wire.ErrorStatus st).

(** ** Guards *)
Definition configured (a : App) : Live + Wire.Error :=
  match stack a with Some l => inl l | None => inr (Wire.ErrorStatus Wire.NotConfigured) end.

Definition loadable (a : App) : Live + Wire.Error :=
  match stack a with
  | Some l => if started a then inr (Wire.ErrorStatus Wire.AlreadyStarted) else inl l
  | None => inr (Wire.ErrorStatus Wire.NotConfigured)
  end.

Definition running (a : App) : Live + Wire.Error :=
  match stack a with
  | Some l => if started a then inl l else inr (Wire.ErrorStatus Wire.StatusNotStarted)
  | None => inr (Wire.ErrorStatus Wire.NotConfigured)
  end.

Definition guard (g : App -> Live + Wire.Error) : handler Live := fun a => Ok (g a, a).

(** ** Steps of the handlers *)
Definition put_state (s : t) : handler unit := modify (fun a => set_stack a ((fun l => set_state l s) <$> stack a)).
Definition put_tunables (x : Tunables) : handler unit := modify (fun a => set_stack a ((fun l => set_tunables l x) <$> stack a)).

(** A wait: the tasks of a running stack go on. *)
Definition waited (w : World) (n : nat) (a : App) : App :=
  if started a then set_stack a ((fun l => set_state l (others w n (state l))) <$> stack a) else a.

(** The n-th call on the radio, with the wait for its answer. *)
Definition call {A} (w : World) (n : nat) (m : eff R RadioError A) : eff App RadioError A := fun a =>
  '(r, x) ← m (phy a); Ok (r, waited w n (set_phy a x)).

(** One whose failure is answered with [st]. *)
Definition on_phy {A} (w : World) (n : nat) (st : Wire.Status) (m : eff R RadioError A) : handler A :=
  map_err (fun _ => Wire.ErrorStatus st) (call w n m).

(** A call on the stack. *)
Definition on_stack {A} (f : t -> may (A * t)) : handler A := fun a =>
  match stack a with
  | Some l => '(x, s) ← f (state l); Ok (inl x, set_stack a (Some (set_state l s)))
  | None => Ok (inr (Wire.ErrorStatus Wire.NotConfigured), a)
  end.

Definition lift_reply {A} (r : A + Wire.Error) : handler A := match r with inl x => mret x | inr err => raise err end.

Definition send_event (id : Wire.RequestId) (ev : Wire.Event) : handler unit :=
  modify (fun a => set_outbound a (match Wire.event_frame ev id with Some f => send_outbound (outbound a) f | None => outbound a end)).

Fixpoint send_events (id : Wire.RequestId) (evs : list Wire.Event) : handler unit :=
  match evs with
  | [] => mret tt
  | ev :: evs => _ ← send_event id ev; send_events id evs
  end.

Definition track_send (id : Wire.RequestId) (h : Handle) (kind : SendTracker.ConfirmKind) : handler unit :=
  modify (fun a => set_sends a (SendTracker.insert (sends a) id h kind)).

Definition stop_capture : handler unit := modify (fun a => set_capture a false).

(** ** Handlers *)
Section Handlers.
Context (w : World).

Definition handle_shutdown : handler Wire.Response :=
  _ ← stop_capture;
  _ ← modify (fun a => set_started (set_stack a None) false);
  _ ← on_phy w 0 Wire.StatusRadioError (Radio.set_frame_pending_table [] []);
  mret Wire.Empty.

Definition saved_of (p : Wire.ConfigurePayload) : Bridge.Saved :=
  let st := Wire.cf_state p in Bridge.mkSaved (Wire.ns_tc_link_key st) (Bridge.config_seed st) (Wire.ns_tx_power st).

Definition configured_stack (p : Wire.ConfigurePayload) : Live :=
  mkLive (Bridge.configure p Tunables.default (new_aps_counter w)) (state_config (Bridge.network_config p)) (saved_of p) Tunables.default.

Definition handle_configure (p : Wire.ConfigurePayload) : handler Wire.Response :=
  _ ← modify (fun a => set_started (set_stack a None) false);
  _ ← modify (fun a => set_stack a (Some (configured_stack p)));
  mret Wire.Empty.

(** [load_*]: only before the network is started. *)
Definition load (f : t -> t) : handler Wire.Response :=
  l ← guard loadable;
  _ ← put_state (f (state l));
  mret Wire.Empty.

(** [spawn_stack_pumps] replaces the tracker. *)
Definition handle_start_network : handler Wire.Response :=
  l ← guard loadable;
  _ ← map_err (fun _ => Wire.ErrorStatus Wire.NetworkStartFailed)
        (on_part (fun a => (state l, phy a)) (fun a x => set_stack (set_phy a x.2) (Some (set_state l x.1)))
           (start_network (env_of w l) (Bridge.sv_tx_power (saved l)) (others w 0)));
  _ ← modify (fun a => set_started (set_sends a SendTracker.new) true);
  mret Wire.Empty.

Definition scan_table (id : Wire.RequestId) (snapshot : t -> list Wire.Event) : handler Wire.Response :=
  l ← guard configured;
  let events := snapshot (state l) in
  _ ← send_events id events;
  mret (Wire.ScanCount (Wire.mkScanCount (Z.of_nat (length events) mod 2 ^ 16))).

Definition send_unicast (id : Wire.RequestId) (p : Wire.SendUnicastPayload) : handler Wire.Response :=
  l ← guard running;
  r ← on_stack (fun s => Bridge.send_unicast (env_of w l) s p);
  sent ← lift_reply r;
  _ ← track_send id sent.1.1 sent.1.2;
  mret (Wire.SendUnicastResult sent.2).

Definition send_tracked (id : Wire.RequestId) (send : Env -> t -> may (((Handle * SendTracker.ConfirmKind) + Wire.Error) * t)) : handler Wire.Response :=
  l ← guard running;
  r ← on_stack (send (env_of w l));
  sent ← lift_reply r;
  _ ← track_send id sent.1 sent.2;
  mret Wire.Empty.

(** [handle_permit_joins], [handle_set_nwk_update_id], [handle_set_provisional_key]. *)
Definition update (f : Env -> t -> t) : handler Wire.Response :=
  l ← guard running;
  _ ← put_state (f (env_of w l) (state l));
  mret Wire.Empty.

Definition handle_set_channel (p : Wire.ChannelPayload) : handler Wire.Response :=
  l ← guard running;
  _ ← on_phy w 0 Wire.StatusRadioError (Radio.set_channel (Wire.cp_channel p));
  _ ← on_stack (fun s => Ok (tt, retuned s (Wire.cp_channel p)));
  mret Wire.Empty.

Fixpoint energy_scan (id : Wire.RequestId) (duration : Duration) (n : nat) (channels : list Z) : handler Wire.Response :=
  match channels with
  | [] => mret Wire.Empty
  | c :: channels =>
      rssi ← on_phy w n Wire.ScanFailed (Radio.energy_detect c duration);
      _ ← send_event id (Wire.EventEnergyResult (Wire.mkEnergyResult c rssi));
      energy_scan id duration (S n) channels
  end.

Definition handle_energy_scan (id : Wire.RequestId) (p : Wire.ScanRequestPayload) : handler Wire.Response :=
  energy_scan id (Wire.duration_per_channel_ms p * 1000) 0 (Wire.channels p).

(** The beacons of the closed window: no beacon is added to it any more, so a second turn finds none. *)
Definition drain_beacons (id : Wire.RequestId) : handler unit :=
  batch ← on_stack (fun s => Ok (take_scan_beacons s));
  send_events id (Wire.EventBeacon ∘ Bridge.beacon_payload <$> default [] batch).

Definition handle_network_scan (id : Wire.RequestId) (p : Wire.ScanRequestPayload) : handler Wire.Response :=
  l ← guard running;
  let s := begin_network_scan (state l) in
  _ ← put_state s;
  psdu ← on_stack (fun s => beacon_request_psdu s);
  result ← attempt (call w 0 (scan_radio psdu (Tunables.load (tun l) mac_max_csma_backoffs) (channel (mac (core s))) (Wire.channels p)));
  _ ← on_stack (fun s => Ok (tt, scan_ended s));
  _ ← drain_beacons id;
  match result with inl _ => mret Wire.Empty | inr _ => reply_status Wire.ScanFailed end.

Definition handle_packet_capture (p : Wire.ChannelPayload) : handler Wire.Response :=
  _ ← on_phy w 0 Wire.StatusRadioError (Radio.reconfigure (capture_config (Wire.cp_channel p)));
  _ ← modify (fun a => set_capture a true);
  mret Wire.Empty.

Definition handle_packet_capture_channel (p : Wire.ChannelPayload) : handler Wire.Response :=
  _ ← on_phy w 0 Wire.StatusRadioError (Radio.reconfigure (capture_config (Wire.cp_channel p)));
  mret Wire.Empty.

Definition handle_set_tunable (p : Wire.SetTunablePayload) : handler Wire.Response :=
  l ← guard configured;
  tunables ← lift_reply (Bridge.set_tunable (tun l) p);
  _ ← put_tunables tunables;
  mret Wire.Empty.

Definition handle_cancel (p : Wire.CancelRequestPayload) : handler Wire.Response :=
  l ← guard running;
  tr ← gets sends;
  result ← on_stack (fun s => Bridge.cancel_request (env_of w l) s tr p);
  mret (Wire.CancelResult result).

(** ** Dispatch *)

(** A hard reset does not come back. *)
Inductive Outcome : Type :=
| Replied (r : Wire.Response + Wire.Error)
| Rebooted.

Definition replied (m : handler Wire.Response) (a : App) : may (Outcome * App) := '(r, a) ← m a; Ok (Replied r, a).

Definition handle_reset (p : Wire.ResetPayload) (a : App) : may (Outcome * App) :=
  let a := set_capture a false in
  if Wire.hard p then Ok (Rebooted, a) else Ok (Replied (inl Wire.Empty), a).

Definition dispatch (id : Wire.RequestId) (request : Wire.Request) : App -> may (Outcome * App) :=
  match request with
  | Wire.Reset p => handle_reset p
  | Wire.GetFirmwareInfo => replied (mret (Wire.FirmwareInfo (Wire.mkFirmwareInfo Wire.PROTOCOL_VERSION (firmware w))))
  | Wire.GetHwAddress => replied (mret (Wire.HwAddress (Wire.mkHwAddress (hw_eui64 w))))
  | Wire.Shutdown => replied handle_shutdown
  | Wire.Configure p => replied (handle_configure p)
  | Wire.LoadKeyTable p => replied (load (fun s => Bridge.apply_key_table s p))
  | Wire.LoadChildren p => replied (load (fun s => Bridge.apply_children (now (clock w)) s p))
  | Wire.LoadAddressCache p => replied (load (fun s => Bridge.apply_address_cache s p))
  | Wire.LoadRouteTable p => replied (load (fun s => Bridge.apply_route_table s p))
  | Wire.LoadSourceRoutes p => replied (load (fun s => Bridge.apply_source_routes s p))
  | Wire.StartNetwork => replied handle_start_network
  | Wire.GetNetworkInfo =>
      replied (l ← guard configured;
               running ← gets started;
               mret (Wire.NetworkInfo (Bridge.network_info_payload (cfg l) (saved l) (state l) running)))
  | Wire.ScanKeyTable => replied (scan_table id (fun s => Wire.EventKeyEntry <$> Bridge.key_entries s))
  | Wire.ScanChildren => replied (scan_table id (fun s => Wire.EventChild <$> Bridge.child_entries s))
  | Wire.ScanAddressCache => replied (scan_table id (fun s => Wire.EventAddress <$> Bridge.address_entries s))
  | Wire.ScanRouteTable => replied (scan_table id (fun s => Wire.EventRoute <$> Bridge.route_entries s))
  | Wire.SendUnicast p => replied (send_unicast id p)
  | Wire.SendBroadcast p => replied (send_tracked id (fun e s => Bridge.send_broadcast e s p))
  | Wire.SendGroupcast p => replied (send_tracked id (fun e s => Bridge.send_groupcast e s p))
  | Wire.PermitJoins p => replied (update (fun e s => permit_joins e s (Wire.pj_duration p) (Wire.accept_direct_joins p)))
  | Wire.SetChannel p => replied (handle_set_channel p)
  | Wire.SetNwkUpdateId p => replied (update (fun _ s => set_nwk_update_id s (Wire.up_nwk_update_id p)))
  | Wire.SetProvisionalKey p => replied (update (fun _ s => set_provisional_key s (Wire.pk_ieee p) (Wire.pk_key p)))
  | Wire.EnergyScan p => replied (handle_energy_scan id p)
  | Wire.NetworkScan p => replied (handle_network_scan id p)
  | Wire.PacketCapture p => replied (handle_packet_capture p)
  | Wire.PacketCaptureChannel p => replied (handle_packet_capture_channel p)
  | Wire.SetTunable p => replied (handle_set_tunable p)
  | Wire.CancelRequest p => replied (handle_cancel p)
  end.

Definition reply_frame (r : Wire.Response + Wire.Error) (h : Wire.Header) : bytes :=
  match r with
  | inl response => Wire.response_frame response (Wire.command h) (Wire.request_id h)
  | inr err => Wire.error_frame err (Wire.command h) (Wire.request_id h)
  end.

Definition reply (r : Wire.Response + Wire.Error) (h : Wire.Header) (a : App) : App := set_outbound a (send_outbound (outbound a) (reply_frame r h)).

Definition parse_request (h : Wire.Header) (payload : bytes) : Wire.Request + Wire.Error :=
  match Wire.request_of (Wire.command h) with
  | Some command => Wire.request_parse command payload
  | None => inr (Wire.ErrorStatus Wire.UnknownCommand)
  end.

(** The state after one inbound frame, or that the board rebooted. *)
Definition handle_frame (bs : bytes) (a : App) : may (option App) :=
  match Wire.header_parse bs with
  | None => Ok (Some a)
  | Some (h, consumed) =>
      match Wire.frame_type h with
      | Wire.TypeRequest =>
          match parse_request h (drop consumed bs) with
          | inr err => Ok (Some (reply (inr err) h a))
          | inl request =>
              '(outcome, a) ← dispatch (Wire.request_id h) request a;
              Ok match outcome with Replied r => Some (reply r h a) | Rebooted => None end
          end
      | _ => Ok (Some (reply (inr (Wire.ErrorStatus Wire.InvalidRequest)) h a))
      end
  end.
End Handlers.

(** ** The pumps *)

(** The notification pump. *)
Definition pump_notifications (a : App) : App :=
  match stack a with
  | None => a
  | Some l =>
      let '(ns, s) := take_notifications (state l) in
      set_outbound (set_stack a (Some (set_state l s))) (foldl (fun o n => push_frame o (Bridge.notification_frame n)) (outbound a) ns)
  end.

(** The sweep reactor. *)
Definition sweep_confirms (status : Handle -> Progress) (a : App) : App :=
  let '(confirms, tr) := SendTracker.sweep status (sends a) in
  set_outbound (set_sends a tr) (foldl (fun o n => push_frame o (Wire.frame n)) (outbound a) confirms).

(** The capture task, on one received frame. *)
Definition capture_frame (id : Wire.RequestId) (f : Radio.RxFrame) (a : App) : App :=
  set_outbound a (push_frame (outbound a)
    (Wire.event_frame (Wire.EventCapturedPacket (Wire.mkCapturedPacket (Radio.rx_channel f) (Radio.rssi f) (Radio.lqi f) (Radio.rx_psdu f))) id)).

Definition emit_hello (is_configured : bool) (a : App) : App :=
  set_outbound a (push_frame (outbound a) (Wire.frame (Wire.Hello (Wire.mkHello Wire.PROTOCOL_VERSION is_configured)))).

Definition emit_last_reset (message : bytes) (a : App) : App :=
  set_outbound a (push_frame (outbound a) (Wire.frame (Wire.LastReset (Wire.mkLastReset (take 255 message))))).
End Ncp.
End Ncp.
