(* ===== verification/NcpFacts.v ===== *)
(** * Properties of the firmware's control surface

    The firmware is a control surface: [dispatch] refines the life cycle, and every frame is answered
    once. *)

From S2P Require Import Prelude Effects Flat Types Constants AbstractBits Mac.
From S2P Require Import SendTypes Sends NwkFrame ApsFrame ApsSecurity Crypto Stack Radio StackSend StackAps StackJoin StackRun StackRadio.
From S2P Require Import Wire SendTracker Bridge Surface Ncp.

Module NcpFacts.
Import Ncp Surface.

(** What went into the outbound queue and was not evicted from it. *)
Definition output (o : Outbound) : list bytes := drained o ++ queue o.

Lemma output_send o f : output (send_outbound o f) = output o ++ [f].
Proof.
  unfold output, send_outbound. destruct (Nat.ltb_spec (length (queue o)) OUTBOUND_DEPTH) as [Hlt|Hge]; cbn; [by rewrite app_assoc|].
  destruct (queue o) as [|x q]; [cbn in Hge; unfold OUTBOUND_DEPTH in Hge; lia|]. cbn. by rewrite <- !app_assoc.
Qed.

#[export] Instance ncp_surface R : Surface (App (R:=R)) := {|
  phase a := match stack a with None => Unconfigured | Some _ => if started a then Running else Loading end;
  written a := output (outbound a)
|}.

Section Ncp.
Context `{!ApsFrame.ApsCodecs, !AbstractBits NwkFrame.NwkSecurityHeaderControlField, !Ccm, !BlockCipher, !Wire.WireCodecs}.
Context `{!AbstractBits Mac.FrameControl, !AbstractBits Mac.SuperframeSpecification, !AbstractBits Mac.AssociationRequestCommand}.
Context `{!AbstractBits Mac.AssociationResponseCommand, !AbstractBits Mac.DisassociationNotificationCommand}.
Context {R : Type} `{!Radio.RadioPhy R} (w : World) (id : Wire.RequestId).
Implicit Types (a : App (R:=R)).

Lemma phase_state a f : phase (set_stack a (f <$> stack a)) = phase a.
Proof. cbn. by destruct (stack a). Qed.

Lemma streaming_guard g : streaming (is_event id) (guard (R:=R) g).
Proof. apply streaming_quiet. by intros a r a' [= _ <-]. Qed.
Lemma streaming_put_state s : streaming (is_event id) (put_state (R:=R) s).
Proof. apply streaming_modify. intros a. by rewrite phase_state. Qed.
Lemma streaming_put_tunables x : streaming (is_event id) (put_tunables (R:=R) x).
Proof. apply streaming_modify. intros a. by rewrite phase_state. Qed.
Lemma streaming_call {A} n (m : eff R Stack.RadioError A) : streaming (is_event id) (call w n m).
Proof.
  apply streaming_quiet. intros a r a' ([x r'] & _ & [= _ <-])%bind_ok. unfold waited. cbn [started set_phy].
  destruct (started a) eqn:Hs; [|done]. by rewrite phase_state.
Qed.
Lemma streaming_on_phy {A} n st (m : eff R Stack.RadioError A) : streaming (is_event id) (on_phy w n st m).
Proof. apply streaming_map_err, streaming_call. Qed.
Lemma streaming_on_stack {A} (f : Stack.t -> may (A * Stack.t)) : streaming (is_event id) (on_stack (R:=R) f).
Proof.
  apply streaming_quiet. intros a r a'. unfold on_stack. cbn. destruct (stack a) as [l|] eqn:Hl; [|by intros [= _ <-]; rewrite Hl].
  by intros ([x s] & _ & [= _ <-])%bind_ok.
Qed.
Lemma streaming_lift_reply {A} (r : A + Wire.Error) : streaming (is_event id) (lift_reply (R:=R) r).
Proof. apply streaming_lift. Qed.
Lemma streaming_event ev : streaming (is_event id) (send_event (R:=R) id ev).
Proof.
  intros a. apply eff_post_modify. split; [done|]. destruct (Wire.event_frame ev id) as [f|] eqn:Hf.
  - exists [f]. split; [apply output_send|]. apply Forall_singleton. by exists ev.
  - exists []. split; [apply eq_sym, app_nil_r|constructor].
Qed.
Lemma streaming_track h kind : streaming (is_event id) (track_send (R:=R) id h kind).
Proof. by apply streaming_modify. Qed.
Lemma streaming_stop : streaming (is_event id) (stop_capture (R:=R)).
Proof. by apply streaming_modify. Qed.
End Ncp.

#[export] Hint Resolve streaming_guard streaming_put_state streaming_put_tunables streaming_call streaming_on_phy streaming_on_stack
  streaming_lift_reply streaming_event streaming_track streaming_stop : streaming.

Section Handlers.
Context `{!ApsFrame.ApsCodecs, !AbstractBits NwkFrame.NwkSecurityHeaderControlField, !Ccm, !BlockCipher, !Wire.WireCodecs}.
Context `{!AbstractBits Mac.FrameControl, !AbstractBits Mac.SuperframeSpecification, !AbstractBits Mac.AssociationRequestCommand}.
Context `{!AbstractBits Mac.AssociationResponseCommand, !AbstractBits Mac.DisassociationNotificationCommand}.
Context {R : Type} `{!Radio.RadioPhy R} (w : World) (id : Wire.RequestId).
Implicit Types (a : App (R:=R)).

Lemma streaming_events evs : streaming (is_event id) (send_events (R:=R) id evs).
Proof. induction evs as [|ev evs IH]; cbn; stream. Qed.
Lemma load_streams f : streaming (is_event id) (load (R:=R) f).
Proof. unfold load. stream. Qed.
Lemma scan_table_streams snapshot : streaming (is_event id) (scan_table (R:=R) id snapshot).
Proof. unfold scan_table. apply streaming_bind; [stream|]. intros l. apply streaming_bind; [apply streaming_events|intros ?; stream]. Qed.
Lemma send_unicast_streams p : streaming (is_event id) (send_unicast (R:=R) w id p).
Proof. unfold send_unicast. stream. Qed.
Lemma send_tracked_streams send : streaming (is_event id) (send_tracked (R:=R) w id send).
Proof. unfold send_tracked. stream. Qed.
Lemma update_streams f : streaming (is_event id) (update (R:=R) w f).
Proof. unfold update. stream. Qed.
Lemma set_channel_streams p : streaming (is_event id) (handle_set_channel (R:=R) w p).
Proof. unfold handle_set_channel. stream. Qed.
Lemma energy_scan_streams duration n channels : streaming (is_event id) (energy_scan (R:=R) w id duration n channels).
Proof. revert n. induction channels as [|c channels IH]; intros n; cbn; [stream|]. apply streaming_bind; [stream|]. intros rssi. apply streaming_bind; [stream|auto]. Qed.
Lemma network_scan_streams p : streaming (is_event id) (handle_network_scan (R:=R) w id p).
Proof.
  unfold handle_network_scan. apply streaming_bind; [stream|]. intros l. cbv zeta. do 2 (apply streaming_bind; [stream|intros ?]).
  apply streaming_bind; [stream|]. intros result. apply streaming_bind; [stream|]. intros _. apply streaming_bind; [|intros _; destruct result; stream].
  unfold drain_beacons. apply streaming_bind; [stream|]. intros batch. apply streaming_events.
Qed.
Lemma packet_capture_streams p : streaming (is_event id) (handle_packet_capture (R:=R) w p).
Proof. unfold handle_packet_capture. apply streaming_bind; [stream|]. intros _. apply streaming_bind; [by apply streaming_modify|intros _; stream]. Qed.
Lemma capture_channel_streams p : streaming (is_event id) (handle_packet_capture_channel (R:=R) w p).
Proof. unfold handle_packet_capture_channel. stream. Qed.
Lemma set_tunable_streams p : streaming (is_event id) (handle_set_tunable (R:=R) p).
Proof. unfold handle_set_tunable. stream. Qed.
Lemma cancel_streams p : streaming (is_event id) (handle_cancel (R:=R) w p).
Proof. unfold handle_cancel. stream. Qed.

(** ** The whole dispatch *)

(** A request the phase refuses changes nothing. *)
Lemma refused request a st :
  refusal (phase a) (demand_of request) = Some st -> dispatch w id request a = Ok (Replied (inr (Wire.ErrorStatus st)), a).
Proof. destruct a as [r [l|] [|] c tr o], request; try done; by intros [= <-]. Qed.

Lemma shutdown_ends a r a' :
  handle_shutdown w a = Ok (r, a') -> phase a' = Unconfigured /\ output (outbound a') = output (outbound a).
Proof.
  unfold handle_shutdown, on_phy, map_err, call. cbv beta delta [mbind eff_bind modify stop_capture]. cbn [mbind res_bind].
  intros ([x a1] & Hx & Hr)%bind_ok. apply bind_ok in Hx as ([y a2] & Hy & [= <- <-]). apply bind_ok in Hy as ([z r'] & _ & [= <- <-]).
  by destruct z; injection Hr as _ <-.
Qed.

Lemma configure_loads p a r a' :
  handle_configure w p a = Ok (r, a') -> r = inl Wire.Empty /\ phase a' = Loading /\ output (outbound a') = output (outbound a).
Proof. by intros [= <- <-]. Qed.

Lemma start_runs a r a' :
  handle_start_network w a = Ok (r, a') -> refusal (phase a) ALoadWindow = None ->
  phase a' = match r with inl _ => Running | inr _ => phase a end /\ output (outbound a') = output (outbound a).
Proof.
  unfold handle_start_network. cbn [phase ncp_surface]. cbv beta delta [mbind eff_bind guard loadable]. cbn [mbind res_bind].
  destruct (stack a) as [l|] eqn:Hl; [|done]. destruct (started a) eqn:Hs; [done|]. intros Hr _. cbn [mbind res_bind] in Hr.
  apply bind_ok in Hr as ([x a1] & Hx & Hr). apply bind_ok in Hx as ([y a2] & Hy & [= <- <-]). apply bind_ok in Hy as ([z [s r']] & _ & [= <- <-]).
  destruct z; injection Hr as <- <-; cbn; by rewrite ?Hs.
Qed.

(** Whether a request succeeded. *)
Definition succeeded (outcome : Outcome) : bool := match outcome with Replied (inl _) => true | _ => false end.

Lemma dispatch_spec request a outcome a' :
  dispatch w id request a = Ok (outcome, a') -> refusal (phase a) (demand_of request) = None ->
  phase a' = next_phase (phase a) request (succeeded outcome) /\ emits (is_event id) a a'.
Proof.
  intros Hd Hok.
  assert (forall m : eff (App (R:=R)) Wire.Error Wire.Response, streaming (is_event id) m -> replied m a = Ok (outcome, a') ->
    phase a' = phase a /\ emits (is_event id) a a') as Hstream.
  { intros m Hm (r & Hr)%bind_ok. destruct r as [r a1], Hr as [Hr [= _ <-]]. exact (Hm a r a1 Hr). }
  assert (output (outbound a') = output (outbound a) -> emits (is_event id) a a') as Hsilent.
  { intros Ho. exists []. split; [|constructor]. cbn [written ncp_surface]. by rewrite Ho, app_nil_r. }
  destruct request; cbn [dispatch next_phase] in *;
    try (apply Hstream in Hd; [done|]; eauto using streaming_ret, load_streams, scan_table_streams, send_unicast_streams, send_tracked_streams,
      update_streams, set_channel_streams, energy_scan_streams, network_scan_streams, packet_capture_streams, capture_channel_streams,
      set_tunable_streams, cancel_streams; stream; done).
  - unfold handle_reset in Hd. destruct (Wire.hard p); injection Hd as <- <-; auto.
  - apply bind_ok in Hd as ([r a1] & Hr & [= <- <-]). apply shutdown_ends in Hr as [Hp Hw]. auto.
  - apply bind_ok in Hd as ([r a1] & Hr & [= <- <-]). apply configure_loads in Hr as (-> & Hp & Hw). auto.
  - apply bind_ok in Hd as ([r a1] & Hr & [= <- <-]). apply start_runs in Hr as [Hp Hw]; [|done]. split; [by destruct r|auto].
Qed.

(** ** A request that is not refused is carried out *)

(** What a request that its phase does not refuse answers: a send, a tunable and a start answer what
    the driver makes of them on the stack there is; what works on the radio may fail with the status
    of a radio failure; every other request succeeds. *)
Definition carried_out (request : Wire.Request) a (r : Wire.Response + Wire.Error) : Prop :=
  match request, stack a with
  | Wire.SendUnicast p, Some l => exists x s, Bridge.send_unicast (env_of w l) (state l) p = Ok (x, s) /\
      r = match x with inl sent => inl (Wire.SendUnicastResult sent.2) | inr e => inr e end
  | Wire.SendBroadcast p, Some l => exists x s, Bridge.send_broadcast (env_of w l) (state l) p = Ok (x, s) /\
      r = match x with inl _ => inl Wire.Empty | inr e => inr e end
  | Wire.SendGroupcast p, Some l => exists x s, Bridge.send_groupcast (env_of w l) (state l) p = Ok (x, s) /\
      r = match x with inl _ => inl Wire.Empty | inr e => inr e end
  | Wire.SetTunable p, Some l => r = match Bridge.set_tunable (tun l) p with inl _ => inl Wire.Empty | inr e => inr e end
  | Wire.StartNetwork, Some l => exists x s,
      StackRadio.start_network (env_of w l) (Bridge.sv_tx_power (saved l)) (others w 0) (state l, phy a) = Ok (x, s) /\
      r = match x with inl _ => inl Wire.Empty | inr _ => inr (Wire.ErrorStatus Wire.NetworkStartFailed) end
  | (Wire.Shutdown | Wire.SetChannel _ | Wire.EnergyScan _ | Wire.NetworkScan _ | Wire.PacketCapture _ | Wire.PacketCaptureChannel _), _ =>
      match r with inl _ => True | inr e => radio_failure e end
  | _, _ => is_ok r = true
  end.

Section Accepted.
Context (ph : Phase).

Lemma fails_on_phy {A} n st (m : eff R Stack.RadioError A) (P : Wire.Error -> Prop) : P (Wire.ErrorStatus st) -> fails_with ph P (on_phy w n st m).
Proof.
  intros HP. apply (fails_streaming ph (is_event id)); [stream|]. intros a e a'. unfold on_phy, map_err. intros ([x a1] & _ & Hk)%bind_ok.
  destruct x; [done|]. by injection Hk as <- _.
Qed.
Lemma fails_attempt_call {A} n (m : eff R Stack.RadioError A) (P : Wire.Error -> Prop) : fails_with ph P (attempt (call w n m)).
Proof. apply (fails_streaming ph (is_event id)); [stream|]. intros a e a' ([x a1] & _ & Hk)%bind_ok. done. Qed.
Lemma fails_event ev (P : Wire.Error -> Prop) : fails_with ph P (send_event (R:=R) id ev).
Proof. apply (fails_streaming ph (is_event id)); [stream|]. done. Qed.
Lemma fails_events evs (P : Wire.Error -> Prop) : fails_with ph P (send_events (R:=R) id evs).
Proof. induction evs as [|ev evs IH]; cbn [send_events]; [apply fails_ret|]. apply fails_bind; [apply fails_event|intros _; exact IH]. Qed.
Lemma fails_put_state s (P : Wire.Error -> Prop) : fails_with ph P (put_state (R:=R) s).
Proof. apply (fails_streaming ph (is_event id)); [stream|]. done. Qed.
Lemma fails_on_stack {A} (f : Stack.t -> may (A * Stack.t)) (P : Wire.Error -> Prop) : ph <> Unconfigured -> fails_with ph P (on_stack (R:=R) f).
Proof.
  intros Hne a Ha r a' Hr. destruct (streaming_on_stack id f a r a' Hr) as [Hp _]. split; [congruence|]. unfold on_stack in Hr. cbn in Ha.
  destruct (stack a) as [l|]; [|congruence]. apply bind_ok in Hr as ([x s] & _ & [= <- _]). done.
Qed.
Lemma fails_guard g (P : Wire.Error -> Prop) : (forall a, phase a = ph -> is_ok (g a) = true) -> fails_with ph P (guard (R:=R) g).
Proof. intros Hg a Ha r a' [= <- <-]. split; [done|]. specialize (Hg a Ha). by destruct (g a). Qed.
End Accepted.
#[local] Hint Resolve fails_on_phy fails_attempt_call fails_event fails_events fails_put_state fails_on_stack : failing.

Lemma fails_configured ph (P : Wire.Error -> Prop) : refusal ph AStack = None -> fails_with ph P (guard (R:=R) configured).
Proof. intros Hr. apply fails_guard. intros a <-. cbn in Hr. unfold configured. by destruct (stack a). Qed.
Lemma fails_loadable ph (P : Wire.Error -> Prop) : refusal ph ALoadWindow = None -> fails_with ph P (guard (R:=R) loadable).
Proof. intros Hr. apply fails_guard. intros a <-. cbn in Hr. unfold loadable. destruct (stack a); [|done]. by destruct (started a). Qed.
Lemma fails_running ph (P : Wire.Error -> Prop) : refusal ph ANetwork = None -> fails_with ph P (guard (R:=R) running).
Proof. intros Hr. apply fails_guard. intros a <-. cbn in Hr. unfold running. destruct (stack a); [|done]. by destruct (started a). Qed.
#[local] Hint Resolve fails_configured fails_loadable fails_running : failing.

Lemma network_not_unconfigured ph : refusal ph ANetwork = None -> ph <> Unconfigured.
Proof. by destruct ph. Qed.
#[local] Hint Resolve network_not_unconfigured : failing.

Lemma load_accepted ph f : refusal ph ALoadWindow = None -> fails_with ph (fun _ => False) (load (R:=R) f).
Proof. intros Hr. unfold load. failing. Qed.
Lemma scan_table_accepted ph snapshot : refusal ph AStack = None -> fails_with ph (fun _ => False) (scan_table (R:=R) id snapshot).
Proof. intros Hr. unfold scan_table. failing. Qed.
Lemma update_accepted ph f : refusal ph ANetwork = None -> fails_with ph (fun _ => False) (update (R:=R) w f).
Proof. intros Hr. unfold update. failing. Qed.
Lemma cancel_accepted ph p : refusal ph ANetwork = None -> fails_with ph (fun _ => False) (handle_cancel (R:=R) w p).
Proof. intros Hr. unfold handle_cancel. failing. Qed.
Lemma set_channel_accepted ph p : refusal ph ANetwork = None -> fails_with ph radio_failure (handle_set_channel (R:=R) w p).
Proof. intros Hr. unfold handle_set_channel. failing. apply fails_on_phy. by left. Qed.
Lemma energy_scan_accepted ph duration n channels : fails_with ph radio_failure (energy_scan (R:=R) w id duration n channels).
Proof.
  revert n. induction channels as [|c channels IH]; intros n; cbn [energy_scan]; [apply fails_ret|].
  apply fails_bind; [apply fails_on_phy; by right|]. intros rssi. apply fails_bind; [apply fails_event|intros _; apply IH].
Qed.
Lemma network_scan_accepted ph p : refusal ph ANetwork = None -> fails_with ph radio_failure (handle_network_scan (R:=R) w id p).
Proof.
  intros Hr. unfold handle_network_scan, drain_beacons, reply_status. failing. apply fails_raise. by right.
Qed.
Lemma capture_accepted ph p : fails_with ph radio_failure (handle_packet_capture (R:=R) w p).
Proof. unfold handle_packet_capture. apply fails_bind; [apply fails_on_phy; by left|]. intros _. apply fails_bind; [by apply fails_modify|intros _; apply fails_ret]. Qed.
Lemma capture_channel_accepted ph p : fails_with ph radio_failure (handle_packet_capture_channel (R:=R) w p).
Proof. unfold handle_packet_capture_channel. failing. apply fails_on_phy. by left. Qed.

Lemma sure_replied (m : eff (App (R:=R)) Wire.Error Wire.Response) a outcome a' :
  fails_with (phase a) (fun _ => False) m -> replied m a = Ok (outcome, a') -> exists r, outcome = Replied r /\ is_ok r = true.
Proof.
  intros Hm ([r a1] & Hr & [= <- _])%bind_ok. destruct (Hm a eq_refl r a1 Hr) as [_ He]. exists r. by destruct r.
Qed.
Lemma radio_replied (m : eff (App (R:=R)) Wire.Error Wire.Response) a outcome a' :
  fails_with (phase a) radio_failure m -> replied m a = Ok (outcome, a') ->
  exists r, outcome = Replied r /\ match r with inl _ => True | inr e => radio_failure e end.
Proof. intros Hm ([r a1] & Hr & [= <- _])%bind_ok. destruct (Hm a eq_refl r a1 Hr) as [_ He]. by exists r. Qed.

Lemma network_up a : refusal (phase a) ANetwork = None -> exists l, stack a = Some l /\ started a = true.
Proof. cbn. destruct (stack a) as [l|]; [|done]. destruct (started a); [|done]. by exists l. Qed.
Lemma window_open a : refusal (phase a) ALoadWindow = None -> exists l, stack a = Some l /\ started a = false.
Proof. cbn. destruct (stack a) as [l|]; [|done]. destruct (started a); [done|]. by exists l. Qed.
Lemma stack_there a : refusal (phase a) AStack = None -> exists l, stack a = Some l.
Proof. cbn. destruct (stack a) as [l|]; [|done]. by exists l. Qed.

(** A step on a stack that is there. *)
Lemma on_stack_some {A} (f : Stack.t -> may (A * Stack.t)) a l :
  stack a = Some l -> on_stack f a = '(x, s) ← f (state l); Ok (inl x, set_stack a (Some (set_state l s))).
Proof. intros Hl. unfold on_stack. by rewrite Hl. Qed.

Lemma unicast_answer p a r a' l :
  stack a = Some l -> started a = true -> send_unicast w id p a = Ok (r, a') ->
  exists x s, Bridge.send_unicast (env_of w l) (state l) p = Ok (x, s) /\ r = match x with inl sent => inl (Wire.SendUnicastResult sent.2) | inr e => inr e end.
Proof.
  intros Hl Hs. unfold send_unicast. rewrite (eff_next _ _ a l a) by (unfold guard, running; by rewrite Hl, Hs).
  intros ([x a1] & Hx & Hk)%bind_ok. rewrite (on_stack_some _ a l Hl) in Hx. apply bind_ok in Hx as ([y s] & Hy & [= <- <-]).
  exists y, s. split; [done|]. destruct y; by injection Hk as <- _.
Qed.
Lemma tracked_answer snd a r a' l :
  stack a = Some l -> started a = true -> send_tracked w id snd a = Ok (r, a') ->
  exists x s, snd (env_of w l) (state l) = Ok (x, s) /\ r = match x with inl _ => inl Wire.Empty | inr e => inr e end.
Proof.
  intros Hl Hs. unfold send_tracked. rewrite (eff_next _ _ a l a) by (unfold guard, running; by rewrite Hl, Hs).
  intros ([x a1] & Hx & Hk)%bind_ok. rewrite (on_stack_some _ a l Hl) in Hx. apply bind_ok in Hx as ([y s] & Hy & [= <- <-]).
  exists y, s. split; [done|]. destruct y; by injection Hk as <- _.
Qed.
Lemma start_answer a r a' l :
  stack a = Some l -> started a = false -> handle_start_network w a = Ok (r, a') ->
  exists x s, StackRadio.start_network (env_of w l) (Bridge.sv_tx_power (saved l)) (others w 0) (state l, phy a) = Ok (x, s) /\
    r = match x with inl _ => inl Wire.Empty | inr _ => inr (Wire.ErrorStatus Wire.NetworkStartFailed) end.
Proof.
  intros Hl Hs. unfold handle_start_network. rewrite (eff_next _ _ a l a) by (unfold guard, loadable; by rewrite Hl, Hs).
  intros ([x a1] & Hx & Hk)%bind_ok. apply bind_ok in Hx as ([y a2] & Hy & [= <- <-]). apply bind_ok in Hy as ([z s] & Hz & [= <- <-]).
  exists z, s. split; [done|]. destruct z; by injection Hk as <- _.
Qed.
Lemma tunable_answer p a r a' l :
  stack a = Some l -> handle_set_tunable p a = Ok (r, a') -> r = match Bridge.set_tunable (tun l) p with inl _ => inl Wire.Empty | inr e => inr e end.
Proof.
  intros Hl. unfold handle_set_tunable. rewrite (eff_next _ _ a l a) by (unfold guard, configured; by rewrite Hl).
  destruct (Bridge.set_tunable (tun l) p); by intros [= <- _].
Qed.

Lemma shutdown_answer a r a' : handle_shutdown w a = Ok (r, a') -> match r with inl _ => True | inr e => radio_failure e end.
Proof.
  intros Hr. assert (eff_post (handle_shutdown w) a (fun r _ => match r with inl _ => True | inr e => radio_failure e end)) as Hp; [|exact (Hp r a' Hr)].
  apply eff_post_bind, eff_post_modify, eff_post_bind, eff_post_modify.
  match goal with |- eff_post ?m ?a0 _ => assert (fails_with (phase a0) radio_failure m) as Hf by (apply fails_bind; [apply fails_on_phy; by left|intros ?; apply fails_ret]) end.
  eapply eff_post_weaken; [by apply Hf|]. by intros r0 a0 [_ ?].
Qed.
Lemma info_accepted ph : refusal ph AStack = None ->
  fails_with ph (fun _ => False) (l ← guard (R:=R) configured; up ← gets started; mret (Wire.NetworkInfo (Bridge.network_info_payload (cfg l) (saved l) (state l) up))).
Proof. intros Hr. failing. Qed.

Lemma dispatch_carried_out request a outcome a' :
  dispatch w id request a = Ok (outcome, a') -> refusal (phase a) (demand_of request) = None ->
  match outcome with Replied r => carried_out request a r | Rebooted => exists p, request = Wire.Reset p /\ Wire.hard p = true end.
Proof.
  intros Hd Hok.
  assert (forall m : eff (App (R:=R)) Wire.Error Wire.Response, replied m a = Ok (outcome, a') -> exists r, outcome = Replied r /\ m a = Ok (r, a')) as Hrep.
  { intros m ([r a1] & Hr & [= <- <-])%bind_ok. by exists r. }
  destruct request; cbn [dispatch demand_of] in *; unfold carried_out;
    try (destruct (sure_replied _ _ _ _ (load_accepted _ _ Hok) Hd) as (r & -> & Hsure); by destruct (stack a));
    try (destruct (sure_replied _ _ _ _ (scan_table_accepted _ _ Hok) Hd) as (r & -> & Hsure); by destruct (stack a));
    try (destruct (sure_replied _ _ _ _ (update_accepted _ _ Hok) Hd) as (r & -> & Hsure); by destruct (stack a));
    try (destruct (sure_replied _ _ _ _ (fails_ret _ _ _) Hd) as (r & -> & Hsure); by destruct (stack a)).
  - unfold handle_reset in Hd. destruct (Wire.hard p) eqn:Hh; injection Hd as <- _; [by exists p|by destruct (stack a)].
  - apply Hrep in Hd as (r & -> & Hr). by eapply shutdown_answer.
  - apply Hrep in Hd as (r & -> & Hr). destruct (window_open a Hok) as (l & Hl & Hs). rewrite Hl. by eapply start_answer.
  - destruct (sure_replied _ _ _ _ (info_accepted _ Hok) Hd) as (r & -> & Hsure). by destruct (stack a).
  - apply Hrep in Hd as (r & -> & Hr). destruct (network_up a Hok) as (l & Hl & Hs). rewrite Hl. by eapply unicast_answer.
  - apply Hrep in Hd as (r & -> & Hr). destruct (network_up a Hok) as (l & Hl & Hs). rewrite Hl. by eapply (tracked_answer (fun e s => Bridge.send_broadcast e s p)).
  - apply Hrep in Hd as (r & -> & Hr). destruct (network_up a Hok) as (l & Hl & Hs). rewrite Hl. by eapply (tracked_answer (fun e s => Bridge.send_groupcast e s p)).
  - by destruct (radio_replied _ _ _ _ (set_channel_accepted _ _ Hok) Hd) as (r & -> & He).
  - by destruct (radio_replied _ _ _ _ (energy_scan_accepted _ _ _ _) Hd) as (r & -> & He).
  - by destruct (radio_replied _ _ _ _ (network_scan_accepted _ _ Hok) Hd) as (r & -> & He).
  - by destruct (radio_replied _ _ _ _ (capture_accepted _ _) Hd) as (r & -> & He).
  - by destruct (radio_replied _ _ _ _ (capture_channel_accepted _ _) Hd) as (r & -> & He).
  - apply Hrep in Hd as (r & -> & Hr). destruct (stack_there a Hok) as (l & Hl). rewrite Hl. by eapply tunable_answer.
  - destruct (sure_replied _ _ _ _ (cancel_accepted _ _ Hok) Hd) as (r & -> & Hsure). by destruct (stack a).
Qed.

(** C20: the firmware keeps its life cycle: a request is refused, with the status the life cycle gives
    and nothing changed, exactly when it needs a stack that is not configured, a load window that is
    over or a network that is not up. A request that is not refused is carried out: a send, a tunable
    and [start_network] answer what the driver makes of them on the configured stack, a request that
    works on the radio fails only with the status of a radio failure, a hard reset reboots and every
    other request succeeds; and the firmware ends in the phase the life cycle names: [configure]
    opens the load window whatever was there, [start_network] ends it only when it succeeds,
    [shutdown] always leaves nothing configured, and no other request changes the phase. *)
Theorem lifecycle_refined request a outcome a' :
  dispatch w id request a = Ok (outcome, a') ->
  match refusal (phase a) (demand_of request) with
  | Some st => outcome = Replied (inr (Wire.ErrorStatus st)) /\ a' = a
  | None => phase a' = next_phase (phase a) request (succeeded outcome) /\
      match outcome with Replied r => carried_out request a r | Rebooted => exists p, request = Wire.Reset p /\ Wire.hard p = true end
  end.
Proof.
  intros Hd. destruct (refusal (phase a) (demand_of request)) as [st|] eqn:Hr.
  - rewrite (refused request a st Hr) in Hd. by injection Hd as <- <-.
  - split; [by eapply dispatch_spec|]. by eapply dispatch_carried_out.
Qed.

Lemma dispatch_emits request a outcome a' : dispatch w id request a = Ok (outcome, a') -> emits (is_event id) a a'.
Proof.
  intros Hd. destruct (refusal (phase a) (demand_of request)) as [st|] eqn:Hr; [|by eapply dispatch_spec].
  rewrite (refused request a st Hr) in Hd. by injection Hd as _ <-.
Qed.
End Handlers.

Section Frames.
Context `{!ApsFrame.ApsCodecs, !AbstractBits NwkFrame.NwkSecurityHeaderControlField, !Ccm, !BlockCipher, !Wire.WireCodecs}.
Context `{!AbstractBits Mac.FrameControl, !AbstractBits Mac.SuperframeSpecification, !AbstractBits Mac.AssociationRequestCommand}.
Context `{!AbstractBits Mac.AssociationResponseCommand, !AbstractBits Mac.DisassociationNotificationCommand}.
Context {R : Type} `{!Radio.RadioPhy R} (w : World).
Implicit Types (a : App (R:=R)).

Lemma written_reply r h a : written (reply r h a) = written a ++ [reply_frame r h].
Proof. apply output_send. Qed.

(** C21: every request is answered exactly once: what handling a frame adds to the outbound stream is,
    in this order, events of that request and one reply, which is the response or the error for
    the command and the request id of its header; a frame too short for a header adds nothing and
    changes nothing. *)
Theorem one_reply_per_request bs a a' :
  handle_frame w bs a = Ok (Some a') ->
  match Wire.header_parse bs with
  | None => a' = a
  | Some (h, _) => exists evs r,
      written a' = written a ++ evs ++ [reply_frame r h] /\ Forall (is_event (Wire.request_id h)) evs
  end.
Proof.
  unfold handle_frame. destruct (Wire.header_parse bs) as [[h n]|]; [|by intros [= <-]].
  assert (forall r, reply r h a = a' -> exists evs r, written a' = written a ++ evs ++ [reply_frame r h] /\
    Forall (is_event (Wire.request_id h)) evs) as Hbare by (intros r <-; exists [], r; by rewrite written_reply).
  destruct (Wire.frame_type h); try by intros [= Ha]; eauto. destruct (parse_request h (drop n bs)) as [request|err]; [|by intros [= Ha]; eauto].
  intros ([outcome a1] & Hd & Ha)%bind_ok. destruct outcome as [r|]; [|done]. injection Ha as <-.
  destruct (dispatch_emits _ _ _ _ _ _ Hd) as (evs & He & Hf). exists evs, r. by rewrite written_reply, He, <- app_assoc.
Qed.

(** A frame that is pushed can evict one that waits in the queue, a reply as well as any other. *)
Lemma push_evicts_a_reply (reply frame : bytes) (rest : list bytes) :
  S (length rest) = OUTBOUND_DEPTH -> reply ∉ rest ++ [frame] ->
  reply ∈ output (mkOutbound [] (reply :: rest)) /\ reply ∉ output (push_outbound (mkOutbound [] (reply :: rest)) frame).
Proof.
  intros Hlen Hni. split; [apply elem_of_cons; by left|]. unfold push_outbound, output. cbn [queue drained length]. rewrite Hlen.
  by rewrite (proj2 (Nat.ltb_ge OUTBOUND_DEPTH OUTBOUND_DEPTH)) by lia.
Qed.
End Frames.
End NcpFacts.
