(* ===== verification/Server.v ===== *)
(** * The server: [src/crates/ziggurat-server/src/main.rs]

    The state of the server as one connection sees it. The read loop spawns a task for each request
    and reads on. At each wait of such a task, the tasks of the stack, the other requests and the
    read loop go on, which is what [others] does to the state at the n-th wait. A stack is shared by
    reference: it stays in the arena [stacks] for the requests that hold it after the server has
    replaced it. The listeners, the sockets and the writer tasks are left out; a connection is what
    it reads and what is put in its outbound queue. *)

From S2P Require Import Prelude Effects Flat Types Constants AbstractBits Mac Addresses Neighbors Routing.
From S2P Require Import SendTypes Sends NwkFrame ApsFrame ApsSecurity Crypto Stack Radio StackSend StackAps StackJoin StackRun StackRadio.
From S2P Require Import Wire SendTracker Bridge Ncp.

Module Server.
Import Stack StackSend StackAps StackJoin StackRun StackRadio.
Import Ncp(Live, mkLive, state, cfg, saved, tun, set_state, set_tunables, env_for, saved_of).

Definition OUTBOUND_QUEUE_DEPTH : nat := 1024.
Definition NOTIFICATION_HUB_DEPTH : nat := 1024.
Definition DEFAULT_TX_POWER : Z := 8.

Definition capture_config (channel : Z) : Radio.RadioConfig :=
  Radio.mkRadioConfig channel DEFAULT_TX_POWER 0xFFFF Bridge.NO_EUI64 0xFFFF true true [] [].

(** ** Byte streams *)

(** The [cobs] crate: consistent overhead byte stuffing. *)
Class Cobs := {
  cobs_encode : bytes -> bytes;
  cobs_decode : bytes -> option bytes
}.
Class CobsLaws `{!Cobs} := {
  cobs_round_trip f : is_bytes f -> cobs_decode (cobs_encode f) = Some f;
  cobs_no_zero f : is_bytes f -> Forall (fun b => b <> 0) (cobs_encode f);
  cobs_not_empty f : is_bytes f -> cobs_encode f <> []
}.

Section Stream.
Context `{!Cobs}.

(** What the writer task puts on the stream for a frame. *)
Definition write_frame (frame : bytes) : bytes := cobs_encode frame ++ [0].

(** The body of the read loop: the accumulator and the frames, if any, that the byte completes.
    Input that cannot be decoded is dropped. *)
Definition read_byte (accumulator : bytes) (byte : Z) : bytes * list bytes :=
  if negb (byte =? 0) then (accumulator ++ [byte], [])
  else
    match accumulator with
    | [] => ([], [])
    | _ => ([], option_list (cobs_decode accumulator))
    end.

(** One [read]. *)
Fixpoint read_chunk (accumulator chunk : bytes) : bytes * list bytes :=
  match chunk with
  | [] => (accumulator, [])
  | byte :: chunk =>
      let '(accumulator, frames) := read_byte accumulator byte in
      let '(accumulator, more) := read_chunk accumulator chunk in
      (accumulator, frames ++ more)
  end.

(** The reads of a connection until the end of the stream. *)
Fixpoint read_stream (accumulator : bytes) (chunks : list bytes) : bytes * list bytes :=
  match chunks with
  | [] => (accumulator, [])
  | chunk :: chunks =>
      let '(accumulator, frames) := read_chunk accumulator chunk in
      let '(accumulator, more) := read_stream accumulator chunks in
      (accumulator, frames ++ more)
  end.
End Stream.

(** ** Where to listen, and where the radio is *)

(** [text.strip_prefix(prefix)]. *)
Definition strip_prefix (prefix text : string) : option string :=
  if String.prefix prefix text then Some (String.substring (String.length prefix) (String.length text - String.length prefix) text) else None.

(** [run]. *)
Inductive Listener : Type := Unix (path : string) | Tcp (address : string).
Definition listener (listen_addr : string) : Listener :=
  match strip_prefix "unix:" listen_addr with Some path => Unix path | None => Tcp listen_addr end.

Inductive FlowControlMode : Type := Hardware | Software | NoFlowControl.
Record SerialConfig := mkSerialConfig { device : string; baudrate : Z; flow_control : FlowControlMode }.

(** [open_transport]: what it opens. *)
Inductive Transport : Type := Connection (address : string) | Port (config : SerialConfig).
Definition open_transport (serial : SerialConfig) : Transport :=
  let tcp_addr := match strip_prefix "tcp://" (device serial) with Some a => Some a | None => strip_prefix "socket://" (device serial) end in
  match tcp_addr with Some a => Connection a | None => Port serial end.

(** A request under its header, which becomes a task. *)
Abbreviation Task := (Wire.Header * Wire.Request)%type.

Section Server.
Context `{!ApsFrame.ApsCodecs, !AbstractBits NwkFrame.NwkSecurityHeaderControlField, !Ccm, !BlockCipher, !Wire.WireCodecs}.
Context `{!AbstractBits Mac.FrameControl, !AbstractBits Mac.SuperframeSpecification, !AbstractBits Mac.AssociationRequestCommand}.
Context `{!AbstractBits Mac.AssociationResponseCommand, !AbstractBits Mac.DisassociationNotificationCommand}.
Context {R : Type} `{!Radio.RadioPhy R} (hw_address : eff R RadioError Eui64).

(** [ZigguratServer], with the [Sends] and the outbound queue of the connection. The queue is never
    full for long: its sender waits, and the writer drains it. *)
Record Conn := mkConn {
  phy : option R;
  stacks : list Live;
  stack : option nat;
  started : bool;
  notification_forwarder : option nat;
  tracker : SendTracker.t;
  outbound : list bytes
}.
Definition set_phy (c : Conn) (x : option R) : Conn := mkConn x (stacks c) (stack c) (started c) (notification_forwarder c) (tracker c) (outbound c).
Definition set_stacks (c : Conn) (x : list Live) : Conn := mkConn (phy c) x (stack c) (started c) (notification_forwarder c) (tracker c) (outbound c).
Definition set_stack (c : Conn) (x : option nat) : Conn := mkConn (phy c) (stacks c) x (started c) (notification_forwarder c) (tracker c) (outbound c).
Definition set_started (c : Conn) (x : bool) : Conn := mkConn (phy c) (stacks c) (stack c) x (notification_forwarder c) (tracker c) (outbound c).
Definition set_forwarder (c : Conn) (x : option nat) : Conn := mkConn (phy c) (stacks c) (stack c) (started c) x (tracker c) (outbound c).
Definition set_tracker (c : Conn) (x : SendTracker.t) : Conn := mkConn (phy c) (stacks c) (stack c) (started c) (notification_forwarder c) x (outbound c).
Definition set_outbound (c : Conn) (x : list bytes) : Conn := mkConn (phy c) (stacks c) (stack c) (started c) (notification_forwarder c) (tracker c) x.

(** The clock and the draws of a request, the others at its waits, the tasks of a stack while it
    starts, and what opening the transport gives: the radio, or an I/O error. *)
Record World := mkWorld {
  clock : Env;
  others : nat -> Conn -> Conn;
  stack_tasks : t -> t;
  new_aps_counter : Z;
  transport : option R;
  version : bytes
}.

Abbreviation handler A := (eff Conn Wire.Error A).

(** ** Guards *)
Definition configured (c : Conn) : nat + Wire.Error :=
  match stack c with Some k => inl k | None => inr (Wire.ErrorStatus Wire.NotConfigured) end.

Definition loadable (c : Conn) : nat + Wire.Error :=
  match stack c with
  | Some k => if started c then inr (Wire.ErrorStatus Wire.AlreadyStarted) else inl k
  | None => inr (Wire.ErrorStatus Wire.NotConfigured)
  end.

Definition running (c : Conn) : nat + Wire.Error :=
  match stack c with
  | Some k => if started c then inl k else inr (Wire.ErrorStatus Wire.StatusNotStarted)
  | None => inr (Wire.ErrorStatus Wire.NotConfigured)
  end.

(** The stack a guard lets through, and the reference to it. *)
Definition guard (g : Conn -> nat + Wire.Error) : handler (nat * Live) := fun c =>
  match g c with
  | inr err => Ok (inr err, c)
  | inl k => l ← unwrap (stacks c !! k); Ok (inl (k, l), c)
  end.

(** ** Steps of the handlers *)
Definition send (frame : bytes) : handler unit := modify (fun c => set_outbound c (outbound c ++ [frame])).

Definition send_event (id : Wire.RequestId) (ev : Wire.Event) : handler unit :=
  match Wire.event_frame ev id with Some f => send f | None => mret tt end.

Fixpoint send_events (id : Wire.RequestId) (evs : list Wire.Event) : handler unit :=
  match evs with
  | [] => mret tt
  | ev :: evs => _ ← send_event id ev; send_events id evs
  end.

Definition lift_reply {A} (r : A + Wire.Error) : handler A := match r with inl x => mret x | inr err => raise err end.

(** An update of a stack that is held. *)
Definition on_live (k : nat) (f : Live -> Live) : handler unit := modify (fun c => set_stacks c (alter f k (stacks c))).

(** A call on a stack that is held. *)
Definition on_stack {A} (k : nat) (f : t -> may (A * t)) : handler A := fun c =>
  l ← unwrap (stacks c !! k);
  '(x, s) ← f (state l);
  Ok (inl x, set_stacks c (alter (fun l => set_state l s) k (stacks c))).

Definition register_send (id : Wire.RequestId) (tracked : Handle * SendTracker.ConfirmKind) : handler unit :=
  modify (fun c => set_tracker c (SendTracker.insert (tracker c) id tracked.1 tracked.2)).

Section Handlers.
Context (w : World).

Definition wait (n : nat) : handler unit := modify (others w n).

(** [phy()]: the radio link, opened on first use. *)
Definition open_phy : handler unit := fun c =>
  match phy c, transport w with
  | Some _, _ => Ok (inl tt, c)
  | None, Some r => Ok (inl tt, set_phy c (Some r))
  | None, None => Ok (inr (Wire.ErrorStatus Wire.StatusRadioError), c)
  end.

(** A call on the radio link, with the wait for its answer. *)
Definition call {A} (n : nat) (m : eff R RadioError A) : handler (A + RadioError) := fun c =>
  r ← unwrap (phy c);
  '(x, r) ← m r;
  Ok (inl x, others w n (set_phy c (Some r))).

Definition or_status {A} (st : Wire.Status) (r : A + RadioError) : handler A :=
  match r with inl x => mret x | inr _ => raise (Wire.ErrorStatus st) end.

(** [.await.map_err(radio_error)?]. *)
Definition on_phy {A} (n : nat) (st : Wire.Status) (m : eff R RadioError A) : handler A := r ← call n m; or_status st r.

(** ** Handlers *)
Definition handle_reset (p : Wire.ResetPayload) : handler Wire.Response :=
  if Wire.hard p then
    _ ← open_phy;
    _ ← on_phy 0 Wire.StatusRadioError Radio.reset;
    mret Wire.Empty
  else mret Wire.Empty.

Definition handle_get_hw_address : handler Wire.Response :=
  _ ← open_phy;
  ieee ← on_phy 0 Wire.StatusRadioError hw_address;
  mret (Wire.HwAddress (Wire.mkHwAddress ieee)).

(** The sends of the stopped stack are cancelled. *)
Definition shut_down (k : nat) : handler unit := _ ← wait 0; on_live k (fun l => set_state l (abandon_sends (state l))).

Definition teardown_stack : handler unit :=
  old ← gets stack;
  _ ← modify (fun c => set_stack c None);
  _ ← match old with Some k => shut_down k | None => mret tt end;
  modify (fun c => set_started (set_forwarder c None) false).

Definition handle_shutdown : handler Wire.Response :=
  _ ← teardown_stack;
  _ ← open_phy;
  _ ← on_phy 1 Wire.StatusRadioError (Radio.set_frame_pending_table [] []);
  mret Wire.Empty.

Definition configured_stack (p : Wire.ConfigurePayload) : Live :=
  mkLive (Bridge.configure p Tunables.default (new_aps_counter w)) (state_config (Bridge.network_config p)) (saved_of p) Tunables.default.

Definition handle_configure (p : Wire.ConfigurePayload) : handler Wire.Response :=
  _ ← teardown_stack;
  _ ← wait 1;
  _ ← open_phy;
  _ ← modify (fun c => set_started (set_stack (set_stacks c (stacks c ++ [configured_stack p])) (Some (length (stacks c)))) false);
  mret Wire.Empty.

Definition start (k : nat) (l : Live) : handler (unit + RadioError) := fun c =>
  held ← unwrap (stacks c !! k);
  r ← unwrap (phy c);
  '(x, (s, r)) ← start_network (env_for (clock w) l) (Bridge.sv_tx_power (saved l)) (stack_tasks w) (state held, r);
  Ok (inl x, set_stacks (set_phy c (Some r)) (alter (fun l => set_state l s) k (stacks c))).

Definition handle_start_network : handler Wire.Response :=
  '(k, l) ← guard loadable;
  started ← start k l;
  _ ← wait 0;
  _ ← or_status Wire.NetworkStartFailed started;
  _ ← modify (fun c => set_started (set_forwarder c (Some k)) true);
  mret Wire.Empty.

Definition load (f : t -> t) : handler Wire.Response :=
  '(k, _) ← guard loadable;
  _ ← on_live k (fun l => set_state l (f (state l)));
  mret Wire.Empty.

Definition stream_scan (id : Wire.RequestId) (events : list Wire.Event) : handler Wire.Response :=
  _ ← send_events id events;
  mret (Wire.ScanCount (Wire.mkScanCount (Z.of_nat (length events) mod 2 ^ 16))).

Definition scan (id : Wire.RequestId) (snapshot : t -> list Wire.Event) : handler Wire.Response :=
  '(_, l) ← guard configured;
  stream_scan id (snapshot (state l)).

Definition send_unicast (id : Wire.RequestId) (p : Wire.SendUnicastPayload) : handler Wire.Response :=
  '(k, l) ← guard running;
  r ← on_stack k (fun s => Bridge.send_unicast (env_for (clock w) l) s p);
  sent ← lift_reply r;
  _ ← register_send id sent.1;
  mret (Wire.SendUnicastResult sent.2).

Definition send_tracked (id : Wire.RequestId) (send : Env -> t -> may (((Handle * SendTracker.ConfirmKind) + Wire.Error) * t)) : handler Wire.Response :=
  '(k, l) ← guard running;
  r ← on_stack k (send (env_for (clock w) l));
  sent ← lift_reply r;
  _ ← register_send id sent;
  mret Wire.Empty.

Definition update (f : Env -> t -> t) : handler Wire.Response :=
  '(k, l) ← guard running;
  _ ← on_live k (fun l => set_state l (f (env_for (clock w) l) (state l)));
  mret Wire.Empty.

Definition handle_set_channel (p : Wire.ChannelPayload) : handler Wire.Response :=
  '(k, _) ← guard running;
  _ ← on_phy 0 Wire.StatusRadioError (Radio.set_channel (Wire.cp_channel p));
  _ ← on_live k (fun l => set_state l (retuned (state l) (Wire.cp_channel p)));
  mret Wire.Empty.

Fixpoint energy_scan (id : Wire.RequestId) (duration : Duration) (n : nat) (channels : list Z) : handler Wire.Response :=
  match channels with
  | [] => mret Wire.Empty
  | c :: channels =>
      rssi ← on_phy n Wire.ScanFailed (Radio.energy_detect c duration);
      _ ← send_event id (Wire.EventEnergyResult (Wire.mkEnergyResult c rssi));
      energy_scan id duration (S n) channels
  end.

Definition handle_energy_scan (id : Wire.RequestId) (p : Wire.ScanRequestPayload) : handler Wire.Response :=
  _ ← open_phy;
  energy_scan id (Wire.duration_per_channel_ms p * 1000) 0 (Wire.channels p).

(** The scan and the loop that drains its beacons run side by side: the beacons leave in the order
    they were collected, as they do when they are drained at the end. *)
Definition handle_network_scan (id : Wire.RequestId) (p : Wire.ScanRequestPayload) : handler Wire.Response :=
  '(k, l) ← guard running;
  _ ← on_live k (fun l => set_state l (begin_network_scan (state l)));
  psdu ← on_stack k (fun s => beacon_request_psdu s);
  result ← call 0 (scan_radio psdu (Tunables.load (tun l) mac_max_csma_backoffs) (channel (mac (core (state l)))) (Wire.channels p));
  _ ← on_live k (fun l => set_state l (scan_ended (state l)));
  batch ← on_stack k (fun s => Ok (take_scan_beacons s));
  _ ← send_events id (Wire.EventBeacon ∘ Bridge.beacon_payload <$> default [] batch);
  _ ← or_status Wire.ScanFailed result;
  mret Wire.Empty.

(** The answer of both capture requests; the frames follow as events. *)
Definition handle_packet_capture (p : Wire.ChannelPayload) : handler Wire.Response :=
  _ ← open_phy;
  _ ← on_phy 0 Wire.StatusRadioError (Radio.reconfigure (capture_config (Wire.cp_channel p)));
  mret Wire.Empty.

Definition handle_set_tunable (p : Wire.SetTunablePayload) : handler Wire.Response :=
  '(k, l) ← guard configured;
  tunables ← lift_reply (Bridge.set_tunable (tun l) p);
  _ ← on_live k (fun l => set_tunables l tunables);
  mret Wire.Empty.

Definition handle_cancel (p : Wire.CancelRequestPayload) : handler Wire.Response :=
  '(k, l) ← guard running;
  tr ← gets tracker;
  result ← on_stack k (fun s => Bridge.cancel_request (env_for (clock w) l) s tr p);
  mret (Wire.CancelResult result).

(** ** Dispatch *)
Definition handle (id : Wire.RequestId) (request : Wire.Request) : handler Wire.Response :=
  match request with
  | Wire.Reset p => handle_reset p
  | Wire.GetFirmwareInfo => mret (Wire.FirmwareInfo (Wire.mkFirmwareInfo Wire.PROTOCOL_VERSION (version w)))
  | Wire.GetHwAddress => handle_get_hw_address
  | Wire.Shutdown => handle_shutdown
  | Wire.Configure p => handle_configure p
  | Wire.LoadKeyTable p => load (fun s => Bridge.apply_key_table s p)
  | Wire.LoadChildren p => load (fun s => Bridge.apply_children (now (clock w)) s p)
  | Wire.LoadAddressCache p => load (fun s => Bridge.apply_address_cache s p)
  | Wire.LoadRouteTable p => load (fun s => Bridge.apply_route_table s p)
  | Wire.LoadSourceRoutes p => load (fun s => Bridge.apply_source_routes s p)
  | Wire.StartNetwork => handle_start_network
  | Wire.GetNetworkInfo =>
      '(_, l) ← guard configured;
      running ← gets started;
      mret (Wire.NetworkInfo (Bridge.network_info_payload (cfg l) (saved l) (state l) running))
  | Wire.ScanKeyTable => scan id (fun s => Wire.EventKeyEntry <$> Bridge.key_entries s)
  | Wire.ScanChildren => scan id (fun s => Wire.EventChild <$> Bridge.child_entries s)
  | Wire.ScanAddressCache => scan id (fun s => Wire.EventAddress <$> Bridge.address_entries s)
  | Wire.ScanRouteTable => scan id (fun s => Wire.EventRoute <$> Bridge.route_entries s)
  | Wire.SendUnicast p => send_unicast id p
  | Wire.SendBroadcast p => send_tracked id (fun e s => Bridge.send_broadcast e s p)
  | Wire.SendGroupcast p => send_tracked id (fun e s => Bridge.send_groupcast e s p)
  | Wire.PermitJoins p => update (fun e s => permit_joins e s (Wire.pj_duration p) (Wire.accept_direct_joins p))
  | Wire.SetChannel p => handle_set_channel p
  | Wire.SetNwkUpdateId p => update (fun _ s => set_nwk_update_id s (Wire.up_nwk_update_id p))
  | Wire.SetProvisionalKey p => update (fun _ s => set_provisional_key s (Wire.pk_ieee p) (Wire.pk_key p))
  | Wire.EnergyScan p => handle_energy_scan id p
  | Wire.NetworkScan p => handle_network_scan id p
  | Wire.PacketCapture p | Wire.PacketCaptureChannel p => handle_packet_capture p
  | Wire.SetTunable p => handle_set_tunable p
  | Wire.CancelRequest p => handle_cancel p
  end.

Definition reply_to (h : Wire.Header) (r : Wire.Response + Wire.Error) (c : Conn) : Conn := set_outbound c (outbound c ++ [Ncp.reply_frame r h]).

(** The task that [dispatch] spawns, of a request under its header. *)
Definition run_task (task : Task) (c : Conn) : may Conn :=
  '(r, c) ← handle (Wire.request_id task.1) task.2 c; Ok (reply_to task.1 r c).
End Handlers.

(** ** The read loop

    A request is spawned as a task and the loop reads on: it does not wait for the answer. The tasks
    run in any order and side by side; each is [run_task], in which [others] is what the rest does at
    its waits. *)
Definition dispatch (h : Wire.Header) (request : Wire.Request) (tasks : list Task) : list Task := tasks ++ [(h, request)].

Definition handle_frame (bs : bytes) (tasks : list Task) (c : Conn) : list Task * Conn :=
  match Wire.header_parse bs with
  | None => (tasks, c)
  | Some (h, consumed) =>
      match Wire.frame_type h with
      | Wire.TypeRequest =>
          match Ncp.parse_request h (drop consumed bs) with
          | inr err => (tasks, reply_to h (inr err) c)
          | inl request => (dispatch h request tasks, c)
          end
      | _ => (tasks, reply_to h (inr (Wire.ErrorStatus Wire.InvalidRequest)) c)
      end
  end.

(** The frames of a connection: the tasks spawned, and the state; [meanwhile] is what the tasks do
    while the loop waits for the n-th frame. *)
Fixpoint serve (meanwhile : nat -> Conn -> Conn) (n : nat) (frames : list bytes) (tasks : list Task) (c : Conn) : list Task * Conn :=
  match frames with
  | [] => (tasks, c)
  | f :: frames => let '(tasks, c) := handle_frame f tasks (meanwhile n c) in serve meanwhile (S n) frames tasks c
  end.

(** ** The other tasks of a connection *)

(** A notification that does not fit is sent as an empty message. *)
Definition hello_frame (c : Conn) : bytes :=
  default [] (Wire.frame (Wire.Hello (Wire.mkHello Wire.PROTOCOL_VERSION (bool_decide (is_Some (stack c)))))).

Definition greet (c : Conn) : Conn := set_outbound c (outbound c ++ [hello_frame c]).

Definition send_frame (c : Conn) (frame : option bytes) : Conn := match frame with Some f => set_outbound c (outbound c ++ [f]) | None => c end.

(** What a client sends on a WebSocket, to the end of its stream. *)
Inductive Message : Type := Binary (data : bytes) | CloseMessage | OtherMessage | StreamError.

(** The read loop of [handle_connection]. *)
Fixpoint read_messages (meanwhile : nat -> Conn -> Conn) (n : nat) (messages : list Message) (tasks : list Task) (c : Conn) : list Task * Conn :=
  match messages with
  | [] => (tasks, c)
  | Binary data :: messages =>
      let '(tasks, c) := handle_frame data tasks (meanwhile n c) in read_messages meanwhile (S n) messages tasks c
  | CloseMessage :: _ => (tasks, c)
  | OtherMessage :: messages => read_messages meanwhile n messages tasks c
  | StreamError :: _ => (tasks, c)
  end.

(** A WebSocket connection, and a byte stream connection. *)
Definition handle_connection (meanwhile : nat -> Conn -> Conn) (messages : list Message) (c : Conn) : list Task * Conn :=
  read_messages meanwhile 0 messages [] (greet c).
Definition handle_stream_connection `{!Cobs} (meanwhile : nat -> Conn -> Conn) (chunks : list bytes) (c : Conn) : list Task * Conn :=
  serve meanwhile 0 (read_stream [] chunks).2 [] (greet c).

(** [spawn_notification_forwarder], on one event of the hub. *)
Definition forward_notification (n : ZigbeeNotification) (c : Conn) : Conn := send_frame c (Bridge.notification_frame n).

(** [spawn_send_sweeper], on one wake. *)
Definition sweep_confirms (status : Handle -> Progress) (c : Conn) : Conn :=
  let '(confirms, tr) := SendTracker.sweep status (tracker c) in
  foldl (fun c n => send_frame c (Wire.frame n)) (set_tracker c tr) confirms.

(** The stream of [handle_packet_capture], on one received frame. *)
Definition capture_frame (id : Wire.RequestId) (f : Radio.RxFrame) (c : Conn) : Conn :=
  send_frame c (Wire.event_frame (Wire.EventCapturedPacket (Wire.mkCapturedPacket (Radio.rx_channel f) (Radio.rssi f) (Radio.lqi f) (Radio.rx_psdu f))) id).
End Server.
End Server.
