(* ===== verification/ServerFacts.v ===== *)
(** * Properties of the server

    A control surface like the firmware, for requests that are not overtaken by one that replaces
    the stack; the race in which one is; and a connection, whose read loop spawns a task per
    request, over a byte stream or a WebSocket. *)

From S2P Require Import Prelude Effects Flat Types Constants AbstractBits Mac.
From S2P Require Import SendTypes Sends NwkFrame ApsFrame ApsSecurity Crypto Stack Radio StackSend StackAps StackJoin StackRun StackRadio.
From S2P Require Import Wire SendTracker Bridge Surface Ncp Server.

Module ServerFacts.
Import Server Surface.

(** ** The byte stream *)
Section Stream.
Context `{!Cobs}.

Lemma read_chunk_app acc x y :
  read_chunk acc (x ++ y) =
  let '(acc, frames) := read_chunk acc x in let '(acc, more) := read_chunk acc y in (acc, frames ++ more).
Proof.
  revert acc. induction x as [|b x IH]; intros acc; cbn [app read_chunk]; [by destruct (read_chunk acc y)|].
  destruct (read_byte acc b) as [acc1 fs]. rewrite IH. destruct (read_chunk acc1 x) as [acc2 gs]. destruct (read_chunk acc2 y) as [acc3 hs].
  by rewrite app_assoc.
Qed.

(** How the stream is cut into reads does not matter. *)
Lemma read_stream_concat acc chunks : read_stream acc chunks = read_chunk acc (concat chunks).
Proof.
  revert acc. induction chunks as [|x chunks IH]; intros acc; cbn [read_stream concat]; [done|]. rewrite read_chunk_app.
  destruct (read_chunk acc x) as [acc1 fs]. by rewrite IH.
Qed.

Lemma read_nonzero acc x : Forall (fun b => b <> 0) x -> read_chunk acc x = (acc ++ x, []).
Proof.
  revert acc. induction x as [|b x IH]; intros acc Hx; [by rewrite app_nil_r|]. apply Forall_cons in Hx as [Hb Hx]. cbn [read_chunk].
  unfold read_byte. rewrite (proj2 (Z.eqb_neq b 0) Hb). cbn [negb]. rewrite IH by done. cbn. by rewrite <- app_assoc.
Qed.

Context `{!CobsLaws}.

Lemma read_written f : is_bytes f -> read_chunk [] (write_frame f) = ([], [f]).
Proof.
  intros Hf. unfold write_frame. rewrite read_chunk_app, read_nonzero by by apply cobs_no_zero. cbn [app]. cbn [read_chunk read_byte].
  unfold read_byte. cbn. pose proof (cobs_not_empty f Hf) as Hne. destruct (cobs_encode f) eqn:He; [done|]. rewrite <- He, cobs_round_trip by done. done.
Qed.

(** The reader gives back what was written, however it is cut into reads. *)
Lemma stream_read_back frames chunks :
  Forall is_bytes frames -> concat chunks = concat (map write_frame frames) -> read_stream [] chunks = ([], frames).
Proof.
  intros Hf Hc. rewrite read_stream_concat, Hc. clear Hc chunks. induction Hf as [|f frames Hf _ IH]; [done|]. cbn [map concat].
  by rewrite read_chunk_app, read_written, IH.
Qed.
End Stream.

(** ** What a task writes

    A view of the server's state: what is written is the outbound queue, and the phase does not depend
    on the radio link, the stacks, the tracker and the queue. *)
Class ServerView {R} (V : Surface (Conn (R:=R))) : Prop := {
  view_written c : written c = outbound c;
  view_phy c x : phase (set_phy c x) = phase c;
  view_stacks c x : phase (set_stacks c x) = phase c;
  view_tracker c x : phase (set_tracker c x) = phase c;
  view_outbound c x : phase (set_outbound c x) = phase c
}.

(** A frame of the request [id], or one that another task writes. *)
Definition frame_of `{!Wire.WireCodecs} (id : Wire.RequestId) (F : bytes -> Prop) (f : bytes) : Prop := is_event id f \/ F f.

(** What goes on beside a task keeps the phase and writes frames of [F]. *)
Definition beside {R} {V : Surface (Conn (R:=R))} (F : bytes -> Prop) (rest : nat -> Conn (R:=R) -> Conn (R:=R)) : Prop :=
  forall n c, phase (rest n c) = phase c /\ exists fs, outbound (rest n c) = outbound c ++ fs /\ Forall F fs.

Section Steps.
Context `{!ApsFrame.ApsCodecs, !AbstractBits NwkFrame.NwkSecurityHeaderControlField, !Ccm, !BlockCipher, !Wire.WireCodecs}.
Context `{!AbstractBits Mac.FrameControl, !AbstractBits Mac.SuperframeSpecification, !AbstractBits Mac.AssociationRequestCommand}.
Context `{!AbstractBits Mac.AssociationResponseCommand, !AbstractBits Mac.DisassociationNotificationCommand}.
Context {R : Type} `{!Radio.RadioPhy R} (hw_address : eff R Stack.RadioError Eui64).
Context {V : Surface (Conn (R:=R))} `{!ServerView V} (w : World (R:=R)) (id : Wire.RequestId) (F : bytes -> Prop).
Context (Hbeside : beside F (others w)).
Implicit Types (c : Conn (R:=R)).

Lemma others_stream n c : streams (frame_of id F) c (others w n c).
Proof.
  destruct (Hbeside n c) as (Hp & fs & Ho & Hf). split; [done|]. exists fs. rewrite !view_written, Ho. split; [done|].
  eapply Forall_impl; [exact Hf|]. by right.
Qed.
Lemma view_streaming {E A} (m : eff (Conn (R:=R)) E A) :
  (forall c, eff_post m c (fun _ c' => phase c' = phase c /\ outbound c' = outbound c)) -> streaming (frame_of id F) m.
Proof. intros Hm. apply streaming_quiet. intros c. eapply eff_post_weaken; [apply Hm|]. intros r c' [Hp Ho]. by rewrite !view_written. Qed.

Lemma server_guard_streams g : streaming (frame_of id F) (guard (R:=R) g).
Proof. apply view_streaming. intros c r c'. unfold guard. destruct (g c) as [k|err]; [intros (l & _ & [= _ <-])%bind_ok|intros [= _ <-]]; done. Qed.
Lemma server_send_streams ev : streaming (frame_of id F) (send_event (R:=R) id ev).
Proof.
  unfold send_event. destruct (Wire.event_frame ev id) as [f|] eqn:Hf; [|apply streaming_ret]. intros c. apply eff_post_modify.
  split; [apply view_outbound|]. exists [f]. rewrite !view_written. split; [done|]. apply Forall_singleton. left. by exists ev.
Qed.
Lemma server_on_live_streams k f : streaming (frame_of id F) (on_live (R:=R) k f).
Proof. apply view_streaming. intros c. apply eff_post_modify. by rewrite view_stacks. Qed.
Lemma server_on_stack_streams {A} k (f : Stack.t -> may (A * Stack.t)) : streaming (frame_of id F) (on_stack (R:=R) k f).
Proof. apply view_streaming. intros c r c' (l & _ & Hk)%bind_ok. apply bind_ok in Hk as ([x s] & _ & [= _ <-]). by rewrite view_stacks. Qed.
Lemma server_register_streams tracked : streaming (frame_of id F) (register_send (R:=R) id tracked).
Proof. apply view_streaming. intros c. apply eff_post_modify. by rewrite view_tracker. Qed.
Lemma server_lift_streams {A} (r : A + Wire.Error) : streaming (frame_of id F) (lift_reply (R:=R) r).
Proof. apply streaming_lift. Qed.
Lemma server_wait_streams n : streaming (frame_of id F) (wait w n).
Proof. intros c. apply eff_post_modify, others_stream. Qed.
Lemma server_open_streams : streaming (frame_of id F) (open_phy w).
Proof. apply view_streaming. intros c r c'. unfold open_phy. destruct (phy c), (transport w); intros [= _ <-]; by rewrite ?view_phy. Qed.
Lemma server_call_streams {A} n (m : eff R Stack.RadioError A) : streaming (frame_of id F) (call w n m).
Proof.
  intros c r c' (x & _ & Hk)%bind_ok. apply bind_ok in Hk as ([y r'] & _ & [= _ <-]).
  etrans; [|apply others_stream]. split; [apply view_phy|]. exists []. by rewrite !view_written, app_nil_r.
Qed.
Lemma server_or_streams {A} st (r : A + Stack.RadioError) : streaming (frame_of id F) (or_status (R:=R) st r).
Proof. destruct r; [apply streaming_ret|apply streaming_raise]. Qed.
#[local] Hint Resolve server_guard_streams server_send_streams server_on_live_streams server_on_stack_streams server_register_streams
  server_lift_streams server_wait_streams server_open_streams server_call_streams server_or_streams : streaming.

Lemma server_on_phy_streams {A} n st (m : eff R Stack.RadioError A) : streaming (frame_of id F) (on_phy w n st m).
Proof. unfold on_phy. stream. Qed.
Lemma server_events_stream evs : streaming (frame_of id F) (send_events (R:=R) id evs).
Proof. induction evs as [|ev evs IH]; cbn; stream. Qed.
#[local] Hint Resolve server_on_phy_streams server_events_stream : streaming.

Lemma server_reset_streams p : streaming (frame_of id F) (handle_reset w p).
Proof. unfold handle_reset. stream. Qed.
Lemma server_hw_streams : streaming (frame_of id F) (handle_get_hw_address hw_address w).
Proof. unfold handle_get_hw_address. stream. Qed.
Lemma server_load_streams f : streaming (frame_of id F) (load (R:=R) f).
Proof. unfold load. stream. Qed.
Lemma server_scan_streams snapshot : streaming (frame_of id F) (scan (R:=R) id snapshot).
Proof. unfold scan, stream_scan. stream. Qed.
Lemma server_unicast_streams p : streaming (frame_of id F) (send_unicast w id p).
Proof. unfold send_unicast. stream. Qed.
Lemma server_tracked_streams snd : streaming (frame_of id F) (send_tracked w id snd).
Proof. unfold send_tracked. stream. Qed.
Lemma server_update_streams f : streaming (frame_of id F) (update w f).
Proof. unfold update. stream. Qed.
Lemma server_channel_streams p : streaming (frame_of id F) (handle_set_channel w p).
Proof. unfold handle_set_channel. stream. Qed.
Lemma server_energy_streams p : streaming (frame_of id F) (handle_energy_scan w id p).
Proof.
  unfold handle_energy_scan. apply streaming_bind; [stream|]. intros _. generalize 0%nat. induction (Wire.channels p) as [|x l IH]; intros n; cbn; stream.
Qed.
Lemma server_network_scan_streams p : streaming (frame_of id F) (handle_network_scan w id p).
Proof. unfold handle_network_scan. stream. Qed.
Lemma server_capture_streams p : streaming (frame_of id F) (handle_packet_capture w p).
Proof. unfold handle_packet_capture. stream. Qed.
Lemma server_tunable_streams p : streaming (frame_of id F) (handle_set_tunable (R:=R) p).
Proof. unfold handle_set_tunable. stream. Qed.
Lemma server_cancel_streams p : streaming (frame_of id F) (handle_cancel w p).
Proof. unfold handle_cancel. stream. Qed.
End Steps.
#[export] Hint Resolve server_guard_streams server_send_streams server_on_live_streams server_on_stack_streams server_register_streams
  server_lift_streams server_wait_streams server_open_streams server_call_streams server_or_streams server_on_phy_streams server_events_stream
  server_reset_streams server_hw_streams server_load_streams server_scan_streams server_unicast_streams server_tracked_streams
  server_update_streams server_channel_streams server_energy_streams server_network_scan_streams server_capture_streams server_tunable_streams
  server_cancel_streams : streaming.

#[export] Hint Extern 0 (ServerView _) => typeclasses eauto : streaming.

(** ** The output alone *)
Definition output_view R : Surface (Conn (R:=R)) := {| phase _ := Unconfigured; written c := outbound c |}.

Section Output.
Context `{!ApsFrame.ApsCodecs, !AbstractBits NwkFrame.NwkSecurityHeaderControlField, !Ccm, !BlockCipher, !Wire.WireCodecs}.
Context `{!AbstractBits Mac.FrameControl, !AbstractBits Mac.SuperframeSpecification, !AbstractBits Mac.AssociationRequestCommand}.
Context `{!AbstractBits Mac.AssociationResponseCommand, !AbstractBits Mac.DisassociationNotificationCommand}.
Context {R : Type} `{!Radio.RadioPhy R} (hw_address : eff R Stack.RadioError Eui64).
#[local] Existing Instance output_view.
Context (w : World (R:=R)) (id : Wire.RequestId) (F : bytes -> Prop) (Hbeside : beside F (others w)).

#[local] Instance output_view_laws : ServerView (output_view R).
Proof. done. Qed.

Lemma task_modify_streams f : (forall c, outbound (f c) = outbound c) -> streaming (frame_of id F) (modify f : eff (Conn (R:=R)) Wire.Error unit).
Proof. intros Hf. apply streaming_modify. intros c. split; [done|apply Hf]. Qed.
Lemma teardown_streams : streaming (frame_of id F) (teardown_stack w).
Proof.
  unfold teardown_stack. apply streaming_bind; [stream|]. intros old. apply streaming_bind; [by apply task_modify_streams|]. intros _.
  apply streaming_bind; [|intros _; by apply task_modify_streams]. destruct old; [unfold shut_down; stream|stream].
Qed.
Lemma shutdown_streams : streaming (frame_of id F) (handle_shutdown w).
Proof. unfold handle_shutdown. apply streaming_bind; [apply teardown_streams|intros _; stream]. Qed.
Lemma configure_streams p : streaming (frame_of id F) (handle_configure w p).
Proof.
  unfold handle_configure. apply streaming_bind; [apply teardown_streams|]. intros _. do 2 (apply streaming_bind; [stream|intros _]).
  apply streaming_bind; [by apply task_modify_streams|intros _; stream].
Qed.
Lemma start_streams : streaming (frame_of id F) (handle_start_network w).
Proof.
  unfold handle_start_network. apply streaming_bind; [stream|]. intros [k l]. apply streaming_bind.
  { apply (view_streaming id F). intros c r c' (held & _ & Hk)%bind_ok. apply bind_ok in Hk as (link & _ & Hk). by apply bind_ok in Hk as ([y [s r']] & _ & [= _ <-]). }
  intros x. do 2 (apply streaming_bind; [stream|intros ?]). apply streaming_bind; [by apply task_modify_streams|intros ?; stream].
Qed.

Lemma handle_streams request : streaming (frame_of id F) (handle hw_address w id request).
Proof. destruct request; cbn [handle]; auto using shutdown_streams, configure_streams, start_streams; stream. Qed.
End Output.

(** ** The life cycle *)
#[export] Instance server_surface R : Surface (Conn (R:=R)) := {|
  phase c := match stack c with None => Unconfigured | Some _ => if started c then Running else Loading end;
  written c := outbound c
|}.
#[export] Instance server_surface_laws R : ServerView (server_surface R).
Proof. done. Qed.

(** At its waits, nothing replaces, starts or stops the stack under the request. *)
Definition calm {R} (w : World (R:=R)) : Prop := forall n c, phase (others w n c) = phase c /\ outbound c `prefix_of` outbound (others w n c).

Section Handlers.
Context `{!ApsFrame.ApsCodecs, !AbstractBits NwkFrame.NwkSecurityHeaderControlField, !Ccm, !BlockCipher, !Wire.WireCodecs}.
Context `{!AbstractBits Mac.FrameControl, !AbstractBits Mac.SuperframeSpecification, !AbstractBits Mac.AssociationRequestCommand}.
Context `{!AbstractBits Mac.AssociationResponseCommand, !AbstractBits Mac.DisassociationNotificationCommand}.
Context {R : Type} `{!Radio.RadioPhy R} (hw_address : eff R Stack.RadioError Eui64).
Context (w : World (R:=R)) (Hcalm : calm w) (id : Wire.RequestId).
Implicit Types (c : Conn (R:=R)).

Lemma calm_beside : beside (fun _ => True) (others w).
Proof. intros n c. destruct (Hcalm n c) as (Hp & fs & Ho). split; [done|]. exists fs. split; [done|]. by apply Forall_true. Qed.

(** A request the phase refuses changes nothing. *)
Lemma server_refused request c st :
  refusal (phase c) (demand_of request) = Some st -> handle hw_address w id request c = Ok (inr (Wire.ErrorStatus st), c).
Proof. destruct c as [r ls [k|] [|] f tr o], request; try done; by intros [= <-]. Qed.

Lemma phase_unconfigured c : phase c = Unconfigured <-> stack c = None.
Proof. cbn. destruct (stack c); [|done]. by destruct (started c). Qed.

#[local] Hint Resolve calm_beside : streaming.

Lemma teardown_ends c : eff_post (teardown_stack w) c (fun r c' => r = inl tt /\ phase c' = Unconfigured).
Proof.
  apply eff_post_bind, eff_post_gets, eff_post_bind, eff_post_modify, eff_post_bind.
  destruct (stack c) as [k|]; [|by apply eff_post_ret, eff_post_modify].
  apply eff_post_bind, eff_post_modify. destruct (Hcalm 0%nat (set_stack c None)) as [Hp _]. apply eff_post_modify, eff_post_modify.
  split; [done|]. change (phase (others w 0 (set_stack c None)) = Unconfigured) in Hp. rewrite phase_unconfigured in Hp |- *. done.
Qed.

(** What follows and streams keeps the phase. *)
Lemma then_streams {E A} (m : eff (Conn (R:=R)) E A) c : streaming (frame_of id (fun _ => True)) m -> eff_post m c (fun _ c' => phase c' = phase c).
Proof. intros Hm r c' Hr. by destruct (Hm c r c' Hr) as [Hp _]. Qed.

Lemma server_shutdown_ends c : eff_post (handle_shutdown w) c (fun _ c' => phase c' = Unconfigured).
Proof.
  apply eff_post_bind. eapply eff_post_weaken; [apply teardown_ends|]. intros r c1 [-> Hp]. rewrite <- Hp. apply then_streams. stream.
Qed.

Lemma server_configure_loads p c : eff_post (handle_configure w p) c (fun r c' => phase c' = (if r is inl _ then Loading else Unconfigured)).
Proof.
  apply eff_post_bind. eapply eff_post_weaken; [apply teardown_ends|]. intros r c1 [-> Hp].
  apply eff_post_bind, eff_post_modify. destruct (Hcalm 1%nat c1) as [Hp1 _]. rewrite Hp in Hp1.
  apply eff_post_bind. intros r c2 Ho. apply (then_streams _ _ (server_open_streams w id _)) in Ho. rewrite Hp1 in Ho.
  destruct r as [[]|err]; [|done]. by apply eff_post_bind, eff_post_modify, eff_post_ret.
Qed.

Lemma server_start_runs c :
  refusal (phase c) ALoadWindow = None -> eff_post (handle_start_network w) c (fun r c' => phase c' = (if r is inl _ then Running else phase c)).
Proof.
  intros Hok. apply eff_post_bind. intros r c1 Hg. unfold guard, loadable in Hg. destruct (stack c) as [k|] eqn:Hs; [|by cbn in Hok; rewrite Hs in Hok].
  destruct (started c) eqn:Hst; [by cbn in Hok; rewrite Hs, Hst in Hok|]. apply bind_ok in Hg as (l & _ & [= <- <-]).
  apply eff_post_bind. intros x c2 (held & _ & Hk)%bind_ok. apply bind_ok in Hk as (rr & _ & Hk). apply bind_ok in Hk as ([y [s r']] & _ & [= <- <-]).
  apply eff_post_bind, eff_post_modify. match goal with |- context [others w 0 ?c0] => destruct (Hcalm 0%nat c0) as [Hp _]; set (c3 := others w 0 c0) in * end.
  cbn [phase server_surface stack started set_stacks set_phy] in Hp. rewrite Hs, Hst in Hp.
  apply eff_post_bind. destruct y as [[]|err]; [apply eff_post_ret|apply eff_post_raise].
  - apply eff_post_bind, eff_post_modify, eff_post_ret. cbn [phase server_surface stack set_started set_forwarder started]. by destruct (stack c3).
  - cbn [phase server_surface]. by rewrite Hs, Hst.
Qed.

Lemma server_handle_spec request c r c' :
  handle hw_address w id request c = Ok (r, c') -> refusal (phase c) (demand_of request) = None ->
  phase c' = next_phase (phase c) request (is_ok r).
Proof.
  intros Hd Hok.
  assert (forall m : eff (Conn (R:=R)) Wire.Error Wire.Response, streaming (frame_of id (fun _ => True)) m -> m c = Ok (r, c') -> phase c' = phase c) as Hstream.
  { intros m Hm Hr. exact (then_streams m c Hm r c' Hr). }
  destruct request; cbn [handle next_phase] in *; try (apply Hstream in Hd; [done|stream]; done).
  - by apply server_shutdown_ends in Hd.
  - apply server_configure_loads in Hd as Hp. by destruct r.
  - apply server_start_runs in Hd as Hp; [|done]. by destruct r.
Qed.

(** ** A request that is not refused is carried out *)

(** What the server answers a request that its phase does not refuse: as the firmware does, except
    that the requests that use the radio link open it first, and a [configure] that cannot open it
    fails. *)
Definition server_carried_out (request : Wire.Request) c (r : Wire.Response + Wire.Error) : Prop :=
  match request, stack c ≫= (fun k => stacks c !! k) with
  | Wire.SendUnicast p, Some l => exists x s, Bridge.send_unicast (Ncp.env_for (clock w) l) (Ncp.state l) p = Ok (x, s) /\
      r = match x with inl sent => inl (Wire.SendUnicastResult sent.2) | inr e => inr e end
  | Wire.SendBroadcast p, Some l => exists x s, Bridge.send_broadcast (Ncp.env_for (clock w) l) (Ncp.state l) p = Ok (x, s) /\
      r = match x with inl _ => inl Wire.Empty | inr e => inr e end
  | Wire.SendGroupcast p, Some l => exists x s, Bridge.send_groupcast (Ncp.env_for (clock w) l) (Ncp.state l) p = Ok (x, s) /\
      r = match x with inl _ => inl Wire.Empty | inr e => inr e end
  | Wire.SetTunable p, Some l => r = match Bridge.set_tunable (Ncp.tun l) p with inl _ => inl Wire.Empty | inr e => inr e end
  | Wire.StartNetwork, Some l => exists link x s,
      phy c = Some link /\ StackRadio.start_network (Ncp.env_for (clock w) l) (Bridge.sv_tx_power (Ncp.saved l)) (stack_tasks w) (Ncp.state l, link) = Ok (x, s) /\
      r = match x with inl _ => inl Wire.Empty | inr _ => inr (Wire.ErrorStatus Wire.NetworkStartFailed) end
  | Wire.Configure _, _ => is_ok r = true \/ transport w = None /\ r = inr (Wire.ErrorStatus Wire.StatusRadioError)
  | (Wire.Reset _ | Wire.GetHwAddress | Wire.Shutdown | Wire.SetChannel _ | Wire.EnergyScan _ | Wire.NetworkScan _
     | Wire.PacketCapture _ | Wire.PacketCaptureChannel _), _ => match r with inl _ => True | inr e => radio_failure e end
  | _, _ => is_ok r = true
  end.

Section Accepted.
Context (ph : Phase).

Lemma server_fails_open (P : Wire.Error -> Prop) : (transport w = None -> P (Wire.ErrorStatus Wire.StatusRadioError)) -> fails_with ph P (open_phy w).
Proof.
  intros HP. apply (fails_streaming ph (frame_of id (fun _ => True))); [stream|]. intros c e c'. unfold open_phy. destruct (phy c); [done|]. destruct (transport w); [done|].
  intros [= <- _]. by apply HP.
Qed.
Lemma server_fails_on_phy {A} n st (m : eff R Stack.RadioError A) (P : Wire.Error -> Prop) : P (Wire.ErrorStatus st) -> fails_with ph P (on_phy w n st m).
Proof.
  intros HP. apply (fails_streaming ph (frame_of id (fun _ => True))); [stream|]. intros c e c' ([x c1] & Hx & Hk)%bind_ok. apply bind_ok in Hx as (y & _ & Hx).
  apply bind_ok in Hx as ([z r'] & _ & [= <- <-]). destruct z; [done|]. by injection Hk as <- _.
Qed.
Lemma server_fails_call {A} n (m : eff R Stack.RadioError A) (P : Wire.Error -> Prop) : fails_with ph P (call w n m).
Proof. apply (fails_streaming ph (frame_of id (fun _ => True))); [stream|]. intros c e c' (x & _ & Hk)%bind_ok. by apply bind_ok in Hk as ([y r'] & _ & ?). Qed.
Lemma server_fails_or {A} st (r : A + Stack.RadioError) (P : Wire.Error -> Prop) : P (Wire.ErrorStatus st) -> fails_with ph P (or_status (R:=R) st r).
Proof. intros HP. destruct r; [apply fails_ret|by apply fails_raise]. Qed.
Lemma server_fails_event ev (P : Wire.Error -> Prop) : fails_with ph P (send_event (R:=R) id ev).
Proof. apply (fails_streaming ph (frame_of id (fun _ => True))); [stream|]. intros c e c'. unfold send_event. by destruct (Wire.event_frame ev id). Qed.
Lemma server_fails_events evs (P : Wire.Error -> Prop) : fails_with ph P (send_events (R:=R) id evs).
Proof. induction evs as [|ev evs IH]; cbn [send_events]; [apply fails_ret|]. apply fails_bind; [apply server_fails_event|intros _; exact IH]. Qed.
Lemma server_fails_on_live k f (P : Wire.Error -> Prop) : fails_with ph P (on_live (R:=R) k f).
Proof. by apply fails_modify. Qed.
Lemma server_fails_on_stack {A} k (f : Stack.t -> may (A * Stack.t)) (P : Wire.Error -> Prop) : fails_with ph P (on_stack (R:=R) k f).
Proof. apply (fails_streaming ph (frame_of id (fun _ => True))); [stream|]. intros c e c' (l & _ & Hk)%bind_ok. by apply bind_ok in Hk as ([x s] & _ & ?). Qed.
Lemma server_fails_guard g (P : Wire.Error -> Prop) : (forall c, phase c = ph -> is_ok (g c) = true) -> fails_with ph P (guard (R:=R) g).
Proof.
  intros Hg c Hc r c'. specialize (Hg c Hc). unfold guard. destruct (g c) as [k|]; [|done]. intros (l & _ & [= <- <-])%bind_ok. done.
Qed.
End Accepted.

Lemma server_fails_configured ph (P : Wire.Error -> Prop) : refusal ph AStack = None -> fails_with ph P (guard (R:=R) configured).
Proof. intros Hr. apply server_fails_guard. intros a <-. cbn in Hr. unfold configured. by destruct (stack a). Qed.
Lemma server_fails_loadable ph (P : Wire.Error -> Prop) : refusal ph ALoadWindow = None -> fails_with ph P (guard (R:=R) loadable).
Proof. intros Hr. apply server_fails_guard. intros a <-. cbn in Hr. unfold loadable. destruct (stack a); [|done]. by destruct (started a). Qed.
Lemma server_fails_running ph (P : Wire.Error -> Prop) : refusal ph ANetwork = None -> fails_with ph P (guard (R:=R) running).
Proof. intros Hr. apply server_fails_guard. intros a <-. cbn in Hr. unfold running. destruct (stack a); [|done]. by destruct (started a). Qed.

Lemma radio_status_fails : radio_failure (Wire.ErrorStatus Wire.StatusRadioError).
Proof. by left. Qed.
Lemma scan_status_fails : radio_failure (Wire.ErrorStatus Wire.ScanFailed).
Proof. by right. Qed.
#[local] Hint Resolve server_fails_open server_fails_on_phy server_fails_call server_fails_or server_fails_event server_fails_events server_fails_on_live
  server_fails_on_stack server_fails_configured server_fails_loadable server_fails_running radio_status_fails scan_status_fails : failing.

Lemma server_sure request c r c' :
  handle hw_address w id request c = Ok (r, c') -> fails_with (phase c) (fun _ => False) (handle hw_address w id request) -> is_ok r = true.
Proof. intros Hd Hf. destruct (Hf c eq_refl r c' Hd) as [_ He]. by destruct r. Qed.
Lemma server_radio request c r c' :
  handle hw_address w id request c = Ok (r, c') -> fails_with (phase c) radio_failure (handle hw_address w id request) ->
  match r with inl _ => True | inr e => radio_failure e end.
Proof. intros Hd Hf. by destruct (Hf c eq_refl r c' Hd) as [_ He]. Qed.

Lemma server_load_accepted ph f : refusal ph ALoadWindow = None -> fails_with ph (fun _ => False) (load (R:=R) f).
Proof. intros Hr. unfold load. failing. Qed.
Lemma server_scan_accepted ph snapshot : refusal ph AStack = None -> fails_with ph (fun _ => False) (scan (R:=R) id snapshot).
Proof. intros Hr. unfold scan, stream_scan. failing. Qed.
Lemma server_update_accepted ph f : refusal ph ANetwork = None -> fails_with ph (fun _ => False) (update (R:=R) w f).
Proof. intros Hr. unfold update. failing. Qed.
Lemma server_energy_accepted ph p : fails_with ph radio_failure (handle_energy_scan w id p).
Proof.
  unfold handle_energy_scan. apply fails_bind; [auto with failing|]. intros _. generalize 0%nat.
  induction (Wire.channels p) as [|x l IH]; intros n; cbn [energy_scan]; [apply fails_ret|]. failing.
Qed.
Lemma server_network_scan_accepted ph p : refusal ph ANetwork = None -> fails_with ph radio_failure (handle_network_scan w id p).
Proof. intros Hr. unfold handle_network_scan. failing. Qed.

Lemma server_network_up c : refusal (phase c) ANetwork = None -> exists k, stack c = Some k /\ started c = true.
Proof. cbn. destruct (stack c) as [k|]; [|done]. destruct (started c); [|done]. by exists k. Qed.
Lemma server_window_open c : refusal (phase c) ALoadWindow = None -> exists k, stack c = Some k /\ started c = false.
Proof. cbn. destruct (stack c) as [k|]; [|done]. destruct (started c); [done|]. by exists k. Qed.

(** The stack that a guard lets a request through to. *)
Lemma guard_passes {A} g k (f : nat * Ncp.Live -> eff (Conn (R:=R)) Wire.Error A) c r c' :
  g c = inl k -> (guard g ≫= f) c = Ok (r, c') -> exists l, stacks c !! k = Some l /\ f (k, l) c = Ok (r, c').
Proof.
  intros Hg ([x c1] & Hx & Hk)%bind_ok. unfold guard in Hx. rewrite Hg in Hx. destruct (stacks c !! k) as [l|]; [|done].
  injection Hx as <- <-. by exists l.
Qed.

Lemma guarded_stack {A} g k (f : nat * Ncp.Live -> eff (Conn (R:=R)) Wire.Error A) c r c' :
  stack c = Some k -> g c = inl k -> (guard g ≫= f) c = Ok (r, c') ->
  exists l, stacks c !! k = Some l /\ (stack c ≫= (fun k => stacks c !! k)) = Some l.
Proof. intros Hk Hg (l & Hl & _)%(guard_passes g k); [|done]. exists l. split; [done|]. by rewrite Hk. Qed.

Lemma server_unicast_answer p c r c' k l :
  stack c = Some k -> started c = true -> stacks c !! k = Some l -> send_unicast w id p c = Ok (r, c') ->
  exists x s, Bridge.send_unicast (Ncp.env_for (clock w) l) (Ncp.state l) p = Ok (x, s) /\
    r = match x with inl sent => inl (Wire.SendUnicastResult sent.2) | inr e => inr e end.
Proof.
  intros Hk Hs Hl Hr. apply (guard_passes running k) in Hr as (l' & Hl' & Hr); [|unfold running; by rewrite Hk, Hs]. simplify_eq.
  apply bind_ok in Hr as ([x c1] & Hx & Hr). unfold on_stack in Hx. rewrite Hl in Hx. cbn [unwrap mbind res_bind] in Hx.
  apply bind_ok in Hx as ([y s] & Hy & [= <- <-]). exists y, s. split; [done|]. destruct y; by injection Hr as <- _.
Qed.
Lemma server_tracked_answer snd c r c' k l :
  stack c = Some k -> started c = true -> stacks c !! k = Some l -> send_tracked w id snd c = Ok (r, c') ->
  exists x s, snd (Ncp.env_for (clock w) l) (Ncp.state l) = Ok (x, s) /\ r = match x with inl _ => inl Wire.Empty | inr e => inr e end.
Proof.
  intros Hk Hs Hl Hr. apply (guard_passes running k) in Hr as (l' & Hl' & Hr); [|unfold running; by rewrite Hk, Hs]. simplify_eq.
  apply bind_ok in Hr as ([x c1] & Hx & Hr). unfold on_stack in Hx. rewrite Hl in Hx. cbn [unwrap mbind res_bind] in Hx.
  apply bind_ok in Hx as ([y s] & Hy & [= <- <-]). exists y, s. split; [done|]. destruct y; by injection Hr as <- _.
Qed.
Lemma server_start_answer c r c' k l :
  stack c = Some k -> started c = false -> stacks c !! k = Some l -> handle_start_network w c = Ok (r, c') ->
  exists link x s, phy c = Some link /\
    StackRadio.start_network (Ncp.env_for (clock w) l) (Bridge.sv_tx_power (Ncp.saved l)) (stack_tasks w) (Ncp.state l, link) = Ok (x, s) /\
    r = match x with inl _ => inl Wire.Empty | inr _ => inr (Wire.ErrorStatus Wire.NetworkStartFailed) end.
Proof.
  intros Hk Hs Hl Hr. apply (guard_passes loadable k) in Hr as (l' & Hl' & Hr); [|unfold loadable; by rewrite Hk, Hs]. simplify_eq.
  apply bind_ok in Hr as ([x c1] & Hx & Hr). unfold start in Hx. rewrite Hl in Hx. cbn [unwrap mbind res_bind] in Hx.
  destruct (phy c) as [link|]; [|done]. cbn [unwrap mbind res_bind] in Hx. apply bind_ok in Hx as ([y [s r']] & Hy & [= <- <-]).
  exists link, y, (s, r'). split_and!; [done..|]. destruct y; by injection Hr as <- _.
Qed.
Lemma server_tunable_answer p c r c' k l :
  stack c = Some k -> stacks c !! k = Some l -> handle_set_tunable p c = Ok (r, c') ->
  r = match Bridge.set_tunable (Ncp.tun l) p with inl _ => inl Wire.Empty | inr e => inr e end.
Proof.
  intros Hk Hl Hr. apply (guard_passes configured k) in Hr as (l' & Hl' & Hr); [|unfold configured; by rewrite Hk]. simplify_eq. cbn in Hr.
  destruct (Bridge.set_tunable (Ncp.tun l) p); by injection Hr as <- _.
Qed.

Lemma server_configure_answer p c r c' :
  handle_configure w p c = Ok (r, c') -> is_ok r = true \/ transport w = None /\ r = inr (Wire.ErrorStatus Wire.StatusRadioError).
Proof.
  intros Hr. unfold handle_configure in Hr. apply bind_ok in Hr as ([x c1] & Hx & Hr). apply teardown_ends in Hx as [-> _].
  cbv beta delta [mbind eff_bind wait modify open_phy] in Hr. cbn [res_bind] in Hr.
  destruct (phy (others w 1 c1)); [injection Hr as <- _; by left|]. destruct (transport w); injection Hr as <- _; [by left|by right].
Qed.
Lemma server_shutdown_answer c r c' : handle_shutdown w c = Ok (r, c') -> match r with inl _ => True | inr e => radio_failure e end.
Proof.
  intros ([x c1] & Hx & Hr)%bind_ok. apply teardown_ends in Hx as [-> _].
  match type of Hr with ?m c1 = _ => assert (fails_with (phase c1) radio_failure m) as Hf by failing end.
  by destruct (Hf c1 eq_refl r c' Hr) as [_ He].
Qed.

Lemma server_handle_carried_out request c r c' :
  handle hw_address w id request c = Ok (r, c') -> refusal (phase c) (demand_of request) = None -> server_carried_out request c r.
Proof.
  intros Hd Hok. unfold server_carried_out. destruct request; cbn [demand_of] in Hok;
    try (eapply server_radio; [exact Hd|]; cbn [handle]; unfold handle_reset, handle_get_hw_address, handle_set_channel, handle_packet_capture;
      auto using server_energy_accepted, server_network_scan_accepted; failing; done);
    try (assert (is_ok r = true); [|done || by destruct (stack c ≫= _)]; eapply server_sure; [exact Hd|]; cbn [handle]; unfold handle_cancel;
      auto using server_load_accepted, server_scan_accepted, server_update_accepted; failing; done).
  - by eapply server_shutdown_answer.
  - by eapply server_configure_answer.
  - destruct (server_window_open c Hok) as (k & Hk & Hs).
    destruct (guarded_stack loadable k _ c r c' Hk ltac:(unfold loadable; by rewrite Hk, Hs) Hd) as (l & Hl & ->). by eapply server_start_answer.
  - destruct (server_network_up c Hok) as (k & Hk & Hs).
    destruct (guarded_stack running k _ c r c' Hk ltac:(unfold running; by rewrite Hk, Hs) Hd) as (l & Hl & ->). by eapply server_unicast_answer.
  - destruct (server_network_up c Hok) as (k & Hk & Hs).
    destruct (guarded_stack running k _ c r c' Hk ltac:(unfold running; by rewrite Hk, Hs) Hd) as (l & Hl & ->). by eapply (server_tracked_answer (fun e s => Bridge.send_broadcast e s p)).
  - destruct (server_network_up c Hok) as (k & Hk & Hs).
    destruct (guarded_stack running k _ c r c' Hk ltac:(unfold running; by rewrite Hk, Hs) Hd) as (l & Hl & ->). by eapply (server_tracked_answer (fun e s => Bridge.send_groupcast e s p)).
  - assert (exists k, stack c = Some k) as [k Hk] by (cbn in Hok; destruct (stack c) as [k|]; [by exists k|done]).
    destruct (guarded_stack configured k _ c r c' Hk ltac:(unfold configured; by rewrite Hk) Hd) as (l & Hl & ->). by eapply server_tunable_answer.
Qed.

(** C22: the server keeps the same life cycle: for a request that is not overtaken at its waits by one
    that replaces, starts or stops the stack, beside tasks that only append to the outbound queue, the
    server refuses it, with the status the life cycle gives and nothing changed, exactly when its
    phase does. A request that is not refused is carried out: a send, a tunable and [start_network] answer what the driver makes of them on the configured
    stack, [configure] fails only when the radio link cannot be opened, a request that works on the
    radio fails only with the status of a radio failure, and every other request succeeds; and the
    server ends in the phase the life cycle names, where a [configure] that cannot open the radio
    leaves nothing configured. *)
Theorem server_lifecycle_refined request c r c' :
  handle hw_address w id request c = Ok (r, c') ->
  match refusal (phase c) (demand_of request) with
  | Some st => r = inr (Wire.ErrorStatus st) /\ c' = c
  | None => phase c' = next_phase (phase c) request (is_ok r) /\ server_carried_out request c r
  end.
Proof.
  intros Hd. destruct (refusal (phase c) (demand_of request)) as [st|] eqn:Hr.
  - rewrite (server_refused request c st Hr) in Hd. by injection Hd as <- <-.
  - split; [by eapply server_handle_spec|]. by apply (server_handle_carried_out request c r c').
Qed.

End Handlers.

(** ** Connections *)
Section Frames.
Context `{!ApsFrame.ApsCodecs, !AbstractBits NwkFrame.NwkSecurityHeaderControlField, !Ccm, !BlockCipher, !Wire.WireCodecs}.
Context `{!AbstractBits Mac.FrameControl, !AbstractBits Mac.SuperframeSpecification, !AbstractBits Mac.AssociationRequestCommand}.
Context `{!AbstractBits Mac.AssociationResponseCommand, !AbstractBits Mac.DisassociationNotificationCommand}.
Context {R : Type} `{!Radio.RadioPhy R} (hw_address : eff R Stack.RadioError Eui64) (w : World (R:=R)).
Implicit Types (c : Conn (R:=R)).

(** [out] is [own] in its order, with frames of [F] in between. *)
Definition woven (F : bytes -> Prop) (own out : list bytes) : Prop := exists noise, Forall F noise /\ own `sublist_of` out /\ out ≡ₚ own ++ noise.

Lemma woven_app F own1 out1 own2 out2 : woven F own1 out1 -> woven F own2 out2 -> woven F (own1 ++ own2) (out1 ++ out2).
Proof.
  intros (n1 & Hf1 & Hs1 & Hp1) (n2 & Hf2 & Hs2 & Hp2). exists (n1 ++ n2). split_and!; [by apply Forall_app|by apply sublist_app|].
  rewrite Hp1, Hp2. solve_Permutation.
Qed.
Lemma woven_noise F fs : Forall F fs -> woven F [] fs.
Proof. intros Hf. exists fs. split_and!; [done|apply sublist_nil_l|done]. Qed.
Lemma woven_own F own : woven F own own.
Proof. exists []. by rewrite app_nil_r. Qed.

(** A list of frames of a request and of others is the former woven into the latter. *)
Lemma woven_split id F out : Forall (frame_of id F) out -> exists evs, Forall (is_event id) evs /\ woven F evs out.
Proof.
  induction 1 as [|f out Hf _ (evs & He & Hw)]; [exists []; split; [done|apply woven_own]|]. destruct Hf as [Hf|Hf].
  - exists (f :: evs). split; [by constructor|]. by apply (woven_app F [f] [f]); [apply woven_own|].
  - exists evs. split; [done|]. apply (woven_app F [] [f]); [|done]. by apply woven_noise, Forall_singleton.
Qed.

(** Beside a connection's read loop and tasks, the others write frames of [F]. *)
Definition writes (F : bytes -> Prop) (rest : nat -> Conn (R:=R) -> Conn (R:=R)) : Prop :=
  forall n c, exists fs, outbound (rest n c) = outbound c ++ fs /\ Forall F fs.

(** What a frame is: too short for a header, a request, or answered at once with an error. *)
Definition reading (f : bytes) : option (Task + bytes) :=
  match Wire.header_parse f with
  | None => None
  | Some (h, n) => Some
      match (if Wire.frame_type h is Wire.TypeRequest then Ncp.parse_request h (drop n f) else inr (Wire.ErrorStatus Wire.InvalidRequest)) with
      | inl request => inl (h, request)
      | inr err => inr (Wire.error_frame err (Wire.command h) (Wire.request_id h))
      end
  end.
Definition requests (frames : list bytes) : list Task := omap (fun f => reading f ≫= (fun x => if x is inl t then Some t else None)) frames.
Definition rejected (frames : list bytes) : list bytes := omap (fun f => reading f ≫= (fun x => if x is inr e then Some e else None)) frames.

Lemma frame_read f tasks c :
  handle_frame f tasks c = (tasks ++ requests [f], set_outbound c (outbound c ++ rejected [f])).
Proof.
  unfold handle_frame, requests, rejected. cbn [omap list_omap]. unfold reading. destruct c as [x1 x2 x3 x4 x5 x6 o].
  destruct (Wire.header_parse f) as [[h n]|]; cbn; [|by rewrite !app_nil_r].
  destruct (Wire.frame_type h); cbn; rewrite ?app_nil_r; try done. by destruct (Ncp.parse_request h (drop n f)); cbn; rewrite ?app_nil_r.
Qed.

Lemma requests_cons f frames : requests (f :: frames) = requests [f] ++ requests frames.
Proof. unfold requests. cbn. by destruct (_ ≫= _). Qed.
Lemma rejected_cons f frames : rejected (f :: frames) = rejected [f] ++ rejected frames.
Proof. unfold rejected. cbn. by destruct (_ ≫= _). Qed.

Lemma served F meanwhile n frames tasks c tasks' c' :
  writes F meanwhile -> serve meanwhile n frames tasks c = (tasks', c') ->
  tasks' = tasks ++ requests frames /\ exists out, outbound c' = outbound c ++ out /\ woven F (rejected frames) out.
Proof.
  intros Hrest. revert n tasks c. induction frames as [|f frames IH]; intros n tasks c; cbn [serve].
  - intros [= <- <-]. split; [by rewrite app_nil_r|]. exists []. split; [by rewrite app_nil_r|apply woven_own].
  - rewrite frame_read. intros Hs. apply IH in Hs as (-> & out & Ho & Hw). rewrite (requests_cons f frames), (rejected_cons f frames). split; [by rewrite (assoc_L (++))|].
    destruct (Hrest n c) as (fs & Hn & Hf). exists (fs ++ rejected [f] ++ out). rewrite Ho. cbn. rewrite Hn, <- !(assoc_L (++)). split; [done|].
    apply (woven_app F [] fs); [by apply woven_noise|]. apply woven_app; [apply woven_own|done].
Qed.

(** The frames a WebSocket carries before it is closed. *)
Fixpoint binaries (messages : list Message) : list bytes :=
  match messages with
  | Binary data :: messages => data :: binaries messages
  | OtherMessage :: messages => binaries messages
  | _ => []
  end.

Lemma messages_served meanwhile n messages tasks c : read_messages meanwhile n messages tasks c = serve meanwhile n (binaries messages) tasks c.
Proof.
  revert n tasks c. induction messages as [|[data| | |] messages IH]; intros n tasks c; cbn; [done| |done|by rewrite IH|done].
  destruct (handle_frame _ _ _). apply IH.
Qed.

(** A task writes events of its request and then, last, its reply. *)
Lemma task_answers F t c c' :
  writes F (others w) -> run_task hw_address w t c = Ok c' ->
  exists evs r out, outbound c' = outbound c ++ out ++ [Ncp.reply_frame r t.1] /\ Forall (is_event (Wire.request_id t.1)) evs /\ woven F evs out.
Proof.
  intros Hrest ([r c1] & Hr & [= <-])%bind_ok.
  destruct (handle_streams hw_address w (Wire.request_id t.1) F (fun n c => conj eq_refl (Hrest n c)) t.2 c r c1 Hr) as (_ & out & Ho & Hf).
  destruct (woven_split _ _ _ Hf) as (evs & He & Hw). exists evs, r, out. split_and!; [|done..]. cbn in Ho |- *. by rewrite Ho, <- (assoc_L (++)).
Qed.

(** C23: a connection loses and invents nothing, on a byte stream as on a WebSocket. However the bytes
    of a sequence of frames that a client writes are cut into reads, the server reads back exactly
    those frames, in order, and does what it does for the same frames in WebSocket messages, with
    other messages between them and anything after the one that closes: after its greeting, it spawns
    one task for each request among them, in their order, answers every other frame that has a header
    at once with one error for its command and request id, and answers nothing to a frame too short
    for a header. A spawned task that ends has written events of its own request and then, as its last
    frame, one reply for the command and the request id of its header. The tasks, the forwarder of
    notifications and the sweeper run side by side, so the replies of different requests may come in
    any order: all this holds whatever the others do to the state while the read loop and the task
    wait, as long as they only append frames to the queue, and their frames are the only others
    between those named. *)
Theorem server_answers_stream `{!Cobs, !CobsLaws} (F : bytes -> Prop) meanwhile frames chunks messages c tasks c' :
  writes F meanwhile -> Forall is_bytes frames -> concat chunks = concat (map write_frame frames) -> binaries messages = frames ->
  handle_stream_connection meanwhile chunks c = (tasks, c') ->
  read_stream [] chunks = ([], frames) /\ handle_connection meanwhile messages c = (tasks, c') /\ tasks = requests frames /\
  (exists out, outbound c' = outbound c ++ hello_frame c :: out /\ woven F (rejected frames) out) /\
  (forall t c1 c2, t ∈ tasks -> writes F (others w) -> run_task hw_address w t c1 = Ok c2 ->
    exists evs r out, outbound c2 = outbound c1 ++ out ++ [Ncp.reply_frame r t.1] /\
      Forall (is_event (Wire.request_id t.1)) evs /\ woven F evs out).
Proof.
  intros Hrest Hf Hc Hm. unfold handle_stream_connection, handle_connection. rewrite messages_served, Hm, (stream_read_back frames chunks Hf Hc).
  intros Hs. destruct (served F meanwhile 0 frames [] (greet c) tasks c' Hrest Hs) as (Ht & out & Ho & Hw). split_and!; [done..| |].
  - exists out. split; [|done]. rewrite Ho. cbn. by rewrite <- (assoc_L (++)).
  - intros t c1 c2 _. apply task_answers.
Qed.

(** ** A race *)

Lemma configure_replaces w0 p c r :
  (forall n c, others w0 n c = c) -> phy c = Some r ->
  exists c1 k, handle_configure w0 p c = Ok (inl Wire.Empty, c1) /\ stack c1 = Some k /\ stacks c1 !! k = Some (configured_stack w0 p).
Proof.
  intros Hid Hr. unfold handle_configure, teardown_stack, shut_down, wait, on_live, gets, modify, open_phy. cbv beta delta [mbind eff_bind]. cbn.
  destruct (stack c) as [k|]; cbn; rewrite ?Hid; cbn; rewrite Hr; cbn;
    (eexists _, _; split_and!; [reflexivity|reflexivity|]; cbn; rewrite lookup_app_r, Nat.sub_diag by done; done).
Qed.

(** A [configure] that runs while a network is being started replaces the stack; the start then marks
    the new stack, which nobody has started, as running. *)
Lemma start_overtaken w0 p c x c' :
  (forall n c, others w0 n c = c) ->
  (forall c, others w 0 c = match handle_configure w0 p c with Ok (_, c1) => c1 | _ => c end) ->
  handle_start_network w c = Ok (inl x, c') ->
  phase c' = Running /\ exists k, stack c' = Some k /\ stacks c' !! k = Some (configured_stack w0 p).
Proof.
  intros Hid Hw. unfold handle_start_network. cbv beta delta [mbind eff_bind].
  intros ([g c1] & Hg & Hk)%bind_ok. destruct g as [[k l]|err]; [|done]. apply bind_ok in Hk as ([y c2] & Hst & Hk).
  unfold start in Hst. apply bind_ok in Hst as (held & _ & Hst). apply bind_ok in Hst as (r & _ & Hst). apply bind_ok in Hst as ([z [s r']] & _ & [= <- <-]).
  set (c2 := set_stacks _ _) in Hk. destruct (configure_replaces w0 p c2 r' Hid eq_refl) as (c3 & k' & Hc & Hs & Hl).
  pose proof (Hw c2) as Hw2. rewrite Hc in Hw2. unfold wait, modify in Hk. cbn [res_bind] in Hk. rewrite Hw2 in Hk.
  destruct z as [[]|err]; cbn in Hk; [|done]. injection Hk as _ <-. cbn. rewrite Hs. by split; [|exists k'].
Qed.
End Frames.
End ServerFacts.
