(* ===== verification/Text.v ===== *)
(** * Addresses and keys as text: [src/crates/ziggurat-ieee-802154/src/types.rs]

    How addresses and keys are printed, and how they are read back. A text is its UTF-8 bytes. The
    crate [hex], which turns pairs of digits into bytes, is the parameter [Hex]. *)

From Stdlib Require Import Ascii.
From S2P Require Import Prelude Types.

Module Text.
#[local] Open Scope string_scope.
#[local] Open Scope Z_scope.

(** ** Printing *)

(** A digit of [{:x}] and of [{:X}]. *)
Definition digit (upper : bool) (n : Z) : Ascii.ascii :=
  Ascii.ascii_of_N (Z.to_N (if n <? 10 then 48 + n else if upper then 55 + n else 87 + n)).

(** [{:02x}] and [{:02X}] of a [u8]; [{:04x}] of a [u16]. *)
Definition hex2 (upper : bool) (b : Z) : string := String (digit upper (b / 16)) (String (digit upper (b mod 16)) "").
Definition hex4 (n : Z) : string := hex2 false (n / 256) +:+ hex2 false (n mod 256).

(** Pairs of digits with a colon between them. *)
Fixpoint colons (upper : bool) (bs : bytes) : string :=
  match bs with
  | [] => ""
  | [b] => hex2 upper b
  | b :: bs => hex2 upper b +:+ ":" +:+ colons upper bs
  end.

Definition nwk_field (n : Nwk) : string := "0x" +:+ hex4 n.
Definition eui64_field (e : Eui64) : string := colons false (reverse (eui64_bytes e)).
Definition pan_id_field (p : PanId) : string := "0x" +:+ hex4 p.
Definition key_field (k : Key) : string := colons false (key_bytes k).

(** [debug_tuple(name).field(..).finish()]. *)
Definition debug_tuple (name field : string) : string := name +:+ "(" +:+ field +:+ ")".
Definition nwk_debug (n : Nwk) : string := debug_tuple "Nwk" (nwk_field n).
Definition eui64_debug (e : Eui64) : string := debug_tuple "Eui64" (eui64_field e).
Definition pan_id_debug (p : PanId) : string := debug_tuple "PanId" (pan_id_field p).
Definition key_debug (k : Key) : string := debug_tuple "Key" (key_field k).

(** [format_hex]: the index is zero for the first byte only. *)
Fixpoint format_rest (bs : bytes) : string :=
  match bs with [] => "" | b :: bs => ":" +:+ hex2 true b +:+ format_rest bs end.
Definition format_hex (bs : bytes) : string :=
  match bs with [] => "" | b :: bs => hex2 true b +:+ format_rest bs end.

(** ** Reading *)

(** [text.replace(pat, "")] for a pattern that is not empty: the matches are found from the left and
    do not overlap; [skip] is what is left of one. *)
Fixpoint remove (pat : string) (skip : nat) (text : string) : string :=
  match text with
  | "" => ""
  | String c rest =>
      match skip with
      | S skip => remove pat skip rest
      | O => if String.prefix pat text then remove pat (String.length pat - 1) rest else String c (remove pat 0 rest)
      end
  end.

Section Read.
(** [hex::decode_to_slice] into a slice of [n] bytes, for a text of [2 n] characters. *)
Class Hex (HexError : Type) := decode_to_slice : nat -> string -> bytes + HexError.
Context {HexError : Type} `{!Hex HexError}.

Inductive FromHexError : Type := InvalidHexLength (expected got : nat) | InvalidHex (e : HexError).

Definition decode_hex (n : nat) (text : string) : res FromHexError bytes :=
  let text := remove "0x" 0 (remove ":" 0 text) in
  if negb (String.length text =? 2 * n)%nat then Err (InvalidHexLength (2 * n) (String.length text))
  else match decode_to_slice n text with inl bs => Ok bs | inr e => Err (InvalidHex e) end.

Definition u16_from_be_bytes (bs : bytes) : Z := from_le_bytes (reverse bs).

Definition nwk_try_from_hex (text : string) : res FromHexError Nwk := bs ← decode_hex 2 text; Ok (u16_from_be_bytes bs).
Definition eui64_try_from_hex (text : string) : res FromHexError Eui64 := bs ← decode_hex 8 text; Ok (mkEui64 (reverse bs)).
Definition pan_id_try_from_hex (text : string) : res FromHexError PanId := bs ← decode_hex 2 text; Ok (u16_from_be_bytes bs).
Definition key_try_from_hex (text : string) : res FromHexError Key := bs ← decode_hex 16 text; Ok (mkKey bs).

(** [unwrap]. *)
Definition unwrap_hex {A} (r : res FromHexError A) : may A := match r with Ok a => Ok a | _ => Panic end.
Definition nwk_from_hex (text : string) : may Nwk := unwrap_hex (nwk_try_from_hex text).
Definition eui64_from_hex (text : string) : may Eui64 := unwrap_hex (eui64_try_from_hex text).
Definition pan_id_from_hex (text : string) : may PanId := unwrap_hex (pan_id_try_from_hex text).
Definition key_from_hex (text : string) : may Key := unwrap_hex (key_try_from_hex text).

(** [Key::from_string]. *)
Definition key_from_string (text : bytes) : Key := mkKey text.

(** Pairs of digits, one case or the other. *)
Fixpoint pairs (upper : bool) (bs : bytes) : string :=
  match bs with [] => "" | b :: bs => hex2 upper b +:+ pairs upper bs end.

(** What the crate documents: pairs of digits of either case are read as the bytes they write. *)
Class HexLaws := hex_digits upper bs : is_bytes bs -> decode_to_slice (length bs) (pairs upper bs) = inl bs.
End Read.
Arguments FromHexError : clear implicits.

(** ** Reading back what was printed *)
(** A property of the sixteen digits. *)
Lemma every_digit (P : Z -> Prop) : Forall P (map Z.of_nat (seq 0 16)) -> forall n, 0 <= n < 16 -> P n.
Proof.
  rewrite Forall_forall. intros HP n Hn. apply HP, list_elem_of_In, in_map_iff. exists (Z.to_nat n). split; [lia|]. apply in_seq. lia.
Qed.

Lemma digit_plain upper n : 0 <= n < 16 -> digit upper n <> ":"%char /\ digit upper n <> "x"%char.
Proof. revert n. apply every_digit. destruct upper; repeat constructor; done. Qed.

Lemma byte_digits b : in_width 8 b -> 0 <= b / 16 < 16 /\ 0 <= b mod 16 < 16.
Proof. intros [Hb0 Hb1]. split; [split; [apply Z.div_pos; lia|apply Z.div_lt_upper_bound; lia]|apply Z.mod_pos_bound; lia]. Qed.

(** Neither a colon nor an [x]. *)
Fixpoint plain (text : string) : Prop :=
  match text with "" => True | String c rest => (c <> ":"%char /\ c <> "x"%char) /\ plain rest end.

Lemma plain_hex2 upper b rest : in_width 8 b -> plain rest -> plain (hex2 upper b +:+ rest).
Proof.
  intros [Hh Hl]%byte_digits Hr. cbn. split; [by apply digit_plain|]. split; [by apply digit_plain|done].
Qed.

Lemma plain_pairs upper bs : is_bytes bs -> plain (pairs upper bs).
Proof. induction 1 as [|b bs Hb Hbs IH]; [done|]. by apply plain_hex2. Qed.

Lemma append_cons c text rest : String c text +:+ rest = String c (text +:+ rest).
Proof. done. Qed.

Lemma remove_colon_cons c text : c <> ":"%char -> remove ":" 0 (String c text) = String c (remove ":" 0 text).
Proof. intros Hc. cbn [remove String.prefix]. by destruct (ascii_dec ":" c) as [<-|_]. Qed.

Lemma remove_colon_plain text rest : plain text -> remove ":" 0 (text +:+ rest) = text +:+ remove ":" 0 rest.
Proof. induction text as [|c text IH]; [done|]. intros [[Hc _] Ht]. by rewrite !append_cons, remove_colon_cons, IH. Qed.

Lemma remove_0x_plain text : plain text -> remove "0x" 0 text = text.
Proof.
  induction text as [|c text IH]; [done|]. intros [_ Ht]. cbn [remove]. rewrite IH by done.
  enough (String.prefix "0x" (String c text) = false) as -> by done. cbn [String.prefix]. destruct (ascii_dec "0" c); [|done].
  destruct text as [|d text]; [done|]. destruct Ht as [[_ Hd] _]. cbn [String.prefix]. destruct (ascii_dec "x" d) as [<-|]; [by destruct Hd|done].
Qed.

Lemma hex2_cons upper b rest : hex2 upper b +:+ rest = String (digit upper (b / 16)) (String (digit upper (b mod 16)) rest).
Proof. done. Qed.

Lemma remove_hex2 upper b rest : in_width 8 b -> remove ":" 0 (hex2 upper b +:+ rest) = hex2 upper b +:+ remove ":" 0 rest.
Proof. intros Hb. apply remove_colon_plain. by apply (plain_hex2 _ _ ""). Qed.

Lemma remove_colon_sep text : remove ":" 0 (":" +:+ text) = remove ":" 0 text.
Proof. by destruct text. Qed.

Lemma remove_colons upper bs : is_bytes bs -> remove ":" 0 (colons upper bs) = pairs upper bs.
Proof.
  induction 1 as [|b bs Hb Hbs IH]; [done|]. destruct bs as [|b' bs].
  - change (remove ":" 0 (hex2 upper b +:+ "") = hex2 upper b +:+ ""). by rewrite remove_hex2.
  - change (colons upper (b :: b' :: bs)) with (hex2 upper b +:+ ":" +:+ colons upper (b' :: bs)). rewrite remove_hex2 by done.
    by rewrite remove_colon_sep, IH.
Qed.

Lemma format_hex_colons bs : format_hex bs = colons true bs.
Proof.
  destruct bs as [|b bs]; [done|]. cbn [format_hex]. revert b. induction bs as [|b' bs IH]; intros b; [done|].
  cbn [format_rest]. rewrite (IH b'). done.
Qed.

Lemma length_pairs upper bs : String.length (pairs upper bs) = (2 * length bs)%nat.
Proof. induction bs as [|b bs IH]; [done|]. change (S (S (String.length (pairs upper bs))) = (2 * length (b :: bs))%nat). rewrite IH. cbn. lia. Qed.

Section RoundTrip.
Context {HexError : Type} `{!Hex HexError, !HexLaws}.

Lemma decode_pairs upper bs text : is_bytes bs -> remove "0x" 0 (remove ":" 0 text) = pairs upper bs -> decode_hex (length bs) text = Ok bs.
Proof.
  intros Hbs Ht. unfold decode_hex. rewrite Ht, length_pairs, Nat.eqb_refl. cbn [negb]. by rewrite hex_digits.
Qed.

Lemma decode_colons upper bs : is_bytes bs -> decode_hex (length bs) (colons upper bs) = Ok bs.
Proof. intros Hbs. apply (decode_pairs upper); [done|]. rewrite remove_colons by done. apply remove_0x_plain. by apply plain_pairs. Qed.

Lemma u16_bytes n : is_u16 n -> is_bytes [n / 256; n mod 256] /\ u16_from_be_bytes [n / 256; n mod 256] = n.
Proof.
  intros [H0 H1]. split.
  - repeat constructor; [apply Z.div_pos; lia|apply Z.div_lt_upper_bound; lia|apply Z.mod_pos_bound; lia..].
  - cbn. pose proof (Z_div_mod_eq_full n 256). lia.
Qed.

Lemma remove_0x_prefix text : remove "0x" 0 (remove ":" 0 (String "0" (String "x" text))) = remove "0x" 0 (remove ":" 0 text).
Proof. rewrite !remove_colon_cons by done. by destruct (remove ":" 0 text). Qed.

Lemma append_nil text : text +:+ remove ":" 0 "" = text.
Proof. induction text as [|c text IH]; [done|]. by rewrite append_cons, IH. Qed.

Lemma decode_0x n : is_u16 n -> decode_hex 2 ("0x" +:+ hex4 n) = Ok [n / 256; n mod 256].
Proof.
  intros Hn. destruct (u16_bytes n Hn) as [Hbs _]. apply (decode_pairs false [n / 256; n mod 256]); [done|].
  change ("0x" +:+ hex4 n) with (String "0" (String "x" (pairs false [n / 256; n mod 256] +:+ ""))).
  rewrite remove_0x_prefix, remove_colon_plain by (by apply plain_pairs). rewrite append_nil. apply remove_0x_plain. by apply plain_pairs.
Qed.

(** An address or a key is read back from what is printed of it: the field of the debug form of
    every network address, PAN id, extended address and key, and the capitals of [format_hex] for a
    key, parse to the value printed: the colons, the [0x] and the case do not matter. Reading never
    panics, whatever the text. *)
Lemma text_round_trip :
  (forall n, is_u16 n -> nwk_try_from_hex (nwk_field n) = Ok n /\ pan_id_try_from_hex (pan_id_field n) = Ok n) /\
  (forall e, eui64_ok e -> eui64_try_from_hex (eui64_field e) = Ok e) /\
  (forall k, key_ok k -> key_try_from_hex (key_field k) = Ok k /\ key_try_from_hex (format_hex (key_bytes k)) = Ok k) /\
  (forall n text, no_panic (decode_hex n text)).
Proof.
  split_and!.
  - intros n Hn. destruct (u16_bytes n Hn) as [_ Hv]. unfold nwk_try_from_hex, pan_id_try_from_hex, nwk_field, pan_id_field.
    rewrite decode_0x by done. cbn [mbind res_bind]. by rewrite Hv.
  - intros [bs] [Hl Hbs]. unfold eui64_try_from_hex, eui64_field. cbn [eui64_bytes] in *.
    assert (is_bytes (reverse bs)) as Hr by (by apply Forall_reverse). rewrite <- Hl, <- (length_reverse bs), decode_colons by done.
    cbn [mbind res_bind]. by rewrite reverse_involutive.
  - intros [bs] [Hl Hbs]. unfold key_try_from_hex, key_field. rewrite format_hex_colons. cbn [key_bytes] in *. rewrite <- Hl, !decode_colons by done. done.
  - intros n text. unfold decode_hex. destruct (negb _); [done|]. by destruct (decode_to_slice _ _).
Qed.
End RoundTrip.

(** ** A reader of digits *)
Definition digit_value (c : ascii) : option Z :=
  let n := Z.of_N (N_of_ascii c) in
  if (48 <=? n) && (n <=? 57) then Some (n - 48)
  else if (97 <=? n) && (n <=? 102) then Some (n - 87)
  else if (65 <=? n) && (n <=? 70) then Some (n - 55) else None.

Fixpoint read_pairs (text : string) : option bytes :=
  match text with
  | "" => Some []
  | String h (String l rest) =>
      h ← digit_value h; l ← digit_value l; bs ← read_pairs rest; Some (16 * h + l :: bs)
  | _ => None
  end.

Definition table_hex : Hex unit := fun _ text => match read_pairs text with Some bs => inl bs | None => inr tt end.
#[local] Existing Instance table_hex.

Lemma digit_value_digit upper n : 0 <= n < 16 -> digit_value (digit upper n) = Some n.
Proof. revert n. apply every_digit. destruct upper; repeat constructor; done. Qed.

Lemma table_hex_laws : HexLaws (HexError:=unit).
Proof.
  intros upper bs Hbs. unfold decode_to_slice, table_hex. enough (read_pairs (pairs upper bs) = Some bs) as -> by done.
  induction Hbs as [|b bs Hb Hbs IH]; [done|]. change (pairs upper (b :: bs)) with (hex2 upper b +:+ pairs upper bs). rewrite hex2_cons.
  cbn [read_pairs]. apply byte_digits in Hb as [Hh Hl]. rewrite !digit_value_digit, IH by done. cbn. rewrite <- Z_div_mod_eq_full. done.
Qed.

Lemma text_round_trip_witness : eui64_try_from_hex "00:12:4b:00:1e:17:ef:a8" = Ok (mkEui64 [0xa8; 0xef; 0x17; 0x1e; 0x00; 0x4b; 0x12; 0x00]).
Proof.
  destruct (text_round_trip (H:=table_hex_laws)) as (_ & He & _). apply (He (mkEui64 [0xa8; 0xef; 0x17; 0x1e; 0x00; 0x4b; 0x12; 0x00])).
  split; [done|]. vm_compute. repeat constructor; done.
Defined.

(** [0x] is dropped wherever it is, also inside the digits. *)
Lemma zero_x_anywhere : nwk_try_from_hex "120x34" = Ok 0x1234.
Proof. done. Qed.
End Text.
