(* ===== verification/Rekey.v ===== *)
(** * The rekeying tool: [src/crates/ziggurat-tools/src/bin/pcap_rekey.rs]

    It rewrites a capture so that every NWK frame secured with one network key is secured with
    another. The blocks of a capture are those of the [pcap-file] crate: an interface description and
    any other block are copied, and only the link type of the former is looked at. The files and the
    command line are left out; a run is the blocks read and the blocks written. *)

From S2P Require Import Prelude Effects Types AbstractBits Crypto Mac NwkCommands NwkFrame ApsFrame.

Module Rekey.
#[local] Existing Instances NwkFrame.NwkSecurityHeaderKeyId_eq_dec NwkFrame.NwkFrameType_eq_dec Mac.frame_bytes_payload.

(** "ZigBeeAlliance09". *)
Definition ZIGBEE_ALLIANCE_09 : Key :=
  mkKey [0x5A; 0x69; 0x67; 0x42; 0x65; 0x65; 0x41; 0x6C; 0x6C; 0x69; 0x61; 0x6E; 0x63; 0x65; 0x30; 0x39].

Inductive LinkType : Type := Tap | Raw.

Definition from_pcap_linktype (linktype : Z) : option LinkType :=
  if linktype =? 283 then Some Tap else if (linktype =? 195) || (linktype =? 230) then Some Raw else None.

Definition tap_header_len (data : bytes) : option nat :=
  if (length data <? 4)%nat then None
  else
    let header_len := Z.to_nat (from_le_bytes (take 2 (drop 2 data))) in
    if (header_len <? 4)%nat || (length data <? header_len)%nat then None else Some header_len.

(** [None] is the error [tt]: [.ok()?] on a result, [?] on an option, and [FrameBytes::from_slice(..).ok()?]. *)
Definition ok {E A} (m : res E A) : res unit A := Prelude.map_err (fun _ => tt) m.
Definition some {A} (o : option A) : res unit A := ok_or tt o.
Definition from_slice (bs : bytes) : res unit bytes := if (length bs <=? MAX_PHY_PACKET_SIZE)%nat then Ok bs else Err tt.

(** A call that does not touch the counter of rewritten commands. *)
Definition lift {A} (m : res unit A) : eff Z unit A := fun n =>
  match m with Ok x => Ok (inl x, n) | Err e => Ok (inr e, n) | Panic => Panic end.

(** [if let Some(x) = m]. *)
Definition maybe {A} (m : res unit A) : eff Z unit (option A) := fun n =>
  match m with Ok x => Ok (inl (Some x), n) | Err _ => Ok (inl None, n) | Panic => Panic end.

Definition count_rewrite : eff Z unit unit := modify (fun n => n + 1).

Section Rekey.
Context `{!AbstractBits Mac.FrameControl, !AbstractBits Mac.SuperframeSpecification, !AbstractBits Mac.AssociationRequestCommand}.
Context `{!AbstractBits Mac.AssociationResponseCommand, !AbstractBits Mac.DisassociationNotificationCommand}.
Context `{!AbstractBits NwkFrame.NwkFrameControl, !AbstractBits NwkFrame.NwkSourceRoute, !AbstractBits NwkFrame.NwkSecurityHeaderControlField}.
Context `{!NwkCommands.CommandCodecs, !ApsFrame.ApsCodecs, !Ccm, !BlockCipher}.

(** ** Transported keys *)

(** [new_descriptor]: the descriptor with its key replaced. *)
Definition with_key (d : ApsFrame.ApsNetworkKeyDescriptor) (key : Key) : ApsFrame.ApsNetworkKeyDescriptor :=
  ApsFrame.mkNetworkKeyDescriptor key (ApsFrame.nk_sequence_number d) (ApsFrame.nk_destination_address d) (ApsFrame.nk_source_address d).

(** [rewritten]. *)
Definition with_descriptor (f : ApsFrame.ApsCommandFrame) (ty : ApsFrame.ApsStandardKeyType) (d : ApsFrame.ApsNetworkKeyDescriptor) : ApsFrame.ApsCommandFrame :=
  ApsFrame.mkCommand (ApsFrame.cmd_control f) (ApsFrame.cmd_counter f)
    (ApsFrame.TransportKey (ApsFrame.mkTransportKey ty (ApsFrame.DescribeNetworkKey d))).

(** The command rewritten, or [None] for one that does not transport the old key. *)
Definition rewritten (f : ApsFrame.ApsCommandFrame) (old_key new_key : Key) : option ApsFrame.ApsCommandFrame :=
  match ApsFrame.command f with
  | ApsFrame.TransportKey c =>
      match ApsFrame.key_descriptor c with
      | ApsFrame.DescribeNetworkKey d =>
          if bool_decide (ApsFrame.nk_key d = old_key) then Some (with_descriptor f (ApsFrame.standard_key_type c) (with_key d new_key))
          else None
      | _ => None
      end
  | _ => None
  end.

(** A secured APS command, by the bits of its first byte. *)
Definition is_secured_command (aps : bytes) : bool :=
  match aps with
  | [] => false
  | frame_control :: _ => (Z.land frame_control 3 =? 1) && negb (Z.land frame_control 32 =? 0)
  end.

Definition rewrite_transport_key (aps : bytes) (old_key new_key aps_transport_key : Key) : res unit bytes :=
  if negb (is_secured_command aps) then Err tt
  else
    encrypted ← ok (ApsFrame.encrypted_command_from_bytes aps);
    command ← ok (ApsFrame.decrypt_command encrypted aps_transport_key);
    command ← some (rewritten command old_key new_key);
    encrypted ← ApsFrame.encrypt_command command aps_transport_key (ApsFrame.ec_aux_header encrypted);
    ApsFrame.encrypted_command_to_bytes encrypted.

(** ** Packets *)
Definition with_payload (f : NwkFrame.t) (p : NwkFrame.NwkPayload) : NwkFrame.t := NwkFrame.mk (NwkFrame.nwk_header f) (NwkFrame.aux_header f) p.

(** A payload with its transported key rewritten. *)
Definition rewrite_payload (f : NwkFrame.t) (old_key new_key aps_transport_key : Key) : eff Z unit NwkFrame.t :=
  match NwkFrame.payload f with
  | NwkFrame.Command _ => mret f
  | NwkFrame.Opaque aps =>
      new_aps ← maybe (rewrite_transport_key aps old_key new_key aps_transport_key);
      match new_aps with
      | None => mret f
      | Some new_aps =>
          _ ← count_rewrite;
          new_aps ← lift (from_slice new_aps);
          mret (with_payload f (NwkFrame.Opaque new_aps))
      end
  end.

(** The nonce needs the address of the originator. *)
Definition has_source (encrypted : NwkFrame.EncryptedNwkFrame) (a : NwkFrame.NwkAuxHeader) : bool :=
  bool_decide (is_Some (NwkFrame.extended_source a)) || bool_decide (is_Some (NwkFrame.source_ieee (NwkFrame.e_nwk_header encrypted))).

(** A frame secured with the network key. *)
Definition rekey_secured (encrypted : NwkFrame.EncryptedNwkFrame) (old_key new_key aps_transport_key : Key) : eff Z unit bytes :=
  a ← lift (some (NwkFrame.e_aux_header encrypted));
  if negb (bool_decide (NwkFrame.key_id (NwkFrame.security_control a) = NwkFrame.NetworkKey)) then raise tt
  else if negb (has_source encrypted a) then raise tt
  else
    decrypted ← lift (ok (NwkFrame.decrypt encrypted old_key));
    decrypted ← rewrite_payload decrypted old_key new_key aps_transport_key;
    encrypted ← lift (NwkFrame.encrypt decrypted new_key);
    lift (NwkFrame.to_bytes encrypted).

(** An unsecured join frame. *)
Definition rekey_unsecured (encrypted : NwkFrame.EncryptedNwkFrame) (old_key new_key aps_transport_key : Key) : eff Z unit bytes :=
  if negb (bool_decide (NwkFrame.frame_type (NwkFrame.frame_control (NwkFrame.e_nwk_header encrypted)) = NwkFrame.TypeData)) then raise tt
  else
    new_aps ← lift (rewrite_transport_key (NwkFrame.ciphertext encrypted) old_key new_key aps_transport_key);
    _ ← count_rewrite;
    new_aps ← lift (from_slice new_aps);
    lift (NwkFrame.to_bytes (NwkFrame.mkEncrypted (NwkFrame.e_nwk_header encrypted) None new_aps)).

Definition rekey_phy (phy : bytes) (old_key new_key aps_transport_key : Key) : eff Z unit bytes :=
  frame ← lift (ok (Mac.from_bytes phy));
  match frame with
  | Mac.Data data_frame =>
      encrypted ← lift (ok (NwkFrame.from_bytes (Mac.df_payload data_frame)));
      new_nwk_bytes ←
        (if NwkFrame.security (NwkFrame.frame_control (NwkFrame.e_nwk_header encrypted))
         then rekey_secured encrypted old_key new_key aps_transport_key
         else rekey_unsecured encrypted old_key new_key aps_transport_key);
      payload ← lift (from_slice new_nwk_bytes);
      lift (Mac.to_bytes (Mac.Data (Mac.mkDataFrame (Mac.df_header data_frame) payload 0)))
  | _ => raise tt
  end.

Definition rekey_packet (link_type : LinkType) (data : bytes) (old_key new_key aps_transport_key : Key) : eff Z unit bytes :=
  match link_type with
  | Raw => rekey_phy data old_key new_key aps_transport_key
  | Tap =>
      header_len ← lift (some (tap_header_len data));
      new_phy ← rekey_phy (drop header_len data) old_key new_key aps_transport_key;
      mret (take header_len data ++ new_phy)
  end.

Definition mac_pan_id (link_type : LinkType) (data : bytes) : res unit PanId :=
  phy ← match link_type with
        | Raw => Ok data
        | Tap => header_len ← some (tap_header_len data); Ok (drop header_len data)
        end;
  frame ← ok (Mac.from_bytes phy);
  some (match Mac.dest_pan_id (Mac.header frame) with Some pan => Some pan | None => Mac.src_pan_id (Mac.header frame) end).

(** ** The synthetic command *)
Definition coordinator : Eui64 := mkEui64 (replicate 8 0xAA).
Definition joining_device : Eui64 := mkEui64 (replicate 8 0xBB).

Definition aps_command (network_key : Key) (key_sequence_number : Z) : ApsFrame.ApsCommandFrame :=
  ApsFrame.mkCommand (ApsFrame.mkControl ApsFrame.TypeCommand ApsFrame.Unicast 0 true false false) 0
    (ApsFrame.TransportKey (ApsFrame.mkTransportKey ApsFrame.StandardNetworkKey (ApsFrame.DescribeNetworkKey
      (ApsFrame.mkNetworkKeyDescriptor network_key key_sequence_number joining_device coordinator)))).

Definition aps_aux_header : ApsFrame.ApsAuxHeader :=
  ApsFrame.mkAux (NwkFrame.mkSecurityControl NwkFrame.NoSecurity NwkFrame.KeyTransportKey true false) 0 (Some coordinator) None.

Definition nwk_header : NwkFrame.NwkHeader :=
  NwkFrame.mkHeader (NwkFrame.mkFrameControl NwkFrame.TypeData 2 NwkFrame.Suppress false false false false true false 0)
    0x1234 0x0000 30 0 None (Some coordinator) None None.

Definition mac_header (pan_id : PanId) : Mac.FrameHeader :=
  Mac.mkFrameHeader (Mac.mkFrameControl Mac.TypeData false false false true false false false Mac.ModeShort Mac.Ieee2006 Mac.ModeShort)
    (Some 0) (Some pan_id) (Some (AddrNwk 0x1234)) (Some pan_id) (Some (AddrNwk 0x0000)).

(** A base header and one record that declares a 16-bit FCS. *)
Definition tap_header : bytes := [0x00; 0x00; 0x0C; 0x00; 0x00; 0x00; 0x01; 0x00; 0x01; 0x00; 0x00; 0x00].

(** [FrameBytes::from_slice(..).expect(..)]. *)
Definition frame_bounded (bs : bytes) : may bytes := if (length bs <=? MAX_PHY_PACKET_SIZE)%nat then Ok bs else Panic.

Definition transport_key_packet (link_type : LinkType) (pan_id : PanId) (network_key : Key) (key_sequence_number : Z) (link_key : Key) : may bytes :=
  transport_key ← Crypto.key_transport_key link_key;
  sealed ← ApsFrame.encrypt_command (aps_command network_key key_sequence_number) transport_key aps_aux_header;
  aps_bytes ← ApsFrame.encrypted_command_to_bytes sealed;
  ciphertext ← frame_bounded aps_bytes;
  nwk_bytes ← NwkFrame.to_bytes (NwkFrame.mkEncrypted nwk_header None ciphertext);
  payload ← frame_bounded nwk_bytes;
  phy ← Mac.to_bytes (Mac.Data (Mac.mkDataFrame (mac_header pan_id) payload 0));
  Ok (match link_type with Raw => phy | Tap => tap_header ++ phy end).

(** ** Captures *)
Section Capture.
Context {Description Options Other : Type} (linktype : Description -> Z) (no_options : Options).

(** [EnhancedPacketBlock] and [Block]. *)
Record Packet := mkPacket {
  interface_id : Z;
  timestamp : Z;
  original_len : Z;
  data : bytes;
  options : Options
}.

Inductive Block : Type :=
| InterfaceDescription (idb : Description)
| EnhancedPacket (packet : Packet)
| OtherBlock (other : Other).

(** The arguments: the keys, and the key sequence number to announce. *)
Record Args := mkArgs {
  old_key : Key;
  new_key : Key;
  no_transport_key : bool;
  key_sequence_number : Z
}.

(** The locals of [main], with the blocks written. *)
Record Run := mkRun {
  link_types : list (option LinkType);
  transport_key_injected : bool;
  total : Z;
  rekeyed : Z;
  aps_rewrites : Z;
  written : list Block
}.

Definition init (args : Args) : Run := mkRun [] (no_transport_key args) 0 0 0 [].

Definition write_block (s : Run) (b : Block) : Run :=
  mkRun (link_types s) (transport_key_injected s) (total s) (rekeyed s) (aps_rewrites s) (written s ++ [b]).

Definition rekeyed_block (original : Packet) (new_data : bytes) : Block :=
  EnhancedPacket (mkPacket (interface_id original) (timestamp original) (Z.of_nat (length new_data) mod 2 ^ 32) new_data (options original)).

Definition inject_transport_key (args : Args) (id : Z) (link_type : LinkType) (pan_id : PanId) (s : Run) : may Run :=
  data ← transport_key_packet link_type pan_id (new_key args) (key_sequence_number args) ZIGBEE_ALLIANCE_09;
  Ok (write_block s (EnhancedPacket (mkPacket id 0 (Z.of_nat (length data) mod 2 ^ 32) data no_options))).

(** The first rekeyed frame names the PAN the new key is announced on. *)
Definition announce (args : Args) (link_type : LinkType) (packet : Packet) (s : Run) : may Run :=
  if transport_key_injected s then Ok s
  else
    match mac_pan_id link_type (data packet) with
    | Ok pan_id =>
        s ← inject_transport_key args (interface_id packet) link_type pan_id s;
        Ok (mkRun (link_types s) true (total s) (rekeyed s) (aps_rewrites s) (written s))
    | Err _ => Ok s
    | Panic => Panic
    end.

(** One turn of the loop of [main]. *)
Definition process (args : Args) (aps_transport_key : Key) (b : Block) (s : Run) : may Run :=
  match b with
  | InterfaceDescription idb =>
      let s := mkRun (link_types s ++ [from_pcap_linktype (linktype idb mod 2 ^ 16)]) (transport_key_injected s) (total s) (rekeyed s) (aps_rewrites s) (written s) in
      Ok (write_block s b)
  | EnhancedPacket packet =>
      let s := mkRun (link_types s) (transport_key_injected s) (total s + 1) (rekeyed s) (aps_rewrites s) (written s) in
      match link_types s !! Z.to_nat (interface_id packet) with
      | Some (Some link_type) =>
          '(r, n) ← rekey_packet link_type (data packet) (old_key args) (new_key args) aps_transport_key (aps_rewrites s);
          match r with
          | inl new_data =>
              s ← announce args link_type packet (mkRun (link_types s) (transport_key_injected s) (total s) (rekeyed s + 1) n (written s));
              Ok (write_block s (rekeyed_block packet new_data))
          | inr _ => Ok (write_block (mkRun (link_types s) (transport_key_injected s) (total s) (rekeyed s) n (written s)) b)
          end
      | _ => Ok (write_block s b)
      end
  | OtherBlock _ => Ok (write_block s b)
  end.

Fixpoint process_all (args : Args) (aps_transport_key : Key) (blocks : list Block) (s : Run) : may Run :=
  match blocks with
  | [] => Ok s
  | b :: blocks => s ← process args aps_transport_key b s; process_all args aps_transport_key blocks s
  end.

Definition main (args : Args) (blocks : list Block) : may Run :=
  aps_transport_key ← Crypto.key_transport_key ZIGBEE_ALLIANCE_09;
  process_all args aps_transport_key blocks (init args).
End Capture.
End Rekey.
End Rekey.
