(* ===== verification/RekeyFacts.v ===== *)
(** * What the rekeying tool does to a capture

    A frame secured with the old key reads under the new one as it did before, but for the network
    keys it transports; a synthetic command teaches the new key; everything else is copied. *)

From S2P Require Import Prelude Effects Types AbstractBits Codec Fcs Crypto CryptoFacts Mac MacFacts MacCodec NwkCommands NwkFrame NwkFrameFacts NwkCodec NwkWitness.
From S2P Require Import ApsFrame ApsFrameFacts ApsWitness Rekey.

Module RekeyFacts.
Import Rekey.
Import ApsFrame(ApsCommandFrame, ApsAuxHeader, cmd_control, cmd_counter, command, ec_aux_header).
Import ApsFrameFacts(control_ok, body_ok, aux_ok).
#[local] Existing Instances ApsFrame.control_bits ApsFrame.network_key_descriptor_bits ApsFrameFacts.control_laws ApsFrameFacts.control_size.
#[local] Existing Instances ApsFrameFacts.network_key_descriptor_laws ApsFrameFacts.network_key_descriptor_size ApsFrameFacts.security_control_laws ApsFrameFacts.security_control_size.
#[local] Existing Instance Mac.frame_bytes_payload.

(** The key of a descriptor is a plain array: any key fits. *)
Class KeyField `{!ApsFrame.ApsCodecs, !ApsFrameFacts.ApsCodecsLaws} := key_fits (d : ApsFrame.ApsNetworkKeyDescriptor) key :
  canonical d -> key_ok key -> canonical (with_key d key).

Section Facts.
Context `{!AbstractBits Mac.FrameControl, !AbstractBits Mac.SuperframeSpecification, !AbstractBits Mac.AssociationRequestCommand}.
Context `{!AbstractBits Mac.AssociationResponseCommand, !AbstractBits Mac.DisassociationNotificationCommand}.
Context `{!AbstractBits NwkFrame.NwkFrameControl, !AbstractBits NwkFrame.NwkSourceRoute, !AbstractBits NwkFrame.NwkSecurityHeaderControlField}.
Context `{!NwkCommands.CommandCodecs, !ApsFrame.ApsCodecs, !Ccm, !BlockCipher}.
Context `{!AbstractBitsLaws Mac.FrameControl, !FixedLayout Mac.FrameControl 2}.
Context `{!AbstractBitsLaws NwkFrame.NwkFrameControl, !AbstractBitsLaws NwkFrame.NwkSourceRoute, !FixedLayout NwkFrame.NwkFrameControl 2}.
Context `{!ApsFrameFacts.ApsCodecsLaws, !ApsFrameFacts.SecurityControlLaws, !NwkCommands.CommandCodecsLaws, !Crypto.CcmLaws, !Crypto.CcmBytes, !KeyField}.

(** ** Secured APS commands *)
Record aps_ok (c : ApsCommandFrame) (a : ApsAuxHeader) : Prop := {
  p_control : control_ok (cmd_control c) ApsFrame.TypeCommand true;
  p_body : body_ok (command c);
  p_aux : aux_ok a;
  p_source : is_Some (ApsFrame.extended_source a);
  p_room : forall payload, ApsFrame.payload_to_bytes (E:=Empty_set) c = Ok payload -> (length payload + Crypto.MIC_LENGTH <= MAX_PHY_PACKET_SIZE)%nat
}.

(** The bytes of a command protected with a key. *)
Definition sealed (key : Key) (a : ApsAuxHeader) (c : ApsCommandFrame) (bs : bytes) : Prop :=
  exists g, (forall E, ApsFrame.encrypt_command (E:=E) c key a = Ok g) /\ forall E, ApsFrame.encrypted_command_to_bytes (E:=E) g = Ok bs.

(** What comes before the ciphertext. *)
Definition clear_part {E} (c : ApsCommandFrame) (a : ApsAuxHeader) : res E bytes :=
  h ← ApsFrame.command_header (cmd_control c) (cmd_counter c); ApsFrame.aux_serialize h a.

Lemma seal_command key c a :
  aps_ok c a ->
  exists bs pre plain cipher g, sealed key a c bs /\ bs = pre ++ cipher /\ (forall E, clear_part (E:=E) c a = Ok pre) /\
    (forall E, ApsFrame.payload_to_bytes (E:=E) c = Ok plain) /\ length cipher = (length plain + Crypto.MIC_LENGTH)%nat /\
    (exists nonce aad, Crypto.software_encrypt_ccm (E:=Empty_set) key nonce aad plain = Ok cipher) /\
    is_secured_command bs = true /\ ApsFrame.encrypted_command_from_bytes bs = Ok g /\ ec_aux_header g = a /\ ApsFrame.decrypt_command g key = Ok c.
Proof.
  intros [Hc Hb Ha [e He] Hl]. destruct (ApsFrameFacts.aps_command_written c (proj1 Hc) Hb) as (b & plain & Hw & Hh & Hp & Hr).
  destruct (ApsFrameFacts.aps_payload_round_trip key a e [b; cmd_counter c] plain He (Hl _ (Hp _))) as (cipher & Henc & Hlen & Hd).
  destruct (ApsFrameFacts.aps_aux_written a Ha) as (ab & Haw & Hal & Har).
  destruct (ApsFrameFacts.control_dispatch _ _ _ _ Hc Hw) as [Ht Hs]. destruct (ApsFrameFacts.command_header_written _ (cmd_counter c) (proj1 Hc)) as (b' & Hw' & _ & Hpb).
  rewrite Hw in Hw'. injection Hw' as <-. set (g := ApsFrame.mkEncryptedCommand (cmd_control c) (cmd_counter c) a cipher).
  assert (forall E, ApsFrame.encrypted_command_to_bytes (E:=E) g = Ok (([b; cmd_counter c] ++ ab) ++ cipher)) as Hto.
  { intros E. unfold ApsFrame.encrypted_command_to_bytes. cbn [ApsFrame.ec_control ApsFrame.ec_counter g]. rewrite Hh. cbn [mbind res_bind].
    by rewrite Haw. }
  exists (([b; cmd_counter c] ++ ab) ++ cipher), ([b; cmd_counter c] ++ ab), plain, cipher, g. split_and!; try done.
  - exists g. split; [|exact Hto]. intros E. unfold ApsFrame.encrypt_command. rewrite Hh. cbn [mbind res_bind]. rewrite Hp. cbn [mbind res_bind]. by rewrite Henc.
  - intros E. unfold clear_part. rewrite Hh. apply Haw.
  - specialize (Henc Empty_set). unfold ApsFrame.encrypt_aps_payload in Henc. rewrite He in Henc. cbn [unwrap mbind res_bind] in Henc.
    apply bind_ok in Henc as ([nonce aad] & _ & Henc). unfold ApsFrame.expect_frame_bytes in Henc. destruct (_ <=? _)%nat; [|done]. by exists nonce, aad.
  - cbn. by rewrite Ht, Hs.
  - unfold ApsFrame.encrypted_command_from_bytes. rewrite <- (assoc_L (++)). cbn [app]. rewrite (proj2 (Nat.ltb_ge _ _)) by (cbn [length]; rewrite length_app; lia).
    rewrite Hpb. cbn [mbind res_bind]. rewrite Har. cbn [mbind res_bind]. rewrite ApsFrameFacts.frame_bytes_fits; [done|].
    unfold ApsFrameFacts.fits. rewrite Hlen. apply Hl, Hp.
  - unfold ApsFrame.decrypt_command. cbn [ApsFrame.ec_control ApsFrame.ec_counter ApsFrame.ec_aux_header ApsFrame.ec_ciphertext g]. rewrite He.
    cbn [ok_or mbind res_bind]. rewrite Hh. cbn [mbind res_bind]. rewrite Hd. cbn [mbind res_bind]. by rewrite Hr.
Qed.

Lemma sealed_unique key a c bs bs' : sealed key a c bs -> sealed key a c bs' -> bs = bs'.
Proof.
  intros (g & Hg & Hb) (g' & Hg' & Hb'). specialize (Hg Empty_set). specialize (Hg' Empty_set). rewrite Hg in Hg'. injection Hg' as <-.
  specialize (Hb Empty_set). specialize (Hb' Empty_set). rewrite Hb in Hb'. by injection Hb'.
Qed.

(** A command that transports the old key, and the same with the new one. *)
Lemma rewritten_inv c old new c' :
  rewritten c old new = Some c' ->
  exists ty d, command c = ApsFrame.TransportKey (ApsFrame.mkTransportKey ty (ApsFrame.DescribeNetworkKey d)) /\ ApsFrame.nk_key d = old /\
    c' = with_descriptor c ty (with_key d new).
Proof.
  unfold rewritten. destruct (command c) as [[ty [|d|]]| | | | | | |]; try done. cbn [ApsFrame.key_descriptor ApsFrame.standard_key_type].
  case_bool_decide; [|done]. intros [= <-]. by exists ty, d.
Qed.

Lemma transport_payload c ty d :
  command c = ApsFrame.TransportKey (ApsFrame.mkTransportKey ty (ApsFrame.DescribeNetworkKey d)) -> body_ok (command c) ->
  exists plain, (forall E, ApsFrame.payload_to_bytes (E:=E) c = Ok plain) /\ length plain = 35%nat /\ is_bytes plain.
Proof.
  intros Hc. rewrite Hc. cbn [body_ok ApsFrameFacts.body_ok]. unfold ApsFrameFacts.transport_ok. cbn [ApsFrame.standard_key_type ApsFrame.key_descriptor].
  destruct ty; try done. intros (bs & Hw & Hb & _)%read_after_write. pose proof (write_size _ _ Hw) as Hl.
  exists (0x05 :: 0x01 :: bs). split_and!.
  - intros E. unfold ApsFrame.payload_to_bytes. rewrite Hc. unfold ApsFrame.transport_key_to_bytes, to_abstract_bytes.
    cbn [ApsFrame.key_descriptor]. by rewrite Hw.
  - cbn [length]. lia.
  - repeat constructor; unfold in_width; cbn; try lia. done.
Qed.

Lemma rewritten_ok c a old new c' : aps_ok c a -> key_ok new -> rewritten c old new = Some c' -> aps_ok c' a.
Proof.
  intros Hok Hn (ty & d & Hc & _ & ->)%rewritten_inv. destruct Hok as [Hctl Hb Ha Hs _].
  assert (body_ok (command (with_descriptor c ty (with_key d new)))) as Hb'.
  { rewrite Hc in Hb. revert Hb. cbn. unfold ApsFrameFacts.transport_ok. cbn. destruct ty; try done. intros Hd. by apply key_fits. }
  split; [done..|]. intros payload Hp. destruct (transport_payload (with_descriptor c ty (with_key d new)) ty (with_key d new) eq_refl Hb') as (plain & Hw & Hl & _). rewrite Hw in Hp. injection Hp as <-.
  rewrite Hl. unfold Crypto.MIC_LENGTH, MAX_PHY_PACKET_SIZE. lia.
Qed.

(** Every command the transport key opens: one that transports the old key is rewritten to the same
    command with the new key, of the same length; any other is left alone. *)
Lemma rewrite_sealed tk a c bs old new :
  aps_ok c a -> key_ok new -> sealed tk a c bs ->
  match rewritten c old new with
  | Some c' => exists bs', sealed tk a c' bs' /\ rewrite_transport_key bs old new tk = Ok bs' /\ length bs' = length bs
  | None => rewrite_transport_key bs old new tk = Err tt
  end.
Proof.
  intros Hok Hn Hs. destruct (seal_command tk c a Hok) as (bs1 & pre & plain & cipher & g & Hs1 & Hb & Hpre & Hp & Hl & _ & His & Hfrom & Haux & Hd).
  rewrite (sealed_unique _ _ _ _ _ Hs Hs1) in *. unfold rewrite_transport_key. rewrite His. cbn [negb]. rewrite Hfrom. cbn [ok Prelude.map_err mbind res_bind].
  rewrite Hd. cbn [ok Prelude.map_err mbind res_bind]. destruct (rewritten c old new) as [c'|] eqn:Hr; [|done]. cbn [some ok_or mbind res_bind].
  pose proof (rewritten_ok c a old new c' Hok Hn Hr) as Hok'.
  destruct (seal_command tk c' a Hok') as (bs2 & pre2 & plain2 & cipher2 & g2 & (g3 & He3 & Hb3) & Hb2 & Hpre2 & Hp2 & Hl2 & _).
  apply rewritten_inv in Hr as (ty & d & Hc & _ & Hc').
  exists bs2. split; [by exists g3|]. rewrite Haux, He3. cbn [mbind res_bind]. split; [apply Hb3|].
  assert (pre2 = pre) as ->. { subst c'. specialize (Hpre Empty_set). specialize (Hpre2 Empty_set). unfold clear_part in *. cbn [with_descriptor cmd_control cmd_counter] in Hpre2. rewrite Hpre in Hpre2. by injection Hpre2. }
  destruct (transport_payload c ty d Hc (p_body _ _ Hok)) as (q & Hq & Hlq & _). specialize (Hp Empty_set).
  destruct (transport_payload c' ty (with_key d new)) as (q' & Hq' & Hlq' & _); [by subst c'|apply Hok'|]. specialize (Hp2 Empty_set). rewrite Hq' in Hp2.
  rewrite (Hq Empty_set) in Hp. injection Hp as <-. injection Hp2 as <-. subst. rewrite !length_app. lia.
Qed.

Lemma control_bytes_is_bytes {E} (v : NwkFrame.NwkSecurityHeaderControlField) bs : NwkFrame.control_bytes (E:=E) v = Ok bs -> is_bytes bs.
Proof.
  destruct (NwkFrameFacts.control_bytes_written v (ApsFrameFacts.security_control_fits v)) as (b & Hw & Hb & _). rewrite Hw. intros [= <-].
  by apply Forall_singleton.
Qed.

Lemma clear_is_bytes {E} c a pre : aps_ok c a -> is_u8 (cmd_counter c) -> clear_part (E:=E) c a = Ok pre -> is_bytes pre.
Proof.
  intros [[Hc _] _ [_ Hs Hq] _ _] Hn. destruct (read_after_write _ Hc) as (cb & Hw & Hb & _). pose proof (write_size _ _ Hw) as Hl.
  unfold clear_part, ApsFrame.command_header, ApsFrame.aux_serialize. rewrite (extend_written _ _ _ Hw) by (rewrite Hl; unfold MAX_PHY_PACKET_SIZE; lia).
  cbn [mbind res_bind]. intros (k & Hk%control_bytes_is_bytes & Hpre)%bind_ok. apply ok_inj in Hpre as <-.
  repeat apply is_bytes_app; eauto using NwkFrameFacts.ieee_is_bytes, is_bytes_to_le_bytes, NwkFrameFacts.multicast_is_bytes with zig.
Qed.

Lemma sealed_is_bytes key a c bs ty d :
  aps_ok c a -> is_u8 (cmd_counter c) -> command c = ApsFrame.TransportKey (ApsFrame.mkTransportKey ty (ApsFrame.DescribeNetworkKey d)) ->
  sealed key a c bs -> is_bytes bs.
Proof.
  intros Hok Hn Hc Hs. destruct (seal_command key c a Hok) as (bs1 & pre & plain & cipher & g & Hs1 & Hb & Hpre & Hp & _ & (nonce & aad & He) & _).
  rewrite (sealed_unique _ _ _ _ _ Hs Hs1), Hb. destruct (transport_payload c ty d Hc (p_body _ _ Hok)) as (q & Hq & _ & Hqb).
  specialize (Hp Empty_set). rewrite Hq in Hp. injection Hp as <-. apply is_bytes_app; [exact (clear_is_bytes c a pre Hok Hn (Hpre Empty_set))|].
  exact (CryptoFacts.ccm_is_bytes _ _ _ _ _ Hqb He).
Qed.

(** ** Frames on the air *)

(** The packet of a frame under a MAC header, secured with a key. *)
Definition on_air (key : Key) (h : Mac.FrameHeader) (f : NwkFrame.t) (phy : bytes) : Prop :=
  exists e nwk, NwkFrame.encrypt (E:=Empty_set) f key = Ok e /\ NwkFrame.to_bytes (E:=Empty_set) e = Ok nwk /\
    Mac.to_bytes (E:=Empty_set) (Mac.Data (Mac.mkDataFrame h nwk 0)) = Ok phy.

(** What the holder of a key reads in a packet. *)
Definition reads (key : Key) (phy : bytes) : option (Mac.FrameHeader * NwkFrame.t) :=
  match Mac.from_bytes phy with
  | Ok (Mac.Data d) =>
      match NwkFrame.from_bytes (Mac.df_payload d) with
      | Ok e => match NwkFrame.decrypt e key with Ok f => Some (Mac.df_header d, f) | _ => None end
      | _ => None
      end
  | _ => None
  end.

(** A data frame of the network, secured with the network key. *)
Record secured (h : Mac.FrameHeader) (f : NwkFrame.t) (a : NwkFrame.NwkAuxHeader) (plain : bytes) : Prop := {
  o_mac : MacFacts.header_ok h;
  o_data : Mac.frame_type (Mac.frame_control h) = Mac.TypeData;
  o_frame : NwkFrameFacts.securable f a plain;
  o_flag : NwkFrame.security (NwkFrame.frame_control (NwkFrame.nwk_header f)) = true;
  o_aux : NwkFrameFacts.aux_ok a;
  o_key : NwkFrame.key_id (NwkFrame.security_control a) = NwkFrame.NetworkKey;
  o_bytes : is_bytes plain
}.

(** How such a frame is written and read; the bytes before the ciphertext do not depend on the key
    or the payload. *)
Lemma on_air_written h nh a :
  MacFacts.header_ok h -> Mac.frame_type (Mac.frame_control h) = Mac.TypeData -> NwkFrameFacts.header_ok nh ->
  NwkFrame.security (NwkFrame.frame_control nh) = true -> NwkFrameFacts.aux_ok a ->
  exists hb pre, forall key f plain, NwkFrame.nwk_header f = nh -> secured h f a plain ->
  exists c nwk phy, is_bytes nwk /\ nwk = pre ++ c /\ length c = (length plain + Crypto.MIC_LENGTH)%nat /\
    phy = (hb ++ nwk) ++ to_le_bytes 2 (Fcs.compute_fcs (hb ++ nwk)) /\
    (forall E, NwkFrame.encrypt (E:=E) f key = Ok (NwkFrame.mkEncrypted nh (Some a) c)) /\
    (forall E, NwkFrame.to_bytes (E:=E) (NwkFrame.mkEncrypted nh (Some a) c) = Ok nwk) /\
    (forall E z, Mac.to_bytes (E:=E) (Mac.Data (Mac.mkDataFrame h nwk z)) = Ok phy) /\
    NwkFrame.decrypt (NwkFrame.mkEncrypted nh (Some a) c) key = Ok f /\
    ((length phy <= MAX_PHY_PACKET_SIZE)%nat ->
     Mac.from_bytes phy = Ok (Mac.Data (Mac.mkDataFrame h nwk (Fcs.compute_fcs (hb ++ nwk)))) /\
     NwkFrame.from_bytes nwk = Ok (NwkFrame.mkEncrypted nh (Some a) c)).
Proof.
  intros Hm Hty Hnh Hsec Ha. destruct (MacFacts.data_frame_written h Hm Hty) as (hb & Hhb & _ & Hmac).
  destruct (NwkFrameFacts.nwk_frame_written nh (Some a) Hnh) as (pre & Hpb & Hnwk); [by rewrite Hsec|]. exists hb, pre. intros key f plain <- Hs.
  destruct (NwkFrameFacts.nwk_sealed f a plain key (o_frame _ _ _ _ Hs)) as (nonce & aad & c & _ & Hc & Hl & He & Hd).
  rewrite (NwkFrameFacts.s_aux _ _ _ (o_frame _ _ _ _ Hs)) in He, Hd.
  pose proof (CryptoFacts.ccm_is_bytes _ _ _ _ _ (o_bytes _ _ _ _ Hs) (Hc Empty_set)) as Hcb. destruct (Hnwk c) as [Hto Hfrom].
  assert (is_bytes (pre ++ c)) as Hb by by apply is_bytes_app. destruct (Hmac _ Hb) as [Hmto Hmfrom].
  exists c, (pre ++ c), ((hb ++ pre ++ c) ++ to_le_bytes 2 (Fcs.compute_fcs (hb ++ pre ++ c))). split_and!; try done.
  intros Hmax. rewrite length_app, length_to_le_bytes in Hmax. split; [by apply Hmfrom|]. apply Hfrom. rewrite length_app in Hmax. lia.
Qed.

(** ** Rekeying *)

(** What the holder of an APS transport key reads in a payload as a secured command. *)
Definition opened (tk : Key) (aps : bytes) : res NwkFrame.ParseError ApsCommandFrame :=
  f ← ApsFrame.parse_aps_frame aps;
  match f with ApsFrame.EncryptedCommand g => ApsFrame.decrypt_command g tk | _ => Err (NwkFrame.Unsupported "not a secured command") end.

(** A command that hands over the network key [key], in the descriptor [d]. *)
Definition transports (c : ApsCommandFrame) (ty : ApsFrame.ApsStandardKeyType) (d : ApsFrame.ApsNetworkKeyDescriptor) (key : Key) : Prop :=
  command c = ApsFrame.TransportKey (ApsFrame.mkTransportKey ty (ApsFrame.DescribeNetworkKey d)) /\ ApsFrame.nk_key d = key.

(** The same command with another key. *)
Definition handing_over (c : ApsCommandFrame) (ty : ApsFrame.ApsStandardKeyType) (d : ApsFrame.ApsNetworkKeyDescriptor) (key : Key) : ApsCommandFrame :=
  ApsFrame.mkCommand (cmd_control c) (cmd_counter c) (ApsFrame.TransportKey (ApsFrame.mkTransportKey ty (ApsFrame.DescribeNetworkKey
    (ApsFrame.mkNetworkKeyDescriptor key (ApsFrame.nk_sequence_number d) (ApsFrame.nk_destination_address d) (ApsFrame.nk_source_address d))))).

(** What should become of a payload, and how many commands change: a payload that does not open, under
    the transport key, as a command that hands over the old key stays as it is; one that does hands
    over the new key instead, under the same protection. *)
Inductive carried (old new tk : Key) : NwkFrame.NwkPayload -> NwkFrame.NwkPayload -> Z -> Prop :=
| carried_command c : carried old new tk (NwkFrame.Command c) (NwkFrame.Command c) 0
| carried_kept aps : no_panic (opened tk aps) -> (forall c ty d, opened tk aps = Ok c -> ~ transports c ty d old) ->
    carried old new tk (NwkFrame.Opaque aps) (NwkFrame.Opaque aps) 0
| carried_key a c ty d aps aps' :
    aps_ok c a -> is_u8 (cmd_counter c) -> transports c ty d old -> sealed tk a c aps -> sealed tk a (handing_over c ty d new) aps' ->
    carried old new tk (NwkFrame.Opaque aps) (NwkFrame.Opaque aps') 1.

(** The code's decision is that one. *)
Lemma transports_rewritten c ty d old new : transports c ty d old -> rewritten c old new = Some (handing_over c ty d new).
Proof. intros [Hc Hk]. unfold rewritten. rewrite Hc. cbn [ApsFrame.key_descriptor]. by rewrite bool_decide_true. Qed.

Lemma opened_secured tk aps :
  is_secured_command aps = true -> opened tk aps = g ← ApsFrame.encrypted_command_from_bytes aps; ApsFrame.decrypt_command g tk.
Proof.
  destruct aps as [|b bs]; [done|]. cbn [is_secured_command]. intros [Hty%Z.eqb_eq Hsec]%andb_true_iff.
  unfold opened, ApsFrame.parse_aps_frame. rewrite Hty, Hsec. cbn [ApsFrame.frame_type_of_bits ok_or mbind res_bind].
  by destruct (ApsFrame.encrypted_command_from_bytes (b :: bs)).
Qed.

Lemma kept_not_rewritten tk aps old new :
  no_panic (opened tk aps) -> (forall c ty d, opened tk aps = Ok c -> ~ transports c ty d old) -> rewrite_transport_key aps old new tk = Err tt.
Proof.
  intros Hnp Hno. unfold rewrite_transport_key. destruct (is_secured_command aps) eqn:His; [|done]. cbn [negb].
  rewrite (opened_secured tk aps His) in Hnp, Hno. destruct (ApsFrame.encrypted_command_from_bytes aps) as [g|e|]; [|done..].
  cbn [ok Prelude.map_err mbind res_bind] in *. destruct (ApsFrame.decrypt_command g tk) as [c|e|]; [|done..]. cbn [ok Prelude.map_err mbind res_bind].
  destruct (rewritten c old new) as [c'|] eqn:Hr; [|done]. apply rewritten_inv in Hr as (ty & d & Hc & Hk & _). by destruct (Hno c ty d eq_refl).
Qed.

(** The payload is rewritten so, and the frame can be secured as before. *)
Lemma rewrite_carried h f a plain old new tk q k n :
  secured h f a plain -> key_ok new -> carried old new tk (NwkFrame.payload f) q k ->
  rewrite_payload f old new tk n = Ok (inl (with_payload f q), n + k) /\
  exists plain', secured h (with_payload f q) a plain' /\ length plain' = length plain.
Proof.
  intros Hs Hn Hc. unfold rewrite_payload. destruct f as [nh ah p]. cbn [NwkFrame.payload] in *. destruct Hc as [c|aps Hnp Hno|x c ty d aps aps' Hok Hu Htr Hs1 Hs2].
  - rewrite Z.add_0_r. split; [done|]. by exists plain.
  - erewrite eff_next by (unfold maybe; rewrite (kept_not_rewritten _ _ _ new Hnp Hno); reflexivity). rewrite Z.add_0_r. split; [done|]. by exists plain.
  - pose proof (transports_rewritten c ty d old new Htr) as Hr. pose proof (rewrite_sealed tk x c aps old new Hok Hn Hs1) as Hrw. rewrite Hr in Hrw. destruct Hrw as (bs & Hsb & Hrw & Hlen).
    rewrite <- (sealed_unique _ _ _ _ _ Hs2 Hsb) in *. destruct Hs as [Hm Hd Hf Hfl Ha Hk Hb].
    destruct Hf as [Hh Hax Hao Hsrc Hpay Hpl Hro]. cbn [NwkFrame.payload NwkFrame.payload_to_bytes] in Hpl. injection Hpl as <-.
    assert (length aps' <= MAX_PHY_PACKET_SIZE)%nat as Hmax by lia. split.
    + erewrite eff_next by (unfold maybe; rewrite Hrw; reflexivity). cbn beta iota. erewrite eff_next by reflexivity.
      erewrite eff_next by (unfold lift, from_slice; rewrite (proj2 (Nat.leb_le _ _) Hmax); reflexivity). done.
    + exists aps'. split; [|done]. split; try done.
      * split; try done. by rewrite Hlen.
      * eapply (sealed_is_bytes tk x _ aps'); [exact (rewritten_ok _ _ _ _ _ Hok Hn Hr)|exact Hu|reflexivity|done].
Qed.

Lemma lift_ok {A} (m : res unit A) x n : m = Ok x -> lift m n = Ok (inl x, n).
Proof. by intros ->. Qed.

Lemma ok_ok {E A} (m : res E A) x : m = Ok x -> ok m = Ok x.
Proof. by intros ->. Qed.

Lemma rekey_phy_secured h f a plain old new tk phy q k n :
  secured h f a plain -> key_ok new -> on_air old h f phy -> (length phy <= MAX_PHY_PACKET_SIZE)%nat ->
  carried old new tk (NwkFrame.payload f) q k ->
  exists phy', rekey_phy phy old new tk n = Ok (inl phy', n + k) /\ length phy' = length phy /\
    on_air new h (with_payload f q) phy' /\ reads new phy' = Some (h, with_payload f q).
Proof.
  intros Hs Hn (e & nwk & He & Hw & Hm) Hmax Hc. destruct (rewrite_carried h f a plain old new tk q k n Hs Hn Hc) as (Hrw & plain' & Hs' & Hlen).
  destruct Hs as [Hmac Hd Hf Hfl Ha Hk Hb] eqn:HH. clear HH.
  destruct (on_air_written h (NwkFrame.nwk_header f) a Hmac Hd (NwkFrameFacts.s_header _ _ _ Hf) Hfl Ha) as (hb & pre & Hair).
  destruct (Hair old f plain eq_refl Hs) as (c & nwk1 & phy1 & _ & Hn1 & Hl1 & Hp1 & He1 & Hw1 & Hm1 & Hd1 & Hr1).
  rewrite He1 in He. injection He as <-. rewrite Hw1 in Hw. injection Hw as <-. rewrite Hm1 in Hm. injection Hm as <-.
  destruct (Hr1 Hmax) as [Hmf Hnf]. clear Hr1.
  destruct (Hair new (with_payload f q) plain' eq_refl Hs') as (c2 & nwk2 & phy2 & _ & Hn2 & Hl2 & Hp2 & He2 & Hw2 & Hm2 & Hd2 & Hr2).
  assert (length phy2 = length phy1) as Hpl by (subst; rewrite !length_app, !length_to_le_bytes; lia).
  assert (length nwk2 <= MAX_PHY_PACKET_SIZE)%nat as Hn2l by (rewrite <- Hpl, Hp2, !length_app in Hmax; lia).
  rewrite <- Hpl in Hmax. destruct (Hr2 Hmax) as [Hmf2 Hnf2]. exists phy2. split_and!; [|done| |].
  - unfold rekey_phy. erewrite eff_next by apply lift_ok, ok_ok, Hmf. cbn beta iota. cbn [Mac.df_payload Mac.df_header].
    erewrite eff_next by apply lift_ok, ok_ok, Hnf. cbn beta iota. cbn [NwkFrame.e_nwk_header]. rewrite Hfl.
    erewrite (eff_next _ _ n nwk2 (n + k)).
    + erewrite eff_next by (apply lift_ok; unfold from_slice; rewrite (proj2 (Nat.leb_le _ _) Hn2l); reflexivity). apply lift_ok, Hm2.
    + unfold rekey_secured. erewrite eff_next by (apply lift_ok; reflexivity). cbn beta. rewrite bool_decide_true by done. cbn [negb].
      assert (has_source (NwkFrame.mkEncrypted (NwkFrame.nwk_header f) (Some a) c) a = true) as ->.
      { unfold has_source. cbn [NwkFrame.e_nwk_header]. apply orb_true_iff. destruct (NwkFrameFacts.s_source _ _ _ Hf); [left|right]; by apply bool_decide_true. }
      cbn [negb]. erewrite eff_next by apply lift_ok, ok_ok, Hd1. cbn beta. erewrite eff_next by apply Hrw. cbn beta.
      erewrite eff_next by apply lift_ok, He2. apply lift_ok, Hw2.
  - exists (NwkFrame.mkEncrypted (NwkFrame.nwk_header f) (Some a) c2), nwk2. split_and!; [apply He2|apply Hw2|apply Hm2].
  - unfold reads. rewrite Hmf2. cbn [Mac.df_payload Mac.df_header]. by rewrite Hnf2, Hd2.
Qed.

(** A packet of a capture: a pseudo-header, if the link type has one, and what was on the air. *)
Definition captured (lt : LinkType) (pseudo phy : bytes) : Prop :=
  match lt with Raw => pseudo = [] | Tap => tap_header_len (pseudo ++ phy) = Some (length pseudo) end.

(** The length of the pseudo-header does not depend on what follows it, only on its length. *)
Lemma captured_same lt pseudo phy phy' : captured lt pseudo phy -> length phy' = length phy -> captured lt pseudo phy'.
Proof.
  destruct lt; [|done]. cbn [captured]. unfold tap_header_len. rewrite !length_app. intros Hc ->. revert Hc. destruct (_ <? 4)%nat; [done|].
  destruct (decide (4 <= length pseudo)%nat) as [Hl|Hl].
  - by rewrite !drop_app_le, !take_app_le by (rewrite ?length_drop; lia).
  - destruct (_ || _) eqn:Hor; [done|]. intros [= Hx]. apply orb_false_iff in Hor as [Hx'%Nat.ltb_ge _]. lia.
Qed.

(** C26: rekeying a capture changes nothing but the keys: a packet that holds a data frame secured with
    the old network key becomes a packet of the same length, with the same pseudo-header, that holds
    the same MAC header and the same NWK frame secured with the new key, and the holder of the new
    key reads exactly that frame in it. The payload is the same too, unless it is a secured APS
    command that opens under the transport key the tool is given and hands over the old network key:
    that one then hands over the new key, every other field the same, under the same protection. So a
    command that hands over some other key stays, and so does one that opens under another key: the
    tool is given the key derived from the well-known link key only, and a command under a device's
    own link key is left as it is. (Of a payload that stays it is assumed that reading it as a command
    does not panic, which it only would in a codec that cannot write back a header it has read.) *)
Theorem rekeyed_packet_reads_the_same h f a plain lt pseudo phy old new tk q k n :
  secured h f a plain -> key_ok new -> on_air old h f phy -> (length phy <= MAX_PHY_PACKET_SIZE)%nat -> captured lt pseudo phy ->
  carried old new tk (NwkFrame.payload f) q k ->
  exists phy', rekey_packet lt (pseudo ++ phy) old new tk n = Ok (inl (pseudo ++ phy'), n + k) /\ length phy' = length phy /\
    captured lt pseudo phy' /\ on_air new h (with_payload f q) phy' /\ reads new phy' = Some (h, with_payload f q).
Proof.
  intros Hs Hn Ha Hm Hp Hc. destruct (rekey_phy_secured h f a plain old new tk phy q k n Hs Hn Ha Hm Hc) as (phy' & Hr & Hl & Ha' & Hrd).
  exists phy'. split_and!; [|done|by apply (captured_same _ _ phy)|done..]. unfold rekey_packet. destruct lt; cbn [captured] in Hp.
  - erewrite eff_next by (apply lift_ok; unfold some; rewrite Hp; reflexivity). cbn beta. rewrite drop_app_length, take_app_length.
    erewrite eff_next by apply Hr. done.
  - by rewrite Hp.
Qed.

(** ** The synthetic command *)
Definition descriptor (key : Key) (seq : Z) : ApsFrame.ApsNetworkKeyDescriptor := ApsFrame.mkNetworkKeyDescriptor key seq joining_device coordinator.

(** Its headers and its descriptor have fields that fit. *)
Record synthetic_ok (pan : PanId) (key : Key) (seq : Z) : Prop := {
  y_mac : canonical (Mac.frame_control (mac_header pan));
  y_pan : is_u16 pan;
  y_nwk : canonical (NwkFrame.frame_control nwk_header);
  y_aps : canonical (cmd_control (aps_command key seq));
  y_key : canonical (descriptor key seq)
}.

Lemma eui_fits x : is_u8 x -> eui64_ok (mkEui64 (replicate 8 x)).
Proof. intros Hx. split; [done|]. by repeat (apply Forall_cons; split; [exact Hx|]). Qed.

Lemma synthetic_aps pan key seq : synthetic_ok pan key seq -> aps_ok (aps_command key seq) aps_aux_header.
Proof.
  intros [_ _ _ Ha Hk]. assert (body_ok (command (aps_command key seq))) as Hb by exact Hk. split; [done|done| |by eexists|].
  - split; [by split|by apply eui_fits; split|done].
  - intros payload Hp. destruct (transport_payload (aps_command key seq) ApsFrame.StandardNetworkKey (descriptor key seq) eq_refl Hb) as (q & Hq & Hl & _).
    rewrite Hq in Hp. injection Hp as <-. rewrite Hl. unfold Crypto.MIC_LENGTH, MAX_PHY_PACKET_SIZE. lia.
Qed.

Lemma synthetic_mac pan key seq : synthetic_ok pan key seq -> MacFacts.header_ok (mac_header pan).
Proof. intros [Hm Hp _ _ _]. split; try done; by split. Qed.

Lemma synthetic_nwk pan key seq : synthetic_ok pan key seq -> NwkFrameFacts.header_ok nwk_header.
Proof. intros [_ _ Hn _ _]. split; try done; try by split. by apply eui_fits; split. Qed.

(** The length of the command, 54 bytes. *)
Lemma synthetic_aps_length key seq tk bs : aps_ok (aps_command key seq) aps_aux_header -> sealed tk aps_aux_header (aps_command key seq) bs -> length bs = 54%nat.
Proof.
  intros Hok Hs. destruct (seal_command tk _ _ Hok) as (bs1 & pre & plain & cipher & g & Hs1 & Hb & Hpre & Hp & Hl & _).
  rewrite (sealed_unique _ _ _ _ _ Hs Hs1), Hb, length_app, Hl.
  destruct (transport_payload (aps_command key seq) ApsFrame.StandardNetworkKey (descriptor key seq) eq_refl (p_body _ _ Hok)) as (q & Hq & Hlq & _).
  specialize (Hp Empty_set). rewrite Hq in Hp. injection Hp as <-. rewrite Hlq. cut (length pre = 15%nat); [unfold Crypto.MIC_LENGTH; lia|].
  specialize (Hpre Empty_set). unfold clear_part in Hpre. destruct (ApsFrameFacts.command_header_written _ (cmd_counter (aps_command key seq)) (proj1 (p_control _ _ Hok))) as (b & _ & Hh & _).
  rewrite Hh in Hpre. cbn [mbind res_bind] in Hpre. unfold ApsFrame.aux_serialize in Hpre.
  destruct (ApsFrameFacts.security_control_written (ApsFrame.security_control aps_aux_header)) as (x & Hx & _). rewrite Hx in Hpre. by injection Hpre as <-.
Qed.

(** The bytes around the command do not depend on the key. *)
Lemma synthetic_written pan key0 seq0 :
  synthetic_ok pan key0 seq0 ->
  exists hb pre, forall bs, is_bytes bs -> length bs = 54%nat ->
    let phy := (hb ++ pre ++ bs) ++ to_le_bytes 2 (Fcs.compute_fcs (hb ++ pre ++ bs)) in
    (length (pre ++ bs) <= MAX_PHY_PACKET_SIZE)%nat /\ length phy = 81%nat /\
    (forall E, NwkFrame.to_bytes (E:=E) (NwkFrame.mkEncrypted nwk_header None bs) = Ok (pre ++ bs)) /\
    (forall E, Mac.to_bytes (E:=E) (Mac.Data (Mac.mkDataFrame (mac_header pan) (pre ++ bs) 0)) = Ok phy) /\
    Mac.from_bytes phy = Ok (Mac.Data (Mac.mkDataFrame (mac_header pan) (pre ++ bs) (Fcs.compute_fcs (hb ++ pre ++ bs)))) /\
    NwkFrame.from_bytes (pre ++ bs) = Ok (NwkFrame.mkEncrypted nwk_header None bs).
Proof.
  intros Hok. destruct (MacFacts.data_frame_written _ (synthetic_mac _ _ _ Hok) eq_refl) as (hb & _ & Hhb & Hmac).
  destruct (NwkFrameFacts.nwk_frame_written nwk_header None (synthetic_nwk _ _ _ Hok) I) as (pre & Hpb & Hnwk). exists hb, pre. intros bs Hb Hl.
  assert (length hb = 9%nat) as Hhl.
  { specialize (Hhb Empty_set). unfold Mac.header_bytes in Hhb. destruct (read_after_write _ (y_mac _ _ _ Hok)) as (w & Hw & _). pose proof (write_size _ _ Hw) as Hwl.
    rewrite (extend_written _ _ _ Hw) in Hhb by (rewrite Hwl; unfold MAX_PHY_PACKET_SIZE; lia). cbn in Hhb. injection Hhb as <-. rewrite length_app, Hwl. done. }
  assert (length pre = 16%nat) as Hpl.
  { destruct (Hnwk []) as [Hto _]. specialize (Hto Empty_set). rewrite app_nil_r in Hto. unfold NwkFrame.to_bytes, NwkFrame.extend_frame_bytes, NwkFrame.header_serialize in Hto.
    cbn [NwkFrame.e_nwk_header NwkFrame.e_aux_header NwkFrame.ciphertext] in Hto. destruct (read_after_write _ (y_nwk _ _ _ Hok)) as (w & Hw & _).
    pose proof (write_size _ _ Hw) as Hwl. rewrite (extend_written _ _ _ Hw) in Hto by (rewrite Hwl; unfold MAX_PHY_PACKET_SIZE; lia).
    cbn in Hto. injection Hto as <-. rewrite app_nil_r, length_app, Hwl. done. }
  assert (is_bytes (pre ++ bs)) as Hpbs by by apply is_bytes_app. destruct (Hmac _ Hpbs) as [Hto Hfrom]. destruct (Hnwk bs) as [Hnto Hnfrom].
  assert (length (pre ++ bs) = 70%nat) as H70 by (rewrite length_app; lia). cbn zeta.
  split_and!; [rewrite H70; unfold MAX_PHY_PACKET_SIZE; lia|rewrite !length_app, length_to_le_bytes; rewrite length_app in H70; lia|done|done| |].
  - apply Hfrom. rewrite length_app, H70, Hhl. unfold MAX_PHY_PACKET_SIZE. lia.
  - apply Hnfrom. rewrite H70. unfold MAX_PHY_PACKET_SIZE. lia.
Qed.

Definition pseudo_of (lt : LinkType) : bytes := match lt with Raw => [] | Tap => tap_header end.

Lemma pseudo_captured lt phy : captured lt (pseudo_of lt) phy.
Proof. destruct lt; [|done]. cbn [captured pseudo_of]. unfold tap_header_len. rewrite length_app. cbn [length tap_header]. by rewrite (proj2 (Nat.ltb_ge _ _)) by lia. Qed.

Lemma strip_pseudo lt phy : match lt with Raw => Ok (pseudo_of lt ++ phy) | Tap => header_len ← some (tap_header_len (pseudo_of lt ++ phy)); Ok (drop header_len (pseudo_of lt ++ phy)) end = Ok phy.
Proof. destruct lt; [|done]. pose proof (pseudo_captured Tap phy) as Hc. cbn [captured] in Hc. rewrite Hc. cbn [some ok_or mbind res_bind]. by rewrite drop_app_length. Qed.

Lemma frame_bounded_fits bs : (length bs <= MAX_PHY_PACKET_SIZE)%nat -> frame_bounded bs = Ok bs.
Proof. intros Hl. unfold frame_bounded. by rewrite (proj2 (Nat.leb_le _ _) Hl). Qed.

(** The packet that announces a key, and that of the command in it. *)
Lemma synthetic_packet lt pan key seq link tk :
  synthetic_ok pan key seq -> Crypto.key_transport_key link = Ok tk ->
  exists hb pre bs, is_bytes bs /\ sealed tk aps_aux_header (aps_command key seq) bs /\
    transport_key_packet lt pan key seq link = Ok (pseudo_of lt ++ (hb ++ pre ++ bs) ++ to_le_bytes 2 (Fcs.compute_fcs (hb ++ pre ++ bs))) /\
    forall bs', is_bytes bs' -> length bs' = 54%nat ->
      let phy := (hb ++ pre ++ bs') ++ to_le_bytes 2 (Fcs.compute_fcs (hb ++ pre ++ bs')) in
      (length (pre ++ bs') <= MAX_PHY_PACKET_SIZE)%nat /\ length phy = 81%nat /\
      (forall E, NwkFrame.to_bytes (E:=E) (NwkFrame.mkEncrypted nwk_header None bs') = Ok (pre ++ bs')) /\
      (forall E, Mac.to_bytes (E:=E) (Mac.Data (Mac.mkDataFrame (mac_header pan) (pre ++ bs') 0)) = Ok phy) /\
      Mac.from_bytes phy = Ok (Mac.Data (Mac.mkDataFrame (mac_header pan) (pre ++ bs') (Fcs.compute_fcs (hb ++ pre ++ bs')))) /\
      NwkFrame.from_bytes (pre ++ bs') = Ok (NwkFrame.mkEncrypted nwk_header None bs').
Proof.
  intros Hok Htk. pose proof (synthetic_aps _ _ _ Hok) as Ha. destruct (synthetic_written pan key seq Hok) as (hb & pre & Hw).
  destruct (seal_command tk _ _ Ha) as (bs & _ & _ & _ & g & Hs & _). pose proof (synthetic_aps_length key seq tk bs Ha Hs) as Hl.
  assert (is_bytes bs) as Hb by exact (sealed_is_bytes tk _ _ bs _ _ Ha ltac:(by split) eq_refl Hs).
  exists hb, pre, bs. split_and!; [done|done| |exact Hw]. destruct (Hw bs Hb Hl) as (Hlp & _ & Hn & Hm & _). destruct Hs as (g' & He & Ht).
  unfold transport_key_packet. rewrite Htk. cbn [mbind res_bind]. rewrite He. cbn [mbind res_bind]. rewrite Ht. cbn [mbind res_bind].
  rewrite frame_bounded_fits by (rewrite Hl; unfold MAX_PHY_PACKET_SIZE; lia). cbn [mbind res_bind]. rewrite Hn. cbn [mbind res_bind].
  rewrite frame_bounded_fits by done. cbn [mbind res_bind]. rewrite Hm. cbn [mbind res_bind]. by destruct lt.
Qed.

(** An unsecured frame whose command is rewritten. *)
Lemma unsecured_rekeyed h nh phy phy' nwk nwk' bs bs' z old new tk n :
  Mac.from_bytes phy = Ok (Mac.Data (Mac.mkDataFrame h nwk z)) -> NwkFrame.from_bytes nwk = Ok (NwkFrame.mkEncrypted nh None bs) ->
  NwkFrame.security (NwkFrame.frame_control nh) = false -> NwkFrame.frame_type (NwkFrame.frame_control nh) = NwkFrame.TypeData ->
  rewrite_transport_key bs old new tk = Ok bs' -> (length bs' <= MAX_PHY_PACKET_SIZE)%nat ->
  NwkFrame.to_bytes (E:=unit) (NwkFrame.mkEncrypted nh None bs') = Ok nwk' -> (length nwk' <= MAX_PHY_PACKET_SIZE)%nat ->
  Mac.to_bytes (E:=unit) (Mac.Data (Mac.mkDataFrame h nwk' 0)) = Ok phy' ->
  rekey_phy phy old new tk n = Ok (inl phy', n + 1).
Proof.
  intros Hmf Hnf Hsec Hty Hrw Hl Hn Hl' Hm. unfold rekey_phy. erewrite eff_next by apply lift_ok, ok_ok, Hmf. cbn beta iota. cbn [Mac.df_payload Mac.df_header].
  erewrite eff_next by apply lift_ok, ok_ok, Hnf. cbn beta. cbn [NwkFrame.e_nwk_header]. rewrite Hsec. erewrite (eff_next _ _ n nwk' (n + 1)).
  - erewrite eff_next by (apply lift_ok; unfold from_slice; rewrite (proj2 (Nat.leb_le _ _) Hl'); reflexivity). apply lift_ok, Hm.
  - unfold rekey_unsecured. cbn [NwkFrame.e_nwk_header NwkFrame.ciphertext]. rewrite bool_decide_true by done. cbn [negb].
    erewrite eff_next by apply lift_ok, Hrw. cbn beta. erewrite eff_next by reflexivity.
    erewrite eff_next by (apply lift_ok; unfold from_slice; rewrite (proj2 (Nat.leb_le _ _) Hl); reflexivity). apply lift_ok, Hn.
Qed.

(** The synthetic packet teaches the key it is made for: on the PAN it is made for, it parses as an
    unsecured NWK data frame with a secured APS command, and whoever holds the link key (Wireshark
    holds the well-known one) opens the command and finds the network key with its sequence number;
    and the tool itself rekeys such a packet to the one it would have made for the new key. *)
Lemma announced_key_is_learned lt pan key seq link tk new n :
  synthetic_ok pan key seq -> Crypto.key_transport_key link = Ok tk -> key_ok new ->
  exists data phy d e g data', transport_key_packet lt pan key seq link = Ok data /\ mac_pan_id lt data = Ok pan /\
    data = pseudo_of lt ++ phy /\ Mac.from_bytes phy = Ok (Mac.Data d) /\ NwkFrame.from_bytes (Mac.df_payload d) = Ok e /\ NwkFrame.e_aux_header e = None /\
    ApsFrame.parse_aps_frame (NwkFrame.ciphertext e) = Ok (ApsFrame.EncryptedCommand g) /\ ApsFrame.decrypt_command g tk = Ok (aps_command key seq) /\
    transport_key_packet lt pan new seq link = Ok data' /\ rekey_packet lt data key new tk n = Ok (inl data', n + 1).
Proof.
  intros Hok Htk Hnew. destruct (synthetic_packet lt pan key seq link tk Hok Htk) as (hb & pre & bs & Hb & Hs & Hpkt & Hw).
  pose proof (synthetic_aps _ _ _ Hok) as Ha. pose proof (synthetic_aps_length key seq tk bs Ha Hs) as Hl.
  destruct (Hw bs Hb Hl) as (Hlp & _ & Hn & Hm & Hmf & Hnf). cbn zeta in Hmf. set (phy := (hb ++ pre ++ bs) ++ _) in *.
  destruct (seal_command tk _ _ Ha) as (bs1 & _ & _ & _ & g & Hs1 & _ & _ & _ & _ & _ & His & Hfrom & _ & Hd). rewrite <- (sealed_unique _ _ _ _ _ Hs Hs1) in His, Hfrom.
  pose proof (rewrite_sealed tk aps_aux_header (aps_command key seq) bs key new Ha Hnew Hs) as Hrw.
  assert (rewritten (aps_command key seq) key new = Some (aps_command new seq)) as Hr by (cbn; by rewrite bool_decide_true).
  rewrite Hr in Hrw. destruct Hrw as (bs2 & Hs2 & Hrw & Hl2). rewrite Hl in Hl2.
  assert (is_bytes bs2) as Hb2 by exact (sealed_is_bytes tk _ _ bs2 _ _ (rewritten_ok _ _ _ _ _ Ha Hnew Hr) ltac:(by split) eq_refl Hs2).
  assert (synthetic_ok pan new seq) as Hok2.
  { destruct Hok as [? ? ? ? Hk]. split; try done. exact (key_fits (descriptor key seq) new Hk Hnew). }
  destruct (synthetic_packet lt pan new seq link tk Hok2 Htk) as (hb' & pre' & bs' & Hb' & Hs' & Hpkt' & Hw').
  rewrite (sealed_unique _ _ _ _ _ Hs' Hs2) in Hpkt'. destruct (Hw bs2 Hb2 Hl2) as (Hlp2 & _ & Hn2 & Hm2 & _). destruct (Hw' bs2 Hb2 Hl2) as (_ & _ & Hn3 & Hm3 & _).
  specialize (Hn2 Empty_set) as Hsame. rewrite (Hn3 Empty_set) in Hsame. apply ok_inj in Hsame. rewrite Hsame in Hm3, Hpkt'.
  specialize (Hm2 Empty_set) as Hsame'. rewrite (Hm3 Empty_set) in Hsame'. apply ok_inj in Hsame'. rewrite Hsame' in Hpkt'.
  exists (pseudo_of lt ++ phy), phy, (Mac.mkDataFrame (mac_header pan) (pre ++ bs) (Fcs.compute_fcs (hb ++ pre ++ bs))), (NwkFrame.mkEncrypted nwk_header None bs), g.
  eexists. split_and!; [exact Hpkt| |done|exact Hmf|exact Hnf|done| |exact Hd|exact Hpkt'|].
  - unfold mac_pan_id. rewrite strip_pseudo. cbn [mbind res_bind]. by rewrite (ok_ok _ _ Hmf).
  - cbn [NwkFrame.ciphertext]. destruct bs as [|b bs]; [done|]. cbn in His. apply andb_true_iff in His as [Hty%Z.eqb_eq Hsec].
    unfold ApsFrame.parse_aps_frame. rewrite Hty, Hsec. cbn [ApsFrame.frame_type_of_bits ok_or mbind res_bind]. by rewrite Hfrom.
  - pose proof (unsecured_rekeyed _ _ _ _ _ _ _ _ _ _ _ _ n Hmf Hnf eq_refl eq_refl Hrw ltac:(rewrite Hl2; unfold MAX_PHY_PACKET_SIZE; lia) (Hn2 _) Hlp2 (Hm2 _)) as Hphy.
    unfold rekey_packet. destruct lt; [|exact Hphy]. pose proof (pseudo_captured Tap phy) as Hc. cbn [captured] in Hc.
    erewrite eff_next by (apply lift_ok; unfold some; rewrite Hc; reflexivity). cbn beta. rewrite drop_app_length, take_app_length. erewrite eff_next by exact Hphy. done.
Qed.
End Facts.

(** ** Captures *)
Section Captures.
Context `{!AbstractBits Mac.FrameControl, !AbstractBits Mac.SuperframeSpecification, !AbstractBits Mac.AssociationRequestCommand}.
Context `{!AbstractBits Mac.AssociationResponseCommand, !AbstractBits Mac.DisassociationNotificationCommand}.
Context `{!AbstractBits NwkFrame.NwkFrameControl, !AbstractBits NwkFrame.NwkSourceRoute, !AbstractBits NwkFrame.NwkSecurityHeaderControlField}.
Context `{!NwkCommands.CommandCodecs, !ApsFrame.ApsCodecs, !Ccm, !BlockCipher}.
Context {Description Options Other : Type} (linktype : Description -> Z) (no_options : Options) (args : Args) (tk : Key).

Abbreviation Block := (Block (Description:=Description) (Options:=Options) (Other:=Other)).
Abbreviation Run := (Run (Description:=Description) (Options:=Options) (Other:=Other)).

(** A block that takes the place of another: itself, or for a packet its rekeyed form on the same
    interface, at the same time, with the same options. *)
Definition in_place_of (b b' : Block) : Prop :=
  b' = b \/
  match b, b' with
  | EnhancedPacket p, EnhancedPacket p' =>
      interface_id p' = interface_id p /\ timestamp p' = timestamp p /\ options p' = options p /\
      exists lt n n', rekey_packet lt (data p) (old_key args) (new_key args) tk n = Ok (inl (data p'), n')
  | _, _ => False
  end.

(** A block that announces the new key. *)
Definition announces (b : Block) : Prop :=
  match b with
  | EnhancedPacket p => exists lt pan, transport_key_packet lt pan (new_key args) (key_sequence_number args) ZIGBEE_ALLIANCE_09 = Ok (data p)
  | _ => False
  end.

Definition is_packet (b : Block) : Z := match b with EnhancedPacket _ => 1 | _ => 0 end.

(** The blocks that take the places of the input, and at most one announcement among them. *)
Inductive rewrites : bool -> list Block -> bool -> list Block -> Prop :=
| rewrites_nil i : rewrites i [] i []
| rewrites_block i b b' bs i' out : in_place_of b b' -> rewrites i bs i' out -> rewrites i (b :: bs) i' (b' :: out)
| rewrites_announce b b' bs i' out x :
    announces x -> in_place_of b b' -> rewrites true bs i' out -> rewrites false (b :: bs) i' (x :: b' :: out).

Lemma announce_spec lt p s s' :
  announce no_options args lt p s = Ok s' ->
  total s' = total s /\ rekeyed s' = rekeyed s /\ link_types s' = link_types s /\
  ((written s' = written s /\ transport_key_injected s' = transport_key_injected s) \/
   exists x : Block, announces x /\ transport_key_injected s = false /\ transport_key_injected s' = true /\ written s' = written s ++ [x]).
Proof.
  unfold announce. destruct (transport_key_injected s) eqn:Hi; [intros [= <-]; split_and!; [done..|]; left; by rewrite Hi|].
  destruct (mac_pan_id lt (data p)) as [pan|e|]; [|intros [= <-]; split_and!; [done..|]; left; by rewrite Hi|done].
  intros (s1 & (bs & Hp & [= <-])%bind_ok & [= <-])%bind_ok. split_and!; [done..|]. right. eexists. split; [|done]. by exists lt, pan.
Qed.

(** A block that is copied. *)
Lemma copied (b : Block) (s : Run) (n : Z) (links : list (option LinkType)) (s' : Run) (rewrites : Z) :
  0 <= n -> Ok (E:=Empty_set) (write_block (mkRun links (transport_key_injected s) (total s + n) (rekeyed s) rewrites (written s)) b) = Ok s' ->
  total s' = total s + n /\ 0 <= rekeyed s' - rekeyed s <= n /\
  exists b', in_place_of b b' /\
    ((written s' = written s ++ [b'] /\ transport_key_injected s' = transport_key_injected s) \/
     exists x, announces x /\ transport_key_injected s = false /\ transport_key_injected s' = true /\ written s' = written s ++ [x; b']).
Proof. intros Hn [= <-]. cbn. split_and!; [lia..|]. exists b. split; [by left|]. by left. Qed.

Lemma process_spec b s s' :
  process linktype no_options args tk b s = Ok s' ->
  total s' = total s + is_packet b /\ 0 <= rekeyed s' - rekeyed s <= is_packet b /\
  exists b', in_place_of b b' /\
    ((written s' = written s ++ [b'] /\ transport_key_injected s' = transport_key_injected s) \/
     exists x, announces x /\ transport_key_injected s = false /\ transport_key_injected s' = true /\ written s' = written s ++ [x; b']).
Proof.
  destruct b as [idb|p|o]; cbn [process is_packet]; [| |].
  1: intros Hs; apply (copied _ _ 0 (link_types s ++ [from_pcap_linktype (linktype idb mod 2 ^ 16)]) _ (aps_rewrites s)); [done|by rewrite Z.add_0_r].
  2: intros Hs; apply (copied _ _ 0 (link_types s) _ (aps_rewrites s)); [done|by destruct s; rewrite Z.add_0_r].
  destruct (link_types _ !! _) as [[lt|]|]; [|by apply (copied _ _ 1 (link_types s) _ (aps_rewrites s))..].
  intros ([[new_data|e] n] & Hr & Hk)%bind_ok.
  - apply bind_ok in Hk as (s1 & (Ht & Hrk & _ & Hw)%announce_spec & [= <-]). cbn in *. rewrite Ht, Hrk. split_and!; [lia..|].
    exists (rekeyed_block p new_data). split.
    + right. cbn. split_and!; [done..|]. by eexists lt, _, n.
    + destruct Hw as [[Hw Hi]|(x & Hx & Hi & Hi' & Hw)]; rewrite Hw; [by left|]. right. exists x. by rewrite <- (assoc_L (++)).
  - by apply (copied _ _ 1 (link_types s) _ n).
Qed.

(** A run of the tool: every block of the input is in the output, in its order, itself or rekeyed in
    its place; an announcement is added at most once, before a block, and not when it was declined;
    every packet is counted, and no more packets are rekeyed than were counted. *)
Lemma capture_rewritten blocks s s' :
  process_all linktype no_options args tk blocks s = Ok s' ->
  total s' = total s + foldr Z.add 0 (is_packet <$> blocks) /\ 0 <= rekeyed s' - rekeyed s <= total s' - total s /\
  exists out, written s' = written s ++ out /\ rewrites (transport_key_injected s) blocks (transport_key_injected s') out.
Proof.
  revert s. induction blocks as [|b blocks IH]; intros s; cbn [process_all].
  - intros [= <-]. cbn. split_and!; [lia..|]. exists []. rewrite app_nil_r. split; [done|constructor].
  - intros (s1 & (Ht & Hr & b' & Hb & Hw)%process_spec & Hs)%bind_ok. destruct (IH s1 Hs) as (Ht' & Hr' & out & Hout & Hre). cbn [fmap list_fmap foldr].
    split_and!; [lia..|]. destruct Hw as [[Hw Hi]|(x & Hx & Hi & Hi' & Hw)].
    + exists (b' :: out). rewrite Hout, Hw, <- (assoc_L (++)). split; [done|]. rewrite <- Hi. by constructor.
    + exists (x :: b' :: out). rewrite Hout, Hw, <- (assoc_L (++)). split; [done|]. rewrite Hi. rewrite Hi' in Hre. by constructor.
Qed.
End Captures.
End RekeyFacts.

(** ** The theorems on concrete packets

    A device that joins is sent the network key in a secured frame; the capture of it is rekeyed. *)
Module RekeyWitness.
Import Rekey RekeyFacts.
Import NwkWitness(eui, ex_key, ex_header, ex_aux, ex_mac_header).
#[local] Existing Instances NwkWitness.checksum_ccm NwkWitness.checksum_ccm_laws NwkWitness.checksum_ccm_bytes NwkWitness.command_codecs NwkWitness.command_codecs_laws ApsWitness.aps_codecs ApsWitness.aps_codecs_laws ApsWitness.aps_security_control_laws.
#[local] Existing Instances NwkCodec.control_bits NwkCodec.control_laws NwkCodec.control_layout NwkCodec.security_bits NwkCodec.route_bits NwkCodec.route_laws.
#[local] Existing Instances MacCodec.control_bits MacCodec.control_laws MacCodec.control_layout MacCodec.superframe_bits MacCodec.association_bits MacCodec.response_bits MacCodec.disassociation_bits.
#[local] Existing Instance Mac.frame_bytes_payload.
#[local] Instance xor_cipher : BlockCipher := fun key block => zip_with Z.lxor key block.

#[local] Instance descriptor_key : KeyField.
Proof. intros d key (Hk & Hn & H1 & H2) Hkey. by split. Qed.

Definition ex_new : Key := mkKey (replicate 16 0x33).
Definition ex_tk : Key := mkKey (replicate 16 0x11).
Definition ex_seal (key : Key) : bytes :=
  match (e ← ApsFrame.encrypt_command (E:=Empty_set) (aps_command key 7) ex_tk aps_aux_header; ApsFrame.encrypted_command_to_bytes e) with Ok bs => bs | _ => [] end.
Definition ex_frame : NwkFrame.t := NwkFrame.mk (ex_header NwkFrame.TypeData 0x0000) (Some (ex_aux 1000)) (NwkFrame.Opaque (ex_seal ex_key)).
Definition ex_phy : bytes :=
  match (e ← NwkFrame.encrypt (E:=Empty_set) ex_frame ex_key; nwk ← NwkFrame.to_bytes e; Mac.to_bytes (Mac.Data (Mac.mkDataFrame ex_mac_header nwk 0))) with
  | Ok bs => bs | _ => [] end.

Lemma ex_key_ok b : is_u8 b -> key_ok (mkKey (replicate 16 b)).
Proof. intros Hb. split; [done|]. by apply Forall_replicate. Qed.

Lemma ex_synthetic b : is_u8 b -> synthetic_ok 0x3ef5 (mkKey (replicate 16 b)) 7.
Proof.
  intros Hb. split; try done. split; [by apply ex_key_ok|]. split; [by split|]. split; apply eui_fits; by split.
Qed.

Lemma ex_sealed b : is_u8 b -> sealed ex_tk aps_aux_header (aps_command (mkKey (replicate 16 b)) 7) (ex_seal (mkKey (replicate 16 b))).
Proof.
  intros Hb. destruct (seal_command ex_tk _ _ (synthetic_aps _ _ _ (ex_synthetic b Hb))) as (bs & _ & _ & _ & _ & Hs & _).
  assert (ex_seal (mkKey (replicate 16 b)) = bs) as ->; [|done]. destruct Hs as (g & He & Ht). unfold ex_seal. rewrite He. cbn [mbind res_bind]. by rewrite Ht.
Qed.

Lemma ex_secured : secured ex_mac_header ex_frame (ex_aux 1000) (ex_seal ex_key).
Proof.
  split; try done.
  - constructor; [apply NwkWitness.ex_header_ok; by split|done|apply NwkWitness.ex_aux_ok|left; by eexists|done|reflexivity|].
    vm_compute. lia.
  - apply (NwkWitness.ex_aux_ok NwkFrame.NoSecurity).
  - apply (bool_decide_unpack _). vm_compute. exact I.
Qed.

(** A frame whose command hands over a third key, which is not the old one. *)
Definition ex_third : Key := mkKey (replicate 16 0x44).
Definition ex_other : NwkFrame.t := NwkFrame.mk (ex_header NwkFrame.TypeData 0x0000) (Some (ex_aux 1000)) (NwkFrame.Opaque (ex_seal ex_third)).
Definition ex_other_phy : bytes :=
  match (e ← NwkFrame.encrypt (E:=Empty_set) ex_other ex_key; nwk ← NwkFrame.to_bytes e; Mac.to_bytes (Mac.Data (Mac.mkDataFrame ex_mac_header nwk 0))) with
  | Ok bs => bs | _ => [] end.

Lemma ex_other_secured : secured ex_mac_header ex_other (ex_aux 1000) (ex_seal ex_third).
Proof.
  split; try done.
  - constructor; [apply NwkWitness.ex_header_ok; by split|done|apply NwkWitness.ex_aux_ok|left; by eexists|done|reflexivity|].
    vm_compute. lia.
  - apply (NwkWitness.ex_aux_ok NwkFrame.NoSecurity).
  - apply (bool_decide_unpack _). vm_compute. exact I.
Qed.

Lemma ex_other_opened : opened ex_tk (ex_seal ex_third) = Ok (aps_command ex_third 7).
Proof. vm_compute. reflexivity. Qed.

Lemma rekeyed_packet_reads_the_same_witness :
  (exists phy', rekey_packet Raw ([] ++ ex_other_phy) ex_key ex_new ex_tk 0 = Ok (inl ([] ++ phy'), 0) /\
    reads ex_new phy' = Some (ex_mac_header, ex_other)) /\
  exists phy', rekey_packet Tap (tap_header ++ ex_phy) ex_key ex_new ex_tk 0 = Ok (inl (tap_header ++ phy'), 1) /\ length phy' = length ex_phy /\
    captured Tap tap_header phy' /\ on_air ex_new ex_mac_header (with_payload ex_frame (NwkFrame.Opaque (ex_seal ex_new))) phy' /\
    reads ex_new phy' = Some (ex_mac_header, with_payload ex_frame (NwkFrame.Opaque (ex_seal ex_new))).
Proof.
  split.
  { destruct (rekeyed_packet_reads_the_same ex_mac_header ex_other (ex_aux 1000) (ex_seal ex_third) Raw [] ex_other_phy ex_key ex_new ex_tk
      (NwkFrame.Opaque (ex_seal ex_third)) 0 0) as (phy' & Hr & _ & _ & _ & Hrd).
    - exact ex_other_secured.
    - apply ex_key_ok. by split.
    - eexists _, _. split_and!; [vm_compute; reflexivity..|]. vm_compute. reflexivity.
    - vm_compute. lia.
    - done.
    - apply carried_kept; [by rewrite ex_other_opened|]. intros c ty d Ho [Hc Hk]. rewrite ex_other_opened in Ho. injection Ho as <-.
      injection Hc as <- <-. by injection Hk.
    - exists phy'. split; [exact Hr|exact Hrd]. }
  apply (rekeyed_packet_reads_the_same ex_mac_header ex_frame (ex_aux 1000) (ex_seal ex_key) Tap tap_header ex_phy ex_key ex_new ex_tk (NwkFrame.Opaque (ex_seal ex_new)) 1 0).
  - exact ex_secured.
  - apply ex_key_ok. by split.
  - eexists _, _. split_and!; [vm_compute; reflexivity..|]. vm_compute. reflexivity.
  - vm_compute. lia.
  - vm_compute. reflexivity.
  - apply (carried_key _ _ _ aps_aux_header (aps_command ex_key 7) ApsFrame.StandardNetworkKey (descriptor ex_key 7)).
    + apply (synthetic_aps 0x3ef5), ex_synthetic. by split.
    + by split.
    + by split.
    + apply ex_sealed. by split.
    + apply ex_sealed. by split.
Defined.

Definition ex_link_tk : Key := match Crypto.key_transport_key ZIGBEE_ALLIANCE_09 with Ok k => k | _ => ex_tk end.

Lemma announced_key_is_learned_witness :
  exists data phy d e g data', transport_key_packet Tap 0x3ef5 ex_key 7 ZIGBEE_ALLIANCE_09 = Ok data /\ mac_pan_id Tap data = Ok 0x3ef5 /\
    data = pseudo_of Tap ++ phy /\ Mac.from_bytes phy = Ok (Mac.Data d) /\ NwkFrame.from_bytes (Mac.df_payload d) = Ok e /\ NwkFrame.e_aux_header e = None /\
    ApsFrame.parse_aps_frame (NwkFrame.ciphertext e) = Ok (ApsFrame.EncryptedCommand g) /\ ApsFrame.decrypt_command g ex_link_tk = Ok (aps_command ex_key 7) /\
    transport_key_packet Tap 0x3ef5 ex_new 7 ZIGBEE_ALLIANCE_09 = Ok data' /\ rekey_packet Tap data ex_key ex_new ex_link_tk 0 = Ok (inl data', 1).
Proof.
  apply (announced_key_is_learned Tap 0x3ef5 ex_key 7 ZIGBEE_ALLIANCE_09 ex_link_tk ex_new 0).
  - apply ex_synthetic. by split.
  - vm_compute. reflexivity.
  - apply ex_key_ok. by split.
Defined.

(** A capture of an interface and the packet: the packet is rekeyed and the new key announced first. *)
Definition ex_capture : list (Block (Description:=Z) (Options:=unit) (Other:=unit)) :=
  [OtherBlock tt; InterfaceDescription 283; EnhancedPacket (mkPacket 0 1000 0 (tap_header ++ ex_phy) tt); EnhancedPacket (mkPacket 1 2000 0 [1] tt)].
Lemma ex_capture_rekeyed :
  match main (fun z => z) tt (mkArgs ex_key ex_new false 7) ex_capture with
  | Ok s => total s = 2 /\ rekeyed s = 1 /\ length (written s) = 5%nat /\ transport_key_injected s = true
  | _ => False
  end.
Proof. vm_compute. done. Qed.
End RekeyWitness.
