(* ===== verification/HostWitness.v ===== *)
(** * The theorems of the host's side on a concrete run

    The run of the stack's witness, seen by the host that asked for its message; then a restart from
    the network state read off it, and a second message. *)

From S2P Require Import Prelude Flat Types Constants AbstractBits Codec Mac NwkSecurity Addresses Neighbors.
From S2P Require Import SendTypes Sends SendsFacts Crypto NwkCommands NwkFrame Receive NextHop ApsFrame ApsSecurity MacCodec NwkCodec NwkWitness ApsWitness Zdp.
From S2P Require Import Stack StackSend StackNwk StackAps StackRun StackSteps StackLink StackSystem StackWitness Wire SendTracker Bridge HostSystem Effects Radio Surface Ncp NcpFacts Server ServerFacts.

Module HostWitness.
Import Stack StackSend StackAps StackSteps StackLink StackSystem StackWitness HostSystem.
Import NwkWitness(no_codec, eui).
#[local] Existing Instances NwkWitness.checksum_ccm NwkWitness.command_codecs ApsWitness.aps_codecs.
#[local] Existing Instances NwkCodec.control_bits NwkCodec.security_bits NwkCodec.route_bits NwkCodec.gp_bits.
#[local] Existing Instances MacCodec.control_bits MacCodec.superframe_bits MacCodec.association_bits MacCodec.response_bits MacCodec.disassociation_bits.
#[local] Existing Instances StackWitness.xor_cipher StackWitness.zdp_codecs.

Lemma ex_accepted : run (mkSys ex_new None []) (take 3 ex_labels) (mkSys ex_s3 None []).
Proof. eapply run_cons; [apply ex_first|]. eapply run_cons; [apply ex_second|]. eapply run_cons; [apply ex_asked|]. apply run_nil. Qed.

Lemma ex_unacked : run (mkSys ex_s3 None []) [Secured 501; Silent] ex_x5.
Proof. eapply run_cons; [apply ex_sent|]. eapply run_cons; [apply ex_unanswered|]. apply run_nil. Qed.

(** A sweep while the frame is still being tried, another send accepted, and a sweep at the end. *)
Definition ex_ops : list SendTracker.op :=
  [SendTracker.Sweep (status_of (stack ex_x5)); SendTracker.Insert 78 (1, 1%nat) SendTracker.UnicastNoAck; SendTracker.Sweep (status_of (stack ex_x7))].

Lemma ex_host : host 77 (mkSys ex_s3 None []) ex_ops ex_x7.
Proof.
  eapply host_sweep; [apply ex_unacked|]. apply host_insert; [done|]. eapply host_sweep; [apply ex_after|]. apply host_nil.
Qed.

Lemma host_learns_once_witness :
  SendTracker.due 77 SendTracker.UnicastApsAck (status_of (stack ex_x7) (0, 0%nat)) <> [] /\
  SendTracker.confirms_of 77 (SendTracker.run (SendTracker.insert SendTracker.new 77 (0, 0%nat) SendTracker.UnicastApsAck) ex_ops).1 =
    SendTracker.due 77 SendTracker.UnicastApsAck (status_of (stack ex_x7) (0, 0%nat)) /\
  FlatMap.get (SendTracker.run (SendTracker.insert SendTracker.new 77 (0, 0%nat) SendTracker.UnicastApsAck) ex_ops).2 77 =
    SendTracker.entry_at (0, 0%nat) SendTracker.UnicastApsAck (status_of (stack ex_x7) (0, 0%nat)).
Proof.
  split; [vm_compute; discriminate|].
  apply (host_learns_once ex_new (take 3 ex_labels) (mkSys ex_s3 None [])); [split; reflexivity|apply ex_accepted|vm_compute; reflexivity|apply ex_host].
Defined.

(** The restart. *)
Definition ex_saved : Bridge.Saved := Bridge.mkSaved NwkWitness.ex_key None 8.
Definition ex_payload : Wire.ConfigurePayload :=
  Wire.mkConfigure Wire.RoleCoordinator true (Bridge.network_state ex_config ex_saved (stack ex_x7)).
Definition ex_restarted : t := Bridge.configure ex_payload Tunables.default 0.
Definition ex_asked_again : t := (left (inr NotStarted, ex_new) (send_aps_unicast (env 2000000) ex_restarted ex_request)).2.

Lemma ex_rerun : run (mkSys ex_restarted None []) [Silent; Secured 503] (begun (env 2000010) ex_asked_again).
Proof.
  eapply run_cons; [|eapply run_cons; [|apply run_nil]].
  - apply (step_act (env 2000000)); [apply env_unsigned|].
    apply (act_unicast _ _ ex_request (left (inr NotStarted, ex_new) (send_aps_unicast (env 2000000) ex_restarted ex_request)).1).
    unfold ex_asked_again. rewrite <- surjective_pairing. apply left_returned. vm_compute. reflexivity.
  - apply begun_step; [apply env_unsigned|vm_compute; reflexivity].
Qed.

Lemma restart_keeps_nonces_fresh_witness :
  secured (ex_labels ++ [Silent; Secured 503]) = [501; 502; 503] /\ StronglySorted Z.lt (secured (ex_labels ++ [Silent; Secured 503])).
Proof.
  split; [reflexivity|]. exact (proj1 (restart_keeps_nonces_fresh _ _ ex_x7 ex_config ex_saved ex_payload Tunables.default 0 _ _ ex_run eq_refl ex_rerun)).
Defined.

(** ** The firmware *)

(** A header of three octets, and replies of one. *)
Definition type_code (ty : Wire.FrameType) : Z :=
  match ty with Wire.TypeRequest => 0 | Wire.TypeResponse => 1 | Wire.TypeEvent => 2 | Wire.TypeNotification => 3 end.
Definition type_of (z : Z) : Wire.FrameType :=
  match z with 0 => Wire.TypeRequest | 1 => Wire.TypeResponse | 2 => Wire.TypeEvent | _ => Wire.TypeNotification end.
#[local] Instance header_codec : AbstractBits Wire.Header := {|
  read_abstract_bits bs := match bs with c :: ty :: id :: _ => Some (Wire.mkHeader c (type_of ty) id, 3%nat) | _ => None end;
  write_abstract_bits h := Some [Wire.command h; type_code (Wire.frame_type h); Wire.request_id h]
|}.
#[local] Instance status_codec : AbstractBits Wire.Status := {|
  read_abstract_bits bs := None;
  write_abstract_bits st := Some [match st with Wire.StatusOk => 0 | Wire.NotConfigured => 4 | _ => 9 end]
|}.
#[local] Instance wire_codecs : Wire.WireCodecs := {|
  Wire.header_bits := header_codec; Wire.status_bits := status_codec; Wire.reset_bits := no_codec _; Wire.configure_bits := no_codec _;
  Wire.key_table_bits := no_codec _; Wire.children_bits := no_codec _; Wire.address_cache_bits := no_codec _; Wire.route_table_bits := no_codec _;
  Wire.source_routes_bits := no_codec _; Wire.send_unicast_bits := no_codec _; Wire.send_broadcast_bits := no_codec _; Wire.send_groupcast_bits := no_codec _;
  Wire.permit_joins_bits := no_codec _; Wire.channel_bits := no_codec _; Wire.update_id_bits := no_codec _; Wire.provisional_key_bits := no_codec _;
  Wire.scan_request_bits := no_codec _; Wire.set_tunable_bits := no_codec _; Wire.cancel_request_bits := no_codec _; Wire.firmware_info_bits := no_codec _;
  Wire.hw_address_bits := no_codec _; Wire.network_info_bits := no_codec _; Wire.scan_count_bits := no_codec _; Wire.cancel_result_bits := no_codec _;
  Wire.send_result_bits := no_codec _; Wire.rate_limited_bits := no_codec _; Wire.key_entry_bits := no_codec _; Wire.child_entry_bits := no_codec _;
  Wire.address_entry_bits := no_codec _; Wire.route_entry_bits := no_codec _; Wire.energy_result_bits := no_codec _; Wire.beacon_bits := no_codec _;
  Wire.captured_bits := no_codec _; Wire.hello_bits := no_codec _; Wire.last_reset_bits := no_codec _; Wire.received_aps_bits := no_codec _;
  Wire.send_confirm_bits := no_codec _; Wire.aps_ack_confirm_bits := no_codec _; Wire.broadcast_confirm_bits := no_codec _; Wire.received_gpdf_bits := no_codec _;
  Wire.device_joined_bits := no_codec _; Wire.device_left_bits := no_codec _; Wire.frame_counter_bits := no_codec _; Wire.link_key_bits := no_codec _;
  Wire.decrypt_fail_bits := no_codec _; Wire.route_record_bits := no_codec _; Wire.aps_frame_counter_bits := no_codec _
|}.
#[local] Existing Instance StackWitness.deaf_radio.
#[local] Existing Instance NcpFacts.ncp_surface.

Definition ex_world : Ncp.World := Ncp.mkWorld (env 0) (fun _ s => s) 0 (eui 0x01) [].
Definition ex_app : Ncp.App (R:=Z) := Ncp.mkApp (R:=Z) 15 None false false SendTracker.new (Ncp.mkOutbound [] []).
Definition ex_loading : Ncp.App (R:=Z) := Ncp.set_stack ex_app (Some (Ncp.configured_stack ex_world ex_payload)).

Lemma lifecycle_refined_witness :
  Ncp.dispatch ex_world 7 (Wire.Configure ex_payload) ex_app = Ok (Ncp.Replied (inl Wire.Empty), ex_loading) /\ Surface.phase ex_loading = Surface.Loading.
Proof.
  split; [reflexivity|]. exact (proj1 (NcpFacts.lifecycle_refined ex_world 7 (Wire.Configure ex_payload) ex_app (Ncp.Replied (inl Wire.Empty)) ex_loading eq_refl)).
Defined.

(** A request to start the network before there is a stack. *)
Definition ex_refused : Ncp.App (R:=Z) := Ncp.set_outbound ex_app (Ncp.mkOutbound [] [[0x16; 1; 7; 4]]).

Lemma one_reply_per_request_witness :
  Ncp.handle_frame ex_world [0x16; 0; 7] ex_app = Ok (Some ex_refused) /\
  exists evs r, Surface.written ex_refused = Surface.written ex_app ++ evs ++ [Ncp.reply_frame r (Wire.mkHeader 0x16 Wire.TypeRequest 7)] /\
    Forall (Surface.is_event 7) evs.
Proof. split; [reflexivity|]. exact (NcpFacts.one_reply_per_request ex_world [0x16; 0; 7] ex_app ex_refused eq_refl). Defined.

(** ** The server *)
#[local] Existing Instance ServerFacts.server_surface.

Definition ex_hw : eff Z RadioError Eui64 := mret (eui 0x01).
Definition ex_server_world : Server.World (R:=Z) := Server.mkWorld (R:=Z) (env 0) (fun _ c => c) (fun s => s) 0 (Some 15) [].
Definition ex_conn : Server.Conn (R:=Z) := Server.mkConn (R:=Z) None [] None false None SendTracker.new [].
Definition ex_served : Server.Conn (R:=Z) :=
  Server.mkConn (R:=Z) (Some 15) [Server.configured_stack ex_server_world ex_payload] (Some 0%nat) false None SendTracker.new [].

Lemma ex_calm : ServerFacts.calm ex_server_world.
Proof. intros n c. split; [done|]. by exists []; rewrite app_nil_r. Qed.

Lemma server_lifecycle_refined_witness :
  Server.handle ex_hw ex_server_world 7 (Wire.Configure ex_payload) ex_conn = Ok (inl Wire.Empty, ex_served) /\ Surface.phase ex_served = Surface.Loading.
Proof.
  split; [reflexivity|].
  exact (proj1 (ServerFacts.server_lifecycle_refined ex_hw ex_server_world ex_calm 7 (Wire.Configure ex_payload) ex_conn (inl Wire.Empty) ex_served eq_refl)).
Defined.

(** Stuffing with an escape octet, after a mark. *)
Definition stuff (b : Z) : bytes := if b =? 0 then [1; 1] else if b =? 1 then [1; 2] else [b].
Fixpoint unstuff (bs : bytes) : bytes :=
  match bs with
  | [] => []
  | b :: rest => if b =? 1 then match rest with x :: rest => (x - 1) :: unstuff rest | [] => [] end else b :: unstuff rest
  end.
#[local] Instance ex_cobs : Server.Cobs := {|
  Server.cobs_encode f := 3 :: concat (map stuff f);
  Server.cobs_decode bs := Some (unstuff (tail bs))
|}.
#[local] Instance ex_cobs_laws : Server.CobsLaws.
Proof.
  split.
  - intros f _. cbn. f_equal. induction f as [|b f IH]; [done|]. cbn [map concat]. unfold stuff at 1.
    destruct (Z.eqb_spec b 0) as [->|H0]; [cbn; by rewrite IH|]. destruct (Z.eqb_spec b 1) as [->|H1]; cbn; [by rewrite IH|].
    by rewrite (proj2 (Z.eqb_neq b 1) H1), IH.
  - intros f _. cbn. constructor; [done|]. induction f as [|b f IH]; [constructor|]. cbn. apply Forall_app. split; [|done]. unfold stuff.
    destruct (Z.eqb_spec b 0); [repeat constructor; lia|]. destruct (Z.eqb_spec b 1); repeat constructor; lia.
  - done.
Defined.

(** A request to start the network before there is a stack, in two reads; meanwhile another task
    writes a frame. *)
Definition ex_chunks : list bytes := [[3; 0x16]; [1; 1; 7; 0]].
Definition ex_messages : list Server.Message := [Server.OtherMessage; Server.Binary [0x16; 0; 7]; Server.CloseMessage; Server.Binary [1]].
Definition ex_notified (n : nat) (c : Server.Conn (R:=Z)) : Server.Conn (R:=Z) := Server.set_outbound c (Server.outbound c ++ [[0x80; 3; 0]]).
Definition ex_task : Server.Task := (Wire.mkHeader 0x16 Wire.TypeRequest 7, Wire.StartNetwork).
Definition ex_read_conn : Server.Conn (R:=Z) := Server.set_outbound ex_conn [Server.hello_frame ex_conn; [0x80; 3; 0]].
Definition ex_answered_conn : Server.Conn (R:=Z) := Server.set_outbound ex_conn [Server.hello_frame ex_conn; [0x80; 3; 0]; [0x16; 1; 7; 4]].

Lemma server_answers_stream_witness :
  Server.handle_stream_connection ex_notified ex_chunks ex_conn = ([ex_task], ex_read_conn) /\
  Server.run_task ex_hw ex_server_world ex_task ex_read_conn = Ok ex_answered_conn /\
  Server.read_stream [] ex_chunks = ([], [[0x16; 0; 7]]) /\
  Server.handle_connection ex_notified ex_messages ex_conn = ([ex_task], ex_read_conn) /\
  exists evs r out, Server.outbound ex_answered_conn = Server.outbound ex_read_conn ++ out ++ [Ncp.reply_frame r ex_task.1] /\
    Forall (Surface.is_event 7) evs /\ ServerFacts.woven (fun f => f = [0x80; 3; 0]) evs out.
Proof.
  assert (Hrun : Server.run_task ex_hw ex_server_world ex_task ex_read_conn = Ok ex_answered_conn) by reflexivity.
  destruct (ServerFacts.server_answers_stream ex_hw ex_server_world (fun f => f = [0x80; 3; 0]) ex_notified [[0x16; 0; 7]] ex_chunks ex_messages ex_conn [ex_task] ex_read_conn)
    as (Hread & Hws & _ & _ & Htask); [|repeat constructor; lia|reflexivity..|].
  - intros n c. exists [[0x80; 3; 0]]. split; [done|]. by apply Forall_singleton.
  - split_and!; [reflexivity|exact Hrun|exact Hread|exact Hws|]. apply (Htask ex_task ex_read_conn ex_answered_conn); [left| |exact Hrun].
    intros n c. exists []. split; [by rewrite app_nil_r|constructor].
Defined.
End HostWitness.
